(* ===== verification/_CoqProject ===== *)
-Q . S2P
Prelude.v
Types.v
Submission.v
InclusionLists.v
Rlp.v
MergeTrie.v
TrieSpec.v
TrieArena.v
TrieLoad.v
TriePut.v
TrieCommit.v
MerkleTries.v
MergeOrders.v
MergeWire.v
MergePool.v
MergeEngine.v
MergeServer.v
MergeResponses.v
MergeReturn.v
MergeState.v
MergeEffects.v
MergePayment.v
MergeBlock.v
MergeExtend.v
MergeRounds.v
MergeOpened.v
BidSorter.v
Hydration.v
SlotStores.v
SimError.v
SimEntry.v
ApiError.v
Simulators.v
SimResults.v
LocalCache.v
Network.v
RelayRounds.v
PeerConnection.v
PoolState.v
Replay.v
Payload.v
BlockMerger.v
Context.v
Auctioneer.v
Duties.v
Housekeeper.v
MergingTile.v
MergingRuns.v
MergeLink.v
HousekeeperRuns.v
Validation.v
Safety.v
Delivery.v
SlotFeed.v
Demotion.v
Runs.v
Scenarios.v
