(* ===== verification/Prelude.v ===== *)
(** * Helix: verification library

    Helix is a relay of the Ethereum block auction with, beside it, a builder
    that merges orders of several blocks into one. Block builders submit blocks
    with bids; the relay simulates them, serves the best bid to the proposer of
    the slot and hands out the payload of the block the proposer signed. This
    library models the program as functions and proves what makes its parts
    correct. Paths below are under [src/crates].

    ** Parts and how they interact

    - [relay/src/housekeeper] follows the beacon chain and announces slots,
      duties, payload attributes, inclusion lists and deadlines.
    - [relay/src/auctioneer] is one state machine: it validates submissions
      (hydrating those that refer to cached transactions), sends them to the
      simulators, sorts the bids, answers header and payload requests and keeps
      the stores of a slot.
    - [relay/src/simulator] chooses a simulator for each request, queues, retries
      and answers.
    - [common/src/local_cache.rs] is shared by all threads: registrations, duties,
      builders; [operator/src] replicates collateral pools between relays and
      changes the standing of builders in it.
    - [relay/src/network] shares inclusion lists between relays.
    - [relay/src/block_merging] forwards submissions with mergeable orders over a
      connection to the merging builder ([tcp-types/src/merging] is the protocol)
      and takes merged blocks back, which the auctioneer may serve.
    - [builder/src/server] and [builder/src/merge] are that builder: the server
      of the connection, the engine with its pool of orders, the state of the
      block it extends, the revenue it distributes and the tries of the state
      root.

    ** Files

    Shared: [Prelude] (results, record updates, the [Comp] monad of computations
    with state, output and panics, its weakest preconditions [wp], iteration order
    of hash maps as the class [HashOrder], lists and sums); [Types], [Submission],
    [Payload], [ApiError] (data of [types/src], [common/src] and the API errors).

    Auction: [BidSorter] ([bid_sorter.rs]); [Hydration] ([types/src/hydration.rs]);
    [SlotStores]; [SimError], [SimEntry], [Simulators], [SimResults]
    ([relay/src/simulator]); [BlockMerger] ([block_merger.rs]); [LocalCache];
    [Context] (the handlers of [context.rs], [validation.rs], [submit_block.rs],
    [get_header.rs], [get_payload.rs]); [Auctioneer] ([State::step] of [mod.rs]).
    [Validation], [Safety], [Delivery], [Demotion], [Runs] and [Scenarios] hold
    the theorems about them.

    Chain and peers: [Duties], [Housekeeper], [HousekeeperRuns], [SlotFeed]
    ([relay/src/housekeeper] and what its updates do to the auctioneer);
    [InclusionLists], [Network], [RelayRounds], [PeerConnection]
    ([relay/src/network], one relay and several of them);
    [PoolState], [Replay] ([operator/src/pool.rs]).

    Merging: [MergeOrders] and [MergeWire] (orders and protocol); [MergingTile] and
    [MergingRuns] ([relay/src/block_merging]); [MergePool], [MergeEngine],
    [MergeServer] (the builder's [pool.rs], [mod.rs] and [server]), with
    [MergeResponses] on what the server writes; [MergeLink] (relay and engine
    together) and [MergeReturn] (server and engine together); [MergeState],
    [MergeEffects], [MergePayment], [MergeBlock] ([state.rs], [effects.rs],
    [payment.rs], [block.rs]), with [MergeExtend], [MergeRounds] and [MergeOpened]
    on how a block is opened and extended; [Rlp], [MergeTrie], [TrieSpec], [TrieArena],
    [TrieLoad], [TriePut], [TrieCommit], [MerkleTries] ([rlp.rs], [trie.rs]).

    ** How the code is modelled

    A struct is a record, an enum an inductive type, a method that changes state a
    function on the record or a computation of [Comp]; [None] is a panic, [Err] an
    error of the code. Outputs of a computation are the answers, messages and
    writes of the code in order. Machine integers are [Z] with wrapping or
    saturation written out where the code can reach it; hashes, addresses and keys
    are the integers they spell; hash maps are [gmap] and are iterated in an order
    [HashOrder] chooses, so that theorems hold for every order. What several
    threads share is a record every step may find changed: a history is a list of
    events and of such changes. Clocks, sockets, queues, beacon nodes and the EVM
    are inputs of a step. Cryptography, SSZ, compression and the node's database are
    parameters ([Keccak], [MergingCodec], [ServerLibs], [StateDb] and others) with
    their laws as named hypotheses; each theorem that has hypotheses has a witness
    that applies it to a concrete instance.

    ** What is shown

    - The auctioneer does not panic, answers every request once, delivers at most
      one block a slot and can deliver every header it served ([Runs]); the sorter
      implements an abstract auction ([BidSorter]); validation accepts exactly the
      admissible submissions; the payload is delivered exactly for the signed block
      that commits to it ([Delivery]).
    - The simulator pool neither loses nor repeats an answer ([Simulators]).
    - The housekeeper announces every slot completely and only registrations that
      are backed; announced forks reach the auctioneer ([HousekeeperRuns],
      [SlotFeed]).
    - Sharing inclusion lists ends ([Network]), and relays that heard each other in
      time agree ([RelayRounds]); pool state follows its messages and is restored by
      a replay ([PoolState], [Replay]).
    - Forwarded blocks refer only to transactions the builder has, merged blocks are
      taken only when they append whole orders, and answer a block the connection
      sent ([MergingRuns], [MergeLink], [MergeReturn]); the pool implements a log of
      announcements, the engine runs out of work, its queue stays bounded and its
      responses are numbered for the connection they go to ([MergePool],
      [MergeEngine], [MergeServer], [MergeResponses]).
    - An execution is absorbed exactly and can be taken back without trace
      ([MergeState]); replaying a recorded effect is the same as the writes of the
      transaction ([MergeEffects]); a base block is extended within its limits by
      whole orders that pay ([MergeOpened]), and the revenue is split exactly
      ([MergePayment]); the tries are maps with the Merkle-Patricia roots of their
      content ([MerkleTries]).
    - [Scenarios], [MergeLink], [SlotFeed], [LocalCache], [MergePayment] and
      [MerkleTries] also evaluate runs in which the code does not do what it means
      to.

    ** Bounds and fuel

    Recursion over the arenas of the tries takes fuel: 66 for [put], one more than
    the nibbles of a key with its terminator, so that a path never runs out;
    [commit] takes the number of roots plus sixteen times the nodes it can reach,
    its work list never holds more; decoding takes one more than the length of the
    input. The theorems state success, not only that a result is right if there is
    one. Everything else is structural or a fold.

    ** Not modelled

    HTTP, web-socket and gRPC plumbing, the database, metrics and alerts, start-up,
    the SSZ and JSON codecs the code derives, the decoder of raw submissions, the
    execution of transactions (the EVM of the node), what [builder/src/building]
    and [builder/src/validation] do around it, and the assembly of the payload of a
    merged block ([BlockMerger::emit] with its roots and blooms): they are I/O,
    generated code, or calls of libraries whose source is not part of the
    repository. *)

From Stdlib Require Export ZArith Lia.
From stdpp Require Export base tactics numbers option list gmap sorting strings.

#[export] Set Default Goal Selector "!".

(** ** Rust-level scalar types *)

(** Fixed-size byte arrays ([B256], [BlsPublicKeyBytes], [Address], [Uuid]) are
    the big-endian integers they spell; the code only compares, hashes and
    copies them, and the all-zero array is [0]. Machine integers are [Z]. *)
Abbreviation B256 := Z (only parsing).
Abbreviation Pubkey := Z (only parsing).
Abbreviation Address := Z (only parsing).
Abbreviation Uuid := Z (only parsing).
Abbreviation U256 := Z (only parsing).
Abbreviation u64 := Z (only parsing).
Abbreviation u32 := Z (only parsing).

Declare Scope helix_scope.
Delimit Scope helix_scope with helix.
#[global] Open Scope Z_scope.
#[global] Open Scope helix_scope.

Definition u32_modulus : Z := 2 ^ 32.
Definition u64_modulus : Z := 2 ^ 64.
Definition u64_max : Z := u64_modulus - 1.

(** Release builds wrap: [x += 1] on a [u32] counter. *)
Definition inc32 (x : Z) : Z := (x + 1) mod u32_modulus.

(** [saturating_sub] on an unsigned integer. *)
Definition sat_sub (x y : Z) : Z := Z.max 0 (x - y).

Lemma inc32_add x y : inc32 ((x + y) mod u32_modulus) = (inc32 x + y) mod u32_modulus.
Proof.
  unfold inc32.
  rewrite Z.add_mod_idemp_l by (unfold u32_modulus; lia).
  rewrite Z.add_mod_idemp_l by (unfold u32_modulus; lia).
  f_equal. lia.
Qed.

(** ** Results *)

Inductive Result (A E : Type) : Type :=
| Ok (a : A)
| Err (e : E).
Arguments Ok {A E} a.
Arguments Err {A E} e.

Definition is_ok {A E} (r : Result A E) : bool :=
  match r with Ok _ => true | Err _ => false end.

Definition result_bind {A B E} (r : Result A E) (k : A → Result B E) : Result B E :=
  match r with Ok a => k a | Err e => Err e end.

Definition result_map_err {A E F} (f : E → F) (r : Result A E) : Result A F :=
  match r with Ok a => Ok a | Err e => Err (f e) end.

(** [require b e]: the early return [if !b { return Err(e) }]. *)
Definition require {E} (b : bool) (e : E) : Result unit E :=
  if b then Ok tt else Err e.

Notation "'let?' x ':=' r 'in' k" :=
  (result_bind r (λ x, k)) (at level 10, x pattern, r at level 100, k at level 200)
  : helix_scope.
Notation "r '&&?' k" :=
  (result_bind r (λ _ : unit, k)) (at level 60, right associativity) : helix_scope.

#[export] Instance result_eq_dec {A E} `{!EqDecision A, !EqDecision E} : EqDecision (Result A E).
Proof. solve_decision. Defined.

Lemma require_ok {E} b (e : E) : require b e = Ok tt ↔ b = true.
Proof. destruct b; simpl; split; congruence. Qed.

Lemma result_bind_ok {A B E} (r : Result A E) (k : A → Result B E) b :
  result_bind r k = Ok b ↔ ∃ a, r = Ok a ∧ k a = Ok b.
Proof. destruct r; simpl; naive_solver. Qed.

(** ** Record update

    [r <| proj := v |>] is the struct [r] with field [proj] replaced; it needs
    an [Eta] instance for the record, the constructor applied to every
    projection. *)
Class Eta (R : Type) := eta_expand : R → R.
Class Update {R T : Type} (proj : R → T) := update_field : (T → T) → R → R.

Ltac derive_update :=
  match goal with
  | |- @Update ?R ?T ?proj =>
      let e := eval cbv delta [eta_expand] in (@eta_expand R _) in
      let e := eval hnf in e in
      let p := eval pattern proj in e in
      match p with
      | ?body _ =>
          let t := eval cbv beta in (λ (g : T → T) (r : R), body (λ r0, g (proj r0)) r) in
          exact t
      end
  end.
#[export] Hint Extern 1 (Update _) => derive_update : typeclass_instances.

Notation "r '<|' proj ':=' v '|>'" :=
  (update_field (proj := proj) (λ _, v) r)
  (at level 1, left associativity, proj at level 9) : helix_scope.
Notation "r '<|' proj '::=' g '|>'" :=
  (update_field (proj := proj) g r)
  (at level 1, left associativity, proj at level 9) : helix_scope.

(** Computes record updates away. *)
Ltac rec_simpl := unfold update_field in *; cbn in *.

(** ** Effectful code

    A handler reads and writes a state [S], produces outputs [O] (messages on
    the spine, answers to waiting requests, database writes) and may panic: an
    [assert_eq!] that fails or an [expect] on [None] is [None]. The relay is
    built with [panic = "abort"], so a panic ends the process. *)
Definition Comp (S O A : Type) : Type := S → option (A * S * list O).

#[export] Instance comp_ret {S O} : MRet (Comp S O) := λ A a s, Some (a, s, []).
#[export] Instance comp_bind {S O} : MBind (Comp S O) := λ A B k m s,
  match m s with
  | Some (a, s', o) =>
      match k a s' with
      | Some (b, s'', o') => Some (b, s'', o ++ o')
      | None => None
      end
  | None => None
  end.

Definition get {S O} : Comp S O S := λ s, Some (s, s, []).
Definition gets {S O A} (f : S → A) : Comp S O A := λ s, Some (f s, s, []).
Definition modify {S O} (f : S → S) : Comp S O unit := λ s, Some (tt, f s, []).
Definition emit {S O} (o : list O) : Comp S O unit := λ s, Some (tt, s, o).
Definition panic {S O A} : Comp S O A := λ _, None.

(** [assert_eq!(x, y)] and the like. *)
Definition assert_that {S O} (b : bool) : Comp S O unit :=
  if b then mret tt else panic.

(** Runs a computation on a component [T] of the state. *)
Definition zoom {S T O P A} (view : S → T) (put : T → S → S) (out : O → P)
    (m : Comp T O A) : Comp S P A :=
  λ s, match m (view s) with
       | Some (a, t, o) => Some (a, put t s, out <$> o)
       | None => None
       end.

(** [wp m Q s]: run from [s], [m] does not panic and ends in [Q]. *)
Definition wp {S O A} (m : Comp S O A) (Q : A → S → list O → Prop) (s : S) : Prop :=
  match m s with Some (a, s', o) => Q a s' o | None => False end.
#[global] Arguments wp : simpl never.

Section wp_rules.
Context {S O : Type}.
Implicit Types s : S.

Lemma wp_ret {A} (a : A) (Q : A → S → list O → Prop) s : Q a s [] → wp (mret a) Q s.
Proof. done. Qed.

Lemma wp_bind {A B} (m : Comp S O A) (k : A → Comp S O B) Q s :
  wp m (λ a s' o, wp (k a) (λ b s'' o', Q b s'' (o ++ o')) s') s → wp (m ≫= k) Q s.
Proof.
  unfold wp, mbind, comp_bind. destruct (m s) as [[[a s'] o]|]; [|done].
  by destruct (k a s') as [[[b s''] o']|].
Qed.

Lemma wp_mono {A} (m : Comp S O A) (Q R : A → S → list O → Prop) s :
  wp m Q s → (∀ a s' o, Q a s' o → R a s' o) → wp m R s.
Proof. unfold wp. destruct (m s) as [[[a s'] o]|]; naive_solver. Qed.

Lemma wp_conj {A} (m : Comp S O A) (Q R : A → S → list O → Prop) s :
  wp m Q s → wp m R s → wp m (λ a s' o, Q a s' o ∧ R a s' o) s.
Proof. unfold wp. destruct (m s) as [[[a s'] o]|]; naive_solver. Qed.

Lemma wp_get (Q : S → S → list O → Prop) s : Q s s [] → wp get Q s.
Proof. done. Qed.
Lemma wp_gets {A} (f : S → A) (Q : A → S → list O → Prop) s : Q (f s) s [] → wp (gets f) Q s.
Proof. done. Qed.
Lemma wp_modify f (Q : unit → S → list O → Prop) s : Q tt (f s) [] → wp (modify f) Q s.
Proof. done. Qed.
Lemma wp_emit o (Q : unit → S → list O → Prop) s : Q tt s o → wp (emit o) Q s.
Proof. done. Qed.
Lemma wp_assert b (Q : unit → S → list O → Prop) s : b = true → Q tt s [] → wp (assert_that b) Q s.
Proof. by intros ->. Qed.

Lemma wp_zoom {T P A} (view : S → T) (put : T → S → S) (out : P → O)
    (m : Comp T P A) (Q : A → S → list O → Prop) s :
  wp m (λ a t o, Q a (put t s) (out <$> o)) (view s) → wp (zoom view put out m) Q s.
Proof. unfold wp, zoom. by destruct (m (view s)) as [[[a t] o]|]. Qed.

(** A run that succeeds satisfies what [wp] promises of it. *)
Lemma wp_run {A} (m : Comp S O A) Q s a s' o :
  wp m Q s → m s = Some (a, s', o) → Q a s' o.
Proof. unfold wp. intros H E. by rewrite E in H. Qed.
End wp_rules.

(** A quantity every run of [m] that returns changes by [d]. *)
Definition shifts {S O A} (f : S → Z) (d : Z) (m : Comp S O A) : Prop :=
  ∀ s a s' o, m s = Some (a, s', o) → f s' = f s + d.

Section shifts_rules.
Context {S O : Type} (f : S → Z).

Lemma shifts_ret {A} (a : A) : shifts f 0 (mret a : Comp S O A).
Proof. intros s b s' o [= <- <- <-]. lia. Qed.
Lemma shifts_panic {A} d : shifts f d (panic : Comp S O A).
Proof. done. Qed.
Lemma shifts_get : shifts f 0 (get : Comp S O S).
Proof. intros s b s' o [= <- <- <-]. lia. Qed.
Lemma shifts_gets {A} (g : S → A) : shifts f 0 (gets g : Comp S O A).
Proof. intros s b s' o [= <- <- <-]. lia. Qed.
Lemma shifts_emit l : shifts f 0 (emit l : Comp S O unit).
Proof. intros s b s' o [= <- <- <-]. lia. Qed.
Lemma shifts_modify d g : (∀ s, f (g s) = f s + d) → shifts f d (modify g : Comp S O unit).
Proof. intros H s b s' o [= <- <- <-]. apply H. Qed.
Lemma shifts_bind {A B} d1 d2 (m : Comp S O A) (k : A → Comp S O B) :
  shifts f d1 m → (∀ a, shifts f d2 (k a)) → shifts f (d1 + d2) (m ≫= k).
Proof.
  intros Hm Hk s b s' o. unfold mbind, comp_bind.
  destruct (m s) as [[[a s1] o1]|] eqn:E1; [|done].
  destruct (k a s1) as [[[b' s2] o2]|] eqn:E2; [|done]. intros [= <- <- <-].
  rewrite (Hk a _ _ _ _ E2), (Hm _ _ _ _ E1). lia.
Qed.
(** The form for a sequence whose total is known. *)
Lemma shifts_bind_0 {A B} d (m : Comp S O A) (k : A → Comp S O B) :
  shifts f 0 m → (∀ a, shifts f d (k a)) → shifts f d (m ≫= k).
Proof. intros Hm Hk. apply (shifts_bind 0 d); done. Qed.
End shifts_rules.

(** Every run of [m] that returns keeps the invariant [I] and returns a value
    in [Q]. *)
Definition keeps {S O A} (I : S → Prop) (Q : A → Prop) (m : Comp S O A) : Prop :=
  ∀ s a s' o, m s = Some (a, s', o) → I s → I s' ∧ Q a.

Section keeps_rules.
Context {S O : Type} (I : S → Prop).

Lemma keeps_ret {A} (Q : A → Prop) (a : A) : Q a → keeps I Q (mret a : Comp S O A).
Proof. by intros HQ s b s' o [= <- <- <-]. Qed.
Lemma keeps_panic {A} (Q : A → Prop) : keeps I Q (panic : Comp S O A).
Proof. done. Qed.
Lemma keeps_get : keeps I I (get : Comp S O S).
Proof. by intros s b s' o [= <- <- <-]. Qed.
Lemma keeps_gets {A} (f : S → A) : keeps I (λ a, ∃ s, I s ∧ a = f s) (gets f : Comp S O A).
Proof. intros s b s' o [= <- <- <-] Hs. split; [done|]. by exists s. Qed.
Lemma keeps_emit l : keeps I (λ _, True) (emit l : Comp S O unit).
Proof. by intros s b s' o [= <- <- <-]. Qed.
Lemma keeps_modify f : (∀ s, I s → I (f s)) → keeps I (λ _, True) (modify f : Comp S O unit).
Proof. intros H s b s' o [= <- <- <-] Hs. auto. Qed.
Lemma keeps_bind {A B} (Q : A → Prop) (R : B → Prop) (m : Comp S O A) (k : A → Comp S O B) :
  keeps I Q m → (∀ a, Q a → keeps I R (k a)) → keeps I R (m ≫= k).
Proof.
  intros Hm Hk s b s' o. unfold mbind, comp_bind.
  destruct (m s) as [[[a s1] o1]|] eqn:E1; [|done].
  destruct (k a s1) as [[[b' s2] o2]|] eqn:E2; [|done]. intros [= <- <- <-] Hs.
  destruct (Hm _ _ _ _ E1 Hs) as [Hs1 HQ]. exact (Hk a HQ _ _ _ _ E2 Hs1).
Qed.
Lemma keeps_weaken {A} (Q R : A → Prop) (m : Comp S O A) :
  keeps I Q m → (∀ a, Q a → R a) → keeps I R m.
Proof. intros Hm HQ s a s' o E Hs. destruct (Hm _ _ _ _ E Hs). auto. Qed.
Lemma keeps_true {A} (Q : A → Prop) (m : Comp S O A) : keeps I Q m → keeps I (λ _, True) m.
Proof. intros H. by eapply keeps_weaken. Qed.

(** A run that does not panic and keeps the invariant. *)
Lemma wp_keeps {A} (Q : A → Prop) (R : A → S → list O → Prop) (m : Comp S O A) s :
  wp m R s → keeps I Q m → I s → wp m (λ a s' o, R a s' o ∧ I s' ∧ Q a) s.
Proof.
  unfold wp. destruct (m s) as [[[a s'] o]|] eqn:E; [|done]. intros HR Hk Hs. split; [done|]. eauto.
Qed.
End keeps_rules.

(** Symbolic execution: one rule per step, leaving calls to named handlers. *)
Ltac wp_step :=
  lazymatch goal with
  | |- wp (mbind _ _) _ _ => apply wp_bind
  | |- wp (mret _) _ _ => apply wp_ret
  | |- wp get _ _ => apply wp_get
  | |- wp (gets _) _ _ => apply wp_gets
  | |- wp (modify _) _ _ => apply wp_modify
  | |- wp (emit _) _ _ => apply wp_emit
  | |- wp (zoom _ _ _ _) _ _ => apply wp_zoom
  | |- wp (match ?x with _ => _ end) _ _ => destruct x eqn:?
  | |- wp (if ?x then _ else _) _ _ => destruct x eqn:?
  end.
Ltac wp_steps := repeat (wp_step; cbn beta iota).

(** ** Hash maps

    [FxHashMap] and [DashMap] iterate in an unspecified order. [hash_iter] is
    any such order; the laws below are all that is known of it. *)
Class HashOrder := {
  hash_iter : ∀ {K V : Type} `{Countable K}, gmap K V → list (K * V);
  hash_iter_perm : ∀ (K V : Type) `{Countable K} (m : gmap K V),
    hash_iter m ≡ₚ map_to_list m
}.

(** One concrete order, to evaluate examples. *)
Definition list_order : HashOrder := {|
  hash_iter := λ K V _ _ m, map_to_list m;
  hash_iter_perm := λ K V _ _ m, reflexivity _
|}.

Section hash_order.
Context `{HO : HashOrder} `{Countable K} {V : Type}.
Implicit Types (m : gmap K V).

Definition hash_keys m : list K := (hash_iter m).*1.
Definition hash_values m : list V := (hash_iter m).*2.

Lemma elem_of_hash_iter m k v : (k, v) ∈ hash_iter m ↔ m !! k = Some v.
Proof. rewrite hash_iter_perm. apply elem_of_map_to_list. Qed.

Lemma elem_of_hash_values m v : v ∈ hash_values m ↔ ∃ k, m !! k = Some v.
Proof.
  unfold hash_values. rewrite list_elem_of_fmap. split.
  - intros ([k w] & -> & Hin). exists k. by apply elem_of_hash_iter.
  - intros [k Hk]. exists (k, v). by rewrite elem_of_hash_iter.
Qed.

Lemma elem_of_hash_keys m k : k ∈ hash_keys m ↔ is_Some (m !! k).
Proof.
  unfold hash_keys. rewrite list_elem_of_fmap. split.
  - intros ([k' w] & -> & Hin). exists w. by apply elem_of_hash_iter.
  - intros [v Hk]. exists (k, v). by rewrite elem_of_hash_iter.
Qed.

Lemma hash_values_perm m : hash_values m ≡ₚ (map_to_list m).*2.
Proof. unfold hash_values. by rewrite hash_iter_perm. Qed.

Lemma hash_values_empty : hash_values (∅ : gmap K V) = [].
Proof.
  apply Permutation_nil_r. by rewrite hash_values_perm, map_to_list_empty.
Qed.

Lemma hash_values_nil m : hash_values m = [] → m = ∅.
Proof.
  intros E. apply map_eq. intros k. rewrite lookup_empty.
  destruct (m !! k) as [v|] eqn:Hk; [|done].
  assert (v ∈ hash_values m) as Hin by (apply elem_of_hash_values; eauto).
  rewrite E in Hin. by apply elem_of_nil in Hin.
Qed.
End hash_order.

(** ** Iterators

    [Iterator::reduce], [max_by] (the last maximum), [min_by] (the first
    minimum), [position], [Vec::swap_remove]. *)
Definition reduce {A} (f : A → A → A) (l : list A) : option A :=
  match l with
  | [] => None
  | x :: l' => Some (foldl f x l')
  end.

Definition max_by {A} (cmp : A → A → comparison) : list A → option A :=
  reduce (λ x y, match cmp x y with Gt => x | _ => y end).

Definition min_by {A} (cmp : A → A → comparison) : list A → option A :=
  reduce (λ x y, match cmp x y with Gt => y | _ => x end).

Fixpoint position {A} (p : A → bool) (l : list A) : option nat :=
  match l with
  | [] => None
  | x :: l' => if p x then Some O else S <$> position p l'
  end.

Definition find {A} (p : A → bool) (l : list A) : option A :=
  i ← position p l; l !! i.

Fixpoint enumerate_from {A} (i : nat) (l : list A) : list (nat * A) :=
  match l with
  | [] => []
  | x :: l' => (i, x) :: enumerate_from (S i) l'
  end.
Definition enumerate {A} : list A → list (nat * A) := enumerate_from 0.

(** Removes index [i] and fills the hole with the last element; [None] out of
    range, where the code panics. *)
Definition swap_remove {A} (i : nat) (l : list A) : option (A * list A) :=
  x ← l !! i;
  z ← last l;
  let front := take (pred (length l)) l in
  Some (x, <[i := z]> front).

(** The order behind [Ord::cmp] on the keys a [max_by_key] compares. *)
Class TotalCmp {A} (cmp : A → A → comparison) : Prop := {
  cmp_flip : ∀ x y, cmp y x = CompOpp (cmp x y);
  cmp_trans : ∀ x y z, cmp x y ≠ Gt → cmp y z ≠ Gt → cmp x z ≠ Gt
}.

#[export] Instance Zcompare_total {A} (key : A → Z) :
  TotalCmp (λ x y, Z.compare (key x) (key y)).
Proof.
  split.
  - intros x y. apply Z.compare_antisym.
  - intros x y z. rewrite !Z.compare_le_iff. lia.
Qed.

(** Lexicographic order on pairs of keys. *)
Definition cmp_then (c d : comparison) : comparison :=
  match c with Eq => d | _ => c end.

#[export] Instance cmp_then_total {A} (c d : A → A → comparison)
    `{Hc : !TotalCmp c, Hd : !TotalCmp d} :
  TotalCmp (λ x y, cmp_then (c x y) (d x y)).
Proof.
  split.
  - intros x y. rewrite (cmp_flip (cmp := c) x y), (cmp_flip (cmp := d) x y).
    by destruct (c x y), (d x y).
  - intros x y z H1 H2.
    pose proof (cmp_trans (cmp := c) x y z) as T.
    pose proof (cmp_trans (cmp := c) z x y) as T1.
    pose proof (cmp_trans (cmp := c) y z x) as T2.
    pose proof (cmp_trans (cmp := d) x y z) as Td.
    pose proof (cmp_flip (cmp := c) x y) as F1.
    pose proof (cmp_flip (cmp := c) y z) as F2.
    pose proof (cmp_flip (cmp := c) x z) as F3.
    destruct (c x y) eqn:E1, (c y z) eqn:E2, (c x z) eqn:E3; simpl in *;
      intuition congruence.
Qed.

Section iterators.
Context {A : Type}.
Implicit Types l : list A.

Lemma foldl_select_elem (f : A → A → A) l x :
  (∀ a b, f a b = a ∨ f a b = b) → foldl f x l ∈ x :: l.
Proof.
  intros Hsel. revert x. induction l as [|y l IH]; intros x; simpl; [set_solver|].
  specialize (IH (f x y)). destruct (Hsel x y) as [E|E]; rewrite E in *; set_solver.
Qed.

Lemma reduce_select_elem (f : A → A → A) l x :
  (∀ a b, f a b = a ∨ f a b = b) → reduce f l = Some x → x ∈ l.
Proof. intros Hsel. destruct l; simpl; [done|]. intros [= <-]. by apply foldl_select_elem. Qed.

Lemma reduce_none (f : A → A → A) l : reduce f l = None ↔ l = [].
Proof. by destruct l. Qed.

Lemma foldl_bound (R : A → A → Prop) (f : A → A → A) l x :
  (∀ a, R a a) → (∀ a b c, R a b → R b c → R a c) →
  (∀ a b, R a (f a b) ∧ R b (f a b)) →
  ∀ y, y ∈ x :: l → R y (foldl f x l).
Proof.
  intros Hr Ht Hf. revert x. induction l as [|z l IH]; intros x y Hy; simpl.
  - apply list_elem_of_singleton in Hy. subst. apply Hr.
  - destruct (Hf x z) as [Hx Hz].
    apply elem_of_cons in Hy as [->|[->|Hy]%elem_of_cons].
    + eapply Ht; [apply Hx|]. apply IH. by left.
    + eapply Ht; [apply Hz|]. apply IH. by left.
    + apply IH. by right.
Qed.

Lemma reduce_bound (R : A → A → Prop) (f : A → A → A) l m :
  (∀ a, R a a) → (∀ a b c, R a b → R b c → R a c) →
  (∀ a b, R a (f a b) ∧ R b (f a b)) →
  reduce f l = Some m → ∀ y, y ∈ l → R y m.
Proof. intros Hr Ht Hf. destruct l; simpl; [done|]. intros [= <-]. by apply foldl_bound. Qed.

Lemma cmp_refl (cmp : A → A → comparison) `{!TotalCmp cmp} x : cmp x x ≠ Gt.
Proof. intros E. pose proof (cmp_flip x x) as F. by rewrite E in F. Qed.

Lemma max_by_elem (cmp : A → A → comparison) l x : max_by cmp l = Some x → x ∈ l.
Proof. apply reduce_select_elem. intros a b. destruct (cmp a b); auto. Qed.

Lemma max_by_ge (cmp : A → A → comparison) `{!TotalCmp cmp} l x y :
  max_by cmp l = Some x → y ∈ l → cmp y x ≠ Gt.
Proof.
  intros Hm Hy. revert y Hy.
  refine (reduce_bound (λ a b, cmp a b ≠ Gt) _ l x (cmp_refl cmp) cmp_trans _ Hm).
  intros a b. cbv beta. pose proof (cmp_flip a b) as F. pose proof (cmp_refl cmp a).
  pose proof (cmp_refl cmp b). destruct (cmp a b) eqn:E; simpl in F; split; congruence.
Qed.

Lemma min_by_elem (cmp : A → A → comparison) l x : min_by cmp l = Some x → x ∈ l.
Proof. apply reduce_select_elem. intros a b. destruct (cmp a b); auto. Qed.

Lemma min_by_le (cmp : A → A → comparison) `{!TotalCmp cmp} l x y :
  min_by cmp l = Some x → y ∈ l → cmp x y ≠ Gt.
Proof.
  intros Hm Hy. revert y Hy.
  refine (reduce_bound (λ a b, cmp b a ≠ Gt) _ l x (cmp_refl cmp) _ _ Hm).
  - intros a b c H1 H2. by apply (cmp_trans c b a).
  - intros a b. cbv beta. pose proof (cmp_flip a b) as F. pose proof (cmp_refl cmp a).
    pose proof (cmp_refl cmp b). destruct (cmp a b) eqn:E; simpl in F; split; congruence.
Qed.

Lemma max_by_none (cmp : A → A → comparison) l : max_by cmp l = None ↔ l = [].
Proof. apply reduce_none. Qed.
Lemma min_by_none (cmp : A → A → comparison) l : min_by cmp l = None ↔ l = [].
Proof. apply reduce_none. Qed.

Lemma position_some p l i :
  position p l = Some i →
  ∃ x, l !! i = Some x ∧ p x = true ∧ ∀ j y, (j < i)%nat → l !! j = Some y → p y = false.
Proof.
  revert i. induction l as [|x l IH]; intros i; simpl; [done|].
  destruct (p x) eqn:Ep.
  - intros [= <-]. exists x. split_and!; [done|done|]. lia.
  - intros (i' & Hi & ->)%fmap_Some. destruct (IH _ Hi) as (y & Hy & Hp & Hmin).
    exists y. split_and!; [done|done|]. intros [|j] z Hj Hz; simpl in Hz; [congruence|].
    eapply Hmin; [|exact Hz]. lia.
Qed.

Lemma position_none p l : position p l = None ↔ ∀ x, x ∈ l → p x = false.
Proof.
  induction l as [|x l IH]; simpl; [set_solver|].
  destruct (p x) eqn:Ep.
  - split; [done|]. intros H. rewrite H in Ep by set_solver. done.
  - rewrite fmap_None, IH. set_solver.
Qed.

Lemma find_some p l x : find p l = Some x → x ∈ l ∧ p x = true.
Proof.
  unfold find. intros (i & Hi & Hx)%bind_Some.
  apply position_some in Hi as (y & Hy & Hp & _). simplify_eq.
  split; [|done]. apply list_elem_of_lookup. eauto.
Qed.

(** [Iterator::filter]. *)
Lemma elem_of_bool_filter p l x : x ∈ List.filter p l ↔ x ∈ l ∧ p x = true.
Proof. by rewrite !list_elem_of_In, List.filter_In. Qed.

Lemma find_none p l : find p l = None ↔ ∀ x, x ∈ l → p x = false.
Proof.
  rewrite <- position_none. unfold find. destruct (position p l) as [i|] eqn:E; simpl; [|done].
  apply position_some in E as (y & Hy & _). by rewrite Hy.
Qed.

Lemma find_cons p x l : find p (x :: l) = if p x then Some x else find p l.
Proof. unfold find. simpl. destruct (p x); [done|]. by destruct (position p l). Qed.

Lemma elem_of_enumerate_from i l j x :
  (j, x) ∈ enumerate_from i l ↔ (i ≤ j)%nat ∧ l !! (j - i)%nat = Some x.
Proof.
  revert i. induction l as [|y l IH]; intros i; simpl.
  - split; [by intros ?%elem_of_nil|]. rewrite lookup_nil. naive_solver.
  - rewrite elem_of_cons, IH. destruct (decide (i = j)) as [->|Hne].
    + rewrite Nat.sub_diag. simpl. split; [|intros [_ [= ->]]; by left].
      intros [[= ->]|[? _]]; [done|lia].
    + split.
      * intros [[= ? _]|[Hle Hl]]; [done|]. split; [lia|].
        by replace (j - i)%nat with (S (j - S i))%nat by lia.
      * intros [Hle Hl]. right.
        replace (j - i)%nat with (S (j - S i))%nat in Hl by lia. simpl in Hl. split; [lia|done].
Qed.

Lemma elem_of_enumerate l j x : (j, x) ∈ enumerate l ↔ l !! j = Some x.
Proof. unfold enumerate. rewrite elem_of_enumerate_from, Nat.sub_0_r. naive_solver lia. Qed.

Lemma enumerate_nil l : enumerate l = [] ↔ l = [].
Proof. by destruct l. Qed.

(** [swap_remove] takes one element out and keeps the others. *)
Lemma swap_remove_perm i l x l' : swap_remove i l = Some (x, l') → l ≡ₚ x :: l'.
Proof.
  unfold swap_remove. intros (y & Hy & H)%bind_Some.
  apply bind_Some in H as (z & Hz & [= -> <-]).
  destruct l as [|w l0 _] using rev_ind; [done|].
  rewrite last_snoc in Hz. injection Hz as ->.
  rewrite length_app, Nat.add_comm. simpl. rewrite take_app_length.
  destruct (decide (i < length l0)%nat) as [Hlt|Hge].
  - rewrite lookup_app_l in Hy by done.
    rewrite (insert_take_drop l0 i z) by done.
    rewrite <- Permutation_cons_append.
    rewrite <- (take_drop_middle l0 i x Hy) at 1.
    rewrite <- !Permutation_middle. apply Permutation_swap.
  - assert (i = length l0) as ->.
    { apply lookup_lt_Some in Hy. rewrite length_app in Hy. simpl in Hy. lia. }
    rewrite lookup_app_r, Nat.sub_diag in Hy by lia. injection Hy as ->.
    rewrite list_insert_ge by lia. apply Permutation_app_comm.
Qed.

Lemma swap_remove_is_some i l : is_Some (swap_remove i l) ↔ (i < length l)%nat.
Proof.
  unfold swap_remove. split.
  - intros [r (y & Hy & _)%bind_Some]. by apply lookup_lt_Some in Hy.
  - intros Hlt. destruct (lookup_lt_is_Some_2 l i Hlt) as [x Hx]. rewrite Hx. simpl.
    destruct (last l) as [z|] eqn:Hz; [simpl; eauto|].
    apply last_None in Hz. subst. simpl in Hlt. lia.
Qed.
End iterators.

(** ** Sorting

    [sort_by cmp] is [slice::sort_by] and, on the lists the code sorts,
    [sort_unstable_by]: [sort_by_unique] says every sorted arrangement of
    pairwise distinguishable elements is the same one. *)
Definition sort_by {A} (cmp : A → A → comparison) : list A → list A :=
  merge_sort (λ x y, cmp x y ≠ Gt).

Section sorting.
Context {A : Type} (cmp : A → A → comparison) `{Hcmp : !TotalCmp cmp}.
Implicit Types l : list A.

#[local] Instance cmp_le_total : Total (λ x y, cmp x y ≠ Gt).
Proof.
  intros x y. pose proof (cmp_flip x y) as F. destruct (cmp x y); simpl in F;
    [left|left|right]; congruence.
Qed.
#[local] Instance cmp_le_trans : Transitive (λ x y, cmp x y ≠ Gt).
Proof. intros x y z. apply cmp_trans. Qed.

Lemma sort_by_perm l : sort_by cmp l ≡ₚ l.
Proof. apply merge_sort_Permutation. Qed.

Lemma sort_by_sorted l : StronglySorted (λ x y, cmp x y ≠ Gt) (sort_by cmp l).
Proof. apply StronglySorted_merge_sort; apply _. Qed.

Lemma sort_by_unique l k :
  (∀ x y, x ∈ l → y ∈ l → cmp x y = Eq → x = y) → l ≡ₚ k → sort_by cmp l = sort_by cmp k.
Proof.
  intros Heq Hp. apply (StronglySorted_unique_strong (λ x y, cmp x y ≠ Gt)).
  - intros x y Hx Hy Hxy Hyx. apply Heq.
    + by rewrite sort_by_perm in Hx.
    + by rewrite sort_by_perm, <- Hp in Hy.
    + pose proof (cmp_flip x y) as F. by destruct (cmp x y), (cmp y x).
  - apply sort_by_sorted.
  - apply sort_by_sorted.
  - by rewrite !sort_by_perm.
Qed.
End sorting.

(** Overwriting a cell swaps its content for the new one. *)
Lemma insert_perm {A} (l : list A) i x y : l !! i = Some x → y :: l ≡ₚ x :: <[i := y]> l.
Proof.
  intros Hi. rewrite (insert_take_drop l i y) by (by eapply lookup_lt_Some).
  rewrite <- (take_drop_middle l i x Hi) at 1. rewrite <- !Permutation_middle.
  apply Permutation_swap.
Qed.

Lemma elem_of_insert_ne {A} (l : list A) i x y e :
  l !! i = Some x → e ≠ x → e ≠ y → e ∈ l ↔ e ∈ <[i := y]> l.
Proof.
  intros Hi Hx Hy. pose proof (insert_perm l i x y Hi) as Hp.
  assert (e ∈ y :: l ↔ e ∈ x :: <[i := y]> l) as H by (by rewrite Hp).
  rewrite !elem_of_cons in H. naive_solver.
Qed.

Lemma foldl_preserves {A B} (P : A → Prop) (f : A → B → A) l a :
  (∀ a b, P a → P (f a b)) → P a → P (foldl f a l).
Proof. intros Hf. revert a. induction l; simpl; auto. Qed.

Lemma forallb_Forall {A} (p : A → bool) l : forallb p l = true ↔ Forall (λ x, p x = true) l.
Proof.
  induction l as [|x l IH]; simpl; [by split; [constructor|]|].
  by rewrite andb_true_iff, Forall_cons, IH.
Qed.

Lemma existsb_elem {A} (p : A → bool) l : existsb p l = true ↔ ∃ x, x ∈ l ∧ p x = true.
Proof.
  induction l as [|x l IH]; simpl; [set_solver|].
  rewrite orb_true_iff, IH. set_solver.
Qed.

Section filters.
Context {A : Type} (P : A → Prop) `{!∀ x, Decision (P x)}.

Lemma filter_all (l : list A) : (∀ x, x ∈ l → P x) → filter P l = l.
Proof.
  induction l as [|x l IH]; [done|]. intros HP.
  rewrite filter_cons_True by set_solver. f_equal. set_solver.
Qed.

Lemma filter_none (l : list A) : (∀ x, x ∈ l → ¬ P x) → filter P l = [].
Proof.
  induction l as [|x l IH]; [done|]. intros HP.
  rewrite filter_cons_False by set_solver. set_solver.
Qed.
End filters.

(** [u64::from_le_bytes] and its width-generic siblings. *)
Definition from_le_bytes : list Z → Z := foldr (λ b acc, b + 256 * acc) 0.

(** ** Sums *)

Definition sumZ : list Z → Z := foldr Z.add 0.

#[export] Instance sumZ_perm : Proper ((≡ₚ) ==> (=)) sumZ.
Proof. induction 1; simpl; lia. Qed.

Lemma sumZ_app l k : sumZ (l ++ k) = sumZ l + sumZ k.
Proof. induction l as [|x l IH]; simpl; [lia|]. rewrite IH. lia. Qed.

Lemma sumZ_nonneg l : (∀ x, x ∈ l → 0 ≤ x) → 0 ≤ sumZ l.
Proof.
  induction l as [|x l IH]; simpl; [lia|]. intros H.
  pose proof (H x ltac:(set_solver)). assert (0 ≤ sumZ l) by (apply IH; set_solver). lia.
Qed.

Lemma sumZ_insert l i x y : l !! i = Some y → sumZ (<[i := x]> l) = sumZ l - y + x.
Proof.
  intros Hi. rewrite insert_take_drop by (by eapply lookup_lt_Some).
  rewrite <- (take_drop_middle l i y Hi) at 3. rewrite !sumZ_app. simpl. lia.
Qed.

Lemma sumZ_delete l i y : l !! i = Some y → sumZ (delete i l) = sumZ l - y.
Proof.
  intros Hi. rewrite delete_take_drop. rewrite <- (take_drop_middle l i y Hi) at 3.
  rewrite !sumZ_app. simpl. lia.
Qed.

(** The sum of [f] over the values of a map. *)
Definition map_sum `{Countable K} {V} (f : V → Z) (m : gmap K V) : Z :=
  sumZ (f <$> (map_to_list m).*2).

Section map_sum.
Context `{Countable K} {V : Type} (f : V → Z).
Implicit Types m : gmap K V.

Lemma map_sum_empty : map_sum f (∅ : gmap K V) = 0.
Proof. unfold map_sum. by rewrite map_to_list_empty. Qed.

Lemma map_sum_insert_new m k v : m !! k = None → map_sum f (<[k := v]> m) = f v + map_sum f m.
Proof. intros Hk. unfold map_sum. by rewrite map_to_list_insert. Qed.

Lemma map_sum_delete m k v : m !! k = Some v → map_sum f m = f v + map_sum f (delete k m).
Proof.
  intros Hk. rewrite <- (insert_delete_id m k v Hk) at 1.
  apply map_sum_insert_new, lookup_delete_eq.
Qed.

Lemma map_sum_insert m k v :
  map_sum f (<[k := v]> m) = f v - from_option f 0 (m !! k) + map_sum f m.
Proof.
  destruct (m !! k) as [w|] eqn:Hk; simpl.
  - rewrite (map_sum_delete m k w Hk), <- insert_delete_eq, map_sum_insert_new
      by apply lookup_delete_eq. lia.
  - rewrite map_sum_insert_new by done. lia.
Qed.

Lemma map_sum_hash `{HO : HashOrder} m : sumZ (f <$> hash_values m) = map_sum f m.
Proof. unfold map_sum. by rewrite hash_values_perm. Qed.
End map_sum.

Lemma sumZ_fmap_le {A} (f g : A → Z) l : (∀ x, x ∈ l → f x ≤ g x) → sumZ (f <$> l) ≤ sumZ (g <$> l).
Proof.
  induction l as [|x l IH]; cbn; [done|]. intros H. pose proof (H x ltac:(by left)).
  assert (sumZ (f <$> l) ≤ sumZ (g <$> l)) by (apply IH; intros y Hy; apply H; by right). lia.
Qed.

Lemma sumZ_fmap_mul {A} (c : Z) (f : A → Z) l : sumZ ((λ x, c * f x) <$> l) = c * sumZ (f <$> l).
Proof. induction l as [|x l IH]; cbn; [lia|]. rewrite IH. lia. Qed.

(** ** Automation

    The rules that leave nothing to choose. *)
Create HintDb helix discriminated.
#[export] Hint Resolve sumZ_nonneg sort_by_perm : helix.
#[export] Hint Resolve wp_ret wp_get wp_gets wp_modify wp_emit : helix.
#[export] Hint Resolve keeps_ret keeps_panic keeps_get keeps_gets keeps_emit keeps_true : helix.
#[export] Hint Rewrite @sumZ_app @sumZ_fmap_mul : helix.
