(* ===== verification/Types.v ===== *)
(** * Shared data types

    The data the components exchange: submission versions, bid traces, fork
    keys and the validation errors of [crates/types] and [crates/common]. *)


From S2P Require Import Prelude.

(** Byte strings ([alloy_primitives::Bytes]): the byte values in order. *)
Abbreviation Bytes := (list Z) (only parsing).

(** ** Submission versions *)

Record SubmissionVersion := mkSubmissionVersion {
  on_receive_ns : u64;
  sequence : option u32
}.
#[export] Instance eta_SubmissionVersion : Eta SubmissionVersion :=
  λ r, mkSubmissionVersion (on_receive_ns r) (sequence r).
#[export] Instance SubmissionVersion_eq_dec : EqDecision SubmissionVersion.
Proof. solve_decision. Defined.

(** [Ord for SubmissionVersion]: two sequenced versions compare by sequence,
    any other pair by receive time. *)
Definition version_cmp (a b : SubmissionVersion) : comparison :=
  match sequence a, sequence b with
  | Some x, Some y => Z.compare x y
  | _, _ => Z.compare (on_receive_ns a) (on_receive_ns b)
  end.

(** The derived operators [<], [<=] and [>=]. *)
Definition version_lt (a b : SubmissionVersion) : bool :=
  match version_cmp a b with Lt => true | _ => false end.
Definition version_le (a b : SubmissionVersion) : bool :=
  match version_cmp a b with Gt => false | _ => true end.
Definition version_ge (a b : SubmissionVersion) : bool :=
  match version_cmp a b with Lt => false | _ => true end.

Lemma version_cmp_flip a b : version_cmp b a = CompOpp (version_cmp a b).
Proof.
  unfold version_cmp. destruct (sequence a), (sequence b); apply Z.compare_antisym.
Qed.

Lemma version_ge_lt a b : version_ge a b = negb (version_lt a b).
Proof. unfold version_ge, version_lt. by destruct (version_cmp a b). Qed.

Lemma version_lt_irrefl a : version_lt a a = false.
Proof.
  unfold version_lt, version_cmp. destruct (sequence a); by rewrite Z.compare_refl.
Qed.

(** The order is not transitive once sequenced and unsequenced versions of a
    builder meet: each of the three versions is older than the next, and the
    last older than the first. *)
Theorem version_lt_cycle :
  let a := mkSubmissionVersion 10 (Some 2) in
  let b := mkSubmissionVersion 20 None in
  let c := mkSubmissionVersion 30 (Some 1) in
  version_lt a b = true ∧ version_lt b c = true ∧ version_lt c a = true.
Proof. done. Qed.

(** ** Forks *)

Record ForkKey := mkForkKey {
  fk_parent_hash : B256;
  fk_parent_root : B256
}.
#[export] Instance ForkKey_eq_dec : EqDecision ForkKey.
Proof. solve_decision. Defined.
#[export] Instance ForkKey_countable : Countable ForkKey.
Proof.
  refine (inj_countable' (λ k, (fk_parent_hash k, fk_parent_root k))
            (λ p, mkForkKey p.1 p.2) _).
  by intros [].
Defined.

(** ** Submission identity and timing *)

Inductive SubmissionRefKind := RefHttp | RefTcp | RefInternal.
#[export] Instance SubmissionRefKind_eq_dec : EqDecision SubmissionRefKind.
Proof. solve_decision. Defined.

(** Where the result of a submission goes: [id] is the future's id for
    [RefHttp] and the connection token for [RefTcp]. *)
Record SubmissionRef := mkSubmissionRef {
  ref_kind : SubmissionRefKind;
  ref_seq_num : u32;
  ref_id : Z
}.
#[export] Instance SubmissionRef_eq_dec : EqDecision SubmissionRef.
Proof. solve_decision. Defined.

Definition ref_http (future_result_id : Z) : SubmissionRef := mkSubmissionRef RefHttp 0 future_result_id.
Definition ref_tcp (token : Z) (seq_num : u32) : SubmissionRef := mkSubmissionRef RefTcp seq_num token.

Record SubmissionTrace := mkSubmissionTrace {
  tr_receive_ns : u64;
  tr_read_body_ns : u64;
  tr_decoded_ns : u64
}.

Inductive OptimisticVersion := NotOptimistic | V1.
#[export] Instance OptimisticVersion_eq_dec : EqDecision OptimisticVersion.
Proof. solve_decision. Defined.
Definition version_is_optimistic (v : OptimisticVersion) : bool :=
  match v with V1 => true | NotOptimistic => false end.

Record InclusionListTxWithMetadata := mkInclusionListTx {
  il_hash : B256;
  il_bytes : Bytes
}.
Abbreviation InclusionListWithMetadata := (list InclusionListTxWithMetadata) (only parsing).
