(* ===== verification/Submission.v ===== *)
(** * Bid submissions

    [types/src/bid_submission.rs], [execution_payload.rs], [blobs.rs] and the
    dehydrated form of [hydration.rs]: the block a builder submits, the
    accessors the auctioneer reads it through and the checks of its internal
    consistency. *)

From S2P Require Import Prelude Types.

(** [Vec::len] and the like. *)
Definition len {A} (l : list A) : Z := Z.of_nat (length l).

(** ** Constants and hashes of other crates

    Length limits of the consensus specification ([MainnetEthSpec]) and the
    number of cell proofs of a blob ([CELLS_PER_EXT_BLOB]). *)
Class EthSpec := {
  max_extra_data_bytes : Z;
  max_bytes_per_transaction : Z;
  max_transactions_per_payload : Z;
  max_blob_commitments_per_block : Z;
  CELLS_PER_EXT_BLOB : Z;
  cells_pos : 0 < CELLS_PER_EXT_BLOB
}.

(** The values of the mainnet preset, to evaluate examples. *)
Definition mainnet : EthSpec := {|
  max_extra_data_bytes := 32;
  max_bytes_per_transaction := 2 ^ 30;
  max_transactions_per_payload := 2 ^ 20;
  max_blob_commitments_per_block := 4096;
  CELLS_PER_EXT_BLOB := 128;
  cells_pos := eq_refl
|}.

Record Withdrawal := mkWithdrawal {
  w_index : u64;
  w_validator_index : u64;
  w_address : Address;
  w_amount : u64
}.
#[export] Instance Withdrawal_eq_dec : EqDecision Withdrawal.
Proof. solve_decision. Defined.

(** SSZ hash tree roots, computed on top of the hash library. *)
Class TreeHash := {
  transactions_root : list Bytes → B256;
  withdrawals_root : list Withdrawal → B256;
  requests_root : Bytes → B256
}.

(** ** Errors *)

Inductive ForkName :=
| Base | Altair | Bellatrix | Capella | Deneb | Electra | Fulu | Gloas | Heze.
#[export] Instance ForkName_eq_dec : EqDecision ForkName.
Proof. solve_decision. Defined.

(** [SszError] of the SSZ crate, the variants the code builds and the one
    [VariableList::new] returns for a list that is too long. *)
Inductive SszError := InvalidByteCount (given expected : Z) | OutOfBounds (i len : Z).
#[export] Instance SszError_eq_dec : EqDecision SszError.
Proof. solve_decision. Defined.

Inductive BlobsError :=
| PreDeneb
| MissingKzgCommitment (index : Z)
| FailedInclusionProof
| BundleMismatch (proofs commitments blobs : Z)
| BundleTooLarge (got max : Z).
#[export] Instance BlobsError_eq_dec : EqDecision BlobsError.
Proof. solve_decision. Defined.

Inductive BlockValidationError :=
| SubmissionForWrongSlot (expected got : u64)
| FeeRecipientMismatch (got expected : Address)
| ProposerPublicKeyMismatch (got expected : Pubkey)
| SlotMismatch (got expected : u64)
| BlockHashMismatch (message payload : B256)
| ParentHashMismatch (message payload : B256)
| GasLimitMismatch (message payload : u64)
| GasUsedMismatch (message payload : u64)
| WithdrawalsRootMismatch (got expected : B256)
| TransactionsRootMismatch (got expected : B256)
| PrevRandaoMismatch (got expected : B256)
| UknnownParentHash (submission : B256) (have : list B256)
| InvalidPayloadType (fork_name : ForkName)
| IncorrectTimestamp (got expected : u64)
| AlreadyProcessingNewerPayload
| OutOfSequence (seen this : SubmissionVersion)
| ZeroValueBlock
| BuilderNotInProposersTrustedList (proposer_trusted_builders : list string)
| CannotHydrate
| BidTraceMismatch (block_hash : B256)
| BVSszError (e : SszError)
| BVBlobsError (e : BlobsError).
#[export] Instance BlockValidationError_eq_dec : EqDecision BlockValidationError.
Proof. solve_decision. Defined.

(** ** Data *)

Record BidTrace := mkBidTrace {
  bt_slot : u64;
  bt_parent_hash : B256;
  bt_block_hash : B256;
  bt_builder_pubkey : Pubkey;
  bt_proposer_pubkey : Pubkey;
  bt_proposer_fee_recipient : Address;
  bt_gas_limit : u64;
  bt_gas_used : u64;
  bt_value : U256
}.
#[export] Instance eta_BidTrace : Eta BidTrace := λ r,
  mkBidTrace (bt_slot r) (bt_parent_hash r) (bt_block_hash r) (bt_builder_pubkey r)
    (bt_proposer_pubkey r) (bt_proposer_fee_recipient r) (bt_gas_limit r) (bt_gas_used r)
    (bt_value r).
#[export] Instance BidTrace_eq_dec : EqDecision BidTrace.
Proof. solve_decision. Defined.

Record ExecutionPayload := mkExecutionPayload {
  ep_parent_hash : B256;
  ep_fee_recipient : Address;
  ep_state_root : B256;
  ep_receipts_root : B256;
  ep_logs_bloom : Z;
  ep_prev_randao : B256;
  ep_block_number : u64;
  ep_gas_limit : u64;
  ep_gas_used : u64;
  ep_timestamp : u64;
  ep_extra_data : Bytes;
  ep_base_fee_per_gas : U256;
  ep_block_hash : B256;
  ep_transactions : list Bytes;
  ep_withdrawals : list Withdrawal;
  ep_blob_gas_used : u64;
  ep_excess_blob_gas : u64
}.
#[export] Instance eta_ExecutionPayload : Eta ExecutionPayload := λ r,
  mkExecutionPayload (ep_parent_hash r) (ep_fee_recipient r) (ep_state_root r)
    (ep_receipts_root r) (ep_logs_bloom r) (ep_prev_randao r) (ep_block_number r)
    (ep_gas_limit r) (ep_gas_used r) (ep_timestamp r) (ep_extra_data r)
    (ep_base_fee_per_gas r) (ep_block_hash r) (ep_transactions r) (ep_withdrawals r)
    (ep_blob_gas_used r) (ep_excess_blob_gas r).
#[export] Instance ExecutionPayload_eq_dec : EqDecision ExecutionPayload.
Proof. solve_decision. Defined.

Record ExecutionPayloadHeader := mkExecutionPayloadHeader {
  eh_parent_hash : B256;
  eh_fee_recipient : Address;
  eh_state_root : B256;
  eh_receipts_root : B256;
  eh_logs_bloom : Z;
  eh_prev_randao : B256;
  eh_block_number : u64;
  eh_gas_limit : u64;
  eh_gas_used : u64;
  eh_timestamp : u64;
  eh_extra_data : Bytes;
  eh_base_fee_per_gas : U256;
  eh_block_hash : B256;
  eh_transactions_root : B256;
  eh_withdrawals_root : B256;
  eh_blob_gas_used : u64;
  eh_excess_blob_gas : u64
}.
#[export] Instance ExecutionPayloadHeader_eq_dec : EqDecision ExecutionPayloadHeader.
Proof. solve_decision. Defined.

(** Commitments, proofs and blobs are fixed-size byte arrays. *)
Record BlobsBundle := mkBlobsBundle {
  bb_commitments : list Z;
  bb_proofs : list Z;
  bb_blobs : list Z
}.
#[export] Instance eta_BlobsBundle : Eta BlobsBundle :=
  λ r, mkBlobsBundle (bb_commitments r) (bb_proofs r) (bb_blobs r).
#[export] Instance BlobsBundle_eq_dec : EqDecision BlobsBundle.
Proof. solve_decision. Defined.

Record PayloadAndBlobs := mkPayloadAndBlobs {
  pab_execution_payload : ExecutionPayload;
  pab_blobs_bundle : BlobsBundle
}.

(** The execution requests and the builder's signature are only carried. *)
Record SignedBidSubmissionFulu := mkSignedBidSubmissionFulu {
  sf_message : BidTrace;
  sf_execution_payload : ExecutionPayload;
  sf_blobs_bundle : BlobsBundle;
  sf_execution_requests : Bytes;
  sf_signature : Z
}.

Record GloasBidTrace := mkGloasBidTrace {
  gt_trace : BidTrace;
  gt_parent_block_root : B256
}.

(** A Gloas submission stays the bytes it arrived as; the fields are what the
    views of those bytes return. *)
Record GloasBidSubmission := mkGloasBidSubmission {
  gs_message : GloasBidTrace;
  gs_parent_hash : B256;
  gs_block_hash : B256;
  gs_gas_limit : u64;
  gs_gas_used : u64;
  gs_slot_number : u64;
  gs_prev_randao : B256;
  gs_timestamp : u64;
  gs_block_number : u64;
  gs_fee_recipient : Address;
  gs_num_txs : Z;
  gs_withdrawals : list Withdrawal;
  gs_commitments : Bytes;
  gs_execution_requests : Bytes;
  gs_bytes : Bytes
}.

Inductive SignedBidSubmission :=
| SFulu (s : SignedBidSubmissionFulu)
| SGloas (s : GloasBidSubmission).

Record BlobItemFulu := mkBlobItemFulu {
  bi_proof : list Z;
  bi_commitment : Z;
  bi_blob : Z
}.

Record DehydratedBlobsFuluV2 := mkDehydratedBlobsFuluV2 {
  db_refs : list u64;
  db_new_items : list BlobItemFulu
}.

Record DehydratedBidSubmissionFulu := mkDehydratedBidSubmissionFulu {
  dh_message : BidTrace;
  dh_execution_payload : ExecutionPayload;
  dh_blobs_bundle : DehydratedBlobsFuluV2;
  dh_execution_requests : Bytes;
  dh_signature : Z;
  dh_tx_root : option B256;
  dh_tx_refs : list u64;
  dh_withdrawals_ref : u64
}.
#[export] Instance eta_DehydratedBidSubmissionFulu : Eta DehydratedBidSubmissionFulu := λ r,
  mkDehydratedBidSubmissionFulu (dh_message r) (dh_execution_payload r) (dh_blobs_bundle r)
    (dh_execution_requests r) (dh_signature r) (dh_tx_root r) (dh_tx_refs r)
    (dh_withdrawals_ref r).

(** [DehydratedBidSubmission] has the Fulu variant only. *)
Inductive DehydratedBidSubmission := DFulu (s : DehydratedBidSubmissionFulu).

Inductive Submission :=
| Full (s : SignedBidSubmission)
| Dehydrated (s : DehydratedBidSubmission).

(** ** Consistency checks *)

(** [!=] on the scalar types, and the early return it guards. *)
Definition same {E} (x y : Z) (e : E) : Result unit E := require (x =? y) e.

Definition fulu_validate (s : SignedBidSubmissionFulu) : Result unit BlockValidationError :=
  let bid_trace := sf_message s in
  let execution_payload := sf_execution_payload s in
  same (bt_parent_hash bid_trace) (ep_parent_hash execution_payload)
    (ParentHashMismatch (bt_parent_hash bid_trace) (ep_parent_hash execution_payload)) &&?
  same (bt_block_hash bid_trace) (ep_block_hash execution_payload)
    (BlockHashMismatch (bt_block_hash bid_trace) (ep_block_hash execution_payload)) &&?
  same (bt_gas_limit bid_trace) (ep_gas_limit execution_payload)
    (GasLimitMismatch (bt_gas_limit bid_trace) (ep_gas_limit execution_payload)) &&?
  same (bt_gas_used bid_trace) (ep_gas_used execution_payload)
    (GasUsedMismatch (bt_gas_used bid_trace) (ep_gas_used execution_payload)) &&?
  require (negb (bt_value bid_trace =? 0)) ZeroValueBlock &&?
  Ok tt.

Definition gloas_validate (s : GloasBidSubmission) : Result unit BlockValidationError :=
  let trace := gt_trace (gs_message s) in
  same (bt_parent_hash trace) (gs_parent_hash s)
    (ParentHashMismatch (bt_parent_hash trace) (gs_parent_hash s)) &&?
  same (bt_block_hash trace) (gs_block_hash s)
    (BlockHashMismatch (bt_block_hash trace) (gs_block_hash s)) &&?
  same (bt_gas_limit trace) (gs_gas_limit s)
    (GasLimitMismatch (bt_gas_limit trace) (gs_gas_limit s)) &&?
  same (bt_gas_used trace) (gs_gas_used s)
    (GasUsedMismatch (bt_gas_used trace) (gs_gas_used s)) &&?
  same (bt_slot trace) (gs_slot_number s)
    (SlotMismatch (gs_slot_number s) (bt_slot trace)) &&?
  require (negb (bt_value trace =? 0)) ZeroValueBlock &&?
  Ok tt.

Definition dehydrated_validate (d : DehydratedBidSubmission) : Result unit BlockValidationError :=
  match d with
  | DFulu s =>
      let msg := dh_message s in
      let ep := dh_execution_payload s in
      same (bt_parent_hash msg) (ep_parent_hash ep)
        (ParentHashMismatch (bt_parent_hash msg) (ep_parent_hash ep)) &&?
      same (bt_block_hash msg) (ep_block_hash ep)
        (BlockHashMismatch (bt_block_hash msg) (ep_block_hash ep)) &&?
      same (bt_gas_limit msg) (ep_gas_limit ep)
        (GasLimitMismatch (bt_gas_limit msg) (ep_gas_limit ep)) &&?
      same (bt_gas_used msg) (ep_gas_used ep)
        (GasUsedMismatch (bt_gas_used msg) (ep_gas_used ep)) &&?
      require (negb (bt_value msg =? 0)) ZeroValueBlock &&?
      Ok tt
  end.

Definition signed_validate (s : SignedBidSubmission) : Result unit BlockValidationError :=
  match s with SFulu s => fulu_validate s | SGloas s => gloas_validate s end.

Definition submission_validate (s : Submission) : Result unit BlockValidationError :=
  match s with Full s => signed_validate s | Dehydrated s => dehydrated_validate s end.

(** ** Accessors *)

Definition signed_bid_trace (s : SignedBidSubmission) : BidTrace :=
  match s with SFulu s => sf_message s | SGloas s => gt_trace (gs_message s) end.
Definition signed_fork_name (s : SignedBidSubmission) : ForkName :=
  match s with SFulu _ => Fulu | SGloas _ => Gloas end.
Definition signed_block_number (s : SignedBidSubmission) : u64 :=
  match s with SFulu s => ep_block_number (sf_execution_payload s) | SGloas s => gs_block_number s end.
Definition signed_fee_recipient (s : SignedBidSubmission) : Address :=
  match s with SFulu s => ep_fee_recipient (sf_execution_payload s) | SGloas s => gs_fee_recipient s end.
Definition signed_timestamp (s : SignedBidSubmission) : u64 :=
  match s with SFulu s => ep_timestamp (sf_execution_payload s) | SGloas s => gs_timestamp s end.
Definition signed_prev_randao (s : SignedBidSubmission) : B256 :=
  match s with SFulu s => ep_prev_randao (sf_execution_payload s) | SGloas s => gs_prev_randao s end.
Definition signed_num_txs (s : SignedBidSubmission) : Z :=
  match s with SFulu s => len (ep_transactions (sf_execution_payload s)) | SGloas s => gs_num_txs s end.

Definition dehydrated_bid_trace (d : DehydratedBidSubmission) : BidTrace :=
  match d with DFulu s => dh_message s end.
Definition dehydrated_fork_name (d : DehydratedBidSubmission) : ForkName :=
  match d with DFulu _ => Fulu end.
Definition dehydrated_timestamp (d : DehydratedBidSubmission) : u64 :=
  match d with DFulu s => ep_timestamp (dh_execution_payload s) end.
Definition dehydrated_prev_randao (d : DehydratedBidSubmission) : B256 :=
  match d with DFulu s => ep_prev_randao (dh_execution_payload s) end.
Definition dehydrated_block_number (d : DehydratedBidSubmission) : u64 :=
  match d with DFulu s => ep_block_number (dh_execution_payload s) end.
Definition dehydrated_fee_recipient (d : DehydratedBidSubmission) : Address :=
  match d with DFulu s => ep_fee_recipient (dh_execution_payload s) end.
Definition dehydrated_num_txs (d : DehydratedBidSubmission) : Z :=
  match d with DFulu s => len (dh_tx_refs s) end.

Definition bid_trace (s : Submission) : BidTrace :=
  match s with Full s => signed_bid_trace s | Dehydrated s => dehydrated_bid_trace s end.
Definition submission_slot (s : Submission) : u64 := bt_slot (bid_trace s).
Definition builder_pubkey (s : Submission) : Pubkey := bt_builder_pubkey (bid_trace s).
Definition block_hash (s : Submission) : B256 := bt_block_hash (bid_trace s).
Definition parent_hash (s : Submission) : B256 := bt_parent_hash (bid_trace s).
Definition proposer_fee_recipient (s : Submission) : Address :=
  bt_proposer_fee_recipient (bid_trace s).
Definition fork_name (s : Submission) : ForkName :=
  match s with Full s => signed_fork_name s | Dehydrated s => dehydrated_fork_name s end.
Definition timestamp (s : Submission) : u64 :=
  match s with Full s => signed_timestamp s | Dehydrated s => dehydrated_timestamp s end.
Definition prev_randao (s : Submission) : B256 :=
  match s with Full s => signed_prev_randao s | Dehydrated s => dehydrated_prev_randao s end.
Definition block_number (s : Submission) : u64 :=
  match s with Full s => signed_block_number s | Dehydrated s => dehydrated_block_number s end.
Definition fee_recipient (s : Submission) : Address :=
  match s with Full s => signed_fee_recipient s | Dehydrated s => dehydrated_fee_recipient s end.

Section roots.
Context `{TH : TreeHash}.

Definition signed_withdrawals_root (s : SignedBidSubmission) : B256 :=
  match s with
  | SFulu s => withdrawals_root (ep_withdrawals (sf_execution_payload s))
  | SGloas s => withdrawals_root (gs_withdrawals s)
  end.

(** [None] when the withdrawals are keyed. *)
Definition dehydrated_withdrawal_root (d : DehydratedBidSubmission) : option B256 :=
  match d with
  | DFulu s =>
      if dh_withdrawals_ref s =? 0
      then Some (withdrawals_root (ep_withdrawals (dh_execution_payload s)))
      else None
  end.

Definition withdrawal_root (s : Submission) : option B256 :=
  match s with
  | Full s => Some (signed_withdrawals_root s)
  | Dehydrated s => dehydrated_withdrawal_root s
  end.

Definition to_header (p : ExecutionPayload) (wd_root tx_root : option B256)
    : ExecutionPayloadHeader := {|
  eh_parent_hash := ep_parent_hash p;
  eh_fee_recipient := ep_fee_recipient p;
  eh_state_root := ep_state_root p;
  eh_receipts_root := ep_receipts_root p;
  eh_logs_bloom := ep_logs_bloom p;
  eh_prev_randao := ep_prev_randao p;
  eh_block_number := ep_block_number p;
  eh_gas_limit := ep_gas_limit p;
  eh_gas_used := ep_gas_used p;
  eh_timestamp := ep_timestamp p;
  eh_extra_data := ep_extra_data p;
  eh_base_fee_per_gas := ep_base_fee_per_gas p;
  eh_block_hash := ep_block_hash p;
  eh_transactions_root := default (transactions_root (ep_transactions p)) tx_root;
  eh_withdrawals_root := default (withdrawals_root (ep_withdrawals p)) wd_root;
  eh_blob_gas_used := ep_blob_gas_used p;
  eh_excess_blob_gas := ep_excess_blob_gas p
|}.
End roots.

(** ** Lengths *)

Section lengths.
Context `{ES : EthSpec}.

Fixpoint check_tx_lengths (txs : list Bytes) : Result unit BlockValidationError :=
  match txs with
  | [] => Ok tt
  | tx :: rest =>
      if max_bytes_per_transaction <? len tx
      then Err (BVSszError (InvalidByteCount (len tx) max_bytes_per_transaction))
      else check_tx_lengths rest
  end.

Definition payload_validate_ssz_lengths (p : ExecutionPayload)
    : Result unit BlockValidationError :=
  require (negb (max_extra_data_bytes <? len (ep_extra_data p)))
    (BVSszError (InvalidByteCount (len (ep_extra_data p)) max_extra_data_bytes)) &&?
  check_tx_lengths (ep_transactions p) &&?
  require (negb (max_transactions_per_payload <? len (ep_transactions p)))
    (BVSszError (InvalidByteCount (len (ep_transactions p)) max_transactions_per_payload)) &&?
  Ok tt.

Definition blobs_validate_ssz_lengths (b : BlobsBundle) (max_blobs_per_block : Z)
    : Result unit BlockValidationError :=
  require (negb (negb (len (bb_commitments b) =? len (bb_blobs b))
                 || negb (len (bb_proofs b) =? len (bb_blobs b) * CELLS_PER_EXT_BLOB)))
    (BVBlobsError (BundleMismatch (len (bb_proofs b)) (len (bb_commitments b))
                                  (len (bb_blobs b)))) &&?
  require (negb (max_blobs_per_block <? len (bb_commitments b)))
    (BVBlobsError (BundleTooLarge (len (bb_commitments b)) max_blobs_per_block)) &&?
  Ok tt.

Definition validate_payload_ssz_lengths (s : SignedBidSubmissionFulu) (max_blobs_per_block : Z)
    : Result unit BlockValidationError :=
  payload_validate_ssz_lengths (sf_execution_payload s) &&?
  blobs_validate_ssz_lengths (sf_blobs_bundle s) max_blobs_per_block &&?
  Ok tt.

(** [&proofs[start..end]], which panics out of range. *)
Definition slice {A} (l : list A) (start stop : Z) : option (list A) :=
  if (start <=? stop) && (stop <=? len l)
  then Some (take (Z.to_nat (stop - start)) (drop (Z.to_nat start) l))
  else None.

(** The items [iter_blobs] yields, each with the proofs of its cells; [None]
    when a slice is out of range. *)
Definition iter_blobs (b : BlobsBundle) : option (list (Z * Z * list Z)) :=
  mapM (λ e : nat * (Z * Z),
    let '(i, (blob, commitment)) := e in
    let start := Z.of_nat i * CELLS_PER_EXT_BLOB in
    proofs ← slice (bb_proofs b) start (start + CELLS_PER_EXT_BLOB);
    Some (blob, commitment, proofs))
  (enumerate (zip (bb_blobs b) (bb_commitments b))).
End lengths.

(** ** Properties *)

Lemma len_nonneg {A} (l : list A) : 0 ≤ len l.
Proof. unfold len. lia. Qed.

Lemma len_app {A} (l k : list A) : len (l ++ k) = len l + len k.
Proof. unfold len. rewrite length_app. lia. Qed.

Lemma same_ok {E} x y (e : E) k : (same x y e &&? k) = Ok tt ↔ x = y ∧ k = Ok tt.
Proof. unfold same. destruct (Z.eqb_spec x y); simpl; naive_solver. Qed.

Lemma require_then_ok {E} b (e : E) k : (require b e &&? k) = Ok tt ↔ b = true ∧ k = Ok tt.
Proof. destruct b; simpl; naive_solver. Qed.

(** What a validated submission satisfies: the trace describes the payload. *)
Definition trace_describes (t : BidTrace) (parent block : B256) (limit used : u64) : Prop :=
  bt_parent_hash t = parent ∧ bt_block_hash t = block ∧
  bt_gas_limit t = limit ∧ bt_gas_used t = used ∧ bt_value t ≠ 0.

Definition consistent (s : Submission) : Prop :=
  match s with
  | Full (SFulu s) =>
      let p := sf_execution_payload s in
      trace_describes (sf_message s) (ep_parent_hash p) (ep_block_hash p) (ep_gas_limit p)
        (ep_gas_used p)
  | Full (SGloas s) =>
      trace_describes (gt_trace (gs_message s)) (gs_parent_hash s) (gs_block_hash s)
        (gs_gas_limit s) (gs_gas_used s) ∧ bt_slot (gt_trace (gs_message s)) = gs_slot_number s
  | Dehydrated (DFulu s) =>
      let p := dh_execution_payload s in
      trace_describes (dh_message s) (ep_parent_hash p) (ep_block_hash p) (ep_gas_limit p)
        (ep_gas_used p)
  end.

Lemma submission_validate_ok s : submission_validate s = Ok tt ↔ consistent s.
Proof.
  destruct s as [[s|s]|[s]]; cbn;
    unfold fulu_validate, gloas_validate, trace_describes;
    rewrite !same_ok, require_then_ok, negb_true_iff, Z.eqb_neq; naive_solver.
Qed.

Section blobs.
Context `{ES : EthSpec}.

Lemma blobs_lengths_ok b max :
  blobs_validate_ssz_lengths b max = Ok tt ↔
  len (bb_commitments b) = len (bb_blobs b) ∧
  len (bb_proofs b) = len (bb_blobs b) * CELLS_PER_EXT_BLOB ∧
  len (bb_commitments b) ≤ max.
Proof.
  unfold blobs_validate_ssz_lengths.
  rewrite !require_then_ok, negb_orb, !negb_involutive, andb_true_iff, !Z.eqb_eq,
    negb_true_iff, Z.ltb_ge. tauto.
Qed.

Lemma slice_ok {A} (l : list A) i c :
  0 ≤ c → (Z.of_nat i + 1) * c ≤ len l →
  slice l (Z.of_nat i * c) (Z.of_nat i * c + c) = Some (take (Z.to_nat c) (drop (i * Z.to_nat c) l)).
Proof.
  intros Hc Hl. unfold slice.
  rewrite (proj2 (Z.leb_le _ _)), (proj2 (Z.leb_le _ _)) by lia. simpl.
  do 3 f_equal; lia.
Qed.

Lemma iter_from_ok (proofs : list Z) (l : list (Z * Z)) i :
  (Z.of_nat i + len l) * CELLS_PER_EXT_BLOB ≤ len proofs →
  ∃ items,
    mapM (λ e : nat * (Z * Z),
      let '(i, (blob, commitment)) := e in
      let start := Z.of_nat i * CELLS_PER_EXT_BLOB in
      proofs ← slice proofs start (start + CELLS_PER_EXT_BLOB);
      Some (blob, commitment, proofs)) (enumerate_from i l) = Some items ∧
    items.*1 = l ∧
    concat (items.*2) =
      take (length l * Z.to_nat CELLS_PER_EXT_BLOB)
        (drop (i * Z.to_nat CELLS_PER_EXT_BLOB) proofs).
Proof.
  pose proof cells_pos as Hc. set (c := CELLS_PER_EXT_BLOB) in *.
  revert i. induction l as [|[blob com] l IH]; intros i Hl.
  { by exists []. }
  unfold len in *. simpl length in *.
  destruct (IH (S i)) as (items & E & Hfst & Hcat); [nia|].
  cbn -[slice Z.of_nat]. rewrite slice_ok by (unfold len; nia). cbn -[slice Z.of_nat].
  rewrite E. cbn. eexists. split_and!; [done|cbn; by rewrite Hfst|cbn].
  rewrite Hcat, <- take_take_drop, drop_drop. do 2 f_equal. f_equal. lia.
Qed.
End blobs.

Section blob_iteration.
Context `{ES : EthSpec}.

(** On a bundle whose lengths were validated, iterating over the blobs
    never indexes out of range: it yields every blob with its commitment, in
    order, and the proof slices partition the proofs of the bundle. *)
Theorem iter_blobs_total b max :
  blobs_validate_ssz_lengths b max = Ok tt →
  ∃ items, iter_blobs b = Some items ∧
    items.*1 = zip (bb_blobs b) (bb_commitments b) ∧ concat (items.*2) = bb_proofs b.
Proof.
  intros (Hcom & Hpr & _)%blobs_lengths_ok. pose proof cells_pos as Hc.
  assert (length (zip (bb_blobs b) (bb_commitments b)) = length (bb_blobs b)) as Hzip.
  { rewrite length_zip_with_l_eq; [done|]. unfold len in Hcom. lia. }
  destruct (iter_from_ok (bb_proofs b) (zip (bb_blobs b) (bb_commitments b)) 0)
    as (items & E & Hfst & Hcat).
  { unfold len in *. rewrite Hzip. lia. }
  exists items. split_and!; [done..|]. rewrite Hcat, Hzip. simpl. rewrite drop_0.
  apply take_ge. unfold len in *. lia.
Qed.
End blob_iteration.

Lemma iter_blobs_total_witness :
  ∃ items, iter_blobs (ES := mainnet) (mkBlobsBundle [7; 8] (replicate 256 1) [70; 80]) = Some items
    ∧ items.*1 = [(70, 7); (80, 8)].
Proof.
  destruct (iter_blobs_total (ES := mainnet)
    (mkBlobsBundle [7; 8] (replicate 256 1) [70; 80]) 9) as (items & H & Hfst & _).
  - reflexivity.
  - by exists items.
Defined.

(** ** Examples

    Concrete roots and a submission, to evaluate examples with. *)
Definition ex_roots : TreeHash := {|
  transactions_root := λ txs, len txs;
  withdrawals_root := λ ws, sumZ (w_amount <$> ws);
  requests_root := sumZ
|}.

Definition ex_trace : BidTrace := mkBidTrace 5 100 1010 1 3 4 30 20 10.
Definition ex_payload (txs : list Bytes) (ws : list Withdrawal) : ExecutionPayload :=
  mkExecutionPayload 100 9 0 0 0 77 7 30 20 12345 [] 1 1010 txs ws 0 0.
Definition ex_tx (fill : Z) : Bytes := replicate 72 fill.
Definition ex_withdrawal : Withdrawal := mkWithdrawal 1 2 3 4.
Definition ex_submission (builder : Pubkey) (hash : B256) (value : U256) : SignedBidSubmission :=
  SFulu (mkSignedBidSubmissionFulu
    (ex_trace <| bt_builder_pubkey := builder |> <| bt_block_hash := hash |> <| bt_value := value |>)
    ((ex_payload [ex_tx 1] [ex_withdrawal]) <| ep_block_hash := hash |>)
    (mkBlobsBundle [7] (replicate 128 5) [70]) [] 0).
