(* ===== verification/InclusionLists.v ===== *)
(** * Inclusion-list consensus

    [relay/src/network/inclusion_lists/consensus.rs] and the list types of
    [common/src/api/builder_api.rs]: how a relay turns the lists its peers
    broadcast for a slot into a shared list, and the shared lists into the
    final one. *)

From S2P Require Import Prelude Types Submission.
From Stdlib Require Import Sorting.Sorted.

(** ** Data *)

Record InclusionList := mkInclusionList { il_txs : list Bytes }.
#[export] Instance InclusionList_eq_dec : EqDecision InclusionList.
Proof. solve_decision. Defined.

(** [TxEnvelope::decode] of the transaction library, followed by [tx_hash]: the
    hash of the transaction a byte string starts with. An empty buffer does not
    decode. *)
Class TxDecoder := {
  decode_tx : Bytes → option B256;
  decode_tx_nil : decode_tx [] = None
}.

(** [tree_hash_root] of an inclusion list. *)
Class ListRoot := list_root : InclusionList → B256.

(** [total txs]: the bytes of the transactions together. *)
Definition total (txs : list Bytes) : Z := sumZ (len <$> txs).

Section consensus.
Context `{HO : HashOrder, ES : EthSpec, TD : TxDecoder, LR : ListRoot}.
Implicit Types (il : InclusionList) (votes : gmap Pubkey (u64 * InclusionList)).

(** [TryFrom<InclusionList> for InclusionListWithMetadata]: one undecodable
    transaction refuses the list. *)
Fixpoint with_metadata (txs : list Bytes) : option InclusionListWithMetadata :=
  match txs with
  | [] => Some []
  | encoded_tx :: txs' =>
      hash ← decode_tx encoded_tx;
      rest ← with_metadata txs';
      Some (mkInclusionListTx hash encoded_tx :: rest)
  end.

(** [TryFrom<&InclusionListWithMetadata> for InclusionList]. *)
Definition without_metadata (l : InclusionListWithMetadata) : option InclusionList :=
  if len l <=? max_transactions_per_payload then Some (mkInclusionList (il_bytes <$> l)) else None.

(** ** The shared list *)

Definition INCLUSION_LIST_MAX_BYTES : Z := 8 * 1024.

(** The body of the inner loop: [tx_frequency.entry(hash)]. *)
Definition count_tx (tx_frequency : gmap B256 (Bytes * Z)) (tx : Bytes) : gmap B256 (Bytes * Z) :=
  match decode_tx tx with
  | None => tx_frequency
  | Some hash =>
      <[hash := match tx_frequency !! hash with
                | Some (first, f) => (first, f + 1)
                | None => (tx, 1)
                end]> tx_frequency
  end.

(** The body of the outer loop: the lists of other slots are skipped. *)
Definition count_list (slot : u64) (tx_frequency : gmap B256 (Bytes * Z))
    (vote : u64 * InclusionList) : gmap B256 (Bytes * Z) :=
  if negb (vote.1 =? slot) then tx_frequency else foldl count_tx tx_frequency (il_txs vote.2).

(** [freq2.cmp(freq1).then(tx_hash2.cmp(tx_hash1))]. *)
Definition tx_order (x y : B256 * (Bytes * Z)) : comparison :=
  cmp_then (Z.compare y.2.2 x.2.2) (Z.compare y.1 x.1).

(** The [filter] closure with its [bytes_available]. *)
Fixpoint take_fitting (bytes_available : Z) (txs : list Bytes) : list Bytes :=
  match txs with
  | [] => []
  | tx :: txs' =>
      if bytes_available <? len tx then take_fitting bytes_available txs'
      else tx :: take_fitting (bytes_available - len tx) txs'
  end.

Definition compute_shared_inclusion_list votes (slot : u64) il : InclusionList :=
  let tx_frequency := foldl (count_list slot) ∅ (hash_values votes ++ [(slot, il)]) in
  let tx_frequency_ordered := sort_by tx_order (hash_iter tx_frequency) in
  let txs := take_fitting INCLUSION_LIST_MAX_BYTES ((λ e, e.2.1) <$> tx_frequency_ordered) in
  mkInclusionList
    (if max_transactions_per_payload <? len txs
     then take (Z.to_nat max_transactions_per_payload) txs else txs).

(** ** The final list *)

(** One drained vote. *)
Definition count_vote (slot : u64) (il_by_frequency : gmap B256 (InclusionList * Z))
    (vote : u64 * InclusionList) : gmap B256 (InclusionList * Z) :=
  if negb (vote.1 =? slot) then il_by_frequency
  else
    let il_hash := list_root vote.2 in
    <[il_hash := match il_by_frequency !! il_hash with
                 | Some (first, f) => (first, f + 1)
                 | None => (vote.2, 1)
                 end]> il_by_frequency.

(** The key [(frequency, total size, hash)] of [max_by_key]. *)
Definition final_order (x y : B256 * (InclusionList * Z)) : comparison :=
  cmp_then (Z.compare x.2.2 y.2.2)
    (cmp_then (Z.compare (total (il_txs x.2.1)) (total (il_txs y.2.1)))
       (Z.compare x.1 y.1)).

(** The final list and the drained vote map; [None] is the failed [expect]. *)
Definition compute_final_inclusion_list votes (slot : u64) il :
    option (InclusionList * gmap Pubkey (u64 * InclusionList)) :=
  let il_by_frequency :=
    foldl (count_vote slot) {[ list_root il := (il, 1) ]} (hash_values votes) in
  e ← max_by final_order (hash_iter il_by_frequency);
  Some (e.2.1, ∅).
End consensus.

(** ** Tallies

    Both computations count the votes under a key, keeping the first vote of
    each key. *)
Section tally.
Context {A : Type} (key : A → option B256).
Implicit Types l : list A.

Definition tally (m : gmap B256 (A * Z)) (a : A) : gmap B256 (A * Z) :=
  match key a with
  | None => m
  | Some h => <[h := match m !! h with Some (x, f) => (x, f + 1) | None => (a, 1) end]> m
  end.

(** The votes for a key, in order, and how many there are. *)
Definition voting (h : B256) l : list A := filter (λ a, key a = Some h) l.
Definition votes_for (h : B256) l : Z := len (voting h l).

(** Equal keys mean equal votes. *)
Definition canonical l : Prop :=
  ∀ a b, a ∈ l → b ∈ l → is_Some (key a) → key a = key b → a = b.

Lemma tally_lookup l h :
  foldl tally ∅ l !! h =
    match voting h l with [] => None | a :: _ => Some (a, votes_for h l) end.
Proof.
  unfold votes_for. induction l as [|a l IH] using rev_ind; [done|].
  rewrite foldl_app. simpl. unfold tally at 1, voting. rewrite filter_app, filter_cons, filter_nil.
  fold (voting h l). destruct (key a) as [h'|] eqn:Ha.
  - destruct (decide (h' = h)) as [->|Hne].
    + rewrite lookup_insert_eq, IH, decide_True by done. unfold len. rewrite length_app.
      destruct (voting h l); [done|]. simpl. do 2 f_equal. lia.
    + rewrite lookup_insert_ne, decide_False, app_nil_r by congruence. done.
  - rewrite decide_False, app_nil_r by done. done.
Qed.

Lemma tally_some l h a n :
  foldl tally ∅ l !! h = Some (a, n) → a ∈ l ∧ key a = Some h ∧ n = votes_for h l.
Proof.
  rewrite tally_lookup. destruct (voting h l) as [|b r] eqn:E; [done|]. intros [= -> <-].
  assert (a ∈ voting h l) as [??]%list_elem_of_filter by (rewrite E; left). done.
Qed.

Lemma tally_elem l h a :
  a ∈ l → key a = Some h → ∃ b, foldl tally ∅ l !! h = Some (b, votes_for h l).
Proof.
  intros Ha Hk. rewrite tally_lookup. destruct (voting h l) as [|b r] eqn:E; [|eauto].
  assert (a ∈ voting h l) as Hin by (by apply list_elem_of_filter).
  rewrite E in Hin. by apply elem_of_nil in Hin.
Qed.

Lemma tally_canonical l h a :
  canonical l → a ∈ l → key a = Some h → foldl tally ∅ l !! h = Some (a, votes_for h l).
Proof.
  intros Hc Ha Hk. destruct (tally_elem l h a Ha Hk) as [b Hb]. rewrite Hb.
  destruct (tally_some _ _ _ _ Hb) as (Hb' & Hkb & _).
  rewrite (Hc a b) by (congruence || eauto). done.
Qed.

Lemma votes_for_perm l k h : l ≡ₚ k → votes_for h l = votes_for h k.
Proof. intros Hp. unfold votes_for, len, voting. by rewrite Hp. Qed.

Lemma canonical_perm l k : l ≡ₚ k → canonical l → canonical k.
Proof. intros Hp Hc a b Ha Hb. rewrite <- Hp in Ha, Hb. by apply Hc. Qed.

(** With canonical votes the tally does not depend on their order. *)
Lemma tally_perm l k : canonical l → l ≡ₚ k → foldl tally ∅ l = foldl tally ∅ k.
Proof.
  intros Hc Hp. apply map_eq. intros h.
  destruct (foldl tally ∅ l !! h) as [[a n]|] eqn:E.
  - apply tally_some in E as (Ha & Hk & ->). rewrite (votes_for_perm l k h Hp).
    symmetry. apply tally_canonical; [by eapply canonical_perm| |done]. by rewrite <- Hp.
  - destruct (foldl tally ∅ k !! h) as [[a n]|] eqn:E'; [|done].
    apply tally_some in E' as (Ha & Hk & _). rewrite <- Hp in Ha.
    destruct (tally_elem l h a Ha Hk) as [b Hb]. congruence.
Qed.
End tally.

(** ** What was voted *)

(** The lists of one slot among the votes. *)
Definition lists_of (slot : u64) (vs : list (u64 * InclusionList)) : list InclusionList :=
  omap (λ v, if v.1 =? slot then Some v.2 else None) vs.

(** Everything a relay counts for [slot]: what its peers sent and its own list. *)
Definition lists_for `{HO : HashOrder} (votes : gmap Pubkey (u64 * InclusionList))
    (slot : u64) (il : InclusionList) : list InclusionList :=
  lists_of slot (hash_values votes) ++ [il].

Definition txs_of (ls : list InclusionList) : list Bytes := concat (il_txs <$> ls).

#[export] Instance txs_of_perm : Proper ((≡ₚ) ==> (≡ₚ)) txs_of.
Proof.
  intros l k Hp. unfold txs_of. induction Hp; simpl; [done|by f_equiv| |by etrans].
  rewrite !app_assoc. f_equiv. apply Permutation_app_comm.
Qed.

Section counting.
Context `{HO : HashOrder, TD : TxDecoder, LR : ListRoot}.
Implicit Types votes : gmap Pubkey (u64 * InclusionList).

Lemma count_list_tally slot vs m :
  foldl (count_list slot) m vs = foldl (tally decode_tx) m (txs_of (lists_of slot vs)).
Proof.
  revert m. induction vs as [|[s il] vs IH]; intros m; [done|]. simpl.
  rewrite IH. unfold count_list. simpl. destruct (s =? slot); simpl; [|done].
  unfold txs_of. simpl. by rewrite foldl_app.
Qed.

Lemma shared_tally votes slot il :
  foldl (count_list slot) ∅ (hash_values votes ++ [(slot, il)]) =
    foldl (tally decode_tx) ∅ (txs_of (lists_for votes slot il)).
Proof.
  rewrite count_list_tally. unfold lists_for. do 2 f_equal.
  unfold lists_of. rewrite omap_app. simpl. by rewrite Z.eqb_refl.
Qed.

Abbreviation root_key := (λ il : InclusionList, Some (list_root il)).

Lemma count_vote_tally slot vs m :
  foldl (count_vote slot) m vs = foldl (tally root_key) m (lists_of slot vs).
Proof.
  revert m. induction vs as [|[s il] vs IH]; intros m; [done|]. simpl.
  rewrite IH. unfold count_vote. simpl. by destruct (s =? slot).
Qed.

Lemma final_tally votes slot il :
  foldl (count_vote slot) {[ list_root il := (il, 1) ]} (hash_values votes) =
    foldl (tally root_key) ∅ (il :: lists_of slot (hash_values votes)).
Proof.
  by rewrite count_vote_tally.
Qed.

#[export] Instance tx_order_total : TotalCmp tx_order.
Proof.
  split.
  - intros x y. unfold tx_order. rewrite (Z.compare_antisym y.2.2), (Z.compare_antisym y.1).
    by destruct (y.2.2 ?= x.2.2), (y.1 ?= x.1).
  - intros x y z H1 H2.
    apply (cmp_trans (cmp := λ a b, cmp_then (Z.compare a.2.2 b.2.2) (Z.compare a.1 b.1)) z y x);
      done.
Qed.
#[export] Instance final_order_total : TotalCmp final_order.
Proof. apply cmp_then_total; [apply (Zcompare_total (λ x, x.2.2))|].
  apply cmp_then_total; apply Zcompare_total. Qed.
End counting.

(** ** Agreement *)

Lemma max_by_perm {A} (cmp : A → A → comparison) `{!TotalCmp cmp} (l k : list A) :
  (∀ x y, x ∈ l → y ∈ l → cmp x y = Eq → x = y) → l ≡ₚ k → max_by cmp l = max_by cmp k.
Proof.
  intros Heq Hp. destruct (max_by cmp l) as [x|] eqn:Ex, (max_by cmp k) as [y|] eqn:Ey.
  - pose proof (max_by_elem _ _ _ Ex) as Hx. pose proof (max_by_elem _ _ _ Ey) as Hy.
    rewrite <- Hp in Hy. f_equal. apply Heq; [done..|].
    pose proof (max_by_ge cmp l x y Ex Hy) as H1.
    assert (x ∈ k) as Hxk by (by rewrite <- Hp).
    pose proof (max_by_ge cmp k y x Ey Hxk) as H2.
    pose proof (cmp_flip x y) as F. by destruct (cmp x y), (cmp y x).
  - apply max_by_none in Ey as ->. apply max_by_elem in Ex. rewrite Hp in Ex.
    by apply elem_of_nil in Ex.
  - apply max_by_none in Ex as ->. apply max_by_elem in Ey. rewrite <- Hp in Ey.
    by apply elem_of_nil in Ey.
  - done.
Qed.

Section agreement.
Context `{ES : EthSpec, TD : TxDecoder, LR : ListRoot}.
Implicit Types votes : gmap Pubkey (u64 * InclusionList).

(** Entries of a map with equal keys are equal. *)
Lemma hash_iter_key `{HO : HashOrder} {V} (m : gmap B256 V) x y :
  x ∈ hash_iter m → y ∈ hash_iter m → x.1 = y.1 → x = y.
Proof.
  destruct x as [h v], y as [h' w]. rewrite !elem_of_hash_iter. simpl. intros ?? ->. congruence.
Qed.

Lemma tx_order_eq x y : tx_order x y = Eq → x.1 = y.1.
Proof.
  unfold tx_order. destruct (Z.compare y.2.2 x.2.2); simpl; try done.
  by intros ->%Z.compare_eq.
Qed.

Lemma final_order_eq x y : final_order x y = Eq → x.1 = y.1.
Proof.
  unfold final_order. destruct (Z.compare x.2.2 y.2.2); simpl; try done.
  destruct (Z.compare (total _) _); simpl; try done. by intros ->%Z.compare_eq.
Qed.

(** The shared list is a function of the multiset of lists counted. *)
Lemma shared_agrees (HO1 HO2 : HashOrder) votes1 votes2 slot il1 il2 :
  canonical decode_tx (txs_of (lists_for (HO := HO1) votes1 slot il1)) →
  lists_for (HO := HO1) votes1 slot il1 ≡ₚ lists_for (HO := HO2) votes2 slot il2 →
  compute_shared_inclusion_list (HO := HO1) votes1 slot il1 =
    compute_shared_inclusion_list (HO := HO2) votes2 slot il2.
Proof.
  intros Hc Hp. unfold compute_shared_inclusion_list. rewrite !shared_tally.
  rewrite <- (tally_perm _ _ _ Hc (txs_of_perm _ _ Hp)).
  set (m := foldl _ _ _).
  rewrite (sort_by_unique tx_order (hash_iter (HashOrder := HO1) m)
             (hash_iter (HashOrder := HO2) m)); [done| |by rewrite !hash_iter_perm].
  intros x y Hx Hy He%tx_order_eq. by apply (hash_iter_key (HO := HO1) m).
Qed.

Lemma final_agrees (HO1 HO2 : HashOrder) votes1 votes2 slot il1 il2 :
  canonical (λ il, Some (list_root il)) (lists_for (HO := HO1) votes1 slot il1) →
  lists_for (HO := HO1) votes1 slot il1 ≡ₚ lists_for (HO := HO2) votes2 slot il2 →
  compute_final_inclusion_list (HO := HO1) votes1 slot il1 =
    compute_final_inclusion_list (HO := HO2) votes2 slot il2.
Proof.
  intros Hc Hp. unfold compute_final_inclusion_list. rewrite !final_tally.
  unfold lists_for in Hc, Hp. rewrite <- !Permutation_cons_append in Hp.
  rewrite (tally_perm _ _ (il2 :: lists_of slot (hash_values (HO := HO2) votes2)));
    [|eapply canonical_perm, Hc; symmetry; apply Permutation_cons_append|exact Hp].
  set (m := foldl _ _ _).
  rewrite (max_by_perm final_order (hash_iter (HashOrder := HO1) m)
             (hash_iter (HashOrder := HO2) m)); [done| |by rewrite !hash_iter_perm].
  intros x y Hx Hy He%final_order_eq. by apply (hash_iter_key (HO := HO1) m).
Qed.
End agreement.

(** ** Greedy selection *)

Section greedy.
Implicit Types l : list Bytes.

Lemma total_cons tx l : total (tx :: l) = len tx + total l.
Proof. done. Qed.

Lemma total_app l k : total (l ++ k) = total l + total k.
Proof. unfold total. by rewrite fmap_app, sumZ_app. Qed.

Lemma take_fitting_bound l n : 0 ≤ n → total (take_fitting n l) ≤ n.
Proof.
  revert n. induction l as [|tx l IH]; intros n Hn; simpl; [done|].
  destruct (Z.ltb_spec n (len tx)); [by apply IH|].
  rewrite total_cons. specialize (IH (n - len tx) ltac:(lia)). lia.
Qed.

Lemma take_fitting_app l k n :
  take_fitting n (l ++ k) = take_fitting n l ++ take_fitting (n - total (take_fitting n l)) k.
Proof.
  revert n. induction l as [|tx l IH]; intros n; simpl.
  { f_equal. change (total []) with 0. lia. }
  destruct (n <? len tx); [apply IH|]. simpl. rewrite IH, total_cons. do 3 f_equal. lia.
Qed.

Lemma take_fitting_elem l n tx : tx ∈ take_fitting n l → tx ∈ l.
Proof.
  revert n. induction l as [|t l IH]; intros n; simpl; [done|].
  destruct (n <? len t); rewrite !elem_of_cons; naive_solver.
Qed.

Lemma take_fitting_sorted (R : Bytes → Bytes → Prop) l n :
  StronglySorted R l → StronglySorted R (take_fitting n l).
Proof.
  intros Hs. revert n. induction Hs as [|tx l Hs IH Hall]; intros n; simpl; [constructor|].
  destruct (n <? len tx); [apply IH|]. constructor; [apply IH|].
  rewrite Forall_forall in Hall |- *. intros t Ht%take_fitting_elem. auto.
Qed.

Lemma len_le_total l : [] ∉ l → len l ≤ total l.
Proof.
  induction l as [|tx l IH]; [done|].
  rewrite not_elem_of_cons. intros [Hne Hl]. specialize (IH Hl). rewrite total_cons.
  assert (1 ≤ len tx) by (destruct tx; [done|unfold len; simpl; lia]).
  unfold len in *. cbn [length]. lia.
Qed.

(** In a ranking, a transaction is selected exactly when it fits in what the
    selected transactions ranked before it leave. *)
Lemma take_fitting_ranked (R : Bytes → Bytes → bool) l n tx :
  (∀ a, R a a = false) → (∀ a b, R a b = true → R b a = false) →
  StronglySorted (λ a b, R a b = true) l → tx ∈ l →
  tx ∈ take_fitting n l ↔
    total (filter (λ t, R t tx = true) (take_fitting n l)) + len tx ≤ n.
Proof.
  intros Hirr Hasym Hs (l1 & l2 & ->)%list_elem_of_split.
  assert (∀ t, t ∈ l1 → R t tx = true) as H1.
  { intros t Ht. apply (StronglySorted_app_1_elem_of (λ a b, R a b = true) l1 (tx :: l2) t tx Hs Ht).
    left. }
  assert (∀ t, t ∈ l2 → R tx t = true) as H2.
  { apply StronglySorted_app_1_r, StronglySorted_cons in Hs as [Hall _].
    rewrite Forall_forall in Hall. done. }
  set (F1 := take_fitting n l1). rewrite take_fitting_app. fold F1.
  set (F2 := take_fitting (n - total F1) (tx :: l2)).
  assert (filter (λ t, R t tx = true) (F1 ++ F2) = F1) as ->.
  { rewrite filter_app, filter_all, filter_none; [by rewrite app_nil_r| |].
    - intros t Ht%take_fitting_elem. apply elem_of_cons in Ht as [->|Ht].
      + by rewrite Hirr.
      + by rewrite (Hasym tx t) by auto.
    - intros t Ht%take_fitting_elem. auto. }
  assert (tx ∉ F1) as Hn1.
  { intros Ht%take_fitting_elem%H1. by rewrite Hirr in Ht. }
  rewrite elem_of_app. unfold F2. cbn [take_fitting].
  destruct (Z.ltb_spec (n - total F1) (len tx)) as [Hlt|Hge].
  - split; [|lia]. intros [?|Ht%take_fitting_elem%H2]; [done|]. by rewrite Hirr in Ht.
  - split; [lia|]. intros _. right. left.
Qed.
End greedy.

(** ** What the lists are *)

(** A transaction outranks another: more votes, or as many and a larger hash. *)
Definition outranks `{TD : TxDecoder} (all : list Bytes) (a b : Bytes) : bool :=
  match decode_tx a, decode_tx b with
  | Some ha, Some hb =>
      let va := votes_for decode_tx ha all in
      let vb := votes_for decode_tx hb all in
      (vb <? va) || ((va =? vb) && (hb <? ha))
  | _, _ => false
  end.

Section exactness.
Context `{HO : HashOrder, ES : EthSpec, TD : TxDecoder, LR : ListRoot}.
Implicit Types (votes : gmap Pubkey (u64 * InclusionList)) (all : list Bytes).

Lemma outranks_irrefl all a : outranks all a a = false.
Proof. unfold outranks. destruct (decode_tx a); [|done]. rewrite !Z.ltb_irrefl. apply andb_false_r. Qed.

Lemma outranks_asym all a b : outranks all a b = true → outranks all b a = false.
Proof.
  unfold outranks. destruct (decode_tx a), (decode_tx b); try done.
  rewrite orb_true_iff, andb_true_iff, orb_false_iff, andb_false_iff.
  rewrite !Z.ltb_lt, !Z.ltb_ge, Z.eqb_eq, Z.eqb_neq. lia.
Qed.

(** The voted transactions, best first. *)
Definition ranking all : list Bytes :=
  (λ e, e.2.1) <$> sort_by tx_order (hash_iter (foldl (tally decode_tx) ∅ all)).

Lemma ranking_sorted all : StronglySorted (λ a b, outranks all a b = true) (ranking all).
Proof.
  unfold ranking. set (m := foldl _ _ _).
  assert (∀ e, e ∈ sort_by tx_order (hash_iter m) →
    decode_tx e.2.1 = Some e.1 ∧ e.2.2 = votes_for decode_tx e.1 all) as Hm.
  { intros [h [b f]]. rewrite sort_by_perm, elem_of_hash_iter.
    intros (_ & ? & ?)%tally_some. done. }
  assert (NoDup (sort_by tx_order (hash_iter m)).*1) as Hnd.
  { rewrite sort_by_perm, hash_iter_perm. apply NoDup_fst_map_to_list. }
  pose proof (sort_by_sorted tx_order (hash_iter m)) as Hs.
  induction Hs as [|x l Hs IH Hall]; [constructor|].
  rewrite fmap_cons in *. apply NoDup_cons in Hnd as [Hx Hnd].
  constructor; [apply IH; [set_solver|done]|].
  rewrite Forall_fmap. rewrite Forall_forall in Hall |- *. intros y Hy. simpl.
  destruct (Hm x ltac:(left)) as [Hdx Hfx], (Hm y ltac:(by right)) as [Hdy Hfy].
  specialize (Hall y Hy). unfold outranks. rewrite Hdx, Hdy, <- Hfx, <- Hfy.
  assert (x.1 ≠ y.1) as Hne.
  { intros E. apply Hx. rewrite E. apply list_elem_of_fmap. eauto. }
  unfold tx_order, cmp_then in Hall.
  rewrite orb_true_iff, andb_true_iff, !Z.ltb_lt, Z.eqb_eq.
  destruct (Z.compare_spec y.2.2 x.2.2) as [E|E|E]; [|lia|done].
  right. split; [lia|]. assert (y.1 ≤ x.1) by (by apply Z.compare_le_iff). lia.
Qed.

Lemma ranking_elem all tx : tx ∈ ranking all → tx ∈ all ∧ is_Some (decode_tx tx).
Proof.
  unfold ranking. intros ([h [b f]] & -> & He)%list_elem_of_fmap.
  rewrite sort_by_perm, elem_of_hash_iter in He.
  apply tally_some in He as (? & ? & _). simpl. eauto.
Qed.

Lemma ranking_canonical all tx :
  canonical decode_tx all → tx ∈ all → is_Some (decode_tx tx) → tx ∈ ranking all.
Proof.
  intros Hc Hin [h Hh]. apply list_elem_of_fmap.
  exists (h, (tx, votes_for decode_tx h all)). split; [done|].
  rewrite sort_by_perm, elem_of_hash_iter. by apply tally_canonical.
Qed.

(** The limit on the number of transactions never bites: every selected
    transaction has at least one byte. *)
Lemma shared_is_greedy votes slot il :
  INCLUSION_LIST_MAX_BYTES ≤ max_transactions_per_payload →
  il_txs (compute_shared_inclusion_list votes slot il) =
    take_fitting INCLUSION_LIST_MAX_BYTES (ranking (txs_of (lists_for votes slot il))).
Proof.
  intros Hmax. unfold compute_shared_inclusion_list. rewrite shared_tally. cbn [il_txs].
  fold (ranking (txs_of (lists_for votes slot il))). set (r := take_fitting _ _).
  destruct (Z.ltb_spec max_transactions_per_payload (len r)) as [Hlt|]; [|done].
  assert (len r ≤ total r).
  { apply len_le_total. intros [_ [h Hh]]%take_fitting_elem%ranking_elem.
    by rewrite decode_tx_nil in Hh. }
  assert (total r ≤ INCLUSION_LIST_MAX_BYTES) by (by apply take_fitting_bound). lia.
Qed.

(** The shared inclusion list is the greedy one: its
    transactions take at most 8 KiB together, stand in descending order of
    votes and hash, and a transaction voted for this slot is in the list
    exactly when it decodes and fits in the room the listed transactions that
    outrank it leave. The limit on the number of transactions plays no role. *)
Theorem shared_list_exact votes slot il :
  INCLUSION_LIST_MAX_BYTES ≤ max_transactions_per_payload →
  let all := txs_of (lists_for votes slot il) in
  canonical decode_tx all →
  let txs := il_txs (compute_shared_inclusion_list votes slot il) in
  total txs ≤ INCLUSION_LIST_MAX_BYTES ∧
  StronglySorted (λ a b, outranks all a b = true) txs ∧
  ∀ tx, tx ∈ txs ↔
    tx ∈ all ∧ is_Some (decode_tx tx) ∧
    total (filter (λ t, outranks all t tx = true) txs) + len tx ≤ INCLUSION_LIST_MAX_BYTES.
Proof.
  intros Hmax all Hc txs. unfold txs. rewrite shared_is_greedy by done. fold all.
  pose proof (ranking_sorted all) as Hs. split_and!.
  - by apply take_fitting_bound.
  - by apply take_fitting_sorted.
  - intros tx. split.
    + intros Hin. destruct (ranking_elem all tx) as [Ha Hd]; [by eapply take_fitting_elem|].
      split_and!; [done..|]. apply take_fitting_ranked; eauto using outranks_irrefl, outranks_asym.
      by apply ranking_canonical.
    + intros (Ha & Hd & Hroom).
      apply take_fitting_ranked in Hroom; eauto using outranks_irrefl, outranks_asym.
      by apply ranking_canonical.
Qed.

(** There is always a list to choose: the relay's own. *)
Lemma final_chosen votes slot il :
  ∃ final, compute_final_inclusion_list votes slot il = Some (final, ∅) ∧
    final ∈ lists_for votes slot il.
Proof.
  unfold compute_final_inclusion_list. rewrite final_tally.
  destruct (max_by final_order _) as [[h [final f]]|] eqn:Em.
  - exists final. split; [done|].
    apply max_by_elem, elem_of_hash_iter, tally_some in Em as (Hin & _ & _).
    unfold lists_for. by rewrite <- Permutation_cons_append.
  - exfalso. apply max_by_none in Em.
    destruct (tally_elem (λ il, Some (list_root il)) (il :: lists_of slot (hash_values votes))
                (list_root il) il) as [b Hb]; [left|done|].
    apply elem_of_hash_iter in Hb. rewrite Em in Hb. by apply elem_of_nil in Hb.
Qed.

(** How a list fares: how many relays sent it, its size, its root. *)
Definition standing (ls : list InclusionList) (il : InclusionList) : Z * Z * Z :=
  (votes_for (λ il, Some (list_root il)) (list_root il) ls, total (il_txs il), list_root il).

Definition standing_le (x y : Z * Z * Z) : Prop :=
  let '(a, b, c) := x in let '(a', b', c') := y in
  a < a' ∨ (a = a' ∧ (b < b' ∨ (b = b' ∧ c ≤ c'))).

Lemma final_order_le x y :
  final_order x y ≠ Gt →
  standing_le (x.2.2, total (il_txs x.2.1), x.1) (y.2.2, total (il_txs y.2.1), y.1).
Proof.
  unfold final_order, standing_le, cmp_then.
  destruct (Z.compare_spec x.2.2 y.2.2); [|lia|done].
  destruct (Z.compare_spec (total (il_txs x.2.1)) (total (il_txs y.2.1))); [|lia|done].
  intros Hle. assert (x.1 ≤ y.1) by (by apply Z.compare_le_iff). lia.
Qed.

(** C27: The final inclusion list always exists, is one of the lists sent for
    the slot, and no other list sent for the slot has more votes, or as many
    votes and more bytes, or as many of both and a larger root. The votes are
    drained. *)
Theorem final_list_exact votes slot il :
  let ls := lists_for votes slot il in
  canonical (λ il, Some (list_root il)) ls →
  ∃ final,
    compute_final_inclusion_list votes slot il = Some (final, ∅) ∧ final ∈ ls ∧
    ∀ other, other ∈ ls → standing_le (standing ls other) (standing ls final).
Proof.
  intros ls Hc. unfold compute_final_inclusion_list. rewrite final_tally.
  set (key := λ il, Some (list_root il)). set (own := il :: _).
  assert (own ≡ₚ ls) as Hp by apply Permutation_cons_append.
  assert (canonical key own) as Hco by (by eapply canonical_perm).
  assert (∀ o, o ∈ ls → (list_root o, (o, votes_for key (list_root o) own))
    ∈ hash_iter (foldl (tally key) ∅ own)) as Hin.
  { intros o Ho. rewrite <- Hp in Ho. apply elem_of_hash_iter. by apply tally_canonical. }
  destruct (max_by final_order _) as [[h [final f]]|] eqn:Em.
  2:{ apply max_by_none in Em. specialize (Hin il). rewrite Em in Hin.
      exfalso. eapply not_elem_of_nil, Hin. rewrite <- Hp. left. }
  pose proof (max_by_elem _ _ _ Em) as He. apply elem_of_hash_iter, tally_some in He.
  destruct He as (Hf & [= <-] & ->). exists final. split_and!; [done|by rewrite <- Hp|].
  intros other Ho. pose proof (max_by_ge _ _ _ _ Em (Hin _ Ho)) as Hle.
  apply final_order_le in Hle. simpl in Hle. unfold standing. fold key.
  by rewrite <- !(votes_for_perm key own ls _ Hp).
Qed.
End exactness.

(** ** A run of both computations *)

(** The first byte of a transaction is its hash. *)
#[program] Definition ex_decoder : TxDecoder := {| decode_tx := head |}.
Next Obligation. done. Qed.

(** Three relays: two list [[1; 0]], two list [[2]]. *)
Definition ex_votes : gmap Pubkey (u64 * InclusionList) :=
  {[ 7 := (5, mkInclusionList [[1; 0]; [2]]); 8 := (5, mkInclusionList [[2]]);
     9 := (4, mkInclusionList [[3; 3]]) ]}.

Lemma ex_canonical :
  canonical (decode_tx (TxDecoder := ex_decoder))
    (txs_of (lists_for (HO := list_order) ex_votes 5 (mkInclusionList [[1; 0]]))).
Proof.
  assert (Forall (λ a, Forall (λ b, head a = head b → a = b)
    (txs_of (lists_for (HO := list_order) ex_votes 5 (mkInclusionList [[1; 0]]))))
    (txs_of (lists_for (HO := list_order) ex_votes 5 (mkInclusionList [[1; 0]])))) as H.
  { vm_compute. repeat constructor; discriminate || reflexivity. }
  intros a b Ha Hb _ E. rewrite Forall_forall in H. specialize (H a Ha).
  rewrite Forall_forall in H. by apply H.
Qed.

Lemma shared_list_exact_witness :
  let txs := il_txs (compute_shared_inclusion_list (HO := list_order) (ES := mainnet)
               (TD := ex_decoder) ex_votes 5 (mkInclusionList [[1; 0]])) in
  txs = [[2]; [1; 0]] ∧ total txs ≤ INCLUSION_LIST_MAX_BYTES.
Proof.
  split; [vm_compute; reflexivity|].
  apply (shared_list_exact (HO := list_order) (ES := mainnet) (TD := ex_decoder) ex_votes 5
           (mkInclusionList [[1; 0]])).
  - vm_compute. discriminate.
  - apply ex_canonical.
Defined.

(** The total size stands in for the root; the two lists differ in it. *)
Lemma final_list_exact_witness :
  ∃ final,
    compute_final_inclusion_list (HO := list_order) (LR := λ il, total (il_txs il))
      ex_votes 5 (mkInclusionList [[2]]) = Some (final, ∅) ∧ final = mkInclusionList [[2]].
Proof.
  destruct (final_list_exact (HO := list_order) (LR := λ il, total (il_txs il))
              ex_votes 5 (mkInclusionList [[2]])) as (final & Hf & _ & _).
  - assert (Forall (λ a, Forall (λ b, total (il_txs a) = total (il_txs b) → a = b)
      (lists_for (HO := list_order) ex_votes 5 (mkInclusionList [[2]])))
      (lists_for (HO := list_order) ex_votes 5 (mkInclusionList [[2]]))) as H.
    { vm_compute. repeat constructor; discriminate || reflexivity. }
    intros a b Ha Hb _ [= E]. rewrite Forall_forall in H. specialize (H a Ha).
    rewrite Forall_forall in H. by apply H.
  - exists final. split; [exact Hf|]. vm_compute in Hf. by injection Hf.
Defined.
