(* ===== verification/Rlp.v ===== *)
(** * Trie node encodings

    [builder/src/merge/rlp.rs] and the RLP reader of [builder/src/merge/trie.rs]
    ([rlp_item], the item loop and the path decoding of [decode]): how a node of
    the state trie is written to and read from bytes. *)

From S2P Require Import Prelude Types Submission.

(** Nibbles, and bytes of an encoding, are numbers in [0, 16) and [0, 256). *)
Abbreviation Nibbles := (list Z) (only parsing).

Definition is_byte (b : Z) : Prop := 0 ≤ b < 256.
Definition is_nibble (n : Z) : Prop := 0 ≤ n < 16.

(** [NodeRef]: the first [len] bytes of [data], at most 32; the empty reference
    is the default one. *)
Abbreviation NodeRef := (list Z) (only parsing).

(** ** Writing

    Each function appends to [out]; the definitions give what is appended. *)

(** [usize::leading_zeros]. *)
Definition leading_zeros (x : Z) : Z := if x =? 0 then 64 else 63 - Z.log2 x.

(** The [k] low bytes of [x], most significant first. *)
Fixpoint be_bytes (k : nat) (x : Z) : Bytes :=
  match k with
  | O => []
  | S k' => be_bytes k' (x / 256) ++ [x mod 256]
  end.

Definition header_len (len : Z) : Z :=
  if len <? 56 then 1 else 1 + 8 - leading_zeros len / 8.

Definition put_header (base len : Z) : Bytes :=
  if len <? 56 then [base + len]
  else
    let n := 8 - leading_zeros len / 8 in
    base + 55 + n :: drop (Z.to_nat (8 - n)) (be_bytes 8 len).

Definition put_list_header (len : Z) : Bytes := put_header 0xc0 len.

Definition bytes_len (bytes : Bytes) : Z :=
  match bytes with
  | [b] => if b <? 0x80 then 1 else header_len (len bytes) + len bytes
  | _ => header_len (len bytes) + len bytes
  end.

Definition put_bytes (bytes : Bytes) : Bytes :=
  match bytes with
  | [b] => if b <? 0x80 then [b] else put_header 0x80 (len bytes) ++ bytes
  | _ => put_header 0x80 (len bytes) ++ bytes
  end.

Definition compact_len (path : Nibbles) : Z :=
  let n := len path / 2 + 1 in
  if n =? 1 then 1 else 1 + n.

(** [chunks_exact(2)] mapped to bytes. *)
Fixpoint pack (nibbles : Nibbles) : Bytes :=
  match nibbles with
  | a :: b :: rest => Z.lor (Z.shiftl a 4) b :: pack rest
  | _ => []
  end.

Definition put_compact (path : Nibbles) (leaf : bool) : Bytes :=
  let flag := 2 * Z.b2z leaf + len path mod 2 in
  let n := len path / 2 + 1 in
  let '(first, rest) :=
    match path with
    | p :: path' => if len path mod 2 =? 1 then (Z.lor (Z.shiftl flag 4) p, path')
                    else (Z.shiftl flag 4, path)
    | [] => (Z.shiftl flag 4, path)
    end in
  if n =? 1 then [first] else 0x80 + n :: first :: pack rest.

Definition ref_len (r : NodeRef) : Z := if len r =? 32 then 33 else len r.

Definition put_ref (r : NodeRef) : Bytes := (if len r =? 32 then [0xa0] else []) ++ r.

Definition put_leaf (path : Nibbles) (value : Bytes) : Bytes :=
  put_list_header (compact_len path + bytes_len value) ++ put_compact path true ++ put_bytes value.

Definition put_ext (path : Nibbles) (child : NodeRef) : Bytes :=
  put_list_header (compact_len path + ref_len child) ++ put_compact path false ++ put_ref child.

Definition put_branch (children : list (option NodeRef)) : Bytes :=
  let len := sumZ ((λ c, match c with None => 1 | Some r => ref_len r end) <$> children) in
  put_list_header (len + 1) ++
  concat ((λ c, match c with Some r => put_ref r | None => [0x80] end) <$> children) ++ [0x80].

(** ** Reading *)

Inductive TrieError := FULL | MISSING | DECODE | STORE.
#[export] Instance TrieError_eq_dec : EqDecision TrieError.
Proof. solve_decision. Defined.

Definition ok_or {A E} (o : option A) (e : E) : Result A E :=
  match o with Some a => Ok a | None => Err e end.

(** [data.get(at..at + len)]. *)
Definition get_range (data : Bytes) (at_ len : Z) : option Bytes :=
  if at_ + len <=? Submission.len data
  then Some (take (Z.to_nat len) (drop (Z.to_nat at_) data)) else None.

(** The big-endian number the bytes spell. *)
Definition be_fold (bytes : Bytes) : Z := foldl (λ l b, Z.lor (Z.shiftl l 8) b) 0 bytes.

(** The closure [long]: a length of [n] bytes after the first byte. *)
Definition long_header (rest : Bytes) (n : Z) : Result (Z * Z) TrieError :=
  let? bytes := ok_or (get_range rest 0 n) DECODE in
  Ok (1 + n, be_fold bytes).

(** Whether the item is a list, its payload, and the length of the whole item. *)
Definition rlp_item (data : Bytes) : Result (bool * Bytes * Z) TrieError :=
  match data with
  | [] => Err DECODE
  | b :: rest =>
      if b <=? 0x7f then Ok (false, [b], 1)
      else
        let? header :=
          if b <=? 0xb7 then Ok (false, (1, b - 0x80))
          else if b <=? 0xbf then let? h := long_header rest (b - 0xb7) in Ok (false, h)
          else if b <=? 0xf7 then Ok (true, (1, b - 0xc0))
          else let? h := long_header rest (b - 0xf7) in Ok (true, h) in
        let '(list, (at_, len)) := header in
        let? payload := ok_or (get_range data at_ len) DECODE in
        Ok (list, payload, at_ + len)
  end.

(** An item as [decode] keeps it: list or not, payload, whole encoding. *)
Abbreviation Item := (bool * Bytes * Bytes)%type (only parsing).

(** The loop over the items of a list, at most 17 of them: [room] items may
    still be stored. *)
Fixpoint rlp_items (room : nat) (payload : Bytes) : Result (list Item) TrieError :=
  match payload with
  | [] => Ok []
  | _ :: _ =>
      let? item := rlp_item payload in
      let '(list, inner, len) := item in
      match room with
      | O => Err DECODE
      | S room' =>
          let? items := rlp_items room' (drop (Z.to_nat len) payload) in
          Ok ((list, inner, take (Z.to_nat len) payload) :: items)
      end
  end.

Definition KEY_NIBBLES : Z := 64.

(** The nibbles [push]ed for the bytes after the first. *)
Fixpoint unpack (bytes : Bytes) : Nibbles :=
  match bytes with
  | [] => []
  | b :: rest => Z.shiftr b 4 :: Z.land b 0x0f :: unpack rest
  end.

(** The path of a compact encoding and whether it is a leaf's; the [push] that
    would be the 65th fails. *)
Definition decode_path (compact : Bytes) : Result (Nibbles * bool) TrieError :=
  match compact with
  | [] => Err DECODE
  | first :: rest =>
      if 3 <? Z.shiftr first 4 then Err DECODE
      else
        let path := (if Z.land first 0x10 =? 0 then [] else [Z.land first 0x0f]) ++ unpack rest in
        if KEY_NIBBLES <? len path then Err DECODE
        else Ok (path, negb (Z.land first 0x20 =? 0))
  end.

(** ** Reading what was written *)

Lemma len_cons {A} (x : A) l : len (x :: l) = 1 + len l.
Proof. unfold len. simpl. lia. Qed.

Lemma lor_low a b k : 0 ≤ k → 0 ≤ b < 2 ^ k → Z.lor (Z.shiftl a k) b = a * 2 ^ k + b.
Proof.
  intros Hk Hb. rewrite <- Z.shiftl_mul_pow2 by done. symmetry. apply Z.add_nocarry_lor.
  apply Z.bits_inj'. intros n Hn. rewrite Z.land_spec, Z.bits_0, Z.shiftl_spec by done.
  destruct (Z.lt_ge_cases n k) as [Hlt|Hge].
  - by rewrite Z.testbit_neg_r by lia.
  - rewrite andb_comm. destruct (Z.eq_dec b 0) as [->|Hb0]; [by rewrite Z.bits_0|].
    rewrite Z.bits_above_log2; [done|lia|]. apply Z.log2_lt_pow2; [lia|].
    assert (2 ^ k ≤ 2 ^ n) by (apply Z.pow_le_mono_r; lia). lia.
Qed.

Lemma be_bytes_length k x : length (be_bytes k x) = k.
Proof. revert x. induction k as [|k IH]; intros x; simpl; [done|]. rewrite length_app, IH. simpl. lia. Qed.

Lemma be_bytes_byte k x : Forall is_byte (be_bytes k x).
Proof.
  revert x. induction k as [|k IH]; intros x; simpl; [constructor|].
  apply Forall_app. split; [apply IH|]. constructor; [|constructor].
  pose proof (Z.mod_pos_bound x 256). unfold is_byte. lia.
Qed.

Lemma be_fold_be_bytes k x : 0 ≤ x < 256 ^ Z.of_nat k → be_fold (be_bytes k x) = x.
Proof.
  revert x. induction k as [|k IH]; intros x Hx; [simpl in *; unfold be_fold; simpl; lia|].
  simpl be_bytes. unfold be_fold in *. rewrite foldl_app, IH; simpl.
  - rewrite lor_low by (pose proof (Z.mod_pos_bound x 256); lia).
    change (2 ^ 8) with 256. pose proof (Z.div_mod x 256). lia.
  - rewrite Nat2Z.inj_succ, Z.pow_succ_r in Hx by lia.
    split; [apply Z.div_pos; lia|]. apply Z.div_lt_upper_bound; lia.
Qed.

Lemma drop_be_bytes k m x : (k ≤ m)%nat → drop (m - k) (be_bytes m x) = be_bytes k x.
Proof.
  revert k x. induction m as [|m IH]; intros k x Hk.
  { by replace k with O by lia. }
  destruct k as [|k].
  { simpl (be_bytes 0 x). apply drop_ge. rewrite be_bytes_length. lia. }
  replace (S m - S k)%nat with (m - k)%nat by lia. simpl be_bytes.
  rewrite drop_app_le by (rewrite be_bytes_length; lia). by rewrite IH by lia.
Qed.

(** The number of bytes a length of 56 or more takes. *)
Lemma width_spec x :
  56 ≤ x < 2 ^ 64 → let n := 8 - leading_zeros x / 8 in 1 ≤ n ≤ 8 ∧ x < 256 ^ n.
Proof.
  intros Hx n. unfold n, leading_zeros. rewrite (proj2 (Z.eqb_neq x 0)) by lia.
  assert (0 ≤ Z.log2 x) by apply Z.log2_nonneg.
  assert (Z.log2 x < 64) by (apply Z.log2_lt_pow2; lia).
  assert (8 - (63 - Z.log2 x) / 8 = Z.log2 x / 8 + 1) as -> by (Z.to_euclidean_division_equations; lia).
  split; [Z.to_euclidean_division_equations; lia|].
  change 256 with (2 ^ 8). rewrite <- Z.pow_mul_r by (Z.to_euclidean_division_equations; lia).
  apply Z.log2_lt_pow2; [lia|]. Z.to_euclidean_division_equations; lia.
Qed.

Lemma put_header_long base x :
  56 ≤ x < 2 ^ 64 →
  ∃ n, 1 ≤ n ≤ 8 ∧ x < 256 ^ n ∧ header_len x = 1 + n ∧
    put_header base x = base + 55 + n :: be_bytes (Z.to_nat n) x.
Proof.
  intros Hx. destruct (width_spec x Hx) as [Hn Hlt]. set (n := 8 - leading_zeros x / 8) in *.
  exists n. split_and!; [lia..| |].
  - unfold header_len. rewrite (proj2 (Z.ltb_ge x 56)) by lia. lia.
  - unfold put_header. rewrite (proj2 (Z.ltb_ge x 56)) by lia. cbv zeta. fold n. f_equal.
    replace (Z.to_nat (8 - n)) with (8 - Z.to_nat n)%nat by lia. apply drop_be_bytes. lia.
Qed.

Lemma put_header_len base x : 0 ≤ x < 2 ^ 64 → len (put_header base x) = header_len x.
Proof.
  intros Hx. destruct (Z.lt_ge_cases x 56) as [Hlt|Hge].
  - unfold put_header, header_len. by rewrite (proj2 (Z.ltb_lt x 56)).
  - destruct (put_header_long base x) as (n & Hn & _ & -> & ->); [lia|].
    unfold len. cbn [length]. rewrite be_bytes_length. lia.
Qed.

Lemma get_range_middle (h p rest : Bytes) :
  get_range (h ++ p ++ rest) (len h) (len p) = Some p.
Proof.
  unfold get_range. rewrite !len_app, (proj2 (Z.leb_le _ _)).
  - unfold len. rewrite !Nat2Z.id, drop_app_length, take_app_length. done.
  - pose proof (len_nonneg rest). lia.
Qed.

(** The header of a string ([0x80]) or a list ([0xc0]) is read back. *)
Lemma rlp_item_header (list : bool) p rest :
  len p < 2 ^ 64 →
  let h := put_header (if list then 0xc0 else 0x80) (len p) in
  rlp_item (h ++ p ++ rest) = Ok (list, p, len h + len p).
Proof.
  intros Hp h. pose proof (len_nonneg p) as Hp0.
  pose proof (get_range_middle h p rest) as Hg.
  destruct (Z.lt_ge_cases (len p) 56) as [Hlt|Hge].
  - assert (h = [(if list then 0xc0 else 0x80) + len p]) as Eh.
    { unfold h, put_header. by rewrite (proj2 (Z.ltb_lt _ _) Hlt). }
    rewrite Eh in *. cbn [app rlp_item]. cbn [app] in Hg. rewrite len_cons in Hg |- *.
    change (1 + len []) with 1 in *. unfold rlp_item.
    destruct list; repeat (rewrite (proj2 (Z.leb_gt _ _)) by lia);
      rewrite (proj2 (Z.leb_le _ _)) by lia; cbn [result_bind ok_or];
      rewrite Z.add_simpl_l, Hg; reflexivity.
  - destruct (put_header_long (if list then 0xc0 else 0x80) (len p)) as (n & Hn & Hw & _ & Eh);
      [lia|]. fold h in Eh. rewrite Eh in *.
    assert (len (be_bytes (Z.to_nat n) (len p)) = n) as Hl.
    { unfold len. rewrite be_bytes_length. lia. }
    rewrite len_cons, Hl in Hg |- *. cbn [app] in Hg |- *.
    assert (long_header (be_bytes (Z.to_nat n) (len p) ++ p ++ rest) n = Ok (1 + n, len p)) as Hh.
    { unfold long_header. pose proof (get_range_middle [] (be_bytes (Z.to_nat n) (len p)) (p ++ rest))
        as G. rewrite Hl in G. cbn [app] in G. change (len []) with 0 in G. rewrite G.
      cbn [ok_or result_bind]. rewrite be_fold_be_bytes; [done|].
      rewrite Z2Nat.id by lia. lia. }
    unfold rlp_item. destruct list.
    + repeat (rewrite (proj2 (Z.leb_gt _ _)) by lia).
      replace (192 + 55 + n - 247) with n by lia. rewrite Hh. cbn [result_bind].
      rewrite Hg. reflexivity.
    + rewrite (proj2 (Z.leb_gt _ 127)), (proj2 (Z.leb_gt _ 183)), (proj2 (Z.leb_le _ 191)) by lia.
      replace (128 + 55 + n - 183) with n by lia. rewrite Hh. cbn [result_bind].
      rewrite Hg. reflexivity.
Qed.

Lemma put_bytes_len b : len b < 2 ^ 64 → len (put_bytes b) = bytes_len b.
Proof.
  intros Hb. pose proof (len_nonneg b).
  assert (len (put_header 0x80 (len b) ++ b) = header_len (len b) + len b) as E.
  { rewrite len_app, put_header_len by lia. done. }
  unfold put_bytes, bytes_len. destruct b as [|x [|y b]]; [done| |done]. by destruct (x <? 0x80).
Qed.

Lemma rlp_item_bytes b rest :
  Forall is_byte b → len b < 2 ^ 64 →
  rlp_item (put_bytes b ++ rest) = Ok (false, b, len (put_bytes b)).
Proof.
  intros Hb Hl.
  assert (rlp_item ((put_header 0x80 (len b) ++ b) ++ rest) =
    Ok (false, b, len (put_header 0x80 (len b) ++ b))) as E.
  { rewrite <- app_assoc, (rlp_item_header false), len_app by done. done. }
  unfold put_bytes. destruct b as [|x [|y b]]; [done| |done].
  destruct (Z.ltb_spec x 0x80); [|done]. cbn. rewrite (proj2 (Z.leb_le _ _)) by lia. done.
Qed.

Lemma rlp_item_list p rest :
  len p < 2 ^ 64 →
  rlp_item (put_list_header (len p) ++ p ++ rest) =
    Ok (true, p, len (put_list_header (len p)) + len p).
Proof. apply (rlp_item_header true). Qed.

(** ** Paths *)

(** The compact encoding of a path, the string [put_compact] writes. *)
Definition compact (path : Nibbles) (leaf : bool) : Bytes :=
  let flag := 2 * Z.b2z leaf + len path mod 2 in
  match path with
  | p :: path' => if len path mod 2 =? 1 then Z.lor (Z.shiftl flag 4) p :: pack path'
                  else Z.shiftl flag 4 :: pack path
  | [] => [Z.shiftl flag 4]
  end.

Lemma pair_ind {A} (P : list A → Prop) :
  P [] → (∀ x, P [x]) → (∀ x y l, P l → P (x :: y :: l)) → ∀ l, P l.
Proof.
  intros H0 H1 H2 l. assert (P l ∧ ∀ x, P (x :: l)) as [? _]; [|done].
  induction l as [|y l [IH1 IH2]]; [done|]. split; [done|]. intros x. by apply H2.
Qed.

Lemma nibble_pair a b :
  is_nibble a → is_nibble b →
  let x := Z.lor (Z.shiftl a 4) b in
  Z.shiftr x 4 = a ∧ Z.land x 15 = b ∧ x = 16 * a + b.
Proof.
  intros Ha Hb x. unfold is_nibble in *.
  assert (x = 16 * a + b) as ->.
  { unfold x. rewrite lor_low by lia. change (2 ^ 4) with 16. lia. }
  split_and!; [| |done].
  - rewrite Z.shiftr_div_pow2 by done. change (2 ^ 4) with 16.
    Z.to_euclidean_division_equations; lia.
  - change 15 with (Z.ones 4). rewrite Z.land_ones by done. change (2 ^ 4) with 16.
    Z.to_euclidean_division_equations; lia.
Qed.

Lemma unpack_pack l : Forall is_nibble l → len l mod 2 = 0 → unpack (pack l) = l.
Proof.
  induction l as [|x|x y l IH] using pair_ind; [done|done|].
  intros [Hx [Hy Hl]%Forall_cons]%Forall_cons He. simpl.
  destruct (nibble_pair x y Hx Hy) as (-> & -> & _). do 2 f_equal. apply IH; [done|].
  rewrite !len_cons in He. Z.to_euclidean_division_equations; lia.
Qed.

Lemma pack_len l : len (pack l) = len l / 2.
Proof.
  induction l as [|x|x y l IH] using pair_ind; [done|done|]. simpl. rewrite !len_cons, IH.
  Z.to_euclidean_division_equations; lia.
Qed.

Lemma pack_byte l : Forall is_nibble l → Forall is_byte (pack l).
Proof.
  induction l as [|x|x y l IH] using pair_ind; [constructor..|].
  intros [Hx [Hy Hl]%Forall_cons]%Forall_cons. simpl. constructor; [|auto].
  destruct (nibble_pair x y Hx Hy) as (_ & _ & ->). unfold is_nibble, is_byte in *. lia.
Qed.

Lemma unpack_nibble b : Forall is_byte b → Forall is_nibble (unpack b).
Proof.
  induction 1 as [|x b Hx _ IH]; simpl; [constructor|]. unfold is_byte, is_nibble in *.
  constructor; [|constructor; [|done]].
  - rewrite Z.shiftr_div_pow2 by done. change (2 ^ 4) with 16.
    Z.to_euclidean_division_equations; lia.
  - change 15 with (Z.ones 4). rewrite Z.land_ones by done. apply Z.mod_pos_bound. done.
Qed.

(** The flag nibble and what it says. *)
Lemma flag_nibble f p :
  0 ≤ f < 4 → is_nibble p →
  let x := Z.lor (Z.shiftl f 4) p in
  Z.shiftr x 4 = f ∧ Z.land x 15 = p ∧ 0 ≤ x < 64 ∧
  (Z.land x 16 =? 0) = (f mod 2 =? 0) ∧ (Z.land x 32 =? 0) = (f / 2 =? 0).
Proof.
  intros Hf Hp x. assert (is_nibble f) as Hn by (unfold is_nibble; lia).
  destruct (nibble_pair f p Hn Hp) as (H1 & H2 & H3). fold x in H1, H2, H3.
  split_and!; [done|done|unfold is_nibble in *; lia|unfold is_nibble in *; lia|..].
  all: assert (f = 0 ∨ f = 1 ∨ f = 2 ∨ f = 3) as Hc by lia.
  all: unfold is_nibble in Hp; rewrite H3; clear -Hc Hp.
  all: assert (∃ n, p = Z.of_nat n ∧ (n < 16)%nat) as (n & -> & Hn) by
    (exists (Z.to_nat p); lia).
  all: do 16 (destruct n as [|n]; [by destruct Hc as [->|[->|[->| ->]]]|]); lia.
Qed.

Lemma mod2_cases x : x mod 2 = 0 ∨ x mod 2 = 1.
Proof. pose proof (Z.mod_pos_bound x 2). lia. Qed.

Lemma compact_shape path leaf :
  Forall is_nibble path →
  ∃ first rest, compact path leaf = first :: pack rest ∧ 0 ≤ first < 64 ∧
    Forall is_nibble rest ∧ len rest / 2 = len path / 2 ∧
    put_compact path leaf =
      (if len path / 2 + 1 =? 1 then [first]
       else 0x80 + (len path / 2 + 1) :: first :: pack rest) ∧
    decode_path (compact path leaf) =
      if KEY_NIBBLES <? len path then Err DECODE else Ok (path, leaf).
Proof.
  intros Hp. destruct path as [|p path].
  { exists (Z.shiftl (2 * Z.b2z leaf) 4), []. split_and!; try done; by destruct leaf. }
  apply Forall_cons in Hp as [Hp Hps]. set (f := 2 * Z.b2z leaf + len (p :: path) mod 2).
  pose proof (mod2_cases (len (p :: path))) as Hm.
  assert (0 ≤ f < 4) as Hf by (unfold f; destruct leaf; simpl; lia).
  unfold compact, put_compact. fold f. rewrite len_cons in *.
  destruct Hm as [Hm|Hm]; rewrite Hm; cbn [Z.eqb Pos.eqb].
  - assert (f mod 2 = 0 ∧ (f / 2 =? 0) = negb leaf) as [Hf2 Hfl].
    { unfold f. rewrite len_cons, Hm. by destruct leaf. }
    destruct (flag_nibble f 0 Hf) as (H1 & _ & H2 & H3 & H4); [done|].
    rewrite Z.lor_0_r in *.
    exists (Z.shiftl f 4), (p :: path).
    split_and!; [done|lia|lia|by constructor|by rewrite len_cons|done|].
    unfold decode_path. rewrite H1, (proj2 (Z.ltb_ge 3 f)), H3, H4, Hf2, Hfl by lia. cbn [Z.eqb app].
    rewrite unpack_pack, len_cons, negb_involutive; [done|by constructor|by rewrite len_cons].
  - assert (f mod 2 = 1 ∧ (f / 2 =? 0) = negb leaf) as [Hf2 Hfl].
    { unfold f. rewrite len_cons, Hm. by destruct leaf. }
    destruct (flag_nibble f p Hf Hp) as (H1 & H0 & H2 & H3 & H4).
    exists (Z.lor (Z.shiftl f 4) p), path.
    split_and!; [done|lia|lia|done|Z.to_euclidean_division_equations; lia|done|].
    unfold decode_path. rewrite H1, (proj2 (Z.ltb_ge 3 f)), H3, H4, Hf2, Hfl, H0 by lia.
    cbn [Z.eqb app].
    rewrite unpack_pack, len_cons, negb_involutive; [done|done|].
    Z.to_euclidean_division_equations; lia.
Qed.

(** The path of a node is read back, and the marker that tells leaves from
    extensions with it. *)
Lemma decode_path_compact path leaf :
  Forall is_nibble path → len path ≤ KEY_NIBBLES → decode_path (compact path leaf) = Ok (path, leaf).
Proof.
  intros Hp Hl. destruct (compact_shape path leaf Hp) as (? & ? & _ & _ & _ & _ & _ & ->).
  by rewrite (proj2 (Z.ltb_ge _ _)).
Qed.

(** [put_compact] writes the compact encoding as a string, of the announced
    length. *)
Lemma put_compact_bytes path leaf :
  Forall is_nibble path → len path ≤ KEY_NIBBLES →
  put_compact path leaf = put_bytes (compact path leaf) ∧
  Forall is_byte (compact path leaf) ∧ len (compact path leaf) = len path / 2 + 1 ∧
  len (put_compact path leaf) = compact_len path.
Proof.
  intros Hp Hl. unfold KEY_NIBBLES in Hl.
  destruct (compact_shape path leaf Hp) as (first & rest & Ec & Hf & Hr & Hd & Ep & _).
  assert (len (pack rest) = len path / 2) as Hpl by (by rewrite pack_len).
  assert (0 ≤ len path / 2 ≤ 32) as Hb.
  { pose proof (len_nonneg path). Z.to_euclidean_division_equations; lia. }
  rewrite Ep, Ec. unfold compact_len. split_and!.
  - unfold put_bytes. destruct (Z.eqb_spec (len path / 2 + 1) 1) as [E|E];
      destruct (pack rest) as [|x r]; rewrite ?len_cons in *.
    + by rewrite (proj2 (Z.ltb_lt _ _)) by lia.
    + pose proof (len_nonneg r). lia.
    + change (len []) with 0 in Hpl. lia.
    + unfold put_header. rewrite (proj2 (Z.ltb_lt _ _)) by lia. cbn [app]. do 2 f_equal. lia.
  - constructor; [unfold is_byte; lia|by apply pack_byte].
  - rewrite len_cons. lia.
  - destruct (Z.eqb_spec (len path / 2 + 1) 1); rewrite !len_cons; change (len []) with 0; lia.
Qed.

(** ** Nodes *)

(** An item that is read off the front of the payload. *)
Lemma rlp_items_step room list p w rest :
  rlp_item (w ++ rest) = Ok (list, p, len w) → w ≠ [] →
  rlp_items (S room) (w ++ rest) =
    let? items := rlp_items room rest in Ok ((list, p, w) :: items).
Proof.
  intros Hi Hw. destruct w as [|x w]; [done|]. cbn [rlp_items app]. cbn [app] in Hi. rewrite Hi.
  cbn [result_bind]. unfold len. rewrite Nat2Z.id.
  change (x :: w ++ rest) with ((x :: w) ++ rest). by rewrite drop_app_length, take_app_length.
Qed.

(** A reference that stands for a node: a hash, or the encoding of a short node. *)
Definition inline_ref (r : NodeRef) (p : Bytes) : Prop :=
  r = put_list_header (len p) ++ p ∧ len r < 32.
Definition ref_ok (r : NodeRef) : Prop :=
  Forall is_byte r ∧ (len r = 32 ∨ ∃ p, inline_ref r p).

(** The item a child is read as. *)
Inductive child_item : option NodeRef → Item → Prop :=
| child_none : child_item None (false, [], [0x80])
| child_hash r : len r = 32 → Forall is_byte r → child_item (Some r) (false, r, 0xa0 :: r)
| child_inline r p : inline_ref r p → child_item (Some r) (true, p, r).

Definition put_child (c : option NodeRef) : Bytes :=
  match c with Some r => put_ref r | None => [0x80] end.

Lemma inline_ref_len r p : inline_ref r p → len p < 32 ∧ 1 ≤ len r.
Proof.
  intros [-> Hl]. rewrite len_app in Hl |- *. pose proof (len_nonneg p).
  assert (1 ≤ len (put_list_header (len p))); [|lia].
  unfold put_list_header, put_header. destruct (len p <? 56); rewrite len_cons;
    match goal with |- _ ≤ 1 + len ?l => pose proof (len_nonneg l); lia end.
Qed.

Lemma child_item_read c i rest :
  child_item c i → rlp_item (put_child c ++ rest) = Ok (i.1.1, i.1.2, len (put_child c)) ∧
    i.2 = put_child c ∧ put_child c ≠ [] ∧
    len (put_child c) = match c with None => 1 | Some r => ref_len r end.
Proof.
  destruct 1 as [|r Hl Hb|r p Hi]; cbn [put_child fst snd].
  - split_and!; [by apply (rlp_item_header false [] rest)|done..].
  - unfold put_ref, ref_len. rewrite (proj2 (Z.eqb_eq _ _) Hl).
    assert (put_bytes r = 0xa0 :: r) as E.
    { unfold put_bytes. rewrite Hl. by destruct r as [|? [|? ?]]. }
    pose proof (rlp_item_bytes r rest Hb ltac:(lia)) as Hr. rewrite E in Hr.
    split_and!; [exact Hr|done|done|]. cbn [app]. rewrite len_cons. lia.
  - destruct (inline_ref_len r p Hi) as [Hp Hr1]. destruct Hi as [Hr Hl]. unfold put_ref, ref_len.
    rewrite (proj2 (Z.eqb_neq _ 32)) by lia. cbn [app]. split_and!; [|done| |done].
    + rewrite Hr at 1. rewrite <- app_assoc, rlp_item_list by lia. by rewrite Hr, len_app.
    + intros ->. done.
Qed.

Lemma rlp_item_whole p :
  len p < 2 ^ 64 →
  rlp_item (put_list_header (len p) ++ p) = Ok (true, p, len (put_list_header (len p) ++ p)).
Proof.
  intros Hp. pose proof (rlp_item_list p [] Hp) as H. rewrite app_nil_r in H. by rewrite H, len_app.
Qed.

Lemma bytes_len_bound b : len b < 2 ^ 32 → 1 ≤ bytes_len b ≤ 9 + len b.
Proof.
  intros Hb. pose proof (len_nonneg b).
  assert (1 ≤ header_len (len b) ≤ 9) as Hh.
  { destruct (Z.lt_ge_cases (len b) 56) as [Hlt|Hge].
    - unfold header_len. rewrite (proj2 (Z.ltb_lt _ _) Hlt). lia.
    - destruct (put_header_long 0 (len b)) as (n & ? & _ & -> & _); lia. }
  unfold bytes_len. destruct b as [|x [|y b]]; [lia| |lia]. destruct (x <? 0x80); lia.
Qed.

Lemma put_bytes_nonempty b : len b < 2 ^ 32 → put_bytes b ≠ [].
Proof.
  intros Hb E. pose proof (put_bytes_len b ltac:(lia)) as Hl. rewrite E in Hl.
  pose proof (bytes_len_bound b Hb). change (len []) with 0 in Hl. lia.
Qed.

Lemma leaf_read path value :
  Forall is_nibble path → len path ≤ KEY_NIBBLES → Forall is_byte value → len value < 2 ^ 32 →
  ∃ p, rlp_item (put_leaf path value) = Ok (true, p, len (put_leaf path value)) ∧
    put_leaf path value = put_list_header (len p) ++ p ∧
    rlp_items 17 p = Ok [(false, compact path true, put_compact path true);
                         (false, value, put_bytes value)].
Proof.
  intros Hp Hl Hv Hvl. destruct (put_compact_bytes path true Hp Hl) as (Ec & Hc & Hcl & Hlen).
  exists (put_compact path true ++ put_bytes value).
  assert (len (put_compact path true ++ put_bytes value) = compact_len path + bytes_len value) as E.
  { rewrite len_app, Hlen, put_bytes_len by lia. done. }
  assert (0 ≤ len (compact path true) < 2 ^ 32) as Hcb.
  { rewrite Hcl. unfold KEY_NIBBLES in Hl. pose proof (len_nonneg path).
    Z.to_euclidean_division_equations; lia. }
  unfold put_leaf. rewrite <- E. split_and!; [|done|].
  - apply rlp_item_whole. pose proof (bytes_len_bound value). rewrite E. unfold compact_len.
    destruct (_ =? 1); lia.
  - rewrite Ec. erewrite rlp_items_step; [|by apply rlp_item_bytes; [|lia]|apply put_bytes_nonempty; lia].
    rewrite <- (app_nil_r (put_bytes value)) at 1. erewrite rlp_items_step; [done|..].
    + apply rlp_item_bytes; [done|lia].
    + apply put_bytes_nonempty. lia.
Qed.

Lemma put_ref_len r : len (put_ref r) = ref_len r.
Proof.
  unfold put_ref, ref_len. destruct (Z.eqb_spec (len r) 32) as [E|E]; [|done].
  cbn [app]. rewrite len_cons. lia.
Qed.

Definition child_len (c : option NodeRef) : Z := match c with None => 1 | Some r => ref_len r end.

Lemma put_children_len cs : len (concat (put_child <$> cs)) = sumZ (child_len <$> cs).
Proof.
  induction cs as [|c cs IH]; [done|]. rewrite !fmap_cons. cbn [concat]. rewrite len_app, IH.
  change (sumZ (child_len c :: (child_len <$> cs))) with (child_len c + sumZ (child_len <$> cs)).
  f_equal. destruct c; [apply put_ref_len|done].
Qed.

Lemma rlp_children room cs items rest :
  Forall2 child_item cs items →
  rlp_items (length cs + room) (concat (put_child <$> cs) ++ rest) =
    let? r := rlp_items room rest in Ok (items ++ r).
Proof.
  induction 1 as [|c i cs items Hc _ IH]; [cbn; by destruct (rlp_items room rest)|].
  rewrite fmap_cons. cbn [length Nat.add concat]. rewrite <- app_assoc.
  destruct (child_item_read c i (concat (put_child <$> cs) ++ rest) Hc) as (Hr & Hi & Hne & _).
  erewrite rlp_items_step; [|exact Hr|exact Hne]. rewrite IH, <- Hi.
  destruct i as [[l p] w]. by destruct (rlp_items room rest).
Qed.

Lemma child_item_len c i : child_item c i → 1 ≤ len (put_child c) ≤ 33.
Proof.
  intros Hc. destruct (child_item_read c i [] Hc) as (_ & _ & _ & ->).
  destruct Hc as [|r Hl _|r p Hi]; unfold ref_len; [lia|by rewrite (proj2 (Z.eqb_eq _ _) Hl)|].
  destruct (inline_ref_len r p Hi). destruct Hi. rewrite (proj2 (Z.eqb_neq _ 32)) by lia. lia.
Qed.

Lemma ext_read path r i :
  Forall is_nibble path → len path ≤ KEY_NIBBLES → child_item (Some r) i →
  ∃ p, rlp_item (put_ext path r) = Ok (true, p, len (put_ext path r)) ∧
    put_ext path r = put_list_header (len p) ++ p ∧
    rlp_items 17 p = Ok [(false, compact path false, put_compact path false); i].
Proof.
  intros Hp Hl Hi. destruct (put_compact_bytes path false Hp Hl) as (Ec & Hc & Hcl & Hlen).
  destruct (child_item_read _ _ [] Hi) as (_ & _ & _ & Hr). cbn [put_child] in Hr.
  pose proof (child_item_len _ _ Hi) as Hb. cbn [put_child] in Hb.
  exists (put_compact path false ++ put_ref r).
  assert (len (put_compact path false ++ put_ref r) = compact_len path + ref_len r) as E.
  { by rewrite len_app, Hlen, Hr. }
  assert (0 ≤ len (compact path false) < 2 ^ 32 ∧ compact_len path ≤ 34) as [Hcb Hcc].
  { rewrite Hcl. unfold compact_len, KEY_NIBBLES in *. pose proof (len_nonneg path).
    destruct (_ =? 1); Z.to_euclidean_division_equations; lia. }
  unfold put_ext. rewrite <- E. split_and!; [|done|].
  - apply rlp_item_whole. rewrite E. lia.
  - rewrite Ec.
    erewrite rlp_items_step; [|by apply rlp_item_bytes; [|lia]|apply put_bytes_nonempty; lia].
    replace (put_ref r) with (concat (put_child <$> [Some r]) ++ []) by
      (rewrite fmap_cons; cbn [concat fmap list_fmap put_child]; by rewrite !app_nil_r).
    change 16%nat with (length [Some r] + 15)%nat.
    by rewrite (rlp_children 15 [Some r] [i] []) by (by repeat constructor).
Qed.

Lemma branch_read children items :
  Forall2 child_item children items → length children = 16%nat →
  ∃ p, rlp_item (put_branch children) = Ok (true, p, len (put_branch children)) ∧
    put_branch children = put_list_header (len p) ++ p ∧
    rlp_items 17 p = Ok (items ++ [(false, [], [0x80])]).
Proof.
  intros Hc Hn. exists (concat (put_child <$> children) ++ [0x80]).
  assert (len (concat (put_child <$> children)) ≤ 33 * len children) as Hb.
  { clear Hn. induction Hc as [|c i cs items Hc _ IH]; [done|].
    rewrite fmap_cons. cbn [concat]. rewrite len_app, len_cons.
    pose proof (child_item_len _ _ Hc). lia. }
  assert (len (concat (put_child <$> children) ++ [0x80]) < 2 ^ 64) as Hlt.
  { rewrite len_app. unfold len in Hb at 2. rewrite Hn in Hb. change (len [128]) with 1. lia. }
  unfold put_branch. fold put_child child_len. rewrite <- put_children_len.
  change (len (concat (put_child <$> children)) + 1) with
    (len (concat (put_child <$> children)) + len [0x80]). rewrite <- len_app.
  split_and!; [by apply rlp_item_whole|done|].
  pose proof (rlp_children 1 children items [0x80] Hc) as Hch. rewrite Hn in Hch. exact Hch.
Qed.
