(* ===== verification/MergeTrie.v ===== *)
(** * The state trie of the block merger

    [builder/src/merge/trie.rs]: a Merkle-Patricia trie kept in two arenas of
    nodes. The parent arena caches the nodes of the parent block's state and is
    shared; the own arena holds what one builder changed. Nodes that are only
    known by hash are loaded from the trie database when they are needed. *)

From S2P Require Import Prelude Types Submission Rlp.

(** Hashes are byte strings here, since they are spliced into encodings. *)
Abbreviation H256 := (list Z) (only parsing).

(** The hash function and the root of the empty trie. *)
Class Keccak := {
  keccak : Bytes → H256;
  keccak_bytes : ∀ b, Forall is_byte (keccak b) ∧ len (keccak b) = 32;
  EMPTY_TRIE_HASH : H256
}.

(** [TrieDB::get]: the encoded node at a path, or a store error. *)
Abbreviation TrieDB := (Nibbles → Result (option Bytes) unit) (only parsing).

(** The capacity a [Vec] grows to when a full one is pushed to. *)
Class Growth := {
  grow : nat → nat;
  grow_lt : ∀ n, (n < grow n)%nat
}.

(** ** Data *)

(** A child id, by its bit fields: [OWN], [HASH] and [INDEX]; [0] is empty. *)
Record Id := mkId {
  id_own : bool;
  id_hash : bool;
  id_index : nat
}.
#[export] Instance Id_eq_dec : EqDecision Id.
Proof. solve_decision. Defined.

Definition id_empty : Id := mkId false false 0.

Definition VALUE_MAX : Z := 128.
Definition DECODE_MAX_NODES : nat := 33.

Inductive TrieNode :=
| Leaf (path : Nibbles) (value : Bytes)
| Ext (path : Nibbles) (child : Id)
| Branch (children : list Id).

(** [cached_ref] is empty when the node changed since the last commit. *)
Record ArenaNode := mkArenaNode {
  an_node : TrieNode;
  an_ref : NodeRef
}.

Record NodeArena := mkNodeArena {
  na_tag : bool;
  na_nodes : list ArenaNode;
  na_nodes_cap : nat;
  na_by_hash : list (H256 * Id);
  na_by_hash_cap : nat;
  na_root_ids : gmap H256 Id;
  na_loaded : gmap H256 Id;
  na_spilled : u32
}.
#[export] Instance eta_NodeArena : Eta NodeArena := λ r,
  mkNodeArena (na_tag r) (na_nodes r) (na_nodes_cap r) (na_by_hash r) (na_by_hash_cap r)
    (na_root_ids r) (na_loaded r) (na_spilled r).

Definition arena_clear (a : NodeArena) : NodeArena :=
  mkNodeArena (na_tag a) [mkArenaNode (Branch (replicate 16 id_empty)) []] (na_nodes_cap a)
    [(replicate 32 0, id_empty)] (na_by_hash_cap a) ∅ ∅ 0.

(** [NodeArena::new] with the capacities [Vec::with_capacity] returned. *)
Definition arena_new (own : bool) (nodes_cap by_hash_cap : nat) : NodeArena :=
  arena_clear (mkNodeArena own [] nodes_cap [] by_hash_cap ∅ ∅ 0).

Definition node_count (a : NodeArena) : nat := length (na_nodes a).

Definition arena_trim (a : NodeArena) : NodeArena :=
  if (na_nodes_cap a <? 2 * length (na_nodes a))%nat ||
     (na_by_hash_cap a <? 2 * length (na_by_hash a))%nat
  then arena_clear a else a.

Definition has_room (a : NodeArena) : bool :=
  (length (na_nodes a) + DECODE_MAX_NODES <=? na_nodes_cap a)%nat &&
  (length (na_by_hash a) + DECODE_MAX_NODES <=? na_by_hash_cap a)%nat.

Record Tries := mkTries {
  parent : NodeArena;
  own : NodeArena
}.
#[export] Instance eta_Tries : Eta Tries := λ r, mkTries (parent r) (own r).

(** Code on the tries may fail, keeping what it changed, or panic ([None]). *)
Definition TM (A : Type) : Type := Tries → option (Result A TrieError * Tries).
#[export] Instance tm_ret : MRet TM := λ A a σ, Some (Ok a, σ).
#[export] Instance tm_bind : MBind TM := λ A B k m σ,
  match m σ with
  | Some (Ok a, σ') => k a σ'
  | Some (Err e, σ') => Some (Err e, σ')
  | None => None
  end.
Definition tm_get {A} (f : Tries → A) : TM A := λ σ, Some (Ok (f σ), σ).
Definition tm_modify (f : Tries → Tries) : TM unit := λ σ, Some (Ok tt, f σ).
Definition tm_lift {A} (r : Result A TrieError) : TM A := λ σ, Some (r, σ).
Definition tm_panic {A} : TM A := λ _, None.
(** An index or a slice out of range panics. *)
Definition tm_unwrap {A} (o : option A) : TM A :=
  λ σ, match o with Some a => Some (Ok a, σ) | None => None end.

Definition slice_from (l : Nibbles) (n : nat) : option Nibbles :=
  if (n <=? length l)%nat then Some (drop n l) else None.

(** ** Paths *)

(** [NibblePath::join] and [new]: the copy into 64 nibbles panics beyond. *)
Definition path_join (a b : Nibbles) : option Nibbles :=
  if (length a + length b <=? 64)%nat then Some (a ++ b) else None.
Definition path_new (nibbles : Nibbles) : option Nibbles := path_join [] nibbles.

(** [path.nib[c]] reads the zeroes behind the path too. *)
Definition path_nib (path : Nibbles) (c : nat) : option Z :=
  if (c <? 64)%nat then Some (default 0 (path !! c)) else None.

Fixpoint common_prefix (a b : Nibbles) : nat :=
  match a, b with
  | x :: a', y :: b' => if x =? y then S (common_prefix a' b') else O
  | _, _ => O
  end.

Fixpoint to_nibbles (key : Bytes) : Nibbles :=
  match key with
  | [] => []
  | b :: rest => Z.shiftr b 4 :: Z.land b 0x0f :: to_nibbles rest
  end.

Definition leaf_value_new (bytes : Bytes) : Result Bytes TrieError :=
  if VALUE_MAX <? len bytes then Err DECODE else Ok bytes.

Section tries.
Context `{KE : Keccak, GR : Growth}.

(** ** Arenas *)

Definition arena (id : Id) (σ : Tries) : NodeArena := if id_own id then own σ else parent σ.
Definition on_arena (tag : bool) (f : NodeArena → NodeArena) (σ : Tries) : Tries :=
  if tag then σ <| own ::= f |> else σ <| parent ::= f |>.

Definition push_cap (cap len : nat) : nat := if (len <? cap)%nat then cap else grow cap.
Definition push_node (n : ArenaNode) (a : NodeArena) : NodeArena :=
  a <| na_nodes_cap := push_cap (na_nodes_cap a) (length (na_nodes a)) |>
    <| na_nodes ::= λ l, l ++ [n] |>.
Definition push_hash (e : H256 * Id) (a : NodeArena) : NodeArena :=
  a <| na_by_hash_cap := push_cap (na_by_hash_cap a) (length (na_by_hash a)) |>
    <| na_by_hash ::= λ l, l ++ [e] |>.

Definition lookup_node (id : Id) (σ : Tries) : option ArenaNode :=
  na_nodes (arena id σ) !! id_index id.

Definition node (id : Id) : TM ArenaNode :=
  n ← tm_get (lookup_node id);
  tm_unwrap n.

Definition open_root (hash : H256) (σ : Tries) : Id * Tries :=
  if decide (hash = EMPTY_TRIE_HASH) then (id_empty, σ)
  else
    match na_root_ids (parent σ) !! hash, na_root_ids (own σ) !! hash with
    | Some id, _ => (id, σ)
    | None, Some id => (id, σ)
    | None, None =>
        let tag := negb (has_room (parent σ)) in
        let σ := if tag then on_arena true (λ a, a <| na_spilled ::= inc32 |>) σ else σ in
        let id := mkId tag true (length (na_by_hash (arena (mkId tag true 0) σ))) in
        (id, on_arena tag (λ a, push_hash (hash, id_empty) a <| na_root_ids ::= insert hash id |>) σ)
    end.

Definition alloc (n : TrieNode) : TM Id :=
  a ← tm_get own;
  if (length (na_nodes a) =? na_nodes_cap a)%nat then tm_lift (Err FULL)
  else
    tm_modify (on_arena true (push_node (mkArenaNode n [])));;
    mret (mkId true false (length (na_nodes a))).

Definition rewrite (id : Id) (n : TrieNode) : TM Id :=
  if negb (id_own id) then alloc n
  else
    a ← tm_get own;
    _ ← tm_unwrap (na_nodes a !! id_index id);
    tm_modify (on_arena true (λ a, a <| na_nodes ::= insert (id_index id) (mkArenaNode n []) |>));;
    mret id.


(** ** Loading *)

(** The entry of a hash id, out of range a panic. *)
Definition by_hash_entry (id : Id) : TM (H256 * Id) :=
  e ← tm_get (λ σ, na_by_hash (arena id σ) !! id_index id);
  tm_unwrap e.

Definition set_loaded (id node : Id) : TM unit :=
  tm_modify (on_arena (id_own id) (λ a, a <| na_by_hash ::= alter (λ e, (e.1, node)) (id_index id) |>)).

(** [decode_child], given [decode] for the nodes that are inlined. *)
Definition decode_child (decode : Bytes → NodeRef → TM Id) (to : bool) (item : Item) : TM Id :=
  match item with
  | (true, _, whole) =>
      if 32 <? len whole then tm_lift (Err DECODE) else decode whole whole
  | (false, [], _) => mret id_empty
  | (false, hash, _) =>
      if len hash =? 32
      then
        a ← tm_get (arena (mkId to true 0));
        tm_modify (on_arena to (push_hash (hash, id_empty)));;
        mret (mkId to true (length (na_by_hash a)))
      else tm_lift (Err DECODE)
  end.

Fixpoint decode_children (decode : Bytes → NodeRef → TM Id) (to : bool) (items : list Item)
    : TM (list Id) :=
  match items with
  | [] => mret []
  | item :: items' =>
      child ← decode_child decode to item;
      children ← decode_children decode to items';
      mret (child :: children)
  end.

(** [decode], with fuel for the nodes nested in one another. *)
Fixpoint decode (fuel : nat) (to : bool) (encoded : Bytes) (cached_ref : NodeRef) : TM Id :=
  match fuel with
  | O => tm_panic
  | S fuel' =>
      top ← tm_lift (rlp_item encoded);
      let '(list, payload, _) := top in
      if negb list then tm_lift (Err DECODE)
      else
        items ← tm_lift (rlp_items 17 payload);
        node ←
          (if (length items =? 17)%nat then
             match items !! 16%nat with
             | Some (false, [], _) =>
                 children ← decode_children (decode fuel' to) to (take 16 items);
                 mret (Branch children)
             | _ => tm_lift (Err DECODE)
             end
           else
             match items with
             | [(list, compact, _); (list', value, whole)] =>
                 if (list : bool) then tm_lift (Err DECODE)
                 else
                   p ← tm_lift (decode_path compact);
                   let '(path, leaf) := p in
                   if (leaf : bool)
                   then if (list' : bool) then tm_lift (Err DECODE)
                        else value ← tm_lift (leaf_value_new value); mret (Leaf path value)
                   else
                     child ← decode_child (decode fuel' to) to (list', value, whole);
                     mret (Ext path child)
             | _ => tm_lift (Err DECODE)
             end);
        a ← tm_get (arena (mkId to false 0));
        tm_modify (on_arena to (push_node (mkArenaNode node cached_ref)));;
        mret (mkId to false (length (na_nodes a)))
  end.

Definition load (db : TrieDB) (id : Id) (prefix : Nibbles) : TM Id :=
  if negb (id_hash id) then mret id
  else
    e ← by_hash_entry id;
    let '(hash, loaded) := e in
    if negb (bool_decide (loaded = id_empty)) then mret loaded
    else
      parent_loaded ← tm_get (λ σ, na_loaded (parent σ) !! hash);
      match parent_loaded with
      | Some node => set_loaded id node;; mret node
      | None =>
          encoded ← tm_lift
            (match db prefix with
             | Err _ => Err STORE
             | Ok None => Err MISSING
             | Ok (Some e) => if len e =? 0 then Err MISSING else Ok e
             end);
          parent_room ← tm_get (λ σ, has_room (parent σ));
          own_room ← tm_get (λ σ, has_room (own σ));
          let to := negb (negb (id_own id) && parent_room) in
          if to && negb own_room then tm_lift (Err FULL)
          else
            node ← decode (S (length encoded)) to encoded hash;
            (if Bool.eqb to (id_own id) then set_loaded id node
             else tm_modify (on_arena true (λ a, a <| na_spilled ::= inc32 |>)));;
            (if to then mret tt
             else tm_modify (on_arena false (λ a, a <| na_loaded ::= insert hash node |>)));;
            mret node
      end.

(** ** Updates *)

Definition prefix_child (id : Id) (prefix : Nibbles) (child : Id) : TM Id :=
  if bool_decide (child = id_empty) then mret id_empty
  else
    n ← node child;
    n' ←
      match an_node n with
      | Leaf path value => p ← tm_unwrap (path_join prefix path); mret (Leaf p value)
      | Ext path child => p ← tm_unwrap (path_join prefix path); mret (Ext p child)
      | Branch _ => p ← tm_unwrap (path_new prefix); mret (Ext p child)
      end;
    rewrite id n'.

Definition branch_under (prefix : Nibbles) (children : list Id) : TM Id :=
  branch ← alloc (Branch children);
  match prefix with
  | [] => mret branch
  | _ :: _ => p ← tm_unwrap (path_new prefix); alloc (Ext p branch)
  end.

(** [children[path.nib[c]] = old; children[rest[c]] = new] on an empty array. *)
Definition two_children (path rest : Nibbles) (c : nat) (old new : Id) : TM (list Id) :=
  i ← tm_unwrap (path_nib path c);
  j ← tm_unwrap (rest !! c);
  if (i <? 16) && (j <? 16)
  then mret (<[Z.to_nat j := new]> (<[Z.to_nat i := old]> (replicate 16 id_empty)))
  else tm_panic.

Fixpoint put_at (fuel : nat) (db : TrieDB) (id : Id) (key : Nibbles) (depth : nat)
    (value : option Bytes) : TM (Id * bool) :=
  match fuel with
  | O => tm_panic
  | S fuel' =>
      id ← load db id (take depth key);
      rest ← tm_unwrap (slice_from key depth);
      if bool_decide (id = id_empty)
      then
        match value with
        | Some value =>
            p ← tm_unwrap (path_new rest); n ← alloc (Leaf p value); mret (n, true)
        | None => mret (id_empty, false)
        end
      else
        n ← node id;
        match an_node n with
        | Leaf path old =>
            if bool_decide (path = rest)
            then
              match value with
              | Some value => n ← rewrite id (Leaf path value); mret (n, true)
              | None => mret (id_empty, true)
              end
            else
              match value with
              | None => mret (id, false)
              | Some value =>
                  let c := common_prefix path rest in
                  tail ← tm_unwrap (slice_from path (c + 1));
                  p ← tm_unwrap (path_new tail);
                  old ← rewrite id (Leaf p old);
                  tail ← tm_unwrap (slice_from rest (c + 1));
                  p ← tm_unwrap (path_new tail);
                  new ← alloc (Leaf p value);
                  children ← two_children path rest c old new;
                  b ← branch_under (take c rest) children;
                  mret (b, true)
              end
        | Ext path child =>
            let c := common_prefix path rest in
            if (c =? length path)%nat
            then
              r ← put_at fuel' db child key (depth + c) value;
              let '(new, changed) := r in
              if negb changed then mret (id, false)
              else n ← prefix_child id path new; mret (n, true)
            else
              match value with
              | None => mret (id, false)
              | Some value =>
                  tail ←
                    (if (length path - c - 1 =? 0)%nat then mret child
                     else
                       tail ← tm_unwrap (slice_from path (c + 1));
                       p ← tm_unwrap (path_new tail);
                       rewrite id (Ext p child));
                  rest' ← tm_unwrap (slice_from rest (c + 1));
                  p ← tm_unwrap (path_new rest');
                  new ← alloc (Leaf p value);
                  children ← two_children path rest c tail new;
                  b ← branch_under (take c rest) children;
                  mret (b, true)
              end
        | Branch children =>
            n ← tm_unwrap (rest !! O);
            child ← tm_unwrap (children !! Z.to_nat n);
            r ← put_at fuel' db child key (depth + 1) value;
            let '(new, changed) := r in
            if negb changed then mret (id, false)
            else
              let children := <[Z.to_nat n := new]> children in
              match filter (λ e, e.2 ≠ id_empty) (enumerate children) with
              | [(i, child)] =>
                  child ← load db child (take depth key ++ [Z.of_nat i]);
                  n ← prefix_child id [Z.of_nat i] child;
                  mret (n, true)
              | [] => mret (id_empty, true)
              | _ => n ← rewrite id (Branch children); mret (n, true)
              end
        end
  end.

(** [put]: 64 nibbles deepen the walk at most 64 times. *)
Definition put (db : TrieDB) (root : Id) (key : Bytes) (value : option Bytes) : TM Id :=
  value ← tm_lift
    (match value with
     | None => Ok None
     | Some v => let? v := leaf_value_new v in Ok (Some v)
     end);
  r ← put_at 66 db root (to_nibbles key) 0 value;
  mret r.1.


(** ** Hashing *)

(** What a parent node writes for the child; the outer [None] is an index out of
    range. *)
Definition node_ref (id : Id) (σ : Tries) : option (option NodeRef) :=
  if bool_decide (id = id_empty) then Some None
  else if id_hash id then (λ e, Some e.1) <$> na_by_hash (arena id σ) !! id_index id
  else (λ n, Some (an_ref n)) <$> lookup_node id σ.

Definition encode (id : Id) (σ : Tries) : option Bytes :=
  n ← lookup_node id σ;
  match an_node n with
  | Leaf path value => Some (put_leaf path value)
  | Ext path child => r ← node_ref child σ; Some (put_ext path (default [] r))
  | Branch children => rs ← mapM (λ c, node_ref c σ) children; Some (put_branch rs)
  end.

(** [NodeRef::root]. *)
Definition ref_root (r : NodeRef) : H256 := if len r =? 32 then r else keccak r.

(** [HashBatch]: the encodings of one level and the spans of the long ones. *)
Record HashBatch := mkHashBatch {
  hb_enc : Bytes;
  hb_long : list (Id * nat * nat)
}.

(** [push] the encoding that starts at [at_]. *)
Definition batch_push (id : Id) (at_ : nat) (b : HashBatch) : option NodeRef * HashBatch :=
  let len := (length (hb_enc b) - at_)%nat in
  if (32 <=? len)%nat
  then (None, mkHashBatch (hb_enc b) (hb_long b ++ [(id, at_, len)]))
  else (Some (drop at_ (hb_enc b)), mkHashBatch (take at_ (hb_enc b)) (hb_long b)).

(** [hash]: every long encoding with its hash, shorter ones first. *)
Definition batch_hash (b : HashBatch) : list (Id * NodeRef) :=
  (λ s, (s.1.1, keccak (take s.2 (drop s.1.2 (hb_enc b))))) <$>
    sort_by (λ x y, Z.compare (Z.of_nat x.2) (Z.of_nat y.2)) (hb_long b).

Definition set_ref (σ : Tries) (id : Id) (r : NodeRef) : Tries :=
  on_arena true
    (λ a, a <| na_nodes ::= alter (λ n, mkArenaNode (an_node n) r) (id_index id) |>) σ.

(** The nodes of one level, in the order they were found. *)
Fixpoint commit_level (level : list Id) (σ : Tries) (b : HashBatch) : option Tries :=
  match level with
  | [] => Some (foldl (λ σ e, set_ref σ e.1 e.2) σ (batch_hash b))
  | id :: level' =>
      let at_ := length (hb_enc b) in
      enc ← encode id σ;
      let '(r, b) := batch_push id at_ (mkHashBatch (hb_enc b ++ enc) (hb_long b)) in
      commit_level level' (match r with Some r => set_ref σ id r | None => σ end) b
  end.

(** The levels from the deepest up. *)
Fixpoint commit_levels (levels : list (list Id)) (σ : Tries) : option Tries :=
  match levels with
  | [] => Some σ
  | level :: deeper => σ ← commit_levels deeper σ; commit_level level σ (mkHashBatch [] [])
  end.

(** [levels.resize_with(depth + 1, Vec::new)] and the push. *)
Definition push_level (levels : list (list Id)) (depth : nat) (id : Id) : list (list Id) :=
  let levels :=
    if (length levels <=? depth)%nat
    then levels ++ replicate (depth + 1 - length levels) [] else levels in
  alter (λ l, l ++ [id]) depth levels.

(** The depth-first walk over the changed nodes; the stack has its top first. *)
Fixpoint commit_walk (fuel : nat) (σ : Tries) (stack : list (Id * nat)) (levels : list (list Id))
    : option (list (list Id)) :=
  match stack with
  | [] => Some levels
  | (id, depth) :: stack =>
      match fuel with
      | O => None
      | S fuel' =>
          if negb (id_own id) || id_hash id then commit_walk fuel' σ stack levels
          else
            n ← lookup_node id σ;
            if negb (len (an_ref n) =? 0) then commit_walk fuel' σ stack levels
            else
              let levels := push_level levels depth id in
              match an_node n with
              | Leaf _ _ => commit_walk fuel' σ stack levels
              | Ext _ child => commit_walk fuel' σ ((child, S depth) :: stack) levels
              | Branch children =>
                  commit_walk fuel' σ
                    (reverse ((λ c, (c, S depth)) <$> children) ++ stack) levels
              end
      end
  end.

(** [commit]: the fuel is for the roots and 16 children of every node of the own
    arena. The levels kept from an earlier commit are cleared, not dropped. *)
Definition commit (old_levels : nat) (roots : list Id) (σ : Tries) : option (list H256 * Tries) :=
  let fuel := (length roots + 16 * (length (na_nodes (own σ)) + length (na_by_hash (own σ))))%nat in
  levels ← commit_walk fuel σ (reverse ((λ r, (r, O)) <$> roots)) (replicate old_levels []);
  σ ← commit_levels levels σ;
  out ← mapM (λ root, node_ref root σ) roots;
  Some ((λ r, match r with Some r => ref_root r | None => EMPTY_TRIE_HASH end) <$> out, σ).
End tries.
