(* ===== verification/TrieSpec.v ===== *)
(** * Merkle-Patricia tries as trees

    The reference the arena trie of [builder/src/merge/trie.rs] is compared
    with: a trie as a tree, the map it stands for, its canonical form, and
    insertion and removal on trees. Canonical tries with the same content are
    equal, so that a root hash depends on the content alone. *)

From S2P Require Import Prelude Types Submission Rlp MergeTrie.

Inductive tree :=
| TEmpty
| TLeaf (path : Nibbles) (value : Bytes)
| TExt (path : Nibbles) (child : tree)
| TBranch (children : list tree).

(** Induction with the hypothesis for every child of a branch. *)
Section tree_induction.
Variable P : tree → Prop.
Hypothesis Hempty : P TEmpty.
Hypothesis Hleaf : ∀ p v, P (TLeaf p v).
Hypothesis Hext : ∀ p t, P t → P (TExt p t).
Hypothesis Hbranch : ∀ cs, Forall P cs → P (TBranch cs).

Fixpoint tree_induction (t : tree) : P t :=
  match t with
  | TEmpty => Hempty
  | TLeaf p v => Hleaf p v
  | TExt p c => Hext p c (tree_induction c)
  | TBranch cs =>
      Hbranch cs
        ((fix go cs : Forall P cs :=
            match cs with
            | [] => @List.Forall_nil _ P
            | c :: cs' => @List.Forall_cons _ P c cs' (tree_induction c) (go cs')
            end) cs)
  end.
End tree_induction.

Definition is_empty (t : tree) : bool := match t with TEmpty => true | _ => false end.
Definition is_branch (t : tree) : bool := match t with TBranch _ => true | _ => false end.

(** The nonempty children with their indices. *)
Definition occupied (cs : list tree) : list (nat * tree) :=
  filter (λ e, is_empty e.2 = false) (enumerate cs).

(** The value under a key of nibbles. *)
Fixpoint tlookup (t : tree) (k : Nibbles) : option Bytes :=
  match t with
  | TEmpty => None
  | TLeaf p v => if decide (p = k) then Some v else None
  | TExt p c => if decide (take (length p) k = p) then tlookup c (drop (length p) k) else None
  | TBranch cs =>
      match k with
      | [] => None
      | n :: k' => nth (Z.to_nat n) (map (λ c, tlookup c k') cs) None
      end
  end.

(** Canonical tries over keys of [d] nibbles: paths as long as they have to be,
    extensions only above branches, branches with at least two children. *)
Fixpoint canon (d : nat) (t : tree) : Prop :=
  match t with
  | TEmpty => True
  | TLeaf p _ => length p = d ∧ Forall is_nibble p
  | TExt p c =>
      p ≠ [] ∧ Forall is_nibble p ∧ (length p < d)%nat ∧ is_branch c = true ∧
      canon (d - length p) c
  | TBranch cs =>
      (0 < d)%nat ∧ length cs = 16%nat ∧ (2 ≤ length (occupied cs))%nat ∧
      fold_right and True (map (canon (d - 1)) cs)
  end.

(** ** Updates on trees *)

Definition tprefix (prefix : Nibbles) (t : tree) : tree :=
  match t with
  | TEmpty => TEmpty
  | TLeaf p v => TLeaf (prefix ++ p) v
  | TExt p c => TExt (prefix ++ p) c
  | TBranch _ => TExt prefix t
  end.

Definition tbranch_under (prefix : Nibbles) (cs : list tree) : tree :=
  match prefix with [] => TBranch cs | _ :: _ => TExt prefix (TBranch cs) end.

Definition no_children : list tree := replicate 16 TEmpty.

Definition tfork (prefix : Nibbles) (i : Z) (old : tree) (j : Z) (new : tree) : tree :=
  tbranch_under prefix (<[Z.to_nat j := new]> (<[Z.to_nat i := old]> no_children)).

(** A branch whose children changed: with one child left it folds into it. *)
Definition tfold (cs : list tree) : tree :=
  match occupied cs with
  | [] => TEmpty
  | [(i, c)] => tprefix [Z.of_nat i] c
  | _ => TBranch cs
  end.

(** The tree after [put], and whether it changed. *)
Fixpoint tput (t : tree) (k : Nibbles) (v : option Bytes) : tree * bool :=
  match t with
  | TEmpty => match v with Some v => (TLeaf k v, true) | None => (TEmpty, false) end
  | TLeaf p old =>
      if decide (p = k)
      then match v with Some v => (TLeaf p v, true) | None => (TEmpty, true) end
      else
        match v with
        | None => (t, false)
        | Some v =>
            let c := common_prefix p k in
            (tfork (take c k) (default 0 (p !! c)) (TLeaf (drop (c + 1) p) old)
               (default 0 (k !! c)) (TLeaf (drop (c + 1) k) v), true)
        end
  | TExt p child =>
      let c := common_prefix p k in
      if decide (c = length p)
      then
        let '(new, changed) := tput child (drop c k) v in
        if (changed : bool) then (tprefix p new, true) else (t, false)
      else
        match v with
        | None => (t, false)
        | Some v =>
            let tail := if decide (length p - c - 1 = 0)%nat then child
                        else TExt (drop (c + 1) p) child in
            (tfork (take c k) (default 0 (p !! c)) tail
               (default 0 (k !! c)) (TLeaf (drop (c + 1) k) v), true)
        end
  | TBranch cs =>
      match k with
      | [] => (t, false)
      | n :: k' =>
          let '(new, changed) := nth (Z.to_nat n) (map (λ c, tput c k' v) cs) (TEmpty, false) in
          if (changed : bool) then (tfold (<[Z.to_nat n := new]> cs), true) else (t, false)
      end
  end.

(** ** Lookups *)

Definition key (d : nat) (k : Nibbles) : Prop := length k = d ∧ Forall is_nibble k.

Lemma key_cons d n k : key d (n :: k) ↔ ∃ d', d = S d' ∧ is_nibble n ∧ key d' k.
Proof.
  unfold key. simpl. rewrite Forall_cons. split.
  - intros [<- [? ?]]. eauto.
  - by intros (d' & -> & ? & <- & ?).
Qed.

Lemma key_drop d k n : key d k → key (d - n) (drop n k).
Proof. intros [<- H]. split; [apply length_drop|by apply Forall_drop]. Qed.

Lemma key_app d p k : key d k → Forall is_nibble p → key (length p + d) (p ++ k).
Proof. intros [<- H] Hp. split; [apply length_app|by apply Forall_app]. Qed.

Lemma nibble_index n : is_nibble n → (Z.to_nat n < 16)%nat.
Proof. unfold is_nibble. lia. Qed.

Lemma nth_map {A B} (f : A → B) l i b : nth i (map f l) b = from_option f b (l !! i).
Proof. revert i. induction l as [|x l IH]; intros [|i]; simpl; auto. Qed.

Lemma canon_branch d cs :
  canon d (TBranch cs) ↔
    (0 < d)%nat ∧ length cs = 16%nat ∧ (2 ≤ length (occupied cs))%nat ∧
    ∀ i c, cs !! i = Some c → canon (d - 1) c.
Proof.
  simpl. do 3 f_equiv. clear. induction cs as [|c cs IH]; simpl.
  - split; [by intros _ i c|done].
  - rewrite IH. split.
    + intros [Hc Hcs] [|i] c'; simpl; [by intros [= ->]|apply Hcs].
    + intros H. split; [by apply (H 0%nat)|]. intros i c' Hi. by apply (H (S i)).
Qed.

Lemma tlookup_branch cs n k :
  tlookup (TBranch cs) (n :: k) =
    match cs !! Z.to_nat n with Some c => tlookup c k | None => None end.
Proof. simpl. rewrite nth_map. by destruct (cs !! Z.to_nat n). Qed.

Lemma elem_of_occupied cs i c :
  (i, c) ∈ occupied cs ↔ cs !! i = Some c ∧ is_empty c = false.
Proof. unfold occupied. rewrite list_elem_of_filter, elem_of_enumerate. simpl. tauto. Qed.

Lemma tlookup_empty c k : is_empty c = true → tlookup c k = None.
Proof. by destruct c. Qed.

Lemma take_drop_prefix (p k : Nibbles) : take (length p) k = p ↔ k = p ++ drop (length p) k.
Proof.
  split.
  - intros E. rewrite <- (take_drop (length p) k) at 1. by rewrite E.
  - intros ->. by rewrite take_app_length.
Qed.

Lemma tlookup_tprefix p t k :
  tlookup (tprefix p t) k =
    if decide (take (length p) k = p) then tlookup t (drop (length p) k) else None.
Proof.
  destruct t as [|q v|q c|cs]; simpl.
  - by destruct (decide _).
  - destruct (decide (take (length p) k = p)) as [E%take_drop_prefix|Hn].
    + set (r := drop (length p) k) in *. rewrite E.
      destruct (decide (p ++ q = p ++ r)) as [E'%app_inv_head|Hne], (decide (q = r)); congruence.
    + destruct (decide (p ++ q = k)) as [<-|]; [|done]. by rewrite take_app_length in Hn.
  - rewrite length_app. destruct (decide (take (length p) k = p)) as [E%take_drop_prefix|Hn].
    + set (r := drop (length p) k) in *. rewrite E. rewrite take_app_add', drop_app_add' by done.
      destruct (decide (p ++ _ = p ++ q)) as [E'%app_inv_head|Hne], (decide (_ = q)); congruence.
    + destruct (decide (take (length p + length q) k = p ++ q)) as [E|]; [|done].
      exfalso. apply Hn. apply (f_equal (take (length p))) in E.
      by rewrite take_take, take_app_length, Nat.min_l in E by lia.
  - done.
Qed.

Lemma tlookup_under p cs k :
  tlookup (tbranch_under p cs) k =
    if decide (take (length p) k = p) then tlookup (TBranch cs) (drop (length p) k) else None.
Proof. destruct p; [by rewrite decide_True, drop_0|done]. Qed.

Lemma tlookup_fold cs n k :
  length cs = 16%nat → is_nibble n →
  tlookup (tfold cs) (n :: k) = tlookup (TBranch cs) (n :: k).
Proof.
  intros Hl Hn. unfold tfold. destruct (occupied cs) as [|[i c] [|]] eqn:E; [| |done].
  - rewrite tlookup_branch. destruct (cs !! Z.to_nat n) as [c|] eqn:Hc; [|done].
    destruct (is_empty c) eqn:He; [by rewrite (tlookup_empty c)|].
    assert ((Z.to_nat n, c) ∈ occupied cs) as Hin by (by apply elem_of_occupied).
    rewrite E in Hin. by apply elem_of_nil in Hin.
  - assert ((i, c) ∈ occupied cs) as [Hi He]%elem_of_occupied by (rewrite E; left).
    rewrite tlookup_tprefix, tlookup_branch. simpl. rewrite take_0, drop_0.
    destruct (decide ([n] = [Z.of_nat i])) as [[= ->]|Hne].
    + by rewrite Nat2Z.id, Hi.
    + destruct (cs !! Z.to_nat n) as [c'|] eqn:Hc; [|done].
      destruct (is_empty c') eqn:He'; [by rewrite (tlookup_empty c')|]. exfalso.
      assert ((Z.to_nat n, c') ∈ occupied cs) as Hin by (by apply elem_of_occupied).
      rewrite E in Hin. apply list_elem_of_singleton in Hin as [= <- _].
      apply Hne. unfold is_nibble in Hn. rewrite Z2Nat.id by lia. done.
Qed.

(** ** Common prefixes *)

Lemma common_prefix_spec a b :
  let c := common_prefix a b in
  (c ≤ length a)%nat ∧ (c ≤ length b)%nat ∧ take c a = take c b ∧
  ((c < length a)%nat → (c < length b)%nat →
     ∃ x y, a !! c = Some x ∧ b !! c = Some y ∧ x ≠ y).
Proof.
  revert b. induction a as [|x a IH]; intros [|y b]; simpl; try (split_and!; [lia..|done|lia]).
  destruct (Z.eqb_spec x y) as [->|Hne].
  - destruct (IH b) as (H1 & H2 & H3 & H4). simpl. split_and!; [lia..|by rewrite H3|].
    intros ? ?. apply H4; lia.
  - split_and!; [lia..|done|]. intros _ _. simpl. eauto 10.
Qed.

(** Either [p] starts [k], or the two differ inside both. *)
Lemma common_prefix_cases p k :
  (length p ≤ length k)%nat →
  (common_prefix p k = length p ∧ take (length p) k = p) ∨
  (∃ x y, let c := common_prefix p k in
     (c < length p)%nat ∧ p !! c = Some x ∧ k !! c = Some y ∧ x ≠ y ∧ take c p = take c k).
Proof.
  intros Hl. destruct (common_prefix_spec p k) as (H1 & H2 & H3 & H4).
  destruct (decide (common_prefix p k = length p)) as [E|Hne].
  - left. rewrite E in H3. by rewrite firstn_all in H3.
  - right. destruct H4 as (x & y & Hx & Hy & Hxy); [lia..|]. exists x, y. split_and!; [lia|done..].
Qed.

(** A path split at the nibble where it leaves another. *)
Lemma split_at (p : Nibbles) c x : p !! c = Some x → p = take c p ++ x :: drop (c + 1) p.
Proof. intros H. rewrite Nat.add_1_r. by rewrite take_drop_middle. Qed.

Lemma nibble_lookup (p : Nibbles) c x : Forall is_nibble p → p !! c = Some x → is_nibble x.
Proof. intros Hp Hx. by eapply Forall_lookup_1. Qed.

Lemma nibble_inj x y : is_nibble x → is_nibble y → Z.to_nat x = Z.to_nat y → x = y.
Proof. unfold is_nibble. lia. Qed.

(** The children of a fork. *)
Lemma fork_children x old y new n :
  is_nibble x → is_nibble y → is_nibble n → x ≠ y →
  (<[Z.to_nat y := new]> (<[Z.to_nat x := old]> no_children)) !! Z.to_nat n =
    Some (if decide (n = y) then new else if decide (n = x) then old else TEmpty).
Proof.
  intros Hx Hy Hn Hxy.
  pose proof (nibble_index x Hx). pose proof (nibble_index y Hy). pose proof (nibble_index n Hn).
  destruct (decide (n = y)) as [->|Hny].
  { apply list_lookup_insert_eq. rewrite length_insert. done. }
  rewrite list_lookup_insert_ne by (intros E%nibble_inj; done).
  destruct (decide (n = x)) as [->|Hnx].
  { by apply list_lookup_insert_eq. }
  rewrite list_lookup_insert_ne by (intros E%nibble_inj; done).
  by apply lookup_replicate_2.
Qed.

(** Looking up a key of [d] nibbles in a fork: below the common prefix, the old
    tree sits behind one nibble and the new one behind another. *)
Lemma tlookup_fork pre x old y new q :
  is_nibble x → is_nibble y → x ≠ y → Forall is_nibble q → (length pre < length q)%nat →
  tlookup (tfork pre x old y new) q =
    if decide (take (length pre) q = pre) then
      match drop (length pre) q with
      | [] => None
      | n :: q' => if decide (n = y) then tlookup new q' else if decide (n = x) then tlookup old q' else None
      end
    else None.
Proof.
  intros Hx Hy Hxy Hq Hl. unfold tfork. rewrite tlookup_under.
  destruct (decide _); [|done].
  destruct (drop (length pre) q) as [|n q'] eqn:E; [done|].
  assert (is_nibble n) as Hn.
  { apply (nibble_lookup q (length pre)); [done|].
    by rewrite <- (Nat.add_0_r (length pre)), <- lookup_drop, E. }
  rewrite tlookup_branch, fork_children by done.
  by destruct (decide (n = y)), (decide (n = x)).
Qed.

(** Inserting next to a tree that leaves the key after [pre]. *)
Lemma fork_insert pre x y tail k' v q :
  is_nibble x → is_nibble y → x ≠ y → Forall is_nibble q →
  length q = (length pre + S (length k'))%nat →
  tlookup (tfork pre x tail y (TLeaf k' v)) q =
    if decide (q = pre ++ y :: k') then Some v else tlookup (tprefix (pre ++ [x]) tail) q.
Proof.
  intros Hx Hy Hxy Hq Hl. rewrite tlookup_fork by (done || lia). rewrite tlookup_tprefix.
  destruct (decide (take (length pre) q = pre)) as [E%take_drop_prefix|Hn].
  - destruct (drop (length pre) q) as [|n q'] eqn:Ed.
    { rewrite E, app_nil_r in Hl. lia. }
    rewrite E, length_app. simpl. rewrite take_app_add', drop_app_add' by done. simpl.
    rewrite take_0, drop_0.
    destruct (decide (n = y)) as [->|Hny].
    + destruct (decide (k' = q')) as [->|Hne]; [by rewrite decide_True|].
      rewrite decide_False by (intros [= ->]%app_inv_head; done).
      rewrite decide_False; [done|]. intros [= ->]%app_inv_head. done.
    + rewrite (decide_False (P := pre ++ n :: q' = pre ++ y :: k'))
        by (intros [= ->]%app_inv_head; done).
      destruct (decide (n = x)) as [->|Hnx]; [by rewrite decide_True|].
      rewrite decide_False; [done|]. intros [= ->]%app_inv_head. done.
  - rewrite decide_False by (intros ->; by rewrite take_app_length in Hn).
    rewrite decide_False; [done|]. intros E. apply Hn.
    apply (f_equal (take (length pre))) in E. rewrite take_take, take_app_length, length_app in E.
    by rewrite Nat.min_l in E by lia.
Qed.

Lemma fork_insert_at k c y :
  k !! c = Some y → ∀ x tail v q,
  is_nibble x → is_nibble y → x ≠ y → Forall is_nibble q → length q = length k →
  tlookup (tfork (take c k) x tail y (TLeaf (drop (c + 1) k) v)) q =
    if decide (q = k) then Some v else tlookup (tprefix (take c k ++ [x]) tail) q.
Proof.
  intros Hy x tail v q Hx Hny Hxy Hq Hl. pose proof (lookup_lt_Some _ _ _ Hy).
  pose proof (fork_insert (take c k) x y tail (drop (c + 1) k) v q) as Hf.
  rewrite <- (split_at k c y Hy) in Hf. apply Hf; [done..|].
  rewrite length_take, length_drop. lia.
Qed.

(** A tree that leaves the key is its tail behind the common prefix and one
    more nibble. *)
Lemma leaf_split p c x v : p !! c = Some x → TLeaf p v = tprefix (take c p ++ [x]) (TLeaf (drop (c + 1) p) v).
Proof. intros Hx. simpl. rewrite <- app_assoc. simpl. by rewrite <- split_at. Qed.

Definition ext_tail (p : Nibbles) (c : nat) (child : tree) : tree :=
  if decide (length p - c - 1 = 0)%nat then child else TExt (drop (c + 1) p) child.

Lemma ext_split p c x child :
  is_branch child = true → p !! c = Some x →
  TExt p child = tprefix (take c p ++ [x]) (ext_tail p c child).
Proof.
  intros Hb Hx. unfold ext_tail. rewrite (split_at p c x Hx) at 1.
  pose proof (lookup_lt_Some _ _ _ Hx). destruct (decide _) as [E|E].
  - destruct child; try done. simpl. rewrite drop_ge by lia. done.
  - simpl. by rewrite <- app_assoc.
Qed.

(** ** [tput] updates the map *)

Lemma tput_branch cs n k v :
  tput (TBranch cs) (n :: k) v =
    match cs !! Z.to_nat n with
    | Some c =>
        let '(new, changed) := tput c k v in
        if (changed : bool) then (tfold (<[Z.to_nat n := new]> cs), true) else (TBranch cs, false)
    | None => (TBranch cs, false)
    end.
Proof. simpl. rewrite nth_map. by destruct (cs !! Z.to_nat n). Qed.

(** An update that reports no change made none. *)
Lemma tput_unchanged t k v : (tput t k v).2 = false → (tput t k v).1 = t.
Proof.
  destruct t as [|p old|p child|cs]; cbn [tput].
  - by destruct v.
  - destruct (decide (p = k)); by destruct v.
  - destruct (decide _); [|by destruct v]. by destruct (tput child _ v) as [new []].
  - destruct k as [|n k]; [done|]. by destruct (nth _ _ _) as [new []].
Qed.

Lemma tput_lookup t d k v q :
  canon d t → key d k → key d q →
  tlookup (tput t k v).1 q = if decide (q = k) then v else tlookup t q.
Proof.
  revert d k q. induction t as [|p old|p child IH|cs IH] using tree_induction; intros d k q Hc Hk Hq.
  - destruct v as [v|]; simpl; [|by destruct (decide _)].
    by destruct (decide (k = q)), (decide (q = k)).
  - destruct Hc as [Hpl Hpn]. destruct Hk as [Hkl Hkn], Hq as [Hql Hqn]. cbn [tput].
    destruct (decide (p = k)) as [->|Hne].
    { destruct v as [v|]; simpl; destruct (decide (k = q)), (decide (q = k)); congruence. }
    destruct v as [v|].
    2:{ simpl. destruct (decide (q = k)) as [->|]; [by rewrite decide_False|done]. }
    destruct (common_prefix_cases p k) as [[Ec Et]|(x & y & Hcp & Hx & Hy & Hxy & Et)]; [lia| |].
    { exfalso. apply Hne. rewrite <- Et. by rewrite Hpl, <- Hkl, firstn_all. }
    cbn [fst]. set (c := common_prefix p k) in *. rewrite Hx, Hy. cbn [default from_option id].
    pose proof (lookup_lt_Some _ _ _ Hy).
    rewrite (leaf_split p c x old Hx), Et.
    apply (fork_insert_at k c y Hy); [eauto using nibble_lookup..|congruence].
  - destruct Hc as (Hp0 & Hpn & Hpd & Hb & Hc). destruct Hk as [Hkl Hkn], Hq as [Hql Hqn].
    cbn [tput].
    destruct (common_prefix_cases p k) as [[Ec Et]|(x & y & Hcp & Hx & Hy & Hxy & Et)]; [lia| |].
    + rewrite decide_True by done. rewrite Ec.
      specialize (IH _ (drop (length p) k) (drop (length p) q) Hc
        ltac:(by apply key_drop) ltac:(by apply key_drop)).
      pose proof (tput_unchanged child (drop (length p) k) v) as Hu.
      destruct (tput child (drop (length p) k) v) as [new changed]. cbn [fst snd] in *.
      assert (tlookup (tprefix p new) q =
        if decide (q = k) then v else tlookup (TExt p child) q) as H1.
      { rewrite tlookup_tprefix. cbn [tlookup].
        destruct (decide (take (length p) q = p)) as [E%take_drop_prefix|E].
        - rewrite IH. apply take_drop_prefix in Et.
          destruct (decide (drop (length p) q = drop (length p) k)), (decide (q = k)); congruence.
        - rewrite decide_False; [done|]. by intros ->. }
      destruct changed; cbn [fst]; [done|]. rewrite <- H1, Hu by done. by destruct child.
    + rewrite decide_False by lia. cbn [fst]. destruct v as [v|]; cbn [fst].
      2:{ destruct (decide (q = k)) as [->|]; [|done]. cbn [tlookup]. rewrite decide_False; [done|].
          intros E. assert (p !! common_prefix p k = k !! common_prefix p k); [|congruence].
          rewrite <- (lookup_take_lt k (length p)) by lia. by rewrite E. }
      set (c := common_prefix p k) in *. rewrite Hx, Hy. cbn [default from_option id].
      pose proof (lookup_lt_Some _ _ _ Hy).
      rewrite (ext_split p c x child Hb Hx), Et.
      apply (fork_insert_at k c y Hy); [eauto using nibble_lookup..|congruence].
  - apply canon_branch in Hc as (Hd & Hl & _ & Hcs).
    destruct k as [|n k]; [destruct Hk as [? _]; simpl in *; lia|].
    destruct q as [|m q]; [destruct Hq as [? _]; simpl in *; lia|].
    apply key_cons in Hk as (d' & -> & Hn & Hk). apply key_cons in Hq as (d'' & [= <-] & Hm & Hq).
    rewrite Nat.sub_1_r in Hcs. simpl in Hcs. rewrite tput_branch.
    destruct (lookup_lt_is_Some_2 cs (Z.to_nat n)) as [child Hchild].
    { rewrite Hl. by apply nibble_index. }
    rewrite Hchild. rewrite Forall_lookup in IH.
    specialize (IH _ _ Hchild _ k q (Hcs _ _ Hchild) Hk Hq).
    pose proof (tput_unchanged child k v) as Hu.
    destruct (tput child k v) as [new changed]. cbn [fst snd] in *.
    assert (tlookup (TBranch (<[Z.to_nat n := new]> cs)) (m :: q) =
      if decide (m :: q = n :: k) then v else tlookup (TBranch cs) (m :: q)) as H1.
    { rewrite !tlookup_branch. destruct (decide (m = n)) as [->|Hmn].
      - rewrite list_lookup_insert_eq, Hchild, IH by (rewrite Hl; by apply nibble_index).
        destruct (decide (q = k)), (decide (n :: q = n :: k)); congruence.
      - rewrite list_lookup_insert_ne, decide_False; [done|congruence|].
        intros E%nibble_inj; congruence. }
    destruct changed; cbn [fst].
    + by rewrite tlookup_fold by (rewrite ?length_insert; done).
    + rewrite <- H1, Hu by done. by rewrite list_insert_id.
Qed.

(** ** [tput] keeps tries canonical *)

Lemma tprefix_canon p t d :
  p ≠ [] → Forall is_nibble p → (length p ≤ d)%nat → canon (d - length p) t → canon d (tprefix p t).
Proof.
  intros Hp Hn Hl Hc. destruct t as [|q v|q c|cs]; cbn [tprefix].
  - done.
  - destruct Hc as [Hq Hqn]. split; [rewrite length_app; lia|by apply Forall_app].
  - destruct Hc as (Hq0 & Hqn & Hql & Hb & Hc). cbn [canon]. rewrite length_app.
    split_and!; [by destruct p|by apply Forall_app|lia|done|].
    by replace (d - (length p + length q))%nat with (d - length p - length q)%nat by lia.
  - pose proof Hc as [Hd _]%canon_branch. refine (conj Hp (conj Hn (conj _ (conj eq_refl Hc)))). lia.
Qed.

Lemma occupied_two cs i j a b :
  cs !! i = Some a → cs !! j = Some b → i ≠ j → is_empty a = false → is_empty b = false →
  (2 ≤ length (occupied cs))%nat.
Proof.
  intros Ha Hb Hij Ea Eb.
  assert ((i, a) ∈ occupied cs) as H1 by (by apply elem_of_occupied).
  assert ((j, b) ∈ occupied cs) as H2 by (by apply elem_of_occupied).
  destruct (occupied cs) as [|e [|e' l]]; [by apply elem_of_nil in H1| |simpl; lia].
  apply list_elem_of_singleton in H1, H2. congruence.
Qed.

Lemma tfold_canon cs d :
  (0 < d)%nat → length cs = 16%nat → (∀ i c, cs !! i = Some c → canon (d - 1) c) → canon d (tfold cs).
Proof.
  intros Hd Hl Hcs. unfold tfold. destruct (occupied cs) as [|[i c] [|e l]] eqn:E.
  - done.
  - assert ((i, c) ∈ occupied cs) as [Hi He]%elem_of_occupied by (rewrite E; left).
    apply tprefix_canon; [done| |simpl; lia|simpl; by eapply Hcs].
    constructor; [|constructor]. apply lookup_lt_Some in Hi. unfold is_nibble. lia.
  - apply canon_branch. rewrite E. simpl. split_and!; [done|done|lia|done].
Qed.

Lemma tfork_canon pre x old y new d :
  is_nibble x → is_nibble y → x ≠ y → Forall is_nibble pre → (length pre < d)%nat →
  is_empty old = false → is_empty new = false →
  canon (d - length pre - 1) old → canon (d - length pre - 1) new →
  canon d (tfork pre x old y new).
Proof.
  intros Hx Hy Hxy Hp Hl Eo En Ho Hn. unfold tfork.
  set (cs := <[Z.to_nat y := new]> _).
  assert (canon (d - length pre) (TBranch cs)) as Hb.
  { apply canon_branch. split_and!; [lia|unfold cs; by rewrite !length_insert| |].
    - pose proof (fork_children x old y new x Hx Hy Hx Hxy) as H1.
      pose proof (fork_children x old y new y Hx Hy Hy Hxy) as H2.
      rewrite decide_False, decide_True in H1 by done. rewrite decide_True in H2 by done.
      eapply occupied_two; [exact H1|exact H2|intros E%nibble_inj; done|done|done].
    - intros i c [(_ & <- & _)|(_ & [(_ & <- & _)|(_ & Hc)]%list_lookup_insert_Some)]%list_lookup_insert_Some;
        [done..|]. unfold no_children in Hc. apply lookup_replicate in Hc as [-> _]. done. }
  unfold tbranch_under. destruct pre as [|z pre]; [by rewrite Nat.sub_0_r in Hb|].
  by refine (conj _ (conj Hp (conj Hl (conj eq_refl Hb)))).
Qed.

Lemma key_tail d k c : key d k → (c < d)%nat → key (d - c - 1) (drop (c + 1) k).
Proof. intros Hk Hc. replace (d - c - 1)%nat with (d - (c + 1))%nat by lia. by apply key_drop. Qed.

Lemma ext_tail_canon p c child d :
  Forall is_nibble p → (c < length p)%nat → (length p < d)%nat → is_branch child = true →
  canon (d - length p) child →
  canon (d - c - 1) (ext_tail p c child) ∧ is_empty (ext_tail p c child) = false.
Proof.
  intros Hp Hc Hl Hb Hch. unfold ext_tail. destruct (decide _) as [E|E].
  - split; [|by destruct child]. by replace (d - c - 1)%nat with (d - length p)%nat by lia.
  - split; [|done]. cbn [canon]. rewrite length_drop. split_and!.
    + intros H. apply (f_equal length) in H. rewrite length_drop in H. simpl in H. lia.
    + by apply Forall_drop.
    + lia.
    + done.
    + by replace (d - c - 1 - (length p - (c + 1)))%nat with (d - length p)%nat by lia.
Qed.

Lemma tput_canon t d k v : canon d t → key d k → canon d (tput t k v).1.
Proof.
  revert d k. induction t as [|p old|p child IH|cs IH] using tree_induction; intros d k Hc Hk.
  - destruct v; simpl; [|done]. by destruct Hk.
  - cbn [tput]. destruct (decide (p = k)) as [->|Hne]; [by destruct v|]. destruct v as [v|]; [|done].
    pose proof Hc as [Hpl Hpn]. pose proof Hk as [Hkl Hkn].
    destruct (common_prefix_cases p k) as [[Ec Et]|(x & y & Hcp & Hx & Hy & Hxy & Et)]; [lia| |].
    { exfalso. apply Hne. rewrite <- Et. by rewrite Hpl, <- Hkl, firstn_all. }
    cbn [fst]. set (c := common_prefix p k) in *. rewrite Hx, Hy. cbn [default from_option id].
    pose proof (lookup_lt_Some _ _ _ Hy).
    assert (length (take c k) = c) as El by (rewrite length_take; lia).
    apply tfork_canon; rewrite ?El; eauto using nibble_lookup, Forall_take.
    + lia.
    + apply (key_tail d p c); [done|lia].
    + apply (key_tail d k c); [done|lia].
  - pose proof Hc as (Hp0 & Hpn & Hpd & Hb & Hch). pose proof Hk as [Hkl Hkn]. cbn [tput].
    destruct (common_prefix_cases p k) as [[Ec Et]|(x & y & Hcp & Hx & Hy & Hxy & Et)]; [lia| |].
    + rewrite decide_True by done. rewrite Ec.
      specialize (IH _ (drop (length p) k) Hch ltac:(by apply key_drop)).
      destruct (tput child (drop (length p) k) v) as [new []]; [|done].
      apply tprefix_canon; [done|done|lia|exact IH].
    + rewrite decide_False by lia. destruct v as [v|]; [|done].
      cbn [fst]. set (c := common_prefix p k) in *. rewrite Hx, Hy. cbn [default from_option id].
      pose proof (lookup_lt_Some _ _ _ Hy).
      assert (length (take c k) = c) as El by (rewrite length_take; lia).
      destruct (ext_tail_canon p c child d) as [Hct Het]; [done|lia..|done|done|].
      apply tfork_canon; rewrite ?El; eauto using nibble_lookup, Forall_take.
      * lia.
      * apply (key_tail d k c); [done|lia].
  - pose proof Hc as (Hd & Hl & _ & Hcs)%canon_branch.
    destruct k as [|n k]; [done|]. rewrite tput_branch.
    apply key_cons in Hk as (d' & -> & Hn & Hk).
    destruct (cs !! Z.to_nat n) as [child|] eqn:Hchild; [|done].
    rewrite Forall_lookup in IH. specialize (IH _ _ Hchild d' k).
    assert (canon d' child) as Hcc by (specialize (Hcs _ _ Hchild); by rewrite Nat.sub_1_r in Hcs).
    specialize (IH Hcc Hk). destruct (tput child k v) as [new []]; [|done]. cbn [fst].
    apply tfold_canon; [done|by rewrite length_insert|].
    rewrite Nat.sub_1_r. simpl.
    intros i c [(_ & <- & _)|(_ & Hi)]%list_lookup_insert_Some; [done|].
    specialize (Hcs _ _ Hi). by rewrite Nat.sub_1_r in Hcs.
Qed.

(** ** Canonical tries are determined by their content *)

Lemma enumerate_NoDup {A} (l : list A) : NoDup (enumerate l).
Proof.
  apply (NoDup_fmap_1 fst). unfold enumerate. generalize 0%nat.
  assert (∀ i, (enumerate_from i l).*1 = seq i (length l)) as H.
  { induction l as [|x l IH]; intros i; simpl; [done|]. by rewrite IH. }
  intros n. rewrite H. apply NoDup_seq.
Qed.

(** Two children of a branch. *)
Lemma occupied_distinct cs :
  (2 ≤ length (occupied cs))%nat →
  ∃ i j a b, i ≠ j ∧ cs !! i = Some a ∧ cs !! j = Some b ∧ is_empty a = false ∧ is_empty b = false.
Proof.
  intros Hl. assert (NoDup (occupied cs)) as Hnd by apply NoDup_filter, enumerate_NoDup.
  destruct (occupied cs) as [|[i a] [|[j b] l]] eqn:E; simpl in Hl; [lia..|].
  assert ((i, a) ∈ occupied cs) as [Ha Ea]%elem_of_occupied by (rewrite E; left).
  assert ((j, b) ∈ occupied cs) as [Hb Eb]%elem_of_occupied by (rewrite E; right; left).
  exists i, j, a, b. split_and!; try done. intros ->. rewrite Ha in Hb. injection Hb as ->.
  apply NoDup_cons in Hnd as [Hnin _]. apply Hnin. left.
Qed.

Lemma index_nibble i (cs : list tree) c :
  length cs = 16%nat → cs !! i = Some c → is_nibble (Z.of_nat i).
Proof. intros Hl Hi%lookup_lt_Some. unfold is_nibble. lia. Qed.

Lemma tlookup_child cs i c k : cs !! i = Some c → tlookup (TBranch cs) (Z.of_nat i :: k) = tlookup c k.
Proof. intros Hi. by rewrite tlookup_branch, Nat2Z.id, Hi. Qed.

Lemma tlookup_ext p c k : tlookup (TExt p c) (p ++ k) = tlookup c k.
Proof. simpl. by rewrite take_app_length, decide_True, drop_app_length. Qed.

Lemma canon_inhabited t d :
  canon d t → is_empty t = false → ∃ k, key d k ∧ is_Some (tlookup t k).
Proof.
  revert d. induction t as [|p v|p c IH|cs IH] using tree_induction; intros d Hc He.
  - done.
  - exists p. simpl. rewrite decide_True by done. eauto.
  - destruct Hc as (_ & Hpn & Hpd & Hb & Hc).
    destruct (IH _ Hc) as (k & Hk & Hs); [by destruct c|].
    exists (p ++ k). rewrite tlookup_ext. split; [|done].
    replace d with (length p + (d - length p))%nat by lia. by apply key_app.
  - apply canon_branch in Hc as (Hd & Hl & Ho & Hcs).
    destruct (occupied_distinct cs Ho) as (i & _ & a & _ & _ & Hi & _ & Ea & _).
    rewrite Forall_lookup in IH. destruct (IH _ _ Hi _ (Hcs _ _ Hi) Ea) as (k & Hk & Hs).
    exists (Z.of_nat i :: k). rewrite (tlookup_child _ _ a) by done. split; [|done].
    apply key_cons. exists (d - 1)%nat. split_and!; [lia|by eapply index_nibble|done..].
Qed.

(** A branch holds keys that differ in their first nibble. *)
Lemma branch_keys cs d :
  canon d (TBranch cs) →
  ∃ n m k q, n ≠ m ∧ key d (n :: k) ∧ key d (m :: q) ∧
    is_Some (tlookup (TBranch cs) (n :: k)) ∧ is_Some (tlookup (TBranch cs) (m :: q)).
Proof.
  intros (Hd & Hl & Ho & Hcs)%canon_branch.
  destruct (occupied_distinct cs Ho) as (i & j & a & b & Hij & Hi & Hj & Ea & Eb).
  destruct (canon_inhabited a _ (Hcs _ _ Hi) Ea) as (k & Hk & Hsk).
  destruct (canon_inhabited b _ (Hcs _ _ Hj) Eb) as (q & Hq & Hsq).
  exists (Z.of_nat i), (Z.of_nat j), k, q.
  rewrite (tlookup_child _ _ a), (tlookup_child _ _ b) by done.
  split_and!; [lia|apply key_cons; exists (d - 1)%nat; split_and!; [lia|by eapply index_nibble|apply Hk..]
    |apply key_cons; exists (d - 1)%nat; split_and!; [lia|by eapply index_nibble|apply Hq..]|done..].
Qed.

(** An extension has two keys that agree exactly on its path. *)
Lemma ext_keys p c d :
  canon d (TExt p c) →
  ∃ n m k q, n ≠ m ∧ key d (p ++ n :: k) ∧ key d (p ++ m :: q) ∧
    is_Some (tlookup (TExt p c) (p ++ n :: k)) ∧ is_Some (tlookup (TExt p c) (p ++ m :: q)).
Proof.
  intros (_ & Hpn & Hpd & Hb & Hc). destruct c as [| | |cs]; try done.
  destruct (branch_keys cs _ Hc) as (n & m & k & q & Hnm & Hk & Hq & Hsk & Hsq).
  exists n, m, k, q. rewrite !tlookup_ext.
  replace d with (length p + (d - length p))%nat by lia.
  split_and!; [done|by apply key_app..|done|done].
Qed.

Lemma ext_prefix p c k : is_Some (tlookup (TExt p c) k) → take (length p) k = p.
Proof. simpl. destruct (decide _); [done|]. by intros []. Qed.

Lemma leaf_single p v k : is_Some (tlookup (TLeaf p v) k) → k = p.
Proof. simpl. destruct (decide (p = k)); [done|]. by intros []. Qed.

(** The same content: the trees look alike on every key. *)
Definition same_content (d : nat) (t u : tree) : Prop :=
  ∀ k, key d k → tlookup t k = tlookup u k.

Lemma leaf_not_ext d p v q c : canon d (TExt q c) → ¬ same_content d (TLeaf p v) (TExt q c).
Proof.
  intros Hc Hs. destruct (ext_keys q c d Hc) as (n & m & k & k' & Hnm & Hk & Hk' & H1 & H2).
  rewrite <- Hs in H1, H2 by done. apply leaf_single in H1, H2. rewrite <- H2 in H1.
  apply app_inv_head in H1. congruence.
Qed.

Lemma leaf_not_branch d p v cs : canon d (TBranch cs) → ¬ same_content d (TLeaf p v) (TBranch cs).
Proof.
  intros Hc Hs. destruct (branch_keys cs d Hc) as (n & m & k & k' & Hnm & Hk & Hk' & H1 & H2).
  rewrite <- Hs in H1, H2 by done. apply leaf_single in H1, H2. congruence.
Qed.

Lemma ext_not_branch d p c cs :
  canon d (TExt p c) → canon d (TBranch cs) → ¬ same_content d (TExt p c) (TBranch cs).
Proof.
  intros He Hc Hs. destruct (branch_keys cs d Hc) as (n & m & k & k' & Hnm & Hk & Hk' & H1 & H2).
  rewrite <- Hs in H1, H2 by done. apply ext_prefix in H1, H2.
  destruct He as [Hp _]. destruct p as [|x p]; [done|]. simpl in H1, H2. congruence.
Qed.

Lemma empty_only d t : canon d t → same_content d TEmpty t → t = TEmpty.
Proof.
  intros Hc Hs. destruct (is_empty t) eqn:E; [by destruct t|].
  destruct (canon_inhabited t d Hc E) as (k & Hk & H). rewrite <- Hs in H by done. by destruct H.
Qed.

Lemma ext_path_le d p c q c' :
  canon d (TExt p c) → same_content d (TExt p c) (TExt q c') → (length q ≤ length p)%nat.
Proof.
  intros Hc Hs. destruct (ext_keys p c d Hc) as (n & m & k & k' & Hnm & Hk & Hk' & H1 & H2).
  rewrite Hs in H1, H2 by done. apply ext_prefix in H1, H2.
  destruct (decide (length q ≤ length p)%nat) as [|Hlt]; [done|]. exfalso. apply Hnm.
  assert (∀ z r, take (length q) (p ++ z :: r) = q → q !! length p = Some z) as Hz.
  { intros z r E. rewrite <- (list_lookup_middle p r z (length p)) by done.
    rewrite <- (lookup_take_lt (p ++ z :: r) (length q)) by lia. by rewrite E. }
  apply Hz in H1, H2. congruence.
Qed.

Lemma same_content_sym d t u : same_content d t u → same_content d u t.
Proof. intros H k Hk. symmetry. by apply H. Qed.

(** Two canonical tries with the same content are the same trie. *)
Lemma canon_unique t u d : canon d t → canon d u → same_content d t u → t = u.
Proof.
  revert u d. induction t as [|p v|p c IH|cs IH] using tree_induction; intros u d Ht Hu Hs.
  - symmetry. by apply (empty_only d).
  - destruct u as [|q w|q c'|cs'].
    + by apply (empty_only d), same_content_sym.
    + destruct Ht as [Hl Hn]. specialize (Hs p ltac:(by split)). simpl in Hs.
      rewrite decide_True in Hs by done. destruct (decide (q = p)); congruence.
    + by apply leaf_not_ext in Hs.
    + by apply leaf_not_branch in Hs.
  - destruct u as [|q w|q c'|cs'].
    + by apply (empty_only d), same_content_sym.
    + by apply same_content_sym, leaf_not_ext in Hs.
    + assert (length q ≤ length p)%nat as H1 by (by eapply ext_path_le).
      assert (length p ≤ length q)%nat as H2 by (by eapply ext_path_le, same_content_sym).
      assert (p = q) as <-.
      { destruct (ext_keys p c d Ht) as (n & _ & k & _ & _ & Hk & _ & Hsome & _).
        rewrite Hs in Hsome by done. apply ext_prefix in Hsome.
        replace (length q) with (length p) in Hsome by lia. by rewrite take_app_length in Hsome. }
      f_equal. destruct Ht as (_ & Hpn & Hpd & _ & Hc), Hu as (_ & _ & _ & _ & Hc').
      apply (IH c' (d - length p)%nat Hc Hc'). intros k Hk.
      rewrite <- (tlookup_ext p c k), <- (tlookup_ext p c' k). apply Hs.
      replace d with (length p + (d - length p))%nat by lia. by apply key_app.
    + by apply ext_not_branch in Hs.
  - destruct u as [|q w|q c'|cs'].
    + by apply (empty_only d), same_content_sym.
    + by apply same_content_sym, leaf_not_branch in Hs.
    + by apply same_content_sym, ext_not_branch in Hs.
    + apply canon_branch in Ht as (Hd & Hl & _ & Hcs), Hu as (_ & Hl' & _ & Hcs').
      f_equal. apply list_eq_same_length with 16%nat; [done|done|].
      intros i a b Hi Ha Hb. rewrite Forall_lookup in IH.
      apply (IH _ _ Ha b (d - 1)%nat); [by eapply Hcs|by eapply Hcs'|]. intros k Hk.
      rewrite <- (tlookup_child cs i a), <- (tlookup_child cs' i b) by done. apply Hs.
      apply key_cons. exists (d - 1)%nat. split_and!; [lia|by eapply index_nibble|apply Hk..].
Qed.
