(* ===== verification/TrieArena.v ===== *)
(** * The arena trie implements the tree

    What an id of [builder/src/merge/trie.rs] stands for: a tree, part of which
    is in the own arena, part in the shared parent arena and part still in the
    database. The cells of the own arena a trie uses are its own, so that an
    update in place leaves every other trie alone. *)

From S2P Require Import Prelude Types Submission Rlp MergeTrie TrieSpec.

(** ** Encodings of trees *)

Section encoding.
Context `{KE : Keccak}.

(** A node of 32 bytes or more is referred to by its hash. *)
Definition short (e : Bytes) : NodeRef := if 32 <=? len e then keccak e else e.

Fixpoint enc (t : tree) : Bytes :=
  match t with
  | TEmpty => []
  | TLeaf p v => put_leaf p v
  | TExt p c => put_ext p (short (enc c))
  | TBranch cs => put_branch (map (λ c, if is_empty c then None else Some (short (enc c))) cs)
  end.

Definition tree_ref (t : tree) : option NodeRef :=
  if is_empty t then None else Some (short (enc t)).
Definition hashed (t : tree) : Prop := 32 ≤ len (enc t).
Definition hash_of (t : tree) : H256 := keccak (enc t).

(** The root of the trie. *)
Definition tree_root (t : tree) : H256 := if is_empty t then EMPTY_TRIE_HASH else hash_of t.

(** Values as the arena stores them. *)
Definition value_ok (v : Bytes) : Prop := Forall is_byte v ∧ len v ≤ VALUE_MAX.

Fixpoint values_ok (t : tree) : Prop :=
  match t with
  | TEmpty => True
  | TLeaf _ v => value_ok v
  | TExt _ c => values_ok c
  | TBranch cs => fold_right and True (map values_ok cs)
  end.

(** The database has the nodes of a tree that are referred to by hash, each at
    its path. *)
Fixpoint avail (db : TrieDB) (prefix : Nibbles) (t : tree) : Prop :=
  (hashed t → db prefix = Ok (Some (enc t))) ∧
  match t with
  | TExt p c => avail db (prefix ++ p) c
  | TBranch cs =>
      (fix go i cs :=
         match cs with
         | [] => True
         | c :: cs' => avail db (prefix ++ [Z.of_nat i]) c ∧ go (S i) cs'
         end) O cs
  | _ => True
  end.

Lemma avail_branch db prefix cs i c :
  avail db prefix (TBranch cs) → cs !! i = Some c → avail db (prefix ++ [Z.of_nat i]) c.
Proof.
  cbn [avail]. intros [_ H].
  assert (∀ j cs, (fix go i cs := match cs with
         | [] => True
         | c :: cs' => avail db (prefix ++ [Z.of_nat i]) c ∧ go (S i) cs' end) j cs →
      ∀ i, cs !! i = Some c → avail db (prefix ++ [Z.of_nat (j + i)]) c) as Hgo.
  { clear. intros j cs. revert j. induction cs as [|x cs IH]; intros j H i; [done|].
    destruct H as [Hx H]. destruct i as [|i].
    - intros [= ->]. by rewrite Nat.add_0_r.
    - simpl. intros Hi. rewrite <- Nat.add_succ_comm. by apply IH. }
  intros Hi. by apply (Hgo O cs H i).
Qed.

Lemma values_branch cs : values_ok (TBranch cs) ↔ ∀ i c, cs !! i = Some c → values_ok c.
Proof.
  simpl. induction cs as [|x cs IH]; simpl; [by split|]. rewrite IH. split.
  - intros [Hx H] [|i] c; simpl; [by intros [= ->]|apply H].
  - intros H. split; [by apply (H O)|]. intros i c Hi. by apply (H (S i)).
Qed.

(** ** Reading encodings of trees *)

(** The payload of an encoded node and the item a tree is read as. *)
Definition payload (e : Bytes) : Bytes := match rlp_item e with Ok (_, p, _) => p | Err _ => [] end.

Definition item_of (t : tree) : Item :=
  if is_empty t then (false, [], [0x80])
  else if 32 <=? len (enc t) then (false, hash_of t, 0xa0 :: hash_of t)
  else (true, payload (enc t), enc t).

(** The encoding is a list, with the items of the node. *)
Definition items_of (t : tree) : list Item :=
  match t with
  | TEmpty => []
  | TLeaf p v => [(false, compact p true, put_compact p true); (false, v, put_bytes v)]
  | TExt p c => [(false, compact p false, put_compact p false); item_of c]
  | TBranch cs => map item_of cs ++ [(false, [], [0x80])]
  end.

Definition reads (t : tree) : Prop :=
  let p := payload (enc t) in
  rlp_item (enc t) = Ok (true, p, len (enc t)) ∧ enc t = put_list_header (len p) ++ p ∧
  rlp_items 17 p = Ok (items_of t).

Lemma reads_item t : (is_empty t = false → reads t) → child_item (tree_ref t) (item_of t).
Proof.
  intros Hr. unfold tree_ref, item_of, short. destruct (is_empty t) eqn:He; [constructor|].
  destruct (Z.leb_spec 32 (len (enc t))) as [Hl|Hl].
  - destruct (keccak_bytes (enc t)) as [Hb Hk]. by constructor.
  - constructor. destruct (Hr eq_refl) as (_ & E & _). by split.
Qed.

Lemma enc_reads t d :
  canon d t → (d ≤ 64)%nat → values_ok t → is_empty t = false → reads t.
Proof.
  revert d. induction t as [|p v|p c IH|cs IH] using tree_induction; intros d Hc Hd Hv He.
  - done.
  - destruct Hc as [Hl Hn], Hv as [Hv Hvl]. unfold VALUE_MAX in Hvl.
    destruct (leaf_read p v) as (q & H1 & H2 & H3); [done| |done|lia|].
    { unfold KEY_NIBBLES, len. lia. }
    unfold reads, payload. cbn [enc]. rewrite H1. auto.
  - destruct Hc as (_ & Hn & Hl & Hb & Hc).
    assert (reads c) as Hr by (apply (IH _ Hc); [lia|done|by destruct c]).
    pose proof (reads_item c (λ _, Hr)) as Hi. unfold tree_ref in Hi.
    replace (is_empty c) with false in Hi by (by destruct c).
    destruct (ext_read p (short (enc c)) (item_of c)) as (q & H1 & H2 & H3); [done| |done|].
    { unfold KEY_NIBBLES, len. lia. }
    unfold reads, payload. cbn [enc]. rewrite H1. auto.
  - apply canon_branch in Hc as (Hd0 & Hl & _ & Hcs). rewrite values_branch in Hv.
    destruct (branch_read (map tree_ref cs) (map item_of cs)) as (q & H1 & H2 & H3).
    + apply Forall2_lookup. intros i. rewrite !list_lookup_fmap.
      destruct (cs !! i) as [c|] eqn:Hi; simpl; constructor.
      apply reads_item. intros Hne. rewrite Forall_lookup in IH.
      apply (IH i c Hi (d - 1)%nat); [by eapply Hcs|lia|by eapply Hv|done].
    + by rewrite length_map.
    + unfold reads, payload. cbn [enc]. fold tree_ref. rewrite H1. auto.
Qed.


(** ** Roots are hashes *)

Lemma put_list_header_pos x : 1 ≤ len (put_list_header x).
Proof.
  unfold put_list_header, put_header. destruct (x <? 56); rewrite len_cons;
    match goal with |- _ ≤ 1 + len ?l => pose proof (len_nonneg l); lia end.
Qed.

Lemma ref_len_short e : ref_len (short e) = if 32 <=? len e then 33 else len e.
Proof.
  unfold short, ref_len. destruct (Z.leb_spec 32 (len e)).
  - destruct (keccak_bytes e) as [_ ->]. done.
  - by rewrite (proj2 (Z.eqb_neq _ _)) by lia.
Qed.

Lemma compact_len_bound p : len p / 2 + 1 ≤ compact_len p.
Proof. unfold compact_len. cbv zeta. destruct (Z.eqb_spec (len p / 2 + 1) 1); lia. Qed.

Lemma sumZ_at_least (f : option NodeRef → Z) rs : (∀ r, r ∈ rs → 1 ≤ f r) → len rs ≤ sumZ (f <$> rs).
Proof.
  induction rs as [|r rs IH]; [done|]. intros Hf. rewrite fmap_cons, len_cons.
  change (sumZ (f r :: (f <$> rs))) with (f r + sumZ (f <$> rs)).
  specialize (IH ltac:(set_solver)). specialize (Hf r ltac:(left)). lia.
Qed.

Lemma sumZ_two (f : option NodeRef → Z) rs i j a b :
  (∀ r, r ∈ rs → 1 ≤ f r) → rs !! i = Some a → rs !! j = Some b → i ≠ j →
  f a + f b + len rs - 2 ≤ sumZ (f <$> rs).
Proof.
  intros Hf Hi Hj Hij.
  assert (∃ rest, rs ≡ₚ a :: b :: rest) as [rest Hp].
  { pose proof (delete_Permutation rs i a Hi) as Hp1.
    destruct (decide (j < i)%nat) as [Hlt|Hge].
    - assert (delete i rs !! j = Some b) as Hj' by (by rewrite list_lookup_delete_lt).
      exists (delete j (delete i rs)). etrans; [exact Hp1|].
      apply Permutation_skip. exact (delete_Permutation _ _ _ Hj').
    - assert (delete i rs !! pred j = Some b) as Hj'.
      { rewrite list_lookup_delete_ge by lia. by replace (S (pred j)) with j by lia. }
      exists (delete (pred j) (delete i rs)). etrans; [exact Hp1|].
      apply Permutation_skip. exact (delete_Permutation _ _ _ Hj'). }
  assert (len rs = len (a :: b :: rest)) as -> by (unfold len; by rewrite Hp).
  rewrite Hp, !len_cons, !fmap_cons.
  change (sumZ (f a :: f b :: (f <$> rest))) with (f a + (f b + sumZ (f <$> rest))).
  pose proof (sumZ_at_least f rest) as Hr.
  assert (len rest ≤ sumZ (f <$> rest)); [|lia].
  apply Hr. intros r Hin. apply Hf. rewrite Hp. set_solver.
Qed.

(** A node takes at least half a byte for every nibble below it, or a hash. *)
Lemma enc_size t d :
  canon d t → (d ≤ 64)%nat → values_ok t → is_empty t = false →
  32 ≤ len (enc t) ∨ Z.of_nat d / 2 + 2 ≤ len (enc t).
Proof.
  revert d. induction t as [|p v|p c IH|cs IH] using tree_induction; intros d Hc Hd Hv He.
  - done.
  - right. destruct Hc as [Hl Hn], Hv as [Hvb Hvl]. cbn [enc]. unfold put_leaf.
    rewrite !len_app. pose proof (put_list_header_pos (compact_len p + bytes_len v)).
    destruct (put_compact_bytes p true Hn) as (_ & _ & _ & ->); [unfold KEY_NIBBLES, len; lia|].
    pose proof (compact_len_bound p) as Hcl. unfold len in Hcl at 1. rewrite Hl in Hcl.
    unfold VALUE_MAX in Hvl. rewrite put_bytes_len by lia.
    pose proof (bytes_len_bound v ltac:(lia)). lia.
  - destruct Hc as (_ & Hn & Hl & Hb & Hc). cbn [values_ok] in Hv.
    specialize (IH _ Hc ltac:(lia) Hv ltac:(by destruct c)).
    cbn [enc]. unfold put_ext. rewrite !len_app.
    pose proof (put_list_header_pos (compact_len p + ref_len (short (enc c)))).
    destruct (put_compact_bytes p false Hn) as (_ & _ & _ & ->); [unfold KEY_NIBBLES, len; lia|].
    pose proof (compact_len_bound p) as Hcl. unfold len in Hcl at 1.
    rewrite put_ref_len. pose proof (ref_len_short (enc c)) as Hr.
    destruct (Z.leb_spec 32 (len (enc c))).
    + left. assert (0 ≤ Z.of_nat (length p) / 2) by (apply Z.div_pos; lia). lia.
    + right. destruct IH as [?|IH]; [lia|]. rewrite Nat2Z.inj_sub in IH by lia.
      Z.to_euclidean_division_equations; lia.
  - apply canon_branch in Hc as (Hd0 & Hl & Ho & Hcs). rewrite values_branch in Hv.
    destruct (occupied_distinct cs Ho) as (i & j & a & b & Hij & Hi & Hj & Ea & Eb).
    rewrite Forall_lookup in IH.
    pose proof (IH _ _ Hi _ (Hcs _ _ Hi) ltac:(lia) (Hv _ _ Hi) Ea) as Ha.
    pose proof (IH _ _ Hj _ (Hcs _ _ Hj) ltac:(lia) (Hv _ _ Hj) Eb) as Hb.
    cbn [enc]. fold tree_ref. unfold put_branch. fold put_child child_len.
    rewrite !len_app, put_children_len.
    pose proof (put_list_header_pos (sumZ (child_len <$> map tree_ref cs) + 1)).
    assert (∀ t, is_empty t = false → child_len (tree_ref t) = if 32 <=? len (enc t) then 33 else len (enc t)) as Hr.
    { intros t Et. unfold tree_ref. rewrite Et. apply ref_len_short. }
    assert (child_len (tree_ref a) + child_len (tree_ref b) + 14 ≤
      sumZ (child_len <$> map tree_ref cs)) as Hs.
    { pose proof (sumZ_two child_len (map tree_ref cs) i j (tree_ref a) (tree_ref b)) as Hs.
      unfold len in Hs. rewrite length_map, Hl, !list_lookup_fmap, Hi, Hj in Hs.
      assert (Z.of_nat 16 = 16) by done. enough (∀ r, r ∈ map tree_ref cs → 1 ≤ child_len r) as Hpos.
      { specialize (Hs Hpos eq_refl eq_refl Hij). lia. }
      intros r (c & -> & [k Hk]%list_elem_of_lookup)%list_elem_of_fmap.
      destruct (is_empty c) eqn:Ec; [by destruct c|]. rewrite (Hr c Ec).
      pose proof (IH _ _ Hk _ (Hcs _ _ Hk) ltac:(lia) (Hv _ _ Hk) Ec).
      assert (0 ≤ Z.of_nat (d - 1) / 2) by (apply Z.div_pos; lia).
      destruct (32 <=? len (enc c)); lia. }
    rewrite (Hr a Ea), (Hr b Eb) in Hs. change (len [128]) with 1.
    rewrite Nat2Z.inj_sub in Ha, Hb by lia.
    pose proof (len_nonneg (enc a)). pose proof (len_nonneg (enc b)).
    destruct (Z.leb_spec 32 (len (enc a))), (Z.leb_spec 32 (len (enc b)));
      try (left; lia). right. Z.to_euclidean_division_equations; lia.
Qed.

Lemma root_hashed t : canon 64 t → values_ok t → is_empty t = false → hashed t.
Proof.
  intros Hc Hv He. unfold hashed. destruct (enc_size t 64 Hc ltac:(lia) Hv He) as [?|H]; [done|].
  change (Z.of_nat 64 / 2 + 2) with 34 in H. lia.
Qed.
End encoding.

(** ** Cells of the own arena *)

(** A node or a hash entry; cells are named by their kind and index. *)
Inductive Cell := CNode (n : ArenaNode) | CHash (e : H256 * Id).
Abbreviation Heap := (gmap (bool * nat) Cell) (only parsing).

Abbreviation node_cell i n := {[ (false, i) := CNode n ]}.
Abbreviation hash_cell i e := {[ (true, i) := CHash e ]}.

(** The arena has these cells. *)
Definition covers (a : NodeArena) (h : Heap) : Prop :=
  (∀ i c, h !! (false, i) = Some c → ∃ n, c = CNode n ∧ na_nodes a !! i = Some n) ∧
  (∀ i c, h !! (true, i) = Some c → ∃ e, c = CHash e ∧ na_by_hash a !! i = Some e).

Lemma covers_mono a h h' : h' ⊆ h → covers a h → covers a h'.
Proof. intros Hs [Hn He]. split; intros i c Hc; [apply Hn|apply He]; by eapply lookup_weaken. Qed.

Lemma covers_node a h i n : covers a h → h !! (false, i) = Some (CNode n) → na_nodes a !! i = Some n.
Proof. intros [Hn _] Hi. destruct (Hn i _ Hi) as (n' & [= ->] & ?). done. Qed.

Lemma covers_hash a h i e : covers a h → h !! (true, i) = Some (CHash e) → na_by_hash a !! i = Some e.
Proof. intros [_ He] Hi. destruct (He i _ Hi) as (e' & [= ->] & ?). done. Qed.

(** Cells beyond the end of the arena are free. *)
Lemma covers_fresh_node a h : covers a h → h !! (false, length (na_nodes a)) = None.
Proof.
  intros [Hn _]. destruct (h !! _) as [c|] eqn:E; [|done].
  destruct (Hn _ _ E) as (n & _ & Hl). apply lookup_lt_Some in Hl. lia.
Qed.

Lemma covers_fresh_hash a h : covers a h → h !! (true, length (na_by_hash a)) = None.
Proof.
  intros [_ He]. destruct (h !! _) as [c|] eqn:E; [|done].
  destruct (He _ _ E) as (n & _ & Hl). apply lookup_lt_Some in Hl. lia.
Qed.

(** ** What an id stands for *)

(** The nodes of the parent state, as far as they are used: well-formed, closed
    under subtrees, no two of them with the same hash. *)
Class ParentState `{KE : Keccak} := {
  known : tree → Prop;
  known_ok : ∀ t, known t → (∃ d, (d ≤ 64)%nat ∧ canon d t) ∧ values_ok t ∧ is_empty t = false;
  known_ext : ∀ p c, known (TExt p c) → known c;
  known_branch : ∀ cs i c,
    known (TBranch cs) → cs !! i = Some c → is_empty c = false → known c;
  no_collision : ∀ t u, known t → known u → hash_of t = hash_of u → t = u
}.

Section representation.
Context `{KE : Keccak, PS : !ParentState} (db : TrieDB).

(** An id of the parent arena: a node there, or a hash of the state. *)
Fixpoint pshape (P : NodeArena) (t : tree) (id : Id) : Prop :=
  match t with
  | TEmpty => id = id_empty
  | _ =>
      id_own id = false ∧ known t ∧
      if id_hash id
      then hashed t ∧ ∃ l, na_by_hash P !! id_index id = Some (hash_of t, l)
      else
        id_index id ≠ O ∧
        ∃ n, na_nodes P !! id_index id = Some n ∧ an_ref n = short (enc t) ∧
        match t, an_node n with
        | TLeaf p v, Leaf p' v' => p = p' ∧ v = v'
        | TExt p c, Ext p' child => p = p' ∧ pshape P c child
        | TBranch ts, Branch ids =>
            (fix go ts ids :=
               match ts, ids with
               | [], [] => True
               | t :: ts', id :: ids' => pshape P t id ∧ go ts' ids'
               | _, _ => False
               end) ts ids
        | _, _ => False
        end
  end.

(** An id of either arena for the tree at [q], with exactly the own cells [h] it
    uses. A hash entry of the own arena may have been loaded; what is not yet in
    the own arena is in the database. *)
Fixpoint repr (P : NodeArena) (q : Nibbles) (t : tree) (id : Id) (h : Heap) : Prop :=
  let node_is (id : Id) (h : Heap) :=
    id_hash id = false ∧
    if id_own id
    then
      ∃ n h', h = node_cell (id_index id) n ∪ h' ∧ h' !! (false, id_index id) = None ∧
        (an_ref n = [] ∨ an_ref n = short (enc t)) ∧
        match t, an_node n with
        | TLeaf p v, Leaf p' v' => p = p' ∧ v = v' ∧ h' = ∅
        | TExt p c, Ext p' child => p = p' ∧ repr P (q ++ p) c child h'
        | TBranch ts, Branch ids =>
            (fix go i ts ids h :=
               match ts, ids with
               | [], [] => h = ∅
               | t :: ts', id :: ids' =>
                   ∃ h1 h2, h = h1 ∪ h2 ∧ h1 ##ₘ h2 ∧ repr P (q ++ [Z.of_nat i]) t id h1 ∧
                     go (S i) ts' ids' h2
               | _, _ => False
               end) O ts ids h'
        | _, _ => False
        end
    else h = ∅ ∧ avail db q t ∧ pshape P t id in
  match t with
  | TEmpty => id = id_empty ∧ h = ∅
  | _ =>
      if id_hash id && id_own id
      then
        ∃ hash l h', h = hash_cell (id_index id) (hash, l) ∪ h' ∧
          h' !! (true, id_index id) = None ∧ hash = hash_of t ∧ hashed t ∧
          if bool_decide (l = id_empty) then known t ∧ avail db q t ∧ h' = ∅ else node_is l h'
      else if id_hash id then h = ∅ ∧ avail db q t ∧ pshape P t id
      else node_is id h
  end.


Abbreviation pshapes P :=
  (fix go ts ids :=
     match ts, ids with
     | [], [] => True
     | t :: ts', id :: ids' => pshape P t id ∧ go ts' ids'
     | _, _ => False
     end).

Definition pnode (P : NodeArena) (t : tree) (n : TrieNode) : Prop :=
  match t, n with
  | TLeaf p v, Leaf p' v' => p = p' ∧ v = v'
  | TExt p c, Ext p' child => p = p' ∧ pshape P c child
  | TBranch ts, Branch ids => pshapes P ts ids
  | _, _ => False
  end.

Lemma pshape_unfold P t id :
  is_empty t = false →
  pshape P t id ↔
    id_own id = false ∧ known t ∧
    if id_hash id
    then hashed t ∧ ∃ l, na_by_hash P !! id_index id = Some (hash_of t, l)
    else
      id_index id ≠ O ∧
      ∃ n, na_nodes P !! id_index id = Some n ∧ an_ref n = short (enc t) ∧ pnode P t (an_node n).
Proof. by destruct t. Qed.

Lemma pshapes_Forall2 P ts ids : pshapes P ts ids ↔ Forall2 (pshape P) ts ids.
Proof.
  revert ids. induction ts as [|t ts IH]; intros [|id ids]; split; try done; try (by inversion 1).
  - intros [? ?]. constructor; [done|]. by apply IH.
  - inversion 1; subst. split; [done|]. by apply IH.
Qed.

(** The ids of the trees at [q] and the indices from [i], with the cells they
    use together. *)
Definition reprs (P : NodeArena) (q : Nibbles) : nat → list tree → list Id → Heap → Prop :=
  fix go i ts ids h :=
    match ts, ids with
    | [], [] => h = ∅
    | t :: ts', id :: ids' =>
        ∃ h1 h2, h = h1 ∪ h2 ∧ h1 ##ₘ h2 ∧ repr P (q ++ [Z.of_nat i]) t id h1 ∧ go (S i) ts' ids' h2
    | _, _ => False
    end.

Definition content_is (P : NodeArena) (q : Nibbles) (t : tree) (n : TrieNode) (h : Heap) : Prop :=
  match t, n with
  | TLeaf p v, Leaf p' v' => p = p' ∧ v = v' ∧ h = ∅
  | TExt p c, Ext p' child => p = p' ∧ repr P (q ++ p) c child h
  | TBranch ts, Branch ids => reprs P q O ts ids h
  | _, _ => False
  end.

(** A node that is there. *)
Definition node_is (P : NodeArena) (q : Nibbles) (t : tree) (id : Id) (h : Heap) : Prop :=
  id_hash id = false ∧
  if id_own id
  then
    ∃ n h', h = node_cell (id_index id) n ∪ h' ∧ h' !! (false, id_index id) = None ∧
      (an_ref n = [] ∨ an_ref n = short (enc t)) ∧ content_is P q t (an_node n) h'
  else h = ∅ ∧ avail db q t ∧ pshape P t id.

Lemma repr_unfold P q t id h :
  is_empty t = false →
  repr P q t id h ↔
    if id_hash id && id_own id
    then
      ∃ hash l h', h = hash_cell (id_index id) (hash, l) ∪ h' ∧
        h' !! (true, id_index id) = None ∧ hash = hash_of t ∧ hashed t ∧
        if bool_decide (l = id_empty) then known t ∧ avail db q t ∧ h' = ∅ else node_is P q t l h'
    else if id_hash id then h = ∅ ∧ avail db q t ∧ pshape P t id
    else node_is P q t id h.
Proof. by destruct t. Qed.

Lemma repr_empty_iff P q t id h : repr P q t id h → (id = id_empty ↔ is_empty t = true).
Proof.
  destruct (is_empty t) eqn:E.
  { destruct t; try done. simpl. intros [-> _]. done. }
  rewrite repr_unfold by done. intros Hr. split; [|done]. intros ->. exfalso. simpl in Hr.
  destruct Hr as [_ [_ [_ Hp]]]. apply pshape_unfold in Hp; [|done].
  destruct Hp as (_ & _ & Hi & _). done.
Qed.

Lemma repr_node P q t id h :
  is_empty t = false → id_hash id = false → repr P q t id h ↔ node_is P q t id h.
Proof. intros He Hh. rewrite repr_unfold by done. by rewrite Hh. Qed.

(** A parent arena only grows: nodes stay, hash entries keep their hash. *)
Definition parent_le (P P' : NodeArena) : Prop :=
  (∀ i n, na_nodes P !! i = Some n → na_nodes P' !! i = Some n) ∧
  (∀ i hash l, na_by_hash P !! i = Some (hash, l) → ∃ l', na_by_hash P' !! i = Some (hash, l')).

#[export] Instance parent_le_preorder : PreOrder parent_le.
Proof.
  split.
  - intros P. split; eauto.
  - intros P1 P2 P3 [H1 H2] [H3 H4]. split; [eauto|]. intros i hash l Hi.
    destruct (H2 _ _ _ Hi) as [l' Hl']. eauto.
Qed.

Lemma pshape_mono P P' t id : parent_le P P' → pshape P t id → pshape P' t id.
Proof.
  intros [Hn Hh]. revert id. induction t as [|p v|p c IH|cs IH] using tree_induction; intros id; [done|..].
  all: rewrite !pshape_unfold by done; intros (Ho & Hk & Hs); split; [done|split; [done|]].
  all: destruct (id_hash id);
    [destruct Hs as [? [l Hl]]; split; [done|]; by eapply Hh|
     destruct Hs as (Hi & n & Hl & Hr & Hc); split; [done|]; exists n; split; [by apply Hn|];
     split; [done|]].
  - by destruct (an_node n).
  - destruct (an_node n); try done. destruct Hc as [-> Hc]. split; [done|]. by apply IH.
  - destruct (an_node n) as [| |ids]; try done. simpl in Hc |- *.
    apply pshapes_Forall2. apply pshapes_Forall2 in Hc.
    clear -IH Hc. revert ids Hc. induction IH as [|t ts Ht _ IHts]; intros ids Hc.
    + inversion Hc; subst. constructor.
    + inversion Hc; subst. constructor; [by apply Ht|by apply IHts].
Qed.


Lemma node_is_mono P P' q t id h :
  parent_le P P' → (∀ n h, content_is P q t n h → content_is P' q t n h) →
  node_is P q t id h → node_is P' q t id h.
Proof.
  intros Hle Hc [Hh H]. split; [done|]. destruct (id_own id).
  - destruct H as (n & h' & ? & ? & ? & ?). exists n, h'. split_and!; eauto.
  - destruct H as (-> & ? & ?). split_and!; [done|done|]. by eapply pshape_mono.
Qed.

Lemma repr_mono_of P P' q t id h :
  parent_le P P' → is_empty t = false → (∀ n h, content_is P q t n h → content_is P' q t n h) →
  repr P q t id h → repr P' q t id h.
Proof.
  intros Hle He Hc. rewrite !repr_unfold by done. destruct (id_hash id && id_own id).
  - intros (hash & l & h' & ? & ? & ? & ? & Hl). exists hash, l, h'. split_and!; try done.
    destruct (bool_decide (l = id_empty)); [done|]. by eapply node_is_mono.
  - destruct (id_hash id); [|by apply node_is_mono].
    intros (-> & ? & ?). split_and!; [done|done|]. by eapply pshape_mono.
Qed.

Lemma repr_mono P P' q t id h : parent_le P P' → repr P q t id h → repr P' q t id h.
Proof.
  intros Hle. revert q id h.
  induction t as [|p v|p c IH|cs IH] using tree_induction; intros q id h; [done|..];
    apply repr_mono_of; try done; clear id h; intros n h; destruct n as [| |ids]; try done; simpl.
  - intros [-> ?]. eauto.
  - generalize O. revert ids h. induction IH as [|t ts Ht _ IHts]; intros [|id ids] h i; simpl; try done.
    intros (h1 & h2 & -> & ? & ? & ?). exists h1, h2.
    split_and!; [done|done|by apply Ht|by apply IHts].
Qed.

Lemma reprs_mono P P' q i ts ids h : parent_le P P' → reprs P q i ts ids h → reprs P' q i ts ids h.
Proof.
  intros Hle. revert i ids h. induction ts as [|t ts IH]; intros i [|id ids] h; simpl; try done.
  intros (h1 & h2 & -> & ? & ? & ?). exists h1, h2.
  split_and!; [done|done|by eapply repr_mono|by apply IH].
Qed.

Lemma reprs_length P q i ts ids h : reprs P q i ts ids h → length ts = length ids.
Proof.
  revert i ids h. induction ts as [|t ts IH]; intros i [|id ids] h; simpl; try done.
  intros (h1 & h2 & _ & _ & _ & H). f_equal. by eapply IH.
Qed.

(** One of several ids with its cells, and the others with theirs. *)
Lemma reprs_focus P q n ts ids h i t id :
  reprs P q n ts ids h → ts !! i = Some t → ids !! i = Some id →
  ∃ h1 h2, h = h1 ∪ h2 ∧ h1 ##ₘ h2 ∧ repr P (q ++ [Z.of_nat (n + i)]) t id h1 ∧
    ∀ P' t' id' h1', parent_le P P' → h1' ##ₘ h2 → repr P' (q ++ [Z.of_nat (n + i)]) t' id' h1' →
      reprs P' q n (<[i := t']> ts) (<[i := id']> ids) (h1' ∪ h2).
Proof.
  revert n ids h i. induction ts as [|t0 ts IH]; intros n [|id0 ids] h [|i]; simpl; try done.
  - rewrite Nat.add_0_r. intros (h1 & h2 & -> & Hd & Hr & Hrs) [= ->] [= ->]. exists h1, h2.
    split_and!; [done|done|done|]. intros P' t' id' h1' Hle Hd' Hr'. exists h1', h2.
    split_and!; [done|done|done|by eapply reprs_mono].
  - rewrite <- Nat.add_succ_comm. intros (h1 & h2 & -> & Hd & Hr & Hrs) Ht Hi.
    destruct (IH _ _ _ _ Hrs Ht Hi) as (h3 & h4 & -> & Hd' & Hr3 & Hback).
    apply map_disjoint_union_r in Hd as [Hd13 Hd14].
    exists h3, (h1 ∪ h4). split_and!; [|by apply map_disjoint_union_r_2|done|].
    + rewrite (map_union_assoc h1), (map_union_comm h1 h3), map_union_assoc by done. done.
    + intros P' t' id' h3' Hle Hd'' Hr'. apply map_disjoint_union_r in Hd'' as [? ?].
      exists h1, (h3' ∪ h4). split_and!.
      * by rewrite (map_union_assoc h3'), (map_union_comm h3' h1), map_union_assoc by done.
      * by apply map_disjoint_union_r_2.
      * by eapply repr_mono.
      * by apply Hback.
Qed.
End representation.
