(* ===== verification/TrieLoad.v ===== *)
(** * Loading of the arena trie

    [load] and [decode] of [builder/src/merge/trie.rs] against the tree an id
    stands for: the rules to reason about code on the two arenas, what a state
    of the arenas has to satisfy, and that loading a node finds its content in
    the own arena, the parent arena or the database. *)

From S2P Require Import Prelude Types Submission Rlp MergeTrie TrieSpec TrieArena.

(** ** Reasoning about code on the tries *)

(** From [σ], [m] does not panic; it ends in [Q] or fails in [E]. *)
Definition twp {A} (m : TM A) (Q : A → Tries → Prop) (E : TrieError → Tries → Prop) (σ : Tries) : Prop :=
  match m σ with
  | Some (Ok a, σ') => Q a σ'
  | Some (Err e, σ') => E e σ'
  | None => False
  end.
#[global] Arguments twp : simpl never.

Section twp_rules.
Context {A B : Type}.
Implicit Types (E : TrieError → Tries → Prop) (σ : Tries).

Lemma twp_ret (a : A) Q E σ : Q a σ → twp (mret a) Q E σ.
Proof. done. Qed.
Lemma twp_bind (m : TM A) (k : A → TM B) Q E σ :
  twp m (λ a σ', twp (k a) Q E σ') E σ → twp (m ≫= k) Q E σ.
Proof. unfold twp, mbind, tm_bind. by destruct (m σ) as [[[a|e] σ']|]. Qed.
Lemma twp_mono (m : TM A) (Q Q' : A → Tries → Prop) E E' σ :
  twp m Q E σ → (∀ a σ', Q a σ' → Q' a σ') → (∀ e σ', E e σ' → E' e σ') → twp m Q' E' σ.
Proof. unfold twp. destruct (m σ) as [[[a|e] σ']|]; auto. Qed.
Lemma twp_get (f : Tries → A) Q E σ : Q (f σ) σ → twp (tm_get f) Q E σ.
Proof. done. Qed.
Lemma twp_modify f (Q : unit → Tries → Prop) E σ : Q tt (f σ) → twp (tm_modify f) Q E σ.
Proof. done. Qed.
Lemma twp_lift r (Q : A → Tries → Prop) E σ :
  match r with Ok a => Q a σ | Err e => E e σ end → twp (tm_lift r) Q E σ.
Proof. by destruct r. Qed.
Lemma twp_unwrap (o : option A) a Q E σ : o = Some a → Q a σ → twp (tm_unwrap o) Q E σ.
Proof. by intros ->. Qed.
End twp_rules.

(** ** States *)

Section puts.
Context `{KE : Keccak, GR : Growth, PS : !ParentState} (db : TrieDB).
Implicit Types (P : NodeArena) (q : Nibbles) (h hf : Heap) (σ : Tries) (t : tree).

(** What the parent arena remembers under a hash is the node with that hash. *)
Definition parent_ok P : Prop :=
  na_nodes P ≠ [] ∧
  (∀ hash id, na_loaded P !! hash = Some id →
     ∃ t, known t ∧ hash_of t = hash ∧ id_hash id = false ∧ pshape P t id) ∧
  (∀ i hash l, na_by_hash P !! i = Some (hash, l) → l ≠ id_empty →
     ∃ t, known t ∧ hash_of t = hash ∧ id_hash l = false ∧ pshape P t l) ∧
  (∀ hash id, na_root_ids P !! hash = Some id → ∃ t, known t ∧ hash_of t = hash ∧ pshape P t id).

(** A run that started with the parent arena [P0] and owns the cells [h], while
    other tries own the cells [hf]. *)
Record good (P0 : NodeArena) (hf h : Heap) (σ : Tries) : Prop := {
  good_parent : parent_ok (parent σ);
  good_le : parent_le P0 (parent σ);
  good_covers : covers (own σ) (h ∪ hf);
  good_disj : h ##ₘ hf
}.

(** The only failure: the own arena has no room. The other tries are intact. *)
Definition failed (P0 : NodeArena) hf (e : TrieError) σ : Prop :=
  e = FULL ∧ has_room (own σ) = false ∧ good P0 hf ∅ σ.

Lemma good_weaken P0 hf h h' σ : h' ⊆ h → good P0 hf h σ → good P0 hf h' σ.
Proof.
  intros Hs [Hp Hl Hc Hd]. split; [done|done| |by eapply map_disjoint_weaken_l].
  eapply covers_mono, Hc. by apply map_union_mono_r.
Qed.

Lemma good_fail P0 hf h σ : has_room (own σ) = false → good P0 hf h σ → failed P0 hf FULL σ.
Proof. intros Hr Hg. split_and!; [done|done|]. eapply good_weaken, Hg. apply map_empty_subseteq. Qed.

(** Cells move between the trie and the others. *)
Lemma good_frame P0 hf h1 h2 σ :
  h1 ##ₘ h2 → good P0 hf (h1 ∪ h2) σ → good P0 (h2 ∪ hf) h1 σ ∧ h2 ##ₘ hf.
Proof.
  intros Hd [Hp Hl Hc Hd']. apply map_disjoint_union_l in Hd' as [? ?].
  split; [|done]. split; [done|done|by rewrite map_union_assoc|by apply map_disjoint_union_r_2].
Qed.

Lemma good_unframe P0 hf h1 h2 σ :
  h2 ##ₘ hf → good P0 (h2 ∪ hf) h1 σ → good P0 hf (h1 ∪ h2) σ ∧ h1 ##ₘ h2.
Proof.
  intros Hd [Hp Hl Hc Hd']. apply map_disjoint_union_r in Hd' as [? ?].
  split; [|done]. split; [done|done|by rewrite <- map_union_assoc|by apply map_disjoint_union_l_2].
Qed.

(** A failure next to more cells is a failure. *)
Lemma failed_frame P0 hf h2 e σ : h2 ##ₘ hf → failed P0 (h2 ∪ hf) e σ → failed P0 hf e σ.
Proof.
  intros Hd (-> & Hr & Hg). apply good_unframe in Hg as [Hg _]; [|done].
  by eapply good_fail.
Qed.

(** ** Primitive steps *)

Lemma covers_push_node a h n :
  covers a h → covers (push_node n a) (node_cell (length (na_nodes a)) n ∪ h).
Proof.
  intros Hc. pose proof (covers_fresh_node a h Hc) as Hf. destruct Hc as [Hn Hh]. split.
  - intros i c. rewrite lookup_union_Some by (by apply map_disjoint_singleton_l).
    intros [[[= <-] <-]%lookup_singleton_Some|Hi].
    + exists n. split; [done|]. cbn. by apply list_lookup_middle.
    + destruct (Hn _ _ Hi) as (n' & -> & Hl). exists n'. split; [done|]. cbn.
      by apply lookup_app_l_Some.
  - intros i c. rewrite lookup_union_Some by (by apply map_disjoint_singleton_l).
    intros [[? _]%lookup_singleton_Some|Hi]; [done|]. by apply Hh.
Qed.

Lemma covers_push_hash a h e :
  covers a h → covers (push_hash e a) (hash_cell (length (na_by_hash a)) e ∪ h).
Proof.
  intros Hc. pose proof (covers_fresh_hash a h Hc) as Hf. destruct Hc as [Hn Hh]. split.
  - intros i c. rewrite lookup_union_Some by (by apply map_disjoint_singleton_l).
    intros [[? _]%lookup_singleton_Some|Hi]; [done|]. by apply Hn.
  - intros i c. rewrite lookup_union_Some by (by apply map_disjoint_singleton_l).
    intros [[[= <-] <-]%lookup_singleton_Some|Hi].
    + exists e. split; [done|]. cbn. by apply list_lookup_middle.
    + destruct (Hh _ _ Hi) as (n' & -> & Hl). exists n'. split; [done|]. cbn.
      by apply lookup_app_l_Some.
Qed.

Lemma covers_set_node a h i n0 n :
  h !! (false, i) = None → covers a (node_cell i n0 ∪ h) →
  covers (a <| na_nodes ::= insert i n |>) (node_cell i n ∪ h).
Proof.
  intros Hf Hc. assert (na_nodes a !! i = Some n0) as Hi.
  { eapply covers_node; [done|]. by apply lookup_union_Some_l, lookup_singleton_eq. }
  apply (covers_mono _ _ h) in Hc; [|by apply map_union_subseteq_r, map_disjoint_singleton_l].
  destruct Hc as [Hn Hh]. split.
  - intros j c. rewrite lookup_union_Some by (by apply map_disjoint_singleton_l).
    intros [[[= <-] <-]%lookup_singleton_Some|Hj].
    + exists n. split; [done|]. cbn. apply list_lookup_insert_eq. by eapply lookup_lt_Some.
    + destruct (Hn _ _ Hj) as (n' & -> & Hl). exists n'. split; [done|]. cbn.
      rewrite list_lookup_insert_ne; [done|]. congruence.
  - intros j c. rewrite lookup_union_Some by (by apply map_disjoint_singleton_l).
    intros [[? _]%lookup_singleton_Some|Hj]; [done|]. by apply Hh.
Qed.

Lemma covers_set_hash a h i e0 (f : H256 * Id → H256 * Id) :
  h !! (true, i) = None → covers a (hash_cell i e0 ∪ h) →
  covers (a <| na_by_hash ::= alter f i |>) (hash_cell i (f e0) ∪ h).
Proof.
  intros Hf Hc. assert (na_by_hash a !! i = Some e0) as Hi.
  { eapply covers_hash; [done|]. by apply lookup_union_Some_l, lookup_singleton_eq. }
  apply (covers_mono _ _ h) in Hc; [|by apply map_union_subseteq_r, map_disjoint_singleton_l].
  destruct Hc as [Hn Hh]. split.
  - intros j c. rewrite lookup_union_Some by (by apply map_disjoint_singleton_l).
    intros [[? _]%lookup_singleton_Some|Hj]; [done|]. by apply Hn.
  - intros j c. rewrite lookup_union_Some by (by apply map_disjoint_singleton_l).
    intros [[[= <-] <-]%lookup_singleton_Some|Hj].
    + exists (f e0). split; [done|]. cbn. by rewrite list_lookup_alter_eq, Hi.
    + destruct (Hh _ _ Hj) as (n' & -> & Hl). exists n'. split; [done|]. cbn.
      rewrite list_lookup_alter_ne; [done|]. congruence.
Qed.


(** The own cell of a loaded node: none for a node of the parent arena. *)
Definition cell_of (id : Id) (n : ArenaNode) (hc : Heap) : Prop :=
  if id_own id then hc = node_cell (id_index id) n else hc = ∅.

Lemma alloc_spec P0 hf h σ n :
  good P0 hf h σ →
  twp (alloc n) (λ id σ', ∃ i, id = mkId true false i ∧ parent σ' = parent σ ∧
    h !! (false, i) = None ∧ good P0 hf (node_cell i (mkArenaNode n []) ∪ h) σ') (failed P0 hf) σ.
Proof.
  intros Hg. pose proof Hg as [Hp Hl Hc Hd]. unfold alloc. apply twp_bind, twp_get.
  destruct (Nat.eqb_spec (length (na_nodes (own σ))) (na_nodes_cap (own σ))) as [E|_].
  { apply twp_lift. eapply good_fail; [|done]. unfold has_room, DECODE_MAX_NODES.
    by rewrite (proj2 (Nat.leb_gt _ _)) by lia. }
  apply twp_bind, twp_modify, twp_ret. eexists. split; [done|]. split; [done|].
  pose proof (covers_fresh_node _ _ Hc) as [Hh Hf]%lookup_union_None.
  split; [done|]. split; [done|done| |].
  - rewrite <- map_union_assoc. by apply covers_push_node.
  - apply map_disjoint_union_l_2; [by apply map_disjoint_singleton_l|done].
Qed.

Lemma rewrite_spec P0 hf h σ id n0 hc n :
  id_hash id = false → cell_of id n0 hc → hc ##ₘ h → good P0 hf (hc ∪ h) σ →
  twp (MergeTrie.rewrite id n) (λ id' σ', ∃ i, id' = mkId true false i ∧ parent σ' = parent σ ∧
    h !! (false, i) = None ∧ good P0 hf (node_cell i (mkArenaNode n []) ∪ h) σ') (failed P0 hf) σ.
Proof.
  intros Hh Hcell Hd Hg. unfold MergeTrie.rewrite, cell_of in *. destruct id as [[] hash ix]; simpl in *.
  - subst hash hc. apply map_disjoint_singleton_l in Hd as Hf.
    destruct (good_frame _ _ _ _ _ Hd Hg) as [Hg' Hdf]. pose proof Hg as [Hp Hl Hc Hd'].
    rewrite <- map_union_assoc in Hc. apply map_disjoint_union_l in Hd' as [Hd' _].
    apply map_disjoint_singleton_l in Hd'.
    apply twp_bind, twp_get, twp_bind. eapply twp_unwrap.
    { eapply covers_node; [exact Hc|]. by apply lookup_union_Some_l, lookup_singleton_eq. }
    apply twp_bind, twp_modify, twp_ret. exists ix. split; [done|]. split; [done|].
    split; [done|]. split; [done|done| |].
    + rewrite <- map_union_assoc. eapply covers_set_node; [|exact Hc].
      by apply lookup_union_None.
    + apply map_disjoint_union_l_2; [by apply map_disjoint_singleton_l|done].
  - subst hc. rewrite map_empty_union in Hg. by apply alloc_spec.
Qed.

(** A node just written stands for what its content says. *)
Lemma fresh_repr P q t i n h :
  is_empty t = false → h !! (false, i) = None → content_is db P q t n h →
  repr db P q t (mkId true false i) (node_cell i (mkArenaNode n []) ∪ h).
Proof.
  intros He Hf Hc. apply repr_node; [done|done|]. split; [done|]. cbn.
  exists (mkArenaNode n []), h. split_and!; auto.
Qed.

Lemma avail_empty q : avail db q TEmpty.
Proof. split; [|done]. by intros H. Qed.

Lemma parent_repr P q t id h :
  id_own id = false → repr db P q t id h → h = ∅ ∧ avail db q t ∧ pshape P t id.
Proof.
  intros Ho. destruct (is_empty t) eqn:He.
  { destruct t; try done. intros [-> ->]. split; [done|]. split; [apply avail_empty|done]. }
  rewrite repr_unfold by done. rewrite Ho, andb_false_r. destruct (id_hash id); [done|].
  intros [_ H]. by rewrite Ho in H.
Qed.

Lemma pshape_own P t id : pshape P t id → id_own id = false.
Proof.
  destruct (is_empty t) eqn:He; [by destruct t; try done; intros ->|].
  rewrite pshape_unfold by done. by intros [? _].
Qed.

Lemma pshape_repr P q t id : avail db q t → pshape P t id → repr db P q t id ∅.
Proof.
  intros Ha Hp. pose proof (pshape_own _ _ _ Hp) as Ho. destruct (is_empty t) eqn:He.
  { destruct t; try done. }
  rewrite repr_unfold by done. rewrite Ho, andb_false_r.
  destruct (id_hash id) eqn:Hh; [done|]. split; [done|]. by rewrite Ho.
Qed.

Lemma pshapes_reprs P q i ts ids :
  (∀ j t, ts !! j = Some t → avail db (q ++ [Z.of_nat (i + j)]) t) →
  Forall2 (pshape P) ts ids → reprs db P q i ts ids ∅.
Proof.
  intros Ha H. revert i Ha. induction H as [|t id ts ids Ht _ IH]; intros i Ha; [done|].
  exists ∅, ∅. split_and!; [by rewrite map_empty_union|apply map_disjoint_empty_l| |].
  - apply pshape_repr; [|done]. specialize (Ha O t eq_refl). by rewrite Nat.add_0_r in Ha.
  - apply IH. intros j u Hj. rewrite Nat.add_succ_comm. by apply Ha.
Qed.

Lemma pnode_content P q t n : avail db q t → pnode P t n → content_is db P q t n ∅.
Proof.
  destruct t as [|p v|p c|ts], n as [p' v'|p' c'|ids]; try done; cbn [pnode content_is]; intros Ha.
  - by intros [-> ->].
  - intros [-> Hc]. split; [done|]. apply pshape_repr; [|done]. by destruct Ha.
  - intros Hp. apply pshapes_reprs; [|by apply pshapes_Forall2].
    intros j t Hj. by eapply avail_branch.
Qed.

(** A loaded node, its content, and how to put it back together. *)
Lemma node_open P0 hf σ q t id h :
  is_empty t = false → good P0 hf h σ → node_is db (parent σ) q t id h →
  ∃ n hc h1, lookup_node id σ = Some n ∧ h = hc ∪ h1 ∧ hc ##ₘ h1 ∧ cell_of id n hc ∧
    content_is db (parent σ) q t (an_node n) h1 ∧
    ∀ P' h1', parent_le (parent σ) P' → hc ##ₘ h1' → content_is db P' q t (an_node n) h1' →
      ∃ h', h' ⊆ hc ∪ h1' ∧ node_is db P' q t id h'.
Proof.
  intros He [_ _ Hcov _] [Hh Hn]. unfold lookup_node, arena, cell_of, node_is.
  destruct (id_own id) eqn:Ho.
  - destruct Hn as (n & h1 & -> & Hf & Hr & Hc).
    exists n, (node_cell (id_index id) n), h1. split_and!; [|done|by apply map_disjoint_singleton_l|done|done|].
    + eapply covers_node; [done|]. by apply lookup_union_Some_l, lookup_union_Some_l, lookup_singleton_eq.
    + intros P' h1' Hle Hd Hc'. exists (node_cell (id_index id) n ∪ h1').
      split; [done|]. split; [done|]. exists n, h1'. split_and!; [done| |done|done].
      by apply map_disjoint_singleton_l in Hd.
  - destruct Hn as (-> & Ha & Hp). pose proof Hp as Hp'. apply pshape_unfold in Hp; [|done].
    rewrite Hh in Hp. destruct Hp as (_ & _ & _ & n & Hl & _ & Hc).
    exists n, ∅, ∅. split_and!; [done|by rewrite map_empty_union|apply map_disjoint_empty_l|done| |].
    + by apply pnode_content.
    + intros P' h1' Hle _ _. exists ∅. split; [apply map_empty_subseteq|].
      split; [done|]. split_and!; [done|done|]. by eapply pshape_mono.
Qed.


(** ** Decoding *)

Lemma parent_ok_push_node P n : parent_ok P → parent_ok (push_node n P) ∧ parent_le P (push_node n P).
Proof.
  intros (Hne & Hl & Hb & Hro).
  assert (parent_le P (push_node n P)) as Hle.
  { split; cbn; [|eauto]. intros i n' Hi. by apply lookup_app_l_Some. }
  split; [|done]. split_and!; cbn.
  - by destruct (na_nodes P).
  - intros hash id Hi. destruct (Hl _ _ Hi) as (t & ? & ? & ? & ?). exists t. eauto using pshape_mono.
  - intros i hash l Hi Hne'. destruct (Hb _ _ _ Hi Hne') as (t & ? & ? & ? & ?).
    exists t. eauto using pshape_mono.
  - intros hash0 id0 Hi0. destruct (Hro _ _ Hi0) as (t0 & ? & ? & ?). exists t0. eauto using pshape_mono.
Qed.

Lemma parent_ok_push_hash P hash :
  parent_ok P → parent_ok (push_hash (hash, id_empty) P) ∧ parent_le P (push_hash (hash, id_empty) P).
Proof.
  intros (Hne & Hl & Hb & Hro).
  assert (parent_le P (push_hash (hash, id_empty) P)) as Hle.
  { split; cbn; [eauto|]. intros i h' l Hi. exists l. by apply lookup_app_l_Some. }
  split; [|done]. split_and!; cbn; [done|..].
  - intros hash' id Hi. destruct (Hl _ _ Hi) as (t & ? & ? & ? & ?). exists t. eauto using pshape_mono.
  - intros i hash' l [Hi|[_ Hi]]%lookup_app_Some Hne'.
    + destruct (Hb _ _ _ Hi Hne') as (t & ? & ? & ? & ?). exists t. eauto using pshape_mono.
    + by apply list_lookup_singleton_Some in Hi as [_ [= _ <-]].
  - intros hash0 id0 Hi0. destruct (Hro _ _ Hi0) as (t0 & ? & ? & ?). exists t0. eauto using pshape_mono.
Qed.

(** Decoding a tree writes it to the arena [to] and never fails. *)
Definition decodes (m : TM Id) (to : bool) q t : Prop :=
  ∀ P0 hf h σ, good P0 hf h σ →
  twp m (λ id σ', ∃ h', good P0 hf (h' ∪ h) σ' ∧ h' ##ₘ h ∧ parent_le (parent σ) (parent σ') ∧
    repr db (parent σ') q t id h' ∧ (to = false → id_own id = false)) (λ _ _, False) σ.

Lemma decode_child_spec dec to q c :
  (is_empty c = false → known c) → avail db q c →
  (is_empty c = false → ¬ hashed c → decodes (dec (enc c) (enc c)) to q c) →
  decodes (decode_child dec to (item_of c)) to q c.
Proof.
  intros Hk Ha Hdec P0 hf h σ Hg. pose proof Hg as [Hp Hle Hc Hd]. unfold item_of.
  destruct (is_empty c) eqn:He.
  { apply twp_ret. exists ∅. rewrite map_empty_union.
    split_and!; [done|apply map_disjoint_empty_l|done|by destruct c|done]. }
  destruct (Z.leb_spec 32 (len (enc c))) as [Hl|Hl].
  - unfold decode_child, hash_of. destruct (keccak_bytes (enc c)) as [_ Hkl].
    destruct (keccak (enc c)) as [|b r] eqn:Ek; [done|]. rewrite <- Ek in *.
    rewrite Hkl. cbn [Z.eqb Pos.eqb]. apply twp_bind, twp_get, twp_bind, twp_modify, twp_ret.
    destruct to; cbn.
    + pose proof (covers_fresh_hash _ _ Hc) as [Hf1 Hf2]%lookup_union_None.
      exists (hash_cell (length (na_by_hash (own σ))) (keccak (enc c), id_empty)).
      split_and!; [|by apply map_disjoint_singleton_l|done| |done].
      * split; [done|done| |].
        -- rewrite <- map_union_assoc. by apply covers_push_hash.
        -- apply map_disjoint_union_l_2; [by apply map_disjoint_singleton_l|done].
      * rewrite repr_unfold by done. cbn. eexists _, _, ∅.
        split_and!; [by rewrite map_union_empty|apply lookup_empty|done|done|].
        rewrite bool_decide_true by done. auto.
    + destruct (parent_ok_push_hash (parent σ) (keccak (enc c)) Hp) as [Hp' Hle'].
      exists ∅. rewrite map_empty_union.
      split_and!; [|apply map_disjoint_empty_l|done| |done].
      * split; [done|by etrans|done|done].
      * apply pshape_repr; [done|]. apply pshape_unfold; [done|]. cbn.
        split_and!; [done|auto|done|]. exists id_empty. by apply list_lookup_middle.
  - unfold decode_child. rewrite (proj2 (Z.ltb_ge _ _)) by lia.
    apply Hdec; [done| |done]. unfold hashed. lia.
Qed.

Lemma decode_children_spec dec to q i cs :
  (∀ j c, cs !! j = Some c →
     decodes (decode_child dec to (item_of c)) to (q ++ [Z.of_nat (i + j)]) c) →
  ∀ P0 hf h σ, good P0 hf h σ →
  twp (decode_children dec to (map item_of cs)) (λ ids σ', ∃ h', good P0 hf (h' ∪ h) σ' ∧ h' ##ₘ h ∧
    parent_le (parent σ) (parent σ') ∧ reprs db (parent σ') q i cs ids h' ∧
    (to = false → Forall (λ id, id_own id = false) ids)) (λ _ _, False) σ.
Proof.
  revert i. induction cs as [|c cs IH]; intros i Hc P0 hf h σ Hg.
  { apply twp_ret. exists ∅. rewrite map_empty_union.
    split_and!; [done|apply map_disjoint_empty_l|done|done|done]. }
  cbn [map decode_children]. apply twp_bind. eapply twp_mono; [by apply (Hc O c)| |done].
  rewrite Nat.add_0_r. intros id σ1 (h1 & Hg1 & Hd1 & Hle1 & Hr1 & Ho1). apply twp_bind.
  eapply twp_mono; [apply (IH (S i)); [|exact Hg1]| |done].
  { intros j u Hj. rewrite Nat.add_succ_comm. by apply Hc. }
  intros ids σ2 (h2 & Hg2 & Hd2 & Hle2 & Hr2 & Ho2).
  apply twp_ret. apply map_disjoint_union_r in Hd2 as [Hd21 Hd2].
  exists (h1 ∪ h2). split_and!.
  - rewrite (map_union_comm h1 h2), <- map_union_assoc by done. done.
  - by apply map_disjoint_union_l_2.
  - by etrans.
  - exists h1, h2. split_and!; [done|done|by eapply repr_mono|done].
  - intros Hto. constructor; auto.
Qed.


(** A node contains the encodings it inlines. *)
Lemma sumZ_elem (f : option NodeRef → Z) rs r :
  (∀ r, 0 ≤ f r) → r ∈ rs → f r ≤ sumZ (f <$> rs).
Proof.
  intros Hf Hr. induction rs as [|x rs IH]; [by apply elem_of_nil in Hr|].
  rewrite fmap_cons. change (sumZ (f x :: (f <$> rs))) with (f x + sumZ (f <$> rs)).
  assert (0 ≤ sumZ (f <$> rs)).
  { apply sumZ_nonneg. intros y (z & -> & _)%list_elem_of_fmap. apply Hf. }
  apply elem_of_cons in Hr as [->|Hr]; [lia|]. specialize (IH Hr). specialize (Hf x). lia.
Qed.

Lemma inline_shorter_ext p c : ¬ hashed c → len (enc c) < len (enc (TExt p c)).
Proof.
  unfold hashed. intros Hn. cbn [enc]. unfold put_ext. rewrite !len_app, put_ref_len, ref_len_short.
  rewrite (proj2 (Z.leb_gt _ _)) by lia.
  match goal with |- context [put_list_header ?x] => pose proof (put_list_header_pos x) end.
  pose proof (len_nonneg (put_compact p false)). lia.
Qed.

Lemma inline_shorter_branch cs i c :
  cs !! i = Some c → is_empty c = false → ¬ hashed c → len (enc c) < len (enc (TBranch cs)).
Proof.
  unfold hashed. intros Hi He Hn. cbn [enc]. fold tree_ref. unfold put_branch. fold put_child child_len.
  rewrite !len_app, put_children_len.
  pose proof (put_list_header_pos (sumZ (child_len <$> map tree_ref cs) + 1)).
  assert (child_len (tree_ref c) ≤ sumZ (child_len <$> map tree_ref cs)) as Hs.
  { apply sumZ_elem.
    - intros [r|]; simpl; [|lia]. unfold ref_len. destruct (_ =? 32); [lia|apply len_nonneg].
    - apply list_elem_of_fmap. exists c. split; [done|]. by eapply list_elem_of_lookup_2. }
  unfold tree_ref in Hs at 1. rewrite He in Hs. cbn [child_len] in Hs. rewrite ref_len_short in Hs.
  rewrite (proj2 (Z.leb_gt _ _)) in Hs by lia. change (len [128]) with 1. lia.
Qed.

(** The last step of [decode]: the node goes to the arena. *)
Lemma decode_push P0 hf h h1 σ to q t n :
  is_empty t = false → known t → avail db q t → good P0 hf (h1 ∪ h) σ → h1 ##ₘ h →
  content_is db (parent σ) q t n h1 → (to = false → h1 = ∅ ∧ pnode (parent σ) t n) →
  twp (a ← tm_get (arena (mkId to false 0));
       tm_modify (on_arena to (push_node (mkArenaNode n (short (enc t)))));;
       mret (mkId to false (length (na_nodes a))))
    (λ id σ', ∃ h', good P0 hf (h' ∪ h) σ' ∧ h' ##ₘ h ∧ parent_le (parent σ) (parent σ') ∧
       repr db (parent σ') q t id h' ∧ id_own id = to ∧ id_hash id = false) (λ _ _, False) σ.
Proof.
  intros He Hk Hav Hg Hd Hc Hto. pose proof Hg as [Hp Hle Hcov Hdf].
  apply twp_bind, twp_get, twp_bind, twp_modify, twp_ret. destruct to; cbn.
  - pose proof (covers_fresh_node _ _ Hcov) as [[Hf1 Hf2]%lookup_union_None Hf3]%lookup_union_None.
    set (i := length (na_nodes (own σ))) in *. set (c := mkArenaNode n (short (enc t))).
    exists (node_cell i c ∪ h1). split_and!; [| |done| |done|done].
    + rewrite <- (map_union_assoc _ h1). split; [done|done| |].
      * rewrite <- map_union_assoc. by apply covers_push_node.
      * apply map_disjoint_union_l_2; [by apply map_disjoint_singleton_l|done].
    + apply map_disjoint_union_l_2; [by apply map_disjoint_singleton_l|done].
    + apply repr_node; [done|done|]. split; [done|]. cbn. exists c, h1. split_and!; auto.
  - destruct (Hto eq_refl) as [-> Hpn].
    destruct (parent_ok_push_node (parent σ) (mkArenaNode n (short (enc t))) Hp) as [Hp' Hle'].
    exists ∅. split_and!; [|apply map_disjoint_empty_l|done| |done|done].
    + split; [done|by etrans|done|done].
    + apply pshape_repr; [done|]. apply pshape_unfold; [done|]. cbn.
      split_and!; [done|done| |].
      * destruct Hp as [Hne _]. by destruct (na_nodes (parent σ)).
      * eexists. split; [by apply list_lookup_middle|]. split; [done|]. cbn.
        destruct t as [| | |ts], n as [| |ids]; try done; simpl in *.
        -- destruct Hpn as [-> Hpn]. split; [done|]. by eapply pshape_mono.
        -- apply pshapes_Forall2. apply pshapes_Forall2 in Hpn.
           eapply Forall2_impl; [done|]. intros. by eapply pshape_mono.
Qed.


Definition decoded P0 hf h σ (to : bool) q t (id : Id) σ' : Prop :=
  ∃ h', good P0 hf (h' ∪ h) σ' ∧ h' ##ₘ h ∧ parent_le (parent σ) (parent σ') ∧
    repr db (parent σ') q t id h' ∧ id_own id = to ∧ id_hash id = false.

Lemma decode_child_known fuel to q c :
  (is_empty c = false → known c) → avail db q c →
  (known c → ¬ hashed c → ∀ P0 hf h σ, good P0 hf h σ →
     twp (decode fuel to (enc c) (short (enc c))) (decoded P0 hf h σ to q c) (λ _ _, False) σ) →
  decodes (decode_child (decode fuel to) to (item_of c)) to q c.
Proof.
  intros Hk Ha Hdec. apply decode_child_spec; [done|done|]. intros He Hn P0 hf h σ Hg.
  specialize (Hdec (Hk He) Hn P0 hf h σ Hg).
  assert (short (enc c) = enc c) as E.
  { unfold short. unfold hashed in Hn. by rewrite (proj2 (Z.leb_gt _ _)) by lia. }
  rewrite E in Hdec. eapply twp_mono; [exact Hdec| |done].
  intros id σ' (h' & ? & ? & ? & ? & ? & ?). exists h'. split_and!; try done. congruence.
Qed.

Lemma reprs_parent P q i ts ids h :
  reprs db P q i ts ids h → Forall (λ id, id_own id = false) ids → h = ∅ ∧ Forall2 (pshape P) ts ids.
Proof.
  revert i ids h. induction ts as [|t ts IH]; intros i [|id ids] h; try done.
  intros (h1 & h2 & -> & _ & Hr & Hrs) [Ho Hos]%Forall_cons.
  destruct (parent_repr _ _ _ _ _ Ho Hr) as (-> & _ & ?). destruct (IH _ _ _ Hrs Hos) as [-> ?].
  split; [by rewrite map_empty_union|by constructor].
Qed.

Lemma decode_spec q t fuel to :
  known t → avail db q t → (length (enc t) < fuel)%nat → ∀ P0 hf h σ, good P0 hf h σ →
  twp (decode fuel to (enc t) (short (enc t))) (decoded P0 hf h σ to q t) (λ _ _, False) σ.
Proof.
  revert q fuel. induction t as [|p v|p c IH|cs IH] using tree_induction; intros q fuel Hk Hav Hf P0 hf h σ Hg;
    destruct (known_ok _ Hk) as ((d & Hd64 & Hcan) & Hval & He); [done|..];
    (destruct fuel as [|fuel]; [lia|]);
    destruct (enc_reads _ d Hcan Hd64 Hval He) as (Hr1 & _ & Hr2);
    cbn [decode]; apply twp_bind, twp_lift; rewrite Hr1; cbn [negb];
    apply twp_bind, twp_lift; rewrite Hr2; cbn [items_of].
  - destruct Hcan as [Hl Hn], Hval as [Hvb Hvl]. cbn [length Nat.eqb].
    apply twp_bind, twp_bind, twp_lift.
    rewrite decode_path_compact by (done || unfold KEY_NIBBLES, len; lia).
    apply twp_bind, twp_lift. unfold leaf_value_new. rewrite (proj2 (Z.ltb_ge _ _)) by done.
    apply twp_ret. rewrite <- (map_empty_union h) in Hg.
    eapply decode_push; [done|done|done|exact Hg|apply map_disjoint_empty_l|done|done].
  - destruct Hcan as (_ & Hn & Hl & Hb & Hcc).
    assert (decodes (decode_child (decode fuel to) to (item_of c)) to (q ++ p) c) as Hdc.
    { apply decode_child_known; [intros _; by eapply known_ext|by destruct Hav|]. intros Hkc Hnh.
      apply IH; [done|by destruct Hav|].
      pose proof (inline_shorter_ext p c Hnh). unfold len in *. lia. }
    destruct (item_of c) as [[l r] w]. cbn [length Nat.eqb]. apply twp_bind, twp_bind, twp_lift.
    rewrite decode_path_compact by (done || unfold KEY_NIBBLES, len; lia).
    apply twp_bind. eapply twp_mono; [by apply Hdc| |done].
    intros id σ1 (h1 & Hg1 & Hd1 & Hle1 & Hr & Ho). apply twp_ret.
    eapply twp_mono; [eapply (decode_push P0 hf h h1 σ1 to q (TExt p c))| |done]; try done.
    + intros ->. specialize (Ho eq_refl). destruct (parent_repr _ _ _ _ _ Ho Hr) as (-> & _ & ?). done.
    + intros id' σ2 (h2 & ? & ? & ? & ? & ? & ?). exists h2. split_and!; try done. by etrans.
  - apply canon_branch in Hcan as (_ & Hl & _ & Hcs).
    rewrite length_app, length_map, Hl. cbn [Nat.add length Nat.eqb].
    rewrite lookup_app_r by (rewrite length_map; lia). rewrite length_map, Hl. cbn.
    rewrite take_app_length' by (by rewrite length_map). apply twp_bind, twp_bind.
    eapply twp_mono; [apply (decode_children_spec _ _ q O); [|exact Hg]| |done].
    + rewrite Forall_lookup in IH. intros i c Hi.
      assert (avail db (q ++ [Z.of_nat (0 + i)]) c) by (by eapply avail_branch).
      apply decode_child_known; [intros Hne; by eapply known_branch|done|].
      intros Hkc Hnh. apply (IH i c Hi); [done|done|].
      assert (is_empty c = false) as Hne by (by apply known_ok in Hkc as (_ & _ & ?)).
      pose proof (inline_shorter_branch cs i c Hi Hne Hnh). unfold len in *. lia.
    + intros ids σ1 (h1 & Hg1 & Hd1 & Hle1 & Hr & Ho). apply twp_ret.
      eapply twp_mono; [eapply (decode_push P0 hf h h1 σ1 to q (TBranch cs))| |done]; try done.
      * intros ->. destruct (reprs_parent _ _ _ _ _ _ Hr (Ho eq_refl)) as [-> Hps].
        split; [done|]. by apply pshapes_Forall2.
      * intros id' σ2 (h2 & ? & ? & ? & ? & ? & ?). exists h2. split_and!; try done. by etrans.
Qed.


(** ** Loading *)

Lemma parent_set_loaded P i t l node :
  parent_ok P → na_by_hash P !! i = Some (hash_of t, l) → known t → id_hash node = false →
  pshape P t node →
  let P' := P <| na_by_hash ::= alter (λ e, (e.1, node)) i |> in parent_ok P' ∧ parent_le P P'.
Proof.
  intros (Hne & Hl & Hb & Hro) Hi Hk Hh Hs P'.
  assert (parent_le P P') as Hle.
  { split; cbn; [done|]. intros j hash l' Hj. destruct (decide (i = j)) as [->|Hij].
    - exists node. by rewrite list_lookup_alter_eq, Hj.
    - exists l'. by rewrite list_lookup_alter_ne. }
  split; [|done]. split_and!; cbn; [done|..].
  - intros hash id H. destruct (Hl _ _ H) as (u & ? & ? & ? & ?). exists u. eauto using pshape_mono.
  - intros j hash l' Hj Hne'. destruct (decide (i = j)) as [->|Hij].
    + rewrite list_lookup_alter_eq, Hi in Hj. injection Hj as <- <-. exists t. eauto using pshape_mono.
    + rewrite list_lookup_alter_ne in Hj by done. destruct (Hb _ _ _ Hj Hne') as (u & ? & ? & ? & ?).
      exists u. eauto using pshape_mono.
  - intros hash0 id0 Hi0. destruct (Hro _ _ Hi0) as (t0 & ? & ? & ?). exists t0. eauto using pshape_mono.
Qed.

Lemma parent_insert_loaded P t node :
  parent_ok P → known t → id_hash node = false → pshape P t node →
  let P' := P <| na_loaded ::= insert (hash_of t) node |> in parent_ok P' ∧ parent_le P P'.
Proof.
  intros (Hne & Hl & Hb & Hro) Hk Hh Hs P'. assert (parent_le P P') as Hle by (split; cbn; eauto).
  split; [|done]. split_and!; cbn; [done|..].
  - intros hash id [[<- <-]|[_ H]]%lookup_insert_Some.
    + exists t. eauto using pshape_mono.
    + destruct (Hl _ _ H) as (u & ? & ? & ? & ?). exists u. eauto using pshape_mono.
  - intros j hash l' Hj Hne'. destruct (Hb _ _ _ Hj Hne') as (u & ? & ? & ? & ?).
    exists u. eauto using pshape_mono.
  - intros hash0 id0 Hi0. destruct (Hro _ _ Hi0) as (t0 & ? & ? & ?). exists t0. eauto using pshape_mono.
Qed.

(** A node of the parent arena is not the empty id. *)
Lemma pshape_nonempty P t id : is_empty t = false → id_hash id = false → pshape P t id → id ≠ id_empty.
Proof.
  intros He Hh Hs ->. apply pshape_unfold in Hs; [|done]. cbn in Hs. by destruct Hs as (_ & _ & ? & _).
Qed.

(** The node an id stands for, loaded, with what remains of the id's cells; and
    the id still stands for the tree whenever the node does. *)
Definition loaded P0 hf σ q t (id id' : Id) σ' : Prop :=
  ∃ hx ha, good P0 hf (ha ∪ hx) σ' ∧ ha ##ₘ hx ∧ parent_le (parent σ) (parent σ') ∧
    node_is db (parent σ') q t id' ha ∧
    ∀ P' ha', parent_le (parent σ') P' → ha' ##ₘ hx → node_is db P' q t id' ha' →
      ∃ hb, hb ⊆ ha' ∪ hx ∧ repr db P' q t id hb.

Lemma loaded_parent P0 hf h σ σ' q t id id' :
  is_empty t = false → avail db q t → id_own id = false → pshape (parent σ) t id →
  good P0 hf h σ' → parent_le (parent σ) (parent σ') → node_is db (parent σ') q t id' h →
  loaded P0 hf σ q t id id' σ'.
Proof.
  intros He Ha Ho Hs Hg Hle Hn. exists ∅, h. rewrite map_union_empty.
  split_and!; [done|apply map_disjoint_empty_r|done|done|].
  intros P' ha' Hle' _ _. exists ∅. split; [apply map_empty_subseteq|].
  apply pshape_repr; [done|]. eapply pshape_mono; [|exact Hs]. by etrans.
Qed.

Lemma loaded_own P0 hf h σ σ' q t id id' hx :
  is_empty t = false → id_own id = true → id_hash id = true → hashed t → id' ≠ id_empty →
  hx = hash_cell (id_index id) (hash_of t, id') → h ##ₘ hx →
  good P0 hf (h ∪ hx) σ' → parent_le (parent σ) (parent σ') → node_is db (parent σ') q t id' h →
  loaded P0 hf σ q t id id' σ'.
Proof.
  intros He Ho Hh Hhd Hne -> Hd Hg Hle Hn. eexists _, h. split_and!; [exact Hg|done|done|done|].
  intros P' ha' Hle' Hd' Hn'. apply map_disjoint_singleton_r in Hd' as Hf.
  exists (hash_cell (id_index id) (hash_of t, id') ∪ ha').
  split; [by rewrite map_union_comm|]. rewrite repr_unfold by done. rewrite Ho, Hh. cbn.
  eexists _, _, ha'. split_and!; [done|done|done|done|]. by rewrite bool_decide_false.
Qed.


(** What the database returns for a hashed node. *)
Lemma avail_fetch prefix t :
  avail db prefix t → hashed t →
  match db prefix with
  | Err _ => Err STORE
  | Ok None => Err MISSING
  | Ok (Some e) => if len e =? 0 then Err MISSING else Ok e
  end = Ok (enc t).
Proof.
  intros Ha Hh. assert (db prefix = Ok (Some (enc t))) as -> by (destruct t; by apply Ha).
  unfold hashed in Hh. by rewrite (proj2 (Z.eqb_neq _ _)) by lia.
Qed.

Lemma short_hashed t : hashed t → short (enc t) = hash_of t.
Proof. unfold hashed, short, hash_of. intros H. by rewrite (proj2 (Z.leb_le _ _)). Qed.

Lemma good_spilled P0 hf h σ :
  good P0 hf h σ → good P0 hf h (on_arena true (λ a, a <| na_spilled ::= inc32 |>) σ).
Proof. by intros [? ? ? ?]. Qed.

Lemma known_nonempty t : known t → is_empty t = false.
Proof. by intros (_ & _ & ?)%known_ok. Qed.

Lemma node_nonempty P q t id h : is_empty t = false → node_is db P q t id h → id ≠ id_empty.
Proof.
  intros He [Hh Hn]. destruct (id_own id) eqn:Ho; [by intros ->|].
  destruct Hn as (_ & _ & Hp). by eapply pshape_nonempty.
Qed.

Lemma good_set_hash P0 hf h σ i e0 (f : H256 * Id → H256 * Id) :
  h ##ₘ hash_cell i e0 → good P0 hf (h ∪ hash_cell i e0) σ →
  good P0 hf (h ∪ hash_cell i (f e0)) (on_arena true (λ a, a <| na_by_hash ::= alter f i |>) σ).
Proof.
  intros Hd [Hp Hle Hc Hdf]. apply map_disjoint_singleton_r in Hd as Hf.
  apply map_disjoint_union_l in Hdf as [Hd1 Hd2]. apply map_disjoint_singleton_l in Hd2 as Hf2.
  rewrite (map_union_comm h) in Hc |- * by (by apply map_disjoint_singleton_r).
  rewrite <- map_union_assoc in Hc.
  split; [done|done| |].
  - rewrite <- map_union_assoc. apply covers_set_hash; [by apply lookup_union_None|done].
  - apply map_disjoint_union_l_2; [by apply map_disjoint_singleton_l|done].
Qed.

(** The parent arena remembers the node of the hash. *)
Lemma parent_hit σ q t node :
  parent_ok (parent σ) → known t → avail db q t → na_loaded (parent σ) !! hash_of t = Some node →
  id_hash node = false ∧ pshape (parent σ) t node ∧ node_is db (parent σ) q t node ∅.
Proof.
  intros (_ & Hl & _) Hk Ha Hi. destruct (Hl _ _ Hi) as (u & Hu & Eu & Hh & Hs).
  apply no_collision in Eu; [|done|done]. subst u. split_and!; [done|done|].
  split; [done|]. by rewrite (pshape_own _ _ _ Hs).
Qed.

(** An id of the own arena that is only a hash. *)
Lemma load_own_spec prefix P0 hf σ t id h l :
  id_own id = true → id_hash id = true → is_empty t = false → hashed t →
  good P0 hf (h ∪ hash_cell (id_index id) (hash_of t, l)) σ → h !! (true, id_index id) = None →
  (if bool_decide (l = id_empty) then known t ∧ avail db prefix t ∧ h = ∅ else node_is db (parent σ) prefix t l h) →
  twp (load db id prefix) (loaded P0 hf σ prefix t id) (failed P0 hf) σ.
Proof.
  intros Ho Hh He Hhd Hg Hf Hl. pose proof Hg as [Hp Hle Hc Hd].
  assert (na_by_hash (arena id σ) !! id_index id = Some (hash_of t, l)) as Hi.
  { unfold arena. rewrite Ho. eapply covers_hash; [exact Hc|].
    apply lookup_union_Some_l. by rewrite lookup_union_r, lookup_singleton_eq. }
  unfold load. rewrite Hh. cbn [negb]. apply twp_bind. unfold by_hash_entry.
  apply twp_bind, twp_get. eapply twp_unwrap; [exact Hi|]. cbv beta iota.
  destruct (bool_decide (l = id_empty)) eqn:El; cbn [negb].
  2:{ apply twp_ret. apply bool_decide_eq_false_1 in El. eapply loaded_own; try done.
      by apply map_disjoint_singleton_r. }
  destruct Hl as (Hk & Hav & ->). apply bool_decide_eq_true_1 in El as ->.
  assert (∀ node h1 σ1 σ2, h1 ##ₘ hash_cell (id_index id) (hash_of t, id_empty) →
    good P0 hf (h1 ∪ hash_cell (id_index id) (hash_of t, id_empty)) σ1 →
    parent_le (parent σ) (parent σ1) → node_is db (parent σ1) prefix t node h1 →
    σ2 = on_arena (id_own id) (λ a, a <| na_by_hash ::= alter (λ e, (e.1, node)) (id_index id) |>) σ1 →
    loaded P0 hf σ prefix t id node σ2) as Hset.
  { intros node h1 σ1 σ2 Hd1 Hg1 Hle1 Hn1 ->. rewrite Ho.
    eapply loaded_own; try done.
    - by eapply node_nonempty.
    - apply map_disjoint_singleton_r. by apply map_disjoint_singleton_r in Hd1.
    - by apply (good_set_hash _ _ _ _ _ (hash_of t, id_empty) (λ e, (e.1, node))). }
  apply twp_bind, twp_get. destruct (na_loaded (parent σ) !! hash_of t) as [node|] eqn:Hlo.
  { apply twp_bind, twp_modify, twp_ret.
    destruct (parent_hit _ prefix _ _ Hp Hk Hav Hlo) as (Hnh & Hs & Hn). eapply (Hset node ∅ σ); try done. apply map_disjoint_empty_l. }
  apply twp_bind, twp_lift. rewrite (avail_fetch _ _ Hav Hhd).
  apply twp_bind, twp_get, twp_bind, twp_get. rewrite Ho. cbn [negb andb].
  destruct (has_room (own σ)) eqn:Hroom; cbn [negb andb]; [|apply twp_lift; by eapply good_fail].
  apply twp_bind. rewrite <- (short_hashed t Hhd).
  eapply twp_mono; [apply (decode_spec prefix); [done|done|lia|done]| |done].
  intros node σ1 (h1 & Hg1 & Hd1 & Hle1 & Hr1 & Ho1 & Hh1). apply repr_node in Hr1; [|done|done].
  cbn [Bool.eqb]. rewrite map_empty_union in Hg1, Hd1.
  apply twp_bind, twp_modify, twp_bind, twp_ret, twp_ret. by eapply Hset.
Qed.

(** An id of the parent arena that is only a hash. *)
Lemma load_parent_spec prefix P0 hf σ t id :
  id_own id = false → id_hash id = true → is_empty t = false → avail db prefix t →
  good P0 hf ∅ σ → pshape (parent σ) t id →
  twp (load db id prefix) (loaded P0 hf σ prefix t id) (failed P0 hf) σ.
Proof.
  intros Ho Hh He Hav Hg Hs. pose proof Hg as [Hp Hle Hc Hd]. pose proof Hs as Hs'.
  apply pshape_unfold in Hs'; [|done]. rewrite Hh in Hs'. destruct Hs' as (_ & Hk & Hhd & l & Hi).
  unfold load. rewrite Hh. cbn [negb]. apply twp_bind. unfold by_hash_entry, arena. rewrite Ho.
  apply twp_bind, twp_get. eapply twp_unwrap; [exact Hi|]. cbv beta iota.
  destruct (bool_decide (l = id_empty)) eqn:El; cbn [negb].
  2:{ apply twp_ret. apply bool_decide_eq_false_1 in El. destruct Hp as (_ & _ & Hb & _).
      destruct (Hb _ _ _ Hi El) as (u & Hu & Eu & Hlh & Hls).
      apply no_collision in Eu; [|done|done]. subst u.
      eapply loaded_parent; try done. split; [done|]. by rewrite (pshape_own _ _ _ Hls). }
  assert (∀ node σ1, good P0 hf ∅ σ1 → parent_le (parent σ) (parent σ1) → id_hash node = false →
    pshape (parent σ1) t node →
    let σ2 := on_arena false (λ a, a <| na_by_hash ::= alter (λ e, (e.1, node)) (id_index id) |>) σ1 in
    good P0 hf ∅ σ2 ∧ parent_le (parent σ1) (parent σ2)) as Hset.
  { intros node σ1 [Hp1 Hl1 Hc1 Hd1] Hle1 Hnh Hns. destruct (proj2 Hle1 _ _ _ Hi) as [l' Hi'].
    destruct (parent_set_loaded (parent σ1) (id_index id) t l' node Hp1 Hi' Hk Hnh Hns) as [Hp2 Hle2].
    split; [|done]. split; [done|by etrans|done|done]. }
  apply twp_bind, twp_get. destruct (na_loaded (parent σ) !! hash_of t) as [node|] eqn:Hlo.
  { apply twp_bind, twp_modify, twp_ret. rewrite Ho.
    destruct (parent_hit _ prefix _ _ Hp Hk Hav Hlo) as (Hnh & Hns & _).
    destruct (Hset node σ) as [Hg2 Hle2]; try done. eapply loaded_parent; try done.
    split; [done|]. rewrite (pshape_own _ _ _ Hns). split_and!; [done|done|]. by eapply pshape_mono. }
  apply twp_bind, twp_lift. rewrite (avail_fetch _ _ Hav Hhd).
  apply twp_bind, twp_get, twp_bind, twp_get.  cbn [negb andb].
  destruct (has_room (parent σ)); cbn [negb andb].
  - apply twp_bind. rewrite <- (short_hashed t Hhd).
    eapply twp_mono; [apply (decode_spec prefix); [done|done|lia|done]| |done].
    intros node σ1 (h1 & Hg1 & Hd1 & Hle1 & Hr1 & Ho1 & Hh1).
    destruct (parent_repr _ _ _ _ _ Ho1 Hr1) as (-> & _ & Hns). rewrite map_union_empty in Hg1. cbn [Bool.eqb].
    destruct (Hset node σ1) as [Hg2 Hle2]; try done.
    apply twp_bind, twp_modify, twp_bind, twp_modify, twp_ret. rewrite Ho, (short_hashed t Hhd).
    set (σ2 := on_arena false _ σ1) in *. destruct Hg2 as [Hp2 Hle2' Hc2 Hd2].
    assert (pshape (parent σ2) t node) as Hns2 by (by eapply pshape_mono).
    destruct (parent_insert_loaded (parent σ2) t node Hp2 Hk Hh1 Hns2) as [Hp3 Hle3].
    eapply loaded_parent; try done.
    + etrans; [done|]. by etrans.
    + split; [done|]. rewrite Ho1. split_and!; [done|done|]. by eapply pshape_mono.
  - destruct (has_room (own σ)) eqn:Hroom; cbn [negb andb]; [|apply twp_lift; by eapply good_fail].
    apply twp_bind. rewrite <- (short_hashed t Hhd).
    eapply twp_mono; [apply (decode_spec prefix); [done|done|lia|done]| |done].
    intros node σ1 (h1 & Hg1 & Hd1 & Hle1 & Hr1 & Ho1 & Hh1). apply repr_node in Hr1; [|done|done].
    rewrite map_union_empty in Hg1. cbn [Bool.eqb].
    apply twp_bind, twp_modify, twp_bind, twp_ret, twp_ret.
    eapply loaded_parent; try done. by apply good_spilled.
Qed.

Lemma load_spec prefix P0 hf h σ t id :
  is_empty t = false → good P0 hf h σ → repr db (parent σ) prefix t id h →
  twp (load db id prefix) (loaded P0 hf σ prefix t id) (failed P0 hf) σ.
Proof.
  intros He Hg Hr. apply repr_unfold in Hr; [|done].
  destruct (id_hash id) eqn:Hh; cbn [andb] in Hr.
  - destruct (id_own id) eqn:Ho.
    + destruct Hr as (hash & l & h' & -> & Hf & -> & Hhd & Hl).
      rewrite map_union_comm in Hg by (by apply map_disjoint_singleton_l).
      by eapply load_own_spec.
    + destruct Hr as (-> & ? & Hs). by apply load_parent_spec.
  - unfold load. rewrite Hh. apply twp_ret. exists ∅, h. rewrite map_union_empty.
    split_and!; [done|apply map_disjoint_empty_r|done|done|].
    intros P' ha' Hle Hd Hn. exists ha'. rewrite map_union_empty. split; [done|]. by apply repr_node.
Qed.
End puts.
