(* ===== verification/TriePut.v ===== *)
(** * Updates of the arena trie

    [put] of [builder/src/merge/trie.rs] against the tree the root stands for:
    a run either updates the map the trie stands for, or fails because the arena
    is full, and touches no other trie. *)

From S2P Require Import Prelude Types Submission Rlp MergeTrie TrieSpec TrieArena TrieLoad.

Section puts.
Context `{KE : Keccak, GR : Growth, PS : !ParentState} (db : TrieDB).
Implicit Types (P : NodeArena) (q : Nibbles) (h hf : Heap) (σ : Tries) (t : tree).

(** ** Writing nodes *)

Lemma path_join_some a b : (length a + length b ≤ 64)%nat → path_join a b = Some (a ++ b).
Proof. intros H. unfold path_join. by rewrite (proj2 (Nat.leb_le _ _)). Qed.
Lemma path_new_some p : (length p ≤ 64)%nat → path_new p = Some p.
Proof. intros H. by apply path_join_some. Qed.
Lemma slice_some l n : (n ≤ length l)%nat → slice_from l n = Some (drop n l).
Proof. intros H. unfold slice_from. by rewrite (proj2 (Nat.leb_le _ _)). Qed.

(** The run ended with [id] a node for [t], or the empty id. *)
Definition stands P0 hf σ q t (id : Id) σ' : Prop :=
  ∃ h, good P0 hf h σ' ∧ parent_le (parent σ) (parent σ') ∧ repr db (parent σ') q t id h ∧
    id_hash id = false.

Lemma alloc_stands P0 hf h σ q t n :
  good P0 hf h σ → is_empty t = false → content_is db (parent σ) q t n h →
  twp (alloc n) (stands P0 hf σ q t) (failed P0 hf) σ.
Proof.
  intros Hg He Hc. eapply twp_mono; [by apply alloc_spec| |done].
  intros id σ' (i & -> & Hp & Hf & Hg'). eexists. split; [exact Hg'|]. rewrite Hp.
  split_and!; [done| |done]. by apply fresh_repr.
Qed.

Lemma rewrite_stands P0 hf h hc σ q t id n0 n :
  id_hash id = false → cell_of id n0 hc → hc ##ₘ h → good P0 hf (hc ∪ h) σ →
  is_empty t = false → content_is db (parent σ) q t n h →
  twp (MergeTrie.rewrite id n) (stands P0 hf σ q t) (failed P0 hf) σ.
Proof.
  intros Hh Hcell Hd Hg He Hc. eapply twp_mono; [by eapply rewrite_spec| |done].
  intros id' σ' (i & -> & Hp & Hf & Hg'). eexists. split; [exact Hg'|]. rewrite Hp.
  split_and!; [done| |done]. by apply fresh_repr.
Qed.

Lemma stands_empty P0 hf h σ σ' q :
  good P0 hf h σ' → parent_le (parent σ) (parent σ') → stands P0 hf σ q TEmpty id_empty σ'.
Proof.
  intros Hg Hle. exists ∅. split; [|done]. eapply good_weaken, Hg. apply map_empty_subseteq.
Qed.

Lemma stands_le P0 hf σ1 σ2 q t id σ' :
  parent_le (parent σ1) (parent σ2) → stands P0 hf σ2 q t id σ' → stands P0 hf σ1 q t id σ'.
Proof. intros Hle (h & ? & ? & ? & ?). exists h. split_and!; try done. by etrans. Qed.

Lemma node_twp id n σ (Q : ArenaNode → Tries → Prop) E :
  lookup_node id σ = Some n → Q n σ → twp (node id) Q E σ.
Proof. intros Hn HQ. unfold node. apply twp_bind, twp_get. by eapply twp_unwrap. Qed.

Lemma prefix_child_spec P0 hf h hc σ q prefix t d id n0 child :
  id_hash id = false → cell_of id n0 hc → hc ##ₘ h → good P0 hf (hc ∪ h) σ →
  repr db (parent σ) (q ++ prefix) t child h → id_hash child = false →
  canon d t → (length prefix + d ≤ 64)%nat →
  twp (prefix_child id prefix child) (stands P0 hf σ q (tprefix prefix t)) (failed P0 hf) σ.
Proof.
  intros Hh Hcell Hd Hg Hr Hch Hcan Hlen. unfold prefix_child.
  pose proof (repr_empty_iff _ _ _ _ _ _ Hr) as Hemp. destruct (is_empty t) eqn:He.
  { rewrite bool_decide_true by (by apply Hemp). destruct t; try done. apply twp_ret.
    by eapply stands_empty. }
  rewrite bool_decide_false by (by intros ?%Hemp). apply repr_node in Hr; [|done|done].
  assert (good P0 hf h σ) as Hgh.
  { eapply good_weaken, Hg. by apply map_union_subseteq_r. }
  destruct (node_open db _ _ _ _ _ _ _ He Hgh Hr) as (n & hcc & h1 & Hl & -> & Hd1 & Hcc & Hcont & _).
  apply twp_bind. eapply node_twp; [done|].
  apply map_disjoint_union_r in Hd as [Hd2 Hd3].
  assert (good P0 hf (hc ∪ h1) σ) as Hg1.
  { eapply good_weaken, Hg. apply map_union_mono_l. by apply map_union_subseteq_r. }
  destruct t as [|p v|p c|cs], (an_node n) as [p' v'|p' c'|ids]; try done; cbn [tprefix].
  - destruct Hcont as (<- & <- & ->), Hcan as [Hpl _]. apply twp_bind, twp_bind.
    eapply twp_unwrap; [apply path_join_some; lia|]. apply twp_ret. by eapply rewrite_stands.
  - destruct Hcont as (<- & Hrc), Hcan as (_ & _ & Hpl & _). apply twp_bind, twp_bind.
    eapply twp_unwrap; [apply path_join_some; lia|]. apply twp_ret. eapply rewrite_stands; try done.
    split; [done|]. by rewrite app_assoc.
  - apply twp_bind, twp_bind. eapply twp_unwrap; [apply path_new_some; lia|]. apply twp_ret.
    eapply (rewrite_stands _ _ (hcc ∪ h1)); try done; [by apply map_disjoint_union_r_2|].
    split; [done|]. by apply repr_node.
Qed.

(** ** Forks *)

Lemma branch_under_spec P0 hf h σ q prefix cs ids :
  good P0 hf h σ → reprs db (parent σ) (q ++ prefix) O cs ids h → (length prefix ≤ 64)%nat →
  twp (branch_under prefix ids) (stands P0 hf σ q (tbranch_under prefix cs)) (failed P0 hf) σ.
Proof.
  intros Hg Hr Hl. unfold branch_under. apply twp_bind.
  eapply twp_mono; [eapply (alloc_stands _ _ _ _ (q ++ prefix) (TBranch cs))| |done]; try done.
  intros id σ1 Hs. destruct prefix as [|x prefix].
  { apply twp_ret. by rewrite app_nil_r in Hs. }
  apply twp_bind. eapply twp_unwrap; [by apply path_new_some|].
  destruct Hs as (h1 & Hg1 & Hle1 & Hr1 & Hh1).
  eapply twp_mono; [eapply (alloc_stands _ _ _ _ q (TExt (x :: prefix) (TBranch cs)))| |done]; try done.
  intros id' σ2. by apply stands_le.
Qed.

Lemma reprs_insert_empty P P' q n cs ids h i t id h1 :
  reprs db P q n cs ids h → cs !! i = Some TEmpty → parent_le P P' → h1 ##ₘ h →
  repr db P' (q ++ [Z.of_nat (n + i)]) t id h1 →
  reprs db P' q n (<[i := t]> cs) (<[i := id]> ids) (h1 ∪ h).
Proof.
  intros Hr Hi Hle Hd Ht. destruct (lookup_lt_is_Some_2 ids i) as [id0 Hid].
  { rewrite <- (reprs_length _ _ _ _ _ _ _ Hr). by eapply lookup_lt_Some. }
  destruct (reprs_focus _ _ _ _ _ _ _ _ _ _ Hr Hi Hid) as (h0 & h2 & -> & Hd0 & [_ ->] & Hback).
  rewrite map_empty_union in Hd |- *. by apply Hback.
Qed.

Lemma reprs_empty P q n k : reprs db P q n (replicate k TEmpty) (replicate k id_empty) ∅.
Proof.
  revert n. induction k as [|k IH]; intros n; [done|]. exists ∅, ∅.
  split_and!; [by rewrite map_empty_union|apply map_disjoint_empty_l|done|apply IH].
Qed.

(** The end of both splits: the new leaf, the two children, the branch. *)
Definition fork_code (path rest : Nibbles) (c : nat) (old : Id) (value : Bytes) : TM (Id * bool) :=
  tail ← tm_unwrap (slice_from rest (c + 1));
  p ← tm_unwrap (path_new tail);
  new ← alloc (Leaf p value);
  children ← two_children path rest c old new;
  b ← branch_under (take c rest) children;
  mret (b, true).

Lemma fork_spec P0 hf h σ q path rest c x y old told value :
  good P0 hf h σ → repr db (parent σ) (q ++ take c rest ++ [x]) told old h →
  path !! c = Some x → rest !! c = Some y → x ≠ y → is_nibble x → is_nibble y →
  (length path ≤ 64)%nat → (length rest ≤ 64)%nat →
  twp (fork_code path rest c old value)
    (λ r σ', r.2 = true ∧
       stands P0 hf σ q (tfork (take c rest) x told y (TLeaf (drop (c + 1) rest) value)) r.1 σ')
    (failed P0 hf) σ.
Proof.
  intros Hg Hr Hx Hy Hxy Hnx Hny Hlp Hlr. unfold fork_code.
  pose proof (lookup_lt_Some _ _ _ Hx) as Hcp. pose proof (lookup_lt_Some _ _ _ Hy) as Hcr.
  apply twp_bind. eapply twp_unwrap; [apply slice_some; lia|].
  apply twp_bind. eapply twp_unwrap; [apply path_new_some; rewrite length_drop; lia|].
  apply twp_bind. eapply twp_mono; [by apply alloc_spec| |done].
  intros new σ1 (i & -> & Hp1 & Hf1 & Hg1). apply twp_bind. unfold two_children, path_nib.
  rewrite (proj2 (Nat.ltb_lt c 64)), Hx by lia. apply twp_bind, twp_ret, twp_bind.
  eapply twp_unwrap; [done|]. cbn [default from_option].
  unfold is_nibble in Hnx, Hny. change (id x) with x. rewrite (proj2 (Z.ltb_lt x 16)), (proj2 (Z.ltb_lt y 16)) by lia. cbn [andb]. apply twp_ret.
  set (leaf := TLeaf (drop (c + 1) rest) value). set (new := mkId true false i).
  set (hn := node_cell i _) in Hg1. set (pos := q ++ take c rest).
  assert (repr db (parent σ1) (pos ++ [Z.of_nat (Z.to_nat y)]) leaf new hn) as Hleaf.
  { rewrite <- (map_union_empty hn). apply fresh_repr; [done|apply lookup_empty|done]. }
  rewrite app_assoc in Hr. fold pos in Hr. rewrite <- Hp1 in Hr.
  assert (reprs db (parent σ1) pos O (<[Z.to_nat x := told]> no_children)
    (<[Z.to_nat x := old]> (replicate 16 id_empty)) h) as Hr1.
  { rewrite <- (map_union_empty h). eapply reprs_insert_empty; [apply reprs_empty| |done| |].
    - apply lookup_replicate_2. lia.
    - apply map_disjoint_empty_r.
    - cbn [Nat.add]. by rewrite Z2Nat.id by lia. }
  apply twp_bind. eapply twp_mono; [eapply (branch_under_spec _ _ _ _ q); [exact Hg1| |]| |done].
  - eapply reprs_insert_empty; [exact Hr1| |done|by apply map_disjoint_singleton_l|exact Hleaf].
    rewrite list_lookup_insert_ne by lia. apply lookup_replicate_2. lia.
  - rewrite length_take. lia.
  - intros b σ2 Hs. apply twp_ret. split; [done|]. eapply stands_le, Hs. by rewrite Hp1.
Qed.


(** ** The cases of [put_at] *)

Definition empty_case (rest : Nibbles) (value : option Bytes) : TM (Id * bool) :=
  match value with
  | Some value => p ← tm_unwrap (path_new rest); n ← alloc (Leaf p value); mret (n, true)
  | None => mret (id_empty, false)
  end.

Definition leaf_case (id : Id) (path : Nibbles) (old : Bytes) (rest : Nibbles) (value : option Bytes)
    : TM (Id * bool) :=
  if bool_decide (path = rest)
  then
    match value with
    | Some value => n ← MergeTrie.rewrite id (Leaf path value); mret (n, true)
    | None => mret (id_empty, true)
    end
  else
    match value with
    | None => mret (id, false)
    | Some value =>
        tail ← tm_unwrap (slice_from path (common_prefix path rest + 1));
        p ← tm_unwrap (path_new tail);
        old ← MergeTrie.rewrite id (Leaf p old);
        fork_code path rest (common_prefix path rest) old value
    end.

Definition ext_case (rec : TM (Id * bool)) (id : Id) (path : Nibbles) (child : Id) (rest : Nibbles)
    (value : option Bytes) : TM (Id * bool) :=
  if (common_prefix path rest =? length path)%nat
  then
    r ← rec;
    let '(new, changed) := r in
    if negb changed then mret (id, false)
    else n ← prefix_child id path new; mret (n, true)
  else
    match value with
    | None => mret (id, false)
    | Some value =>
        tail ←
          (if (length path - common_prefix path rest - 1 =? 0)%nat then mret child
           else
             tail ← tm_unwrap (slice_from path (common_prefix path rest + 1));
             p ← tm_unwrap (path_new tail);
             MergeTrie.rewrite id (Ext p child));
        fork_code path rest (common_prefix path rest) tail value
    end.

Definition fold_case (id : Id) (q : Nibbles) (children : list Id) : TM (Id * bool) :=
  match filter (λ e, e.2 ≠ id_empty) (enumerate children) with
  | [(i, child)] =>
      child ← load db child (q ++ [Z.of_nat i]);
      n ← prefix_child id [Z.of_nat i] child;
      mret (n, true)
  | [] => mret (id_empty, true)
  | _ => n ← MergeTrie.rewrite id (Branch children); mret (n, true)
  end.

Definition branch_case (rec : Id → TM (Id * bool)) (id : Id) (children : list Id) (q rest : Nibbles)
    : TM (Id * bool) :=
  n ← tm_unwrap (rest !! O);
  child ← tm_unwrap (children !! Z.to_nat n);
  r ← rec child;
  let '(new, changed) := r in
  if negb changed then mret (id, false)
  else fold_case id q (<[Z.to_nat n := new]> children).

Lemma put_at_eq fuel id key depth value :
  put_at (S fuel) db id key depth value =
    (id ← load db id (take depth key);
     rest ← tm_unwrap (slice_from key depth);
     if bool_decide (id = id_empty) then empty_case rest value
     else
       n ← node id;
       match an_node n with
       | Leaf path old => leaf_case id path old rest value
       | Ext path child =>
           ext_case (put_at fuel db child key (depth + common_prefix path rest) value)
             id path child rest value
       | Branch children =>
           branch_case (λ c, put_at fuel db c key (depth + 1) value) id children (take depth key) rest
       end).
Proof. reflexivity. Qed.

(** A finished update of the tree at [q], from an id that may still be a hash. *)
Definition put_post P0 hf σ q t (k : Nibbles) (v : option Bytes) (id : Id) (r : Id * bool) σ' : Prop :=
  r.2 = (tput t k v).2 ∧ stands P0 hf σ q (tput t k v).1 r.1 σ' ∧
  (r.2 = false → ∃ h, good P0 hf h σ' ∧ repr db (parent σ') q t id h).

(** The same from a node. *)
Definition put_node_post P0 hf σ q t (k : Nibbles) (v : option Bytes) (id : Id) (r : Id * bool) σ' : Prop :=
  r.2 = (tput t k v).2 ∧
  if r.2 then stands P0 hf σ q (tput t k v).1 r.1 σ'
  else r.1 = id ∧ ∃ h, good P0 hf h σ' ∧ parent_le (parent σ) (parent σ') ∧ node_is db (parent σ') q t id h.

Lemma leaf_case_spec P0 hf h σ q d path old rest value id :
  canon d (TLeaf path old) → key d rest → (d ≤ 64)%nat → good P0 hf h σ →
  node_is db (parent σ) q (TLeaf path old) id h →
  twp (leaf_case id path old rest value)
    (put_node_post P0 hf σ q (TLeaf path old) rest value id) (failed P0 hf) σ.
Proof.
  intros Hcan Hk Hd Hg Hn. pose proof Hcan as [Hpl Hpn]. pose proof Hk as [Hrl Hrn].
  destruct (node_open db _ _ _ _ (TLeaf path old) _ _ eq_refl Hg Hn)
    as (n & hc & h1 & Hl & -> & Hd1 & Hcell & Hcont & _).
  assert (h1 = ∅) as -> by (by destruct (an_node n); try done; destruct Hcont as (_ & _ & ?)).
  destruct Hn as [Hh Hn']. assert (node_is db (parent σ) q (TLeaf path old) id (hc ∪ ∅)) as Hn by done.
  unfold leaf_case, put_node_post. cbn [tput]. destruct (decide (path = rest)) as [E|Hne].
  { rewrite bool_decide_true by done. destruct value as [v|].
    - apply twp_bind. eapply twp_mono; [by eapply (rewrite_stands _ _ ∅ _ _ q (TLeaf path v))| |done].
      intros id' σ' Hs. by apply twp_ret.
    - apply twp_ret. split; [done|]. by eapply stands_empty. }
  rewrite bool_decide_false by done. destruct value as [v|].
  2:{ apply twp_ret. split; [done|]. split; [done|]. by exists (hc ∪ ∅). }
  destruct (common_prefix_cases path rest) as [[Ec Et]|(x & y & Hcp & Hx & Hy & Hxy & Et)]; [lia| |].
  { exfalso. apply Hne. rewrite <- Et. by rewrite Hpl, <- Hrl, firstn_all. }
  set (c := common_prefix path rest) in *. rewrite Hx, Hy. cbn [default from_option].
  apply twp_bind. eapply twp_unwrap; [apply slice_some; lia|].
  apply twp_bind. eapply twp_unwrap; [apply path_new_some; rewrite length_drop; lia|]. apply twp_bind.
  eapply twp_mono;
    [by eapply (rewrite_stands _ _ ∅ _ _ (q ++ take c rest ++ [x]) (TLeaf (drop (c + 1) path) old))| |done].
  intros id' σ1 (h1 & Hg1 & Hle1 & Hr1 & _).
  eapply twp_mono; [eapply (fork_spec _ _ _ _ q path rest c x y)| |done]; try done;
    [by eapply (nibble_lookup path)|by eapply (nibble_lookup rest)|lia|lia|].
  intros [b ch] σ2 [Hch Hs]. cbn in Hch. subst ch. split; [done|]. by eapply stands_le.
Qed.


(** What the child's update has to do. *)
Definition child_ok (rec : TM (Id * bool)) q t (k : Nibbles) (v : option Bytes) (id : Id) : Prop :=
  ∀ P0 hf h σ, good P0 hf h σ → repr db (parent σ) q t id h →
    twp rec (put_post P0 hf σ q t k v id) (failed P0 hf) σ.

(** An update of a child while its parent's cell is kept. *)
Lemma child_framed rec q t k v id P0 hf h hc σ :
  child_ok rec q t k v id → h ##ₘ hc → good P0 hf (h ∪ hc) σ → repr db (parent σ) q t id h →
  twp rec (λ r σ', r.2 = (tput t k v).2 ∧ parent_le (parent σ) (parent σ') ∧
     (∃ h', good P0 hf (h' ∪ hc) σ' ∧ h' ##ₘ hc ∧ repr db (parent σ') q (tput t k v).1 r.1 h' ∧
        id_hash r.1 = false) ∧
     (r.2 = false → ∃ h', good P0 hf (h' ∪ hc) σ' ∧ h' ##ₘ hc ∧ repr db (parent σ') q t id h'))
    (failed P0 hf) σ.
Proof.
  intros Hrec Hd Hg Hr. destruct (good_frame _ _ _ _ _ Hd Hg) as [Hg' Hdf].
  eapply twp_mono; [by eapply Hrec| |intros e σ'; by apply failed_frame].
  intros r σ' (Hr2 & (h' & Hg1 & Hle & Hrep & Hh) & Hun).
  destruct (good_unframe _ _ _ _ _ Hdf Hg1) as [Hg2 Hd2]. split_and!; [done|done|by exists h'|].
  intros E. destruct (Hun E) as (h2 & Hg3 & Hr3).
  destruct (good_unframe _ _ _ _ _ Hdf Hg3) as [? ?]. by exists h2.
Qed.

Section ext_case.
Context (P0 : NodeArena) (hf hc h1 : Heap) (σ : Tries) (q path rest : Nibbles) (c : tree) (d : nat).
Context (id child : Id) (n0 : ArenaNode) (value : option Bytes).
Hypothesis Hcan : canon d (TExt path c).
Hypothesis Hk : key d rest.
Hypothesis Hd64 : (length q + d ≤ 64)%nat.
Hypothesis Hg : good P0 hf (hc ∪ h1) σ.
Hypothesis Hd : hc ##ₘ h1.
Hypothesis Hcell : cell_of id n0 hc.
Hypothesis Hh : id_hash id = false.
Hypothesis Hr : repr db (parent σ) (q ++ path) c child h1.
Hypothesis Hback : ∀ P' h1', parent_le (parent σ) P' → hc ##ₘ h1' →
  repr db P' (q ++ path) c child h1' → ∃ h', h' ⊆ hc ∪ h1' ∧ node_is db P' q (TExt path c) id h'.

(** The key does not follow the path. *)
Lemma ext_split_spec v x y :
  let c0 := common_prefix path rest in
  (c0 < length path)%nat → path !! c0 = Some x → rest !! c0 = Some y → x ≠ y →
  take c0 path = take c0 rest →
  twp (ext_case tm_panic id path child rest (Some v))
    (λ r σ', r.2 = true ∧
       stands P0 hf σ q (tfork (take c0 rest) x (ext_tail path c0 c) y (TLeaf (drop (c0 + 1) rest) v)) r.1 σ')
    (failed P0 hf) σ.
Proof.
  intros c0 Hc Hx Hy Hxy Et. destruct Hcan as (_ & Hpn & Hpl & _ & _). destruct Hk as [Hrl Hrn].
  unfold ext_case. fold c0. rewrite (proj2 (Nat.eqb_neq _ _)) by lia. apply twp_bind.
  assert (q ++ path = (q ++ take c0 rest ++ [x]) ++ drop (c0 + 1) path) as Epos.
  { rewrite <- Et, <- !app_assoc. f_equal. cbn. by apply split_at. }
  apply (twp_mono _ (λ id' σ', ∃ h, good P0 hf h σ' ∧ parent_le (parent σ) (parent σ') ∧
    repr db (parent σ') (q ++ take c0 rest ++ [x]) (ext_tail path c0 c) id' h) _ (failed P0 hf)); [| |done].
  - unfold ext_tail. destruct (decide (length path - c0 - 1 = 0)%nat) as [E|E].
    + rewrite (proj2 (Nat.eqb_eq _ _)) by done. apply twp_ret. exists h1. split_and!; [|done|].
      * eapply good_weaken, Hg. by apply map_union_subseteq_r.
      * by rewrite Epos, drop_ge, app_nil_r in Hr by lia.
    + rewrite (proj2 (Nat.eqb_neq _ _)) by done. apply twp_bind.
      eapply twp_unwrap; [apply slice_some; lia|]. apply twp_bind.
      eapply twp_unwrap; [apply path_new_some; rewrite length_drop; lia|].
      eapply twp_mono; [eapply (rewrite_stands _ _ h1 _ _ (q ++ take c0 rest ++ [x])
        (TExt (drop (c0 + 1) path) c))| |done]; try done.
      * split; [done|]. by rewrite <- Epos.
      * intros id' σ' (h & ? & ? & ? & _). by exists h.
  - intros tail σ1 (h & Hg1 & Hle1 & Hr1).
    eapply twp_mono; [eapply (fork_spec _ _ _ _ q path rest c0 x y)| |done]; try done;
      [by eapply (nibble_lookup path)|by eapply (nibble_lookup rest)|lia|lia|].
    intros r σ2 [Hch Hs]. split; [done|]. by eapply stands_le.
Qed.

Lemma ext_case_spec rec :
  (common_prefix path rest = length path →
     child_ok rec (q ++ path) c (drop (length path) rest) value child) →
  twp (ext_case rec id path child rest value)
    (put_node_post P0 hf σ q (TExt path c) rest value id) (failed P0 hf) σ.
Proof.
  intros Hrec. pose proof Hcan as (Hp0 & Hpn & Hpl & Hb & Hcc). pose proof Hk as [Hrl Hrn].
  unfold put_node_post. cbn [tput].
  destruct (common_prefix_cases path rest) as [[Ec Et]|(x & y & Hcp & Hx & Hy & Hxy & Et)]; [lia| |].
  - rewrite Ec, decide_True by done. unfold ext_case. rewrite Ec, Nat.eqb_refl. apply twp_bind.
    rewrite map_union_comm in Hg by done.
    eapply twp_mono; [eapply (child_framed rec (q ++ path) c (drop (length path) rest) value child P0 hf h1 hc); [by apply Hrec|done|done|done]| |done].
    intros [new ch] σ1 (Hch & Hle & (h' & Hg1 & Hd1 & Hr1 & Hh1) & Hun). cbn [fst snd] in *.
    pose proof (tput_canon c (d - length path) (drop (length path) rest) value Hcc (key_drop _ _ _ Hk))
      as Hcan'.
    destruct (tput c (drop (length path) rest) value) as [tnew ch']. cbn [fst snd] in *. subst ch'.
    destruct ch; cbn [negb].
    + apply twp_bind. rewrite map_union_comm in Hg1 by done.
      eapply twp_mono; [eapply (prefix_child_spec _ _ h' hc _ q path tnew (d - length path))| |done]; try done.
      * lia.
      * intros id' σ2 Hs. apply twp_ret. split; [done|]. by eapply stands_le.
    + apply twp_ret. split; [done|]. split; [done|]. destruct (Hun eq_refl) as (h2 & Hg2 & Hd2 & Hr2).
      destruct (Hback (parent σ1) h2) as (h3 & Hs3 & Hn3); [done|done|done|].
      exists h3. split_and!; [|done|done]. eapply good_weaken; [exact Hs3|].
      by rewrite map_union_comm.
  - rewrite decide_False by lia. destruct value as [v|].
    + pose proof (ext_split_spec v x y Hcp Hx Hy Hxy Et) as Hs.
      rewrite Hx, Hy. cbn [default from_option]. unfold ext_tail in Hs.
      unfold ext_case in Hs |- *. rewrite (proj2 (Nat.eqb_neq _ _)) in Hs |- * by lia.
      eapply twp_mono; [exact Hs| |done]. intros [r ch] σ' [Hch Hst]. cbn in Hch. by subst ch.
    + unfold ext_case. rewrite (proj2 (Nat.eqb_neq _ _)) by lia. apply twp_ret.
      split; [done|]. split; [done|]. destruct (Hback (parent σ) h1) as (h3 & Hs3 & Hn3); [done..|].
      exists h3. split_and!; [by eapply good_weaken|done|done].
Qed.
End ext_case.


(** The ids that are not empty are those of the children that are not. *)
Lemma reprs_occupied P q n cs ids h :
  reprs db P q n cs ids h →
  (filter (λ e, e.2 ≠ id_empty) (enumerate_from n ids)).*1 =
    (filter (λ e, is_empty e.2 = false) (enumerate_from n cs)).*1.
Proof.
  revert n ids h. induction cs as [|c cs IH]; intros n [|id ids] h; try done.
  intros (h1 & h2 & _ & _ & Hr%repr_empty_iff & Hrs). cbn [enumerate_from].
  rewrite !filter_cons. cbn [snd]. destruct (is_empty c) eqn:He.
  - rewrite decide_False by (intros H; by apply H, Hr). rewrite decide_False by done. by eapply IH.
  - rewrite decide_True by (by intros ?%Hr). rewrite decide_True by done.
    rewrite !fmap_cons. cbn [fst]. f_equal. by eapply IH.
Qed.

Section branch_case.
Context (P0 : NodeArena) (hf hc : Heap) (q : Nibbles) (d : nat) (id : Id) (n0 : ArenaNode).
Hypothesis Hd0 : (0 < d)%nat.
Hypothesis Hd64 : (length q + d ≤ 64)%nat.
Hypothesis Hcell : cell_of id n0 hc.
Hypothesis Hh : id_hash id = false.

Lemma fold_one_spec σ h i c child :
  good P0 hf (hc ∪ h) σ → hc ##ₘ h → is_empty c = false → canon (d - 1) c →
  repr db (parent σ) (q ++ [Z.of_nat i]) c child h →
  twp (child ← load db child (q ++ [Z.of_nat i]); n ← prefix_child id [Z.of_nat i] child; mret (n, true))
    (λ r σ', r.2 = true ∧ stands P0 hf σ q (tprefix [Z.of_nat i] c) r.1 σ') (failed P0 hf) σ.
Proof.
  intros Hg Hd He Hcan Hr. rewrite map_union_comm in Hg by done.
  destruct (good_frame _ _ _ _ _ (symmetry Hd) Hg) as [Hg' Hdf]. apply twp_bind.
  eapply twp_mono; [by eapply load_spec| |intros e σ'; by apply failed_frame].
  intros child' σ1 (hx & ha & Hg1 & Hd1 & Hle1 & Hn1 & _).
  apply (good_weaken _ _ _ ha) in Hg1; [|by apply map_union_subseteq_l].
  destruct (good_unframe _ _ _ _ _ Hdf Hg1) as [Hg2 Hd2]. rewrite map_union_comm in Hg2 by done.
  apply twp_bind. eapply twp_mono;
    [eapply (prefix_child_spec _ _ ha hc _ q [Z.of_nat i] c (d - 1))| |done]; try done.
  - by destruct Hn1 as [? ?]; apply repr_node.
  - by destruct Hn1.
  - cbn. lia.
  - intros id' σ2 Hs. apply twp_ret. split; [done|]. by eapply stands_le.
Qed.

Lemma fold_case_spec σ h cs ids :
  good P0 hf (hc ∪ h) σ → hc ##ₘ h → (∀ i c, cs !! i = Some c → canon (d - 1) c) →
  reprs db (parent σ) q O cs ids h →
  twp (fold_case id q ids) (λ r σ', r.2 = true ∧ stands P0 hf σ q (tfold cs) r.1 σ') (failed P0 hf) σ.
Proof.
  intros Hg Hd Hcan Hr. pose proof (reprs_occupied _ _ _ _ _ _ Hr) as Hocc.
  unfold fold_case, tfold, occupied, enumerate in *.
  destruct (filter _ (enumerate_from 0 cs)) as [|[i c] [|e l]] eqn:Ec,
    (filter _ (enumerate_from 0 ids)) as [|[i' child] [|e' l']] eqn:Ei; try done.
  - apply twp_ret. split; [done|]. by eapply stands_empty.
  - injection Hocc as ->.
    assert ((i, c) ∈ occupied cs) as [Hic He]%elem_of_occupied by (unfold occupied, enumerate; rewrite Ec; left).
    assert (ids !! i = Some child) as Hid.
    { apply elem_of_enumerate. unfold enumerate. eapply list_elem_of_filter. rewrite Ei. left. }
    destruct (reprs_focus _ _ _ _ _ _ _ _ _ _ Hr Hic Hid) as (h1 & h2 & -> & Hd12 & Hr1 & _).
    apply map_disjoint_union_r in Hd as [Hd1 Hd2]. eapply (fold_one_spec _ h1); try done.
    + eapply good_weaken, Hg. apply map_union_mono_l. by apply map_union_subseteq_l.
    + by eapply Hcan.
  - apply twp_bind. eapply twp_mono; [by eapply (rewrite_stands _ _ h _ _ q (TBranch cs))| |done].
    intros id' σ' Hs. by apply twp_ret.
Qed.

Lemma branch_case_spec σ h1 cs ids rest value rec :
  canon d (TBranch cs) → key d rest → good P0 hf (hc ∪ h1) σ → hc ##ₘ h1 →
  reprs db (parent σ) q O cs ids h1 →
  (∀ P' h1', parent_le (parent σ) P' → hc ##ₘ h1' → reprs db P' q O cs ids h1' →
     ∃ h', h' ⊆ hc ∪ h1' ∧ node_is db P' q (TBranch cs) id h') →
  (∀ n k c child, rest = n :: k → is_nibble n → cs !! Z.to_nat n = Some c →
     child_ok (rec child) (q ++ [n]) c k value child) →
  twp (branch_case rec id ids q rest)
    (put_node_post P0 hf σ q (TBranch cs) rest value id) (failed P0 hf) σ.
Proof.
  intros (_ & Hl16 & _ & Hcs)%canon_branch Hk Hg Hd Hr Hback Hrec.
  destruct rest as [|n k]; [destruct Hk; cbn in *; lia|].
  apply key_cons in Hk as (d' & Ed & Hn & Hk). pose proof (nibble_index n Hn) as Hi.
  destruct (lookup_lt_is_Some_2 cs (Z.to_nat n)) as [c Hc]; [lia|].
  destruct (lookup_lt_is_Some_2 ids (Z.to_nat n)) as [child Hchild].
  { rewrite <- (reprs_length _ _ _ _ _ _ _ Hr). lia. }
  destruct (reprs_focus _ _ _ _ _ _ _ _ _ _ Hr Hc Hchild) as (h0 & h2 & -> & Hd02 & Hr0 & Hput).
  cbn [Nat.add] in Hr0, Hput. rewrite Z2Nat.id in Hr0, Hput by (unfold is_nibble in Hn; lia).
  apply map_disjoint_union_r in Hd as [Hdc0 Hdc2].
  assert (∀ h, h ##ₘ hc ∪ h2 → h ∪ (hc ∪ h2) = hc ∪ (h ∪ h2) ∧ h ##ₘ h2 ∧ hc ##ₘ h ∪ h2) as Hswap.
  { intros h [Hdh1 Hdh2]%map_disjoint_union_r. split_and!; [|done|by apply map_disjoint_union_r_2].
    by rewrite (map_union_assoc h), (map_union_comm h hc), map_union_assoc. }
  assert (h0 ##ₘ hc ∪ h2) as Hd0' by (by apply map_disjoint_union_r_2).
  rewrite <- (proj1 (Hswap h0 Hd0')) in Hg. unfold branch_case, put_node_post. rewrite tput_branch, Hc.
  apply twp_bind. eapply twp_unwrap; [done|]. apply twp_bind. eapply twp_unwrap; [done|]. apply twp_bind.
  eapply twp_mono; [eapply (child_framed (rec child) (q ++ [n]) c k value child P0 hf h0 (hc ∪ h2));
    [by apply Hrec|done|done|done]| |done].
  intros [new ch] σ1 (Hch & Hle & (h' & Hg1 & Hd1 & Hr1 & Hh1) & Hun). cbn [fst snd] in *.
  assert (canon (d - 1) (tput c k value).1) as Hcan'.
  { apply tput_canon; [by eapply Hcs|]. by replace (d - 1)%nat with d' by lia. }
  destruct (tput c k value) as [tnew ch']. cbn [fst snd] in *. subst ch'. destruct ch; cbn [negb].
  - destruct (Hswap h' Hd1) as (E1 & Hd1' & Hd1''). rewrite E1 in Hg1.
    eapply twp_mono; [eapply (fold_case_spec σ1 (h' ∪ h2) (<[Z.to_nat n := tnew]> cs))| |done]; try done.
    + intros i ci [(_ & <- & _)|(_ & Hci)]%list_lookup_insert_Some; [done|by eapply Hcs].
    + by apply Hput.
    + intros [r ch] σ2 [Hch Hs]. cbn in Hch. subst ch. split; [done|]. by eapply stands_le.
  - apply twp_ret. split; [done|]. split; [done|]. destruct (Hun eq_refl) as (h3 & Hg3 & Hd3 & Hr3).
    destruct (Hswap h3 Hd3) as (E3 & Hd3' & Hd3''). rewrite E3 in Hg3.
    destruct (Hback (parent σ1) (h3 ∪ h2)) as (h4 & Hs4 & Hn4); [done|done| |].
    + specialize (Hput (parent σ1) c child h3 Hle Hd3' Hr3). by rewrite !list_insert_id in Hput.
    + exists h4. split_and!; [by eapply good_weaken|done|done].
Qed.
End branch_case.
(** ** Updates *)

(** From a loaded node. *)
Lemma put_node_spec P0 hf h σ t fuel id key depth value :
  is_empty t = false → TrieSpec.key 64 key → (depth ≤ 64)%nat → canon (64 - depth) t →
  (match t with
   | TExt p c => ∀ child, common_prefix p (drop depth key) = length p →
       child_ok (put_at fuel db child key (depth + length p) value) (take depth key ++ p) c
         (drop (length p) (drop depth key)) value child
   | TBranch cs => ∀ n k c child, drop depth key = n :: k → is_nibble n → cs !! Z.to_nat n = Some c →
       child_ok (put_at fuel db child key (depth + 1) value) (take depth key ++ [n]) c k value child
   | _ => True
   end) →
  good P0 hf h σ → node_is db (parent σ) (take depth key) t id h →
  twp (rest ← tm_unwrap (slice_from key depth);
       if bool_decide (id = id_empty) then empty_case rest value
       else
         n ← node id;
         match an_node n with
         | Leaf path old => leaf_case id path old rest value
         | Ext path child =>
             ext_case (put_at fuel db child key (depth + common_prefix path rest) value)
               id path child rest value
         | Branch children =>
             branch_case (λ c, put_at fuel db c key (depth + 1) value) id children (take depth key) rest
         end)
    (put_node_post P0 hf σ (take depth key) t (drop depth key) value id) (failed P0 hf) σ.
Proof.
  intros He Hk Hdep Hcan Hrec Hg Hn. pose proof (key_drop _ _ depth Hk) as Hk'.
  pose proof Hk as [Hkl _]. apply twp_bind. eapply twp_unwrap; [apply slice_some; lia|].
  rewrite bool_decide_false by (by eapply node_nonempty).
  assert (length (take depth key) = depth) as Elen by (rewrite length_take; lia).
  destruct (node_open db _ _ _ _ _ _ _ He Hg Hn) as (n & hc & h1 & Hl & -> & Hd & Hcell & Hcont & Hback).
  apply twp_bind. eapply node_twp; [done|]. pose proof (proj1 Hn) as Hh.
  destruct t as [|p v|p c|cs]; [done|..]; destruct (an_node n) as [p' v'|p' child|ids]; try done.
  - destruct Hcont as (<- & <- & _). eapply leaf_case_spec; try done. lia.
  - destruct Hcont as [<- Hr]. eapply (ext_case_spec _ _ hc h1); try done.
    + lia.
    + intros P' h1' Hle Hd' Hr'. by apply Hback.
    + intros E. rewrite E. by apply Hrec.
  - pose proof Hcan as [Hd0 _]%canon_branch. eapply (branch_case_spec _ _ hc); try done.
    + lia.
Qed.

(** Loading first: the id keeps standing for the tree if nothing changes. *)
Lemma put_loaded P0 hf h σ q t k v id (m : Id → TM (Id * bool)) :
  is_empty t = false → good P0 hf h σ → repr db (parent σ) q t id h →
  (∀ hf' h' σ' id', good P0 hf' h' σ' → node_is db (parent σ') q t id' h' →
     twp (m id') (put_node_post P0 hf' σ' q t k v id') (failed P0 hf') σ') →
  twp (load db id q ≫= m) (put_post P0 hf σ q t k v id) (failed P0 hf) σ.
Proof.
  intros He Hg Hr Hm. apply twp_bind. eapply twp_mono; [by eapply load_spec| |done].
  intros id' σ1 (hx & ha & Hg1 & Hd1 & Hle1 & Hn1 & Hback).
  destruct (good_frame _ _ _ _ _ Hd1 Hg1) as [Hg2 Hdf].
  eapply twp_mono; [by eapply (Hm (hx ∪ hf))| |intros e σ'; by apply failed_frame].
  intros [r ch] σ2 [Hch Hpost]. unfold put_post. cbn [fst snd] in *. split; [done|]. destruct ch.
  - destruct Hpost as (h2 & Hg3 & Hle3 & Hr3 & Hh3). split; [|done]. exists h2.
    destruct (good_unframe _ _ _ _ _ Hdf Hg3) as [Hg4 Hd4]. split_and!; [|by etrans|done|done].
    eapply good_weaken, Hg4. by apply map_union_subseteq_l.
  - destruct Hpost as (-> & h2 & Hg3 & Hle3 & Hn3).
    destruct (good_unframe _ _ _ _ _ Hdf Hg3) as [Hg4 Hd4].
    rewrite (tput_unchanged t k v) by done. split.
    + exists h2. split_and!; [|by etrans|by apply repr_node; [|destruct Hn3|]|by destruct Hn3].
      eapply good_weaken, Hg4. by apply map_union_subseteq_l.
    + intros _. destruct (Hback _ _ Hle3 Hd4 Hn3) as (hb & Hs & Hrb). exists hb.
      split; [by eapply good_weaken|done].
Qed.

Lemma put_at_spec t fuel key depth value id P0 hf h σ :
  TrieSpec.key 64 key → (depth ≤ 64)%nat → canon (64 - depth) t → (64 - depth < fuel)%nat →
  good P0 hf h σ → repr db (parent σ) (take depth key) t id h →
  twp (put_at fuel db id key depth value)
    (put_post P0 hf σ (take depth key) t (drop depth key) value id) (failed P0 hf) σ.
Proof.
  intros Hk. revert fuel depth id P0 hf h σ.
  induction t as [|p v|p c IH|cs IH] using tree_induction; intros fuel depth id P0 hf h σ Hdep Hcan Hfuel Hg Hr;
    (destruct fuel as [|fuel]; [lia|]); rewrite put_at_eq.
  { destruct Hr as [-> ->]. apply twp_bind. unfold load. cbn [negb id_hash id_empty]. apply twp_ret.
    pose proof Hk as [Hkl _]. apply twp_bind. eapply twp_unwrap; [apply slice_some; lia|].
    rewrite bool_decide_true by done. unfold empty_case, put_post. cbn [tput]. destruct value as [v|].
    - apply twp_bind. eapply twp_unwrap; [apply path_new_some; rewrite length_drop; lia|]. apply twp_bind.
      eapply twp_mono; [by eapply (alloc_stands _ _ ∅ _ (take depth key) (TLeaf (drop depth key) v))| |done].
      intros n σ' Hs. by apply twp_ret.
    - apply twp_ret. split_and!; [done|by eapply stands_empty|]. intros _. by exists ∅. }
  all: pose proof Hk as [Hkl Hkn];
    assert (length (take depth key) = depth) as Elen by (rewrite length_take; lia).
  - eapply put_loaded; [done|done|done|]. intros hf' h' σ' id' Hg' Hn'.
    by eapply (put_node_spec _ _ _ _ (TLeaf p v)).
  - eapply put_loaded; [done|done|done|]. intros hf' h' σ' id' Hg' Hn'.
    eapply (put_node_spec _ _ _ _ (TExt p c)); try done. intros child E.
    destruct Hcan as (Hp0 & Hpn & Hpl & Hb & Hcc). intros P1 hf1 h1 σ1 Hg1 Hr1.
    destruct (common_prefix_spec p (drop depth key)) as (_ & _ & Et & _). rewrite E, firstn_all in Et.
    assert (take depth key ++ p = take (depth + length p) key) as Ep.
    { rewrite Et at 1. by rewrite take_take_drop. }
    rewrite Ep, drop_drop in *. apply (IH fuel (depth + length p)%nat child P1 hf1 h1 σ1); try done; [lia| |].
    + by replace (64 - (depth + length p))%nat with (64 - depth - length p)%nat by lia.
    + destruct p; [done|]. cbn [length] in *. lia.
  - eapply put_loaded; [done|done|done|]. intros hf' h' σ' id' Hg' Hn'.
    eapply (put_node_spec _ _ _ _ (TBranch cs)); try done. intros n k c child En Hn Hc.
    apply canon_branch in Hcan as (Hd0 & Hl16 & _ & Hcs). intros P1 hf1 h1 σ1 Hg1 Hr1.
    assert (take depth key ++ [n] = take (depth + 1) key) as Ep.
    { by rewrite <- take_take_drop, En. }
    assert (k = drop (depth + 1) key) as -> by (by rewrite <- drop_drop, En).
    rewrite Ep in *. rewrite Forall_lookup in IH.
    apply (IH _ _ Hc fuel (depth + 1)%nat child P1 hf1 h1 σ1); try done; [lia| |lia].
    replace (64 - (depth + 1))%nat with (64 - depth - 1)%nat by lia. by eapply Hcs.
Qed.
End puts.
