(* ===== verification/TrieCommit.v ===== *)
(** * Hashing of the arena tries

    [commit] of [builder/src/merge/trie.rs]: the nodes changed since the last
    commit are collected by depth, encoded from the deepest level up and hashed
    in batches. The roots it returns are the Merkle-Patricia roots of the trees
    the ids stand for, and the tries stand for the same trees afterwards. *)

From S2P Require Import Prelude Types Submission Rlp MergeTrie TrieSpec TrieArena TrieLoad.

Section commits.
Context `{KE : Keccak, GR : Growth, PS : !ParentState}.
Implicit Types (P : NodeArena) (q : Nibbles) (h hf : Heap) (σ : Tries) (t : tree).

(** ** Trees and nodes by their children *)

Definition subtrees t : list tree :=
  match t with TEmpty | TLeaf _ _ => [] | TExt _ c => [c] | TBranch cs => cs end.
Definition node_children (n : TrieNode) : list Id :=
  match n with Leaf _ _ => [] | Ext _ c => [c] | Branch ids => ids end.
Definition same_shape t (n : TrieNode) : Prop :=
  match t, n with
  | TLeaf p v, Leaf p' v' => p = p' ∧ v = v'
  | TExt p _, Ext p' _ => p = p'
  | TBranch _, Branch _ => True
  | _, _ => False
  end.

Definition refs_to σ (id : Id) t : Prop := node_ref id σ = Some (tree_ref t).

(** A node whose children's references are known encodes to the tree's encoding. *)
Lemma encode_tree σ id n t :
  lookup_node id σ = Some n → same_shape t (an_node n) →
  Forall2 (refs_to σ) (node_children (an_node n)) (subtrees t) → encode id σ = Some (enc t).
Proof.
  intros Hl Hs Hc. unfold encode. rewrite Hl. simpl.
  destruct t as [|p v|p c|cs], (an_node n) as [p' v'|p' c'|ids]; try done; simpl in *.
  - by destruct Hs as [-> ->].
  - subst p'. apply Forall2_cons in Hc as [Hc _]. rewrite Hc. simpl. unfold tree_ref.
    by destruct c.
  - assert (mapM (λ c, node_ref c σ) ids = Some (map tree_ref cs)) as ->; [|done].
    clear -Hc. induction Hc as [|id c ids cs H _ IH]; [done|]. simpl. rewrite H. simpl. by rewrite IH.
Qed.

Lemma short_nonempty t : is_empty t = false → short (enc t) ≠ [].
Proof.
  intros He. unfold short. destruct (Z.leb_spec 32 (len (enc t))) as [Hl|Hl].
  - destruct (keccak_bytes (enc t)) as [_ Hk]. by intros E; rewrite E in Hk.
  - destruct t as [|p v|p c|cs]; [done|..]; cbn [enc]; unfold put_leaf, put_ext, put_branch;
      match goal with |- context [put_list_header ?x] => pose proof (put_list_header_pos x) end;
      destruct (put_list_header _); done.
Qed.

Lemma ref_root_tree t : is_empty t = false → ref_root (short (enc t)) = tree_root t.
Proof.
  intros He. unfold ref_root, short, tree_root, hash_of. rewrite He.
  destruct (Z.leb_spec 32 (len (enc t))).
  - by destruct (keccak_bytes (enc t)) as [_ ->].
  - by rewrite (proj2 (Z.eqb_neq _ _)) by lia.
Qed.

(** ** Tries with the cells they use *)

(** An id at some depth below a root, and the tree it stands for. *)
Record Held := mkHeld {
  hl_db : TrieDB;
  hl_at : Nibbles;
  hl_id : Id;
  hl_depth : nat;
  hl_tree : tree
}.

Definition held P (it : Held) h : Prop := repr (hl_db it) P (hl_at it) (hl_tree it) (hl_id it) h.

(** The ids use disjoint cells. *)
Fixpoint owned P (items : list Held) h : Prop :=
  match items with
  | [] => h = ∅
  | it :: items' => ∃ h1 h2, h = h1 ∪ h2 ∧ h1 ##ₘ h2 ∧ held P it h1 ∧ owned P items' h2
  end.

Lemma owned_app P l1 l2 h :
  owned P (l1 ++ l2) h ↔ ∃ h1 h2, h = h1 ∪ h2 ∧ h1 ##ₘ h2 ∧ owned P l1 h1 ∧ owned P l2 h2.
Proof.
  revert h. induction l1 as [|it l1 IH]; intros h; simpl.
  - split.
    + intros H. exists ∅, h. split_and!; [by rewrite map_empty_union|apply map_disjoint_empty_l|done|done].
    + intros (h1 & h2 & -> & _ & -> & H). by rewrite map_empty_union.
  - setoid_rewrite IH. split.
    + intros (h1 & h2 & -> & Hd & Hit & h3 & h4 & -> & Hd' & H3 & H4).
      apply map_disjoint_union_r in Hd as [? ?]. exists (h1 ∪ h3), h4.
      split_and!; [by rewrite map_union_assoc|by apply map_disjoint_union_l_2| |done].
      by exists h1, h3.
    + intros (h1 & h4 & -> & Hd & (h2 & h3 & -> & Hd' & Hit & H3) & H4).
      apply map_disjoint_union_l in Hd as [? ?]. exists h2, (h3 ∪ h4).
      split_and!; [by rewrite map_union_assoc|by apply map_disjoint_union_r_2|done|].
      by exists h3, h4.
Qed.

Lemma owned_reverse P l h : owned P (reverse l) h ↔ owned P l h.
Proof.
  revert h. induction l as [|it l IH]; intros h; [done|].
  rewrite reverse_cons, owned_app. simpl. split.
  - intros (h1 & h2 & -> & Hd & H1 & h3 & h4 & -> & _ & H3 & ->). rewrite map_union_empty in *.
    exists h3, h1. split_and!; [by apply map_union_comm|done|done|by apply IH].
  - intros (h1 & h2 & -> & Hd & H1 & H2). exists h2, h1.
    split_and!; [by apply map_union_comm|done|by apply IH|].
    exists h1, ∅. split_and!; [by rewrite map_union_empty|apply map_disjoint_empty_r|done|done].
Qed.

Lemma owned_mono P P' l h : parent_le P P' → owned P l h → owned P' l h.
Proof.
  intros Hle. revert h. induction l as [|it l IH]; intros h; [done|].
  intros (h1 & h2 & -> & ? & ? & ?). exists h1, h2. split_and!; [done|done|by eapply repr_mono|by apply IH].
Qed.

Fixpoint branch_items (db : TrieDB) q (d i : nat) (cs : list tree) (ids : list Id) : list Held :=
  match cs, ids with
  | c :: cs', id :: ids' => mkHeld db (q ++ [Z.of_nat i]) id d c :: branch_items db q d (S i) cs' ids'
  | _, _ => []
  end.

(** The children of a node, one level deeper. *)
Definition kid_items (db : TrieDB) q (d : nat) t (n : TrieNode) : list Held :=
  match t, n with
  | TExt p c, Ext _ child => [mkHeld db (q ++ p) child (S d) c]
  | TBranch cs, Branch ids => branch_items db q (S d) 0 cs ids
  | _, _ => []
  end.

Lemma reprs_owned db P q d i cs ids h :
  reprs db P q i cs ids h ↔ length cs = length ids ∧ owned P (branch_items db q d i cs ids) h.
Proof.
  revert i ids h. induction cs as [|c cs IH]; intros i [|id ids] h; simpl; try naive_solver.
Qed.

Lemma content_owned db P q d t n h :
  content_is db P q t n h ↔
    same_shape t n ∧ length (subtrees t) = length (node_children n) ∧ owned P (kid_items db q d t n) h.
Proof.
  destruct t as [|p v|p c|cs], n as [p' v'|p' c'|ids]; simpl; try naive_solver.
  - split.
    + intros [-> Hr]. split_and!; [done|done|]. exists h, ∅.
      split_and!; [by rewrite map_union_empty|apply map_disjoint_empty_r|done|done].
    + intros (-> & _ & h1 & h2 & -> & _ & Hr & ->). by rewrite map_union_empty.
  - rewrite (reprs_owned _ _ _ (S d)). naive_solver.
Qed.

Lemma branch_items_ids db q d i cs ids :
  length cs = length ids → (λ it, (hl_id it, hl_depth it)) <$> branch_items db q d i cs ids = (λ c, (c, d)) <$> ids.
Proof.
  revert i ids. induction cs as [|c cs IH]; intros i [|id ids]; simpl; try done.
  intros [= E]. f_equal. by apply IH.
Qed.

Lemma kid_items_ids db q d t n :
  same_shape t n → length (subtrees t) = length (node_children n) →
  (λ it, (hl_id it, hl_depth it)) <$> kid_items db q d t n = (λ c, (c, S d)) <$> node_children n.
Proof.
  destruct t as [|p v|p c|cs], n as [p' v'|p' c'|ids]; simpl; try done. intros _. by apply branch_items_ids.
Qed.

Lemma branch_items_kids db q d i cs ids (R : Held → Prop) :
  length cs = length ids → (∀ it, it ∈ branch_items db q d i cs ids → R it) →
  Forall2 (λ id c, ∃ it, R it ∧ hl_id it = id ∧ hl_tree it = c ∧ hl_depth it = d) ids cs.
Proof.
  revert i ids. induction cs as [|c cs IH]; intros i [|id ids]; simpl; try done.
  intros [= E] HR. constructor.
  - eexists. split; [apply HR; left|done].
  - eapply IH; [done|]. intros it Hit. apply HR. by right.
Qed.

(** A property of the children's ids, by child. *)
Lemma kid_items_kids db q d t n (R : Held → Prop) :
  same_shape t n → length (subtrees t) = length (node_children n) →
  (∀ it, it ∈ kid_items db q d t n → R it) →
  Forall2 (λ id c, ∃ it, R it ∧ hl_id it = id ∧ hl_tree it = c ∧ hl_depth it = S d)
    (node_children n) (subtrees t).
Proof.
  destruct t as [|p v|p c|cs], n as [p' v'|p' c'|ids]; simpl; try done; intros Hs Hl HR.
  - constructor; [|constructor]. eexists. split; [apply HR; left|done].
  - by eapply branch_items_kids.
Qed.

(** ** New references *)

(** The cells after the nodes [D] got their references. *)
Definition upd_cell (D : gmap nat tree) (k : bool * nat) (c : Cell) : Cell :=
  match k, c with
  | (false, i), CNode n =>
      match D !! i with Some t => CNode (mkArenaNode (an_node n) (short (enc t))) | None => c end
  | _, _ => c
  end.
Definition upd (D : gmap nat tree) h : Heap := map_imap (λ k c, Some (upd_cell D k c)) h.

Lemma lookup_upd D h k : upd D h !! k = upd_cell D k <$> h !! k.
Proof. unfold upd. rewrite map_lookup_imap. by destruct (h !! k). Qed.

Lemma upd_union D h1 h2 : upd D (h1 ∪ h2) = upd D h1 ∪ upd D h2.
Proof.
  apply map_eq. intros k. rewrite lookup_upd, !lookup_union, !lookup_upd.
  by destruct (h1 !! k), (h2 !! k).
Qed.

Lemma upd_disjoint D h1 h2 : h1 ##ₘ h2 → upd D h1 ##ₘ upd D h2.
Proof.
  rewrite !map_disjoint_spec. intros Hd k x y. rewrite !lookup_upd, !fmap_Some.
  intros (x' & Hx & _) (y' & Hy & _). by eapply Hd.
Qed.

Lemma upd_other D h : (∀ i u, D !! i = Some u → h !! (false, i) = None) → upd D h = h.
Proof.
  intros HD. apply map_eq. intros [b i]. rewrite lookup_upd. destruct (h !! (b, i)) as [c|] eqn:E; [|done].
  simpl. f_equal. destruct b; [done|]. destruct c; [|done]. simpl. destruct (D !! i) as [u|] eqn:Eu; [|done].
  rewrite (HD i u Eu) in E. done.
Qed.

Lemma upd_node D i n :
  upd D (node_cell i n) =
    node_cell i (match D !! i with Some t => mkArenaNode (an_node n) (short (enc t)) | None => n end).
Proof.
  apply map_eq. intros k. rewrite lookup_upd. destruct (decide (k = (false, i))) as [->|Hk].
  - rewrite !lookup_singleton_eq. simpl. by destruct (D !! i).
  - by rewrite !lookup_singleton_ne.
Qed.

(** ** The walk over the changed nodes *)

Definition lev (levels : list (list Id)) (d : nat) : list Id := default [] (levels !! d).

Lemma lev_push levels depth id d :
  lev (push_level levels depth id) d = lev levels d ++ (if decide (d = depth) then [id] else []).
Proof.
  unfold push_level, lev. cbv zeta.
  set (ls := if (length levels <=? depth)%nat then levels ++ replicate (depth + 1 - length levels) [] else levels).
  assert (default [] (ls !! d) = default [] (levels !! d)) as E.
  { unfold ls. destruct (_ <=? _)%nat; [|done]. rewrite lookup_app.
    destruct (levels !! d); [done|]. simpl.
    destruct (replicate _ [] !! _) as [x|] eqn:Ex; [|done]. by apply lookup_replicate in Ex as [-> _]. }
  destruct (decide (d = depth)) as [->|Hne].
  - rewrite list_lookup_alter_eq, <- E. assert (depth < length ls)%nat as Hl.
    { unfold ls. destruct (Nat.leb_spec (length levels) depth); [|done].
      rewrite length_app, length_replicate. lia. }
    by apply lookup_lt_is_Some_2 in Hl as [x ->].
  - by rewrite list_lookup_alter_ne, app_nil_r.
Qed.

Definition Visit : Type := nat * Id * tree.
Definition visit_index (v : Visit) : nat := id_index v.1.2.
Definition at_depth (V : list Visit) (d : nat) : list (Id * tree) :=
  (λ v, (v.1.2, v.2)) <$> filter (λ v, v.1.1 = d) V.

(** The reference of the id is there already, or the node is among the visited. *)
Definition settled σ (V : list Visit) (d : nat) (id : Id) t : Prop :=
  (refs_to σ id t) ∨ (d, id, t) ∈ V.

Definition visit_ok σ (V : list Visit) (v : Visit) : Prop :=
  let '(d, id, t) := v in
  id_own id = true ∧ id_hash id = false ∧ is_empty t = false ∧
  ∃ n, lookup_node id σ = Some n ∧ an_ref n = [] ∧ same_shape t (an_node n) ∧
    Forall2 (settled σ V (S d)) (node_children (an_node n)) (subtrees t).

Lemma settled_mono σ V V' d id t : V ⊆ V' → settled σ V d id t → settled σ V' d id t.
Proof. intros Hs [?|?]; [by left|right; by apply Hs]. Qed.

Lemma visit_ok_mono σ V V' v : V ⊆ V' → visit_ok σ V v → visit_ok σ V' v.
Proof.
  destruct v as [[d id] t]. intros Hs (? & ? & ? & n & ? & ? & ? & Hc). split_and!; try done.
  exists n. split_and!; try done. eapply Forall2_impl; [exact Hc|]. intros id' t'. by apply settled_mono.
Qed.

(** What the walk does with one id. *)
Lemma held_cases σ it h :
  held (parent σ) it h → covers (own σ) h →
  (refs_to σ (hl_id it) (hl_tree it) ∧
   (negb (id_own (hl_id it)) || id_hash (hl_id it) = true ∨
    ∃ n, lookup_node (hl_id it) σ = Some n ∧ an_ref n ≠ [])) ∨
  (id_own (hl_id it) = true ∧ id_hash (hl_id it) = false ∧ is_empty (hl_tree it) = false ∧
   ∃ n h1, lookup_node (hl_id it) σ = Some n ∧ an_ref n = [] ∧
     h = node_cell (id_index (hl_id it)) n ∪ h1 ∧ h1 !! (false, id_index (hl_id it)) = None ∧
     content_is (hl_db it) (parent σ) (hl_at it) (hl_tree it) (an_node n) h1).
Proof.
  destruct it as [db q id d t]. unfold held, refs_to. cbn [hl_db hl_at hl_id hl_tree]. intros Hr Hc.
  pose proof (repr_empty_iff _ _ _ _ _ _ Hr) as Hid. destruct (is_empty t) eqn:He.
  { destruct t; try done. rewrite (proj2 Hid eq_refl). left. split; [done|]. by left. }
  assert (id ≠ id_empty) as Hne by (by intros ?%Hid).
  unfold node_ref. rewrite bool_decide_false by done. unfold tree_ref. rewrite He.
  apply repr_unfold in Hr; [|done]. destruct (id_hash id) eqn:Hh; cbn [andb] in Hr.
  - left. split; [|by left; rewrite orb_true_r]. unfold arena. destruct (id_own id) eqn:Ho.
    + destruct Hr as (hash & l & h' & -> & Hf & -> & Hhd & _).
      rewrite (covers_hash _ _ _ _ Hc (lookup_union_Some_l _ _ _ _ (lookup_singleton_eq _ _))).
      simpl. by rewrite short_hashed.
    + destruct Hr as (_ & _ & Hs). apply pshape_unfold in Hs; [|done]. rewrite Hh in Hs.
      destruct Hs as (_ & _ & Hhd & l & ->). simpl. by rewrite short_hashed.
  - destruct Hr as [_ Hr]. unfold lookup_node, arena. destruct (id_own id) eqn:Ho.
    + destruct Hr as (n & h1 & -> & Hf & Href & Hcont).
      pose proof (covers_node _ _ _ _ Hc (lookup_union_Some_l _ _ _ _ (lookup_singleton_eq _ _))) as Hn.
      destruct Href as [Href|Href].
      * right. split_and!; [done..|]. exists n, h1. split_and!; done.
      * left. rewrite Hn. simpl. rewrite Href. split; [done|]. right. exists n. split; [done|].
        rewrite Href. by apply short_nonempty.
    + destruct Hr as (_ & _ & Hs). apply pshape_unfold in Hs; [|done]. rewrite Hh in Hs.
      destruct Hs as (_ & _ & _ & n & -> & Hn & _). left. simpl. rewrite Hn. split; [done|]. by left.
Qed.

Definition stack_of (items : list Held) : list (Id * nat) := (λ it, (hl_id it, hl_depth it)) <$> items.

Record walked σ (items : list Held) h (levels : list (list Id)) (V : list Visit) (levels' : list (list Id))
    : Prop := {
  walked_levels d : lev levels' d = lev levels d ++ (at_depth V d).*1;
  walked_NoDup : NoDup (visit_index <$> V);
  walked_cells v : v ∈ V → is_Some (h !! (false, visit_index v));
  walked_visits v : v ∈ V → visit_ok σ V v;
  walked_items it : it ∈ items → settled σ V (hl_depth it) (hl_id it) (hl_tree it);
  walked_owned (D : gmap nat tree) :
    (∀ i u, D !! i = Some u → is_Some (h !! (false, i)) → ∃ v, v ∈ V ∧ visit_index v = i ∧ v.2 = u) →
    owned (parent σ) items (upd D h)
}.

Lemma walked_skip σ it items h1 h2 levels V levels' :
  h1 ##ₘ h2 → held (parent σ) it h1 → refs_to σ (hl_id it) (hl_tree it) →
  walked σ items h2 levels V levels' → walked σ (it :: items) (h1 ∪ h2) levels V levels'.
Proof.
  intros Hd Hit Href [Hl Hnd Hc Hv Hi Ho]. split; [done|done| |done| |].
  - intros v Hin. destruct (Hc v Hin) as [c Hcell]. exists c. by apply lookup_union_Some_r.
  - intros it' [->|Hin]%elem_of_cons; [by left|by apply Hi].
  - intros D HD. assert (upd D h1 = h1) as E1.
    { apply upd_other. intros i u Hu. destruct (h1 !! (false, i)) as [c|] eqn:Ei; [|done]. exfalso.
      destruct (HD i u Hu) as (v & Hin & <- & _); [exists c; by apply lookup_union_Some_l|].
      destruct (Hc v Hin) as [c' Hc']. rewrite map_disjoint_spec in Hd. by eapply Hd. }
    exists h1, (upd D h2). rewrite upd_union, E1. split_and!; [done| |done|].
    + rewrite <- E1. by apply upd_disjoint.
    + apply Ho. intros i u Hu [c Hc']. apply (HD i u Hu). exists c. by apply lookup_union_Some_r.
Qed.

Lemma walked_visit σ it items n h1 h2 levels V levels' :
  let i := id_index (hl_id it) in
  id_own (hl_id it) = true → id_hash (hl_id it) = false → is_empty (hl_tree it) = false →
  lookup_node (hl_id it) σ = Some n → an_ref n = [] →
  h1 !! (false, i) = None → node_cell i n ∪ h1 ##ₘ h2 →
  content_is (hl_db it) (parent σ) (hl_at it) (hl_tree it) (an_node n) h1 →
  walked σ (reverse (kid_items (hl_db it) (hl_at it) (hl_depth it) (hl_tree it) (an_node n)) ++ items)
    (h1 ∪ h2) (push_level levels (hl_depth it) (hl_id it)) V levels' →
  walked σ (it :: items) (node_cell i n ∪ h1 ∪ h2) levels
    ((hl_depth it, hl_id it, hl_tree it) :: V) levels'.
Proof.
  intros i Hown Hhash He Hl Href Hf Hd Hcont [Hlev Hnd Hc Hv Hi Ho].
  apply map_disjoint_union_l in Hd as [Hdc Hd12]. apply map_disjoint_singleton_l in Hdc as Hf2.
  assert (∀ v, v ∈ V → visit_index v ≠ i) as Hfresh.
  { intros v Hin Ei. destruct (Hc v Hin) as [c Hcell]. rewrite Ei in Hcell.
    rewrite lookup_union_r in Hcell by done. by rewrite Hf2 in Hcell. }
  apply (content_owned _ _ _ (hl_depth it)) in Hcont as (Hshape & Hlen & _).
  set (kids := kid_items _ _ _ _ _) in *. set (v0 := (hl_depth it, hl_id it, hl_tree it)).
  assert (V ⊆ v0 :: V) as Hsub by (intros v Hv'; by right). split.
  - intros d. rewrite Hlev, lev_push. unfold at_depth. rewrite filter_cons. cbn [fst].
    destruct (decide (d = hl_depth it)) as [->|Hne].
    + rewrite decide_True by done. rewrite <- app_assoc. done.
    + rewrite decide_False by done. by rewrite app_nil_r.
  - rewrite fmap_cons, NoDup_cons. split; [|done]. intros (v & Ei & Hin)%list_elem_of_fmap.
    by apply (Hfresh v Hin).
  - intros v [->|Hin]%elem_of_cons.
    + exists (CNode n). apply lookup_union_Some_l, lookup_union_Some_l, lookup_singleton_eq.
    + destruct (Hc v Hin) as [c Hcell]. exists c. rewrite <- map_union_assoc.
      rewrite lookup_union_r; [done|]. apply lookup_singleton_ne. intros [= E]. by apply (Hfresh v Hin).
  - intros v [->|Hin]%elem_of_cons; [|by eapply visit_ok_mono, Hv].
    split_and!; [done..|]. exists n. split_and!; [done..|].
    eapply Forall2_impl; [apply (kid_items_kids (hl_db it) (hl_at it) (hl_depth it) _ _
      (λ it', settled σ V (hl_depth it') (hl_id it') (hl_tree it'))); [done|done|]|].
    + intros it' Hin. apply Hi, elem_of_app. left. by apply elem_of_reverse.
    + intros id c (it' & Hset & <- & <- & Hdep). rewrite Hdep in Hset. by eapply settled_mono.
  - intros it' [->|Hin]%elem_of_cons; [right; left|]. eapply settled_mono, Hi; [done|].
    apply elem_of_app. by right.
  - intros D HD. rewrite <- map_union_assoc, upd_union, upd_node. 
    set (n' := match D !! i with Some t => mkArenaNode (an_node n) (short (enc t)) | None => n end).
    assert (owned (parent σ) (reverse kids ++ items) (upd D (h1 ∪ h2))) as Hown'.
    { apply Ho. intros j u Hu [c Hcell]. destruct (HD j u Hu) as (v & Hin & Ej & Eu).
      - exists c. rewrite <- map_union_assoc. apply lookup_union_Some_r; [|done].
        by apply map_disjoint_singleton_l, lookup_union_None.
      - apply elem_of_cons in Hin as [->|Hin]; [|by exists v]. exfalso. subst j.
        change (visit_index v0) with i in Hcell. rewrite lookup_union_r in Hcell by done. congruence. }
    apply owned_app in Hown' as (a & b & Eab & Hdab & Ha & Hb). rewrite Eab.
    assert (upd D (h1 ∪ h2) !! (false, i) = None) as Hnone.
    { rewrite lookup_upd, lookup_union_r, Hf2 by done. done. }
    rewrite Eab in Hnone. apply lookup_union_None in Hnone as [Hna Hnb].
    exists (node_cell i n' ∪ a), b. split_and!; [by rewrite map_union_assoc| | |done].
    + apply map_disjoint_union_l_2; [by apply map_disjoint_singleton_l|done].
    + apply repr_node; [done|done|]. split; [done|]. rewrite Hown. exists n', a.
      assert (an_node n' = an_node n) as En by (unfold n'; by destruct (D !! i)).
      split_and!; [done|done| |].
      * unfold n'. destruct (D !! i) as [u|] eqn:Eu; [|by left]. right. simpl.
        destruct (HD i u Eu) as (v & Hin & Ei & <-).
        { exists (CNode n). apply lookup_union_Some_l, lookup_union_Some_l, lookup_singleton_eq. }
        apply elem_of_cons in Hin as [->|Hin]; [done|]. by destruct (Hfresh v Hin).
      * rewrite En. apply (content_owned _ _ _ (hl_depth it)). split_and!; [done|done|].
        by apply owned_reverse.
Qed.

Lemma kid_items_few db q d t n k :
  canon k t → same_shape t n → length (subtrees t) = length (node_children n) →
  (length (kid_items db q d t n) ≤ 16)%nat ∧
  ∀ it, it ∈ kid_items db q d t n → ∃ k', canon k' (hl_tree it).
Proof.
  intros Hcan Hs Hl. pose proof (kid_items_ids db q d t n Hs Hl) as E.
  apply (f_equal length) in E. rewrite !length_fmap in E. rewrite E, <- Hl.
  destruct t as [|p v|p c|cs], n as [p' v'|p' c'|ids]; try done; simpl.
  - split; [lia|]. by intros it ?%elem_of_nil.
  - split; [lia|]. intros it ->%list_elem_of_singleton. destruct Hcan as (_ & _ & _ & _ & Hc). eauto.
  - apply canon_branch in Hcan as (_ & H16 & _ & Hcs). split; [lia|].
    assert (∀ i cs ids, (∀ j c, cs !! j = Some c → canon (k - 1) c) →
      ∀ it, it ∈ branch_items db q (S d) i cs ids → ∃ k', canon k' (hl_tree it)) as Hgo.
    { clear. intros i cs. revert i. induction cs as [|c cs IH]; intros i [|id ids] Hcs it; simpl;
        try by intros ?%elem_of_nil.
      intros [->|Hin]%elem_of_cons; [exists (k - 1)%nat; by apply (Hcs 0%nat)|].
      eapply IH; [|exact Hin]. intros j c' Hj. by apply (Hcs (S j)). }
    by apply Hgo.
Qed.

(** The walk ends, and what it leaves is the levels of changed nodes. *)
Lemma walk_spec σ fuel items h levels :
  owned (parent σ) items h → covers (own σ) h → (∀ it, it ∈ items → ∃ k, canon k (hl_tree it)) →
  (length items + 16 * size h ≤ fuel)%nat →
  ∃ V levels', commit_walk fuel σ (stack_of items) levels = Some levels' ∧
    walked σ items h levels V levels'.
Proof.
  revert items h levels. induction fuel as [|fuel IH]; intros [|it items] h levels Hown Hcov Hcan Hfuel;
    [|simpl in Hfuel; lia| |].
  1, 2: simpl in Hown; subst h; exists [], levels; split; [done|]; split; try done;
    [by intros d; rewrite app_nil_r|constructor|by intros v ?%elem_of_nil..|by intros it ?%elem_of_nil].
  destruct Hown as (h1 & h2 & -> & Hd & Hit & Hown). cbn [length] in Hfuel.
  rewrite map_size_disj_union in Hfuel by done.
  assert (covers (own σ) h1) as Hcov1 by (eapply covers_mono, Hcov; by apply map_union_subseteq_l).
  assert (covers (own σ) h2) as Hcov2 by (eapply covers_mono, Hcov; by apply map_union_subseteq_r).
  cbn [stack_of fmap list_fmap commit_walk]. fold (stack_of items).
  destruct (held_cases σ it h1 Hit Hcov1) as [[Href Hskip]|(Ho & Hh & He & n & hk & Hl & Hn & -> & Hf & Hc)].
  - destruct (IH items h2 levels) as (V & levels' & Hw & Hwd); [done|done|by intros it' ?; apply Hcan; right|lia|].
    exists V, levels'. split; [|by apply walked_skip].
    destruct (negb (id_own (hl_id it)) || id_hash (hl_id it)); [done|].
    destruct Hskip as [?|(n & -> & Hn)]; [done|]. simpl. destruct (an_ref n); [done|].
    unfold len. simpl length. rewrite (proj2 (Z.eqb_neq _ _)) by lia. done.
  - rewrite Ho, Hh, Hl. cbn [negb orb mbind option_bind]. rewrite Hn. cbn [len length Z.of_nat Z.eqb negb].
    pose proof (proj1 (content_owned _ _ _ (hl_depth it) _ _ _) Hc) as (Hs & Hlen & Hkids).
    destruct (Hcan it ltac:(left)) as [k Hk].
    destruct (kid_items_few (hl_db it) (hl_at it) (hl_depth it) _ _ k Hk Hs Hlen) as [H16 Hkcan].
    set (kids := kid_items _ _ _ _ _) in *.
    assert (hk ##ₘ h2) as Hdk by (apply map_disjoint_union_l in Hd; tauto).
    rewrite map_size_disj_union, map_size_singleton in Hfuel by (by apply map_disjoint_singleton_l).
    destruct (IH (reverse kids ++ items) (hk ∪ h2) (push_level levels (hl_depth it) (hl_id it)))
      as (V & levels' & Hw & Hwd).
    + apply owned_app. exists hk, h2. split_and!; [done|done|by apply owned_reverse|done].
    + eapply covers_mono, Hcov. rewrite <- map_union_assoc. apply map_union_subseteq_r.
      apply map_disjoint_singleton_l, lookup_union_None. split; [done|].
      apply map_disjoint_union_l in Hd as [Hd _]. by apply map_disjoint_singleton_l in Hd.
    + intros it' [Hin|Hin]%elem_of_app; [apply Hkcan; by apply elem_of_reverse|apply Hcan; by right].
    + rewrite length_app, length_reverse, map_size_disj_union by done. lia.
    + exists ((hl_depth it, hl_id it, hl_tree it) :: V), levels'. split; [|by apply walked_visit].
      rewrite <- Hw. unfold stack_of. rewrite fmap_app, fmap_reverse. unfold kids.
      rewrite kid_items_ids by done. by destruct (an_node n).
Qed.

(** ** References written *)

Definition with_refs (D : list (Id * tree)) σ : Tries :=
  foldl (λ σ e, set_ref σ e.1 (short (enc e.2))) σ D.

Definition consistent (D : list (Id * tree)) : Prop :=
  ∀ e e', e ∈ D → e' ∈ D → id_index e.1 = id_index e'.1 → e.2 = e'.2.

Lemma with_refs_app D1 D2 σ : with_refs (D1 ++ D2) σ = with_refs D2 (with_refs D1 σ).
Proof. apply foldl_app. Qed.

Lemma with_refs_snoc D e σ : with_refs (D ++ [e]) σ = set_ref (with_refs D σ) e.1 (short (enc e.2)).
Proof. apply with_refs_app. Qed.

Lemma with_refs_rest D σ :
  parent (with_refs D σ) = parent σ ∧ na_by_hash (own (with_refs D σ)) = na_by_hash (own σ).
Proof. induction D as [|e D IH] using rev_ind; [done|]. by rewrite with_refs_snoc. Qed.

Lemma set_ref_nodes σ id r :
  na_nodes (own (set_ref σ id r)) =
    alter (λ n, mkArenaNode (an_node n) r) (id_index id) (na_nodes (own σ)).
Proof. done. Qed.

Lemma with_refs_out D σ i :
  (∀ e, e ∈ D → id_index e.1 ≠ i) → na_nodes (own (with_refs D σ)) !! i = na_nodes (own σ) !! i.
Proof.
  induction D as [|e D IH] using rev_ind; [done|]. intros HD. setoid_rewrite elem_of_app in HD.
  rewrite with_refs_snoc, set_ref_nodes, list_lookup_alter_ne; [by apply IH; eauto|].
  apply HD. right. left.
Qed.

Lemma with_refs_node D σ i n :
  na_nodes (own σ) !! i = Some n → ∃ r, na_nodes (own (with_refs D σ)) !! i = Some (mkArenaNode (an_node n) r).
Proof.
  intros Hn. induction D as [|e D [r Hr]] using rev_ind; [exists (an_ref n); by destruct n|].
  rewrite with_refs_snoc, set_ref_nodes. destruct (decide (id_index e.1 = i)) as [->|Hne].
  - eexists. by rewrite list_lookup_alter_eq, Hr.
  - exists r. by rewrite list_lookup_alter_ne.
Qed.

Lemma with_refs_in D σ id t n :
  consistent D → (id, t) ∈ D → na_nodes (own σ) !! id_index id = Some n →
  na_nodes (own (with_refs D σ)) !! id_index id = Some (mkArenaNode (an_node n) (short (enc t))).
Proof.
  intros Hcon Hin Hn. induction D as [|e D IH] using rev_ind; [by apply elem_of_nil in Hin|].
  rewrite with_refs_snoc, set_ref_nodes. destruct (decide (id_index e.1 = id_index id)) as [Ei|Ei].
  - assert (e.2 = t) as -> by (apply (Hcon e (id, t)); [apply elem_of_app; right; left|done|done]).
    destruct (with_refs_node D σ _ _ Hn) as [r Hr]. by rewrite Ei, list_lookup_alter_eq, Hr.
  - rewrite list_lookup_alter_ne by done. apply IH.
    + intros e1 e2 ? ?. apply Hcon; apply elem_of_app; by left.
    + apply elem_of_app in Hin as [?|<-%list_elem_of_singleton]; done.
Qed.

(** ** The batch of one level *)

(** The spans of the long encodings, with the nodes they belong to. *)
Definition batch_ok (b : HashBatch) (L : list (Id * tree)) : Prop :=
  Forall2 (λ s e, s.1.1 = e.1 ∧ (32 ≤ s.2)%nat ∧ (s.1.2 + s.2 ≤ length (hb_enc b))%nat ∧
    take s.2 (drop s.1.2 (hb_enc b)) = enc e.2) (hb_long b) L.

Lemma short_length t : short (enc t) = if (32 <=? length (enc t))%nat then keccak (enc t) else enc t.
Proof.
  unfold short, len. destruct (Z.leb_spec 32 (Z.of_nat (length (enc t)))), (Nat.leb_spec 32 (length (enc t)));
    done || lia.
Qed.

Lemma batch_hash_spec b L :
  batch_ok b L → ∃ D, D ≡ₚ L ∧ batch_hash b = (λ e, (e.1, short (enc e.2))) <$> D.
Proof.
  intros Hb. unfold batch_hash. set (cmp := λ x y : Id * nat * nat, _).
  destruct (Permutation_Forall2 (Permutation_sym (sort_by_perm cmp (hb_long b))) Hb) as (D & HD & HF).
  exists D. split; [by symmetry|]. clear -HF.
  induction HF as [|s e ss D (Hid & H32 & Hlen & Hspan) _ IH]; [done|].
  rewrite !fmap_cons, IH, Hspan, Hid. do 2 f_equal. rewrite short_length.
  assert (s.2 = length (enc e.2)) as El.
  { rewrite <- Hspan, length_take, length_drop. lia. }
  by rewrite (proj2 (Nat.leb_le _ _)) by lia.
Qed.

Lemma batch_push_spec b L id t :
  batch_ok b L →
  let '(r, b') := batch_push id (length (hb_enc b)) (mkHashBatch (hb_enc b ++ enc t) (hb_long b)) in
  match r with
  | Some r => r = short (enc t) ∧ batch_ok b' L
  | None => batch_ok b' (L ++ [(id, t)])
  end.
Proof.
  intros Hb. unfold batch_push. cbn [hb_enc hb_long]. rewrite length_app, Nat.add_sub_swap, Nat.sub_diag by lia.
  cbn [Nat.add]. destruct (32 <=? length (enc t))%nat eqn:E.
  - apply Nat.leb_le in E. unfold batch_ok. cbn [hb_enc hb_long]. apply Forall2_app.
    + eapply Forall2_impl; [exact Hb|]. intros s e (? & ? & Hl & Hs). rewrite length_app. split_and!; [done|done|lia|].
      rewrite drop_app_le, take_app_le by (rewrite ?length_drop; lia). done.
    + constructor; [|constructor]. cbn. rewrite length_app. split_and!; [done|done|lia|].
      by rewrite drop_app_length, firstn_all.
  - rewrite drop_app_length, take_app_length, short_length, E. split; [done|]. exact Hb.
Qed.

Lemma foldl_set_ref D σ :
  foldl (λ σ e, set_ref σ e.1 e.2) σ ((λ e, (e.1, short (enc e.2))) <$> D) = with_refs D σ.
Proof. revert σ. induction D as [|e D IH]; intros σ; [done|]. apply IH. Qed.

Lemma commit_level_spec σ0 D all vs b L :
  (∀ D', D ⊆ D' → D' ⊆ all → ∀ id t, (id, t) ∈ vs → encode id (with_refs D' σ0) = Some (enc t)) →
  D ⊆ all → vs ⊆ all → batch_ok b L →
  ∃ D1, commit_level vs.*1 (with_refs D σ0) b = Some (with_refs (D ++ D1) σ0) ∧ D1 ≡ₚ vs ++ L.
Proof.
  revert D b L. induction vs as [|[id t] vs IH]; intros D b L Henc HD Hvs Hb.
  - destruct (batch_hash_spec b L Hb) as (D1 & HD1 & Hh). exists D1. split; [|done].
    cbn [fmap list_fmap commit_level]. rewrite Hh, foldl_set_ref. by rewrite with_refs_app.
  - cbn [fmap list_fmap commit_level fst]. rewrite (Henc D ltac:(done) HD id t ltac:(left)).
    cbn [mbind option_bind]. pose proof (batch_push_spec b L id t Hb) as Hp.
    assert (vs ⊆ all) as Hvs' by (intros e He; apply Hvs; by right).
    destruct (batch_push _ _ _) as [[r|] b'].
    + destruct Hp as [-> Hb'].
      change (set_ref (with_refs D σ0) id (short (enc t))) with
        (set_ref (with_refs D σ0) (id, t).1 (short (enc (id, t).2))). rewrite <- with_refs_snoc.
      destruct (IH (D ++ [(id, t)]) b' L) as (D1 & Hc & HD1).
      * intros D' HD' Hall id' t' Hin. apply Henc; [|done|by right].
        intros e He. apply HD', elem_of_app. by left.
      * intros e [He|He]%elem_of_app; [by apply HD|].
        apply list_elem_of_singleton in He as ->. apply Hvs. left.
      * done.
      * done.
      * exists ((id, t) :: D1). split; [by rewrite <- app_assoc in Hc|]. simpl. by rewrite HD1.
    + destruct (IH D b' (L ++ [(id, t)])) as (D1 & Hc & HD1); [|done|done|done|].
      * intros D' HD' Hall id' t' Hin. apply Henc; [done|done|by right].
      * exists D1. split; [done|]. rewrite HD1. simpl. rewrite app_assoc. by rewrite <- Permutation_cons_append.
Qed.

(** ** All levels *)

Section levels.
Context (σ0 : Tries) (V : list Visit).
Hypothesis HND : NoDup (visit_index <$> V).
Hypothesis HV : ∀ v, v ∈ V → visit_ok σ0 V v.
Let visited : list (Id * tree) := (λ v, (v.1.2, v.2)) <$> V.

Lemma visited_elem e : e ∈ visited ↔ ∃ d, (d, e.1, e.2) ∈ V.
Proof.
  unfold visited. rewrite list_elem_of_fmap. split.
  - intros (((d, id), t) & -> & Hin). by exists d.
  - intros [d Hin]. exists (d, e.1, e.2). by destruct e.
Qed.

Lemma visit_unique v v' : v ∈ V → v' ∈ V → visit_index v = visit_index v' → v = v'.
Proof.
  intros (i & Hi)%list_elem_of_lookup (j & Hj)%list_elem_of_lookup E.
  assert (i = j) as ->; [|congruence]. eapply NoDup_lookup; [exact HND|..].
  - by rewrite list_lookup_fmap, Hi.
  - rewrite list_lookup_fmap, Hj. simpl. by rewrite E.
Qed.

Lemma visited_consistent D : D ⊆ visited → consistent D.
Proof.
  intros HD e e' [d Hin]%HD%visited_elem [d' Hin']%HD%visited_elem E.
  by pose proof (visit_unique _ _ Hin Hin' E) as [= _ _ ->].
Qed.

Lemma refs_kept D id t : D ⊆ visited → refs_to σ0 id t → refs_to (with_refs D σ0) id t.
Proof.
  intros HD. unfold refs_to, node_ref, lookup_node, arena. destruct (with_refs_rest D σ0) as [Ep Eb].
  destruct (bool_decide (id = id_empty)); [done|].
  destruct (id_hash id) eqn:Hh, (id_own id) eqn:Ho; rewrite ?Ep, ?Eb; try done.
  intros Hr. rewrite with_refs_out; [done|]. intros e [d Hin]%HD%visited_elem Ei.
  destruct (HV _ Hin) as (Ho' & _ & _ & n & Hl & Hn & _). unfold lookup_node, arena in Hl.
  rewrite Ho', Ei in Hl. rewrite Hl in Hr. simpl in Hr. rewrite Hn in Hr. unfold tree_ref in Hr.
  destruct (is_empty t) eqn:He; [done|]. injection Hr as Hr. by destruct (short_nonempty t He).
Qed.

Lemma refs_written D id t : D ⊆ visited → (id, t) ∈ D → refs_to (with_refs D σ0) id t.
Proof.
  intros HD Hin. pose proof (HD _ Hin) as [d Hv]%visited_elem.
  destruct (HV _ Hv) as (Ho & Hh & He & n & Hl & _). cbn [fst snd] in *.
  unfold refs_to, node_ref, lookup_node, arena in *. rewrite Hh, Ho in *.
  rewrite bool_decide_false by (by intros ->).
  rewrite (with_refs_in D σ0 id t n) by (done || by apply visited_consistent).
  simpl. unfold tree_ref. by rewrite He.
Qed.

Lemma encode_visited D d id t :
  D ⊆ visited → (∀ id' t', (S d, id', t') ∈ V → (id', t') ∈ D) → (d, id, t) ∈ V →
  encode id (with_refs D σ0) = Some (enc t).
Proof.
  intros HD Hdeep Hin. destruct (HV _ Hin) as (Ho & Hh & He & n & Hl & Hn & Hs & Hc).
  unfold lookup_node, arena in Hl. rewrite Ho in Hl.
  destruct (with_refs_node D σ0 _ _ Hl) as [r Hr].
  eapply (encode_tree _ _ (mkArenaNode (an_node n) r)); [|done|].
  - unfold lookup_node, arena. by rewrite Ho.
  - eapply Forall2_impl; [exact Hc|]. intros id' t' [Href|Hv]; [by apply refs_kept|].
    apply refs_written; [done|by apply Hdeep].
Qed.

Lemma at_depth_elem d e : e ∈ at_depth V d ↔ (d, e.1, e.2) ∈ V.
Proof.
  unfold at_depth. rewrite list_elem_of_fmap. setoid_rewrite list_elem_of_filter. split.
  - intros (((d', id), t) & -> & Ed & Hin). simpl in *. by subst d'.
  - intros Hin. exists (d, e.1, e.2). by destruct e.
Qed.

Lemma commit_levels_spec levels d :
  (∀ k, lev levels k = (at_depth V (d + k)).*1) → (∀ v, v ∈ V → (v.1.1 < d + length levels)%nat) →
  ∃ D, commit_levels levels σ0 = Some (with_refs D σ0) ∧
    ∀ e, e ∈ D ↔ ∃ d', (d ≤ d')%nat ∧ (d', e.1, e.2) ∈ V.
Proof.
  revert d. induction levels as [|level levels IH]; intros d Hlev Hmax.
  { exists []. split; [done|]. intros e. split; [by intros ?%elem_of_nil|].
    intros (d' & Hd & Hin). apply Hmax in Hin. simpl in Hin. lia. }
  destruct (IH (S d)) as (D & HC & HD).
  { intros k. rewrite Nat.add_succ_comm. apply (Hlev (S k)). }
  { intros v Hin. specialize (Hmax v Hin). simpl in Hmax. lia. }
  assert (D ⊆ visited) as HDv.
  { intros e (d' & _ & Hin)%HD. apply visited_elem. eauto. }
  destruct (commit_level_spec σ0 D visited (at_depth V d) (mkHashBatch [] []) []) as (D1 & HC1 & HD1).
  - intros D' HD' Hall id t Hin%at_depth_elem. eapply encode_visited; [done| |exact Hin].
    intros id' t' Hin'. apply HD', HD. exists (S d). split; [lia|done].
  - done.
  - intros e Hin%at_depth_elem. apply visited_elem. eauto.
  - constructor.
  - exists (D ++ D1). cbn [commit_levels]. rewrite HC. cbn [mbind option_bind].
    specialize (Hlev O). rewrite Nat.add_0_r in Hlev. cbn in Hlev. rewrite Hlev. split; [done|].
    intros e. rewrite elem_of_app, HD1, app_nil_r, HD, at_depth_elem. split.
    + intros [(d' & ? & ?)|?]; [exists d'|exists d]; (split; [lia|done]).
    + intros (d' & Hle & Hin). destruct (decide (d' = d)) as [->|]; [by right|]. left. exists d'.
      split; [lia|done].
Qed.
End levels.

(** ** Commits *)

Lemma covers_size a h : covers a h → (size h ≤ length (na_nodes a) + length (na_by_hash a))%nat.
Proof.
  intros [Hn Hh]. rewrite <- length_map_to_list, <- (length_fmap fst).
  set (all := ((λ i, (false, i)) <$> seq 0 (length (na_nodes a))) ++ ((λ i, (true, i)) <$> seq 0 (length (na_by_hash a)))).
  assert (length all = length (na_nodes a) + length (na_by_hash a))%nat as <-.
  { unfold all. by rewrite length_app, !length_fmap, !length_seq. }
  apply submseteq_length, NoDup_submseteq; [apply NoDup_fst_map_to_list|].
  intros [b i] ([k c] & [= <-] & Hc%elem_of_map_to_list)%list_elem_of_fmap. apply elem_of_app.
  destruct b; [right|left]; apply list_elem_of_fmap; exists i; (split; [done|]); apply elem_of_seq.
  - destruct (Hh i c Hc) as (e & _ & Hl%lookup_lt_Some). lia.
  - destruct (Hn i c Hc) as (n & _ & Hl%lookup_lt_Some). lia.
Qed.

(** The cells of a state after the references are written. *)
Definition refs_map (D : list (Id * tree)) : gmap nat tree :=
  list_to_map ((λ e, (id_index e.1, e.2)) <$> D).

Lemma refs_map_Some D i u :
  consistent D → refs_map D !! i = Some u ↔ ∃ id, (id, u) ∈ D ∧ id_index id = i.
Proof.
  intros Hcon. unfold refs_map. split.
  - intros H%elem_of_list_to_map_2. apply list_elem_of_fmap in H as ([id t] & [= -> ->] & Hin). eauto.
  - intros (id & Hin & <-). apply elem_of_list_to_map_1'.
    + intros y ([id' t'] & [= E ->] & Hin')%list_elem_of_fmap. by apply (Hcon (id, u) (id', t')).
    + apply list_elem_of_fmap. by exists (id, u).
Qed.

Lemma covers_refs D σ h :
  consistent D → covers (own σ) h → covers (own (with_refs D σ)) (upd (refs_map D) h).
Proof.
  intros Hcon [Hn Hh]. split; intros i c; rewrite lookup_upd, fmap_Some; intros (c0 & Hc & ->).
  - destruct (Hn i c0 Hc) as (n & -> & Hl). simpl. destruct (refs_map D !! i) as [u|] eqn:E.
    + apply refs_map_Some in E as (id & Hin & <-); [|done]. eexists. split; [done|]. by eapply with_refs_in.
    + exists n. split; [done|]. rewrite with_refs_out; [done|]. intros [id u] Hin Ei.
      assert (refs_map D !! i = Some u) by (apply refs_map_Some; eauto). congruence.
  - destruct (Hh i c0 Hc) as (e & -> & Hl). exists e. split; [done|]. by rewrite (proj2 (with_refs_rest D σ)).
Qed.

Lemma commit_spec old_levels items P0 hf h σ :
  good P0 hf h σ → owned (parent σ) items h →
  (∀ it, it ∈ items → hl_depth it = O ∧ ∃ k, canon k (hl_tree it)) →
  ∃ h' σ', commit old_levels (hl_id <$> items) σ = Some (tree_root ∘ hl_tree <$> items, σ') ∧
    good P0 hf h' σ' ∧ owned (parent σ') items h' ∧ parent σ' = parent σ.
Proof.
  intros [Hp Hle Hc Hd] Hown Hits. unfold commit. set (fuel := (_ + _)%nat).
  assert (covers (own σ) h) as Hch by (eapply covers_mono, Hc; by apply map_union_subseteq_l).
  assert (reverse ((λ r, (r, O)) <$> (hl_id <$> items)) = stack_of (reverse items)) as ->.
  { unfold stack_of. rewrite fmap_reverse, <- list_fmap_compose. f_equal. apply list_fmap_ext.
    intros i it Hi%list_elem_of_lookup_2. simpl. by rewrite (proj1 (Hits it Hi)). }
  destruct (walk_spec σ fuel (reverse items) h (replicate old_levels [])) as (V & levels & Hw & HW).
  { by apply owned_reverse. }
  { done. }
  { intros it Hin. rewrite elem_of_reverse in Hin. by destruct (Hits it Hin). }
  { pose proof (covers_size _ _ Hch). unfold fuel. rewrite length_reverse, length_fmap. lia. }
  destruct HW as [Hlev Hnd Hcells Hvis Hset Hupd]. cbn [mbind option_bind]. rewrite Hw. cbn [mbind option_bind].
  assert (∀ d, lev levels d = (at_depth V d).*1) as Hlev'.
  { intros d. rewrite Hlev. unfold lev. destruct (replicate old_levels [] !! d) as [l|] eqn:E; [|done].
    by apply lookup_replicate in E as [-> _]. }
  destruct (commit_levels_spec σ V Hnd Hvis levels 0) as (D & HC & HD); [done| |].
  { intros [[d id] t] Hin. simpl. assert (id ∈ lev levels d) as Hin'.
    { rewrite Hlev'. apply list_elem_of_fmap. exists (id, t). split; [done|]. by apply at_depth_elem. }
    unfold lev in Hin'. destruct (levels !! d) eqn:E; [by eapply lookup_lt_Some|by apply elem_of_nil in Hin']. }
  rewrite HC. cbn [mbind option_bind].
  assert (D ⊆ (λ v, (v.1.2, v.2)) <$> V) as HDv by (intros e (d & _ & ?)%HD; apply visited_elem; eauto).
  assert (consistent D) as Hcon by (by eapply visited_consistent).
  destruct (with_refs_rest D σ) as [Ep _].
  assert (∀ it, it ∈ items → refs_to (with_refs D σ) (hl_id it) (hl_tree it)) as Hrefs.
  { intros it Hin. destruct (Hset it) as [?|Hv]; [by apply elem_of_reverse|by eapply refs_kept|].
    eapply refs_written; [done|done|done|]. apply HD. exists (hl_depth it). split; [lia|done]. }
  exists (upd (refs_map D) h), (with_refs D σ). rewrite Ep. split_and!; [| | |done].
  - assert (mapM (λ root, node_ref root (with_refs D σ)) (hl_id <$> items) = Some (tree_ref ∘ hl_tree <$> items))
      as ->.
    { clear -Hrefs. induction items as [|it items IH]; [done|]. rewrite !fmap_cons. cbn [mapM].
      rewrite (Hrefs it) by left. cbn [mbind option_bind]. rewrite IH; [done|]. intros it' ?. apply Hrefs. by right. }
    cbn [mbind option_bind]. do 2 f_equal. rewrite <- list_fmap_compose. apply list_fmap_ext.
    intros i it _. simpl. unfold tree_ref. destruct (is_empty (hl_tree it)) eqn:He; [by destruct (hl_tree it)|].
    by apply ref_root_tree.
  - split; [by rewrite Ep|by rewrite Ep| |].
    + assert (upd (refs_map D) (h ∪ hf) = upd (refs_map D) h ∪ hf) as <-; [|by apply covers_refs].
      rewrite upd_union. f_equal. apply upd_other. intros i u (id & Hin & <-)%refs_map_Some; [|done].
      apply HD in Hin as (d & _ & Hin). destruct (Hcells _ Hin) as [c Hcell].
      by eapply map_disjoint_Some_l.
    + apply map_disjoint_spec. intros k x y. rewrite lookup_upd, fmap_Some. intros (x' & Hx & _) Hy.
      rewrite map_disjoint_spec in Hd. by eapply Hd.
  - apply owned_reverse. apply Hupd. intros i u (id & Hin & <-)%refs_map_Some _; [|done].
    apply HD in Hin as (d & _ & Hin). by exists (d, id, u).
Qed.
End commits.
