(* ===== verification/MerkleTries.v ===== *)
(** * The tries of a block as maps

    The contract of [Tries] in [builder/src/merge/trie.rs]: opened tries are maps
    from 32-byte keys to values, [put] updates one of them and leaves the others
    alone, and [commit] returns for each the Merkle-Patricia root of its content,
    whatever the updates that led to it. The contract needs every opened trie to
    have cells of its own; two opens of one root that land in the own arena share
    a cell, and an update through one is seen through the other. *)

From S2P Require Import Prelude Types Submission Rlp MergeTrie TrieSpec TrieArena TrieLoad TriePut TrieCommit.

(** ** Keys *)

Definition key32 (k : Bytes) : Prop := length k = 32%nat ∧ Forall is_byte k.

Lemma to_nibbles_length k : length (to_nibbles k) = (2 * length k)%nat.
Proof. induction k as [|b k IH]; simpl; lia. Qed.

Lemma nibbles_of_byte b :
  is_byte b → is_nibble (Z.shiftr b 4) ∧ is_nibble (Z.land b 0x0f) ∧ Z.shiftr b 4 * 16 + Z.land b 0x0f = b.
Proof.
  unfold is_byte, is_nibble. intros Hb. change 0x0f with (Z.ones 4).
  rewrite Z.land_ones, Z.shiftr_div_pow2 by lia. change (2 ^ 4) with 16.
  pose proof (Z_div_mod_eq_full b 16). pose proof (Z.mod_pos_bound b 16). lia.
Qed.

Lemma to_nibbles_key k : key32 k → key 64 (to_nibbles k).
Proof.
  intros [Hl Hb]. split; [rewrite to_nibbles_length; lia|]. clear Hl.
  induction Hb as [|b k Hb _ IH]; simpl; [constructor|].
  destruct (nibbles_of_byte b Hb) as (? & ? & _). constructor; [done|]. by constructor.
Qed.

Lemma to_nibbles_inj k k' :
  Forall is_byte k → Forall is_byte k' → to_nibbles k = to_nibbles k' → k = k'.
Proof.
  intros Hk. revert k'. induction Hk as [|b k Hb _ IH]; intros [|b' k'] Hk'; simpl; try done.
  apply Forall_cons in Hk' as [Hb' Hk']. intros [= E1 E2 E3]. f_equal; [|by apply IH].
  destruct (nibbles_of_byte b Hb) as (_ & _ & <-), (nibbles_of_byte b' Hb') as (_ & _ & <-). congruence.
Qed.

Lemma to_nibbles_surj n : ∀ m, Forall is_nibble n → length n = (2 * m)%nat →
  ∃ k, length k = m ∧ Forall is_byte k ∧ to_nibbles k = n.
Proof.
  intros m. revert n. induction m as [|m IH]; intros n Hn Hl.
  { destruct n; [by exists []|done]. }
  destruct n as [|x [|y n]]; simpl in Hl; [lia..|]. apply Forall_cons in Hn as [Hx [Hy Hn]%Forall_cons].
  destruct (IH n Hn) as (k & Hk & Hb & <-); [lia|]. unfold is_nibble in Hx, Hy.
  exists (x * 16 + y :: k). split_and!; [simpl; lia|constructor; [unfold is_byte; lia|done]|]. simpl.
  change 0x0f with (Z.ones 4). rewrite Z.land_ones, Z.shiftr_div_pow2 by lia. change (2 ^ 4) with 16.
  rewrite Z.div_add_l, Z.div_small by lia.
  by rewrite Z.add_0_r, (Z.add_comm (x * 16) y), Z_mod_plus_full, Z.mod_small by lia.
Qed.

(** ** Contents *)

Definition content (t : tree) (k : Bytes) : option Bytes := tlookup t (to_nibbles k).
Definition map_put (m : Bytes → option Bytes) (key : Bytes) (value : option Bytes) : Bytes → option Bytes :=
  λ k, if decide (k = key) then value else m k.

Lemma content_unique t u :
  canon 64 t → canon 64 u → (∀ k, key32 k → content t k = content u k) → t = u.
Proof.
  intros Ht Hu Hc. apply (canon_unique t u 64); [done|done|]. intros n [Hl Hn].
  destruct (to_nibbles_surj n 32 Hn) as (k & Hk & Hb & <-); [done|]. by apply Hc.
Qed.

Lemma content_put t key value k :
  canon 64 t → key32 key → key32 k →
  content (tput t (to_nibbles key) value).1 k = map_put (content t) key value k.
Proof.
  intros Hc Hkey Hk. unfold content, map_put.
  rewrite (tput_lookup t 64) by (done || by apply to_nibbles_key).
  destruct (decide (k = key)) as [->|Hne]; [by rewrite decide_True|].
  rewrite decide_False; [done|]. intros E. apply Hne. destruct Hk, Hkey. by apply to_nibbles_inj.
Qed.

Section tries.
Context `{KE : Keccak, GR : Growth, PS : !ParentState}.
Implicit Types (σ : Tries) (t : tree).

(** A trie that is open: its database, the id of its root and the map it is. *)
Record Trie := mkTrie {
  tr_db : TrieDB;
  tr_root : Id;
  tr_map : Bytes → option Bytes
}.

(** The tree a held id stands for has the content of the trie. *)
Definition tree_has t (m : Bytes → option Bytes) : Prop :=
  canon 64 t ∧ values_ok t ∧ ∀ k, key32 k → content t k = m k.

Definition stands_for (it : Held) (T : Trie) : Prop :=
  hl_db it = tr_db T ∧ hl_at it = [] ∧ hl_id it = tr_root T ∧ hl_depth it = O ∧
  tree_has (hl_tree it) (tr_map T).

(** The arenas hold these tries, each in cells of its own. *)
Definition tries_are σ (Ts : list Trie) : Prop :=
  ∃ items h, good (parent σ) ∅ h σ ∧ owned (parent σ) items h ∧ Forall2 stands_for items Ts.

Lemma values_put t key value :
  values_ok t → (∀ v, value = Some v → value_ok v) → values_ok (tput t key value).1.
Proof.
  intros Ht Hv. revert key Ht.
  assert (∀ q u, values_ok u → values_ok (tprefix q u)) as Hpre by (intros q [| | |]; done).
  assert (∀ cs i u, values_ok (TBranch cs) → values_ok u → values_ok (TBranch (<[i := u]> cs))) as Hins.
  { intros cs i u Hcs Hu. apply values_branch. intros j c [(_ & <- & _)|(_ & Hj)]%list_lookup_insert_Some; [done|].
    by eapply (proj1 (values_branch cs)). }
  assert (∀ p x old y new, values_ok old → values_ok new → values_ok (tfork p x old y new)) as Hfork.
  { intros p x old y new Ho Hn. unfold tfork.
    assert (values_ok (TBranch (<[Z.to_nat y := new]> (<[Z.to_nat x := old]> no_children)))) as H.
    { apply Hins; [|done]. apply Hins; [|done]. apply values_branch. intros i c Hi.
      apply lookup_replicate in Hi as [-> _]. done. }
    unfold tbranch_under. by destruct p. }
  induction t as [|p old|p child IH|cs IH] using tree_induction; intros k Ht.
  - destruct value; simpl; [by apply Hv|done].
  - cbn [tput]. destruct (decide (p = k)); destruct value; simpl; auto. apply Hfork; [done|by apply Hv].
  - cbn [tput]. destruct (decide _).
    + specialize (IH (drop (common_prefix p k) k) Ht). destruct (tput child _ value) as [new []]; simpl in *; auto.
    + destruct value; [|done]. simpl. apply Hfork; [by destruct (decide _)|by apply Hv].
  - destruct k as [|n k]; [done|]. rewrite tput_branch. destruct (cs !! Z.to_nat n) as [c|] eqn:Hc; [|done].
    rewrite Forall_lookup in IH. pose proof (proj1 (values_branch cs) Ht _ _ Hc) as Hvc.
    specialize (IH _ _ Hc k Hvc). destruct (tput c k value) as [new []]; [|done]. simpl in IH |- *.
    pose proof (Hins cs (Z.to_nat n) new Ht IH) as Hnew. unfold tfold.
    destruct (occupied (<[Z.to_nat n := new]> cs)) as [|[i u] [|]] eqn:E; [done| |done]. apply Hpre.
    assert ((i, u) ∈ occupied (<[Z.to_nat n := new]> cs)) as [Hi _]%elem_of_occupied by (rewrite E; left).
    by eapply (proj1 (values_branch _)).
Qed.

Lemma tree_has_put t m key value :
  tree_has t m → key32 key → (∀ v, value = Some v → value_ok v) →
  tree_has (tput t (to_nibbles key) value).1 (map_put m key value).
Proof.
  intros (Hc & Hv & Hm) Hk Hval. split_and!.
  - apply tput_canon; [done|by apply to_nibbles_key].
  - by apply values_put.
  - intros k Hk'. rewrite content_put by done. unfold map_put. by rewrite Hm.
Qed.

Lemma good_self P0 hf h σ : good P0 hf h σ → good (parent σ) hf h σ.
Proof. by intros [? _ ? ?]. Qed.

(** A trie among the others. *)
Lemma tries_focus σ Ts i T :
  tries_are σ Ts → Ts !! i = Some T →
  ∃ t h hf, tree_has t (tr_map T) ∧ good (parent σ) hf h σ ∧ repr (tr_db T) (parent σ) [] t (tr_root T) h ∧
    (∀ σ' t' root m h', good (parent σ) hf h' σ' → repr (tr_db T) (parent σ') [] t' root h' →
       tree_has t' m → tries_are σ' (<[i := mkTrie (tr_db T) root m]> Ts)) ∧
    (∀ σ', good (parent σ) hf ∅ σ' → tries_are σ' (delete i Ts)).
Proof.
  intros (items & h & Hg & Hown & HF) HT.
  destruct (Forall2_lookup_r _ _ _ _ _ HF HT) as (it & Hit & (Hdb & Hat & Hid & Hdep & Hhas)).
  rewrite <- (take_drop_middle _ _ _ Hit) in Hown.
  apply owned_app in Hown as (h1 & h2 & -> & Hd & Ho1 & ha & hb & -> & Hdab & Hheld & Hob).
  apply map_disjoint_union_r in Hd as [Hd1a Hd1b].
  assert (good (parent σ) ((h1 ∪ hb) ∪ ∅) ha σ ∧ h1 ∪ hb ##ₘ ∅) as [Hga _].
  { apply good_frame; [by apply map_disjoint_union_r_2|].
    by rewrite (map_union_comm ha), <- (map_union_assoc h1), (map_union_comm hb)
      by (done || by apply map_disjoint_union_r_2). }
  unfold held in Hheld. rewrite Hdb, Hat, Hid in Hheld.
  exists (hl_tree it), ha, ((h1 ∪ hb) ∪ ∅). split_and!; [done|done|done| |].
  - intros σ' t' root m h' Hg' Hr' Hhas'. pose proof (good_le _ _ _ _ Hg') as Hle.
    apply good_unframe in Hg' as [Hg' Hd']; [|apply map_disjoint_empty_r].
    apply map_disjoint_union_r in Hd' as [Hd'1 Hd'b].
    exists (take i items ++ mkHeld (tr_db T) [] root 0 t' :: drop (S i) items), (h' ∪ (h1 ∪ hb)).
    split_and!; [by eapply good_self| |].
    + apply owned_app. exists h1, (h' ∪ hb). split_and!.
      * by rewrite map_union_assoc, (map_union_comm h'), <- map_union_assoc by done.
      * by apply map_disjoint_union_r_2.
      * by eapply owned_mono.
      * exists h', hb. split_and!; [done|done|done|by eapply owned_mono].
    + rewrite insert_take_drop by (by eapply lookup_lt_Some).
      apply Forall2_app; [by apply Forall2_take|]. constructor; [|by apply Forall2_drop]. split_and!; done.
  - intros σ' Hg'. pose proof (good_le _ _ _ _ Hg') as Hle.
    apply good_unframe in Hg' as [Hg' _]; [|apply map_disjoint_empty_r]. rewrite map_empty_union in Hg'.
    exists (take i items ++ drop (S i) items), (h1 ∪ hb). split_and!; [by eapply good_self| |].
    + apply owned_app. exists h1, hb. split_and!; [done|done|by eapply owned_mono|by eapply owned_mono].
    + rewrite delete_take_drop. apply Forall2_app; [by apply Forall2_take|by apply Forall2_drop].
Qed.

(** ** Updates *)

Definition too_long (value : option Bytes) : bool :=
  match value with Some v => VALUE_MAX <? len v | None => false end.

(** [put] is an update of one map. With a value that is too long it fails and
    changes nothing. Otherwise it never panics, and either the trie is the updated
    map under the id it returns, or it fails because the own arena has no room; in
    both cases every other open trie is the map it was. *)
Lemma put_tries σ Ts i T key value :
  tries_are σ Ts → Ts !! i = Some T → key32 key → (∀ v, value = Some v → Forall is_byte v) →
  match put (tr_db T) (tr_root T) key value σ with
  | Some (Ok root, σ') =>
      too_long value = false ∧
      tries_are σ' (<[i := mkTrie (tr_db T) root (map_put (tr_map T) key value)]> Ts)
  | Some (Err e, σ') =>
      if too_long value then e = DECODE ∧ σ' = σ
      else e = FULL ∧ has_room (own σ') = false ∧ tries_are σ' (delete i Ts)
  | None => False
  end.
Proof.
  intros HTs HT Hkey Hval.
  change (twp (put (tr_db T) (tr_root T) key value)
    (λ root σ', too_long value = false ∧
       tries_are σ' (<[i := mkTrie (tr_db T) root (map_put (tr_map T) key value)]> Ts))
    (λ e σ', if too_long value then e = DECODE ∧ σ' = σ
       else e = FULL ∧ has_room (own σ') = false ∧ tries_are σ' (delete i Ts)) σ).
  unfold put. apply twp_bind, twp_lift.
  assert (∀ v, value = Some v → too_long value = false → value_ok v) as Hok.
  { intros v -> Hl. split; [by apply Hval|by apply Z.ltb_ge]. }
  assert (too_long value = false →
    twp (r ← put_at 66 (tr_db T) (tr_root T) (to_nibbles key) 0 value; mret r.1)
      (λ root σ', too_long value = false ∧
         tries_are σ' (<[i := mkTrie (tr_db T) root (map_put (tr_map T) key value)]> Ts))
      (λ e σ', e = FULL ∧ has_room (own σ') = false ∧ tries_are σ' (delete i Ts)) σ) as Hcore.
  { intros Hl. destruct (tries_focus σ Ts i T HTs HT) as (t & h & hf & Hhas & Hg & Hr & Hput & Hfail).
    pose proof Hhas as (Hcan & _ & _). apply twp_bind.
    eapply twp_mono; [eapply (put_at_spec (tr_db T) t); [by apply to_nibbles_key|lia|done|lia|done|done]| |].
    - intros r σ' (_ & (h' & Hg' & _ & Hr' & _) & _). apply twp_ret. split; [done|].
      eapply Hput; [done|done|]. rewrite drop_0. apply tree_has_put; [done|done|]. eauto.
    - intros e σ' (-> & Hroom & Hg'). auto. }
  destruct value as [v|]; [|by apply Hcore]. unfold leaf_value_new, too_long in *.
  destruct (VALUE_MAX <? len v); [done|by apply Hcore].
Qed.

(** ** Roots *)

(** [r] is the Merkle-Patricia root of the map: that of its one canonical tree. *)
Definition merkle_root_is (m : Bytes → option Bytes) (r : H256) : Prop :=
  ∃ t, tree_has t m ∧ r = tree_root t ∧ ∀ u, tree_has u m → u = t.

Lemma tree_has_root t m : tree_has t m → merkle_root_is m (tree_root t).
Proof.
  intros Ht. exists t. split_and!; [done|done|]. intros u Hu. destruct Ht as (? & _ & Ht), Hu as (? & _ & Hu).
  apply content_unique; [done|done|]. intros k Hk. by rewrite Ht, Hu.
Qed.

Lemma commit_tries old σ Ts1 Ts2 :
  tries_are σ (Ts1 ++ Ts2) →
  ∃ roots σ', commit old (tr_root <$> Ts1) σ = Some (roots, σ') ∧ tries_are σ' (Ts1 ++ Ts2) ∧
    Forall2 (λ T, merkle_root_is (tr_map T)) Ts1 roots.
Proof.
  intros (items & h & Hg & Hown & HF). apply Forall2_app_inv_r in HF as (it1 & it2 & HF1 & HF2 & ->).
  apply owned_app in Hown as (h1 & h2 & -> & Hd & Ho1 & Ho2).
  destruct (good_frame _ _ _ _ _ Hd Hg) as [Hg1 Hdf].
  destruct (commit_spec old it1 (parent σ) (h2 ∪ ∅) h1 σ) as (h1' & σ' & HC & Hg' & Ho1' & Ep); [done|done| |].
  { intros it Hin. apply list_elem_of_lookup in Hin as [i Hi].
    destruct (Forall2_lookup_l _ _ _ _ _ HF1 Hi) as (T & _ & (_ & _ & _ & ? & ? & _)). eauto. }
  assert (hl_id <$> it1 = tr_root <$> Ts1) as Eids.
  { clear -HF1. induction HF1 as [|it T its Ts (_ & _ & E & _) _ IH]; [done|]. by rewrite !fmap_cons, E, IH. }
  rewrite Eids in HC. exists (tree_root ∘ hl_tree <$> it1), σ'. split_and!; [done| |].
  - apply good_unframe in Hg' as [Hg' Hd']; [|done]. exists (it1 ++ it2), (h1' ∪ h2).
    split_and!; [by eapply good_self| |by apply Forall2_app]. apply owned_app. exists h1', h2.
    rewrite Ep in *. split_and!; done.
  - clear -HF1. induction HF1 as [|it T its Ts (_ & _ & _ & _ & E) _ IH]; [constructor|].
    rewrite fmap_cons. constructor; [by apply tree_has_root|done].
Qed.

(** Any of the open tries, in any order. *)
Lemma owned_perm P l l' h : l ≡ₚ l' → owned P l h → owned P l' h.
Proof.
  intros Hp. revert h. induction Hp as [|it l l' _ IH|it it' l|l1 l2 l3 _ IH1 _ IH2]; intros h; [done|..].
  - intros (h1 & h2 & -> & ? & ? & ?). exists h1, h2. split_and!; auto.
  - intros (h1 & h2 & -> & Hd & H1 & h3 & h4 & -> & Hd' & H3 & H4).
    apply map_disjoint_union_r in Hd as [? ?]. exists h3, (h1 ∪ h4). split_and!.
    + by rewrite map_union_assoc, (map_union_comm h1 h3), map_union_assoc by done.
    + by apply map_disjoint_union_r_2.
    + done.
    + by exists h1, h4.
  - intros H. auto.
Qed.

Lemma tries_perm σ Ts Ts' : Ts ≡ₚ Ts' → tries_are σ Ts → tries_are σ Ts'.
Proof.
  intros Hp (items & h & Hg & Hown & HF%Forall2_flip).
  destruct (Permutation_Forall2 Hp HF) as (items' & Hp' & HF'). exists items', h.
  split_and!; [done|by eapply owned_perm|by apply Forall2_flip].
Qed.

Lemma select_perm {A} (l : list A) (ixs : list nat) :
  NoDup ixs → (∀ i, i ∈ ixs → (i < length l)%nat) → ∃ rest, l ≡ₚ omap (l !!.) ixs ++ rest.
Proof.
  intros Hnd Hlt.
  assert (ixs ⊆+ seq 0 (length l)) as (k & Hk)%submseteq_Permutation.
  { apply NoDup_submseteq; [done|]. intros i Hi. apply elem_of_seq. specialize (Hlt i Hi). lia. }
  exists (omap (l !!.) k). rewrite <- omap_app, <- Hk. clear.
  assert (omap (l !!.) (seq 0 (length l)) = l) as ->; [|done].
  induction l as [|x l IH] using rev_ind; [done|].
  rewrite length_app, seq_app, omap_app. simpl. rewrite lookup_app_r, Nat.sub_diag by done. simpl. f_equal.
  rewrite <- IH at 2. apply list_omap_ext, Forall2_same_length_lookup. split; [done|].
  intros i x1 x2 H1 H2. rewrite H1 in H2. injection H2 as <-. apply lookup_seq in H1 as [-> Hi].
  by rewrite lookup_app_l.
Qed.

(** ** Runs *)

(** What a block does with its open tries: updates, and commits of some of them. *)
Inductive TrieOp :=
| OpPut (i : nat) (key : Bytes) (value : option Bytes)
| OpCommit (old_levels : nat) (ixs : list nat).

Definition op_ok (n : nat) (op : TrieOp) : Prop :=
  match op with
  | OpPut i key value =>
      (i < n)%nat ∧ key32 key ∧ (∀ v, value = Some v → Forall is_byte v) ∧ too_long value = false
  | OpCommit _ ixs => NoDup ixs ∧ ∀ i, i ∈ ixs → (i < n)%nat
  end.

(** The code: the ids of the tries, with the roots every commit returned. *)
Fixpoint run_ops (dbs : list TrieDB) (roots : list Id) (ops : list TrieOp) : TM (list (list H256) * list Id) :=
  match ops with
  | [] => mret ([], roots)
  | OpPut i key value :: ops' =>
      db ← tm_unwrap (dbs !! i);
      root ← tm_unwrap (roots !! i);
      root' ← put db root key value;
      run_ops dbs (<[i := root']> roots) ops'
  | OpCommit old ixs :: ops' =>
      r ← tm_get (λ σ, commit old (omap (roots !!.) ixs) σ);
      hashes_state ← tm_unwrap r;
      tm_modify (λ _, hashes_state.2);;
      out ← run_ops dbs roots ops';
      mret (hashes_state.1 :: out.1, out.2)
  end.

(** The maps: their final state, and the ones every commit is about. *)
Fixpoint map_ops (ms : list (Bytes → option Bytes)) (ops : list TrieOp)
    : list (list (Bytes → option Bytes)) * list (Bytes → option Bytes) :=
  match ops with
  | [] => ([], ms)
  | OpPut i key value :: ops' => map_ops (alter (λ m, map_put m key value) i ms) ops'
  | OpCommit _ ixs :: ops' => let '(outs, ms') := map_ops ms ops' in (omap (ms !!.) ixs :: outs, ms')
  end.

Lemma omap_fmap_lookup {A B} (f : A → B) (l : list A) (ixs : list nat) :
  omap ((f <$> l) !!.) ixs = f <$> omap (l !!.) ixs.
Proof.
  induction ixs as [|i ixs IH]; [done|]. csimpl. rewrite list_lookup_fmap. destruct (l !! i); [|done].
  csimpl. by rewrite IH.
Qed.

Definition run_post Ts (ops : list TrieOp) (r : list (list H256) * list Id) σ' : Prop :=
  let '(maps, ms) := map_ops (tr_map <$> Ts) ops in
  Forall2 (Forall2 merkle_root_is) maps r.1 ∧
  ∃ Ts', tries_are σ' Ts' ∧ tr_db <$> Ts' = tr_db <$> Ts ∧ tr_root <$> Ts' = r.2 ∧ tr_map <$> Ts' = ms.

Lemma run_ops_spec σ Ts ops :
  tries_are σ Ts → Forall (op_ok (length Ts)) ops →
  twp (run_ops (tr_db <$> Ts) (tr_root <$> Ts) ops) (run_post Ts ops)
    (λ e σ', e = FULL ∧ has_room (own σ') = false) σ.
Proof.
  intros HTs Hops. revert σ Ts HTs Hops. induction ops as [|op ops IH]; intros σ Ts HTs Hops.
  { apply twp_ret. split; [constructor|]. by exists Ts. }
  apply Forall_cons in Hops as [Hop Hops]. destruct op as [i key value|old ixs]; cbn [run_ops].
  - destruct Hop as (Hi & Hkey & Hval & Hshort).
    destruct (lookup_lt_is_Some_2 Ts i Hi) as [T HT].
    apply twp_bind. eapply twp_unwrap; [by rewrite list_lookup_fmap, HT|].
    apply twp_bind. eapply twp_unwrap; [by rewrite list_lookup_fmap, HT|]. apply twp_bind.
    pose proof (put_tries σ Ts i T key value HTs HT Hkey Hval) as Hput. rewrite Hshort in Hput. unfold twp at 1.
    destruct (put (tr_db T) (tr_root T) key value σ) as [[[root|e] σ']|]; [|naive_solver|done].
    destruct Hput as [_ HTs']. set (T' := mkTrie _ _ _) in HTs'.
    specialize (IH σ' (<[i := T']> Ts) HTs'). rewrite length_insert in IH. specialize (IH Hops).
    rewrite !list_fmap_insert in IH. change (tr_db T') with (tr_db T) in IH.
    rewrite (list_insert_id (tr_db <$> Ts)) in IH by (by rewrite list_lookup_fmap, HT).
    eapply twp_mono; [exact IH| |done]. intros r σ'' Hpost. unfold run_post in *. cbn [map_ops].
    rewrite list_fmap_insert in Hpost.
    assert (alter (λ m, map_put m key value) i (tr_map <$> Ts) = <[i := tr_map T']> (tr_map <$> Ts)) as ->.
    { apply list_eq. intros j. destruct (decide (i = j)) as [<-|Hne].
      - rewrite list_lookup_alter_eq, list_lookup_fmap, HT, list_lookup_insert_eq by (by rewrite length_fmap).
        done.
      - by rewrite list_lookup_alter_ne, list_lookup_insert_ne. }
    destruct (map_ops (<[i := tr_map T']> (tr_map <$> Ts)) ops) as [maps ms]. destruct Hpost as (HF & Ts' & ? & Hdb & ? & ?).
    split; [done|]. exists Ts'. split_and!; [done| |done|done]. rewrite Hdb, list_fmap_insert.
    by rewrite list_insert_id by (by rewrite list_lookup_fmap, HT).
  - destruct Hop as [Hnd Hlt]. destruct (select_perm Ts ixs Hnd Hlt) as [rest Hsel].
    destruct (commit_tries old σ (omap (Ts !!.) ixs) rest) as (hashes & σ' & HC & HTs' & HF).
    { by eapply tries_perm. }
    apply (tries_perm _ _ Ts) in HTs'; [|by symmetry].
    apply twp_bind, twp_get. rewrite omap_fmap_lookup, HC. apply twp_bind.
    eapply twp_unwrap; [done|]. apply twp_bind, twp_modify, twp_bind.
    eapply twp_mono; [by apply IH| |done]. intros [outs roots] σ'' Hpost. apply twp_ret.
    unfold run_post in *. cbn [map_ops fst snd] in *. rewrite omap_fmap_lookup.
    destruct (map_ops _ ops) as [maps ms]. destruct Hpost as (HF' & HTs''). split; [|done].
    constructor; [|done]. clear -HF. induction HF; [constructor|]. rewrite fmap_cons. by constructor.
Qed.

(** C6: Any sequence of updates and commits of open tries does what it would do to
    the maps they are: it never panics, every commit returns the Merkle-Patricia
    roots of the maps as the updates before it left them, whatever those updates
    were, and at the end the tries are the maps. It stops early only when the own
    arena has no room. *)
Theorem tries_refine_maps σ Ts ops :
  tries_are σ Ts → Forall (op_ok (length Ts)) ops →
  match run_ops (tr_db <$> Ts) (tr_root <$> Ts) ops σ with
  | Some (Ok (outs, roots), σ') =>
      let '(maps, ms) := map_ops (tr_map <$> Ts) ops in
      Forall2 (Forall2 merkle_root_is) maps outs ∧
      ∃ Ts', tries_are σ' Ts' ∧ tr_db <$> Ts' = tr_db <$> Ts ∧ tr_root <$> Ts' = roots ∧ tr_map <$> Ts' = ms
  | Some (Err e, σ') => e = FULL ∧ has_room (own σ') = false
  | None => False
  end.
Proof.
  intros HTs Hops. pose proof (run_ops_spec σ Ts ops HTs Hops) as H. unfold twp, run_post in H.
  destruct (run_ops _ _ ops σ) as [[[[outs roots]|e] σ']|]; [|done|done].
  by destruct (map_ops (tr_map <$> Ts) ops).
Qed.

(** ** Opening *)

Lemma tries_cons σ σ' Ts T t h :
  tries_are σ Ts → tree_has t (tr_map T) → parent_le (parent σ) (parent σ') → parent_ok (parent σ') →
  repr (tr_db T) (parent σ') [] t (tr_root T) h →
  (∀ h0, covers (own σ) h0 → covers (own σ') (h ∪ h0) ∧ h ##ₘ h0) → tries_are σ' (T :: Ts).
Proof.
  intros (items & h0 & [Hp _ Hc _] & Hown & HF) Hhas Hle Hp' Hr Hnew. rewrite map_union_empty in Hc.
  destruct (Hnew h0 Hc) as [Hc' Hd]. exists (mkHeld (tr_db T) [] (tr_root T) 0 t :: items), (h ∪ h0).
  split_and!.
  - split; [done|done|by rewrite map_union_empty|apply map_disjoint_empty_r].
  - exists h, h0. split_and!; [done|done|done|by eapply owned_mono].
  - constructor; [|done]. split_and!; try done.
Qed.

(** Opening the root of a trie of the parent state gives a trie with its
    content next to the open ones, provided the same root is not open in the own
    arena already. *)
Theorem open_root_fresh σ Ts db t0 :
  tries_are σ Ts → tree_has t0 (content t0) → avail db [] t0 →
  (is_empty t0 = false → known t0 ∧ tree_root t0 ≠ EMPTY_TRIE_HASH) →
  na_root_ids (own σ) !! tree_root t0 = None →
  let '(root, σ') := open_root (tree_root t0) σ in tries_are σ' (mkTrie db root (content t0) :: Ts).
Proof.
  intros HTs Hhas Hav Hk Hnew. pose proof HTs as (_ & h0 & Hg & _ & _). pose proof (good_parent _ _ _ _ Hg) as Hp.
  destruct (is_empty t0) eqn:He.
  { destruct t0; try done. unfold open_root. rewrite decide_True by done.
    eapply (tries_cons σ); [done|done|done|done|by split|]. intros h1 Hc. rewrite map_empty_union.
    split; [done|apply map_disjoint_empty_l]. }
  destruct (Hk eq_refl) as [Hkn Hne]. unfold open_root. rewrite decide_False by done.
  assert (tree_root t0 = hash_of t0) as Er by (unfold tree_root; by rewrite He).
  assert (hashed t0) as Hhd by (destruct Hhas as (? & ? & _); by apply root_hashed).
  destruct (na_root_ids (parent σ) !! tree_root t0) as [id|] eqn:Ep.
  { destruct Hp as (Hp1 & Hp2 & Hp3 & Hro). destruct (Hro _ _ Ep) as (t & Hkt & Et & Hs).
    assert (t = t0) as -> by (apply no_collision; [done|done|congruence]).
    eapply (tries_cons σ); [done|done|done|done|by apply pshape_repr|].
    intros h1 Hc. rewrite map_empty_union. split; [done|apply map_disjoint_empty_l]. }
  rewrite Hnew. destruct (has_room (parent σ)); cbn [negb].
  - destruct (parent_ok_push_hash (parent σ) (tree_root t0) Hp) as [Hp' Hle].
    set (P1 := push_hash (tree_root t0, id_empty) (parent σ)) in *.
    set (id := mkId false true (length (na_by_hash (parent σ)))).
    assert (pshape P1 t0 id) as Hs.
    { apply pshape_unfold; [done|]. cbn. split_and!; [done|done|done|]. exists id_empty.
      rewrite <- Er. by apply list_lookup_middle. }
    set (P2 := P1 <| na_root_ids ::= insert (tree_root t0) id |>).
    assert (parent_le P1 P2) as Hle2 by (split; cbn; eauto).
    eapply (tries_cons σ _ Ts _ t0 ∅); [done|done|by etrans| |apply pshape_repr; [done|by eapply pshape_mono]|].
    + destruct Hp' as (Hne' & Hl & Hb & Hro). split_and!; [done|..]; cbn.
      * intros hash i Hi. destruct (Hl _ _ Hi) as (u & ? & ? & ? & ?). exists u. eauto using pshape_mono.
      * intros i hash l Hi Hl'. destruct (Hb _ _ _ Hi Hl') as (u & ? & ? & ? & ?). exists u.
        eauto using pshape_mono.
      * intros hash i [[<- <-]|[_ Hi]]%lookup_insert_Some; [exists t0; eauto using pshape_mono|].
        destruct (Hro _ _ Hi) as (u & ? & ? & ?). exists u. eauto using pshape_mono.
    + intros h1 Hc. rewrite map_empty_union. split; [done|apply map_disjoint_empty_l].
  - set (i := length (na_by_hash (own σ))).
    eapply (tries_cons σ _ Ts _ t0 (hash_cell i (tree_root t0, id_empty))); [done|done|done|done| |].
    + apply repr_unfold; [done|]. cbn. exists (tree_root t0), id_empty, ∅.
      rewrite bool_decide_true by done. split_and!; try done. by rewrite map_union_empty.
    + intros h1 Hc. split.
      * apply (covers_push_hash (own σ) h1 (tree_root t0, id_empty)) in Hc. destruct Hc. by split.
      * apply map_disjoint_singleton_l. by apply covers_fresh_hash.
Qed.
End tries.

(** ** Concrete tries *)

Definition ex_hash (b : Bytes) (i : nat) : Z :=
  foldl (λ a x, (a * 33 + x + Z.of_nat i + 1) mod 65521) 5381 b mod 256.

#[refine] #[local] Instance ex_keccak : Keccak := {
  keccak b := ex_hash b <$> seq 0 32;
  EMPTY_TRIE_HASH := replicate 32 1
}.
Proof.
  intros b. split; [|unfold len; by rewrite length_fmap, length_seq].
  apply Forall_fmap, Forall_true. intros i. unfold is_byte, compose, ex_hash.
  apply Z.mod_pos_bound. lia.
Defined.

#[refine] #[local] Instance ex_growth : Growth := { grow n := (2 * n + 4)%nat }.
Proof. lia. Defined.

(** A state trie with one slot. *)
Definition ex_key : Bytes := replicate 32 0.
Definition ex_tree : tree := TLeaf (to_nibbles ex_key) [5].

Lemma ex_tree_ok : canon 64 ex_tree ∧ values_ok ex_tree.
Proof.
  split; (split; [|]); [done| | |done].
  - change (to_nibbles ex_key) with (replicate 64 0). apply Forall_replicate. unfold is_nibble. lia.
  - constructor; [unfold is_byte; lia|constructor].
Qed.

#[refine] #[local] Instance ex_parent_state : ParentState := { known t := t = ex_tree }.
Proof.
  - intros t ->. destruct ex_tree_ok. split_and!; [|done|done]. by exists 64%nat.
  - done.
  - done.
  - by intros t u -> ->.
Defined.

Definition ex_db : TrieDB := λ q, if decide (q = []) then Ok (Some (enc ex_tree)) else Ok None.
Definition ex_tries (cap : nat) : Tries := mkTries (arena_new false cap cap) (arena_new true 200 200).

Lemma ex_good cap h : h = ∅ → good (parent (ex_tries cap)) ∅ h (ex_tries cap).
Proof.
  intros ->. split; [|done|done|done].
  split_and!; [done|done| |done]. intros [|i] hash l [= <- <-]; done.
Qed.

Lemma ex_tree_has : tree_has ex_tree (content ex_tree).
Proof. destruct ex_tree_ok. by split_and!. Qed.

Definition ex_slot (b : Z) : Bytes := replicate 31 0 ++ [b].

Definition ex_ops : list TrieOp :=
  [OpPut 0 (ex_slot 1) (Some [7]); OpPut 1 (ex_slot 1) (Some [8]); OpPut 0 (ex_slot 2) (Some [9]);
   OpPut 0 (ex_slot 1) None; OpCommit 0 [1; 0]%nat].

Lemma ex_put_ok i b v :
  (i < 2)%nat → is_byte b → is_byte v →
  op_ok 2 (OpPut i (ex_slot b) (Some [v])) ∧ op_ok 2 (OpPut i (ex_slot b) None).
Proof.
  intros Hi Hb Hv. assert (key32 (ex_slot b)) as Hk.
  { split; [done|]. apply Forall_app. split; [apply Forall_replicate; unfold is_byte; lia|]. by constructor. }
  split; (split_and!; [done|done| |done]); intros v' [= <-]. by constructor.
Qed.

Lemma ex_trie_ops_ok : Forall (op_ok 2) ex_ops.
Proof.
  unfold ex_ops.
  repeat (apply Forall_cons; split); [apply (ex_put_ok _ _ 7)|apply (ex_put_ok _ _ 8)|apply (ex_put_ok _ _ 9)
    |apply (ex_put_ok _ _ 0)| |constructor]; try (unfold is_byte; lia).
  split; [by apply (bool_decide_unpack _)|]. intros i Hi. set_solver by lia.
Qed.

Lemma tries_refine_maps_witness :
  let T := mkTrie ex_db id_empty (λ _, None) in
  tries_are (ex_tries 100) [T; T] ∧
  match run_ops [ex_db; ex_db] [id_empty; id_empty] ex_ops (ex_tries 100) with
  | Some (Ok (outs, roots), σ') =>
      let '(maps, ms) := map_ops [(λ _, None); (λ _, None)] ex_ops in
      Forall2 (Forall2 merkle_root_is) maps outs ∧
      ∃ Ts', tries_are σ' Ts' ∧ tr_db <$> Ts' = [ex_db; ex_db] ∧ tr_root <$> Ts' = roots ∧ tr_map <$> Ts' = ms
  | Some (Err e, σ') => e = FULL ∧ has_room (own σ') = false
  | None => False
  end.
Proof.
  intros T.
  assert (tries_are (ex_tries 100) [T; T]) as HT.
  { exists [mkHeld ex_db [] id_empty 0 TEmpty; mkHeld ex_db [] id_empty 0 TEmpty], ∅.
    split_and!; [by apply ex_good| |].
    - exists ∅, ∅. split_and!; [done|done|done|]. exists ∅, ∅. done.
    - repeat constructor. }
  split; [exact HT|]. apply (tries_refine_maps (ex_tries 100) [T; T] ex_ops HT).
  exact ex_trie_ops_ok.
Defined.

Lemma open_root_fresh_witness :
  let '(root, σ') := open_root (tree_root ex_tree) (ex_tries 100) in
  tries_are σ' [mkTrie ex_db root (content ex_tree)].
Proof.
  apply (open_root_fresh (ex_tries 100) [] ex_db ex_tree).
  - exists [], ∅. split_and!; [by apply ex_good|done|constructor].
  - exact ex_tree_has.
  - by split.
  - intros _. split; [done|]. vm_compute. congruence.
  - reflexivity.
Defined.

(** Without room in the parent arena, opening one root twice gives the same id,
    and an update of the first trie is seen through the second: setting a slot of
    one account and another slot of an account with the same storage root hashes
    the second account's storage with both updates. *)
Theorem reopened_root_shares_cell :
  let h := tree_root ex_tree in
  let '(id1, σ1) := open_root h (ex_tries 0) in
  match put ex_db id1 ex_key (Some [7]) σ1 with
  | Some (Ok _, σ2) =>
      let '(id2, σ3) := open_root h σ2 in
      match put ex_db id2 (ex_slot 2) (Some [9]) σ3 with
      | Some (Ok root, σ4) =>
          let one := (tput ex_tree (to_nibbles (ex_slot 2)) (Some [9])).1 in
          let both := (tput (TLeaf (to_nibbles ex_key) [7]) (to_nibbles (ex_slot 2)) (Some [9])).1 in
          fst <$> commit 0 [root] σ4 = Some [tree_root both] ∧ tree_root both ≠ tree_root one
      | _ => False
      end
  | _ => False
  end.
Proof. vm_compute. split; [reflexivity|congruence]. Qed.
