(* ===== verification/MergeOrders.v ===== *)
(** * Mergeable orders

    The orders builders attach to their submissions
    ([crates/types/src/block_merging.rs]), the references to them on the wire
    ([crates/tcp-types/src/merging/order.rs]), the conversion between the two
    ([crates/relay/src/block_merging/mod.rs]) and the check that a merged block
    keeps them whole ([crates/relay/src/block_merging/unbundling.rs]). *)


From S2P Require Import Prelude Types Submission Rlp MergeTrie.

(** ** Hashes

    A [B256] is the number its bytes spell. *)
Definition b256_bytes (h : B256) : Bytes := be_bytes 32 h.

Section hashes.
Context {KE : Keccak}.

Definition keccak256 (b : Bytes) : B256 := be_fold (keccak b).

Definition bundle_order_hash (tx_hashes : list B256) : B256 :=
  keccak256 (concat (b256_bytes <$> tx_hashes)).

Definition order_id (order_hash : B256) (builder_pubkey : Pubkey) : B256 :=
  keccak256 (b256_bytes order_hash ++ be_bytes 48 builder_pubkey).
End hashes.

(** ** Submitted orders *)

Record OrderV2 := mkOrderV2 { ov_start : Z; ov_len : Z; ov_flags : Z }.

Definition LATEST_ONLY : Z := Z.shiftl 1 0.
Definition ALL_REVERT : Z := Z.shiftl 1 1.
Definition KNOWN_FLAGS : Z := Z.lor LATEST_ONLY ALL_REVERT.

Record OrderTxCodes := mkOrderTxCodes { oc_order : Z; oc_codes : list Z }.

Definition CODE_NONE : Z := 0.
Definition CODE_REVERT : Z := 1.
Definition CODE_DROP : Z := 2.

Definition codes_len (bundle_len : Z) : Z := (bundle_len + 3) / 4.

(** [None]: the index is out of range, where the code panics. *)
Definition code (c : OrderTxCodes) (tx : Z) : option Z :=
  b ← oc_codes c !! Z.to_nat (tx / 4);
  Some (Z.land (Z.shiftr b (2 * (tx mod 4))) 3).

Record BlockMergingDataV2 := mkBlockMergingDataV2 {
  md_allow_appending : bool;
  md_builder_address : Address;
  md_orders : list OrderV2;
  md_tx_codes : list OrderTxCodes
}.

Definition u16_modulus : Z := 2 ^ 16.
Definition u16_max : Z := u16_modulus - 1.

Definition allow_all (builder_address : Address) (num_tx : nat) : BlockMergingDataV2 :=
  mkBlockMergingDataV2 true builder_address
    ((λ i, mkOrderV2 (i mod u16_modulus) 1 ALL_REVERT) <$> seqZ 0 (Z.of_nat num_tx)) [].

Definition append_only (builder_address : Address) : BlockMergingDataV2 :=
  mkBlockMergingDataV2 true builder_address [] [].

(** ** Version 1 orders *)

Record TransactionOrder := mkTransactionOrder { to_index : Z; to_can_revert : bool }.

(** [BundleOrder] and [BundleOrderV2], the latter with its flags. *)
Record BundleOrder := mkBundleOrder {
  bo_txs : list Z;
  bo_reverting_txs : list Z;
  bo_dropping_txs : list Z
}.

Inductive Order :=
| OTx (t : TransactionOrder)
| OBundle (b : BundleOrder)
| OBundleV2 (b : BundleOrder) (flags : u64).

Record BlockMergingData := mkBlockMergingData {
  mg_allow_appending : bool;
  mg_builder_address : Address;
  mg_merge_orders : list Order
}.

(** [codes[idx / 4] |= code << (2 * (idx % 4))], for an index inside the
    bundle; the guard keeps it inside the codes. *)
Definition set_code (n : Z) (codes : list Z) (e : Z * Z) : list Z :=
  let '(idx, c) := e in
  if idx <? n
  then alter (λ b, Z.lor b (Z.shiftl c (2 * (idx mod 4)))) (Z.to_nat (idx / 4)) codes
  else codes.

(** The body of the loop of [BlockMergingDataV2::from] for a bundle, without
    the [debug_assert!] that its transactions are contiguous, which release
    builds leave out: flags and codes of a bundle of [n] transactions. *)
Definition compact_flags (b : BundleOrder) (latest_only : bool) : Z * option (list Z) :=
  let n := len (bo_txs b) in
  let flags := if latest_only then LATEST_ONLY else 0 in
  if (len (bo_dropping_txs b) =? 0) && (len (bo_reverting_txs b) =? n)
  then (Z.lor flags ALL_REVERT, None)
  else if negb ((len (bo_reverting_txs b) =? 0) && (len (bo_dropping_txs b) =? 0))
  then (flags, Some (foldl (set_code n) (replicate (Z.to_nat (codes_len n)) 0)
          (((λ i, (i, CODE_REVERT)) <$> bo_reverting_txs b) ++
           ((λ i, (i, CODE_DROP)) <$> bo_dropping_txs b))))
  else (flags, None).

(** The compact form of an order and the codes it needs; [None]: skipped. *)
Definition compact_order (o : Order) : option (OrderV2 * option (list Z)) :=
  let bundle b latest_only :=
    first ← head (bo_txs b);
    if len (bo_txs b) <=? 255 then
      if first <=? u16_max then
        let '(flags, codes) := compact_flags b latest_only in
        Some (mkOrderV2 first (len (bo_txs b)) flags, codes)
      else None
    else None in
  match o with
  | OTx t =>
      if to_index t <=? u16_max
      then Some (mkOrderV2 (to_index t) 1 (if to_can_revert t then ALL_REVERT else 0), None)
      else None
  | OBundle b => bundle b false
  | OBundleV2 b flags => bundle b (Z.land flags 1 =? 1)
  end.

Definition push_order (acc : list OrderV2 * list OrderTxCodes) (o : Order)
    : list OrderV2 * list OrderTxCodes :=
  match compact_order o with
  | Some (v2, codes) =>
      (acc.1 ++ [v2],
       match codes with
       | Some c => acc.2 ++ [mkOrderTxCodes (len acc.1 mod u16_modulus) c]
       | None => acc.2
       end)
  | None => acc
  end.

Definition merging_data_from_v1 (v1 : BlockMergingData) : BlockMergingDataV2 :=
  let '(orders, tx_codes) := foldl push_order ([], []) (mg_merge_orders v1) in
  mkBlockMergingDataV2 (mg_allow_appending v1) (mg_builder_address v1) orders tx_codes.

(** ** References on the wire *)

Definition MAX_TX_BYTES : Z := 131072.
Definition MAX_BUNDLE_TXS : Z := 32.
Definition MAX_ORDERS_PER_BLOCK : Z := 1024.
Definition MAX_BLOCK_TXS : Z := u16_max.
Definition TX_HASH_REF_LEN : Z := 32.

Definition is_tx_hash_ref (raw_tx : Bytes) : bool := len raw_tx =? TX_HASH_REF_LEN.

Record TxOrderRef := mkTxOrderRef { tr_index : Z; tr_can_revert : bool }.
Record BundleOrderRef := mkBundleOrderRef {
  br_txs : list Z;
  br_reverting_txs : list Z;
  br_dropping_txs : list Z;
  br_latest_only : bool
}.
Inductive MergeOrderRef := RefTx (t : TxOrderRef) | RefBundle (b : BundleOrderRef).

#[export] Instance TxOrderRef_eq_dec : EqDecision TxOrderRef.
Proof. solve_decision. Defined.
#[export] Instance BundleOrderRef_eq_dec : EqDecision BundleOrderRef.
Proof. solve_decision. Defined.
#[export] Instance MergeOrderRef_eq_dec : EqDecision MergeOrderRef.
Proof. solve_decision. Defined.

Definition ref_validate (r : MergeOrderRef) (block_tx_count : Z) : bool :=
  match r with
  | RefTx t => negb (block_tx_count <=? tr_index t)
  | RefBundle b =>
      negb ((len (br_txs b) =? 0) || (MAX_BUNDLE_TXS <? len (br_txs b)) ||
            existsb (λ i, block_tx_count <=? i) (br_txs b) ||
            existsb (λ i, len (br_txs b) <=? i) (br_reverting_txs b) ||
            existsb (λ i, len (br_txs b) <=? i) (br_dropping_txs b))
  end.

(** The loop over the codes of an order: [Some None] is the early return. *)
Fixpoint split_codes (c : OrderTxCodes) (txs : list Z) (reverting dropping : list Z)
    : option (option (list Z * list Z)) :=
  match txs with
  | [] => Some (Some (reverting, dropping))
  | tx :: txs =>
      k ← code c tx;
      if k =? CODE_NONE then split_codes c txs reverting dropping
      else if k =? CODE_REVERT then split_codes c txs (reverting ++ [tx]) dropping
      else if k =? CODE_DROP then split_codes c txs reverting (dropping ++ [tx])
      else Some None
  end.

(** [None] would be a panic; [Some None]: the order is dropped. *)
Definition order_to_ref (order : OrderV2) (codes : option OrderTxCodes) (block_tx_count : Z)
    : option (option MergeOrderRef) :=
  if (ov_len order =? 0) || negb (Z.land (ov_flags order) (Z.lnot KNOWN_FLAGS) =? 0)
  then Some None
  else
    let all_revert := negb (Z.land (ov_flags order) ALL_REVERT =? 0) in
    let latest_only := negb (Z.land (ov_flags order) LATEST_ONLY =? 0) in
    if u16_max <? ov_start order + ov_len order then Some None
    else
      let txs := seqZ (ov_start order) (ov_len order) in
      order_ref ←
        match codes with
        | None =>
            if (ov_len order =? 1) && negb latest_only
            then Some (Some (RefTx (mkTxOrderRef (ov_start order) all_revert)))
            else Some (Some (RefBundle (mkBundleOrderRef txs
                   (if all_revert then seqZ 0 (ov_len order) else []) [] latest_only)))
        | Some c =>
            if all_revert || negb (len (oc_codes c) =? codes_len (ov_len order))
            then Some None
            else
              split ← split_codes c (seqZ 0 (ov_len order)) [] [];
              Some ((λ '(reverting, dropping),
                       RefBundle (mkBundleOrderRef txs reverting dropping latest_only)) <$> split)
        end;
      Some (r ← order_ref; if ref_validate r block_tx_count then Some r else None).

(** [tx_hashes.get(i).copied().unwrap_or_default()] *)
Definition resolve_hash (tx_hashes : list B256) (i : Z) : B256 :=
  default 0 (tx_hashes !! Z.to_nat i).

Definition order_ref_hash `{KE : Keccak} (order_ref : MergeOrderRef) (tx_hashes : list B256)
    : B256 :=
  match order_ref with
  | RefTx t => resolve_hash tx_hashes (tr_index t)
  | RefBundle b => bundle_order_hash (resolve_hash tx_hashes <$> br_txs b)
  end.

(** ** Unbundling *)

Record OrderTxs := mkOrderTxs { ox_hashes : list B256; ox_droppable : gset nat }.

Definition order_txs_from_ref (order_ref : MergeOrderRef) (tx_hashes : list B256) : OrderTxs :=
  match order_ref with
  | RefTx t => mkOrderTxs [resolve_hash tx_hashes (tr_index t)] ∅
  | RefBundle b =>
      mkOrderTxs (resolve_hash tx_hashes <$> br_txs b)
        (list_to_set (Z.to_nat <$> br_dropping_txs b))
  end.

Definition positions_of (final_txs : list B256) : gmap B256 nat :=
  foldl (λ m '(i, h), <[h := i]> m) ∅ (enumerate final_txs).

Fixpoint satisfied_from (droppable : gset nat) (positions : gmap B256 nat) (prev : option nat)
    (hashes : list (nat * B256)) : bool :=
  match hashes with
  | [] => true
  | (i, hash) :: hashes =>
      match positions !! hash with
      | Some pos =>
          if match prev with Some p => negb (pos =? S p)%nat | None => false end
          then false
          else satisfied_from droppable positions (Some pos) hashes
      | None =>
          if bool_decide (i ∈ droppable)
          then satisfied_from droppable positions prev hashes
          else false
      end
  end.

Definition is_satisfied (order : OrderTxs) (positions : gmap B256 nat) : bool :=
  satisfied_from (ox_droppable order) positions None (enumerate (ox_hashes order)).

(** The marks of one order on the scratch vectors. Positions are indices of
    the final transactions, so that they are in range. *)
Definition mark_order (positions : gmap B256 nat) (marks : list bool * list bool)
    (order : OrderTxs) : list bool * list bool :=
  let satisfied := is_satisfied order positions in
  foldl (λ '(bundled, covered) hash,
    match positions !! hash with
    | Some pos => (<[pos := true]> bundled, alter (λ c, c || satisfied) pos covered)
    | None => (bundled, covered)
    end) marks (ox_hashes order).

Definition find_unbundled_txs (final_txs : list B256) (orders : list OrderTxs) : list B256 :=
  let positions := positions_of final_txs in
  let n := length final_txs in
  let '(bundled, covered) :=
    foldl (mark_order positions) (replicate n false, replicate n false) orders in
  snd <$> List.filter (λ '(i, _), default false (bundled !! i) && negb (default false (covered !! i)))
            (enumerate final_txs).

(** ** Unbundled transactions

    An order is honoured when those of its transactions that are in the final
    list stand there next to each other in its order, and only droppable ones
    are missing. *)
Definition present (hashes final_txs : list B256) : list B256 :=
  filter (λ h, h ∈ final_txs) hashes.

Definition honoured (order : OrderTxs) (final_txs : list B256) : Prop :=
  (∀ i h, ox_hashes order !! i = Some h → h ∈ final_txs ∨ i ∈ ox_droppable order) ∧
  ∃ pre post, final_txs = pre ++ present (ox_hashes order) final_txs ++ post.

Section unbundling.
Context (final : list B256) (Hnodup : NoDup final).

Lemma foldl_positions k l (m : gmap B256 nat) h :
  NoDup l →
  foldl (λ m '(i, h), <[h := i]> m) m (enumerate_from k l) !! h =
  match list_find (h =.) l with Some (j, _) => Some (k + j)%nat | None => m !! h end.
Proof.
  revert k m. induction l as [|x l IH]; intros k m Hl; [done|].
  apply NoDup_cons in Hl as [Hx Hl]. cbn [enumerate_from foldl list_find]. rewrite IH by done.
  destruct (decide (h = x)) as [->|Hne].
  - destruct (list_find (x =.) l) as [[j y]|] eqn:E.
    + apply list_find_Some in E as (E & -> & _). apply list_elem_of_lookup_2 in E. done.
    + rewrite lookup_insert_eq. f_equal. lia.
  - destruct (list_find _ l) as [[j y]|]; simpl; [f_equal; lia|].
    by rewrite lookup_insert_ne.
Qed.

Lemma positions_of_lookup h i : positions_of final !! h = Some i ↔ final !! i = Some h.
Proof.
  unfold positions_of, enumerate. rewrite foldl_positions by done.
  destruct (list_find (h =.) final) as [[j y]|] eqn:E.
  - apply list_find_Some in E as (E & <- & _). cbn. split; [by intros [= <-]|].
    intros Hi. f_equal. eapply NoDup_lookup; eauto.
  - rewrite lookup_empty. split; [done|]. intros Hi%list_elem_of_lookup_2.
    apply list_find_None in E. rewrite Forall_forall in E. by destruct (E _ Hi).
Qed.

Lemma positions_of_none h : positions_of final !! h = None ↔ h ∉ final.
Proof.
  rewrite list_elem_of_lookup. setoid_rewrite <- positions_of_lookup.
  destruct (positions_of final !! h); split; naive_solver.
Qed.

Lemma prefix_cons_drop h rest i :
  h :: rest `prefix_of` drop i final ↔ final !! i = Some h ∧ rest `prefix_of` drop (S i) final.
Proof.
  destruct (final !! i) as [x|] eqn:E.
  - rewrite (drop_S _ _ _ E). split.
    + intros Hp. pose proof (prefix_cons_inv_1 _ _ _ _ Hp) as ->.
      split; [done|]. by apply prefix_cons_inv_2 in Hp.
    + intros [[= ->] Hp]. by apply prefix_cons.
  - split; [|by intros [? _]]. rewrite drop_ge by (by apply lookup_ge_None).
    by intros ?%prefix_nil_inv.
Qed.

Lemma satisfied_from_spec d k prev hashes :
  satisfied_from d (positions_of final) prev (enumerate_from k hashes) = true ↔
  (∀ i h, hashes !! i = Some h → h ∈ final ∨ (k + i)%nat ∈ d) ∧
  match prev with
  | Some p => present hashes final `prefix_of` drop (S p) final
  | None => ∃ i, present hashes final `prefix_of` drop i final
  end.
Proof.
  revert k prev. induction hashes as [|h hashes IH]; intros k prev.
  { split; [|done]. intros _. split; [done|]. destruct prev; [|exists 0%nat]; apply prefix_nil. }
  assert ((∀ i x, (h :: hashes) !! i = Some x → x ∈ final ∨ (k + i)%nat ∈ d) ↔
          (h ∈ final ∨ k ∈ d) ∧ ∀ i x, hashes !! i = Some x → x ∈ final ∨ (S k + i)%nat ∈ d) as ->.
  { split.
    - intros H. split; [specialize (H 0%nat h eq_refl); by rewrite Nat.add_0_r in H|].
      intros i x Hi. specialize (H (S i) x Hi). by rewrite Nat.add_succ_r in H.
    - intros [H0 H] [|i] x Hx; [injection Hx as <-; by rewrite Nat.add_0_r|].
      rewrite Nat.add_succ_r. by apply (H i). }
  cbn [enumerate_from satisfied_from]. unfold present in *.
  destruct (positions_of final !! h) as [pos|] eqn:E.
  - apply positions_of_lookup in E. pose proof (list_elem_of_lookup_2 _ _ _ E) as Hin.
    rewrite filter_cons_True by done. destruct prev as [p|].
    + rewrite prefix_cons_drop. destruct (Nat.eqb_spec pos (S p)) as [->|Hne]; cbn.
      * rewrite IH. naive_solver.
      * split; [done|]. intros (_ & Hp & _). destruct Hne. eapply NoDup_lookup; eauto.
    + rewrite IH. setoid_rewrite prefix_cons_drop. split; [naive_solver|].
      intros ([_ Hall] & i & Hi & Hp). assert (i = pos) as -> by (eapply NoDup_lookup; eauto). done.
  - apply positions_of_none in E. rewrite filter_cons_False by done.
    case_bool_decide; [rewrite IH; naive_solver|]. naive_solver.
Qed.

Lemma is_satisfied_spec order :
  is_satisfied order (positions_of final) = true ↔ honoured order final.
Proof.
  unfold is_satisfied, enumerate, honoured. rewrite satisfied_from_spec.
  assert (∀ l, (∃ i, l `prefix_of` drop i final) ↔ ∃ pre post, final = pre ++ l ++ post) as H.
  { intros l. split.
    - intros [i [post Hp]]. exists (take i final), post. by rewrite <- Hp, take_drop.
    - intros (pre & post & Hf). exists (length pre), post. by rewrite Hf at 1; rewrite drop_app_length. }
  by rewrite H.
Qed.

(** A mark at the position of a transaction; [false] off the end. *)
Definition mark (marks : list bool) (i : nat) : bool := default false (marks !! i).

Lemma mark_insert marks i j :
  (j < length marks)%nat → mark (<[j := true]> marks) i = mark marks i || bool_decide (i = j).
Proof.
  intros Hj. unfold mark. destruct (decide (i = j)) as [->|Hne].
  - rewrite list_lookup_insert_eq by done. rewrite bool_decide_true by done. by rewrite orb_true_r.
  - rewrite list_lookup_insert_ne by done. rewrite bool_decide_false by done. by rewrite orb_false_r.
Qed.

Lemma mark_alter s marks i j :
  (j < length marks)%nat →
  mark (alter (λ c, c || s) j marks) i = mark marks i || bool_decide (i = j) && s.
Proof.
  intros Hj. unfold mark. destruct (decide (i = j)) as [->|Hne].
  - rewrite list_lookup_alter_eq. rewrite bool_decide_true by done. cbn.
    destruct (lookup_lt_is_Some_2 _ _ Hj) as [b ->]. done.
  - rewrite list_lookup_alter_ne by done. rewrite bool_decide_false by done. by rewrite orb_false_r.
Qed.

(** The marks of an order, at the position of each final transaction. *)
Lemma mark_order_spec order bundled covered :
  length bundled = length final → length covered = length final →
  let '(b, c) := mark_order (positions_of final) (bundled, covered) order in
  length b = length final ∧ length c = length final ∧
  ∀ i h, final !! i = Some h →
    mark b i = mark bundled i || bool_decide (h ∈ ox_hashes order) ∧
    mark c i = mark covered i ||
      bool_decide (h ∈ ox_hashes order) && is_satisfied order (positions_of final).
Proof.
  unfold mark_order. set (s := is_satisfied order _). clearbody s.
  revert bundled covered. induction (ox_hashes order) as [|x hashes IH]; intros bundled covered Hb Hc.
  { cbn. split_and!; [done..|]. intros i h _. by rewrite bool_decide_false, !orb_false_r by apply not_elem_of_nil. }
  cbn [foldl]. destruct (positions_of final !! x) as [pos|] eqn:E.
  - apply positions_of_lookup in E. pose proof (lookup_lt_Some _ _ _ E) as Hpos.
    specialize (IH (<[pos := true]> bundled) (alter (λ c, c || s) pos covered)
      ltac:(by rewrite length_insert) ltac:(by rewrite length_alter)).
    destruct (foldl _ _ hashes) as [b c]. destruct IH as (? & ? & IH). split_and!; [done..|].
    intros i h Hi. destruct (IH i h Hi) as [-> ->].
    rewrite mark_insert, mark_alter by lia. rewrite (bool_decide_ext (h ∈ x :: hashes) (h = x ∨ h ∈ hashes))
      by apply elem_of_cons.
    assert (bool_decide (i = pos) = bool_decide (h = x)) as ->.
    { apply bool_decide_ext. split; [intros ->; congruence|intros ->].
      eapply (proj1 (NoDup_alt final) Hnodup); eauto. }
    rewrite bool_decide_or. destruct (mark bundled i), (mark covered i), (bool_decide (h = x)),
      (bool_decide (h ∈ hashes)), s; done.
  - apply positions_of_none in E. specialize (IH bundled covered Hb Hc).
    destruct (foldl _ _ hashes) as [b c]. destruct IH as (? & ? & IH). split_and!; [done..|].
    intros i h Hi. destruct (IH i h Hi) as [-> ->].
    assert (bool_decide (h ∈ x :: hashes) = bool_decide (h ∈ hashes)) as ->; [|done].
    apply bool_decide_ext. rewrite elem_of_cons. split; [|by right].
    intros [->|]; [|done]. by destruct E; eapply list_elem_of_lookup_2.
Qed.

Lemma mark_orders_spec orders bundled covered :
  length bundled = length final → length covered = length final →
  let '(b, c) := foldl (mark_order (positions_of final)) (bundled, covered) orders in
  ∀ i h, final !! i = Some h →
    (mark b i = true ↔ mark bundled i = true ∨ ∃ o, o ∈ orders ∧ h ∈ ox_hashes o) ∧
    (mark c i = true ↔
      mark covered i = true ∨ ∃ o, o ∈ orders ∧ h ∈ ox_hashes o ∧ honoured o final).
Proof.
  revert bundled covered. induction orders as [|o orders IH]; intros bundled covered Hb Hc.
  { cbn. intros i h _. split; (split; [by left|]); intros [?|(o & Ho & _)]; [done|by apply elem_of_nil in Ho..| |];
      try done; by apply elem_of_nil in Ho. }
  cbn [foldl]. pose proof (mark_order_spec o bundled covered Hb Hc) as Ho.
  destruct (mark_order _ _ o) as [b c]. destruct Ho as (Hb' & Hc' & Ho).
  specialize (IH b c Hb' Hc'). destruct (foldl _ _ orders) as [b' c'].
  intros i h Hi. destruct (IH i h Hi) as [-> ->]. destruct (Ho i h Hi) as [-> ->].
  rewrite !orb_true_iff, andb_true_iff, bool_decide_eq_true, is_satisfied_spec.
  assert (∀ P : OrderTxs → Prop, (∃ x, x ∈ o :: orders ∧ P x) ↔ P o ∨ ∃ x, x ∈ orders ∧ P x) as Hex.
  { intros P. setoid_rewrite elem_of_cons. split; [intros (x & [->|?] & ?); eauto|].
    intros [?|(x & ? & ?)]; eauto. }
  rewrite !Hex. tauto.
Qed.
End unbundling.

Lemma mark_replicate n i : mark (replicate n false) i = false.
Proof.
  unfold mark. destruct (replicate n false !! i) eqn:E; [|done].
  apply lookup_replicate in E as [-> _]. done.
Qed.

Lemma enumerate_snd {A} (l : list A) : snd <$> enumerate l = l.
Proof.
  unfold enumerate. generalize 0%nat. induction l as [|x l IH]; intros k; cbn; [done|].
  by rewrite IH.
Qed.

(** The check for unbundled transactions is exact: it reports, in the order
    of the block, the appended transactions that belong to some forwarded order
    and to none that is honoured. *)
Theorem find_unbundled_exact final orders :
  NoDup final →
  find_unbundled_txs final orders `sublist_of` final ∧
  ∀ h, h ∈ find_unbundled_txs final orders ↔
    h ∈ final ∧ (∃ o, o ∈ orders ∧ h ∈ ox_hashes o) ∧
    ∀ o, o ∈ orders → h ∈ ox_hashes o → ¬ honoured o final.
Proof.
  intros Hnd. unfold find_unbundled_txs.
  pose proof (mark_orders_spec final Hnd orders (replicate (length final) false)
    (replicate (length final) false) ltac:(apply length_replicate) ltac:(apply length_replicate)) as Hm.
  destruct (foldl _ _ orders) as [b c]. split.
  - rewrite <- (enumerate_snd final) at 2.
    induction (enumerate final) as [|e l IH]; [done|]. cbn. destruct (let '(i, _) := e in _); by constructor.
  - intros h. rewrite list_elem_of_fmap. setoid_rewrite elem_of_bool_filter. split.
    + intros ([i x] & -> & [Hi%elem_of_enumerate Hp]). cbn in *.
      destruct (Hm i x Hi) as [Hb Hc]. apply andb_true_iff in Hp as [Hp1 Hp2].
      change (mark b i = true) in Hp1. rewrite Hb in Hp1. split; [by eapply list_elem_of_lookup_2|].
      split.
      * destruct Hp1 as [Hp1|?]; [|done]. by rewrite mark_replicate in Hp1.
      * intros o Ho Hx Hh. apply negb_true_iff in Hp2. change (mark c i = false) in Hp2.
        apply not_true_iff_false in Hp2. apply Hp2, Hc. right. eauto.
    + intros (Hh & Hin & Hno). apply list_elem_of_lookup in Hh as [i Hi]. exists (i, h).
      split; [done|]. split; [by apply elem_of_enumerate|]. destruct (Hm i h Hi) as [Hb Hc].
      change (mark b i && negb (mark c i) = true). rewrite andb_true_iff, negb_true_iff, <- not_true_iff_false, Hb, Hc.
      split; [by right|]. rewrite mark_replicate. intros [?|(o & Ho & Hx & ?)]; [done|]. by eapply Hno.
Qed.

(** ** Orders and their references

    What an order lets happen to each of its transactions. *)
Inductive Behaviour := Required | MayRevert | MayDrop.

Definition has_flag (o : OrderV2) (flag : Z) : bool := negb (Z.land (ov_flags o) flag =? 0).

Definition declared (o : OrderV2) (codes : option OrderTxCodes) (i : Z) : Behaviour :=
  match codes with
  | None => if has_flag o ALL_REVERT then MayRevert else Required
  | Some c =>
      if bool_decide (code c i = Some CODE_REVERT) then MayRevert
      else if bool_decide (code c i = Some CODE_DROP) then MayDrop else Required
  end.

(** The transactions of a reference, with what may happen to each. *)
Definition ref_txs (r : MergeOrderRef) : list (Z * Behaviour) :=
  match r with
  | RefTx t => [(tr_index t, if tr_can_revert t then MayRevert else Required)]
  | RefBundle b =>
      imap (λ i tx, (tx,
        if bool_decide (Z.of_nat i ∈ br_reverting_txs b) then MayRevert
        else if bool_decide (Z.of_nat i ∈ br_dropping_txs b) then MayDrop else Required)) (br_txs b)
  end.

Definition ref_latest_only (r : MergeOrderRef) : bool :=
  match r with RefTx _ => false | RefBundle b => br_latest_only b end.

(** The orders of a block of [n] transactions that can be forwarded. *)
Definition forwardable (o : OrderV2) (codes : option OrderTxCodes) (n : Z) : Prop :=
  1 ≤ ov_len o ≤ MAX_BUNDLE_TXS ∧ Z.land (ov_flags o) (Z.lnot KNOWN_FLAGS) = 0 ∧
  ov_start o + ov_len o ≤ Z.min u16_max n ∧
  match codes with
  | None => True
  | Some c =>
      has_flag o ALL_REVERT = false ∧ len (oc_codes c) = codes_len (ov_len o) ∧
      ∀ i, 0 ≤ i < ov_len o → code c i ≠ Some 3
  end.

Lemma code_range c i k : code c i = Some k → k = 0 ∨ k = 1 ∨ k = 2 ∨ k = 3.
Proof.
  unfold code. intros (b & _ & [= <-])%bind_Some.
  rewrite (Z.land_ones _ 2) by lia.
  pose proof (Z.mod_pos_bound (Z.shiftr b (2 * (i mod 4))) (2 ^ 2)). lia.
Qed.

Lemma code_in_range c n i :
  len (oc_codes c) = codes_len n → 0 ≤ i < n → is_Some (code c i).
Proof.
  unfold codes_len, len, code. intros Hl Hi.
  destruct (lookup_lt_is_Some_2 (oc_codes c) (Z.to_nat (i / 4))) as [b ->]; [|by eexists].
  Z.to_euclidean_division_equations. lia.
Qed.

Lemma split_codes_spec c txs rev drop :
  (∀ i, i ∈ txs → is_Some (code c i)) →
  (∀ i, i ∈ txs → code c i ≠ Some 3) ∧
    split_codes c txs rev drop =
      Some (Some (rev ++ filter (λ i, code c i = Some CODE_REVERT) txs,
                  drop ++ filter (λ i, code c i = Some CODE_DROP) txs)) ∨
  (∃ i, i ∈ txs ∧ code c i = Some 3) ∧ split_codes c txs rev drop = Some None.
Proof.
  revert rev drop. induction txs as [|i txs IH]; intros rev drop Hr.
  { left. split; [by intros ? ?%elem_of_nil|]. cbn. by rewrite !app_nil_r. }
  destruct (Hr i) as [k Hk]; [by left|]. cbn [split_codes]. rewrite Hk. cbn [mbind option_bind].
  assert (∀ j, j ∈ txs → is_Some (code c j)) as Hr' by (intros j Hj; apply Hr; by right).
  setoid_rewrite elem_of_cons.
  destruct (code_range _ _ _ Hk) as [->|[->|[->| ->]]]; cbn -[filter].
  - rewrite !filter_cons_False by (rewrite Hk; done). destruct (IH rev drop Hr') as [[? ->]|[? ->]];
      [left|right]; naive_solver.
  - rewrite filter_cons_True by done. rewrite filter_cons_False by (rewrite Hk; done).
    destruct (IH (rev ++ [i]) drop Hr') as [[? ->]|[? ->]]; [left; rewrite <- app_assoc|right]; naive_solver.
  - rewrite filter_cons_False by (rewrite Hk; done). rewrite filter_cons_True by done.
    destruct (IH rev (drop ++ [i]) Hr') as [[? ->]|[? ->]]; [left; rewrite <- app_assoc|right]; naive_solver.
  - right. split; [|done]. naive_solver.
Qed.

Lemma ref_txs_bundle s l rev drop latest :
  ref_txs (RefBundle (mkBundleOrderRef (seqZ s l) rev drop latest)) =
  (λ i, (s + i, if bool_decide (i ∈ rev) then MayRevert
                else if bool_decide (i ∈ drop) then MayDrop else Required)) <$> seqZ 0 l.
Proof.
  cbn. apply list_eq. intros i. rewrite list_lookup_imap, list_lookup_fmap.
  destruct (decide (Z.of_nat i < l)) as [Hi|Hi].
  - rewrite !lookup_seqZ_lt by lia. cbn. by rewrite Z.add_0_l.
  - by rewrite !lookup_seqZ_ge by lia.
Qed.

Lemma existsb_ge n l : existsb (λ i, n <=? i) l = false ↔ ∀ i, i ∈ l → i < n.
Proof.
  rewrite <- not_true_iff_false, existsb_elem. setoid_rewrite Z.leb_le. split.
  - intros H i Hi. destruct (decide (i < n)); [done|]. destruct H. exists i. split; [done|lia].
  - intros H (i & Hi & ?). specialize (H i Hi). lia.
Qed.

Lemma bundle_validate n s l rev drop latest :
  0 ≤ s → 1 ≤ l → (∀ i, i ∈ rev → 0 ≤ i < l) → (∀ i, i ∈ drop → 0 ≤ i < l) →
  ref_validate (RefBundle (mkBundleOrderRef (seqZ s l) rev drop latest)) n = true ↔
  l ≤ MAX_BUNDLE_TXS ∧ s + l ≤ n.
Proof.
  intros Hs Hl Hrev Hdrop. cbn [ref_validate br_txs br_reverting_txs br_dropping_txs].
  assert (len (seqZ s l) = l) as Hlen by (unfold len; rewrite length_seqZ; lia).
  rewrite Hlen, negb_true_iff, !orb_false_iff, !existsb_ge, Z.eqb_neq, Z.ltb_ge.
  setoid_rewrite elem_of_seqZ. split.
  - intros ((((_ & ?) & Hall) & _) & _). split; [done|]. specialize (Hall (s + l - 1)). lia.
  - intros [? ?]. split_and!; [lia|done|intros i ?; lia|intros i Hi; apply Hrev in Hi; lia
      |intros i Hi; apply Hdrop in Hi; lia].
Qed.

(** The last step: a reference that describes the order is kept if valid. *)
Lemma validated_ref n r txs latest (P : Prop) :
  ref_txs r = txs → ref_latest_only r = latest → (ref_validate r n = true ↔ P) →
  ∃ res, Some (x ← Some r; if ref_validate x n then Some x else None) = Some res ∧
    (is_Some res ↔ P) ∧
    ∀ x, res = Some x → ref_txs x = txs ∧ ref_latest_only x = latest ∧ ref_validate x n = true.
Proof.
  intros Htxs Hlat HP. eexists. split; [reflexivity|]. cbn. rewrite <- HP.
  destruct (ref_validate r n) eqn:E; (split; [split; intros H|intros x [= <-]]); [done|by eexists|done|by destruct H|done].
Qed.

(** Turning a submitted order into a wire reference never panics, gives a
    reference exactly for the orders that can be forwarded, and the reference
    names the transactions of the order with what the order declared of each,
    all inside the block. *)
Theorem order_to_ref_exact o codes n :
  0 ≤ ov_start o → 0 ≤ ov_len o →
  ∃ res, order_to_ref o codes n = Some res ∧ (is_Some res ↔ forwardable o codes n) ∧
    ∀ r, res = Some r →
      ref_txs r = (λ i, (ov_start o + i, declared o codes i)) <$> seqZ 0 (ov_len o) ∧
      ref_latest_only r = has_flag o LATEST_ONLY ∧ ref_validate r n = true.
Proof.
  intros Hs Hl. unfold order_to_ref, forwardable.
  destruct (Z.eqb_spec (ov_len o) 0) as [H0|H0]; cbn [orb].
  { exists None. split; [done|]. split; [|done]. split; [by intros []|lia]. }
  destruct (Z.eqb_spec (Z.land (ov_flags o) (Z.lnot KNOWN_FLAGS)) 0) as [Hf|Hf]; cbn [negb];
    [|exists None; split; [done|]; split; [split; [by intros []|naive_solver]|done]].
  fold (has_flag o ALL_REVERT). fold (has_flag o LATEST_ONLY).
  destruct (Z.ltb_spec u16_max (ov_start o + ov_len o)) as [Hu|Hu].
  { exists None. split; [done|]. split; [|done]. split; [by intros []|lia]. }
  destruct codes as [c|].
  - destruct (has_flag o ALL_REVERT) eqn:Ha; cbn [orb].
    { exists None. split; [done|]. split; [|done]. split; [by intros []|naive_solver]. }
    destruct (Z.eqb_spec (len (oc_codes c)) (codes_len (ov_len o))) as [Hc|Hc]; cbn [negb];
      [|exists None; split; [done|]; split; [split; [by intros []|naive_solver]|done]].
    destruct (split_codes_spec c (seqZ 0 (ov_len o)) [] []) as [[H3 ->]|[H3 ->]].
    { intros i Hi%elem_of_seqZ. eapply code_in_range; [done|lia]. }
    + cbn [app mbind option_bind fmap option_fmap option_map]. apply validated_ref.
      * rewrite ref_txs_bundle. apply list_fmap_ext. intros k i Hi.
        apply list_elem_of_lookup_2 in Hi. unfold declared.
        rewrite !(bool_decide_ext (i ∈ filter _ _) _ (list_elem_of_filter _ _ _)).
        f_equal. repeat case_bool_decide; naive_solver.
      * done.
      * rewrite bundle_validate by (lia || intros i [_ ?%elem_of_seqZ]%list_elem_of_filter; lia).
        setoid_rewrite elem_of_seqZ in H3. split; [|lia].
        intros [? ?]. split_and!; [lia..|done|]. intros i Hi. apply H3. lia.
    + exists None. split; [done|]. split; [|done]. split; [by intros []|].
      destruct H3 as (i & Hi%elem_of_seqZ & H3). intros (_ & _ & _ & _ & _ & Hn). by destruct (Hn i); [lia|].
  - destruct ((ov_len o =? 1) && negb (has_flag o LATEST_ONLY)) eqn:E1; cbn [mbind option_bind].
    + apply andb_true_iff in E1 as [E1%Z.eqb_eq E2%negb_true_iff]. apply validated_ref.
      * rewrite E1. change (seqZ 0 1) with [0]. cbn [ref_txs fmap list_fmap tr_index tr_can_revert declared].
        by rewrite Z.add_0_r.
      * by rewrite E2.
      * cbn [ref_validate tr_index]. rewrite negb_true_iff, Z.leb_gt. unfold MAX_BUNDLE_TXS. lia.
    + apply validated_ref.
      * rewrite ref_txs_bundle. apply list_fmap_ext. intros k i Hi.
        apply list_elem_of_lookup_2 in Hi. unfold declared. f_equal.
        destruct (has_flag o ALL_REVERT); rewrite ?(bool_decide_true (i ∈ seqZ _ _)) by done; [done|].
        by rewrite !bool_decide_false by apply not_elem_of_nil.
      * done.
      * rewrite bundle_validate; [lia|lia|lia| |].
        -- destruct (has_flag o ALL_REVERT); [intros i ?%elem_of_seqZ; lia|by intros i ?%elem_of_nil].
        -- by intros i ?%elem_of_nil.
Qed.

(** Indices are unsigned. *)
Definition ref_typed (r : MergeOrderRef) : Prop :=
  match r with
  | RefTx t => 0 ≤ tr_index t
  | RefBundle b => Forall (Z.le 0) (br_txs b) ∧ Forall (Z.le 0) (br_reverting_txs b) ∧
                   Forall (Z.le 0) (br_dropping_txs b)
  end.

Lemma split_codes_forall (P : Z → Prop) c txs rev drop r d :
  Forall P txs → Forall P rev → Forall P drop → split_codes c txs rev drop = Some (Some (r, d)) →
  Forall P r ∧ Forall P d.
Proof.
  revert rev drop. induction txs as [|i txs IH]; intros rev drop Ht Hr Hd; [by intros [= <- <-]|].
  inversion Ht; subst. cbn [split_codes]. destruct (code c i); [|done]. cbn [mbind option_bind].
  assert (∀ l, Forall P l → Forall P (l ++ [i])) as Hsnoc by (intros l ?; apply Forall_app; by split; [|apply Forall_singleton]).
  repeat case_match; try done; apply IH; auto.
Qed.

Lemma order_to_ref_typed o codes n r :
  0 ≤ ov_start o → order_to_ref o codes n = Some (Some r) → ref_typed r.
Proof.
  intros Hs. unfold order_to_ref. destruct (_ || _); [done|]. destruct (_ <? _); [done|].
  assert (∀ s k, 0 ≤ s → Forall (Z.le 0) (seqZ s k)) as Hseq
    by (intros s k ?; apply Forall_forall; intros i ?%elem_of_seqZ; lia).
  intros (res & Hres & [= Hr])%bind_Some. apply bind_Some in Hr as (r' & -> & Hr).
  destruct (ref_validate r' n); [injection Hr as ->|done]. destruct codes as [c|].
  - destruct (_ || _); [done|]. apply bind_Some in Hres as ([[rev drop]|] & Hsp & [= <-]).
    apply (split_codes_forall (Z.le 0)) in Hsp as [? ?]; [|by apply Hseq|done..]. by split_and!; [apply Hseq|..].
  - destruct (_ && _); injection Hres as <-; [done|]. split_and!; cbn; [by apply Hseq| |done].
    destruct (negb _); [by apply Hseq|done].
Qed.

(** ** Orders in the first format

    The loop of [forward_decoded] over the orders of a submission; [None]: a
    panic. *)
Definition merge_refs (d : BlockMergingDataV2) (block_tx_count : Z) : option (list MergeOrderRef) :=
  refs ← mapM (λ '(i, order),
           order_to_ref order (find (λ c, oc_order c =? Z.of_nat i) (md_tx_codes d)) block_tx_count)
           (enumerate (md_orders d));
  Some (omap id refs).

(** What a bundle of the first format declares of its transactions. *)
Definition v1_behaviour (b : BundleOrder) (i : Z) : Behaviour :=
  if bool_decide (i ∈ bo_reverting_txs b) then MayRevert
  else if bool_decide (i ∈ bo_dropping_txs b) then MayDrop else Required.

Definition v1_txs (o : Order) : list (Z * Behaviour) :=
  match o with
  | OTx t => [(to_index t, if to_can_revert t then MayRevert else Required)]
  | OBundle b | OBundleV2 b _ => imap (λ i tx, (tx, v1_behaviour b (Z.of_nat i))) (bo_txs b)
  end.

Definition v1_latest_only (o : Order) : bool :=
  match o with OBundleV2 _ flags => Z.land flags 1 =? 1 | _ => false end.

(** Contiguous bundles whose indices are distinct and in range. *)
Definition bundle_ok (b : BundleOrder) : Prop :=
  (∃ first n, 0 ≤ first ∧ bo_txs b = seqZ first n) ∧
  NoDup (bo_reverting_txs b ++ bo_dropping_txs b) ∧
  Forall (λ i, 0 ≤ i < len (bo_txs b)) (bo_reverting_txs b ++ bo_dropping_txs b).

Definition v1_ok (o : Order) : Prop :=
  match o with OTx t => 0 ≤ to_index t | OBundle b | OBundleV2 b _ => bundle_ok b end.

(** The orders a block of [n] transactions forwards. *)
Definition v1_fits (n : Z) (o : Order) : Prop :=
  1 ≤ len (v1_txs o) ≤ MAX_BUNDLE_TXS ∧ Forall (λ e, e.1 < Z.min u16_max n) (v1_txs o).

Lemma set_code_spec n k codes idx c i :
  0 ≤ idx < n → 0 ≤ i → c = CODE_REVERT ∨ c = CODE_DROP →
  code (mkOrderTxCodes k (set_code n codes (idx, c))) i =
  (λ old, if bool_decide (i = idx) then Z.lor old c else old) <$> code (mkOrderTxCodes k codes) i.
Proof.
  intros Hidx Hi Hc. unfold set_code, code. rewrite (proj2 (Z.ltb_lt _ _)) by lia. cbn [oc_codes].
  destruct (decide (i / 4 = idx / 4)) as [Hq|Hq].
  - rewrite Hq, list_lookup_alter_eq. destruct (codes !! _) as [b|]; [|done]. cbn. f_equal.
    rewrite Z.shiftr_lor, Z.land_lor_distr_l.
    assert (Z.land (Z.shiftr (Z.shiftl c (2 * (idx mod 4))) (2 * (i mod 4))) 3 =
            if bool_decide (i = idx) then c else 0) as ->.
    { rewrite (bool_decide_ext _ (i mod 4 = idx mod 4))
        by (Z.to_euclidean_division_equations; lia).
      assert (∀ x, x mod 4 = 0 ∨ x mod 4 = 1 ∨ x mod 4 = 2 ∨ x mod 4 = 3) as H4
        by (intros x; pose proof (Z.mod_pos_bound x 4); lia).
      destruct (H4 i) as [->|[->|[->| ->]]], (H4 idx) as [->|[->|[->| ->]]], Hc as [->| ->]; done. }
    case_bool_decide; [done|]. by rewrite Z.lor_0_r.
  - rewrite list_lookup_alter_ne by (intros ?; apply Hq; apply Z2Nat.inj; [| |done];
      apply Z.div_pos; lia).
    rewrite bool_decide_false by (by intros ->). by destruct (codes !! _).
Qed.

Lemma foldl_set_code n k es codes i :
  Forall (λ e, 0 ≤ e.1 < n ∧ (e.2 = CODE_REVERT ∨ e.2 = CODE_DROP)) es → NoDup es.*1 → 0 ≤ i →
  (∀ e, e ∈ es → e.1 = i → code (mkOrderTxCodes k codes) i = Some 0) →
  code (mkOrderTxCodes k (foldl (set_code n) codes es)) i =
  match find (λ e, e.1 =? i) es with
  | Some e => Some e.2
  | None => code (mkOrderTxCodes k codes) i
  end.
Proof.
  intros Hes Hnd Hi. revert codes. induction es as [|[idx c] es IH]; intros codes Hz; [done|].
  inversion Hes as [|? ? [Hidx Hc] Hes']; subst. cbn in Hnd. apply NoDup_cons in Hnd as [Hnotin Hnd].
  cbn [foldl]. rewrite IH, set_code_spec; [|done..|].
  - rewrite find_cons. cbn [fst snd]. destruct (Z.eqb_spec idx i) as [->|Hne].
    + assert (find (λ e, e.1 =? i) es = None) as ->.
      { apply find_none. intros e He. apply Z.eqb_neq. intros <-. apply Hnotin.
        apply list_elem_of_fmap. eauto. }
      rewrite (Hz (i, c)) by (done || by left). cbn. by rewrite bool_decide_true.
    + rewrite bool_decide_false by done. by destruct (find _ es), (code _ i).
  - intros e He <-. rewrite set_code_spec by (done || lia). rewrite bool_decide_false.
    + rewrite (Hz e); [done|by right|done].
    + intros <-. apply Hnotin. apply list_elem_of_fmap. eauto.
Qed.

Lemma foldl_set_code_length n es codes : length (foldl (set_code n) codes es) = length codes.
Proof.
  revert codes. induction es as [|[idx c] es IH]; intros codes; [done|]. cbn [foldl]. rewrite IH.
  unfold set_code. destruct (idx <? n); [by rewrite length_alter|done].
Qed.

Lemma len_zero {A} (l : list A) : len l = 0 ↔ l = [].
Proof. unfold len. split; [|by intros ->]. intros H. apply length_zero_iff_nil. lia. Qed.

Lemma all_indices (l : list Z) n :
  0 ≤ n → NoDup l → Forall (λ i, 0 ≤ i < n) l → len l = n → ∀ i, 0 ≤ i < n → i ∈ l.
Proof.
  intros Hn Hnd Hl Hlen i Hi.
  assert (l ≡ₚ seqZ 0 n) as ->; [|apply elem_of_seqZ; lia].
  apply submseteq_length_Permutation.
  - apply NoDup_submseteq; [done|]. intros j Hj. rewrite Forall_forall in Hl.
    specialize (Hl j Hj). apply elem_of_seqZ. lia.
  - rewrite length_seqZ. unfold len in Hlen. lia.
Qed.

(** The codes a bundle gets. *)
Lemma bundle_codes b k i :
  bundle_ok b → 0 ≤ i < len (bo_txs b) →
  code (mkOrderTxCodes k (foldl (set_code (len (bo_txs b)))
    (replicate (Z.to_nat (codes_len (len (bo_txs b)))) 0)
    (((λ i, (i, CODE_REVERT)) <$> bo_reverting_txs b) ++
     ((λ i, (i, CODE_DROP)) <$> bo_dropping_txs b)))) i =
  Some (match v1_behaviour b i with Required => CODE_NONE | MayRevert => CODE_REVERT | MayDrop => CODE_DROP end).
Proof.
  intros (_ & Hnd & Hr) Hi. set (es := _ ++ _).
  assert (es.*1 = bo_reverting_txs b ++ bo_dropping_txs b) as Hfst.
  { unfold es. by rewrite fmap_app, <- !list_fmap_compose, !list_fmap_id. }
  assert (∀ e, e ∈ es ↔ e.1 ∈ bo_reverting_txs b ∧ e.2 = CODE_REVERT ∨
                        e.1 ∈ bo_dropping_txs b ∧ e.2 = CODE_DROP) as Hes.
  { intros [j c]. unfold es. rewrite elem_of_app, !list_elem_of_fmap. naive_solver. }
  assert (code (mkOrderTxCodes k (replicate (Z.to_nat (codes_len (len (bo_txs b)))) 0)) i = Some 0) as Hz.
  { destruct (code_in_range (mkOrderTxCodes k (replicate (Z.to_nat (codes_len (len (bo_txs b)))) 0))
      (len (bo_txs b)) i) as [x Hx]; [|done|].
    - unfold len at 1. cbn. rewrite length_replicate. unfold codes_len.
      Z.to_euclidean_division_equations. lia.
    - rewrite Hx. unfold code in Hx. apply bind_Some in Hx as (y & [-> _]%lookup_replicate & [= <-]).
      by rewrite Z.shiftr_0_l. }
  rewrite foldl_set_code.
  - unfold v1_behaviour. destruct (find (λ e, e.1 =? i) es) as [[j c]|] eqn:E.
    + apply find_some in E as [He Hj%Z.eqb_eq]. cbn in Hj. subst j. apply Hes in He. cbn in He.
      apply NoDup_app in Hnd as (_ & Hdisj & _).
      destruct He as [[He ->]|[He ->]]; repeat case_bool_decide; try done. by destruct (Hdisj i).
    + rewrite Hz. rewrite find_none in E.
      rewrite !bool_decide_false; [done|intros Hin..].
      * specialize (E (i, CODE_DROP)). cbn in E. rewrite Z.eqb_refl in E. discriminate E. apply Hes. by right.
      * specialize (E (i, CODE_REVERT)). cbn in E. rewrite Z.eqb_refl in E. discriminate E. apply Hes. by left.
  - apply Forall_forall. intros e He. apply Hes in He. rewrite Forall_forall in Hr.
    destruct He as [[He ->]|[He ->]]; (split; [apply Hr, elem_of_app; auto|auto]).
  - by rewrite Hfst.
  - lia.
  - done.
Qed.

Lemma compact_flags_spec b latest flags codes k start :
  bundle_ok b → compact_flags b latest = (flags, codes) →
  let o := mkOrderV2 start (len (bo_txs b)) flags in
  has_flag o LATEST_ONLY = latest ∧ Z.land flags (Z.lnot KNOWN_FLAGS) = 0 ∧
  (∀ i, 0 ≤ i < len (bo_txs b) → declared o (mkOrderTxCodes k <$> codes) i = v1_behaviour b i) ∧
  match codes with
  | None => True
  | Some c => has_flag o ALL_REVERT = false ∧ len c = codes_len (len (bo_txs b)) ∧
      ∀ i, 0 ≤ i < len (bo_txs b) → code (mkOrderTxCodes k c) i ≠ Some 3
  end.
Proof.
  intros Hok. unfold compact_flags.
  destruct ((len (bo_dropping_txs b) =? 0) && (len (bo_reverting_txs b) =? len (bo_txs b))) eqn:E1.
  - intros [= <- <-]. apply andb_true_iff in E1 as [Hd%Z.eqb_eq%len_zero Hr%Z.eqb_eq]. cbn.
    split_and!; [by destruct latest|by destruct latest| |done].
    intros i Hi. destruct Hok as (_ & Hnd & Hin). rewrite Hd, app_nil_r in *.
    unfold v1_behaviour. rewrite bool_decide_true; [by destruct latest|].
    eapply all_indices; [|done..]. unfold len. lia.
  - destruct (negb _) eqn:E2.
    + intros [= <- <-]. cbn zeta. pose proof (bundle_codes b k) as Hc.
      split_and!; [by destruct latest|by destruct latest| |by destruct latest| |].
      * intros i Hi. cbn [fmap option_fmap option_map declared]. rewrite Hc by done.
        by destruct (v1_behaviour b i).
      * unfold len at 1. rewrite foldl_set_code_length, length_replicate. unfold codes_len, len.
        Z.to_euclidean_division_equations. lia.
      * intros i Hi. rewrite Hc by done. by destruct (v1_behaviour b i).
    + intros [= <- <-]. apply negb_false_iff, andb_true_iff in E2 as [Hr%Z.eqb_eq%len_zero Hd%Z.eqb_eq%len_zero].
      cbn. split_and!; [by destruct latest|by destruct latest| |done].
      intros i Hi. unfold v1_behaviour. rewrite Hr, Hd, !bool_decide_false by apply not_elem_of_nil.
      by destruct latest.
Qed.

Lemma enumerate_snoc {A} (l : list A) x : enumerate (l ++ [x]) = enumerate l ++ [(length l, x)].
Proof.
  assert (∀ k, enumerate_from k (l ++ [x]) = enumerate_from k l ++ [((k + length l)%nat, x)]) as H;
    [|apply (H 0%nat)].
  induction l as [|y l IH]; intros k; cbn; [by rewrite Nat.add_0_r|]. by rewrite IH, Nat.add_succ_r.
Qed.

Definition indexed_codes (e : nat * (OrderV2 * option (list Z))) : option OrderTxCodes :=
  mkOrderTxCodes (Z.of_nat e.1 mod u16_modulus) <$> e.2.2.

Lemma foldl_push_order orders :
  let pairs := omap compact_order orders in
  foldl push_order ([], []) orders = (pairs.*1, omap indexed_codes (enumerate pairs)).
Proof.
  cbn zeta. induction orders as [|o orders IH] using rev_ind; [done|].
  rewrite foldl_app, IH, omap_app. cbn [foldl omap list_omap]. unfold push_order.
  destruct (compact_order o) as [[v2 c]|]; [|by rewrite !app_nil_r].
  rewrite enumerate_snoc, omap_app, fmap_app. cbn. unfold indexed_codes at 2. cbn.
  f_equal. unfold len. rewrite length_fmap. destruct c; cbn; [done|by rewrite app_nil_r].
Qed.

Lemma find_indexed_codes (pairs : list (OrderV2 * option (list Z))) j k :
  (j ≤ k)%nat → Z.of_nat (j + length pairs) ≤ u16_modulus →
  find (λ x, oc_order x =? Z.of_nat k) (omap indexed_codes (enumerate_from j pairs)) =
  (p ← pairs !! (k - j)%nat; mkOrderTxCodes (Z.of_nat k) <$> p.2).
Proof.
  revert j. induction pairs as [|[v2 c] pairs IH]; intros j Hj Hb; [done|]. cbn in Hb.
  cbn [enumerate_from omap list_omap]. unfold indexed_codes at 1. cbn [fst snd].
  rewrite Z.mod_small by lia. destruct (decide (j = k)) as [->|Hne].
  - rewrite Nat.sub_diag. destruct c as [c|]; cbn -[find]; [rewrite find_cons; cbn; by rewrite Z.eqb_refl|].
    apply find_none. intros x ([i p] & [Hi Hp]%elem_of_enumerate_from & Hx)%list_elem_of_omap.
    unfold indexed_codes in Hx. destruct p as [? [?|]]; [|done]. cbn in Hx. injection Hx as <-. cbn.
    apply lookup_lt_Some in Hp. apply Z.eqb_neq. rewrite Z.mod_small by lia. lia.
  - replace (k - j)%nat with (S (k - S j)) by lia. cbn [lookup list_lookup].
    rewrite <- IH by lia. destruct c; cbn -[find]; [|done]. rewrite find_cons. cbn -[find].
    by rewrite (proj2 (Z.eqb_neq _ _)) by lia.
Qed.

(** References do not depend on the position the codes name. *)
Lemma split_codes_order k c txs rev drop :
  split_codes (mkOrderTxCodes k c) txs rev drop = split_codes (mkOrderTxCodes 0 c) txs rev drop.
Proof.
  revert rev drop. induction txs as [|tx txs IH]; intros rev drop; [done|]. cbn [split_codes].
  change (code (mkOrderTxCodes k c) tx) with (code (mkOrderTxCodes 0 c) tx).
  destruct (code _ tx); [|done]. cbn [mbind option_bind]. by rewrite !IH.
Qed.

Definition compact_ref (n : Z) (e : OrderV2 * option (list Z)) : option (option MergeOrderRef) :=
  order_to_ref e.1 (mkOrderTxCodes 0 <$> e.2) n.

Lemma order_to_ref_order n k v2 c :
  order_to_ref v2 (mkOrderTxCodes k <$> c) n = compact_ref n (v2, c).
Proof.
  destruct c as [c|]; [|done]. unfold compact_ref, order_to_ref. cbn [fmap option_fmap option_map fst snd oc_codes].
  by rewrite split_codes_order.
Qed.

Lemma mapM_compact n (pairs : list (OrderV2 * option (list Z))) f j :
  (∀ i p, pairs !! i = Some p → ∃ k, f (j + i)%nat = mkOrderTxCodes k <$> p.2) →
  mapM (λ '(i, order), order_to_ref order (f i) n) (enumerate_from j pairs.*1) =
  mapM (compact_ref n) pairs.
Proof.
  revert j. induction pairs as [|[v2 c] pairs IH]; intros j Hf; [done|].
  cbn [enumerate_from fmap list_fmap mapM fst].
  destruct (Hf 0%nat (v2, c) eq_refl) as [k Hk]. rewrite Nat.add_0_r in Hk. rewrite Hk. cbn [snd].
  rewrite order_to_ref_order. destruct (compact_ref n (v2, c)); [|done]. cbn.
  rewrite IH; [done|]. intros i p Hi. rewrite Nat.add_succ_comm. by apply (Hf (S i)).
Qed.

(** The transactions of a contiguous bundle. *)
Definition bundle_txs (b : BundleOrder) : list (Z * Behaviour) :=
  imap (λ i tx, (tx, v1_behaviour b (Z.of_nat i))) (bo_txs b).

Lemma bundle_txs_seq b first n :
  bo_txs b = seqZ first n → bundle_txs b = (λ i, (first + i, v1_behaviour b i)) <$> seqZ 0 n.
Proof.
  unfold bundle_txs. intros ->. apply list_eq. intros i. rewrite list_lookup_imap, list_lookup_fmap.
  destruct (decide (Z.of_nat i < n)) as [Hi|Hi].
  - rewrite !lookup_seqZ_lt by lia. cbn. by rewrite Z.add_0_l.
  - by rewrite !lookup_seqZ_ge by lia.
Qed.

Lemma bundle_fits b first n m :
  bo_txs b = seqZ first n → 1 ≤ n →
  (1 ≤ len (bundle_txs b) ≤ MAX_BUNDLE_TXS ∧ Forall (λ e, e.1 < m) (bundle_txs b)) ↔
  1 ≤ n ≤ MAX_BUNDLE_TXS ∧ first + n ≤ m.
Proof.
  intros Hb Hn. rewrite (bundle_txs_seq _ _ _ Hb). unfold len. rewrite length_fmap, length_seqZ.
  rewrite Forall_fmap, Forall_forall. setoid_rewrite elem_of_seqZ. unfold compose. cbn.
  split.
  - intros [? Hall]. split; [lia|]. specialize (Hall (n - 1)). lia.
  - intros [? ?]. split; [lia|]. intros i Hi. lia.
Qed.

Lemma compact_bundle b latest n :
  bundle_ok b → 
  match first ← head (bo_txs b);
        if len (bo_txs b) <=? 255 then
          if first <=? u16_max then
            let '(flags, codes) := compact_flags b latest in
            Some (mkOrderV2 first (len (bo_txs b)) flags, codes)
          else None
        else None with
  | Some (v2, c) =>
      0 ≤ ov_start v2 ∧ 0 ≤ ov_len v2 ∧
      (forwardable v2 (mkOrderTxCodes 0 <$> c) n ↔
       1 ≤ len (bundle_txs b) ≤ MAX_BUNDLE_TXS ∧ Forall (λ e, e.1 < Z.min u16_max n) (bundle_txs b)) ∧
      (λ i, (ov_start v2 + i, declared v2 (mkOrderTxCodes 0 <$> c) i)) <$> seqZ 0 (ov_len v2) = bundle_txs b ∧
      has_flag v2 LATEST_ONLY = latest
  | None => ¬ (1 ≤ len (bundle_txs b) ≤ MAX_BUNDLE_TXS ∧ Forall (λ e, e.1 < Z.min u16_max n) (bundle_txs b))
  end.
Proof.
  intros Hok. pose proof Hok as ((first & m & Hf & Hb) & _).
  destruct (decide (1 ≤ m)) as [Hm|Hm].
  2: { rewrite (seqZ_nil first m) in Hb by lia. rewrite Hb. cbn. unfold bundle_txs. rewrite Hb. cbn.
       unfold len. cbn. lia. }
  assert (len (bo_txs b) = m) as Hlen by (rewrite Hb; unfold len; rewrite length_seqZ; lia).
  pose proof (bundle_fits b first m (Z.min u16_max n) Hb Hm) as Hfits.
  set (fits := _ ∧ Forall _ (bundle_txs b)) in *. clearbody fits.
  replace (head (bo_txs b)) with (Some first) by (by rewrite Hb, (seqZ_cons first m) by lia).
  cbn [mbind option_bind]. rewrite Hlen.
  destruct (Z.leb_spec m 255); [|rewrite Hfits; unfold MAX_BUNDLE_TXS; lia].
  destruct (Z.leb_spec first u16_max); [|rewrite Hfits; unfold MAX_BUNDLE_TXS in *; lia].
  destruct (compact_flags b latest) as [flags codes] eqn:Ec.
  destruct (compact_flags_spec b latest flags codes 0 first Hok Ec) as (Hlat & Hknown & Hdecl & Hcodes).
  rewrite Hlen in *. cbn [ov_start ov_len]. split_and!; [done|lia| | |done].
  - unfold forwardable. cbn [ov_len ov_flags ov_start].
    assert (match mkOrderTxCodes 0 <$> codes with None => True | Some c =>
      has_flag (mkOrderV2 first m flags) ALL_REVERT = false ∧ len (oc_codes c) = codes_len m ∧
      ∀ i, 0 ≤ i < m → code c i ≠ Some 3 end) by (by destruct codes).
    rewrite Hfits. split; [intros (? & _ & ? & _); lia|]. intros [? ?]. split_and!; [lia..|done|lia|done].
  - rewrite (bundle_txs_seq _ _ _ Hb). apply list_fmap_ext. intros k i Hi%list_elem_of_lookup_2%elem_of_seqZ.
    by rewrite Hdecl by lia.
Qed.

Lemma compact_order_spec o n :
  v1_ok o →
  match compact_order o with
  | Some (v2, c) =>
      0 ≤ ov_start v2 ∧ 0 ≤ ov_len v2 ∧ (forwardable v2 (mkOrderTxCodes 0 <$> c) n ↔ v1_fits n o) ∧
      (λ i, (ov_start v2 + i, declared v2 (mkOrderTxCodes 0 <$> c) i)) <$> seqZ 0 (ov_len v2) = v1_txs o ∧
      has_flag v2 LATEST_ONLY = v1_latest_only o
  | None => ¬ v1_fits n o
  end.
Proof.
  destruct o as [t|b|b flags]; intros Hok; cbn in Hok; [|by apply compact_bundle..].
  assert (v1_fits n (OTx t) ↔ to_index t < Z.min u16_max n) as Hfits.
  { unfold v1_fits. cbn [v1_txs]. rewrite Forall_singleton. cbn. unfold len, MAX_BUNDLE_TXS. cbn. lia. }
  unfold compact_order. set (fits := v1_fits n (OTx t)) in *. clearbody fits.
  destruct (Z.leb_spec (to_index t) u16_max); [|rewrite Hfits; lia].
  cbn [ov_start ov_len]. split_and!; [done|lia| | |by destruct (to_can_revert t)].
  - unfold forwardable, MAX_BUNDLE_TXS. cbn [ov_len ov_flags ov_start fmap option_fmap option_map].
    assert (∀ b : bool, Z.land (if b then ALL_REVERT else 0) (Z.lnot KNOWN_FLAGS) = 0) as Hk by (by intros []).
    rewrite Hfits, Hk. lia.
  - change (seqZ 0 1) with [0]. cbn [fmap list_fmap]. rewrite Z.add_0_r. by destruct t as [? []].
Qed.

Lemma omap_length_le {A B} (f : A → option B) l : (length (omap f l) ≤ length l)%nat.
Proof. induction l as [|x l IH]; cbn; [done|]. destruct (f x); cbn; lia. Qed.

#[export] Instance v1_fits_dec n o : Decision (v1_fits n o).
Proof. apply _. Defined.

(** C37: Orders in the first format reach the wire as they were declared: for
    at most 65536 orders, whose bundles are contiguous and flag distinct positions
    within them, the conversion to the compact format followed by the conversion
    to references never panics and forwards,
    in order, exactly the orders that fit the block, each with its transactions
    and with what it declared of each of them. *)
Theorem v1_orders_round_trip v1 n :
  Forall v1_ok (mg_merge_orders v1) → len (mg_merge_orders v1) ≤ u16_modulus →
  ∃ refs, merge_refs (merging_data_from_v1 v1) n = Some refs ∧
    (λ r, (ref_txs r, ref_latest_only r)) <$> refs =
    (λ o, (v1_txs o, v1_latest_only o)) <$> filter (v1_fits n) (mg_merge_orders v1).
Proof.
  intros Hok Hlen. unfold merge_refs, merging_data_from_v1.
  pose proof (foldl_push_order (mg_merge_orders v1)) as Hp. cbn zeta in Hp. rewrite Hp.
  cbn [md_orders md_tx_codes]. clear Hp. unfold enumerate at 2. rewrite mapM_compact.
  - clear Hlen. induction Hok as [|o orders Ho Hok IH]; [by exists []|].
    destruct IH as (refs & IH & Hrefs). apply bind_Some in IH as (rs & Hrs & [= Hid]).
    cbn [omap list_omap]. pose proof (compact_order_spec o n Ho) as Hc.
    destruct (compact_order o) as [[v2 c]|].
    + destruct Hc as (Hs & Hl & Hfits & Htxs & Hlat). cbn [mapM].
      destruct (order_to_ref_exact v2 (mkOrderTxCodes 0 <$> c) n Hs Hl) as (res & Hres & His & Hr).
      change (compact_ref n (v2, c) = Some res) in Hres. rewrite Hres. cbn [mbind option_bind]. rewrite Hrs.
      cbn [mbind option_bind mret option_ret omap list_omap id]. eexists. split; [reflexivity|].
      rewrite filter_cons. destruct res as [r|].
      * rewrite decide_True by (apply Hfits, His; by eexists). destruct (Hr r eq_refl) as (Hr1 & Hr2 & _).
        cbn [fmap list_fmap]. rewrite Hr1, Hr2, Htxs, Hlat, Hid. by f_equal.
      * rewrite decide_False; [by rewrite Hid|]. intros Hf. apply Hfits, His in Hf as []. done.
    + rewrite filter_cons_False by done. exists refs. split; [|done]. rewrite Hrs. cbn. by rewrite Hid.
  - intros i p Hi. exists (Z.of_nat i). cbn [plus]. unfold enumerate.
    rewrite find_indexed_codes; [by rewrite Nat.sub_0_r, Hi|lia|].
    cbn. pose proof (omap_length_le compact_order (mg_merge_orders v1)). unfold len in Hlen. lia.
Qed.

(** The conversion from the first format keeps only the first index and the
    length of a bundle: a bundle with a gap is forwarded as other transactions
    of the block, and a reverting index named twice makes every transaction of
    the bundle revertible. *)
Theorem v1_gap_rewritten :
  let forwarded txs reverting :=
    merge_refs (merging_data_from_v1 (mkBlockMergingData true 1 [OBundle (mkBundleOrder txs reverting [])])) 10 in
  forwarded [3; 5] [] = Some [RefBundle (mkBundleOrderRef [3; 4] [] [] false)] ∧
  forwarded [3; 4] [0; 0] = Some [RefBundle (mkBundleOrderRef [3; 4] [0; 1] [] false)].
Proof. split; vm_compute; reflexivity. Qed.

(** ** Examples *)

Definition ex_v1_orders : BlockMergingData :=
  mkBlockMergingData true 1
    [OTx (mkTransactionOrder 2 true); OBundleV2 (mkBundleOrder [3; 4; 5] [1] [2]) 1;
     OBundle (mkBundleOrder [8; 9; 10] [0; 1; 2] [])].

Lemma v1_orders_round_trip_witness :
  ∃ refs, merge_refs (merging_data_from_v1 ex_v1_orders) 10 = Some refs ∧
    (λ r, (ref_txs r, ref_latest_only r)) <$> refs =
    [([(2, MayRevert)], false); ([(3, Required); (4, MayRevert); (5, MayDrop)], true)].
Proof.
  assert (Forall v1_ok (mg_merge_orders ex_v1_orders)) as Hok.
  { repeat apply Forall_cons_2; [by cbn|..|constructor].
    - split; [by exists 3, 3|]. split; [apply (bool_decide_unpack _); by vm_compute|].
      repeat apply Forall_cons_2; [by vm_compute..|constructor].
    - split; [by exists 8, 3|]. split; [apply (bool_decide_unpack _); by vm_compute|].
      repeat apply Forall_cons_2; [by vm_compute..|constructor]. }
  destruct (v1_orders_round_trip ex_v1_orders 10 Hok) as (refs & H & Hr); [by vm_compute|].
  exists refs. split; [exact H|]. rewrite Hr. vm_compute. reflexivity.
Defined.

Lemma find_unbundled_exact_witness :
  find_unbundled_txs [11; 13; 12] [mkOrderTxs [11; 12] ∅; mkOrderTxs [13] ∅] = [11; 12] ∧
  ¬ honoured (mkOrderTxs [11; 12] ∅) [11; 13; 12].
Proof.
  assert (NoDup [11; 13; 12]) as Hnd by (apply (bool_decide_unpack _); by vm_compute).
  split; [by vm_compute|].
  destruct (find_unbundled_exact [11; 13; 12] [mkOrderTxs [11; 12] ∅; mkOrderTxs [13] ∅] Hnd) as [_ H].
  destruct (proj1 (H 11)) as (_ & _ & Hno).
  - change (11 ∈ [11; 12]). by left.
  - apply Hno; by left.
Defined.

(** A hash to evaluate examples with. *)
#[refine] #[global] Instance ex_merge_keccak : Keccak := {
  keccak b := be_bytes 32 (foldl (λ a x, (a * 257 + x + 1) mod 2 ^ 256) 0 b);
  EMPTY_TRIE_HASH := replicate 32 1
}.
Proof.
  intros b. split; [apply be_bytes_byte|]. unfold len. by rewrite be_bytes_length.
Defined.
