(* ===== verification/MergeWire.v ===== *)
(** * The merging protocol

    Frame header and messages of the connection between relay and merging
    builder ([crates/tcp-types/src/merging]). Message bodies are SSZ, which the
    code derives: decoding a body is a parameter, the class [MergingCodec]. *)


From S2P Require Import Prelude Types Submission Rlp MergeTrie MergeOrders.

Definition MERGING_PROTOCOL_VERSION : Z := 6.
Definition MERGING_HEADER_SIZE : Z := 2.

(** ** Frame header *)

Inductive MergingMsgId :=
| IdMergerRegistrationV1 | IdMergerAckV1 | IdPingV1 | IdPongV1 | IdRelayConfigV1
| IdSlotStartV1 | IdMergeableBlockV1 | IdActivateBaseBlockV1 | IdRevokeOrderV1 | IdSlotEndV1
| IdMergedBlockV1 | IdRejectV1 | IdFatalV1.

#[export] Instance MergingMsgId_eq_dec : EqDecision MergingMsgId.
Proof. solve_decision. Defined.

(** [self.msg_id as u8] *)
Definition msg_id_byte (id : MergingMsgId) : Z :=
  match id with
  | IdMergerRegistrationV1 => 1 | IdMergerAckV1 => 2 | IdPingV1 => 3 | IdPongV1 => 4
  | IdRelayConfigV1 => 5 | IdSlotStartV1 => 16 | IdMergeableBlockV1 => 17
  | IdActivateBaseBlockV1 => 18 | IdRevokeOrderV1 => 19 | IdSlotEndV1 => 21
  | IdMergedBlockV1 => 64 | IdRejectV1 => 112 | IdFatalV1 => 113
  end.

Definition msg_id_try_from (value : Z) : option MergingMsgId :=
  match value with
  | 1 => Some IdMergerRegistrationV1 | 2 => Some IdMergerAckV1 | 3 => Some IdPingV1
  | 4 => Some IdPongV1 | 5 => Some IdRelayConfigV1 | 16 => Some IdSlotStartV1
  | 17 => Some IdMergeableBlockV1 | 18 => Some IdActivateBaseBlockV1
  | 19 => Some IdRevokeOrderV1 | 21 => Some IdSlotEndV1 | 64 => Some IdMergedBlockV1
  | 112 => Some IdRejectV1 | 113 => Some IdFatalV1
  | _ => None
  end.

Record MergingFrameHeader := mkMergingFrameHeader { fh_msg_id : MergingMsgId; fh_flags : Z }.

Inductive MergingHeaderError := TooShort | UnknownMsgId (id : Z) | ExtensionMsgId (id : Z).

Definition ZSTD_COMPRESSED : Z := Z.shiftl 1 0.

Definition header_new (id : MergingMsgId) : MergingFrameHeader := mkMergingFrameHeader id 0.
Definition with_zstd (h : MergingFrameHeader) : MergingFrameHeader :=
  mkMergingFrameHeader (fh_msg_id h) (Z.lor (fh_flags h) ZSTD_COMPRESSED).
Definition is_zstd_compressed (h : MergingFrameHeader) : bool :=
  Z.land (fh_flags h) ZSTD_COMPRESSED =? ZSTD_COMPRESSED.

Definition append_encoded (h : MergingFrameHeader) : Bytes := [msg_id_byte (fh_msg_id h); fh_flags h].

Definition header_decode (payload : Bytes) : Result MergingFrameHeader MergingHeaderError :=
  match payload with
  | id :: flags :: _ =>
      match msg_id_try_from id with
      | Some msg_id => Ok (mkMergingFrameHeader msg_id flags)
      | None => Err (if 128 <=? id then ExtensionMsgId id else UnknownMsgId id)
      end
  | _ => Err TooShort
  end.

(** [&payload[MERGING_HEADER_SIZE..]] of a payload that has a header. *)
Definition frame_body (payload : Bytes) : Bytes := drop 2 payload.

(** ** Relay to builder *)

Record SlotStartV1 := mkSlotStartV1 {
  ss_slot : u64;
  ss_parent_hash : B256;
  ss_proposer_fee_recipient : Address;
  ss_parent_beacon_block_root : B256;
  ss_apply_blacklist : bool
}.

(** The payload has the shape of the relay's own: [ExecutionPayloadV3] nests
    its fields in three structs. *)
Record MergeableBlockV1 := mkMergeableBlockV1 {
  fb_slot : u64;
  fb_builder_pubkey : Pubkey;
  fb_block_value : U256;
  fb_builder_address : Address;
  fb_proposer_fee_recipient : Address;
  fb_parent_beacon_block_root : B256;
  fb_allow_appending : bool;
  fb_merge_orders : list MergeOrderRef;
  fb_execution_payload : ExecutionPayload
}.
#[export] Instance eta_MergeableBlockV1 : Eta MergeableBlockV1 := λ r,
  mkMergeableBlockV1 (fb_slot r) (fb_builder_pubkey r) (fb_block_value r) (fb_builder_address r)
    (fb_proposer_fee_recipient r) (fb_parent_beacon_block_root r) (fb_allow_appending r)
    (fb_merge_orders r) (fb_execution_payload r).

(** ** Control *)

Record MergerRegistrationV1 := mkMergerRegistrationV1 {
  rg_api_key : Z;
  rg_relay_id : Bytes;
  rg_min_version : Z;
  rg_max_version : Z;
  rg_supports_zstd : bool
}.

(** The status is [Okay] or an error; the message of an error is only logged. *)
Record MergerAckV1 := mkMergerAckV1 {
  ak_version : Z;
  ak_ok : bool;
  ak_max_orders_per_slot : u32;
  ak_max_frame_bytes : u32
}.

Record BuilderCollateral := mkBuilderCollateral { co_builder_coinbase : Address; co_collateral_safe : Address }.

Record RelayConfigV1 := mkRelayConfigV1 {
  rc_relay_fee_recipient : Address;
  rc_multisend_contract : Address;
  rc_relay_bps : u64;
  rc_merged_builder_bps : u64;
  rc_winning_builder_bps : u64;
  rc_distribution_gas_limit : u64;
  rc_builder_collaterals : list BuilderCollateral
}.

Inductive RelayConfigError := InvalidBps (sum : u64) | EmptyCollaterals | TooManyCollaterals (n : Z).

Definition MAX_BUILDER_COLLATERALS : Z := 256.
Definition TOTAL_BPS : Z := 10000.

(** Release builds wrap the sum. *)
Definition relay_config_validate (c : RelayConfigV1) : Result unit RelayConfigError :=
  let sum := (rc_relay_bps c + rc_merged_builder_bps c + rc_winning_builder_bps c) mod u64_modulus in
  require (negb (TOTAL_BPS <=? sum)) (InvalidBps sum) &&?
  require (negb (len (rc_builder_collaterals c) =? 0)) EmptyCollaterals &&?
  require (negb (MAX_BUILDER_COLLATERALS <? len (rc_builder_collaterals c)))
    (TooManyCollaterals (len (rc_builder_collaterals c))) &&?
  Ok tt.

Definition collateral_safe (c : RelayConfigV1) (builder_coinbase : Address) : option Address :=
  co_collateral_safe <$> find (λ x, co_builder_coinbase x =? builder_coinbase) (rc_builder_collaterals c).

(** ** Builder to relay *)

Inductive RejectCode :=
| HeadMismatch | NotSynced | UnknownBaseBlock | InvalidPayment | UnknownCollateral | InvalidOrder
| StaleSlot | LimitExceeded | Busy | InvalidBaseBlock.

#[export] Instance RejectCode_eq_dec : EqDecision RejectCode.
Proof. solve_decision. Defined.

Inductive RejectSubject := SubjectBlockHash (h : B256) | SubjectOrderHash (h : B256) | SubjectNone.

(** The message text is only logged. *)
Record RejectV1 := mkRejectV1 { rj_slot : u64; rj_code : RejectCode; rj_subject : RejectSubject }.

Record BuilderInclusion := mkBuilderInclusion {
  bn_builder_pubkey : Pubkey;
  bn_origin_coinbase : Address;
  bn_contribution : U256;
  bn_revenue : U256;
  bn_txs : list B256
}.

Record MergeTraceV1 := mkMergeTraceV1 {
  tv_base_block_recv_ns : u64;
  tv_sim_start_ns : u64;
  tv_sim_end_ns : u64;
  tv_finalize_ns : u64
}.

(** The appended blobs and the included order ids are not read by the relay; of
    the unmerged transactions it reads the hashes. *)
Record MergedBlockV1 := mkMergedBlockV1 {
  mv1_slot : u64;
  mv1_response_id : u32;
  mv1_base_block_hash : B256;
  mv1_base_builder_pubkey : Pubkey;
  mv1_execution_payload : ExecutionPayload;
  mv1_execution_requests : Bytes;
  mv1_proposer_value : U256;
  mv1_base_builder_revenue : U256;
  mv1_relay_revenue : U256;
  mv1_builder_inclusions : list BuilderInclusion;
  mv1_unmerged_txs : list B256;
  mv1_trace : MergeTraceV1
}.

(** ** Bodies

    [from_ssz_bytes] of each message the two sides read, and the length of a
    block they send. *)
Class MergingCodec := {
  registration_from_ssz : Bytes → option MergerRegistrationV1;
  ack_from_ssz : Bytes → option MergerAckV1;
  ping_from_ssz : Bytes → option u64;
  relay_config_from_ssz : Bytes → option RelayConfigV1;
  slot_start_from_ssz : Bytes → option SlotStartV1;
  slot_end_from_ssz : Bytes → option u64;
  mergeable_from_ssz : Bytes → option MergeableBlockV1;
  merged_from_ssz : Bytes → option MergedBlockV1;
  reject_from_ssz : Bytes → option RejectV1;
  mergeable_to_ssz : MergeableBlockV1 → Bytes
}.

(** ** Properties *)

Lemma msg_id_round_trip id : msg_id_try_from (msg_id_byte id) = Some id.
Proof. by destruct id. Qed.

Lemma msg_id_try_from_some v id : msg_id_try_from v = Some id → msg_id_byte id = v.
Proof.
  destruct v as [|p|p]; cbn; [done| |done].
  do 7 (destruct p as [p|p|]; cbn; try done; try (by intros [= <-])).
Qed.

Lemma msg_id_try_from_none v : msg_id_try_from v = None ↔ ∀ id, msg_id_byte id ≠ v.
Proof.
  split.
  - intros Hv id <-. by rewrite msg_id_round_trip in Hv.
  - intros Hv. destruct (msg_id_try_from v) as [id|] eqn:E; [|done].
    by destruct (Hv id); apply msg_id_try_from_some.
Qed.

(** C40: A frame header is read back as it was written, whatever follows it; an
    identifier that is not one of the protocol's is an error that closes the
    connection below 128 and one that is skipped from 128 on. *)
Theorem header_round_trip_exact h rest :
  header_decode (append_encoded h ++ rest) = Ok h ∧ frame_body (append_encoded h ++ rest) = rest ∧
  ∀ payload e, header_decode payload = Err e ↔
    (length payload < 2)%nat ∧ e = TooShort ∨
    ∃ id flags body, payload = id :: flags :: body ∧ (∀ k, msg_id_byte k ≠ id) ∧
      e = if 128 <=? id then ExtensionMsgId id else UnknownMsgId id.
Proof.
  split_and!; [|done|].
  - unfold header_decode, append_encoded. cbn [app]. rewrite msg_id_round_trip. by destruct h.
  - intros payload e. destruct payload as [|id [|flags body]]; cbn -[Z.leb].
    + split; [intros [= <-]; left; split; [lia|done]|]. intros [[_ ->]|(? & ? & ? & ? & _)]; done.
    + split; [intros [= <-]; left; split; [lia|done]|]. intros [[_ ->]|(? & ? & ? & ? & _)]; done.
    + pose proof (msg_id_try_from_none id) as Hn. destruct (msg_id_try_from id) as [k|].
      * split; [done|]. intros [[? _]|(i & f & b & [= <- <- <-] & Hk & _)]; [lia|].
        by apply Hn in Hk.
      * split; [intros [= <-]; right; exists id, flags, body; split; [done|]; split; [by apply Hn|done]|].
        intros [[? _]|(i & f & b & [= <- <- <-] & _ & ->)]; [lia|done].
Qed.
