(* ===== verification/MergePool.v ===== *)
(** * The order pool of the merging builder

    [Pool] of [crates/builder/src/merge/pool.rs]: the transactions, orders and
    base blocks the builder keeps of the blocks forwarded to it in a slot, and
    the part of [MergeEngine] of [crates/builder/src/merge/mod.rs] that feeds
    it. *)


From S2P Require Import Prelude Types Submission Rlp MergeTrie MergeOrders MergeWire.

(** ** Transactions

    Decoding a transaction and recovering its sender is the execution
    library's; the pool keeps the gas limit and the number of blobs. *)
Record TxInfo := mkTxInfo { ti_sender : Address; ti_gas_limit : u64; ti_blobs : Z }.
Inductive TxError := TxDecode | SenderRecovery | UnresolvedReference (h : B256).
Class CanonicalTx := decode_canonical : Bytes → Result TxInfo TxError.

Record Tx := mkTx { px_info : TxInfo; px_hash : B256; px_encoded : Bytes }.

Record Range := mkRange { ra_at : nat; ra_len : nat }.

(** [&items[at..][..len]], which panics out of range. *)
Definition range_slice {A} (r : Range) (items : list A) : option (list A) :=
  if (ra_at r + ra_len r <=? length items)%nat
  then Some (take (ra_len r) (drop (ra_at r) items)) else None.

Record Submitter := mkSubmitter { sb_pubkey : Pubkey; sb_address : Address }.
#[export] Instance Submitter_eq_dec : EqDecision Submitter.
Proof. solve_decision. Defined.

Record PoolOrder := mkPoolOrder {
  po_txs : Range;
  po_may_revert : u32;
  po_may_drop : u32;
  po_best_block : nat;
  po_submitter : nat;
  po_withdrawn : bool
}.
#[export] Instance eta_OrderPoolOrder : Eta PoolOrder := λ r,
  mkPoolOrder (po_txs r) (po_may_revert r) (po_may_drop r) (po_best_block r) (po_submitter r)
    (po_withdrawn r).

(** The header fields are those of the payload, kept whole. *)
Record BaseBlock := mkBaseBlock {
  ba_hash : B256;
  ba_recv_ns : u64;
  ba_block : nat;
  ba_submitter : nat;
  ba_payload : ExecutionPayload;
  ba_txs : Range
}.

Record Reject := mkReject { re_code : RejectCode; re_block_hash : option B256; re_error : option TxError }.

Record Added := mkAdded { ad_base : option BaseBlock; ad_orders_dropped : option Reject }.

(** Indices into the vectors are [u32], and [u16] for submitters; a slot's
    vectors stay far below 2^32 entries, and [pool_ok] bounds the submitters. *)
Record Pool := mkPool {
  pl_txs : list Tx;
  pl_tx_fit : list (u64 * Z);
  pl_tx_by_hash : gmap B256 nat;
  pl_tx_refs : list nat;
  pl_orders : list PoolOrder;
  pl_order_ids : list B256;
  pl_order_by_id : gmap B256 nat;
  pl_submitters : list Submitter;
  pl_block_hashes : gset B256;
  pl_block_values : list U256;
  pl_latest_bundles : list (nat * nat);
  pl_submission_txs : list nat;
  pl_orders_version : u64
}.
#[export] Instance eta_OrderPool : Eta Pool := λ r,
  mkPool (pl_txs r) (pl_tx_fit r) (pl_tx_by_hash r) (pl_tx_refs r) (pl_orders r) (pl_order_ids r)
    (pl_order_by_id r) (pl_submitters r) (pl_block_hashes r) (pl_block_values r)
    (pl_latest_bundles r) (pl_submission_txs r) (pl_orders_version r).

Definition merge_pool_default : Pool := mkPool [] [] ∅ [] [] [] ∅ [] ∅ [] [] [] 0.

(** [submission_txs] is cleared by the next [add]. *)
Definition pool_clear (p : Pool) : Pool :=
  mkPool [] [] ∅ [] [] [] ∅ [] ∅ [] [] (pl_submission_txs p) 0.

Section pool.
Context {KE : Keccak} {CT : CanonicalTx}.

Definition insert_tx (bytes : Bytes) (p : Pool) : Result nat TxError * Pool :=
  if is_tx_hash_ref bytes then
    let hash := be_fold bytes in
    match pl_tx_by_hash p !! hash with
    | Some ix => (Ok ix, p)
    | None => (Err (UnresolvedReference hash), p)
    end
  else
    let hash := keccak256 bytes in
    match pl_tx_by_hash p !! hash with
    | Some ix => (Ok ix, p)
    | None =>
        match decode_canonical bytes with
        | Err e => (Err e, p)
        | Ok info =>
            let ix := length (pl_txs p) in
            (Ok ix, p <| pl_txs ::= (λ l, l ++ [mkTx info hash bytes]) |>
                      <| pl_tx_fit ::= (λ l, l ++ [(ti_gas_limit info, ti_blobs info)]) |>
                      <| pl_tx_by_hash ::= <[hash := ix]> |>)
        end
    end.

(** One turn of the loop of [add] over the transactions. *)
Definition insert_submission_tx (acc : option TxError * bool * Pool) (bytes : Bytes)
    : option TxError * bool * Pool :=
  let '(failed, oversized, p) := acc in
  if MAX_TX_BYTES <? len bytes then (failed, true, p)
  else
    match insert_tx bytes p with
    | (Ok ix, p) => (failed, oversized, p <| pl_submission_txs ::= (λ l, l ++ [ix]) |>)
    | (Err e, p) => (match failed with Some _ => failed | None => Some e end, oversized, p)
    end.

(** [bits | 1 << i] on a [u32]: [None] where the shift overflows. *)
Definition order_bits (ixs : list Z) : option u32 :=
  foldl (λ bits i, bits ← bits; if i <? 32 then Some (Z.lor bits (Z.shiftl 1 i)) else None)
    (Some 0) ixs.

(** [self.txs[self.submission_txs[i] as usize].hash] *)
Definition submitted_hash (p : Pool) (i : Z) : option B256 :=
  ix ← pl_submission_txs p !! Z.to_nat i; px_hash <$> pl_txs p !! ix.

(** Hash, revert bits, drop bits and [latest_only] of a reference. *)
Definition describe_ref (p : Pool) (r : MergeOrderRef) : option (B256 * u32 * u32 * bool) :=
  match r with
  | RefTx t =>
      hash ← submitted_hash p (tr_index t);
      Some (hash, if tr_can_revert t then 1 else 0, 0, false)
  | RefBundle b =>
      hashes ← mapM (submitted_hash p) (br_txs b);
      revert ← order_bits (br_reverting_txs b);
      drop ← order_bits (br_dropping_txs b);
      Some (bundle_order_hash hashes, revert, drop, br_latest_only b)
  end.

Definition ref_indices (r : MergeOrderRef) : list Z :=
  match r with RefTx t => [tr_index t] | RefBundle b => br_txs b end.

(** The entry of an order in the pool: an order seen before follows the block
    that pays more; a new one is added, unless the pool is full ([Some None]). *)
Definition place_order (m : MergeableBlockV1) (block submitter : nat) (max : Z) (id : B256)
    (revert may_drop : u32) (r : MergeOrderRef) (p : Pool) : option (option (nat * bool * Pool)) :=
  match pl_order_by_id p !! id with
  | Some ix =>
      order ← pl_orders p !! ix;
      best ← pl_block_values p !! po_best_block order;
      if best <? fb_block_value m then
        let order := order <| po_may_revert := revert |> <| po_may_drop := may_drop |>
                           <| po_best_block := block |> <| po_submitter := submitter |> in
        Some (Some (ix, true, p <| pl_orders ::= <[ix := order]> |>))
      else Some (Some (ix, false, p))
  | None =>
      if max <=? len (pl_orders p) then Some None
      else
        refs ← mapM (λ i : Z, pl_submission_txs p !! Z.to_nat i) (ref_indices r);
        let ix := length (pl_orders p) in
        let txs := mkRange (length (pl_tx_refs p)) (length refs) in
        Some (Some (ix, true,
          p <| pl_tx_refs ::= (λ l, l ++ refs) |>
            <| pl_orders ::= (λ l, l ++ [mkPoolOrder txs revert may_drop block submitter false]) |>
            <| pl_order_ids ::= (λ l, l ++ [id]) |>
            <| pl_order_by_id ::= <[id := ix]> |>))
  end.

(** The loop of [add_orders] keeps the pool, whether an order changed and
    whether the pool was full. *)
Definition add_order (m : MergeableBlockV1) (block submitter : nat) (max : Z)
    (acc : Pool * bool * bool) (r : MergeOrderRef) : option (Pool * bool * bool) :=
  let '(p, changed, full) := acc in
  '(hash, revert, may_drop, latest_only) ← describe_ref p r;
  placed ← place_order m block submitter max (order_id hash (fb_builder_pubkey m)) revert may_drop r p;
  Some
    match placed with
    | None => (p, changed, true)
    | Some (ix, moved, p) =>
        (if (latest_only : bool) then p <| pl_latest_bundles ::= (λ l, l ++ [(submitter, ix)]) |> else p,
         changed || moved, full)
    end.

(** One turn of the loop that withdraws what the submitter's newest block left
    out; [fresh] are the bundles the block added. *)
Definition withdraw_stale (submitter : nat) (fresh : list (nat * nat))
    (acc : option (list PoolOrder * bool)) (e : nat * nat) : option (list PoolOrder * bool) :=
  '(orders, changed) ← acc;
  let '(s, ix) := e in
  if bool_decide (s = submitter) && bool_decide ((s, ix) ∉ fresh) then
    order ← orders !! ix;
    Some (<[ix := order <| po_withdrawn := true |>]> orders, changed || negb (po_withdrawn order))
  else Some (orders, changed).

Fixpoint add_all (f : Pool * bool * bool → MergeOrderRef → option (Pool * bool * bool))
    (acc : Pool * bool * bool) (refs : list MergeOrderRef) : option (Pool * bool * bool) :=
  match refs with [] => Some acc | r :: refs => acc ← f acc r; add_all f acc refs end.

Definition add_orders (m : MergeableBlockV1) (block submitter : nat) (max : Z) (p : Pool)
    : option (bool * Pool) :=
  let previous := pl_latest_bundles p in
  '(p, changed, full) ← add_all (add_order m block submitter max) (p, false, false) (fb_merge_orders m);
  let fresh := drop (length previous) (pl_latest_bundles p) in
  '(orders, changed) ← foldl (withdraw_stale submitter fresh) (Some (pl_orders p, changed)) previous;
  Some (full, p <| pl_orders := orders |>
                <| pl_latest_bundles := List.filter (λ e, negb (bool_decide (e.1 = submitter))) previous ++ fresh |>
                <| pl_orders_version ::= (λ v, if (changed : bool) then (v + 1) mod u64_modulus else v) |>).

(** The position of the submitter, added at the end if it is new. *)
Definition submitter_index (m : MergeableBlockV1) (p : Pool) : nat * Pool :=
  let s := mkSubmitter (fb_builder_pubkey m) (fb_builder_address m) in
  match position (λ x, bool_decide (x = s)) (pl_submitters p) with
  | Some i => (i, p)
  | None => (length (pl_submitters p), p <| pl_submitters ::= (λ l, l ++ [s]) |>)
  end.

(** The tail of [add], once every check has passed. *)
Definition add_block (m : MergeableBlockV1) (recv_ns : u64) (max_orders : Z) (p : Pool)
    : option (Added * Pool) :=
  let payload := fb_execution_payload m in
  let '(submitter, p) := submitter_index m p in
  let block := length (pl_block_values p) in
  let p := p <| pl_block_values ::= (λ l, l ++ [fb_block_value m]) |>
             <| pl_block_hashes ::= union {[ep_block_hash payload]} |> in
  '(full, p) ← add_orders m block submitter max_orders p;
  let '(base, p) :=
    if fb_allow_appending m then
      let txs := mkRange (length (pl_tx_refs p)) (length (pl_submission_txs p)) in
      (Some (mkBaseBlock (ep_block_hash payload) recv_ns block submitter payload txs),
       p <| pl_tx_refs ::= (λ l, l ++ pl_submission_txs p) |>)
    else (None, p) in
  Some (mkAdded base (if (full : bool) then Some (mkReject LimitExceeded (Some (ep_block_hash payload)) None)
                      else None), p).

(** [Pool::add] of a decoded body; [None] would be a panic. *)
Definition pool_add (body : option MergeableBlockV1) (recv_ns slot : u64) (parent_hash : B256)
    (max_blocks max_orders : Z) (p : Pool) : option (Result Added Reject * Pool) :=
  match body with
  | None => Some (Err (mkReject InvalidOrder None None), p)
  | Some m =>
      let payload := fb_execution_payload m in
      let reject code e p := Some (Err (mkReject code (Some (ep_block_hash payload)) e), p) in
      if negb (fb_slot m =? slot) then reject StaleSlot None p
      else if bool_decide (ep_block_hash payload ∈ pl_block_hashes p)
      then Some (Ok (mkAdded None None), p)
      else if Z.min max_blocks u16_max <=? Z.of_nat (size (pl_block_hashes p))
      then reject LimitExceeded None p
      else if MAX_BLOCK_TXS <? len (ep_transactions payload) then reject LimitExceeded None p
      else
        let '(failed, oversized, p) :=
          foldl insert_submission_tx (None, false, p <| pl_submission_txs := [] |>)
            (ep_transactions payload) in
        if negb (ep_parent_hash payload =? parent_hash) then reject HeadMismatch None p
        else if (oversized : bool) then reject InvalidOrder None p
        else if MAX_ORDERS_PER_BLOCK <? len (fb_merge_orders m) then reject LimitExceeded None p
        else
          match failed with
          | Some e => reject InvalidOrder (Some e) p
          | None =>
              if existsb (λ r, negb (ref_validate r (len (pl_submission_txs p)))) (fb_merge_orders m)
              then reject InvalidOrder None p
              else '(added, p) ← add_block m recv_ns max_orders p; Some (Ok added, p)
          end
  end.
End pool.

(** ** The table of transactions

    Every transaction is in the table once, under its hash. *)
Section table.
Context {KE : Keccak} {CT : CanonicalTx}.
Implicit Types (p : Pool) (tx : Tx).

Definition tx_ok (tx : Tx) : Prop :=
  px_hash tx = keccak256 (px_encoded tx) ∧ is_tx_hash_ref (px_encoded tx) = false ∧
  decode_canonical (px_encoded tx) = Ok (px_info tx).

Record table_ok (p : Pool) : Prop := mk_table_ok {
  table_txs : Forall tx_ok (pl_txs p);
  table_by_hash : ∀ h i, pl_tx_by_hash p !! h = Some i ↔ ∃ tx, pl_txs p !! i = Some tx ∧ px_hash tx = h;
  table_fit : pl_tx_fit p = (λ tx, (ti_gas_limit (px_info tx), ti_blobs (px_info tx))) <$> pl_txs p
}.

(** What the transactions of a block leave as it was. *)
Definition order_part p :=
  (pl_tx_refs p, pl_orders p, pl_order_ids p, pl_order_by_id p, pl_submitters p, pl_block_hashes p,
   pl_block_values p, pl_latest_bundles p, pl_orders_version p).

(** The hash an entry of a forwarded block stands for. *)
Definition entry_hash (bytes : Bytes) : B256 :=
  if is_tx_hash_ref bytes then be_fold bytes else keccak256 bytes.

Definition holds p (h : B256) : Prop := is_Some (pl_tx_by_hash p !! h).

(** Why an entry has no transaction in the table. *)
Definition entry_error p (bytes : Bytes) : option TxError :=
  match pl_tx_by_hash p !! entry_hash bytes with
  | Some _ => None
  | None =>
      if is_tx_hash_ref bytes then Some (UnresolvedReference (be_fold bytes))
      else match decode_canonical bytes with Ok _ => None | Err e => Some e end
  end.

Lemma insert_tx_spec bytes p :
  table_ok p →
  let '(r, p') := insert_tx bytes p in
  table_ok p' ∧ order_part p' = order_part p ∧ pl_submission_txs p' = pl_submission_txs p ∧
  pl_txs p `prefix_of` pl_txs p' ∧
  match entry_error p bytes with
  | Some e => r = Err e ∧ p' = p
  | None => ∃ ix tx, r = Ok ix ∧ pl_txs p' !! ix = Some tx ∧ px_hash tx = entry_hash bytes
  end ∧
  ∀ h, holds p' h ↔ holds p h ∨ h = entry_hash bytes ∧ entry_error p bytes = None.
Proof.
  intros Ht. unfold insert_tx, entry_error, entry_hash, holds.
  destruct (is_tx_hash_ref bytes) eqn:Eref.
  - destruct (pl_tx_by_hash p !! be_fold bytes) as [ix|] eqn:E.
    + split_and!; [done..| |]; [|naive_solver].
      apply (table_by_hash _ Ht) in E as (tx & ? & ?). by exists ix, tx.
    + split_and!; [done..|]. naive_solver.
  - destruct (pl_tx_by_hash p !! keccak256 bytes) as [ix|] eqn:E.
    + split_and!; [done..| |]; [|naive_solver].
      apply (table_by_hash _ Ht) in E as (tx & ? & ?). by exists ix, tx.
    + destruct (decode_canonical bytes) as [info|e] eqn:Ed; [|split_and!; [done..|]; naive_solver].
      set (tx := mkTx info (keccak256 bytes) bytes). destruct Ht as [Htxs Hby Hfit].
      assert (length (pl_txs p) < length (pl_txs p ++ [tx]))%nat by (rewrite length_app; cbn; lia).
      split_and!; [|done|done|by apply prefix_app_r| |].
      * split; rec_simpl.
        -- apply Forall_app. split; [done|]. apply Forall_singleton. done.
        -- intros h i. destruct (decide (h = keccak256 bytes)) as [->|Hne].
           ++ rewrite lookup_insert_eq. split.
              ** intros [= <-]. exists tx. split; [by rewrite list_lookup_middle|done].
              ** intros (tx' & Hl & Hh). f_equal. apply lookup_app_Some in Hl as [Hl|[? Hl]].
                 --- assert (pl_tx_by_hash p !! keccak256 bytes = Some i) by (apply Hby; eauto). congruence.
                 --- apply list_lookup_singleton_Some in Hl as [? _]. lia.
           ++ rewrite lookup_insert_ne by done. rewrite Hby. split.
              ** intros (tx' & Hl & Hh). exists tx'. split; [by apply lookup_app_l_Some|done].
              ** intros (tx' & Hl & Hh). apply lookup_app_Some in Hl as [Hl|[_ Hl]]; [eauto|].
                 apply list_lookup_singleton_Some in Hl as [_ <-]. done.
        -- by rewrite fmap_app, Hfit.
      * rec_simpl. exists (length (pl_txs p)), tx. split_and!; [done|by rewrite list_lookup_middle|done].
      * rec_simpl. intros h. destruct (decide (h = keccak256 bytes)) as [->|Hne].
        -- rewrite lookup_insert_eq. naive_solver.
        -- rewrite lookup_insert_ne by done. naive_solver.
Qed.

(** A transaction sent whole that the builder can decode. *)
Definition plain (bytes : Bytes) : Prop :=
  len bytes ≤ MAX_TX_BYTES ∧ is_tx_hash_ref bytes = false ∧ is_ok (decode_canonical bytes) = true.

(** An entry the table or an earlier entry of the block gives a transaction. *)
Definition resolvable (held : B256 → Prop) (txs : list Bytes) : Prop :=
  ∀ pre bytes post, txs = pre ++ bytes :: post →
    if is_tx_hash_ref bytes
    then held (be_fold bytes) ∨ ∃ b, b ∈ pre ∧ plain b ∧ keccak256 b = be_fold bytes
    else plain bytes.

Lemma resolvable_cons held bytes txs :
  resolvable held (bytes :: txs) →
  resolvable (λ h, held h ∨ plain bytes ∧ h = keccak256 bytes) txs.
Proof.
  intros H pre b post ->. specialize (H (bytes :: pre) b post eq_refl).
  destruct (is_tx_hash_ref b); [|done]. destruct H as [?|(x & Hx & Hp & He)]; [by left; left|].
  apply elem_of_cons in Hx as [->|Hx]; [left; right; by split|right; eauto].
Qed.

Lemma resolvable_mono (P Q : B256 → Prop) txs :
  (∀ h, P h → Q h) → resolvable P txs → resolvable Q txs.
Proof.
  intros HPQ H pre b post ->. specialize (H pre b post eq_refl).
  destruct (is_tx_hash_ref b); [|done]. destruct H as [?|?]; auto.
Qed.

Definition points_to p (ix : nat) (bytes : Bytes) : Prop :=
  ∃ tx, pl_txs p !! ix = Some tx ∧ px_hash tx = entry_hash bytes.

Lemma points_to_mono p p' ix bytes :
  pl_txs p `prefix_of` pl_txs p' → points_to p ix bytes → points_to p' ix bytes.
Proof. intros Hp (tx & Hl & Hh). exists tx. split; [by eapply prefix_lookup_Some|done]. Qed.

(** What the loop of [add] over the entries of a block leaves. *)
Definition loop_result (txs : list Bytes) (failed : option TxError) (oversized : bool) p
    (failed' : option TxError) (oversized' : bool) p' : Prop :=
  table_ok p' ∧ order_part p' = order_part p ∧ pl_txs p `prefix_of` pl_txs p' ∧
  oversized' = oversized || existsb (λ b, MAX_TX_BYTES <? len b) txs ∧
  (is_Some failed → failed' = failed) ∧
  (∃ added, pl_submission_txs p' = pl_submission_txs p ++ added ∧
     Forall (λ ix, (ix < length (pl_txs p'))%nat) added ∧
     (failed' = None → oversized' = false → Forall2 (points_to p') added txs)) ∧
  (∀ h, holds p h ∨ (∃ b, b ∈ txs ∧ plain b ∧ keccak256 b = h) → holds p' h) ∧
  (failed = None → resolvable (holds p) txs → failed' = None).

Lemma insert_loop_spec txs failed oversized p :
  table_ok p →
  let '(failed', oversized', p') := foldl insert_submission_tx (failed, oversized, p) txs in
  loop_result txs failed oversized p failed' oversized' p'.
Proof.
  revert failed oversized p. induction txs as [|bytes txs IH]; intros failed oversized p Ht.
  { cbn. split_and!; [done..|by rewrite orb_false_r|done| | |done].
    - exists []. rewrite app_nil_r. by repeat constructor.
    - intros h [?|(b & Hb & _)]; [done|by apply elem_of_nil in Hb]. }
  cbn [foldl]. unfold insert_submission_tx at 2. unfold loop_result. cbn [existsb].
  destruct (Z.ltb_spec MAX_TX_BYTES (len bytes)) as [Hbig|Hsmall].
  - specialize (IH failed true p Ht). destruct (foldl _ _ txs) as [[f' o'] p'].
    destruct IH as (? & ? & ? & -> & ? & (added & Ha & Hf & _) & Hh & Hr). rewrite orb_true_r.
    split_and!; [done..| | |].
    + exists added. by split_and!.
    + intros h [?|(b & [->|?]%elem_of_cons & Hp & ?)]; [by apply Hh; left| |apply Hh; right; eauto].
      destruct Hp. lia.
    + intros Hn Hres. specialize (Hres [] bytes txs eq_refl).
      unfold is_tx_hash_ref in Hres.
      rewrite (proj2 (Z.eqb_neq _ _)) in Hres by (unfold MAX_TX_BYTES in Hbig; unfold TX_HASH_REF_LEN; lia).
      destruct Hres. lia.
  - pose proof (insert_tx_spec bytes p Ht) as Hi. destruct (insert_tx bytes p) as [r p1].
    destruct Hi as (Ht1 & Ho1 & Hs1 & Hp1 & Hi & Hh1). cbn [orb].
    destruct (entry_error p bytes) as [e|] eqn:Ee.
    + destruct Hi as [-> ->]. set (failed1 := match failed with Some _ => failed | None => Some e end).
      assert (is_Some failed1) as Hf1 by (unfold failed1; destruct failed; by eexists).
      specialize (IH failed1 oversized p Ht). destruct (foldl _ _ txs) as [[f' o'] p'].
      destruct IH as (? & ? & ? & ? & Hf & (added & Ha & Hl & _) & Hh & _). rewrite (Hf Hf1) in *.
      split_and!; [done..| | | |].
      * unfold failed1. by destruct failed; [|intros []].
      * exists added. split_and!; [done..|]. intros Hn. rewrite Hn in Hf1. by destruct Hf1.
      * intros h [?|(b & [->|?]%elem_of_cons & Hp & <-)]; [by apply Hh; left| |apply Hh; right; eauto].
        destruct Hp as (_ & Hr & Hok). unfold entry_error, entry_hash in Ee. rewrite Hr in Ee.
        destruct (pl_tx_by_hash p !! _); [done|]. by destruct (decode_canonical bytes).
      * intros -> Hres. specialize (Hres [] bytes txs eq_refl). unfold entry_error, entry_hash, holds in *.
        destruct (is_tx_hash_ref bytes).
        -- destruct Hres as [[x Hx]|(b & Hb & _)]; [by rewrite Hx in Ee|by apply elem_of_nil in Hb].
        -- destruct Hres as (_ & _ & Hok). destruct (pl_tx_by_hash p !! _); [done|].
           by destruct (decode_canonical bytes).
    + destruct Hi as (ix & tx & -> & Hix & Hhash). set (p2 := p1 <| pl_submission_txs ::= _ |>).
      assert (table_ok p2) as Ht2 by (by destruct Ht1; split).
      specialize (IH failed oversized p2 Ht2). destruct (foldl _ _ txs) as [[f' o'] p'].
      destruct IH as (? & Ho2 & Hp2 & ? & ? & (added & Ha & Hl & Hall) & Hh & Hr).
      change (pl_txs p2) with (pl_txs p1) in Hp2. change (holds p2) with (holds p1) in *.
      split_and!; [done|by rewrite Ho2|by transitivity (pl_txs p1)|done|done| | |].
      * exists (ix :: added). split_and!.
        -- rewrite Ha. unfold p2. rec_simpl. by rewrite Hs1, <- app_assoc.
        -- constructor; [|done]. eapply Nat.lt_le_trans; [by eapply lookup_lt_Some|by apply prefix_length].
        -- intros Hn Hov. constructor; [|by apply Hall].
           apply (points_to_mono p1); [done|]. by exists tx.
      * intros h Hhold. apply Hh. setoid_rewrite Hh1.
        destruct Hhold as [?|(b & [->|?]%elem_of_cons & Hp & <-)]; [by left; left| |right; eauto].
        left. right. split; [|done]. unfold entry_hash. destruct Hp as (_ & -> & _). done.
      * intros -> Hres. apply Hr; [done|]. eapply resolvable_mono; [|by apply resolvable_cons].
        intros h [?|[(_ & Hp & _) ->]]; apply Hh1; [by left|right]. unfold entry_hash. by rewrite Hp.
Qed.
End table.

(** ** What the pool stands for

    The accepted blocks of a slot determine the orders. An order is announced
    by each block that refers to it. *)
Section log.
Context {KE : Keccak}.
Implicit Types (m : MergeableBlockV1) (log : list MergeableBlockV1).

Definition revert_bits (r : MergeOrderRef) : option u32 :=
  match r with
  | RefTx t => Some (if tr_can_revert t then 1 else 0)
  | RefBundle b => order_bits (br_reverting_txs b)
  end.
Definition drop_bits (r : MergeOrderRef) : option u32 :=
  match r with RefTx _ => Some 0 | RefBundle b => order_bits (br_dropping_txs b) end.

Definition entry_hashes m : list B256 := entry_hash <$> ep_transactions (fb_execution_payload m).

Definition announced_id m (r : MergeOrderRef) : B256 :=
  order_id (order_ref_hash r (entry_hashes m)) (fb_builder_pubkey m).

Record Announcement := mkAnnouncement {
  an_id : B256;
  an_block : nat;
  an_value : U256;
  an_ref : MergeOrderRef
}.

Definition announce (block : nat) m : list Announcement :=
  (λ r, mkAnnouncement (announced_id m r) block (fb_block_value m) r) <$> fb_merge_orders m.

(** All announcements, in order. *)
Definition announcements log : list Announcement := concat (imap announce log).

(** The distinct identifiers, by first occurrence. *)
Definition distinct_ids (l : list Announcement) : list B256 := reverse (remove_dups (reverse (an_id <$> l))).

(** The announcement of an order that pays most, the first of them. *)
Definition best_announcement (l : list Announcement) (id : B256) : option Announcement :=
  reduce (λ best a, if an_value best <? an_value a then a else best) (filter (λ a, an_id a = id) l).

Definition submitter_of m : Submitter := mkSubmitter (fb_builder_pubkey m) (fb_builder_address m).

Definition latest_ids m : list B256 :=
  announced_id m <$> List.filter ref_latest_only (fb_merge_orders m).

(** The submitter's block after one with the bundle left the bundle out. *)
Definition superseded log (id : B256) : Prop :=
  ∃ l1 m1 l2 m2 l3, log = l1 ++ m1 :: l2 ++ m2 :: l3 ∧ submitter_of m2 = submitter_of m1 ∧
    (∀ m, m ∈ l2 → submitter_of m ≠ submitter_of m1) ∧ id ∈ latest_ids m1 ∧ id ∉ latest_ids m2.

Definition last_of (s : Submitter) log : option MergeableBlockV1 :=
  last (filter (λ m, submitter_of m = s) log).

Lemma announcements_snoc log m :
  announcements (log ++ [m]) = announcements log ++ announce (length log) m.
Proof.
  unfold announcements. rewrite imap_app. cbn. rewrite concat_app. cbn.
  by rewrite app_nil_r, Nat.add_0_r.
Qed.

Lemma distinct_ids_snoc l a :
  distinct_ids (l ++ [a]) =
  if decide (an_id a ∈ an_id <$> l) then distinct_ids l else distinct_ids l ++ [an_id a].
Proof.
  unfold distinct_ids. rewrite fmap_app, reverse_app. change (reverse (an_id <$> [a])) with [an_id a].
  cbn [app remove_dups]. unfold decide_rel.
  destruct (list_elem_of_dec _ _) as [H|H]; rewrite elem_of_reverse in H;
    [by rewrite decide_True|]. by rewrite decide_False, reverse_cons.
Qed.

Lemma elem_of_distinct_ids l id : id ∈ distinct_ids l ↔ id ∈ an_id <$> l.
Proof. unfold distinct_ids. by rewrite elem_of_reverse, elem_of_remove_dups, elem_of_reverse. Qed.

Lemma reduce_snoc {A} (f : A → A → A) l a :
  reduce f (l ++ [a]) = Some (match reduce f l with Some b => f b a | None => a end).
Proof. unfold reduce. destruct l as [|x l]; [done|]. cbn. by rewrite foldl_app. Qed.

Lemma best_announcement_snoc l a id :
  best_announcement (l ++ [a]) id =
  if decide (an_id a = id) then
    Some (match best_announcement l id with
          | Some b => if an_value b <? an_value a then a else b
          | None => a
          end)
  else best_announcement l id.
Proof.
  unfold best_announcement. rewrite filter_app, filter_cons, filter_nil.
  case_decide; [by rewrite reduce_snoc|by rewrite app_nil_r].
Qed.

Lemma best_announcement_elem l id a : best_announcement l id = Some a → a ∈ l ∧ an_id a = id.
Proof.
  intros H%reduce_select_elem; [by apply list_elem_of_filter in H as [? ?]|].
  intros x y. destruct (_ <? _); auto.
Qed.

Lemma best_announcement_none l id : best_announcement l id = None ↔ id ∉ an_id <$> l.
Proof.
  unfold best_announcement. rewrite reduce_none, list_elem_of_fmap. split.
  - intros Hf (a & -> & Ha). apply (not_elem_of_nil a). rewrite <- Hf. by apply list_elem_of_filter.
  - intros H. apply filter_none. intros a Ha <-. apply H. by exists a.
Qed.

Lemma last_of_snoc s log m :
  last_of s (log ++ [m]) = if decide (submitter_of m = s) then Some m else last_of s log.
Proof.
  unfold last_of. rewrite filter_app, filter_cons, filter_nil.
  case_decide; [by rewrite last_snoc|by rewrite app_nil_r].
Qed.

Lemma last_of_some s log m :
  last_of s log = Some m ↔
  ∃ l1 l2, log = l1 ++ m :: l2 ∧ submitter_of m = s ∧ ∀ x, x ∈ l2 → submitter_of x ≠ s.
Proof.
  induction log as [|x log IH] using rev_ind; [split; [done|by intros ([] & ? & ? & _)]|].
  rewrite last_of_snoc. case_decide as Hs.
  - split.
    + intros [= ->]. exists log, []. split_and!; [done..|]. by intros y ?%elem_of_nil.
    + intros (l1 & l2 & Hl & Hm & Hno). destruct l2 as [|y l2 _] using rev_ind.
      * by apply app_inj_tail in Hl as [_ ->].
      * rewrite app_comm_cons, app_assoc in Hl. apply app_inj_tail in Hl as [_ ->].
        destruct (Hno y); [|done]. apply elem_of_app. right. by left.
  - rewrite IH. split.
    + intros (l1 & l2 & -> & Hm & Hno). exists l1, (l2 ++ [x]). split_and!; [by rewrite <- app_assoc|done|].
      intros y [?|Hy]%elem_of_app; [by apply Hno|]. by apply list_elem_of_singleton in Hy as ->.
    + intros (l1 & l2 & Hl & Hm & Hno). destruct l2 as [|y l2 _] using rev_ind.
      * apply app_inj_tail in Hl as [_ ->]. done.
      * rewrite app_comm_cons, app_assoc in Hl. apply app_inj_tail in Hl as [-> ->].
        exists l1, l2. split_and!; [done..|]. intros z Hz. apply Hno, elem_of_app. by left.
Qed.

Lemma superseded_snoc log m id :
  superseded (log ++ [m]) id ↔
  superseded log id ∨
  ∃ m1, last_of (submitter_of m) log = Some m1 ∧ id ∈ latest_ids m1 ∧ id ∉ latest_ids m.
Proof.
  unfold superseded. split.
  - intros (l1 & m1 & l2 & m2 & l3 & Hl & Hs & Hno & Hin & Hout).
    destruct l3 as [|y l3 _] using rev_ind.
    + right. change (m1 :: l2 ++ [m2]) with ((m1 :: l2) ++ [m2]) in Hl. rewrite app_assoc in Hl.
      apply app_inj_tail in Hl as [-> ->]. exists m1. split_and!; [|done..].
      apply last_of_some. exists l1, l2. rewrite Hs. done.
    + left. exists l1, m1, l2, m2, l3. split_and!; [|done..].
      assert (log ++ [m] = (l1 ++ m1 :: l2 ++ m2 :: l3) ++ [y]) as Hl'
        by (rewrite Hl, <- !app_assoc, <- !app_comm_cons, <- app_assoc; done).
      by apply app_inj_tail in Hl' as [-> _].
  - intros [(l1 & m1 & l2 & m2 & l3 & -> & Hs & Hno & Hin & Hout)|(m1 & Hl & Hin & Hout)].
    + exists l1, m1, l2, m2, (l3 ++ [m]). split_and!; [|done..].
      by rewrite <- !app_assoc, <- !app_comm_cons, <- app_assoc.
    + apply last_of_some in Hl as (l1 & l2 & -> & Hs & Hno). exists l1, m1, l2, m, [].
      split_and!; [by rewrite <- app_assoc|done| |done|done]. intros x Hx. rewrite Hs. by apply Hno.
Qed.
End log.

(** ** The pool implements its log *)
Section refinement.
Context {KE : Keccak} {CT : CanonicalTx} (max_blocks max_orders : Z).
Implicit Types (p : Pool) (m : MergeableBlockV1) (log : list MergeableBlockV1).

(** The transactions of an order are those its identifier was made of. *)
Definition identifies p (id : B256) (r : Range) : Prop :=
  ∃ ixs txs pubkey, range_slice r (pl_tx_refs p) = Some ixs ∧ mapM (pl_txs p !!.) ixs = Some txs ∧
    (id = order_id (bundle_order_hash (px_hash <$> txs)) pubkey ∨
     ∃ tx, txs = [tx] ∧ id = order_id (px_hash tx) pubkey).

Record orders_inv (subs : list Submitter) (l : list Announcement) p : Prop := mk_orders_inv {
  oi_ids : pl_order_ids p = take (Z.to_nat max_orders) (distinct_ids l);
  oi_length : length (pl_orders p) = length (pl_order_ids p);
  oi_by_id : ∀ id ix, pl_order_by_id p !! id = Some ix ↔ pl_order_ids p !! ix = Some id;
  oi_values : ∀ a, a ∈ l → pl_block_values p !! an_block a = Some (an_value a);
  oi_terms : ∀ ix id o, pl_order_ids p !! ix = Some id → pl_orders p !! ix = Some o →
    identifies p id (po_txs o) ∧
    (∃ sub, subs !! po_best_block o = Some sub ∧ pl_submitters p !! po_submitter o = Some sub) ∧
    ∃ a, best_announcement l id = Some a ∧ po_best_block o = an_block a ∧
      revert_bits (an_ref a) = Some (po_may_revert o) ∧ drop_bits (an_ref a) = Some (po_may_drop o)
}.

(** What placing orders leaves as it was. *)
Definition block_part p :=
  (pl_txs p, pl_tx_fit p, pl_tx_by_hash p, pl_submission_txs p, pl_submitters p, pl_block_hashes p,
   pl_block_values p, pl_orders_version p).

Lemma range_slice_prefix {A} r (l k : list A) s :
  range_slice r l = Some s → range_slice r (l ++ k) = Some s.
Proof.
  unfold range_slice. destruct (Nat.leb_spec (ra_at r + ra_len r) (length l)); [|done].
  intros [= <-]. rewrite length_app. rewrite (proj2 (Nat.leb_le _ _)) by lia. f_equal.
  rewrite drop_app_le by lia. rewrite take_app_le; [done|]. rewrite length_drop. lia.
Qed.

Lemma range_slice_end {A} (l k : list A) : range_slice (mkRange (length l) (length k)) (l ++ k) = Some k.
Proof.
  unfold range_slice. cbn. rewrite length_app, (proj2 (Nat.leb_le _ _)) by lia.
  by rewrite drop_app_length, take_ge by lia.
Qed.

Lemma mapM_lookup_prefix {A} (l k : list A) ixs xs :
  mapM (l !!.) ixs = Some xs → mapM ((l ++ k) !!.) ixs = Some xs.
Proof.
  rewrite !mapM_Some. intros H. eapply Forall2_impl; [done|].
  intros ix x Hx. by apply lookup_app_l_Some.
Qed.

Lemma identifies_mono p p' id r :
  pl_txs p `prefix_of` pl_txs p' → pl_tx_refs p `prefix_of` pl_tx_refs p' →
  identifies p id r → identifies p' id r.
Proof.
  intros [t Ht] [k Hk] (ixs & txs & pk & Hr & Hm & Hid). exists ixs, txs, pk. rewrite Ht, Hk.
  split_and!; [by apply range_slice_prefix|by apply mapM_lookup_prefix|done].
Qed.

Lemma distinct_ids_nodup l : NoDup (distinct_ids l).
Proof. unfold distinct_ids. rewrite reverse_Permutation. apply NoDup_remove_dups. Qed.

Lemma oi_ids_nodup subs l p : orders_inv subs l p → NoDup (pl_order_ids p).
Proof. intros H. rewrite (oi_ids _ _ _ H). eapply sublist_NoDup; [apply distinct_ids_nodup|apply sublist_take]. Qed.

(** Announcing an order keeps the identifiers of a pool that has it or is
    full, and appends it to the others. *)
Lemma taken_snoc n l a :
  take n (distinct_ids (l ++ [a])) =
  if decide (an_id a ∈ take n (distinct_ids l)) then take n (distinct_ids l)
  else if decide (n ≤ length (take n (distinct_ids l)))%nat then take n (distinct_ids l)
  else take n (distinct_ids l) ++ [an_id a].
Proof.
  rewrite distinct_ids_snoc. pose proof (elem_of_distinct_ids l (an_id a)) as Hd.
  set (d := distinct_ids l) in *.
  rewrite length_take. case_decide as H1.
  - case_decide as H2; [done|]. case_decide as H3; [done|].
    destruct H2. apply Hd in H1. rewrite take_ge by lia. done.
  - rewrite decide_False by (intros H2; apply H1, Hd; eapply elem_of_take in H2 as (i & Hi & _);
      by eapply list_elem_of_lookup_2).
    case_decide as H3.
    + by rewrite take_app_le by lia.
    + rewrite !(take_ge) by (rewrite ?length_app; cbn; lia). done.
Qed.

Definition refs_in p : Prop := Forall (λ ix, (ix < length (pl_txs p))%nat) (pl_tx_refs p).

(** Orders keep whether they are withdrawn; new ones are not. *)
Definition only_fresh p p' : Prop :=
  ∃ k, po_withdrawn <$> pl_orders p' = (po_withdrawn <$> pl_orders p) ++ replicate k false.

(** The result of placing an announcement. *)
Definition placed_ok subs l p a (res : option (nat * bool * Pool)) : Prop :=
  match res with
  | None => orders_inv subs (l ++ [a]) p ∧ an_id a ∉ pl_order_ids p ∧
      pl_order_ids p = take (Z.to_nat max_orders) (pl_order_ids p) ∧
      (Z.to_nat max_orders ≤ length (pl_order_ids p))%nat
  | Some (ix, moved, p') =>
      orders_inv subs (l ++ [a]) p' ∧ pl_order_ids p' !! ix = Some (an_id a) ∧
      block_part p' = block_part p ∧ pl_latest_bundles p' = pl_latest_bundles p ∧
      pl_tx_refs p `prefix_of` pl_tx_refs p' ∧ pl_order_ids p `prefix_of` pl_order_ids p' ∧
      (moved = false → pl_orders p' = pl_orders p) ∧ (refs_in p → refs_in p') ∧
      only_fresh p p'
  end.

Lemma orders_inv_known subs l p a ix o :
  orders_inv subs l p → pl_block_values p !! an_block a = Some (an_value a) →
  pl_order_ids p !! ix = Some (an_id a) → pl_orders p !! ix = Some o →
  (∃ b, best_announcement l (an_id a) = Some b ∧ pl_block_values p !! po_best_block o = Some (an_value b) ∧
     po_best_block o = an_block b) ∧
  (∀ o', (∀ b, best_announcement l (an_id a) = Some b → an_value b < an_value a →
            po_best_block o' = an_block a ∧ revert_bits (an_ref a) = Some (po_may_revert o') ∧
            drop_bits (an_ref a) = Some (po_may_drop o') ∧ po_txs o' = po_txs o ∧
            ∃ sub, subs !! po_best_block o' = Some sub ∧ pl_submitters p !! po_submitter o' = Some sub) →
         (∀ b, best_announcement l (an_id a) = Some b → an_value a ≤ an_value b → o' = o) →
         orders_inv subs (l ++ [a]) (p <| pl_orders ::= <[ix := o']> |>)).
Proof.
  intros [Hids Hlen Hby Hval Hterms] Ha Hix Ho. destruct (Hterms _ _ _ Hix Ho) as (Hid & Hsub & b & Hb & Hblk & Hrev & Hdrop).
  pose proof (best_announcement_elem _ _ _ Hb) as [Hbl Hbid]. split.
  { exists b. split_and!; [done| |done]. rewrite Hblk. by apply Hval. }
  intros o' Hbetter Hkeep. split; rec_simpl.
  - rewrite taken_snoc, <- Hids, decide_True; [done|by eapply list_elem_of_lookup_2].
  - by rewrite length_insert.
  - done.
  - intros c [Hc|Hc]%elem_of_app; [by apply Hval|]. by apply list_elem_of_singleton in Hc as ->.
  - intros j id o'' Hj Hoj. rewrite best_announcement_snoc.
    destruct (decide (j = ix)) as [->|Hne].
    + rewrite list_lookup_insert_eq in Hoj by (by eapply lookup_lt_Some). injection Hoj as <-.
      rewrite Hix in Hj. injection Hj as <-. rewrite decide_True by done. rewrite Hb.
      destruct (Z.ltb_spec (an_value b) (an_value a)) as [Hlt|Hge].
      * destruct (Hbetter b Hb Hlt) as (? & ? & ? & Htxs & ?). rewrite Htxs.
        split_and!; [done|done|]. by exists a.
      * rewrite (Hkeep b Hb Hge). split_and!; [done|done|]. by exists b.
    + rewrite list_lookup_insert_ne in Hoj by done. rewrite decide_False; [by eapply Hterms|].
      intros <-. apply Hne. eapply NoDup_lookup; [|exact Hj|exact Hix].
      apply (oi_ids_nodup subs l p). by split.
Qed.

Lemma orders_inv_full subs l p a :
  orders_inv subs l p → pl_block_values p !! an_block a = Some (an_value a) →
  an_id a ∉ pl_order_ids p → (Z.to_nat max_orders ≤ length (pl_orders p))%nat →
  orders_inv subs (l ++ [a]) p.
Proof.
  intros [Hids Hlen Hby Hval Hterms] Ha Hnew Hfull. split; [|done|done| |].
  - rewrite taken_snoc, <- Hids, decide_False, decide_True by (done || lia). done.
  - intros c [Hc|Hc]%elem_of_app; [by apply Hval|]. by apply list_elem_of_singleton in Hc as ->.
  - intros j id o Hj Hoj. rewrite best_announcement_snoc, decide_False; [by eapply Hterms|].
    intros <-. apply Hnew. by eapply list_elem_of_lookup_2.
Qed.

(** A new order at the end of a pool with room. *)
Lemma orders_inv_new subs l p a refs revert may_drop submitter :
  orders_inv subs l p → pl_block_values p !! an_block a = Some (an_value a) →
  an_id a ∉ pl_order_ids p → (length (pl_orders p) < Z.to_nat max_orders)%nat →
  (∃ sub, subs !! an_block a = Some sub ∧ pl_submitters p !! submitter = Some sub) →
  (∃ txs pubkey, mapM (pl_txs p !!.) refs = Some txs ∧
    (an_id a = order_id (bundle_order_hash (px_hash <$> txs)) pubkey ∨
     ∃ tx, txs = [tx] ∧ an_id a = order_id (px_hash tx) pubkey)) →
  revert_bits (an_ref a) = Some revert → drop_bits (an_ref a) = Some may_drop →
  orders_inv subs (l ++ [a])
    (p <| pl_tx_refs ::= (λ l, l ++ refs) |>
       <| pl_orders ::= (λ l, l ++ [mkPoolOrder (mkRange (length (pl_tx_refs p)) (length refs))
                                      revert may_drop (an_block a) submitter false]) |>
       <| pl_order_ids ::= (λ l, l ++ [an_id a]) |>
       <| pl_order_by_id ::= <[an_id a := length (pl_orders p)]> |>).
Proof.
  intros [Hids Hlen Hby Hval Hterms] Ha Hnew Hroom Hsub (txs & pk & Htxs & Hident) Hrev Hdrop.
  assert (best_announcement l (an_id a) = None) as Hnone.
  { apply best_announcement_none. rewrite <- elem_of_distinct_ids. intros Hin. apply Hnew.
    rewrite Hids in Hlen |- *. rewrite length_take in Hlen. by rewrite take_ge by lia. }
  split; rec_simpl.
  - rewrite taken_snoc, <- Hids, decide_False, decide_False by (done || lia). done.
  - rewrite !length_app. cbn. lia.
  - intros id ix. destruct (decide (id = an_id a)) as [->|Hne].
    + rewrite lookup_insert_eq, Hlen. split; [intros [= <-]; by rewrite list_lookup_middle|].
      intros [Hix|[? Hix]]%lookup_app_Some; [by apply list_elem_of_lookup_2 in Hix|].
      apply list_lookup_singleton_Some in Hix as [? _]. f_equal. lia.
    + rewrite lookup_insert_ne by done. rewrite Hby. split; [by apply lookup_app_l_Some|].
      intros [Hix|[? Hix]]%lookup_app_Some; [done|]. by apply list_lookup_singleton_Some in Hix as [_ ?].
  - intros c [Hc|Hc]%elem_of_app; [by apply Hval|]. by apply list_elem_of_singleton in Hc as ->.
  - intros j id o Hj Hoj. rewrite best_announcement_snoc. apply lookup_app_Some in Hoj as [Hoj|[Hge Hoj]].
    + rewrite lookup_app_l in Hj by (rewrite <- Hlen; by eapply lookup_lt_Some).
      destruct (Hterms _ _ _ Hj Hoj) as (Hid & Hs & Ht). rewrite decide_False.
      * split_and!; [|done..]. eapply identifies_mono; [..|exact Hid]; rec_simpl; [done|by apply prefix_app_r].
      * intros <-. apply Hnew. by eapply list_elem_of_lookup_2.
    + apply list_lookup_singleton_Some in Hoj as [Hj0 <-].
      rewrite lookup_app_r, list_lookup_singleton_Some in Hj by lia. destruct Hj as [_ <-].
      rewrite decide_True, Hnone by done. split_and!; [|done|by exists a].
      exists refs, txs, pk. rec_simpl. by rewrite range_slice_end.
Qed.

Lemma place_order_spec subs l p m block submitter r refs :
  let a := mkAnnouncement (announced_id m r) block (fb_block_value m) r in
  orders_inv subs l p → 0 ≤ max_orders →
  pl_block_values p !! block = Some (fb_block_value m) →
  (∃ sub, subs !! block = Some sub ∧ pl_submitters p !! submitter = Some sub) →
  mapM (λ i : Z, pl_submission_txs p !! Z.to_nat i) (ref_indices r) = Some refs →
  (∃ txs pubkey, mapM (pl_txs p !!.) refs = Some txs ∧
    (an_id a = order_id (bundle_order_hash (px_hash <$> txs)) pubkey ∨
     ∃ tx, txs = [tx] ∧ an_id a = order_id (px_hash tx) pubkey)) →
  ∀ revert may_drop, revert_bits r = Some revert → drop_bits r = Some may_drop →
  ∃ res, place_order m block submitter max_orders (announced_id m r) revert may_drop r p = Some res ∧
    placed_ok subs l p a res.
Proof.
  intros a HI Hmax Hblk Hsub Hrefs Hident revert may_drop Hrev Hdrop. unfold place_order.
  change (announced_id m r) with (an_id a). pose proof HI as [Hids Hlen Hby Hval Hterms].
  destruct (pl_order_by_id p !! an_id a) as [ix|] eqn:E.
  - apply Hby in E as Hix. destruct (lookup_lt_is_Some_2 (pl_orders p) ix) as [o Ho].
    { rewrite Hlen. by eapply lookup_lt_Some. }
    rewrite Ho. cbn [mbind option_bind].
    destruct (orders_inv_known subs l p a ix o HI Hblk Hix Ho) as ((b & Hb & Hbest & _) & Hstep).
    rewrite Hbest. cbn [mbind option_bind]. destruct (Z.ltb_spec (an_value b) (fb_block_value m)) as [Hlt|Hge].
    + eexists. split; [reflexivity|]. cbn [placed_ok]. split_and!; [|done..| |].
      * apply Hstep; [by intros|]. intros b' Hb' ?. rewrite Hb in Hb'. injection Hb' as <-. cbn in *. lia.
      * done.
      * exists 0%nat. rec_simpl. rewrite app_nil_r, list_fmap_insert. cbn.
        apply list_insert_id. by rewrite list_lookup_fmap, Ho.
    + eexists. split; [reflexivity|]. cbn [placed_ok]. split_and!; [|done..|].
      * specialize (Hstep o). rec_simpl. rewrite (list_insert_id _ _ _ Ho) in Hstep. destruct p; rec_simpl.
        apply Hstep; [|done]. intros b' Hb' ?. rewrite Hb in Hb'. injection Hb' as <-. cbn in *. lia.
      * exists 0%nat. by rewrite app_nil_r.
  - assert (an_id a ∉ pl_order_ids p) as Hnew.
    { intros [ix Hix]%list_elem_of_lookup. apply Hby in Hix. congruence. }
    destruct (Z.leb_spec max_orders (len (pl_orders p))) as [Hfull|Hroom]; unfold len in *.
    + eexists. split; [reflexivity|]. cbn [placed_ok]. split_and!; [apply orders_inv_full; [done..|lia]|done| |lia].
      by rewrite Hids, take_take, Nat.min_id.
    + rewrite Hrefs. cbn [mbind option_bind]. eexists. split; [reflexivity|]. cbn [placed_ok].
      split_and!; [| |done|done|by apply prefix_app_r|by apply prefix_app_r|done| |].
      * apply orders_inv_new; [done..|lia|done|done|done|done].
      * rec_simpl. rewrite Hlen. by rewrite list_lookup_middle.
      * intros Hin. apply Forall_app. split; [done|]. destruct Hident as (txs & _ & Htxs%mapM_Some & _).
        apply Forall_forall. intros ix Hix. apply list_elem_of_lookup in Hix as [k Hk].
        destruct (Forall2_lookup_l _ _ _ _ _ Htxs Hk) as (tx & _ & Htx). by eapply lookup_lt_Some.
      * exists 1%nat. rec_simpl. by rewrite fmap_app.
Qed.

Definition block_txs m : list Bytes := ep_transactions (fb_execution_payload m).

Lemma submitted_lookup p m (i : Z) :
  Forall2 (points_to p) (pl_submission_txs p) (block_txs m) → 0 ≤ i < len (pl_submission_txs p) →
  ∃ ix tx, pl_submission_txs p !! Z.to_nat i = Some ix ∧ pl_txs p !! ix = Some tx ∧
    px_hash tx = resolve_hash (entry_hashes m) i.
Proof.
  intros Hsub Hi. unfold len in Hi.
  destruct (lookup_lt_is_Some_2 (pl_submission_txs p) (Z.to_nat i)) as [ix Hix]; [lia|].
  destruct (Forall2_lookup_l _ _ _ _ _ Hsub Hix) as (b & Hb & tx & Htx & Hh).
  exists ix, tx. split_and!; [done..|]. unfold resolve_hash, entry_hashes.
  unfold block_txs in Hb. by rewrite list_lookup_fmap, Hb.
Qed.

Lemma submitted_all p m ixs :
  Forall2 (points_to p) (pl_submission_txs p) (block_txs m) →
  Forall (λ i, 0 ≤ i < len (pl_submission_txs p)) ixs →
  mapM (submitted_hash p) ixs = Some (resolve_hash (entry_hashes m) <$> ixs) ∧
  ∃ refs txs, mapM (λ i : Z, pl_submission_txs p !! Z.to_nat i) ixs = Some refs ∧
    mapM (pl_txs p !!.) refs = Some txs ∧ px_hash <$> txs = resolve_hash (entry_hashes m) <$> ixs.
Proof.
  intros Hsub. induction 1 as [|i ixs Hi _ (Hm & refs & txs & IH1 & IH2 & IH3)]; [by split; [|exists [], []]|].
  destruct (submitted_lookup p m i Hsub Hi) as (ix & tx & Hix & Htx & Hh). split.
  - assert (submitted_hash p i = Some (px_hash tx)) as Hs by (unfold submitted_hash; rewrite Hix; cbn; by rewrite Htx).
    cbn [mapM fmap list_fmap]. rewrite Hs. cbn [mbind option_bind]. rewrite Hm. cbn. by rewrite Hh.
  - exists (ix :: refs), (tx :: txs). cbn [mapM fmap list_fmap]. rewrite Hix. cbn [mbind option_bind].
    rewrite IH1. cbn [mbind option_bind mret option_ret mapM]. rewrite Htx. cbn [mbind option_bind].
    rewrite IH2. cbn. split_and!; [done|done|]. rewrite Hh. f_equal. exact IH3.
Qed.

Lemma order_bits_some ixs : Forall (λ i, i < 32) ixs → is_Some (order_bits ixs).
Proof.
  unfold order_bits. assert (∀ b, Forall (λ i, i < 32) ixs → is_Some (foldl (λ bits i, bits ← bits;
    if i <? 32 then Some (Z.lor bits (Z.shiftl 1 i)) else None) (Some b) ixs)) as H; [|apply H].
  induction ixs as [|i ixs IH]; intros b Hi; [by eexists|]. inversion Hi; subst. cbn [foldl mbind option_bind].
  rewrite (proj2 (Z.ltb_lt _ _)) by done. by apply IH.
Qed.

Lemma describe_ref_spec p m r :
  Forall2 (points_to p) (pl_submission_txs p) (block_txs m) → ref_typed r →
  ref_validate r (len (pl_submission_txs p)) = true →
  ∃ revert may_drop refs, describe_ref p r =
      Some (order_ref_hash r (entry_hashes m), revert, may_drop, ref_latest_only r) ∧
    revert_bits r = Some revert ∧ drop_bits r = Some may_drop ∧
    mapM (λ i : Z, pl_submission_txs p !! Z.to_nat i) (ref_indices r) = Some refs ∧
    ∃ txs pubkey, mapM (pl_txs p !!.) refs = Some txs ∧
      (announced_id m r = order_id (bundle_order_hash (px_hash <$> txs)) pubkey ∨
       ∃ tx, txs = [tx] ∧ announced_id m r = order_id (px_hash tx) pubkey).
Proof.
  intros Hsub Hty Hv. destruct r as [t|b].
  - cbn in Hv, Hty. apply negb_true_iff, Z.leb_gt in Hv.
    destruct (submitted_lookup p m (tr_index t) Hsub ltac:(lia)) as (ix & tx & Hix & Htx & Hh).
    exists (if tr_can_revert t then 1 else 0), 0, [ix]. cbn [describe_ref ref_indices mapM].
    unfold submitted_hash. rewrite Hix. cbn [mbind option_bind]. rewrite Htx. cbn.
    split_and!; [by rewrite Hh|done..|]. exists [tx], (fb_builder_pubkey m).
    split; [done|]. right. exists tx. split; [done|]. unfold announced_id. cbn. by rewrite Hh.
  - cbn in Hv. rewrite negb_true_iff, !orb_false_iff, !existsb_ge in Hv.
    destruct Hv as ((((_ & Hmax%Z.ltb_ge) & Htxs) & Hrev) & Hdrop). destruct Hty as (Ht1 & Ht2 & Ht3).
    destruct (submitted_all p m (br_txs b) Hsub) as (Hh & refs & txs & Hr & Ht & Hpx).
    { apply Forall_forall. intros i Hi. rewrite Forall_forall in Ht1. split; [by apply Ht1|by apply Htxs]. }
    unfold MAX_BUNDLE_TXS in Hmax.
    destruct (order_bits_some (br_reverting_txs b)) as [rv Hrv];
      [apply Forall_forall; intros i Hi%Hrev; lia|].
    destruct (order_bits_some (br_dropping_txs b)) as [dr Hdr];
      [apply Forall_forall; intros i Hi%Hdrop; lia|].
    exists rv, dr, refs. cbn [describe_ref ref_indices revert_bits drop_bits]. rewrite Hh, Hrv, Hdr.
    split_and!; [done..|]. exists txs, (fb_builder_pubkey m). split; [done|]. left.
    unfold announced_id. cbn. by rewrite Hpx.
Qed.

Lemma taken_stable n l k :
  (n ≤ length (take n (distinct_ids l)))%nat → take n (distinct_ids (l ++ k)) = take n (distinct_ids l).
Proof.
  intros Hn. induction k as [|a k IH] using rev_ind; [by rewrite app_nil_r|].
  rewrite app_assoc, taken_snoc, IH. do 2 (case_decide; [done|]). done.
Qed.

(** What announcing the orders of a block leaves. *)
Definition announced_ok subs l m block submitter p (changed : bool) (refs : list MergeOrderRef)
    p' (changed' : bool) : Prop :=
  orders_inv subs (l ++ ((λ r, mkAnnouncement (announced_id m r) block (fb_block_value m) r) <$> refs)) p' ∧
  block_part p' = block_part p ∧ (refs_in p → refs_in p') ∧
  pl_tx_refs p `prefix_of` pl_tx_refs p' ∧ pl_order_ids p `prefix_of` pl_order_ids p' ∧
  (changed' = false → changed = false ∧ pl_orders p' = pl_orders p) ∧
  only_fresh p p' ∧
  ∃ fresh, pl_latest_bundles p' = pl_latest_bundles p ++ fresh ∧
    ∀ s ix, (s, ix) ∈ fresh ↔ s = submitter ∧
      ∃ r, r ∈ refs ∧ ref_latest_only r = true ∧ pl_order_ids p' !! ix = Some (announced_id m r).

Lemma block_part_eq p p' :
  block_part p' = block_part p →
  pl_txs p' = pl_txs p ∧ pl_submission_txs p' = pl_submission_txs p ∧
  pl_submitters p' = pl_submitters p ∧ pl_block_values p' = pl_block_values p.
Proof. unfold block_part. intros [=]. done. Qed.

Lemma orders_inv_latest subs l p f : orders_inv subs l p → orders_inv subs l (p <| pl_latest_bundles ::= f |>).
Proof. by intros [? ? ? ? ?]. Qed.

(** An announced order is in the pool now or never. *)
Lemma announced_ids_stable subs subs' l k p p' ix id :
  orders_inv subs l p → orders_inv subs' (l ++ k) p' → pl_order_ids p `prefix_of` pl_order_ids p' →
  id ∈ an_id <$> l → pl_order_ids p !! ix = Some id ↔ pl_order_ids p' !! ix = Some id.
Proof.
  intros HI HI' Hp Hid. split; [intros; by eapply prefix_lookup_Some|]. intros Hx.
  assert (id ∈ pl_order_ids p) as [j Hj]%list_elem_of_lookup.
  { rewrite (oi_ids _ _ _ HI). apply elem_of_distinct_ids in Hid.
    destruct (decide (Z.to_nat max_orders ≤ length (take (Z.to_nat max_orders) (distinct_ids l)))%nat) as [Hf|Hf].
    - apply list_elem_of_lookup_2 in Hx. rewrite (oi_ids _ _ _ HI'), taken_stable in Hx by done. done.
    - rewrite length_take in Hf. rewrite take_ge by lia. done. }
  assert (j = ix) as <-; [|done]. eapply NoDup_lookup; [by eapply oi_ids_nodup| |exact Hx].
  by eapply prefix_lookup_Some.
Qed.

Lemma add_order_spec subs l m block submitter p changed full r :
  orders_inv subs l p → 0 ≤ max_orders →
  pl_block_values p !! block = Some (fb_block_value m) →
  (∃ sub, subs !! block = Some sub ∧ pl_submitters p !! submitter = Some sub) →
  Forall2 (points_to p) (pl_submission_txs p) (block_txs m) →
  ref_typed r → ref_validate r (len (pl_submission_txs p)) = true →
  ∃ p' changed' full', add_order m block submitter max_orders (p, changed, full) r
      = Some (p', changed', full') ∧ announced_ok subs l m block submitter p changed [r] p' changed'.
Proof.
  intros HI Hmax Hblk Hsub Hpts Hty Hval.
  destruct (describe_ref_spec p m r Hpts Hty Hval) as (rv & dr & ixs & Hd & Hrv & Hdr & Hixs & Hid).
  destruct (place_order_spec subs l p m block submitter r ixs HI Hmax Hblk Hsub Hixs Hid rv dr Hrv Hdr)
    as (res & Hres & Hok).
  unfold add_order. rewrite Hd. cbn [mbind option_bind].
  change (order_id _ (fb_builder_pubkey m)) with (announced_id m r). rewrite Hres. cbn [mbind option_bind].
  set (a := mkAnnouncement (announced_id m r) block (fb_block_value m) r) in *.
  unfold announced_ok. setoid_rewrite list_elem_of_singleton. cbn [fmap list_fmap]. fold a.
  destruct res as [[[ix moved] p1]|].
  - destruct Hok as (HI1 & Hix & Hbp & Hlat & Htr & Hidp & Hmv & Hin & Hw). cbn [an_id a] in Hix.
    pose proof (oi_ids_nodup _ _ _ HI1) as Hnd.
    assert (∀ j, j = ix ↔ pl_order_ids p1 !! j = Some (announced_id m r)) as Hj.
    { intros j. split; [by intros ->|]. intros Hj. by eapply NoDup_lookup. }
    eexists _, _, _. split; [reflexivity|]. destruct (ref_latest_only r) eqn:El.
    + split_and!; [by apply orders_inv_latest|done..| |done|].
      * intros [-> ->]%orb_false_iff. split; [done|by apply Hmv].
      * exists [(submitter, ix)]. rec_simpl. rewrite Hlat. split; [done|]. intros s j.
        rewrite list_elem_of_singleton. split.
        -- intros [= -> ->]. split; [done|]. by exists r.
        -- intros (-> & r' & -> & _ & Hx). by apply Hj in Hx as ->.
    + split_and!; [done..| |done|].
      * intros [-> ->]%orb_false_iff. split; [done|by apply Hmv].
      * exists []. rewrite app_nil_r. split; [done|]. intros s j. split; [by intros ?%elem_of_nil|].
        intros (_ & r' & -> & ? & _). congruence.
  - destruct Hok as (HI1 & Hnew & _). eexists _, _, _. split; [reflexivity|].
    split_and!; [done..| |].
    + exists 0%nat. by rewrite app_nil_r.
    + exists []. rewrite app_nil_r. split; [done|]. intros s j. split; [by intros ?%elem_of_nil|].
      intros (_ & r' & -> & _ & Hx). destruct Hnew. by eapply list_elem_of_lookup_2.
Qed.

Lemma add_all_spec subs l m block submitter p changed full refs :
  orders_inv subs l p → 0 ≤ max_orders →
  pl_block_values p !! block = Some (fb_block_value m) →
  (∃ sub, subs !! block = Some sub ∧ pl_submitters p !! submitter = Some sub) →
  Forall2 (points_to p) (pl_submission_txs p) (block_txs m) →
  Forall (λ r, ref_typed r ∧ ref_validate r (len (pl_submission_txs p)) = true) refs →
  ∃ p' changed' full', add_all (add_order m block submitter max_orders) (p, changed, full) refs
      = Some (p', changed', full') ∧ announced_ok subs l m block submitter p changed refs p' changed'.
Proof.
  intros HI Hmax Hblk Hsub Hpts Hrefs. revert l p changed full HI Hblk Hsub Hpts Hrefs.
  induction refs as [|r refs IH]; intros l p changed full HI Hblk Hsub Hpts Hrefs.
  { exists p, changed, full. split; [done|]. unfold announced_ok. cbn. rewrite app_nil_r.
    split_and!; [done..| |].
    - exists 0%nat. by rewrite app_nil_r.
    - exists []. rewrite app_nil_r. split; [done|]. intros s ix. split; [by intros ?%elem_of_nil|].
      by intros [_ (r & ?%elem_of_nil & _)]. }
  inversion Hrefs as [|? ? [Hty Hval] Hrefs']; subst.
  destruct (add_order_spec subs l m block submitter p changed full r HI Hmax Hblk Hsub Hpts Hty Hval)
    as (p1 & c1 & f1 & Hrun1 & Hok1).
  destruct Hok1 as (HI1 & Hbp1 & Hin1 & Htr1 & Hid1 & Hch1 & Hof1 & fresh1 & Hlat1 & Hfresh1).
  destruct (block_part_eq _ _ Hbp1) as (E1 & E2 & E3 & E4).
  destruct (IH _ p1 c1 f1 HI1) as (p' & c' & f' & Hrun & Hok');
    [by rewrite E4|by rewrite E3| |by rewrite E2|].
  { rewrite E2. eapply Forall2_impl; [done|]. intros i b. apply points_to_mono. by rewrite E1. }
  exists p', c', f'. cbn [add_all]. rewrite Hrun1. split; [done|].
  destruct Hok' as (HI' & Hbp' & Hin' & Htr' & Hidp' & Hch & Hof & fresh & Hlat' & Hfresh).
  unfold announced_ok. change (r :: refs) with ([r] ++ refs). rewrite fmap_app, app_assoc.
  split_and!; [done|by rewrite Hbp'|by auto|by etrans|by etrans| | |].
  - intros Hc. destruct (Hch Hc) as [Hc1 ->]. by apply Hch1.
  - destruct Hof1 as [k1 Hk1], Hof as [k Hk]. exists (k1 + k)%nat.
    by rewrite Hk, Hk1, <- app_assoc, replicate_add.
  - exists (fresh1 ++ fresh). split; [by rewrite Hlat', Hlat1, app_assoc|]. intros s ix.
    rewrite elem_of_app, Hfresh1, Hfresh. setoid_rewrite elem_of_app. setoid_rewrite list_elem_of_singleton.
    assert (∀ id, id ∈ an_id <$> l ++ [mkAnnouncement (announced_id m r) block (fb_block_value m) r] →
      pl_order_ids p1 !! ix = Some id ↔ pl_order_ids p' !! ix = Some id) as Hsame
      by (intros id Hid; eapply announced_ids_stable; [exact HI1|exact HI'|exact Hidp'|exact Hid]).
    split.
    + intros [(-> & r' & -> & Hl & Hx)|(-> & r' & ? & ? & ?)]; (split; [done|]).
      * exists r. split_and!; [by left|done|]. by eapply prefix_lookup_Some.
      * exists r'. split_and!; [by right|done..].
    + intros (-> & r' & [->|?] & Hl & Hx); [left|right]; (split; [done|]); [|by exists r'].
      exists r. split_and!; [done..|]. apply Hsame; [|done].
      rewrite fmap_app, elem_of_app. right. by left.
Qed.

Lemma withdraw_spec submitter fresh previous orders changed :
  Forall (λ e, (e.2 < length orders)%nat) previous →
  ∃ orders' changed',
    foldl (withdraw_stale submitter fresh) (Some (orders, changed)) previous = Some (orders', changed') ∧
    length orders' = length orders ∧
    (∀ ix o, orders !! ix = Some o → orders' !! ix = Some (o <| po_withdrawn :=
       po_withdrawn o || bool_decide ((submitter, ix) ∈ previous ∧ (submitter, ix) ∉ fresh) |>)) ∧
    (changed' = false → changed = false ∧ orders' = orders).
Proof.
  revert orders changed. induction previous as [|[s ix] previous IH]; intros orders changed Hprev.
  { exists orders, changed. cbn. split_and!; [done..| |done]. intros ix o Ho. rewrite bool_decide_false.
    - rewrite orb_false_r. destruct o. done.
    - by intros [?%elem_of_nil _]. }
  inversion Hprev as [|? ? Hix Hprev']; subst. cbn in Hix. cbn [foldl]. unfold withdraw_stale at 2.
  cbn [mbind option_bind]. case_bool_decide as Hs; [case_bool_decide as Hf|]; cbn [andb].
  - subst s. destruct (lookup_lt_is_Some_2 _ _ Hix) as [o Ho]. rewrite Ho. cbn [mbind option_bind].
    destruct (IH (<[ix := o <| po_withdrawn := true |>]> orders) (changed || negb (po_withdrawn o)))
      as (orders' & c' & Hrun & Hlen & Hget & Hch); [by rewrite length_insert|].
    exists orders', c'. split_and!; [done|by rewrite Hlen, length_insert| |].
    + intros j o2 Ho2. destruct (decide (j = ix)) as [->|Hne].
      * rewrite Ho in Ho2. injection Ho2 as <-. rewrite (Hget ix _ (list_lookup_insert_eq _ _ _ Hix)).
        rewrite (bool_decide_true ((submitter, ix) ∈ (submitter, ix) :: previous ∧ _)) by (split; [by left|done]).
        rec_simpl. by rewrite orb_true_r.
      * rewrite (Hget j o2) by (by rewrite list_lookup_insert_ne).
        assert ((submitter, j) ∈ previous ↔ (submitter, j) ∈ (submitter, ix) :: previous) as Hiff
          by (rewrite elem_of_cons; naive_solver).
        by rewrite (bool_decide_ext _ _ (and_iff_compat_r _ Hiff)).
    + intros Hc. destruct (Hch Hc) as [[-> Hw%negb_false_iff]%orb_false_iff ->]. split; [done|].
      apply list_insert_id. rewrite Ho. f_equal. destruct o; rec_simpl. by rewrite Hw.
  - destruct (IH orders changed Hprev') as (orders' & c' & Hrun & Hlen & Hget & Hch).
    exists orders', c'. split_and!; [done..| |done]. intros j o Ho. rewrite (Hget j o Ho).
    assert ((submitter, j) ∈ previous ∧ (submitter, j) ∉ fresh ↔
            (submitter, j) ∈ (s, ix) :: previous ∧ (submitter, j) ∉ fresh) as Hiff.
    { rewrite elem_of_cons. split; [intros [? ?]; auto|]. intros [[Heq|?] ?]; [|done].
      injection Heq as -> ->. done. }
    by rewrite (bool_decide_ext _ _ Hiff).
  - destruct (IH orders changed Hprev') as (orders' & c' & Hrun & Hlen & Hget & Hch).
    exists orders', c'. split_and!; [done..| |done]. intros j o Ho. rewrite (Hget j o Ho).
    assert ((submitter, j) ∈ previous ∧ (submitter, j) ∉ fresh ↔
            (submitter, j) ∈ (s, ix) :: previous ∧ (submitter, j) ∉ fresh) as Hiff.
    { rewrite elem_of_cons. split; [intros [? ?]; auto|]. intros [[Heq|?] ?]; [|done].
      injection Heq as -> ->. done. }
    by rewrite (bool_decide_ext _ _ Hiff).
Qed.

(** The pool after the blocks of [log]. *)
Record pool_inv log p : Prop := mk_pool_inv {
  pi_table : table_ok p;
  pi_refs : refs_in p;
  pi_orders : orders_inv (submitter_of <$> log) (announcements log) p;
  pi_values : pl_block_values p = fb_block_value <$> log;
  pi_hashes : pl_block_hashes p = list_to_set ((λ m, ep_block_hash (fb_execution_payload m)) <$> log);
  pi_nodup : NoDup ((λ m, ep_block_hash (fb_execution_payload m)) <$> log);
  pi_submitters : NoDup (pl_submitters p) ∧ ∀ s, s ∈ pl_submitters p ↔ s ∈ submitter_of <$> log;
  pi_latest : ∀ s ix, (s, ix) ∈ pl_latest_bundles p ↔
    ∃ sub m id, pl_submitters p !! s = Some sub ∧ last_of sub log = Some m ∧
      pl_order_ids p !! ix = Some id ∧ id ∈ latest_ids m;
  pi_withdrawn : ∀ ix id o, pl_order_ids p !! ix = Some id → pl_orders p !! ix = Some o →
    po_withdrawn o = true ↔ superseded log id;
  pi_bound : len log ≤ Z.max 0 (Z.min max_blocks u16_max)
}.

Lemma orders_inv_frame subs subs' l p p' :
  orders_inv subs l p → pl_orders p' = pl_orders p → pl_order_ids p' = pl_order_ids p →
  pl_order_by_id p' = pl_order_by_id p → pl_txs p `prefix_of` pl_txs p' →
  pl_tx_refs p `prefix_of` pl_tx_refs p' → pl_block_values p `prefix_of` pl_block_values p' →
  pl_submitters p `prefix_of` pl_submitters p' → subs `prefix_of` subs' → orders_inv subs' l p'.
Proof.
  intros [Hids Hlen Hby Hval Hterms] Eo Ei Eb Ht Hr Hv Hs Hss. split; rewrite ?Eo, ?Ei, ?Eb; [done..| |].
  - intros a Ha. eapply prefix_lookup_Some; [by apply Hval|done].
  - intros ix id o Hix Ho. destruct (Hterms ix id o Hix Ho) as (Hid & (sub & H1 & H2) & Hb).
    split_and!; [by eapply identifies_mono| |done]. exists sub. split; by eapply prefix_lookup_Some.
Qed.

(** The entries of a block leave the rest of the pool as it was. *)
Lemma pool_inv_table log p p' :
  pool_inv log p → table_ok p' → order_part p' = order_part p → pl_txs p `prefix_of` pl_txs p' →
  pool_inv log p'.
Proof.
  intros [Htab Hrefs Hord Hval Hhash Hnd Hsub Hlat Hwd Hb] Ht Hpart Hpre. unfold order_part in Hpart.
  injection Hpart as E1 E2 E3 E4 E5 E6 E7 E8 E9.
  split; rewrite ?E1, ?E2, ?E3, ?E4, ?E5, ?E6, ?E7, ?E8; try done.
  - unfold refs_in in *. rewrite E1. eapply Forall_impl; [exact Hrefs|]. cbn. intros ix Hix.
    apply prefix_length in Hpre. lia.
  - eapply orders_inv_frame; try done; by rewrite ?E1, ?E5, ?E7.
Qed.

Lemma submitter_index_spec log m p :
  NoDup (pl_submitters p) → (∀ s, s ∈ pl_submitters p ↔ s ∈ submitter_of <$> log) →
  let '(i, p') := submitter_index m p in
  pl_submitters p' !! i = Some (submitter_of m) ∧ pl_submitters p `prefix_of` pl_submitters p' ∧
  p' = p <| pl_submitters := pl_submitters p' |> ∧ NoDup (pl_submitters p') ∧
  (∀ s, s ∈ pl_submitters p' ↔ s ∈ submitter_of <$> log ++ [m]) ∧
  ∀ j s, j ≠ i → pl_submitters p' !! j = Some s → pl_submitters p !! j = Some s.
Proof.
  intros Hnd Hin. unfold submitter_index. change (mkSubmitter _ _) with (submitter_of m).
  destruct (position _ (pl_submitters p)) as [i|] eqn:E.
  - apply position_some in E as (x & Hx & Hb%bool_decide_eq_true & _). subst x.
    split_and!; [done|done|by destruct p|done| |done].
    intros s. rewrite fmap_app, elem_of_app, <- Hin. split; [by left|].
    intros [?|Hs]; [done|]. apply list_elem_of_singleton in Hs as ->. by eapply list_elem_of_lookup_2.
  - rewrite position_none in E.
    assert (submitter_of m ∉ pl_submitters p) as Hnew.
    { intros Hs%E. by rewrite bool_decide_true in Hs. }
    rec_simpl. split_and!.
    + by rewrite list_lookup_middle.
    + by apply prefix_app_r.
    + done.
    + apply NoDup_app. split_and!; [done| |by apply NoDup_singleton].
      intros s Hs Hs'. apply list_elem_of_singleton in Hs' as ->. done.
    + intros s. by rewrite fmap_app, !elem_of_app, <- Hin.
    + intros j s Hj [?|[? Hs]]%lookup_app_Some; [done|].
      apply list_lookup_singleton_Some in Hs as [? _]. lia.
Qed.

Lemma elem_of_latest_ids m id :
  id ∈ latest_ids m ↔ ∃ r, r ∈ fb_merge_orders m ∧ ref_latest_only r = true ∧ id = announced_id m r.
Proof.
  unfold latest_ids. rewrite list_elem_of_fmap. setoid_rewrite elem_of_bool_filter. naive_solver.
Qed.

Lemma latest_announced log m id :
  m ∈ log → id ∈ latest_ids m → id ∈ an_id <$> announcements log.
Proof.
  intros [b Hb]%list_elem_of_lookup (r & Hr & _ & ->)%elem_of_latest_ids. apply list_elem_of_fmap.
  exists (mkAnnouncement (announced_id m r) b (fb_block_value m) r). split; [done|].
  unfold announcements. rewrite list_elem_of_In, in_concat. exists (announce b m).
  rewrite <- !list_elem_of_In. split.
  - apply list_elem_of_lookup. exists b. by rewrite list_lookup_imap, Hb.
  - unfold announce. apply list_elem_of_fmap. by exists r.
Qed.

Lemma last_of_elem s log m : last_of s log = Some m → m ∈ log ∧ submitter_of m = s.
Proof. intros (l1 & l2 & -> & ? & _)%last_of_some. split; [|done]. apply elem_of_app. right. by left. Qed.

Lemma superseded_announced log id : superseded log id → id ∈ an_id <$> announcements log.
Proof.
  intros (l1 & m1 & l2 & m2 & l3 & -> & _ & _ & Hin & _). eapply latest_announced; [|done].
  apply elem_of_app. right. by left.
Qed.

(** The bundles that must be in the next block of their submitter, after the
    block [m] of the submitter at [i]. *)
Section latest_step.
Context log m (subs subs' : list Submitter) (ids ids' : list B256) (latest fresh : list (nat * nat)) (i : nat).
Context (Hlatest : ∀ s ix, (s, ix) ∈ latest ↔
  ∃ sub m id, subs !! s = Some sub ∧ last_of sub log = Some m ∧ ids !! ix = Some id ∧ id ∈ latest_ids m).
Context (Hin : ∀ s, s ∈ subs ↔ s ∈ submitter_of <$> log) (Hnd : NoDup subs').
Context (Hi : subs' !! i = Some (submitter_of m)) (Hpre : subs `prefix_of` subs').
Context (Hne : ∀ j s, j ≠ i → subs' !! j = Some s → subs !! j = Some s).
Context (Hids : ∀ ix id, id ∈ an_id <$> announcements log → ids !! ix = Some id ↔ ids' !! ix = Some id).
Context (Hfresh : ∀ s ix, (s, ix) ∈ fresh ↔ s = i ∧
  ∃ r, r ∈ fb_merge_orders m ∧ ref_latest_only r = true ∧ ids' !! ix = Some (announced_id m r)).

Lemma fresh_latest ix id : ids' !! ix = Some id → (i, ix) ∈ fresh ↔ id ∈ latest_ids m.
Proof.
  intros Hix. rewrite Hfresh, elem_of_latest_ids. split.
  - intros (_ & r & ? & ? & ?). exists r. split_and!; [done..|congruence].
  - intros (r & ? & ? & ->). split; [done|]. by exists r.
Qed.

Lemma previous_latest ix id :
  ids' !! ix = Some id →
  (i, ix) ∈ latest ↔ ∃ m1, last_of (submitter_of m) log = Some m1 ∧ id ∈ latest_ids m1.
Proof.
  intros Hix. rewrite Hlatest. split.
  - intros (sub & m1 & id' & Hs & Hl & Hid' & Hin1). exists m1.
    assert (sub = submitter_of m) as -> by (eapply prefix_lookup_Some in Hs; [|done]; congruence).
    apply Hids in Hid'; [|eapply latest_announced; [by apply last_of_elem in Hl as []|done]].
    split; [done|]. congruence.
  - intros (m1 & Hl & Hin1). destruct (last_of_elem _ _ _ Hl) as [Hm1 Hs1].
    assert (submitter_of m ∈ subs) as [j Hj]%list_elem_of_lookup.
    { apply Hin, list_elem_of_fmap. by exists m1. }
    assert (j = i) as -> by (eapply NoDup_lookup; [done| |exact Hi]; by eapply prefix_lookup_Some).
    exists (submitter_of m), m1, id. split_and!; [done..| |done]. apply Hids; [|done]. by eapply latest_announced.
Qed.

Lemma latest_step s ix :
  (s, ix) ∈ List.filter (λ e, negb (bool_decide (e.1 = i))) latest ++ fresh ↔
  ∃ sub m' id, subs' !! s = Some sub ∧ last_of sub (log ++ [m]) = Some m' ∧ ids' !! ix = Some id ∧
    id ∈ latest_ids m'.
Proof.
  rewrite elem_of_app, elem_of_bool_filter. cbn [fst]. rewrite negb_true_iff, bool_decide_eq_false.
  setoid_rewrite last_of_snoc. destruct (decide (s = i)) as [->|Hs].
  - split.
    + intros [[_ ?]|Hf]; [done|]. pose proof Hf as (_ & r & Hr & Hl & Hx)%Hfresh.
      exists (submitter_of m), m, (announced_id m r). rewrite decide_True by done.
      split_and!; [done..|]. by apply (fresh_latest ix).
    + intros (sub & m' & id & Hsub & Hm & Hid & Hl). right. apply (fresh_latest ix id Hid).
      rewrite Hi in Hsub. injection Hsub as <-. rewrite decide_True in Hm by done. by injection Hm as ->.
  - rewrite Hlatest. split.
    + intros [[(sub & m' & id & Hsub & Hm & Hid & Hl) _]|Hf]; [|by apply Hfresh in Hf as [? _]].
      exists sub, m', id. rewrite decide_False.
      * split_and!; [by eapply prefix_lookup_Some|done| |done]. apply Hids; [|done].
        eapply latest_announced; [by apply last_of_elem in Hm as []|done].
      * intros <-. apply Hs. eapply NoDup_lookup; [done| |exact Hi]. by eapply prefix_lookup_Some.
    + intros (sub & m' & id & Hsub & Hm & Hid & Hl). left. split; [|done]. exists sub, m', id.
      rewrite decide_False in Hm by (intros <-; apply Hs; by eapply NoDup_lookup).
      split_and!; [by apply Hne|done| |done]. apply Hids; [|done].
      eapply latest_announced; [by apply last_of_elem in Hm as []|done].
Qed.

(** An order is withdrawn once a block of its submitter left it out. *)
Lemma withdrawn_step ix id (w : bool) :
  ids' !! ix = Some id →
  (w = true ↔ ids !! ix = Some id ∧ superseded log id) →
  w || bool_decide ((i, ix) ∈ latest ∧ (i, ix) ∉ fresh) = true ↔ superseded (log ++ [m]) id.
Proof.
  intros Hix Hw. rewrite orb_true_iff, bool_decide_eq_true, Hw, superseded_snoc.
  rewrite (previous_latest ix id Hix), (fresh_latest ix id Hix). split.
  - intros [[_ ?]|[(m1 & ? & ?) ?]]; [by left|right; eauto].
  - intros [Hs|(m1 & ? & ? & ?)]; [left|right; split; eauto].
    split; [|done]. apply Hids; [by apply superseded_announced|done].
Qed.
End latest_step.

Lemma orders_inv_withdrawn subs l p orders :
  orders_inv subs l p → length orders = length (pl_orders p) →
  (∀ ix o, pl_orders p !! ix = Some o → ∃ w, orders !! ix = Some (o <| po_withdrawn := w |>)) →
  orders_inv subs l (p <| pl_orders := orders |>).
Proof.
  intros [Hids Hlen Hby Hval Hterms] Hl Ho. split; rec_simpl; [done|by rewrite Hl|done..|].
  intros ix id o Hix Hox. destruct (lookup_lt_is_Some_2 (pl_orders p) ix) as [o0 Ho0].
  { rewrite <- Hl. by eapply lookup_lt_Some. }
  destruct (Ho ix o0 Ho0) as [w Hw]. rewrite Hox in Hw. injection Hw as ->.
  destruct (Hterms ix id o0 Hix Ho0) as (? & ? & ?). by split_and!.
Qed.

(** What is withdrawn before the block. *)
Lemma withdrawn_kept log p p' k ix id o :
  (∀ ix id o, pl_order_ids p !! ix = Some id → pl_orders p !! ix = Some o →
     po_withdrawn o = true ↔ superseded log id) →
  length (pl_orders p) = length (pl_order_ids p) →
  pl_order_ids p `prefix_of` pl_order_ids p' →
  po_withdrawn <$> pl_orders p' = (po_withdrawn <$> pl_orders p) ++ replicate k false →
  pl_order_ids p' !! ix = Some id → pl_orders p' !! ix = Some o →
  po_withdrawn o = true ↔ pl_order_ids p !! ix = Some id ∧ superseded log id.
Proof.
  intros Hwd Hlen Hpre Hof Hix Ho.
  assert ((po_withdrawn <$> pl_orders p') !! ix = Some (po_withdrawn o)) as Hw by (by rewrite list_lookup_fmap, Ho).
  rewrite Hof in Hw. apply lookup_app_Some in Hw as [Hw|[Hge Hw]].
  - rewrite list_lookup_fmap in Hw. destruct (pl_orders p !! ix) as [o0|] eqn:E0; [|done]. injection Hw as <-.
    destruct (lookup_lt_is_Some_2 (pl_order_ids p) ix) as [id0 Hid0].
    { rewrite <- Hlen. by eapply lookup_lt_Some. }
    assert (id0 = id) as -> by (eapply prefix_lookup_Some in Hid0 as Hid1; [|done]; congruence).
    rewrite (Hwd ix id o0 Hid0 E0). naive_solver.
  - apply lookup_replicate in Hw as [-> _]. split; [done|]. intros [Hid _]. rewrite length_fmap, Hlen in Hge.
    apply lookup_lt_Some in Hid. lia.
Qed.

(** The state [add_orders] starts from and the one it leaves. *)
Definition added_ok log m subs p p' : Prop :=
  pool_inv (log ++ [m]) p' ∧ pl_submitters p' = subs ∧ pl_txs p' = pl_txs p ∧ pl_submission_txs p' = pl_submission_txs p ∧
  pl_tx_refs p `prefix_of` pl_tx_refs p' ∧
  (pl_orders p' = pl_orders p ∨ pl_orders_version p' = (pl_orders_version p + 1) mod u64_modulus).

Lemma add_orders_spec log m p i subs' :
  pool_inv log p → 0 ≤ max_orders →
  subs' !! i = Some (submitter_of m) → pl_submitters p `prefix_of` subs' → NoDup subs' →
  (∀ s, s ∈ subs' ↔ s ∈ submitter_of <$> log ++ [m]) →
  (∀ j s, j ≠ i → subs' !! j = Some s → pl_submitters p !! j = Some s) →
  ep_block_hash (fb_execution_payload m) ∉ pl_block_hashes p → len log < Z.min max_blocks u16_max →
  Forall2 (points_to p) (pl_submission_txs p) (block_txs m) →
  Forall (λ r, ref_typed r ∧ ref_validate r (len (pl_submission_txs p)) = true) (fb_merge_orders m) →
  ∃ full p', add_orders m (length log) i max_orders
      (p <| pl_submitters := subs' |> <| pl_block_values ::= (λ l, l ++ [fb_block_value m]) |>
         <| pl_block_hashes ::= union {[ep_block_hash (fb_execution_payload m)]} |>) = Some (full, p') ∧
    added_ok log m subs' p p'.
Proof.
  intros HI Hmax Hi Hpre Hnd Hsubs Hne Hhash Hroom Hpts Hrefs.
  pose proof HI as [Htab Hin Hord Hval Hhs Hnodup [_ Hsub] Hlat Hwd Hb].
  set (p2 := _ <| pl_block_hashes ::= _ |>).
  assert (orders_inv (submitter_of <$> log ++ [m]) (announcements log) p2) as HI2.
  { eapply orders_inv_frame; [exact Hord|..]; try done; [by apply prefix_app_r|].
    rewrite fmap_app. by apply prefix_app_r. }
  destruct (add_all_spec (submitter_of <$> log ++ [m]) (announcements log) m (length log) i p2 false false
    (fb_merge_orders m) HI2 Hmax) as (p3 & changed & full & Hrun & Hok).
  { unfold p2. rec_simpl. rewrite Hval. apply list_lookup_middle. by rewrite length_fmap. }
  { exists (submitter_of m). split; [|done]. rewrite fmap_app. apply list_lookup_middle. by rewrite length_fmap. }
  { done. }
  { done. }
  destruct Hok as (HI3 & Hbp & Hin3 & Htr & Hidp & Hch & [k Hof] & fresh & Hlat3 & Hfresh).
  unfold block_part in Hbp. injection Hbp as E1 E2 E3 E4 E5 E6 E7 E8.
  change (pl_latest_bundles p2) with (pl_latest_bundles p) in *.
  assert (∀ ix id, id ∈ an_id <$> announcements log →
    pl_order_ids p !! ix = Some id ↔ pl_order_ids p3 !! ix = Some id) as Hids.
  { intros ix id. by apply (announced_ids_stable _ _ _ _ p2 p3 ix id HI2 HI3). }
  assert (Forall (λ e, (e.2 < length (pl_orders p3))%nat) (pl_latest_bundles p)) as Hprev.
  { apply Forall_forall. intros [s ix] (? & ? & id & _ & _ & Hix & _)%Hlat. cbn.
    rewrite (oi_length _ _ _ HI3). apply prefix_length in Hidp. apply lookup_lt_Some in Hix.
    change (pl_order_ids p2) with (pl_order_ids p) in Hidp. lia. }
  destruct (withdraw_spec i fresh (pl_latest_bundles p) (pl_orders p3) changed Hprev)
    as (orders' & changed' & Hwrun & Hlen & Hget & Hch').
  unfold add_orders. rewrite Hrun. cbn [mbind option_bind].
  change (pl_latest_bundles p2) with (pl_latest_bundles p). rewrite Hlat3, drop_app_length.
  rewrite Hwrun. cbn [mbind option_bind]. eexists _, _. split; [reflexivity|].
  split_and!; [|done..|]; rec_simpl.
  2: { destruct changed'; [right; by rewrite E8|left]. destruct (Hch' eq_refl) as [-> ->]. by apply Hch. }
  split; rec_simpl.
  - destruct Htab as [Ht1 Ht2 Ht3]. split; rec_simpl; by rewrite ?E1, ?E2, ?E3.
  - exact (Hin3 Hin).
  - rewrite announcements_snoc. destruct (orders_inv_withdrawn _ _ p3 orders' HI3 Hlen) as [? ? ? ? ?];
      [|by split]. intros ix o Ho. rewrite (Hget ix o Ho). eauto.
  - by rewrite E7, Hval, fmap_app.
  - rewrite E6, Hhs, fmap_app, list_to_set_app_L. cbn. set_solver.
  - rewrite fmap_app. apply NoDup_app. split_and!; [done| |by apply NoDup_singleton].
    intros h Hh Hm. apply list_elem_of_singleton in Hm as ->. apply Hhash. rewrite Hhs. by apply elem_of_list_to_set.
  - by rewrite E5.
  - intros s ix. rewrite E5.
    by apply (latest_step log m (pl_submitters p) subs' (pl_order_ids p) (pl_order_ids p3) (pl_latest_bundles p) fresh i).
  - intros ix id o Hix Ho. destruct (lookup_lt_is_Some_2 (pl_orders p3) ix) as [o3 Ho3].
    { rewrite <- Hlen. by eapply lookup_lt_Some. }
    rewrite (Hget ix o3 Ho3) in Ho. injection Ho as <-. rec_simpl.
    apply (withdrawn_step log m (pl_submitters p) subs' (pl_order_ids p) (pl_order_ids p3)
      (pl_latest_bundles p) fresh i); try done.
    apply (withdrawn_kept log p p3 k); try done.
    { by apply (oi_length _ _ _ Hord). }
  - unfold len in *. rewrite length_app. cbn. lia.
Qed.

Lemma pool_inv_append log p k :
  pool_inv log p → Forall (λ ix, (ix < length (pl_txs p))%nat) k →
  pool_inv log (p <| pl_tx_refs ::= (λ l, l ++ k) |>).
Proof.
  intros [Htab Hrefs Hord Hval Hhash Hnd Hsub Hlat Hwd Hb] Hk. split; rec_simpl; try done.
  - by destruct Htab; split.
  - unfold refs_in. rec_simpl. by apply Forall_app.
  - eapply orders_inv_frame; [exact Hord|..]; rec_simpl; try done. by apply prefix_app_r.
Qed.

Lemma add_block_spec log m p recv :
  pool_inv log p → 0 ≤ max_orders →
  ep_block_hash (fb_execution_payload m) ∉ pl_block_hashes p → len log < Z.min max_blocks u16_max →
  Forall2 (points_to p) (pl_submission_txs p) (block_txs m) →
  Forall (λ r, ref_typed r ∧ ref_validate r (len (pl_submission_txs p)) = true) (fb_merge_orders m) →
  ∃ added p', add_block m recv max_orders p = Some (added, p') ∧ pool_inv (log ++ [m]) p' ∧
    pl_txs p' = pl_txs p ∧ pl_tx_refs p `prefix_of` pl_tx_refs p' ∧
    pl_submitters p `prefix_of` pl_submitters p' ∧ pl_block_values p `prefix_of` pl_block_values p' ∧
    (pl_orders p' = pl_orders p ∨ pl_orders_version p' = (pl_orders_version p + 1) mod u64_modulus) ∧
    (is_Some (ad_base added) ↔ fb_allow_appending m = true) ∧
    ∀ b, ad_base added = Some b →
      ba_hash b = ep_block_hash (fb_execution_payload m) ∧ ba_recv_ns b = recv ∧
      ba_payload b = fb_execution_payload m ∧ pl_block_values p' !! ba_block b = Some (fb_block_value m) ∧
      pl_submitters p' !! ba_submitter b = Some (submitter_of m) ∧
      range_slice (ba_txs b) (pl_tx_refs p') = Some (pl_submission_txs p).
Proof.
  intros HI Hmax Hhash Hroom Hpts Hrefs. unfold add_block.
  destruct (pi_submitters _ _ HI) as [Hnd Hin].
  pose proof (submitter_index_spec log m p Hnd Hin) as Hs. destruct (submitter_index m p) as [i p1].
  destruct Hs as (Hi & Hpre & Hp1 & Hnd1 & Hin1 & Hne).
  destruct (add_orders_spec log m p i (pl_submitters p1) HI Hmax Hi Hpre Hnd1 Hin1 Hne Hhash Hroom Hpts Hrefs)
    as (full & p2 & Hrun & HI2 & Hs2 & Htxs & Hsub & Htr & Hver).
  rewrite <- Hp1 in Hrun.
  assert (length (pl_block_values p1) = length log) as Hlen.
  { rewrite Hp1. rec_simpl. by rewrite (pi_values _ _ HI), length_fmap. }
  rewrite Hlen, Hrun. cbn [mbind option_bind].
  assert (pl_block_values p2 !! length log = Some (fb_block_value m)) as Hv.
  { rewrite (pi_values _ _ HI2), fmap_app. apply list_lookup_middle. by rewrite length_fmap. }
  assert (pl_submitters p2 !! i = Some (submitter_of m)) as Hsi by (by rewrite Hs2).
  destruct (fb_allow_appending m).
  - eexists _, _. split; [reflexivity|].
    split_and!; [| |by etrans; [|apply prefix_app_r]|by rec_simpl; rewrite Hs2| |done| |].
    + apply pool_inv_append; [done|]. rewrite Htxs, Hsub. apply Forall_forall. intros ix Hix.
      apply list_elem_of_lookup in Hix as [k Hk].
      destruct (Forall2_lookup_l _ _ _ _ _ Hpts Hk) as (b & _ & tx & Htx & _). by eapply lookup_lt_Some.
    + done.
    + rec_simpl. rewrite (pi_values _ _ HI2), (pi_values _ _ HI), fmap_app. by apply prefix_app_r.
    + cbn. split; [done|by eexists].
    + intros b [= <-]. rec_simpl. split_and!; [done..|]. rewrite Hsub. apply range_slice_end.
  - eexists _, _. split; [reflexivity|]. split_and!; [done|done|done|by rewrite Hs2| |done| |done].
    + rewrite (pi_values _ _ HI2), (pi_values _ _ HI), fmap_app. by apply prefix_app_r.
    + cbn. split; [by intros []|done].
Qed.

Definition body_typed (body : option MergeableBlockV1) : Prop :=
  match body with Some m => Forall ref_typed (fb_merge_orders m) | None => True end.

Definition block_hash_of m : B256 := ep_block_hash (fb_execution_payload m).

(** The outcome of a block: rejected, known already, or added with the base
    the pool made of it. *)
Definition outcome_ok log slot parent_hash (body : option MergeableBlockV1) p (r : Result Added Reject) p' : Prop :=
  pl_txs p `prefix_of` pl_txs p' ∧ pl_tx_refs p `prefix_of` pl_tx_refs p' ∧
  pl_submitters p `prefix_of` pl_submitters p' ∧ pl_block_values p `prefix_of` pl_block_values p' ∧
  match r with
  | Err _ => pool_inv log p'
  | Ok added => ∃ m, body = Some m ∧ fb_slot m = slot ∧
      (block_hash_of m ∈ pl_block_hashes p ∧ p' = p ∧ ad_base added = None ∨
       block_hash_of m ∉ pl_block_hashes p ∧ ep_parent_hash (fb_execution_payload m) = parent_hash ∧
       pool_inv (log ++ [m]) p' ∧ (is_Some (ad_base added) ↔ fb_allow_appending m = true) ∧
       (pl_orders p' = pl_orders p ∨ pl_orders_version p' = (pl_orders_version p + 1) mod u64_modulus) ∧
       ∀ b, ad_base added = Some b →
         ba_hash b = block_hash_of m ∧ ba_payload b = fb_execution_payload m ∧
         pl_block_values p' !! ba_block b = Some (fb_block_value m) ∧
         pl_submitters p' !! ba_submitter b = Some (submitter_of m) ∧
         ∃ ixs, range_slice (ba_txs b) (pl_tx_refs p') = Some ixs ∧ Forall2 (points_to p') ixs (block_txs m))
  end.

Lemma pool_add_spec log body recv slot parent_hash p :
  pool_inv log p → 0 ≤ max_orders → body_typed body →
  ∃ r p', pool_add body recv slot parent_hash max_blocks max_orders p = Some (r, p') ∧
    outcome_ok log slot parent_hash body p r p'.
Proof.
  intros HI Hmax Hty. unfold pool_add. destruct body as [m|]; [|by eexists _, _].
  destruct (Z.eqb_spec (fb_slot m) slot) as [Hslot|]; cbn [negb]; [|by eexists _, _].
  case_bool_decide as Hh.
  { eexists _, _. split; [done|]. split_and!; [done..|]. exists m. split_and!; [done..|]. by left. }
  destruct (Z.leb_spec (Z.min max_blocks u16_max) (Z.of_nat (size (pl_block_hashes p)))) as [|Hroom]; [by eexists _, _|].
  destruct (MAX_BLOCK_TXS <? _); [by eexists _, _|].
  set (p0 := p <| pl_submission_txs := [] |>).
  pose proof (insert_loop_spec (ep_transactions (fb_execution_payload m)) None false p0
    ltac:(by destruct (pi_table _ _ HI); split)) as Hl.
  destruct (foldl _ _ _) as [[failed over] p1].
  destruct Hl as (Ht1 & Ho1 & Hp1 & _ & _ & (added & Ha & _ & Hpts) & _).
  assert (pool_inv log p1) as HI1 by (eapply pool_inv_table; done).
  assert (pl_tx_refs p1 = pl_tx_refs p ∧ pl_block_hashes p1 = pl_block_hashes p ∧ pl_orders p1 = pl_orders p ∧
    pl_orders_version p1 = pl_orders_version p ∧ pl_submitters p1 = pl_submitters p ∧
    pl_block_values p1 = pl_block_values p) as (Er & Eh & Eo & Ev & Es & Eb).
  { unfold order_part in Ho1. by injection Ho1 as -> -> _ _ -> -> -> _ ->. }
  assert (pl_tx_refs p `prefix_of` pl_tx_refs p1 ∧ pl_submitters p `prefix_of` pl_submitters p1 ∧
    pl_block_values p `prefix_of` pl_block_values p1) as (Hr1 & Hr2 & Hr3) by (by rewrite Er, Es, Eb).
  destruct (Z.eqb_spec (ep_parent_hash (fb_execution_payload m)) parent_hash) as [Hpar|]; cbn [negb];
    [|by eexists _, _].
  destruct over; [by eexists _, _|]. destruct (MAX_ORDERS_PER_BLOCK <? _); [by eexists _, _|].
  destruct failed; [by eexists _, _|]. destruct (existsb _ _) eqn:Ev1; [by eexists _, _|].
  specialize (Hpts eq_refl eq_refl). cbn in Ha. rewrite <- Ha in Hpts.
  destruct (add_block_spec log m p1 recv HI1 Hmax) as (res & p' & Hrun & HI' & Htx & Htr & Hsb & Hvl & Hver & Hap & Hbase).
  { by rewrite Eh. }
  { rewrite (pi_hashes _ _ HI), (size_list_to_set _ (pi_nodup _ _ HI)), length_fmap in Hroom. unfold len. lia. }
  { done. }
  { apply Forall_forall. intros r Hr. rewrite <- not_true_iff_false, existsb_elem in Ev1.
    cbn in Hty. rewrite Forall_forall in Hty. split; [by apply Hty|].
    destruct (ref_validate r _) eqn:E; [done|]. destruct Ev1. exists r. by rewrite E. }
  rewrite Hrun. cbn [mbind option_bind]. eexists _, _. split; [reflexivity|].
  split_and!; [by rewrite Htx|by etrans..|]. exists m. split_and!; [done..|]. right.
  rewrite Eo, Ev in Hver. split_and!; [done..|].
  intros b Hb. destruct (Hbase b Hb) as (? & _ & ? & ? & ? & Hsl). split_and!; [done..|].
  exists (pl_submission_txs p1). split; [done|]. eapply Forall2_impl; [exact Hpts|].
  intros ix bytes. apply points_to_mono. by rewrite Htx.
Qed.

Lemma pool_inv_empty p : pool_inv [] (pool_clear p).
Proof.
  split; cbn; try done.
  - split; [done| |done]. intros h i. cbn. rewrite ?lookup_empty. split; [done|by intros (? & ? & _)].
  - constructor.
  - split; cbn; [by rewrite take_nil|done| |by intros ? ?%elem_of_nil|done].
    intros id ix. cbn. by rewrite ?lookup_empty.
  - apply NoDup_nil_2.
  - split; [apply NoDup_nil_2|]. intros s. by rewrite !elem_of_nil.
  - intros s ix. rewrite elem_of_nil. split; [done|]. by intros (? & ? & ? & ? & _).
  - unfold len. cbn. lia.
Qed.
End refinement.

(** ** Histories of a slot *)
Section history.
Context {KE : Keccak} {CT : CanonicalTx} (max_blocks max_orders : Z).

(** A block of the slot, and the accepted blocks so far. *)
Definition pool_step (slot : u64) (parent_hash : B256)
    (acc : option (list MergeableBlockV1 * Pool)) (op : option MergeableBlockV1 * u64)
    : option (list MergeableBlockV1 * Pool) :=
  '(log, p) ← acc;
  '(r, p') ← pool_add op.1 op.2 slot parent_hash max_blocks max_orders p;
  Some (match r, op.1 with
        | Ok _, Some m => if bool_decide (block_hash_of m ∈ pl_block_hashes p) then log else log ++ [m]
        | _, _ => log
        end, p').

Definition pool_run (slot : u64) (parent_hash : B256) (ops : list (option MergeableBlockV1 * u64))
    : option (list MergeableBlockV1 * Pool) :=
  foldl (pool_step slot parent_hash) (Some ([], merge_pool_default)) ops.

Lemma pool_run_inv slot parent_hash ops :
  0 ≤ max_orders → Forall (λ op, body_typed op.1) ops →
  ∃ log p, pool_run slot parent_hash ops = Some (log, p) ∧ log `sublist_of` omap fst ops ∧
    pool_inv max_blocks max_orders log p.
Proof.
  intros Hmax. induction ops as [|[body recv] ops IH] using rev_ind; intros Hty; cbn [fst] in *.
  { exists [], merge_pool_default. split_and!; [done..|]. apply (pool_inv_empty _ _ merge_pool_default). }
  apply Forall_app in Hty as [Hty Hlast]. rewrite Forall_singleton in Hlast. cbn in Hlast. destruct (IH Hty) as (log & p & Hrun & Hsub & HI).
  unfold pool_run in *. rewrite foldl_app, Hrun, omap_app. cbn [foldl].
  destruct (pool_add_spec max_blocks max_orders log body recv slot parent_hash p HI Hmax Hlast)
    as (r & p' & Hadd & (_ & _ & _ & _ & Hr)).
  unfold pool_step. cbn [mbind option_bind fst snd]. rewrite Hadd. cbn [mbind option_bind].
  destruct r as [added|]; [destruct Hr as (m & -> & _ & [(Hh & -> & _)|(Hh & _ & HI' & _)])|].
  - rewrite bool_decide_true by done. exists log, p. split_and!; [done| |done].
    by apply sublist_inserts_r.
  - rewrite bool_decide_false by done. exists (log ++ [m]), p'. split_and!; [done| |done].
    by apply sublist_app.
  - exists log, p'. split_and!; [by destruct body| |done]. by apply sublist_inserts_r.
Qed.

(** C16: The order pool implements its log. Whatever blocks of the slot arrive,
    the pool does not panic, and it holds the first distinct orders the accepted
    blocks announced, as many as it may; each with the transactions its
    identifier names, with the terms, the block and the submitter of the
    announcement that pays most, the first of them, and withdrawn exactly when some block of its submitter left
    the bundle out that the submitter's block before had as latest only. *)
Theorem pool_refines_log slot parent_hash ops :
  0 ≤ max_orders → Forall (λ op, body_typed op.1) ops →
  ∃ log p, pool_run slot parent_hash ops = Some (log, p) ∧ log `sublist_of` omap fst ops ∧
    pl_order_ids p = take (Z.to_nat max_orders) (distinct_ids (announcements log)) ∧
    ∀ ix id, pl_order_ids p !! ix = Some id →
      ∃ o a, pl_orders p !! ix = Some o ∧ identifies p id (po_txs o) ∧
        best_announcement (announcements log) id = Some a ∧ po_best_block o = an_block a ∧
        (∃ m, log !! an_block a = Some m ∧ pl_submitters p !! po_submitter o = Some (submitter_of m)) ∧
        revert_bits (an_ref a) = Some (po_may_revert o) ∧ drop_bits (an_ref a) = Some (po_may_drop o) ∧
        (po_withdrawn o = true ↔ superseded log id).
Proof.
  intros Hmax Hty. destruct (pool_run_inv slot parent_hash ops Hmax Hty) as (log & p & Hrun & Hsub & HI).
  exists log, p. pose proof (pi_orders _ _ _ _ HI) as HO. split_and!; [done..|by apply (oi_ids _ _ _ _ HO)|].
  intros ix id Hix. destruct (lookup_lt_is_Some_2 (pl_orders p) ix) as [o Ho].
  { rewrite (oi_length _ _ _ _ HO). by eapply lookup_lt_Some. }
  destruct (oi_terms _ _ _ _ HO ix id o Hix Ho) as (Hid & (sub & Hsub' & Hsub2) & a & Ha & Hb & Hr & Hd).
  rewrite Hb in Hsub'. apply list_lookup_fmap_Some in Hsub' as (m & -> & Hm).
  exists o, a. split_and!; [done..|by exists m|done|done|]. by apply (pi_withdrawn _ _ _ _ HI ix).
Qed.
End history.

(** ** Examples *)

Definition ex_canonical : CanonicalTx := λ _, Ok (mkTxInfo 1 21000 0).

(** A block of one builder with transactions [ex_tx 1], [ex_tx 2] and the
    orders [refs]. *)
Definition ex_mergeable (hash : B256) (value : U256) (refs : list MergeOrderRef) : MergeableBlockV1 :=
  mkMergeableBlockV1 5 7 value 8 4 0 true refs
    ((ex_payload [ex_tx 1; ex_tx 2] []) <| ep_block_hash := hash |> <| ep_parent_hash := 100 |>).

Definition ex_bundle (latest_only : bool) : MergeOrderRef := RefBundle (mkBundleOrderRef [0; 1] [1] [] latest_only).

Definition ex_pool_ops : list (option MergeableBlockV1 * u64) :=
  [(Some (ex_mergeable 11 10 [ex_bundle true]), 1); (Some (ex_mergeable 12 20 []), 2);
   (Some (ex_mergeable 13 30 [ex_bundle true]), 3)].

Lemma pool_refines_log_witness :
  ∃ log p, pool_run (CT := ex_canonical) 10 10 5 100 ex_pool_ops = Some (log, p) ∧
    length (pl_order_ids p) = 1%nat.
Proof.
  destruct (pool_refines_log (CT := ex_canonical) 10 10 5 100 ex_pool_ops) as (log & p & Hrun & _ & Hids & _);
    [lia| |].
  - repeat (cbn; split_and! || apply Forall_cons_2 || apply Forall_nil_2 || lia).
  - exists log, p. split; [exact Hrun|]. rewrite Hids.
    assert ((λ r, length (pl_order_ids r.2)) <$> pool_run (CT := ex_canonical) 10 10 5 100 ex_pool_ops = Some 1%nat)
      as Hl by (vm_compute; reflexivity).
    rewrite Hrun in Hl. cbn in Hl. injection Hl as Hl. by rewrite <- Hids.
Defined.

(** A bundle that a builder left out of one block stays withdrawn for the
    slot: it is withdrawn although the builder's most recent block has it
    again, and also when that block has it without the latest-only flag. *)
Theorem reannounced_bundle_stays_withdrawn :
  let withdrawn refs := (λ r, po_withdrawn <$> pl_orders r.2) <$>
    pool_run (CT := ex_canonical) 10 10 5 100
      ([(Some (ex_mergeable 11 10 [ex_bundle true]), 1)] ++ refs) in
  withdrawn [(Some (ex_mergeable 12 20 []), 2); (Some (ex_mergeable 13 30 [ex_bundle true]), 3)] = Some [true] ∧
  withdrawn [(Some (ex_mergeable 12 20 [ex_bundle false]), 2)] = Some [true].
Proof. split; vm_compute; reflexivity. Qed.
