(* ===== verification/MergeEngine.v ===== *)
(** * The merge engine

    [MergeEngine] of [crates/builder/src/merge/mod.rs]: the events of the
    connection, the slot, the order pool, and the choice of the base block to
    work on. Executing a merge ([BlockMerger] of [block.rs], over the EVM) is an
    input of a turn; what the engine reads of a merger is kept. *)


From S2P Require Import Prelude Types Submission Rlp MergeTrie MergeOrders MergeWire MergePool.

(** What the engine reads of a [BlockMerger]. *)
Record MergerView := mkMergerView {
  mw_base_hash : B256;
  mw_base_recv_ns : u64;
  mw_base_block : nat;
  mw_base_submitter : nat;
  mw_live : bool;
  mw_seen_version : u64
}.
#[export] Instance eta_MergerView : Eta MergerView := λ r,
  mkMergerView (mw_base_hash r) (mw_base_recv_ns r) (mw_base_block r) (mw_base_submitter r) (mw_live r)
    (mw_seen_version r).

Definition merger_new : MergerView := mkMergerView 0 0 0 0 false u64_max.
Definition merger_reset (v : MergerView) : MergerView := v <| mw_base_hash := 0 |> <| mw_live := false |>.

(** [self.base.copy_from(base)]. *)
Definition copy_base (base : BaseBlock) (v : MergerView) : MergerView :=
  v <| mw_base_hash := ba_hash base |> <| mw_base_recv_ns := ba_recv_ns base |>
    <| mw_base_block := ba_block base |> <| mw_base_submitter := ba_submitter base |>.

Record Builder := mkBuilder { bu_coinbase : Address; bu_bases : list BaseBlock; bu_merger : MergerView }.
#[export] Instance eta_Builder : Eta Builder := λ r,
  mkBuilder (bu_coinbase r) (bu_bases r) (bu_merger r).

(** [&submitters[base.submitter as usize].pubkey], which panics out of range. *)
Definition base_pubkey (submitters : list Submitter) (b : BaseBlock) : option Pubkey :=
  sb_pubkey <$> submitters !! ba_submitter b.

Definition upsert_base (base : BaseBlock) (submitters : list Submitter) (b : Builder) : option Builder :=
  pubkey ← base_pubkey submitters base;
  keys ← mapM (base_pubkey submitters) (bu_bases b);
  Some match position (λ k, k =? pubkey) keys with
       | Some i => b <| bu_bases ::= <[i := base]> |>
       | None => b <| bu_bases ::= (λ l, l ++ [base]) |>
       end.

(** The base that pays most, the first of them, with its position. *)
Definition top_base (values : list U256) (b : Builder) : option (option (nat * U256)) :=
  vs ← mapM (λ x, values !! ba_block x) (bu_bases b);
  Some (reduce (λ best e, if best.2 <? e.2 then e else best) (enumerate vs)).

Definition has_work (p : Pool) (now_ns max_age_ns : u64) (base : BaseBlock) (m : MergerView) : bool :=
  negb (mw_base_hash m =? ba_hash base) ||
  (mw_live m && negb (mw_seen_version m =? pl_orders_version p) &&
   (sat_sub now_ns (mw_base_recv_ns m) <? max_age_ns)).

(** One turn of the loop of [select_base]. *)
Definition consider (p : Pool) (now_ns max_age_ns : u64) (best : option (option (nat * nat * U256)))
    (e : nat * Builder) : option (option (nat * nat * U256)) :=
  best ← best;
  let '(i, builder) := e in
  top ← top_base (pl_block_values p) builder;
  match top with
  | None => Some best
  | Some (t, value) =>
      base ← bu_bases builder !! t;
      Some (if has_work p now_ns max_age_ns base (bu_merger builder) &&
               match best with None => true | Some (_, v) => v <? value end
            then Some (i, t, value) else best)
  end.

Definition select_base (builders : list Builder) (p : Pool) (now_ns max_age_ns : u64)
    : option (option (nat * nat)) :=
  match foldl (consider p now_ns max_age_ns) (Some None) (enumerate builders) with
  | Some best => Some (fst <$> best)
  | None => None
  end.

(** ** State *)

Record EngineConfig := mkEngineConfig {
  ec_max_blocks_per_slot : Z;
  ec_max_orders_per_slot : Z;
  ec_max_builders : Z;
  ec_max_base_age_ns : u64;
  ec_warmup : bool
}.

(** The buffers, the recorder, the key table and the arena of the parent state
    are left out; the parent state is whether it is open. *)
Record MergeEngine := mkMergeEngine {
  en_generation : u64;
  en_relay : option RelayConfigV1;
  en_next_relay : option RelayConfigV1;
  en_slot : option SlotStartV1;
  en_pool : Pool;
  en_builders : list Builder;
  en_spare : list Builder;
  en_parent : bool;
  en_blacklist : gset Address
}.
#[export] Instance eta_MergeEngine : Eta MergeEngine := λ r,
  mkMergeEngine (en_generation r) (en_relay r) (en_next_relay r) (en_slot r) (en_pool r)
    (en_builders r) (en_spare r) (en_parent r) (en_blacklist r).

Definition engine_new : MergeEngine := mkMergeEngine 0 None None None merge_pool_default [] [] false ∅.

(** Events; the body of a message is its decoding, and the blacklist is that
    of the configuration when a slot starts. *)
Inductive EngineEvent :=
| EvConnectionReset
| EvRelayConfig (config : option RelayConfigV1)
| EvSlotStart (msg : option SlotStartV1) (blacklist : gset Address)
| EvSlotEnd (slot : u64)
| EvMergeableBlock (body : option MergeableBlockV1) (recv_ns : u64).

(** Rejects and merged blocks, published with the generation; of a merged
    block, the base it extends and the builder it names for it. *)
Inductive EngineOutput :=
| OutReject (generation : u64) (r : RejectV1)
| OutMerged (generation : u64) (base_block_hash : B256) (base_builder_pubkey : Pubkey).

Section engine.
Context {KE : Keccak} {CT : CanonicalTx} (config : EngineConfig).
Abbreviation Engine := (Comp MergeEngine EngineOutput) (only parsing).

Definition end_slot : Engine unit :=
  modify (λ e : MergeEngine,
    match en_slot e with
    | None => e
    | Some _ =>
        e <| en_slot := None |> <| en_pool ::= pool_clear |> <| en_builders := [] |>
          <| en_spare ::= (λ l, l ++ ((λ b : Builder, b <| bu_bases := [] |> <| bu_merger ::= merger_reset |>)
                                      <$> en_builders e)) |>
          <| en_parent := false |>
    end).

Definition start_slot (msg : SlotStartV1) (blacklist : gset Address) : Engine unit :=
  e ← get;
  if match en_slot e with
     | Some slot => (ss_slot msg <? ss_slot slot) ||
                    ((ss_slot msg =? ss_slot slot) && (ss_parent_hash msg =? ss_parent_hash slot))
     | None => false
     end
  then mret tt
  else
    end_slot ;;
    modify (λ e : MergeEngine,
      match en_next_relay e with
      | Some relay => e <| en_relay := Some relay |> <| en_next_relay := None |>
      | None => e
      end) ;;
    e ← get;
    match en_relay e with
    | None => mret tt
    | Some _ =>
        modify (λ e : MergeEngine,
          e <| en_blacklist := if ss_apply_blacklist msg then blacklist else ∅ |>
            <| en_slot := Some msg |>)
    end.

Definition publish_reject (r : RejectV1) : Engine unit :=
  e ← get; emit [OutReject (en_generation e) r].

Definition reject_of (slot : u64) (r : Reject) : RejectV1 :=
  mkRejectV1 slot (re_code r)
    (match re_block_hash r with Some h => SubjectBlockHash h | None => SubjectNone end).

(** The tail of [on_block]: the base goes to the builder of its coinbase. *)
Definition store_base (base : BaseBlock) : Engine unit :=
  e ← get;
  let coinbase := ep_fee_recipient (ba_payload base) in
  let upsert i builders :=
    match b ← builders !! i; upsert_base base (pl_submitters (en_pool e)) b with
    | Some b => modify (λ e : MergeEngine, e <| en_builders := <[i := b]> builders |>)
    | None => panic
    end in
  match position (λ b, bu_coinbase b =? coinbase) (en_builders e) with
  | Some i => upsert i (en_builders e)
  | None =>
      if len (en_builders e) <? ec_max_builders config then
        let builder := default (mkBuilder coinbase [] merger_new) (last (en_spare e)) in
        modify (λ e : MergeEngine, e <| en_spare ::= (λ l, take (length l - 1) l) |>) ;;
        upsert (length (en_builders e)) (en_builders e ++ [builder <| bu_coinbase := coinbase |>])
      else mret tt
  end.

Definition on_block (body : option MergeableBlockV1) (recv_ns : u64) : Engine unit :=
  e ← get;
  match en_slot e with
  | None => publish_reject (mkRejectV1 0 StaleSlot SubjectNone)
  | Some slot =>
      match pool_add body recv_ns (ss_slot slot) (ss_parent_hash slot)
              (ec_max_blocks_per_slot config) (ec_max_orders_per_slot config) (en_pool e) with
      | None => panic
      | Some (added, p) =>
          modify (λ e : MergeEngine, e <| en_pool := p |>) ;;
          match added with
          | Err r => publish_reject (reject_of (ss_slot slot) r)
          | Ok a =>
              match ad_orders_dropped a with
              | Some r => publish_reject (reject_of (ss_slot slot) r)
              | None => mret tt
              end ;;
              match ad_base a with None => mret tt | Some base => store_base base end
          end
      end
  end.

Definition apply_event (generation : u64) (event : EngineEvent) : Engine unit :=
  e ← get;
  (if en_generation e <? generation
   then modify (λ e : MergeEngine, e <| en_generation := generation |>) ;; end_slot
   else mret tt) ;;
  match event with
  | EvConnectionReset => mret tt
  | EvRelayConfig None => mret tt
  | EvRelayConfig (Some c) => modify (λ e : MergeEngine, e <| en_next_relay := Some c |>)
  | EvSlotStart None _ => mret tt
  | EvSlotStart (Some msg) blacklist => start_slot msg blacklist
  | EvSlotEnd slot =>
      e ← get;
      if match en_slot e with Some s => ss_slot s =? slot | None => false end
      then end_slot else mret tt
  | EvMergeableBlock body recv_ns =>
      e ← get;
      if generation =? en_generation e then on_block body recv_ns else mret tt
  end.

Definition lost_event : Engine unit :=
  e ← get;
  publish_reject (mkRejectV1 (match en_slot e with Some s => ss_slot s | None => 0 end) Busy SubjectNone).

(** ** Work

    What the merger did in a turn: whether the parent state could be opened,
    how opening the base ended (it fails before or after it has copied the
    base) and what emitting gave. *)
Inductive Opened := OpenOk | OpenRefused | OpenFailed.
Inductive Emitted := EmitMerged | EmitNothing | EmitFailed.
Record Work := mkWork { wk_now_ns : u64; wk_parent : bool; wk_open : Opened; wk_emit : Emitted }.

(** [bases.swap_remove(top)], which panics out of range. *)
Definition drop_base (i top : nat) : Engine unit :=
  e ← get;
  match b ← en_builders e !! i; '(_, bases) ← swap_remove top (bu_bases b); Some (b <| bu_bases := bases |>) with
  | Some b => modify (λ e : MergeEngine, e <| en_builders ::= <[i := b]> |>)
  | None => panic
  end.

Definition on_merger (i : nat) (f : MergerView → MergerView) : Engine unit :=
  modify (λ e : MergeEngine, e <| en_builders ::= alter (λ b : Builder, b <| bu_merger ::= f |>) i |>).

(** [emit] of a merged block: it reads the value and the submitter of the base,
    which panics out of range. *)
Definition emit_merged (m : MergerView) : Engine unit :=
  e ← get;
  match pl_block_values (en_pool e) !! mw_base_block m, pl_submitters (en_pool e) !! mw_base_submitter m with
  | Some _, Some s => emit [OutMerged (en_generation e) (mw_base_hash m) (sb_pubkey s)]
  | _, _ => panic
  end.

(** [extend] and [emit] of a live merger. *)
Definition extend_and_emit (i : nat) (warming : bool) (w : Work) : Engine bool :=
  e ← get;
  match en_builders e !! i with
  | None => panic
  | Some b =>
      if negb (mw_live (bu_merger b)) then mret true
      else
        on_merger i (λ m, m <| mw_seen_version := pl_orders_version (en_pool e) |>) ;;
        (if warming then on_merger i (λ m, m <| mw_live := false |>)
         else match wk_emit w with
              | EmitMerged => emit_merged (bu_merger b)
              | EmitNothing => mret tt
              | EmitFailed => on_merger i (λ m, m <| mw_live := false |>)
              end) ;;
        mret true
  end.

Definition do_work (w : Work) : Engine bool :=
  e ← get;
  match en_slot e, en_relay e with
  | Some _, Some _ =>
      match select_base (en_builders e) (en_pool e) (wk_now_ns w) (ec_max_base_age_ns config) with
      | None => panic
      | Some None => mret false
      | Some (Some (i, top)) =>
          if negb (en_parent e) && negb (wk_parent w) then drop_base i top ;; mret true
          else
            modify (λ e : MergeEngine, e <| en_parent := true |>) ;;
            match b ← en_builders e !! i; base ← bu_bases b !! top; Some (b, base) with
            | None => panic
            | Some (b, base) =>
                let warming := ec_warmup config && (mw_base_hash (bu_merger b) =? 0) in
                if mw_base_hash (bu_merger b) =? ba_hash base then extend_and_emit i warming w
                else
                  match wk_open w with
                  | OpenOk =>
                      on_merger i (λ m, (copy_base base m) <| mw_live := true |> <| mw_seen_version := u64_max |>) ;;
                      extend_and_emit i warming w
                  | OpenRefused => drop_base i top ;; mret true
                  | OpenFailed =>
                      on_merger i (λ m, (copy_base base m) <| mw_live := false |>) ;;
                      drop_base i top ;; mret true
                  end
            end
      end
  | _, _ => mret false
  end.
End engine.

(** ** Choosing the base *)

(** Every base names a block of the pool. *)
Definition valued (p : Pool) (b : Builder) : Prop :=
  Forall (λ x, is_Some (pl_block_values p !! ba_block x)) (bu_bases b).

(** The base of a builder that pays most. *)
Definition is_top (p : Pool) (b : Builder) (t : nat) (base : BaseBlock) (v : U256) : Prop :=
  bu_bases b !! t = Some base ∧ pl_block_values p !! ba_block base = Some v ∧
  ∀ x w, x ∈ bu_bases b → pl_block_values p !! ba_block x = Some w → w ≤ v.

Lemma mapM_total {A B} (f : A → option B) l : Forall (λ x, is_Some (f x)) l → is_Some (mapM f l).
Proof. apply mapM_is_Some_2. Qed.

Lemma top_base_spec p b :
  valued p b →
  ∃ top, top_base (pl_block_values p) b = Some top ∧
    match top with
    | None => bu_bases b = []
    | Some (t, v) => ∃ base, is_top p b t base v
    end.
Proof.
  intros [vs Hvs]%mapM_total. unfold top_base. rewrite Hvs. cbn [mbind option_bind].
  eexists. split; [reflexivity|]. apply mapM_Some in Hvs.
  set (f := λ best e : nat * Z, _). destruct (reduce f (enumerate vs)) as [[t v]|] eqn:E.
  - assert ((t, v) ∈ enumerate vs) as Ht%elem_of_enumerate.
    { apply reduce_select_elem in E; [done|]. intros x y. unfold f. destruct (_ <? _); auto. }
    destruct (Forall2_lookup_r _ _ _ _ _ Hvs Ht) as (base & Hb & Hv). exists base. split_and!; [done..|].
    intros x w [j Hj]%list_elem_of_lookup Hw. destruct (Forall2_lookup_l _ _ _ _ _ Hvs Hj) as (w' & Hw' & Hxw).
    assert (w' = w) as -> by congruence.
    refine (reduce_bound (λ a b : nat * Z, a.2 ≤ b.2) f (enumerate vs) (t, v) _ _ _ E (j, w) _).
    + intros a. lia.
    + intros a c d. lia.
    + intros a c. unfold f. destruct (Z.ltb_spec a.2 c.2); lia.
    + by apply elem_of_enumerate.
  - apply reduce_none, enumerate_nil in E as ->. by apply Forall2_nil_inv_r in Hvs.
Qed.

Section select.
Context (p : Pool) (now_ns max_age_ns : u64).

(** The base the engine would work on for a builder. *)
Definition picks (b : Builder) (t : nat) (base : BaseBlock) (v : U256) : Prop :=
  top_base (pl_block_values p) b = Some (Some (t, v)) ∧ bu_bases b !! t = Some base ∧
  has_work p now_ns max_age_ns base (bu_merger b) = true.

Definition best_pick (builders : list Builder) (best : option (nat * nat * U256)) : Prop :=
  match best with
  | None => ∀ b t base v, b ∈ builders → ¬ picks b t base v
  | Some (i, t, v) =>
      (∃ b base, builders !! i = Some b ∧ picks b t base v ∧ is_top p b t base v) ∧
      ∀ b t base w, b ∈ builders → picks b t base w → w ≤ v
  end.

Lemma consider_spec builders b best :
  valued p b → best_pick builders best →
  ∃ best', consider p now_ns max_age_ns (Some best) (length builders, b) = Some best' ∧
    best_pick (builders ++ [b]) best'.
Proof.
  intros Hv Hbest. destruct (top_base_spec p b Hv) as (top & Htop & Hspec).
  unfold consider. cbn [mbind option_bind]. rewrite Htop. cbn [mbind option_bind].
  assert (∀ i t v, (∃ b0 base, builders !! i = Some b0 ∧ picks b0 t base v ∧ is_top p b0 t base v) →
    ∃ b0 base, (builders ++ [b]) !! i = Some b0 ∧ picks b0 t base v ∧ is_top p b0 t base v) as Hold.
  { intros i t v (b0 & base & Hi & ?). exists b0, base. split; [by apply lookup_app_l_Some|done]. }
  destruct top as [[t v]|].
  - destruct Hspec as [base Ht]. pose proof Ht as (Hb & _ & _). rewrite Hb. cbn [mbind option_bind].
    eexists. split; [reflexivity|].
    assert (∀ t' base' w, picks b t' base' w → w = v ∧ has_work p now_ns max_age_ns base (bu_merger b) = true) as Hpb.
    { intros t' base' w (H1 & H2 & H3). rewrite Htop in H1. injection H1 as <- <-. rewrite Hb in H2.
      by injection H2 as <-. }
    destruct (has_work p now_ns max_age_ns base (bu_merger b)) eqn:Hw; cbn [andb].
    + assert (picks b t base v) as Hpk by done.
      destruct best as [[[i0 t0] v0]|].
      * destruct Hbest as [Hex Hmax]. destruct (Z.ltb_spec v0 v); cbn.
        -- split; [exists b, base; split; [by rewrite list_lookup_middle|done]|].
           intros x t1 b1 w1 [Hx|Hx]%elem_of_app Hp1; [specialize (Hmax x t1 b1 w1 Hx Hp1); lia|].
           apply list_elem_of_singleton in Hx as ->. apply Hpb in Hp1 as [-> _]. lia.
        -- split; [by apply Hold|]. intros x t1 b1 w1 [Hx|Hx]%elem_of_app Hp1; [by eapply Hmax|].
           apply list_elem_of_singleton in Hx as ->. apply Hpb in Hp1 as [-> _]. lia.
      * cbn. split; [exists b, base; split; [by rewrite list_lookup_middle|done]|].
        intros x t1 b1 w1 [Hx|Hx]%elem_of_app Hp1; [by destruct (Hbest x t1 b1 w1)|].
        apply list_elem_of_singleton in Hx as ->. apply Hpb in Hp1 as [-> _]. lia.
    + assert (∀ t' base' w, ¬ picks b t' base' w) as Hno by (by intros t' base' w [_ ?]%Hpb).
      destruct best as [[[i0 t0] v0]|]; cbn.
      * destruct Hbest as [Hex Hmax]. split; [by apply Hold|].
        intros x t1 b1 w1 [Hx|Hx]%elem_of_app Hp1; [by eapply Hmax|].
        apply list_elem_of_singleton in Hx as ->. by apply Hno in Hp1.
      * intros x t1 b1 w1 [Hx|Hx]%elem_of_app; [by apply Hbest|]. apply list_elem_of_singleton in Hx as ->. apply Hno.
  - assert (∀ t' base' w, ¬ picks b t' base' w) as Hno by (intros t' base' w [H1 _]; congruence).
    eexists. split; [reflexivity|]. destruct best as [[[i0 t0] v0]|]; cbn.
    + destruct Hbest as [Hex Hmax]. split; [by apply Hold|].
      intros x t1 b1 w1 [Hx|Hx]%elem_of_app Hp1; [by eapply Hmax|].
      apply list_elem_of_singleton in Hx as ->. by apply Hno in Hp1.
    + intros x t1 b1 w1 [Hx|Hx]%elem_of_app; [by apply Hbest|]. apply list_elem_of_singleton in Hx as ->. apply Hno.
Qed.

Lemma select_base_spec builders :
  Forall (valued p) builders →
  ∃ best, foldl (consider p now_ns max_age_ns) (Some None) (enumerate builders) = Some best ∧
    select_base builders p now_ns max_age_ns = Some (fst <$> best) ∧ best_pick builders best.
Proof.
  intros Hv. unfold select_base. induction builders as [|b builders IH] using rev_ind.
  { exists None. split_and!; [done..|]. by intros ? ? ? ? ?%elem_of_nil. }
  apply Forall_app in Hv as [Hv Hb]. rewrite Forall_singleton in Hb.
  destruct (IH Hv) as (best & Hf & _ & Hbest). rewrite enumerate_snoc, foldl_app, Hf. cbn [foldl].
  destruct (consider_spec builders b best Hb Hbest) as (best' & Hc & Hbest').
  rewrite Hc. by exists best'.
Qed.
End select.

(** ** Invariant

    Between slots the engine holds nothing. In a slot, its pool is that of the
    blocks accepted so far, and every base, also the one a merger works on, is
    one of those blocks, one that allows appending. *)
Section invariant.
Context {KE : Keccak} {CT : CanonicalTx} (config : EngineConfig).
Abbreviation Engine := (Comp MergeEngine EngineOutput) (only parsing).
Abbreviation inv_of_pool := (pool_inv (ec_max_blocks_per_slot config) (ec_max_orders_per_slot config)).

Definition base_of (p : Pool) (m : MergeableBlockV1) (block submitter : nat) (hash : B256) : Prop :=
  fb_allow_appending m = true ∧ hash = block_hash_of m ∧
  pl_block_values p !! block = Some (fb_block_value m) ∧
  pl_submitters p !! submitter = Some (submitter_of m).

Definition base_ok (log : list MergeableBlockV1) (p : Pool) (coinbase : Address) (b : BaseBlock) : Prop :=
  ∃ m, m ∈ log ∧ base_of p m (ba_block b) (ba_submitter b) (ba_hash b) ∧
    ba_payload b = fb_execution_payload m ∧ ep_fee_recipient (fb_execution_payload m) = coinbase ∧
    ∃ ixs, range_slice (ba_txs b) (pl_tx_refs p) = Some ixs ∧ Forall2 (points_to p) ixs (block_txs m).

Definition merger_ok (log : list MergeableBlockV1) (p : Pool) (coinbase : Address) (v : MergerView) : Prop :=
  mw_live v = true →
  ∃ m, m ∈ log ∧ base_of p m (mw_base_block v) (mw_base_submitter v) (mw_base_hash v) ∧
    ep_fee_recipient (fb_execution_payload m) = coinbase.

Definition builder_ok (log : list MergeableBlockV1) (p : Pool) (b : Builder) : Prop :=
  Forall (base_ok log p (bu_coinbase b)) (bu_bases b) ∧
  merger_ok log p (bu_coinbase b) (bu_merger b) ∧
  NoDup (base_pubkey (pl_submitters p) <$> bu_bases b).

Definition spare_ok (b : Builder) : Prop :=
  bu_bases b = [] ∧ mw_live (bu_merger b) = false ∧ mw_base_hash (bu_merger b) = 0.

(** [received m] says where the blocks of the slot come from. *)
Definition slot_inv (received : MergeableBlockV1 → Prop) (e : MergeEngine) (slot : SlotStartV1) : Prop :=
  is_Some (en_relay e) ∧ ∃ log, inv_of_pool log (en_pool e) ∧
    Forall (λ m, received m ∧ fb_slot m = ss_slot slot ∧
                 ep_parent_hash (fb_execution_payload m) = ss_parent_hash slot) log ∧
    Forall (builder_ok log (en_pool e)) (en_builders e).

Record engine_inv (received : MergeableBlockV1 → Prop) (e : MergeEngine) : Prop := mk_engine_inv {
  ei_slot : match en_slot e with
            | None => en_pool e = pool_clear (en_pool e) ∧ en_builders e = [] ∧ en_parent e = false
            | Some slot => slot_inv received e slot
            end;
  ei_builders : NoDup (bu_coinbase <$> en_builders e) ∧ len (en_builders e) ≤ Z.max 0 (ec_max_builders config);
  ei_spare : Forall spare_ok (en_spare e)
}.

(** What the pool keeps when it grows. *)
Definition pool_grows (p p' : Pool) : Prop :=
  pl_txs p `prefix_of` pl_txs p' ∧ pl_tx_refs p `prefix_of` pl_tx_refs p' ∧
  pl_submitters p `prefix_of` pl_submitters p' ∧ pl_block_values p `prefix_of` pl_block_values p'.

Lemma base_of_mono p p' m block submitter hash :
  pool_grows p p' → base_of p m block submitter hash → base_of p' m block submitter hash.
Proof.
  intros (_ & _ & Hs & Hv) (Ha & Hh & Hb & Hm).
  split_and!; [done..|by eapply prefix_lookup_Some|by eapply prefix_lookup_Some].
Qed.

Lemma base_ok_mono log log' p p' c b :
  log ⊆ log' → pool_grows p p' → base_ok log p c b → base_ok log' p' c b.
Proof.
  intros Hl Hp (m & Hm & Hb & Hpay & Hc & ixs & Hr & Hpt). exists m.
  split_and!; [set_solver|by eapply base_of_mono|done|done|]. exists ixs.
  destruct Hp as (Ht & [k Hk] & _). split; [rewrite Hk; by apply range_slice_prefix|].
  eapply Forall2_impl; [done|]. intros ix bytes. by apply points_to_mono.
Qed.

Lemma base_pubkey_some log p c b : base_ok log p c b → is_Some (base_pubkey (pl_submitters p) b).
Proof. intros (m & _ & (_ & _ & _ & Hs) & _). unfold base_pubkey. rewrite Hs. by eexists. Qed.

Lemma base_pubkey_mono log p p' c b :
  pool_grows p p' → base_ok log p c b → base_pubkey (pl_submitters p') b = base_pubkey (pl_submitters p) b.
Proof.
  intros (_ & _ & Hs & _) (m & _ & (_ & _ & _ & Hsub) & _). unfold base_pubkey.
  by rewrite Hsub, (prefix_lookup_Some _ _ _ _ Hsub Hs).
Qed.

Lemma builder_ok_mono log log' p p' b :
  log ⊆ log' → pool_grows p p' → builder_ok log p b → builder_ok log' p' b.
Proof.
  intros Hl Hp (Hb & Hm & Hk). split_and!.
  - eapply Forall_impl; [done|]. intros x. by apply base_ok_mono.
  - intros Hlive. destruct (Hm Hlive) as (m & ? & ? & ?). exists m.
    split_and!; [set_solver|by eapply base_of_mono|done].
  - replace (base_pubkey (pl_submitters p') <$> bu_bases b) with (base_pubkey (pl_submitters p) <$> bu_bases b); [done|].
    apply list_fmap_ext. intros i x Hx. symmetry. eapply base_pubkey_mono; [done|].
    by eapply (proj1 (Forall_lookup _ _) Hb).
Qed.

Lemma builder_ok_valued log p b : builder_ok log p b → valued p b.
Proof.
  intros (Hb & _). eapply Forall_impl; [done|]. intros x (m & _ & (_ & _ & Hv & _) & _). by eexists.
Qed.

Lemma upsert_base_spec log p b base :
  builder_ok log p b → base_ok log p (bu_coinbase b) base →
  ∃ b', upsert_base base (pl_submitters p) b = Some b' ∧ builder_ok log p b' ∧
    bu_coinbase b' = bu_coinbase b.
Proof.
  intros (Hb & Hm & Hn) Hbase. unfold upsert_base. destruct (base_pubkey_some _ _ _ _ Hbase) as [k Hk].
  rewrite Hk. cbn [mbind option_bind].
  destruct (mapM_total (base_pubkey (pl_submitters p)) (bu_bases b)) as [keys Hkeys].
  { eapply Forall_impl; [done|]. intros x. apply base_pubkey_some. }
  rewrite Hkeys. cbn [mbind option_bind]. eexists. split; [reflexivity|].
  assert (base_pubkey (pl_submitters p) <$> bu_bases b = Some <$> keys) as Hf.
  { apply mapM_Some_1 in Hkeys. clear -Hkeys. induction Hkeys; cbn; [done|]. by f_equal. }
  destruct (position (λ k0, k0 =? k) keys) as [i|] eqn:Hpos; rec_simpl; (split; [|done]).
  - apply position_some in Hpos as (k' & Hi & ->%Z.eqb_eq & _).
    split_and!; rec_simpl; [by apply Forall_insert|done|].
    rewrite list_fmap_insert, Hk, Hf, list_insert_id; [by rewrite <- Hf|].
    by rewrite list_lookup_fmap, Hi.
  - split_and!; rec_simpl; [by apply Forall_app; split; [|apply Forall_singleton]|done|].
    rewrite fmap_app, Hf. cbn. rewrite Hk. apply NoDup_app. rewrite <- Hf at 1.
    split_and!; [done| |apply NoDup_singleton]. intros x Hx ->%list_elem_of_singleton.
    apply list_elem_of_fmap in Hx as (k' & [= <-] & Hk'). rewrite position_none in Hpos.
    specialize (Hpos k Hk'). lia.
Qed.

(** The coinbases stay distinct and no more than the engine allows. *)
Lemma store_base_spec received log base e slot :
  engine_inv received e → en_slot e = Some slot →
  inv_of_pool log (en_pool e) →
  Forall (λ m, received m ∧ fb_slot m = ss_slot slot ∧
    ep_parent_hash (fb_execution_payload m) = ss_parent_hash slot) log →
  Forall (builder_ok log (en_pool e)) (en_builders e) →
  base_ok log (en_pool e) (ep_fee_recipient (ba_payload base)) base →
  wp (store_base config base) (λ _ e' o, engine_inv received e' ∧ o = [] ∧ en_generation e' = en_generation e) e.
Proof.
  intros [Hs [Hd Hlen] Hsp] Hslot HP Hlog HB Hbase. rewrite Hslot in Hs. destruct Hs as [Hrel _].
  unfold store_base. wp_step. wp_step.
  destruct (position _ (en_builders e)) as [i|] eqn:Hpos.
  - apply position_some in Hpos as (b & Hi & Hc%Z.eqb_eq & _).
    rewrite Hi. cbn [mbind option_bind]. pose proof (proj1 (Forall_lookup _ _) HB i b Hi) as Hb.
    destruct (upsert_base_spec log (en_pool e) b base Hb) as (b' & -> & Hb' & Hc'); [by rewrite Hc|].
    cbn beta iota. wp_step. split_and!; [|done..]. split; rec_simpl; [rewrite Hslot|..|done].
    + split; [done|]. exists log. split_and!; [done..|]. rec_simpl. by apply Forall_insert.
    + rewrite list_fmap_insert, Hc', list_insert_id by (by rewrite list_lookup_fmap, Hi).
      unfold len in *. by rewrite length_insert.
  - destruct (Z.ltb_spec (len (en_builders e)) (ec_max_builders config)) as [Hroom|]; [|wp_step; split_and!; [split; rec_simpl; [rewrite Hslot; split; eauto|done..]|done..]].
    wp_step. wp_step. rewrite list_lookup_middle by done. cbn [mbind option_bind].
    set (nb := (default _ _) <| bu_coinbase := _ |>).
    assert (builder_ok log (en_pool e) nb) as Hnb.
    { assert (bu_bases nb = [] ∧ mw_live (bu_merger nb) = false) as [E1 E2].
      { unfold nb. destruct (last (en_spare e)) as [sb|] eqn:Hl; [|done]. cbn.
        rewrite Forall_forall in Hsp. destruct (Hsp sb) as (? & ? & _); [|done].
        apply last_Some_elem_of in Hl. done. }
      split_and!; [by rewrite E1|unfold merger_ok; by rewrite E2|rewrite E1; apply NoDup_nil_2]. }
    destruct (upsert_base_spec log (en_pool e) nb base Hnb Hbase) as (b' & -> & Hb' & Hc').
    cbn beta iota. wp_step. split_and!; [|done..]. split; rec_simpl; [rewrite Hslot|..].
    + split; [done|]. exists log. split_and!; [done..|]. rec_simpl. apply Forall_insert; [|done].
      by apply Forall_app; split; [|apply Forall_singleton].
    + rewrite insert_app_r_alt, Nat.sub_diag by done. cbn [list_insert insert]. rewrite fmap_app. cbn. rewrite Hc'.
      split; [|unfold len in *; rewrite length_app; cbn; lia].
      apply NoDup_app. split_and!; [done| |apply NoDup_singleton].
      intros x Hx ->%list_elem_of_singleton. apply list_elem_of_fmap in Hx as (b0 & Hx & Hb0).
      rewrite position_none in Hpos. specialize (Hpos b0 Hb0). cbn in Hx. lia.
    + by apply Forall_take.
Qed.

(** ** Events *)

Lemma engine_inv_mono (R R' : MergeableBlockV1 → Prop) e :
  (∀ m, R m → R' m) → engine_inv R e → engine_inv R' e.
Proof.
  intros HR [Hs Hb Hsp]. split; [|done..]. destruct (en_slot e); [|done].
  destruct Hs as (Hrel & log & HP & Hl & HB). split; [done|]. exists log. split_and!; [done| |done].
  eapply Forall_impl; [done|]. naive_solver.
Qed.

Lemma end_slot_spec received received' e :
  engine_inv received e →
  wp end_slot (λ _ e' o, engine_inv received' e' ∧ en_slot e' = None ∧ o = [] ∧
    en_generation e' = en_generation e ∧ en_relay e' = en_relay e ∧ en_next_relay e' = en_next_relay e) e.
Proof.
  intros [Hs Hb Hsp]. unfold end_slot. wp_step. destruct (en_slot e) as [slot|] eqn:Hslot; cbn beta iota.
  2:{ split_and!; [|done..]. split; [by rewrite Hslot|done..]. }
  rec_simpl. split_and!; [|done..]. split; rec_simpl.
  - done.
  - split; [apply NoDup_nil_2|]. unfold len. cbn. lia.
  - apply Forall_app. split; [done|]. apply Forall_fmap, Forall_true. done.
Qed.

Lemma start_slot_spec received msg blacklist e :
  engine_inv received e →
  wp (start_slot msg blacklist) (λ _ e' o, engine_inv received e' ∧ o = [] ∧ en_generation e' = en_generation e) e.
Proof.
  intros HI. unfold start_slot. wp_step. wp_step. destruct (match en_slot e with Some _ => _ | None => false end).
  { wp_step. done. }
  wp_step. eapply wp_mono; [by apply (end_slot_spec received received)|].
  intros _ e1 o1 ([Hs Hb Hsp] & Hnone & -> & Hgen & _). rewrite Hnone in Hs. destruct Hs as (HP & Hbs & Hpar).
  wp_step. wp_step. wp_step. wp_step. set (e2 := match en_next_relay e1 with Some _ => _ | None => _ end).
  assert (en_slot e2 = None ∧ en_pool e2 = en_pool e1 ∧ en_builders e2 = [] ∧ en_parent e2 = false ∧
    en_spare e2 = en_spare e1 ∧ en_generation e2 = en_generation e) as (E1 & E2 & E3 & E4 & E5 & E6).
  { unfold e2. destruct (en_next_relay e1); by rec_simpl. }
  destruct (en_relay e2) as [r|] eqn:Hrel; cbn beta iota.
  - wp_step. split_and!; [|done..]. split; rec_simpl.
    + split; [by rec_simpl; rewrite Hrel|]. exists []. rec_simpl. rewrite E2, E3.
      split_and!; [rewrite HP; apply pool_inv_empty|constructor..].
    + rewrite E3, <- Hbs. done.
    + by rewrite E5.
  - wp_step. split_and!; [|done..]. split; [rewrite E1, E2, E3; done|rewrite E3, <- Hbs; done|by rewrite E5].
Qed.

(** A reject is published with the generation. *)
Definition rejects (g : u64) (o : list EngineOutput) : Prop :=
  (length o ≤ 1)%nat ∧ Forall (λ x, ∃ r, x = OutReject g r) o.

Lemma publish_reject_spec r e :
  wp (publish_reject r) (λ _ e' o, e' = e ∧ o = [OutReject (en_generation e) r]) e.
Proof. unfold publish_reject. wp_steps. done. Qed.

Lemma rejects_one g r : rejects g [OutReject g r].
Proof. split; [done|]. apply Forall_singleton. by eexists. Qed.
Lemma rejects_none g : rejects g [].
Proof. split; [cbn; lia|constructor]. Qed.

Lemma engine_inv_pool received e slot log p :
  engine_inv received e → en_slot e = Some slot → inv_of_pool log p →
  Forall (λ m, received m ∧ fb_slot m = ss_slot slot ∧
    ep_parent_hash (fb_execution_payload m) = ss_parent_hash slot) log →
  Forall (builder_ok log p) (en_builders e) → engine_inv received (e <| en_pool := p |>).
Proof.
  intros [Hs Hb Hsp] Hslot HP Hl HB. rewrite Hslot in Hs. destruct Hs as [Hrel _].
  split; rec_simpl; [rewrite Hslot|done..]. split; [done|]. exists log. done.
Qed.

Lemma on_block_spec received body recv_ns e :
  0 ≤ ec_max_orders_per_slot config → engine_inv received e → body_typed body →
  (∀ m, body = Some m → received m) →
  wp (on_block config body recv_ns)
    (λ _ e' o, engine_inv received e' ∧ en_generation e' = en_generation e ∧ rejects (en_generation e) o) e.
Proof.
  intros Hmax HI Hty Hrec. unfold on_block. wp_step. wp_step.
  destruct (en_slot e) as [slot|] eqn:Hslot.
  2:{ eapply wp_mono; [apply publish_reject_spec|]. intros _ e' o [-> ->]. split_and!; [done..|apply rejects_one]. }
  pose proof HI as [Hs _ _]. rewrite Hslot in Hs. destruct Hs as (Hrel & log & HP & Hl & HB).
  destruct (pool_add_spec (ec_max_blocks_per_slot config) (ec_max_orders_per_slot config) log body recv_ns (ss_slot slot)
    (ss_parent_hash slot) (en_pool e) HP Hmax Hty) as (r & p' & -> & Hg1 & Hg2 & Hg3 & Hg4 & Hr).
  assert (pool_grows (en_pool e) p') as Hg by done.
  cbn beta iota. wp_step. wp_step.
  destruct r as [a|rj].
  2:{ eapply wp_mono; [apply publish_reject_spec|]. intros _ e' o [-> ->]. split_and!; [|done|apply rejects_one].
      eapply engine_inv_pool; [done..|]. eapply Forall_impl; [done|]. intros b. by apply builder_ok_mono. }
  assert (∃ log', inv_of_pool log' p' ∧ Forall (builder_ok log' p') (en_builders e) ∧
    Forall (λ m, received m ∧ fb_slot m = ss_slot slot ∧ ep_parent_hash (fb_execution_payload m) = ss_parent_hash slot) log' ∧
    ∀ base, ad_base a = Some base → base_ok log' p' (ep_fee_recipient (ba_payload base)) base)
    as (log' & HP' & HB' & Hl' & Hbase).
  { destruct Hr as (m & -> & Hsl & [(_ & -> & Hnb)|(_ & Hpar & HP' & Happ & _ & Hbase)]).
    - exists log. split_and!; [done..|]. intros base. by rewrite Hnb.
    - exists (log ++ [m]). split_and!; [done| |apply Forall_app; split; [done|by apply Forall_singleton; auto]|].
      + eapply Forall_impl; [done|]. intros b. apply builder_ok_mono; [set_solver|done].
      + intros base Hb. destruct (Hbase base Hb) as (H1 & H2 & H3 & H4 & H5). exists m.
        split_and!; [set_solver| |done|by rewrite H2|done]. split_and!; [|done..]. apply Happ. by eexists. }
  assert (engine_inv received (e <| en_pool := p' |>)) as HI' by (by eapply engine_inv_pool).
  wp_step. apply (wp_mono _ (λ _ e' o, e' = e <| en_pool := p' |> ∧ rejects (en_generation e) o)).
  { destruct (ad_orders_dropped a); [|wp_step; split; [done|apply rejects_none]].
    eapply wp_mono; [apply publish_reject_spec|]. intros _ e' o [-> ->]. split; [done|apply rejects_one]. }
  intros _ e' o [-> Ho]. destruct (ad_base a) as [base|].
  - eapply wp_mono; [eapply (store_base_spec received log' base); [done|by rec_simpl|by rec_simpl..|by apply Hbase]|].
    intros _ e2 o2 (? & -> & ?). rewrite app_nil_r. done.
  - wp_step. rewrite app_nil_r. done.
Qed.

(** ** Work *)

(** What the engine may publish in a state: rejects, and merged blocks that
    extend a block of the slot that allows it, under the generation. *)
Definition output_ok (received : MergeableBlockV1 → Prop) (e : MergeEngine) (x : EngineOutput) : Prop :=
  match x with
  | OutReject g _ => g = en_generation e
  | OutMerged g hash pubkey =>
      g = en_generation e ∧
      ∃ slot m, en_slot e = Some slot ∧ received m ∧ fb_slot m = ss_slot slot ∧
        ep_parent_hash (fb_execution_payload m) = ss_parent_hash slot ∧ fb_allow_appending m = true ∧
        hash = block_hash_of m ∧ pubkey = fb_builder_pubkey m
  end.

(** Work is left for a builder until its merger has seen every order of the
    pool on the base that pays most. *)
Definition stale (p : Pool) (b : Builder) : bool :=
  match top_base (pl_block_values p) b with
  | Some (Some (t, _)) =>
      match bu_bases b !! t with
      | Some base => negb (mw_base_hash (bu_merger b) =? ba_hash base) ||
                     (mw_live (bu_merger b) && negb (mw_seen_version (bu_merger b) =? pl_orders_version p))
      | None => false
      end
  | _ => false
  end.

Definition builder_work (p : Pool) (b : Builder) : nat := 2 * length (bu_bases b) + Nat.b2n (stale p b).
Definition work_left (e : MergeEngine) : nat := sum_list (builder_work (en_pool e) <$> en_builders e).

Lemma sum_list_insert {A} (f : A → nat) l i x y :
  l !! i = Some x → (f y < f x)%nat → (sum_list (f <$> <[i := y]> l) < sum_list (f <$> l))%nat.
Proof.
  revert i. induction l as [|z l IH]; intros [|i] Hi Hlt; cbn in *; [done..|injection Hi as ->; lia|].
  exact (proj1 (Nat.add_lt_mono_l _ _ _) (IH i Hi Hlt)).
Qed.

Lemma alter_as_insert {A} (f : A → A) (l : list A) (i : nat) x : l !! i = Some x → alter f i l = <[i := f x]> l.
Proof. revert i. induction l as [|z l IH]; intros [|i] Hi; cbn in *; simplify_eq; [done..|]. by f_equal; auto. Qed.

Lemma engine_inv_builder received slot log e i b b' parent :
  engine_inv received e → en_slot e = Some slot → inv_of_pool log (en_pool e) →
  Forall (λ m, received m ∧ fb_slot m = ss_slot slot ∧
    ep_parent_hash (fb_execution_payload m) = ss_parent_hash slot) log →
  Forall (builder_ok log (en_pool e)) (en_builders e) →
  en_builders e !! i = Some b → builder_ok log (en_pool e) b' → bu_coinbase b' = bu_coinbase b →
  (builder_work (en_pool e) b' < builder_work (en_pool e) b)%nat →
  engine_inv received (e <| en_parent := parent |> <| en_builders ::= <[i := b']> |>) ∧
  (work_left (e <| en_parent := parent |> <| en_builders ::= <[i := b']> |>) < work_left e)%nat.
Proof.
  intros [Hs [Hn Hlen] Hsp] Hslot HP Hl HB Hi Hb' Hc Hw. rewrite Hslot in Hs. destruct Hs as [Hrel _].
  split; [|unfold work_left; rec_simpl; by eapply sum_list_insert].
  split; rec_simpl; [rewrite Hslot| |done].
  - split; [done|]. exists log. rec_simpl. split_and!; [done..|by apply Forall_insert].
  - rewrite list_fmap_insert, Hc, list_insert_id by (by rewrite list_lookup_fmap, Hi).
    unfold len in *. by rewrite length_insert.
Qed.

Lemma drop_base_spec log e i top b :
  en_builders e !! i = Some b → (top < length (bu_bases b))%nat → builder_ok log (en_pool e) b →
  wp (drop_base i top) (λ _ e' o, ∃ b', e' = e <| en_builders ::= <[i := b']> |> ∧ o = [] ∧
    builder_ok log (en_pool e) b' ∧ bu_coinbase b' = bu_coinbase b ∧
    (builder_work (en_pool e) b' < builder_work (en_pool e) b)%nat) e.
Proof.
  intros Hi Htop (Hb & Hm & Hn). unfold drop_base. wp_step. wp_step. rewrite Hi. cbn [mbind option_bind].
  destruct (proj2 (swap_remove_is_some top (bu_bases b)) Htop) as [[x rest] Hr]. rewrite Hr.
  cbn [mbind option_bind]. wp_step. exists (b <| bu_bases := rest |>). apply swap_remove_perm in Hr.
  split_and!; [done..| | |].
  - split_and!; rec_simpl; [|done|].
    + rewrite Hr in Hb. by inversion Hb.
    + rewrite Hr in Hn. cbn in Hn. by apply NoDup_cons in Hn as [_ ?].
  - done.
  - unfold builder_work. rec_simpl. rewrite Hr. cbn [length].
    destruct (stale (en_pool e) (mkBuilder _ _ _)), (stale (en_pool e) b); cbn [Nat.b2n]; lia.
Qed.

Lemma on_merger_spec e i b f :
  en_builders e !! i = Some b →
  wp (on_merger i f) (λ _ e' o, e' = e <| en_builders ::= <[i := b <| bu_merger ::= f |>]> |> ∧ o = []) e.
Proof. intros Hi. unfold on_merger. wp_step. split; [|done]. rec_simpl. by rewrite (alter_as_insert _ _ _ b). Qed.

(** What [extend] and [emit] leave of the merger. *)
Definition extended (p : Pool) (v v' : MergerView) : Prop :=
  mw_base_hash v' = mw_base_hash v ∧ mw_base_block v' = mw_base_block v ∧
  mw_base_submitter v' = mw_base_submitter v ∧ mw_seen_version v' = pl_orders_version p.

Lemma extend_and_emit_spec log c e i warming w b :
  en_builders e !! i = Some b → mw_live (bu_merger b) = true → merger_ok log (en_pool e) c (bu_merger b) →
  wp (extend_and_emit i warming w) (λ r e' o, r = true ∧
    ∃ v', e' = e <| en_builders ::= <[i := b <| bu_merger := v' |>]> |> ∧ extended (en_pool e) (bu_merger b) v' ∧
      (o = [] ∨ ∃ s, pl_submitters (en_pool e) !! mw_base_submitter (bu_merger b) = Some s ∧
                     o = [OutMerged (en_generation e) (mw_base_hash (bu_merger b)) (sb_pubkey s)])) e.
Proof.
  intros Hi Hlive Hok. unfold extend_and_emit. wp_step. wp_step. rewrite Hi, Hlive. cbn [negb].
  destruct (Hok Hlive) as (m & _ & (_ & _ & Hv & Hs) & _).
  wp_step. eapply wp_mono; [by apply on_merger_spec|]. intros _ e1 o1 [-> ->].
  set (v1 := (bu_merger b) <| mw_seen_version := pl_orders_version (en_pool e) |>).
  assert (wp (on_merger i (λ m, m <| mw_live := false |>)) (λ _ e' o, o = [] ∧
    e' = e <| en_builders ::= <[i := b <| bu_merger := v1 <| mw_live := false |> |>]> |>)
    (e <| en_builders ::= <[i := b <| bu_merger := v1 |>]> |>)) as Hstop.
  { eapply wp_mono; [apply on_merger_spec; rec_simpl; apply list_lookup_insert_eq; by eapply lookup_lt_Some|].
    intros _ e' o [-> ->]. split; [done|]. rec_simpl. by rewrite list_insert_insert_eq. }
  wp_step. destruct warming; [|destruct (wk_emit w)].
  - eapply wp_mono; [apply Hstop|]. intros _ e' o [-> ->]. wp_step. split; [done|]. eexists. split_and!; [done..|by left].
  - unfold emit_merged. wp_step. wp_step. rec_simpl. rewrite Hv, Hs. wp_step. wp_step. split; [done|].
    exists v1. split_and!; [done..|]. right. by eexists.
  - wp_step. wp_step. split; [done|]. exists v1. split_and!; [done..|by left].
  - eapply wp_mono; [apply Hstop|]. intros _ e' o [-> ->]. wp_step. split; [done|]. eexists. split_and!; [done..|by left].
Qed.

Lemma merger_ok_base log p c base v :
  base_ok log p c base → merger_ok log p c ((copy_base base v) <| mw_live := true |> <| mw_seen_version := u64_max |>).
Proof. intros (m & Hm & Hb & _ & Hc & _) _. by exists m. Qed.

Lemma picks_stale p now_ns age b top base value : picks p now_ns age b top base value → stale p b = true.
Proof.
  intros (Ht & Hbase & Hw). unfold stale, has_work in *. rewrite Ht, Hbase. destruct (negb _); [done|].
  cbn [orb] in *. by apply andb_true_iff in Hw as [-> _].
Qed.

(** A merger that has seen the pool on the base that pays most has no work. *)
Lemma extended_builder log p now_ns age b top base value v v' :
  builder_ok log p b → picks p now_ns age b top base value →
  merger_ok log p (bu_coinbase b) v → mw_live v = true → mw_base_hash v = ba_hash base → extended p v v' →
  builder_ok log p (b <| bu_merger := v' |>) ∧
  (builder_work p (b <| bu_merger := v' |>) < builder_work p b)%nat.
Proof.
  intros (Hb & _ & Hn) (Ht & Hbase & Hw) Hok Hlive Hh (E1 & E2 & E3 & E4). split.
  - split_and!; rec_simpl; [done| |done]. intros _. rewrite E1, E2, E3. by apply Hok.
  - assert (stale p (b <| bu_merger := v' |>) = false) as Hs'.
    { unfold stale. replace (top_base _ _) with (Some (Some (top, value))) by (symmetry; exact Ht).
      change (bu_bases (b <| bu_merger := v' |>)) with (bu_bases b).
      change (bu_merger (b <| bu_merger := v' |>)) with v'.
      by rewrite Hbase, E1, E4, Hh, !Z.eqb_refl, andb_false_r. }
    unfold builder_work. rewrite (picks_stale p now_ns age b top base value), Hs' by done. cbn [Nat.b2n bu_bases]. rec_simpl. lia.
Qed.

Lemma do_work_spec received w e :
  engine_inv received e →
  wp (do_work config w) (λ r e' o, engine_inv received e' ∧ en_generation e' = en_generation e ∧
    Forall (output_ok received e) o ∧
    if r then (work_left e' < work_left e)%nat else e' = e) e.
Proof.
  intros HI. unfold do_work. wp_step. wp_step.
  pose proof HI as [Hs _ _]. destruct (en_slot e) as [slot|] eqn:Hslot; [|wp_step; split_and!; done].
  destruct Hs as ([relay ->] & log & HP & Hl & HB).
  destruct (select_base_spec (en_pool e) (wk_now_ns w) (ec_max_base_age_ns config) (en_builders e)) as (best & _ & -> & Hbest).
  { eapply Forall_impl; [done|]. intros b. apply builder_ok_valued. }
  destruct best as [[[i top] value]|]; cbn [fmap option_fmap option_map fst]; [|wp_step; split_and!; done].
  destruct Hbest as [(b & base & Hi & Hpick & _) _]. pose proof Hpick as (_ & Hbase & Hw).
  pose proof (proj1 (Forall_lookup _ _) HB i b Hi) as Hb.
  pose proof (proj1 (Forall_lookup _ _) (proj1 Hb) top base Hbase) as Hbok.
  assert (top < length (bu_bases b))%nat as Htop by (by eapply lookup_lt_Some).
  assert (∀ parent b', builder_ok log (en_pool e) b' → bu_coinbase b' = bu_coinbase b →
    (builder_work (en_pool e) b' < builder_work (en_pool e) b)%nat →
    ∀ e' o, e' = e <| en_parent := parent |> <| en_builders ::= <[i := b']> |> → Forall (output_ok received e) o →
    engine_inv received e' ∧ en_generation e' = en_generation e ∧ Forall (output_ok received e) o ∧
    (work_left e' < work_left e)%nat) as Hfin.
  { intros parent b' H1 H2 H3 e' o -> Ho. edestruct (engine_inv_builder received slot log e i b b' parent) as [? ?]; done. }
  assert (∀ v o, merger_ok log (en_pool e) (bu_coinbase b) v → mw_live v = true →
    (o = [] ∨ ∃ s, pl_submitters (en_pool e) !! mw_base_submitter v = Some s ∧
                   o = [OutMerged (en_generation e) (mw_base_hash v) (sb_pubkey s)]) →
    Forall (output_ok received e) o) as Hout.
  { intros v o Hok Hlive [->|(s & Hsub & ->)]; [constructor|]. apply Forall_singleton. split; [done|].
    destruct (Hok Hlive) as (m & Hm & (H1 & H2 & _ & H3) & _).
    destruct (proj1 (Forall_forall _ _) Hl m Hm) as (H4 & H5 & H6). rewrite Hsub in H3. injection H3 as ->.
    by exists slot, m. }
  destruct (negb (en_parent e) && negb (wk_parent w)).
  { wp_step. eapply wp_mono; [by apply (drop_base_spec log)|].
    intros _ e' o (b' & -> & -> & H1 & H2 & H3). wp_step.
    apply (Hfin (en_parent e) b'); [done..|]. by destruct e. }
  wp_step. wp_step. rewrite Hi. cbn [mbind option_bind]. rewrite Hbase. cbn [mbind option_bind].
  set (e1 := e <| en_parent := true |>). set (warming := _ && _).
  destruct (Z.eqb_spec (mw_base_hash (bu_merger b)) (ba_hash base)) as [Hh|Hh].
  - assert (mw_live (bu_merger b) = true) as Hlive.
    { unfold has_work in Hw. rewrite Hh, Z.eqb_refl in Hw. cbn [negb orb] in Hw. by destruct (mw_live (bu_merger b)). }
    eapply wp_mono; [apply (extend_and_emit_spec log (bu_coinbase b) e1 i warming w b); [done..|apply Hb]|].
    intros r e' o (-> & v' & -> & Hext & Ho).
    destruct (extended_builder log (en_pool e) _ _ b top base value (bu_merger b) v' Hb Hpick (proj1 (proj2 Hb)) Hlive Hh Hext).
    apply (Hfin true (b <| bu_merger := v' |>)); [done..|]. by apply (Hout (bu_merger b)); [apply Hb|..].
  - destruct (wk_open w).
    + wp_step. eapply wp_mono; [by apply (on_merger_spec e1 i b)|]. intros _ e2 o2 [-> ->].
      set (v1 := (copy_base base (bu_merger b)) <| mw_live := true |> <| mw_seen_version := u64_max |>).
      eapply wp_mono; [apply (extend_and_emit_spec log (bu_coinbase b) _ i warming w (b <| bu_merger := v1 |>));
        [rec_simpl; apply list_lookup_insert_eq; by eapply lookup_lt_Some|done|by apply merger_ok_base]|].
      intros r e' o (-> & v' & -> & Hext & Ho).
      destruct (extended_builder log (en_pool e) _ _ b top base value v1 v' Hb Hpick) as [H1 H2];
        [by apply merger_ok_base|done..|].
      apply (Hfin true (b <| bu_merger := v' |>)); [done..| |by apply (Hout v1); [apply merger_ok_base|..]].
      rec_simpl. by rewrite list_insert_insert_eq.
    + wp_step. eapply wp_mono; [by apply (drop_base_spec log)|].
      intros _ e' o (b' & -> & -> & H1 & H2 & H3). wp_step. apply (Hfin true b'); done.
    + wp_step. eapply wp_mono; [by apply (on_merger_spec e1 i b)|]. intros _ e2 o2 [-> ->].
      wp_step. set (b1 := b <| bu_merger ::= _ |>).
      assert (builder_ok log (en_pool e) b1) as Hb1 by (split_and!; [apply Hb|by intros ?|apply Hb]).
      eapply wp_mono; [apply (drop_base_spec log _ i top b1);
        [rec_simpl; apply list_lookup_insert_eq; by eapply lookup_lt_Some|done..]|].
      intros _ e' o (b' & -> & -> & H1 & H2 & H3). wp_step. apply (Hfin true b'); [done..| | |done].
      * eapply Nat.lt_le_trans; [exact H3|]. unfold builder_work.
        rewrite (picks_stale _ _ _ _ _ _ _ Hpick). change (bu_bases b1) with (bu_bases b).
        change (en_pool _) with (en_pool e). destruct (stale (en_pool e) b1); cbn [Nat.b2n]; lia.
      * rec_simpl. by rewrite list_insert_insert_eq.
Qed.

(** ** Runs

    A turn of the loop applies an event, notes that one was lost, or works. *)
Inductive EngineOp := OpEvent (generation : u64) (event : EngineEvent) | OpLost | OpWork (w : Work).

Definition engine_op (op : EngineOp) : Engine bool :=
  match op with
  | OpEvent generation event => apply_event config generation event ;; mret false
  | OpLost => lost_event ;; mret false
  | OpWork w => do_work config w
  end.

Fixpoint engine_run (ops : list EngineOp) : Engine (list bool) :=
  match ops with
  | [] => mret []
  | op :: ops => b ← engine_op op; bs ← engine_run ops; mret (b :: bs)
  end.

Definition op_typed (op : EngineOp) : Prop :=
  match op with OpEvent _ (EvMergeableBlock body _) => body_typed body | _ => True end.

(** The blocks of a history that came under a generation. *)
Definition received_in (hist : list EngineOp) (g : u64) (m : MergeableBlockV1) : Prop :=
  ∃ recv_ns, OpEvent g (EvMergeableBlock (Some m) recv_ns) ∈ hist.

Definition run_inv (hist : list EngineOp) (e : MergeEngine) : Prop :=
  engine_inv (received_in hist (en_generation e)) e.

Lemma run_inv_mono hist op e : run_inv hist e → run_inv (hist ++ [op]) e.
Proof. apply engine_inv_mono. intros m [recv ?]. exists recv. set_solver. Qed.

Lemma apply_event_spec hist g ev e :
  0 ≤ ec_max_orders_per_slot config → run_inv hist e → op_typed (OpEvent g ev) →
  wp (apply_event config g ev)
    (λ _ e' o, run_inv (hist ++ [OpEvent g ev]) e' ∧ en_generation e ≤ en_generation e' ∧
               rejects (en_generation e') o) e.
Proof.
  intros Hmax HI%(run_inv_mono hist (OpEvent g ev)) Hty. unfold apply_event. set (hist' := hist ++ _) in *.
  wp_step. wp_step. wp_step.
  apply (wp_mono _ (λ _ e' o, run_inv hist' e' ∧ en_generation e ≤ en_generation e' ∧ o = [])).
  { destruct (Z.ltb_spec (en_generation e) g); [|wp_step; split_and!; [done|lia|done]].
    wp_step. wp_step. set (e1 := e <| en_generation := g |>).
    assert (engine_inv (received_in hist' (en_generation e)) e1) as HI1 by (by destruct HI; split).
    eapply wp_mono; [by apply (end_slot_spec (received_in hist' (en_generation e)) (received_in hist' g))|].
    intros _ e' o (H1 & _ & -> & H2 & _). unfold run_inv. rewrite H2. subst e1. rec_simpl. split_and!; [done|lia|done]. }
  intros _ e1 o1 (HI1 & Hg & ->). cbn [app].
  assert (wp (mret tt) (λ (_ : unit) e' (o : list EngineOutput), run_inv hist' e' ∧ en_generation e ≤ en_generation e' ∧
    rejects (en_generation e') o) e1) as Hskip by (wp_step; split_and!; [done..|apply rejects_none]).
  destruct ev as [|[c|]|[msg|] bl|slot|body recv]; try exact Hskip.
  - wp_step. split_and!; [by destruct HI1; split|done|apply rejects_none].
  - eapply wp_mono; [by apply start_slot_spec|]. intros _ e' o (H1 & -> & H2).
    unfold run_inv. rewrite H2. split_and!; [done..|apply rejects_none].
  - wp_step. wp_step. destruct (match en_slot e1 with Some _ => _ | None => _ end); [|exact Hskip].
    eapply wp_mono; [by apply (end_slot_spec (received_in hist' (en_generation e1)) (received_in hist' (en_generation e1)))|].
    intros _ e' o (H1 & _ & -> & H2 & _). unfold run_inv. rewrite H2. split_and!; [done..|apply rejects_none].
  - wp_step. wp_step. destruct (Z.eqb_spec g (en_generation e1)) as [->|]; [|exact Hskip].
    eapply wp_mono; [apply (on_block_spec (received_in hist' (en_generation e1))); [done..|]|].
    { intros m ->. exists recv. unfold hist'. set_solver. }
    intros _ e' o (H1 & H2 & H3). unfold run_inv. rewrite H2. done.
Qed.

Lemma engine_op_spec hist op e :
  0 ≤ ec_max_orders_per_slot config → run_inv hist e → op_typed op →
  wp (engine_op op) (λ _ e' o, run_inv (hist ++ [op]) e' ∧ en_generation e ≤ en_generation e' ∧
    Forall (λ x, match x with
                 | OutReject g _ => g = en_generation e'
                 | _ => output_ok (received_in hist (en_generation e)) e x
                 end) o) e.
Proof.
  intros Hmax HI Hty. destruct op as [g ev| |w]; cbn [engine_op].
  - wp_step. eapply wp_mono; [by apply apply_event_spec|]. intros _ e' o (H1 & H2 & _ & H3). wp_step.
    rewrite app_nil_r. split_and!; [done..|]. eapply Forall_impl; [done|]. by intros x [r ->].
  - unfold lost_event. wp_step. wp_step. wp_step. eapply wp_mono; [apply publish_reject_spec|].
    intros _ e' o [-> ->]. wp_step. split_and!; [by apply run_inv_mono|done|]. by apply Forall_singleton.
  - eapply wp_mono; [by apply (do_work_spec (received_in hist (en_generation e)))|].
    intros r e' o (H1 & H2 & H3 & _). split_and!; [|lia|].
    + apply run_inv_mono. unfold run_inv. by rewrite H2.
    + eapply Forall_impl; [done|]. intros [] ?; [by rewrite H2|done].
Qed.

Lemma work_left_bound e :
  (work_left e ≤ 2 * sum_list (length ∘ bu_bases <$> en_builders e) + length (en_builders e))%nat.
Proof.
  unfold work_left. induction (en_builders e) as [|b l IH]; [cbn; lia|].
  rewrite !fmap_cons. cbn [sum_list_with length id compose]. change (builder_work (en_pool e) b) with
    (2 * length (bu_bases b) + Nat.b2n (stale (en_pool e) b))%nat.
  destruct (stale (en_pool e) b); cbn [Nat.b2n]; lia.
Qed.

Lemma engine_run_spec ops : ∀ hist e,
  0 ≤ ec_max_orders_per_slot config → run_inv hist e → Forall op_typed ops →
  wp (engine_run ops) (λ _ e' _, run_inv (hist ++ ops) e') e.
Proof.
  induction ops as [|op ops IH]; intros hist e Hmax HI Hty; cbn [engine_run].
  { wp_step. by rewrite app_nil_r. }
  inversion Hty as [|? ? Hop Hops]; subst. wp_step.
  eapply wp_mono; [by apply (engine_op_spec hist)|]. intros b e1 o1 (HI1 & _). wp_step.
  eapply wp_mono; [by apply (IH (hist ++ [op]))|]. intros bs e2 o2 HI2. wp_step.
  by rewrite <- app_assoc in HI2.
Qed.

Lemma run_inv_new : run_inv [] engine_new.
Proof.
  split; cbn; [|split; [apply NoDup_nil_2|unfold len; cbn; lia]|constructor].
  done.
Qed.

Lemma engine_reachable ops :
  0 ≤ ec_max_orders_per_slot config → Forall op_typed ops →
  ∃ bs e o, engine_run ops engine_new = Some (bs, e, o) ∧ run_inv ops e.
Proof.
  intros Hmax Hty. pose proof (engine_run_spec ops [] engine_new Hmax run_inv_new Hty) as H. unfold wp in H.
  destruct (engine_run ops engine_new) as [[[bs e] o]|]; [|done]. by exists bs, e, o.
Qed.

Lemma works_bounded ws : ∀ received e, engine_inv received e →
  wp (engine_run (OpWork <$> ws)) (λ rs e' _,
    (length (filter (λ r, r = true) rs) + work_left e' ≤ work_left e)%nat) e.
Proof.
  induction ws as [|w ws IH]; intros received e HI; cbn [engine_run fmap list_fmap]; [wp_step; cbn; lia|].
  wp_step. cbn [engine_op]. eapply wp_mono; [by apply (do_work_spec received)|].
  intros r e1 o1 (HI1 & _ & _ & Hr). wp_step. eapply wp_mono; [by apply (IH received)|].
  intros rs e2 o2 Hrs. cbn beta in Hrs. wp_step. rewrite filter_cons. destruct r; case_decide; try done; cbn [length]; [lia|rewrite Hr in Hrs; lia].
Qed.

(** C15: The merge engine never panics, holds nothing between slots, and every
    merged block it publishes extends a block received on the same connection,
    for the slot and the parent it works on, that allows appending, and names
    the builder of that block; every output is tagged with the connection's
    generation. *)
Theorem merged_blocks_extend_received ops op :
  0 ≤ ec_max_orders_per_slot config → Forall op_typed ops → op_typed op →
  ∃ bs e o b e' o', engine_run ops engine_new = Some (bs, e, o) ∧ engine_op op e = Some (b, e', o') ∧
    (en_slot e = None → en_builders e = [] ∧ pl_txs (en_pool e) = [] ∧ pl_order_ids (en_pool e) = [] ∧
                        en_parent e = false) ∧
    (∀ g r, OutReject g r ∈ o' → g = en_generation e') ∧
    ∀ g hash pubkey, OutMerged g hash pubkey ∈ o' →
      g = en_generation e ∧
      ∃ slot m recv_ns, en_slot e = Some slot ∧ OpEvent g (EvMergeableBlock (Some m) recv_ns) ∈ ops ∧
        fb_slot m = ss_slot slot ∧ ep_parent_hash (fb_execution_payload m) = ss_parent_hash slot ∧
        fb_allow_appending m = true ∧ hash = block_hash_of m ∧ pubkey = fb_builder_pubkey m.
Proof.
  intros Hmax Hty Hop. destruct (engine_reachable ops Hmax Hty) as (bs & e & o & Hrun & HI).
  pose proof (engine_op_spec ops op e Hmax HI Hop) as H. unfold wp in H.
  destruct (engine_op op e) as [[[b e'] o']|] eqn:Hstep; [|done]. destruct H as (_ & _ & Hout).
  rewrite Forall_forall in Hout. exists bs, e, o, b, e', o'. split_and!; [done..| | |].
  - intros Hnone. destruct HI as [Hs _ _]. rewrite Hnone in Hs. destruct Hs as (HP & Hb & Hpar).
    rewrite HP. done.
  - intros g r Hin. exact (Hout _ Hin).
  - intros g hash pubkey Hin. destruct (Hout _ Hin) as (-> & slot & m & H1 & [recv H2] & H3). split; [done|].
    by exists slot, m, recv.
Qed.

(** C32: The engine works on what pays most, and comes to rest. In every state it
    can reach it chooses, among the builders whose best base has work left, one
    of a base of the highest value; and the turns that find work between two
    events are at most twice the bases it holds and one for each builder. *)
Theorem work_quiesces ops ws :
  0 ≤ ec_max_orders_per_slot config → Forall op_typed ops →
  ∃ bs e o rs e' o', engine_run ops engine_new = Some (bs, e, o) ∧
    (∀ now_ns, ∃ best,
      select_base (en_builders e) (en_pool e) now_ns (ec_max_base_age_ns config) = Some (fst <$> best) ∧
      best_pick (en_pool e) now_ns (ec_max_base_age_ns config) (en_builders e) best) ∧
    engine_run (OpWork <$> ws) e = Some (rs, e', o') ∧
    (length (filter (λ r, r = true) rs) ≤
     2 * sum_list (length ∘ bu_bases <$> en_builders e) + length (en_builders e))%nat.
Proof.
  intros Hmax Hty. destruct (engine_reachable ops Hmax Hty) as (bs & e & o & Hrun & HI).
  pose proof (works_bounded ws _ e HI) as Hb. unfold wp in Hb.
  destruct (engine_run (OpWork <$> ws) e) as [[[rs e'] o']|] eqn:Hws; [|done].
  exists bs, e, o, rs, e', o'. split_and!; [done| |done|].
  - intros now_ns. destruct (select_base_spec (en_pool e) now_ns (ec_max_base_age_ns config) (en_builders e))
      as (best & _ & H1 & H2); [|by exists best].
    destruct HI as [Hs _ _]. destruct (en_slot e).
    + destruct Hs as (_ & log & _ & _ & HB). eapply Forall_impl; [done|]. intros b. apply builder_ok_valued.
    + destruct Hs as (_ & -> & _). constructor.
  - eapply Nat.le_trans; [|apply (work_left_bound e)]. lia.
Qed.
End invariant.

(** ** Examples *)

Definition ex_engine_config : EngineConfig := mkEngineConfig 10 10 4 1000 false.

(** A connection, a slot, and two blocks of one builder for it. *)
Definition ex_engine_ops : list EngineOp :=
  [OpEvent 1 EvConnectionReset; OpEvent 1 (EvRelayConfig (Some (mkRelayConfigV1 1 2 0 5000 5000 0 [])));
   OpEvent 1 (EvSlotStart (Some (mkSlotStartV1 5 100 9 0 false)) ∅);
   OpEvent 1 (EvMergeableBlock (Some (ex_mergeable 11 10 [ex_bundle true])) 1);
   OpEvent 1 (EvMergeableBlock (Some (ex_mergeable 12 20 [])) 2)].
Definition ex_work : Work := mkWork 3 true OpenOk EmitMerged.

Lemma ex_engine_ops_typed : Forall op_typed ex_engine_ops.
Proof.
  unfold ex_engine_ops. repeat apply Forall_cons_2; try apply Forall_nil_2; try exact I.
  split_and!; repeat apply Forall_cons_2; try apply Forall_nil_2; lia.
Qed.

Lemma merged_blocks_extend_received_witness :
  ∃ bs e o b e', engine_run (CT := ex_canonical) ex_engine_config ex_engine_ops engine_new = Some (bs, e, o) ∧
    engine_op (CT := ex_canonical) ex_engine_config (OpWork ex_work) e = Some (b, e', [OutMerged 1 12 7]) ∧
    ∃ m recv_ns, OpEvent 1 (EvMergeableBlock (Some m) recv_ns) ∈ ex_engine_ops ∧ block_hash_of m = 12.
Proof.
  destruct (merged_blocks_extend_received (CT := ex_canonical) ex_engine_config ex_engine_ops (OpWork ex_work))
    as (bs & e & o & b & e' & o' & Hrun & Hop & _ & _ & Hout); [done|apply ex_engine_ops_typed|done|].
  assert (((engine_run (CT := ex_canonical) ex_engine_config ex_engine_ops engine_new ≫=
    λ r, engine_op (CT := ex_canonical) ex_engine_config (OpWork ex_work) r.1.2) ≫= λ r, Some r.2) =
    Some [OutMerged 1 12 7]) as Hc by (vm_compute; reflexivity).
  rewrite Hrun in Hc. cbn [mbind option_bind fst snd] in Hc. rewrite Hop in Hc. injection Hc as ->.
  exists bs, e, o, b, e'. split_and!; [exact Hrun|exact Hop|].
  destruct (Hout 1 12 7) as (_ & slot & m & recv & _ & H1 & _ & _ & _ & H2 & _); [apply list_elem_of_singleton; done|].
  exists m, recv. split; [exact H1|symmetry; exact H2].
Defined.

Lemma work_quiesces_witness :
  ∃ bs e o rs e' o', engine_run (CT := ex_canonical) ex_engine_config ex_engine_ops engine_new = Some (bs, e, o) ∧
    engine_run (CT := ex_canonical) ex_engine_config (OpWork <$> replicate 5 ex_work) e = Some (rs, e', o') ∧
    (length (filter (λ r, r = true) rs) ≤
     2 * sum_list (length ∘ bu_bases <$> en_builders e) + length (en_builders e))%nat ∧
    rs = [true; false; false; false; false].
Proof.
  destruct (work_quiesces (CT := ex_canonical) ex_engine_config ex_engine_ops (replicate 5 ex_work))
    as (bs & e & o & rs & e' & o' & Hrun & _ & Hws & Hle); [done|apply ex_engine_ops_typed|].
  assert (((engine_run (CT := ex_canonical) ex_engine_config ex_engine_ops engine_new ≫=
    λ r, engine_run (CT := ex_canonical) ex_engine_config (OpWork <$> replicate 5 ex_work) r.1.2) ≫= λ r, Some r.1.1) =
    Some [true; false; false; false; false]) as Hc by (vm_compute; reflexivity).
  rewrite Hrun in Hc. cbn [mbind option_bind fst snd] in Hc. rewrite Hws in Hc. injection Hc as ->.
  exists bs, e, o, [true; false; false; false; false], e', o'. split_and!; [exact Hrun|exact Hws|exact Hle|reflexivity].
Defined.
