(* ===== verification/MergeServer.v ===== *)
(** * The merging server of the builder

    [MergingServerTile] of [crates/builder/src/server/mod.rs] with [session.rs],
    [codec.rs] and the flow control of [crates/builder/src/spine.rs]: relay
    connections, the registration handshake, the events published to the merge
    engine and the outputs sent back. Compression and the queue's ring are
    third-party code: [zstd] and [dcache_accepts] are parameters. *)

From S2P Require Import Prelude Types Submission Rlp MergeTrie MergeOrders MergeWire.

(** ** Sessions *)

Inductive SessionState := AwaitingRegistration (deadline : Z) | SessionActive (zstd : bool).

Record Session := mkSession { se_state : SessionState; se_last_recv : Z; se_response_id : u32 }.
#[export] Instance eta_Session : Eta Session := λ r,
  mkSession (se_state r) (se_last_recv r) (se_response_id r).

Definition session_awaiting (now handshake_timeout : Z) : Session :=
  mkSession (AwaitingRegistration (now + handshake_timeout)) now 0.

Definition session_zstd (s : Session) : bool :=
  match se_state s with SessionActive zstd => zstd | AwaitingRegistration _ => false end.

Definition next_response_id (s : Session) : u32 * Session :=
  (se_response_id s, s <| se_response_id ::= λ id, (id + 1) mod u32_modulus |>).

Definition negotiate_version (min_version max_version : Z) : option Z :=
  if (min_version <=? MERGING_PROTOCOL_VERSION) && (MERGING_PROTOCOL_VERSION <=? max_version)
  then Some MERGING_PROTOCOL_VERSION else None.

(** The differences of two keys, collected without an early exit. *)
Definition key_diff (key candidate : Bytes) : Z :=
  foldl (λ diff '(a, b), Z.lor diff (Z.lxor a b)) 0 (zip key candidate).

Definition api_key_allowed (allowlist : list Bytes) (candidate : Bytes) : bool :=
  foldl (λ allowed key, allowed || (key_diff key candidate =? 0)) false allowlist.

(** ** Events to the engine *)

Inductive EventKind := KindRelayConfig | KindSlotStart | KindSlotEnd | KindMergeableBlock | KindConnectionReset.
#[export] Instance EventKind_eq_dec : EqDecision EventKind.
Proof. solve_decision. Defined.

Record ToEngine := mkToEngine {
  ev_kind : EventKind;
  ev_generation : u64;
  ev_slot : u64;
  ev_recv_ns : u64;
  ev_seq : u64;
  ev_charge : u64
}.
#[export] Instance ToEngine_eq_dec : EqDecision ToEngine.
Proof. solve_decision. Defined.

(** [len.next_multiple_of(64)], twice. *)
Definition next_multiple_of (n k : Z) : Z := (n + k - 1) / k * k.
Definition charge_of (length : Z) : u64 := 2 * next_multiple_of length 64.

(** Events and bytes a block leaves free. *)
Definition CONTROL_HEADROOM : Z * Z := (16, 2 ^ 20).

Inductive OutputKind := OutputMerged | OutputReject.

(** Error texts are left out: an error acknowledgement has the status, and a
    fatal message its code. *)
Inductive Reply := ReplyAck (ack : MergerAckV1) | ReplyPong (nonce : u64) | ReplyReject (r : RejectV1) | ReplyFatal (code : RejectCode).

(** ** State

    The cursor is shared with the engine, which reads events in order and then
    stores the numbers of the last; the two stores are taken together. [sv_queue]
    are the events published and not read, and [sv_reads] how many of them the
    engine reads before each time the server looks at the cursor. The counters
    of events and bytes stay far below 2^64. *)
Record Server := mkServer {
  sv_sessions : gmap Z Session;
  sv_active : option Z;
  sv_generation : u64;
  sv_seq : u64;
  sv_charge : u64;
  sv_depth : u64;
  sv_ring : u64;
  sv_cursor : u64 * u64;
  sv_queue : list (ToEngine * Bytes);
  sv_reads : list nat;
  sv_ping_nonce : u64;
  sv_replies : list (Z * Reply);
  sv_to_disconnect : list Z
}.
#[export] Instance eta_Server : Eta Server := λ r,
  mkServer (sv_sessions r) (sv_active r) (sv_generation r) (sv_seq r) (sv_charge r) (sv_depth r) (sv_ring r)
    (sv_cursor r) (sv_queue r) (sv_reads r) (sv_ping_nonce r) (sv_replies r) (sv_to_disconnect r).

Record ServerConfig := mkServerConfig {
  sc_api_keys : list Bytes;
  sc_max_orders_per_slot : u32;
  sc_max_frame_bytes : u32;
  sc_supports_zstd : bool;
  sc_handshake_timeout : Z;
  sc_idle_disconnect : Z
}.

(** [on_attach] reads the depth of the queue and the size of its ring. *)
Definition server_new (depth ring : u64) : Server := mkServer ∅ None 0 0 0 depth ring (0, 0) [] [] 0 [] [].

Inductive ServerEvent :=
| SvAccepted (token : Z)
| SvConnected (token : Z)
| SvDisconnected (token : Z)
| SvMessage (token : Z) (payload : Bytes).

(** A control event that does not fit is dropped and logged. *)
Inductive ServerOutput :=
| SvReply (token : Z) (r : Reply)
| SvPing (token : Z) (nonce : u64)
| SvFrame (token : Z) (frame : Bytes)
| SvPublish (ev : ToEngine) (body : Bytes)
| SvDropped (kind : EventKind)
| SvClose (token : Z).

(** Third-party code: compressing a body, decompressing one to at most some
    length, and whether a ring takes a payload. *)
Class ServerLibs := {
  zstd_compress : Bytes → option Bytes;
  zstd_decompress : Bytes → Z → option Bytes;
  dcache_accepts : Z → Z → bool
}.

Section server.
Context {MC : MergingCodec} {LB : ServerLibs} `{HO : HashOrder} (config : ServerConfig).
Abbreviation Srv := (Comp Server ServerOutput) (only parsing).

Definition engine_reads : Srv unit :=
  modify (λ s : Server,
    match sv_reads s with
    | [] => s
    | k :: ks =>
        s <| sv_reads := ks |> <| sv_queue ::= drop k |>
          <| sv_cursor := match last (take k (sv_queue s)) with
                          | Some (ev, _) => (ev_seq ev, ev_charge ev)
                          | None => sv_cursor s
                          end |>
    end).

(** [EngineTx::send]; the subtractions would underflow below the cursor. *)
Definition send (now : Z) (kind : EventKind) (generation slot : u64) (body : Bytes) (headroom : Z * Z) : Srv bool :=
  engine_reads ;;
  s ← get;
  let charge := if len body =? 0 then 0 else charge_of (len body) in
  if (sv_seq s <? (sv_cursor s).1) || (sv_charge s <? (sv_cursor s).2) then panic
  else
    let events := sv_seq s - (sv_cursor s).1 in
    let bytes := sv_charge s - (sv_cursor s).2 in
    if (sv_depth s <? events + 1 + headroom.1) || (sv_ring s <? bytes + charge + headroom.2) then mret false
    else
      let ev := mkToEngine kind generation slot now (sv_seq s + 1) (sv_charge s + charge) in
      if negb (len body =? 0) && negb (dcache_accepts (len body) (sv_ring s)) then mret false
      else
        modify (λ s : Server, s <| sv_queue ::= (λ q, q ++ [(ev, body)]) |>
                                <| sv_seq := ev_seq ev |> <| sv_charge := ev_charge ev |>) ;;
        emit [SvPublish ev body] ;; mret true.

Definition send_control (now : Z) (kind : EventKind) (generation slot : u64) (body : Bytes) : Srv unit :=
  sent ← send now kind generation slot body (0, 0);
  if (sent : bool) then mret tt else emit [SvDropped kind].

Definition disconnect (token : Z) : Srv unit :=
  modify (λ s : Server, s <| sv_to_disconnect ::= (λ l, l ++ [token]) |>).
Definition reply (token : Z) (r : Reply) : Srv unit :=
  modify (λ s : Server, s <| sv_replies ::= (λ l, l ++ [(token, r)]) |>).

(** The generation moves on and the engine hears of it. *)
Definition next_generation (now : Z) : Srv unit :=
  modify (λ s : Server, s <| sv_generation ::= Z.add 1 |>) ;;
  s ← get; send_control now KindConnectionReset (sv_generation s) 0 [].

(** The active connection is gone. *)
Definition lose_active (now token : Z) : Srv unit :=
  modify (λ s : Server, s <| sv_sessions ::= delete token |>) ;;
  s ← get;
  if bool_decide (sv_active s = Some token)
  then modify (λ s : Server, s <| sv_active := None |>) ;; next_generation now
  else mret tt.

Definition err_ack : Reply := ReplyAck (mkMergerAckV1 0 false 0 0).

Definition handle_registration (now token : Z) (payload : Bytes) : Srv (option Reply) :=
  match header_decode payload with
  | Err _ => disconnect token ;; mret None
  | Ok header =>
      if negb (bool_decide (fh_msg_id header = IdMergerRegistrationV1)) || is_zstd_compressed header
      then disconnect token ;; mret None
      else
        match registration_from_ssz (frame_body payload) with
        | None => disconnect token ;; mret None
        | Some reg =>
            if negb (api_key_allowed (sc_api_keys config) (be_bytes 16 (rg_api_key reg)))
            then disconnect token ;; mret (Some err_ack)
            else
              match negotiate_version (rg_min_version reg) (rg_max_version reg) with
              | None => disconnect token ;; mret (Some err_ack)
              | Some version =>
                  let zstd := rg_supports_zstd reg && sc_supports_zstd config in
                  s ← get;
                  let old := sv_active s in
                  modify (λ s : Server,
                    s <| sv_sessions ::= alter (λ x : Session, x <| se_state := SessionActive zstd |>) token |>
                      <| sv_active := Some token |>) ;;
                  match old with
                  | Some o =>
                      if o =? token then mret tt
                      else disconnect o ;; modify (λ s : Server, s <| sv_sessions ::= delete o |>)
                  | None => mret tt
                  end ;;
                  next_generation now ;;
                  mret (Some (ReplyAck (mkMergerAckV1 version true (sc_max_orders_per_slot config)
                                          (sc_max_frame_bytes config))))
              end
        end
  end.

Definition fatal (token : Z) (code : RejectCode) : Srv unit := reply token (ReplyFatal code) ;; disconnect token.

(** The first eight bytes, little endian. *)
Definition peek_slot (body : Bytes) : option u64 :=
  if 8 <=? len body then Some (from_le_bytes (take 8 body)) else None.

(** The body of a frame, decompressed where it is compressed; [Err]: a protocol
    violation. *)
Definition message_body (header : MergingFrameHeader) (zstd_negotiated : bool) (payload : Bytes) : Result Bytes RejectCode :=
  if is_zstd_compressed header then
    if negb zstd_negotiated then Err InvalidOrder
    else match zstd_decompress (frame_body payload) (sc_max_frame_bytes config) with
         | Some body => Ok body
         | None => Err InvalidOrder
         end
  else Ok (frame_body payload).

Definition handle_block (now token : Z) (generation : u64) (body : Bytes) : Srv unit :=
  let slot := default 0 (peek_slot body) in
  if sc_max_frame_bytes config <? len body
  then reply token (ReplyReject (mkRejectV1 slot LimitExceeded SubjectNone))
  else
    sent ← send now KindMergeableBlock generation slot body CONTROL_HEADROOM;
    if (sent : bool) then mret tt else reply token (ReplyReject (mkRejectV1 slot Busy SubjectNone)).

Definition handle_active_message (now token : Z) (payload : Bytes) (zstd_negotiated : bool) (generation : u64) : Srv unit :=
  match header_decode payload with
  | Err (ExtensionMsgId _) => mret tt
  | Err _ => fatal token InvalidOrder
  | Ok header =>
      match message_body header zstd_negotiated payload with
      | Err code => fatal token code
      | Ok body =>
          match fh_msg_id header with
          | IdPingV1 =>
              match ping_from_ssz body with Some nonce => reply token (ReplyPong nonce) | None => mret tt end
          | IdPongV1 | IdActivateBaseBlockV1 => mret tt
          | IdRelayConfigV1 =>
              match relay_config_from_ssz body with
              | None => fatal token InvalidOrder
              | Some c => if is_ok (relay_config_validate c)
                          then send_control now KindRelayConfig generation 0 body else fatal token InvalidOrder
              end
          | IdSlotStartV1 =>
              match slot_start_from_ssz body with
              | None => fatal token InvalidOrder
              | Some m => send_control now KindSlotStart generation (ss_slot m) body
              end
          | IdSlotEndV1 =>
              match slot_end_from_ssz body with
              | None => fatal token InvalidOrder
              | Some slot => send_control now KindSlotEnd generation slot []
              end
          | IdMergeableBlockV1 => handle_block now token generation body
          | _ => fatal token InvalidOrder
          end
      end
  end.

(** One event of [poll_with]. *)
Definition on_event (now : Z) (ev : ServerEvent) : Srv unit :=
  match ev with
  | SvAccepted token =>
      modify (λ s : Server, s <| sv_sessions ::= <[token := session_awaiting now (sc_handshake_timeout config)]> |>)
  | SvConnected _ => mret tt
  | SvDisconnected token => lose_active now token
  | SvMessage token payload =>
      s ← get;
      match sv_sessions s !! token with
      | None => disconnect token
      | Some session =>
          modify (λ s : Server, s <| sv_sessions ::= <[token := session <| se_last_recv := now |>]> |>) ;;
          match se_state session with
          | AwaitingRegistration _ =>
              r ← handle_registration now token payload;
              match r with Some r => reply token r | None => mret tt end
          | SessionActive zstd => handle_active_message now token payload zstd (sv_generation s)
          end
      end
  end.

Fixpoint each {A} (f : A → Srv unit) (l : list A) : Srv unit :=
  match l with [] => mret tt | x :: l => f x ;; each f l end.

Definition flush_reactions (now : Z) : Srv unit :=
  s ← get;
  modify (λ s : Server, s <| sv_replies := [] |>) ;;
  emit ((λ '(token, r), SvReply token r) <$> sv_replies s) ;;
  s ← get;
  modify (λ s : Server, s <| sv_to_disconnect := [] |>) ;;
  each (λ token, emit [SvClose token] ;; lose_active now token) (sv_to_disconnect s).

Definition poll_sockets (now : Z) (events : list (Z * ServerEvent)) : Srv unit :=
  each (λ '(now, ev), on_event now ev) events ;; flush_reactions now.

Definition expired (now : Z) (s : Session) : bool :=
  match se_state s with
  | AwaitingRegistration deadline => deadline <? now
  | SessionActive _ => sc_idle_disconnect config <? now - se_last_recv s
  end.

(** [tick_timers] when the timer fired. *)
Definition tick_timers (now : Z) : Srv unit :=
  s ← get;
  match sv_active s with
  | Some token =>
      if bool_decide (is_Some (sv_sessions s !! token)) then
        modify (λ s : Server, s <| sv_ping_nonce ::= λ n, (n + 1) mod u64_modulus |>) ;;
        s ← get; emit [SvPing token (sv_ping_nonce s)]
      else mret tt
  | None => mret tt
  end ;;
  s ← get;
  each disconnect (omap (λ '(token, x), if expired now x then Some token else None) (hash_iter (sv_sessions s))) ;;
  flush_reactions now.

(** ** Outputs of the engine *)

Definition ZSTD_THRESHOLD_BYTES : Z := 4096.

Definition append_body_frame (id : MergingMsgId) (body : Bytes) (zstd : bool) : Bytes :=
  let whole := append_encoded (header_new id) ++ body in
  if negb zstd || (len body <=? ZSTD_THRESHOLD_BYTES) then whole
  else match zstd_compress body with
       | Some compressed => append_encoded (with_zstd (header_new id)) ++ compressed
       | None => whole
       end.

(** [body[8..12].copy_from_slice(..)], which panics on a shorter body. *)
Definition stamp_response_id (id : u32) (body : Bytes) : option Bytes :=
  if 12 <=? len body then Some (take 8 body ++ reverse (be_bytes 4 id) ++ drop 12 body) else None.

Definition send_output (kind : OutputKind) (generation : u64) (body : Bytes) : Srv unit :=
  s ← get;
  if negb (generation =? sv_generation s) then mret tt
  else
    match sv_active s with
    | None => mret tt
    | Some token =>
        match sv_sessions s !! token with
        | None => mret tt
        | Some session =>
            match kind with
            | OutputMerged =>
                let '(id, session) := next_response_id session in
                modify (λ s : Server, s <| sv_sessions ::= <[token := session]> |>) ;;
                match stamp_response_id id body with
                | None => panic
                | Some body => emit [SvFrame token (append_body_frame IdMergedBlockV1 body (session_zstd session))]
                end
            | OutputReject => emit [SvFrame token (append_body_frame IdRejectV1 body false)]
            end
        end
    end.

(** One iteration of the tile: the engine's outputs, the events of the network
    with their times, and whether the timer fired. *)
Record ServerTurn := mkServerTurn {
  sx_outputs : list (OutputKind * u64 * Bytes);
  sx_now : Z;
  sx_events : list (Z * ServerEvent);
  sx_ping : bool
}.

Definition run_once (turn : ServerTurn) : Srv unit :=
  each (λ '(kind, generation, body), send_output kind generation body) (sx_outputs turn) ;;
  poll_sockets (sx_now turn) (sx_events turn) ;;
  if sx_ping turn then tick_timers (sx_now turn) else mret tt.
End server.

(** ** Reachable states

    The parts of an iteration, one at a time. Before each, [reads] says how far
    the engine gets at each look at the cursor. *)
Inductive ServerOp :=
| OpNet (now : Z) (ev : ServerEvent)
| OpFlush (now : Z)
| OpTick (now : Z)
| OpOutput (kind : OutputKind) (generation : u64) (body : Bytes).

Section runs.
Context {MC : MergingCodec} {LB : ServerLibs} `{HO : HashOrder} (config : ServerConfig).
Abbreviation Srv := (Comp Server ServerOutput) (only parsing).

Definition server_op (op : ServerOp) : Srv unit :=
  match op with
  | OpNet now ev => on_event config now ev
  | OpFlush now => flush_reactions now
  | OpTick now => tick_timers config now
  | OpOutput kind generation body => send_output kind generation body
  end.

Definition turn_ops (turn : ServerTurn) : list ServerOp :=
  ((λ '(kind, generation, body), OpOutput kind generation body) <$> sx_outputs turn) ++
  ((λ '(now, ev), OpNet now ev) <$> sx_events turn) ++ [OpFlush (sx_now turn)] ++
  if sx_ping turn then [OpTick (sx_now turn)] else [].

Lemma bind_assoc_at {A B C} (m : Srv A) (f : A → Srv B) (g : B → Srv C) s :
  ((m ≫= f) ≫= g) s = (m ≫= λ a, f a ≫= g) s.
Proof.
  unfold mbind, comp_bind. destruct (m s) as [[[a s1] o1]|]; [|done]. destruct (f a s1) as [[[b s2] o2]|]; [|done].
  destruct (g b s2) as [[[c s3] o3]|]; [|done]. by rewrite app_assoc.
Qed.

Lemma bind_ext_at {A B} (m m' : Srv A) (f g : A → Srv B) s :
  m s = m' s → (∀ a s, f a s = g a s) → (m ≫= f) s = (m' ≫= g) s.
Proof.
  intros Hm Hf. unfold mbind, comp_bind. rewrite Hm. destruct (m' s) as [[[a s1] o1]|]; [|done]. by rewrite Hf.
Qed.

Lemma each_app {A} (f : A → Srv unit) l k s : each f (l ++ k) s = (each f l ;; each f k) s.
Proof.
  revert s. induction l as [|x l IH]; intros s; cbn [each app].
  { unfold mbind, comp_bind, mret, comp_ret. destruct (each f k s) as [[[[] ?] ?]|]; done. }
  rewrite bind_assoc_at. apply bind_ext_at; [done|]. intros _ s'. apply IH.
Qed.

Lemma each_fmap {A B} (g : A → B) (f : B → Srv unit) (h : A → Srv unit) l s :
  (∀ x, h x = f (g x)) → each h l s = each f (g <$> l) s.
Proof.
  intros Hh. revert s. induction l as [|x l IH]; intros s; [done|]. cbn [each fmap list_fmap]. rewrite Hh.
  by apply bind_ext_at.
Qed.

(** An iteration is the sequence of its parts. *)
Lemma run_once_ops turn s : run_once config turn s = each server_op (turn_ops turn) s.
Proof.
  unfold run_once, turn_ops, poll_sockets. rewrite each_app. apply bind_ext_at.
  { apply each_fmap. by intros [[? ?] ?]. }
  intros _ s1. rewrite each_app, bind_assoc_at. apply bind_ext_at.
  { apply each_fmap. by intros []. }
  intros _ s2. cbn [each app]. apply bind_ext_at; [done|]. intros _ s3.
  destruct (sx_ping turn); cbn [each]; [|done]. unfold mbind, comp_bind, mret, comp_ret. cbn [server_op].
  destruct (tick_timers config (sx_now turn) s3) as [[[[] s4] o4]|]; [|done]. by rewrite app_nil_r.
Qed.
End runs.

(** ** Flow control *)

Definition event_cost (e : ToEngine * Bytes) : Z := if len e.2 =? 0 then 0 else charge_of (len e.2).
Definition cost_of (l : list (ToEngine * Bytes)) : Z := foldr (λ e n, event_cost e + n) 0 l.
Arguments cost_of : simpl never.

Lemma cost_of_app l k : cost_of (l ++ k) = cost_of l + cost_of k.
Proof. unfold cost_of. induction l as [|e l IH]; cbn [app foldr]; lia. Qed.

Lemma charge_bounds n : 0 ≤ n → 2 * n ≤ charge_of n ≤ 2 * n + 126.
Proof.
  intros Hn. unfold charge_of, next_multiple_of. pose proof (Z.div_mod (n + 64 - 1) 64 ltac:(lia)).
  pose proof (Z.mod_pos_bound (n + 64 - 1) 64 ltac:(lia)). lia.
Qed.

Lemma event_cost_nonneg e : 0 ≤ event_cost e.
Proof.
  unfold event_cost. destruct (len e.2 =? 0); [done|]. pose proof (charge_bounds (len e.2)). unfold len in *. lia.
Qed.
Lemma cost_of_nonneg l : 0 ≤ cost_of l.
Proof. unfold cost_of. induction l as [|e l IH]; cbn [foldr]; [lia|]. pose proof (event_cost_nonneg e). lia. Qed.

(** Events are numbered from one, each with what the bodies so far cost. *)
Definition numbered (pub : list (ToEngine * Bytes)) : Prop :=
  ∀ i e, pub !! i = Some e →
    ev_seq e.1 = Z.of_nat i + 1 ∧ ev_charge e.1 = cost_of (take (S i) pub).

(** [pub] are the events published so far; the last ones wait in the queue. *)
Record flow (pub : list (ToEngine * Bytes)) (s : Server) : Prop := mk_flow {
  fl_queue : ∃ read, pub = read ++ sv_queue s ∧ sv_cursor s = (len read, cost_of read);
  fl_numbers : sv_seq s = len pub ∧ sv_charge s = cost_of pub ∧ numbered pub;
  fl_bounds : len (sv_queue s) ≤ sv_depth s ∧ cost_of (sv_queue s) ≤ sv_ring s;
  fl_headroom : ∀ pre e post, sv_queue s = pre ++ e :: post → ev_kind e.1 = KindMergeableBlock →
    len pre + 1 + CONTROL_HEADROOM.1 ≤ sv_depth s ∧ cost_of pre + event_cost e + CONTROL_HEADROOM.2 ≤ sv_ring s
}.

Lemma numbered_snoc pub e :
  numbered pub → ev_seq e.1 = len pub + 1 → ev_charge e.1 = cost_of pub + event_cost e → numbered (pub ++ [e]).
Proof.
  intros Hn H1 H2 i x [Hi|[Hi [H0 <-]%list_lookup_singleton_Some]]%lookup_app_Some.
  - destruct (Hn i x Hi) as [-> ->]. split; [done|].
    rewrite take_app_le; [done|]. by apply lookup_lt_Some in Hi.
  - assert (i = length pub) as -> by lia. split; [rewrite H1; unfold len; lia|].
    rewrite take_ge by (rewrite length_app; cbn; lia). rewrite H2, cost_of_app. unfold cost_of at 3. cbn [foldr]. lia.
Qed.

Definition published (o : list ServerOutput) : list (ToEngine * Bytes) :=
  omap (λ x, match x with SvPublish ev body => Some (ev, body) | _ => None end) o.

Lemma published_app o o' : published (o ++ o') = published o ++ published o'.
Proof. apply omap_app. Qed.

(** What publishing leaves as it was. *)
Definition same_sessions (s s' : Server) : Prop :=
  sv_sessions s' = sv_sessions s ∧ sv_active s' = sv_active s ∧ sv_generation s' = sv_generation s ∧
  sv_replies s' = sv_replies s ∧ sv_to_disconnect s' = sv_to_disconnect s ∧
  sv_depth s' = sv_depth s ∧ sv_ring s' = sv_ring s.

Section flow.
Context {LB : ServerLibs}.

Lemma engine_reads_spec pub s :
  flow pub s → wp engine_reads (λ _ s' o, flow pub s' ∧ same_sessions s s' ∧ sv_seq s' = sv_seq s ∧
    sv_charge s' = sv_charge s ∧ o = []) s.
Proof.
  intros HF. unfold engine_reads. wp_step. destruct (sv_reads s) as [|k ks]; [done|].
  split_and!; [|done..]. destruct HF as [(read & Hpub & Hcur) (Hseq & Hch & Hnum) [Hb1 Hb2] Hh].
  assert (sv_queue s = take k (sv_queue s) ++ drop k (sv_queue s)) as Hq by (by rewrite take_drop).
  split; rec_simpl.
  - exists (read ++ take k (sv_queue s)). rewrite <- app_assoc, take_drop. split; [done|].
    destruct (last (take k (sv_queue s))) as [[ev body]|] eqn:Hl.
    + assert (∃ l, take k (sv_queue s) = l ++ [(ev, body)]) as [l Hl'].
      { apply last_Some in Hl. done. }
      assert (pub !! (length read + length l)%nat = Some (ev, body)) as Hat.
      { rewrite Hpub, Hq, Hl', <- app_assoc, lookup_app_r by lia. replace (_ - _)%nat with (length l) by lia.
        by apply list_lookup_middle. }
      destruct (Hnum _ _ Hat) as [H1 H2]. cbn [fst] in H1, H2. rewrite H1, H2. f_equal.
      * unfold len. rewrite !length_app, Hl', length_app. cbn. lia.
      * f_equal. rewrite Hpub. replace (S (length read + length l)) with (length read + length (take k (sv_queue s)))%nat
          by (rewrite Hl', length_app; cbn; lia).
        rewrite take_app_add. f_equal. rewrite Hq at 2. apply take_app_length.
    + apply last_None in Hl. by rewrite Hl, app_nil_r.
  - done.
  - split.
    + unfold len in *. rewrite length_drop. lia.
    + rewrite Hq, cost_of_app in Hb2. pose proof (cost_of_nonneg (take k (sv_queue s))). lia.
  - intros pre e post Hd Hk. destruct (Hh (take k (sv_queue s) ++ pre) e post) as [H1 H2]; [|done|].
    + by rewrite <- app_assoc, <- Hd.
    + unfold len in *. rewrite length_app in H1. rewrite cost_of_app in H2.
      pose proof (cost_of_nonneg (take k (sv_queue s))). lia.
Qed.

Lemma flow_push pub s ev body :
  flow pub s → ev_seq ev = sv_seq s + 1 → ev_charge ev = sv_charge s + event_cost (ev, body) →
  len (sv_queue s) + 1 ≤ sv_depth s → cost_of (sv_queue s) + event_cost (ev, body) ≤ sv_ring s →
  (ev_kind ev = KindMergeableBlock →
     len (sv_queue s) + 1 + CONTROL_HEADROOM.1 ≤ sv_depth s ∧
     cost_of (sv_queue s) + event_cost (ev, body) + CONTROL_HEADROOM.2 ≤ sv_ring s) →
  flow (pub ++ [(ev, body)]) (s <| sv_queue ::= (λ q, q ++ [(ev, body)]) |> <| sv_seq := ev_seq ev |>
    <| sv_charge := ev_charge ev |>).
Proof.
  intros [(read & Hpub & Hcur) (Hseq & Hch & Hnum) [Hb1 Hb2] Hh] H1 H2 H3 H4 H5.
  assert (cost_of [(ev, body)] = event_cost (ev, body)) as Hone by (unfold cost_of; cbn [foldr]; lia).
  split; rec_simpl.
  - exists read. split; [|done]. by rewrite Hpub, <- app_assoc.
  - rewrite H1, H2, Hseq, Hch. split_and!.
    + unfold len. rewrite length_app. cbn. lia.
    + by rewrite cost_of_app, Hone.
    + apply numbered_snoc; [done|cbn; lia|cbn [fst]; lia].
  - unfold len in *. rewrite length_app, cost_of_app, Hone. cbn. lia.
  - intros pre e post Hq Hk. destruct post as [|x post _] using rev_ind.
    + apply app_inj_tail in Hq as [<- <-]. by apply H5.
    + rewrite app_comm_cons, app_assoc in Hq. apply app_inj_tail in Hq as [Hq _]. by eapply Hh.
Qed.

(** The three reasons not to publish. *)
Definition refused (s : Server) (body : Bytes) (headroom : Z * Z) : Prop :=
  sv_depth s < len (sv_queue s) + 1 + headroom.1 ∨
  sv_ring s < cost_of (sv_queue s) + (if len body =? 0 then 0 else charge_of (len body)) + headroom.2 ∨
  charge_of (len body) ≤ sv_ring s ∧ dcache_accepts (len body) (sv_ring s) = false.

Lemma send_spec pub now kind g slot body headroom s :
  flow pub s → 0 ≤ headroom.1 → 0 ≤ headroom.2 → (kind = KindMergeableBlock → headroom = CONTROL_HEADROOM) →
  wp (send now kind g slot body headroom) (λ r s' o,
    flow (pub ++ published o) s' ∧ same_sessions s s' ∧
    if r then ∃ ev, o = [SvPublish ev body] ∧ ev_kind ev = kind ∧ ev_generation ev = g
    else o = [] ∧ refused s' body headroom) s.
Proof.
  intros HF0 Hh1 Hh2 Hkind. unfold send. wp_step. eapply wp_mono; [by apply engine_reads_spec|].
  intros _ s1 o1 (HF & Hsame & _ & _ & ->). cbn [app]. wp_step. wp_step.
  pose proof HF as [(read & Hpub & Hcur) (Hseq & Hch & Hnum) [Hb1 Hb2] Hh]. rewrite Hcur. cbn [fst snd].
  assert (sv_seq s1 = len read + len (sv_queue s1)) as Es by (rewrite Hseq, Hpub; unfold len; rewrite length_app; lia).
  assert (sv_charge s1 = cost_of read + cost_of (sv_queue s1)) as Ec by (by rewrite Hch, Hpub, cost_of_app).
  rewrite Es, Ec. pose proof (cost_of_nonneg (sv_queue s1)). pose proof (cost_of_nonneg read).
  assert (0 ≤ len (sv_queue s1) ∧ 0 ≤ len read) as [? ?] by (unfold len; lia).
  destruct (Z.ltb_spec (len read + len (sv_queue s1)) (len read)); [lia|].
  destruct (Z.ltb_spec (cost_of read + cost_of (sv_queue s1)) (cost_of read)); [lia|]. cbn [orb].
  replace (len read + len (sv_queue s1) - len read) with (len (sv_queue s1)) by lia.
  replace (cost_of read + cost_of (sv_queue s1) - cost_of read) with (cost_of (sv_queue s1)) by lia.
  set (cost := if len body =? 0 then 0 else charge_of (len body)).
  assert (flow (pub ++ published []) s1) as HF1 by (cbn; by rewrite app_nil_r).
  destruct (Z.ltb_spec (sv_depth s1) (len (sv_queue s1) + 1 + headroom.1)); cbn [orb].
  { wp_step. split_and!; [done..|]. by left. }
  destruct (Z.ltb_spec (sv_ring s1) (cost_of (sv_queue s1) + cost + headroom.2)).
  { wp_step. split_and!; [done..|]. by right; left. }
  destruct (negb (len body =? 0) && negb _) eqn:Hd.
  { wp_step. split_and!; [done..|]. right. right.
    apply andb_true_iff in Hd as [Hd1%negb_true_iff Hd2%negb_true_iff]. split; [|done].
    unfold cost in *. rewrite Hd1 in *. lia. }
  wp_steps. rewrite app_nil_r. cbn [app published omap list_omap]. set (ev := mkToEngine _ _ _ _ _ _).
  split_and!; [|done|by exists ev].
  apply flow_push; [done|cbn; lia|unfold event_cost; cbn [ev_charge ev snd]; fold cost; lia|lia| |].
  - unfold event_cost. cbn [snd]. fold cost. lia.
  - cbn [ev_kind ev]. intros Hk. rewrite (Hkind Hk) in *. unfold event_cost. cbn [snd]. fold cost. lia.
Qed.
End flow.

(** ** Sessions and generations *)
Section sessions.
Context {MC : MergingCodec} {LB : ServerLibs} `{HO : HashOrder} (config : ServerConfig) (hist : list ServerOp) (depth ring : u64).
Abbreviation Srv := (Comp Server ServerOutput) (only parsing).

(** The connection sent a registration with a key of the allowlist and a range
    of versions that has the builder's; [zstd]: both sides compress. *)
Definition registered (t : Z) (zstd : bool) : Prop :=
  ∃ now payload header reg, OpNet now (SvMessage t payload) ∈ hist ∧
    header_decode payload = Ok header ∧ fh_msg_id header = IdMergerRegistrationV1 ∧
    registration_from_ssz (frame_body payload) = Some reg ∧
    api_key_allowed (sc_api_keys config) (be_bytes 16 (rg_api_key reg)) = true ∧
    rg_min_version reg ≤ MERGING_PROTOCOL_VERSION ≤ rg_max_version reg ∧
    zstd = rg_supports_zstd reg && sc_supports_zstd config.

(** The event a message is published as. *)
Definition event_of (id : MergingMsgId) (body : Bytes) (ev : ToEngine) (b : Bytes) : Prop :=
  match ev_kind ev with
  | KindRelayConfig => id = IdRelayConfigV1 ∧ b = body
  | KindSlotStart => id = IdSlotStartV1 ∧ b = body
  | KindSlotEnd => id = IdSlotEndV1 ∧ b = []
  | KindMergeableBlock => id = IdMergeableBlockV1 ∧ b = body
  | KindConnectionReset => False
  end.

Definition sent_by (t : Z) (ev : ToEngine) (b : Bytes) : Prop :=
  ∃ now payload header zstd body, OpNet now (SvMessage t payload) ∈ hist ∧
    header_decode payload = Ok header ∧ message_body config header zstd payload = Ok body ∧
    event_of (fh_msg_id header) body ev b.

(** Exactly the active connection has an active session. *)
Record sessions_ok (s : Server) : Prop := mk_sessions_ok {
  ss_states : ∀ t x, sv_sessions s !! t = Some x → (∃ z, se_state x = SessionActive z) ↔ sv_active s = Some t;
  ss_active : ∀ t, sv_active s = Some t → ∃ x, sv_sessions s !! t = Some x ∧ registered t (session_zstd x)
}.

(** Events of the current generation come from the active connection. *)
Definition sources (pub : list (ToEngine * Bytes)) (s : Server) : Prop :=
  ∀ ev b, (ev, b) ∈ pub → ev_generation ev = sv_generation s → ev_kind ev ≠ KindConnectionReset →
    ∃ t, sv_active s = Some t ∧ sent_by t ev b.

Definition generations (pub : list (ToEngine * Bytes)) (s : Server) : Prop :=
  Forall (λ e, ev_generation e.1 ≤ sv_generation s) pub ∧ sv_depth s = depth ∧ sv_ring s = ring.

(** [loose] leaves out where the events of the generation come from. *)
Definition loose (pub : list (ToEngine * Bytes)) (s : Server) : Prop :=
  flow pub s ∧ sessions_ok s ∧ generations pub s.
Definition server_inv (pub : list (ToEngine * Bytes)) (s : Server) : Prop := loose pub s ∧ sources pub s.

Definition srv_keeps {A} (J K : list (ToEngine * Bytes) → Server → Prop) (m : Srv A) : Prop :=
  ∀ pub s, J pub s → wp m (λ _ s' o, K (pub ++ published o) s') s.

Lemma srv_keeps_ret {A} (a : A) J : srv_keeps J J (mret a).
Proof. intros pub s HJ. wp_step. cbn. by rewrite app_nil_r. Qed.

Lemma srv_keeps_bind {A B} J K L (m : Srv A) (k : A → Srv B) :
  srv_keeps J K m → (∀ a, srv_keeps K L (k a)) → srv_keeps J L (m ≫= k).
Proof.
  intros Hm Hk pub s HJ. wp_step. eapply wp_mono; [by apply Hm|]. intros a s1 o1 HK.
  eapply wp_mono; [apply (Hk a _ s1 HK)|]. intros b s2 o2 HL. by rewrite published_app, app_assoc.
Qed.

Lemma srv_keeps_get {A} J K (k : Server → Srv A) :
  (∀ s, srv_keeps (λ pub s', s' = s ∧ J pub s') K (k s)) → srv_keeps J K (s ← get; k s).
Proof. intros Hk pub s HJ. wp_step. wp_step. by apply Hk. Qed.

Lemma srv_keeps_modify J K f : (∀ pub s, J pub s → K pub (f s)) → srv_keeps J K (modify f).
Proof. intros Hf pub s HJ. wp_step. cbn. rewrite app_nil_r. by apply Hf. Qed.

Lemma srv_keeps_emit J o : published o = [] → srv_keeps J J (emit o).
Proof. intros Ho pub s HJ. wp_step. by rewrite Ho, app_nil_r. Qed.

Lemma srv_keeps_weaken {A} (J J' K K' : list (ToEngine * Bytes) → Server → Prop) (m : Srv A) :
  srv_keeps J' K' m → (∀ pub s, J pub s → J' pub s) → (∀ pub s, K' pub s → K pub s) → srv_keeps J K m.
Proof. intros Hm HJ HK pub s H%HJ. eapply wp_mono; [by apply Hm|]. intros a s' o. apply HK. Qed.

Lemma srv_keeps_each {A} J (f : A → Srv unit) l : (∀ x, x ∈ l → srv_keeps J J (f x)) → srv_keeps J J (each f l).
Proof.
  induction l as [|x l IH]; intros Hf; cbn [each]; [apply srv_keeps_ret|].
  eapply srv_keeps_bind; [apply Hf; by left|]. intros _. apply IH. intros y Hy. apply Hf. by right.
Qed.

(** Changes of the rest of the state. *)
Lemma server_inv_frame pub s s' :
  server_inv pub s → sv_sessions s' = sv_sessions s → sv_active s' = sv_active s →
  sv_generation s' = sv_generation s → sv_queue s' = sv_queue s → sv_seq s' = sv_seq s →
  sv_charge s' = sv_charge s → sv_cursor s' = sv_cursor s → sv_depth s' = sv_depth s → sv_ring s' = sv_ring s →
  server_inv pub s'.
Proof.
  intros (([F1 F2 F3 F4] & [S1 S2] & G) & S) E1 E2 E3 E4 E5 E6 E7 E8 E9.
  split; [split_and!|]; [split|split|unfold generations|unfold sources];
    rewrite ?E1, ?E2, ?E3, ?E4, ?E5, ?E6, ?E7, ?E8, ?E9; done.
Qed.

Lemma srv_keeps_disconnect t : srv_keeps server_inv server_inv (disconnect t).
Proof. apply srv_keeps_modify. intros pub s HI. by eapply server_inv_frame. Qed.
Lemma srv_keeps_reply t r : srv_keeps server_inv server_inv (reply t r).
Proof. apply srv_keeps_modify. intros pub s HI. by eapply server_inv_frame. Qed.
Lemma srv_keeps_fatal t code : srv_keeps server_inv server_inv (fatal t code).
Proof. eapply srv_keeps_bind; [apply srv_keeps_reply|]. intros _. apply srv_keeps_disconnect. Qed.

(** A source for the events of a kind. *)
Definition source_of (kind : EventKind) (body : Bytes) (s : Server) : Prop :=
  kind ≠ KindConnectionReset → ∃ t, sv_active s = Some t ∧ ∀ ev, ev_kind ev = kind → sent_by t ev body.

Lemma srv_keeps_send now kind g slot body headroom :
  0 ≤ headroom.1 → 0 ≤ headroom.2 → (kind = KindMergeableBlock → headroom = CONTROL_HEADROOM) →
  srv_keeps (λ pub s, server_inv pub s ∧ g = sv_generation s ∧ source_of kind body s) server_inv
    (send now kind g slot body headroom).
Proof.
  intros H1 H2 H3 pub s (((HF & HS & HG) & Hsrc) & -> & Hof).
  eapply wp_mono; [by apply (send_spec pub)|]. intros r s' o (HF' & (E1 & E2 & E3 & _ & _ & E8 & E9) & Hr).
  destruct HS as [HS1 HS2]. split; [split_and!; [done|split; by rewrite ?E1, ?E2|]|].
  - unfold generations. rewrite E3, E8, E9. destruct HG as [HG HA]. split; [|done].
    destruct r; [|destruct Hr as [-> _]; cbn; by rewrite app_nil_r].
    destruct Hr as (ev & -> & _ & Hg). apply Forall_app. split; [done|]. cbn. apply Forall_singleton. cbn. lia.
  - intros ev b. rewrite E2, E3. destruct r; [|destruct Hr as [-> _]; cbn; rewrite app_nil_r; apply Hsrc].
    destruct Hr as (ev0 & -> & Hk & Hg). cbn. intros [Hin|[= -> ->]%list_elem_of_singleton]%elem_of_app Hgen Hnr.
    + by apply Hsrc.
    + destruct Hof as (t & Ht & Hall); [congruence|]. exists t. split; [done|]. by apply Hall.
Qed.

Lemma srv_keeps_send_control now kind g slot body :
  kind ≠ KindMergeableBlock →
  srv_keeps (λ pub s, server_inv pub s ∧ g = sv_generation s ∧ source_of kind body s) server_inv
    (send_control now kind g slot body).
Proof.
  intros Hk. eapply srv_keeps_bind; [by apply srv_keeps_send|]. intros []; [apply srv_keeps_ret|by apply srv_keeps_emit].
Qed.

Lemma srv_keeps_next_generation now : srv_keeps loose server_inv (next_generation now).
Proof.
  eapply (srv_keeps_bind _ server_inv).
  { apply srv_keeps_modify. intros pub s (HF & [HS1 HS2] & HG & HA). split; [split_and!; [by destruct HF; split|by split|]|].
    - split; [|done]. eapply Forall_impl; [exact HG|]. intros e He. rec_simpl. lia.
    - intros ev b Hin Hg. rec_simpl. pose proof (proj1 (Forall_forall _ _) HG _ Hin) as Hle. cbn in Hg, Hle. lia. }
  intros _. apply srv_keeps_get. intros s0. eapply srv_keeps_weaken; [by apply srv_keeps_send_control| |done].
  intros pub s [-> HI]. split; [done|]. split; [done|]. by intros [].
Qed.

Lemma srv_keeps_lose_active now t : srv_keeps server_inv server_inv (lose_active now t).
Proof.
  intros pub s HI. unfold lose_active. wp_step. wp_step. wp_step. wp_step. rec_simpl.
  pose proof HI as ((HF & [HS1 HS2] & HG) & Hsrc). case_bool_decide as Ht.
  - wp_step. wp_step. apply srv_keeps_next_generation. split_and!; [by destruct HF; split|split; rec_simpl|done].
    + intros t' x [Hne Hx]%lookup_delete_Some. rewrite (HS1 t' x Hx), Ht. split; congruence.
    + done.
  - wp_step. cbn. rewrite app_nil_r. split; [split_and!; [by destruct HF; split|split; rec_simpl|done]|done].
    + intros t' x [Hne Hx]%lookup_delete_Some. by apply HS1.
    + intros t' Ht'. destruct (HS2 t' Ht') as (x & ? & ?). exists x. rewrite lookup_delete_ne by congruence. done.
Qed.

(** ** Messages *)

Definition awaiting (t : Z) (pub : list (ToEngine * Bytes)) (s : Server) : Prop :=
  server_inv pub s ∧ ∃ x d, sv_sessions s !! t = Some x ∧ se_state x = AwaitingRegistration d.

Lemma negotiate_some lo hi v :
  negotiate_version lo hi = Some v → v = MERGING_PROTOCOL_VERSION ∧ lo ≤ MERGING_PROTOCOL_VERSION ≤ hi.
Proof. unfold negotiate_version. destruct (_ && _) eqn:E; [|done]. intros [= <-]. split; [done|lia]. Qed.

Lemma srv_keeps_handle_registration now t payload :
  OpNet now (SvMessage t payload) ∈ hist →
  srv_keeps (awaiting t) server_inv (handle_registration config now t payload).
Proof.
  intros Hin. unfold handle_registration.
  assert (∀ r, srv_keeps (awaiting t) server_inv (disconnect t ;; mret (r : option Reply))) as Hrej.
  { intros r. eapply srv_keeps_bind; [|intros _; apply srv_keeps_ret]. eapply srv_keeps_weaken; [apply srv_keeps_disconnect|by intros pub s []|done]. }
  destruct (header_decode payload) as [header|] eqn:Hh; [|apply Hrej].
  destruct (bool_decide (fh_msg_id header = IdMergerRegistrationV1)) eqn:Hid; cbn [negb orb]; [|apply Hrej].
  destruct (is_zstd_compressed header); [apply Hrej|]. apply bool_decide_eq_true in Hid.
  destruct (registration_from_ssz (frame_body payload)) as [reg|] eqn:Hreg; [|apply Hrej].
  destruct (api_key_allowed _ _) eqn:Hkey; cbn [negb]; [|apply Hrej].
  destruct (negotiate_version _ _) as [v|] eqn:Hv; [|apply Hrej]. apply negotiate_some in Hv as [-> Hv].
  intros pub s (HI & x & d & Hx & Hd). pose proof HI as ((HF & [HS1 HS2] & HG) & Hsrc).
  assert (sv_active s ≠ Some t) as Hna.
  { intros Ha. apply (HS1 t x Hx) in Ha as [z Hz]. congruence. }
  wp_step. wp_step. wp_step. wp_step. set (z := _ && _). wp_step.
  assert (registered t z) as Hrg by (by exists now, payload, header, reg).
  apply (wp_mono _ (λ _ s' o, loose pub s' ∧ o = [])).
  2:{ intros _ s1 o1 [HL ->]. wp_step. eapply wp_mono; [by apply srv_keeps_next_generation|].
      intros [] s2 o2 HI2. wp_step. by rewrite ?app_nil_r. }
  assert (∀ t' y z', alter (λ x : Session, x <| se_state := SessionActive z' |>) t (sv_sessions s) !! t' = Some y →
    (∃ z, se_state y = SessionActive z) ↔ t' = t ∨ sv_active s = Some t') as Hst.
  { intros t' y z' [(-> & y0 & Hy & ->)|[Hne Hy]]%lookup_alter_Some; [split; [by left|by eexists]|].
    rewrite (HS1 t' y Hy). naive_solver. }
  assert (alter (λ x : Session, x <| se_state := SessionActive z |>) t (sv_sessions s) !! t = Some (x <| se_state := SessionActive z |>))
    as Hsome by (by rewrite lookup_alter_eq, Hx).
  destruct (sv_active s) as [o|] eqn:Ho.
  - destruct (Z.eqb_spec o t) as [->|Hne]; [done|]. wp_steps. split; [|done].
    split_and!; [by destruct HF; split| |done]. split; rec_simpl.
    + intros t' y [Hne' Hy]%lookup_delete_Some. rewrite (Hst t' y z Hy). naive_solver.
    + intros t' [= <-]. rewrite lookup_delete_ne by done. by eexists.
  - wp_steps. split; [|done]. split_and!; [by destruct HF; split| |done]. split; rec_simpl.
    + intros t' y Hy. rewrite (Hst t' y z Hy). naive_solver.
    + intros t' [= <-]. by eexists.
Qed.

Definition active_with (t : Z) (g : u64) (pub : list (ToEngine * Bytes)) (s : Server) : Prop :=
  server_inv pub s ∧ sv_active s = Some t ∧ g = sv_generation s.

Lemma srv_keeps_handle_active now t payload zstd g :
  OpNet now (SvMessage t payload) ∈ hist →
  srv_keeps (active_with t g) server_inv (handle_active_message config now t payload zstd g).
Proof.
  intros Hin. unfold handle_active_message.
  assert (∀ {A} (m : Srv A), srv_keeps server_inv server_inv m → srv_keeps (active_with t g) server_inv m) as Hw.
  { intros A m Hm. eapply srv_keeps_weaken; [exact Hm|by intros pub s []|done]. }
  destruct (header_decode payload) as [header|[]] eqn:Hh; [|by apply Hw, srv_keeps_fatal|by apply Hw, srv_keeps_fatal|by apply Hw, srv_keeps_ret].
  destruct (message_body config header zstd payload) as [body|] eqn:Hb; [|by apply Hw, srv_keeps_fatal].
  assert (∀ kind b pub s, active_with t g pub s →
    (∀ ev, ev_kind ev = kind → event_of (fh_msg_id header) body ev b) →
    server_inv pub s ∧ g = sv_generation s ∧ source_of kind b s) as Hsrc.
  { intros kind b pub s (HI & Ha & Hg) Hev. split_and!; [done..|]. intros _. exists t. split; [done|].
    intros ev Hk. exists now, payload, header, zstd, body. split_and!; [done..|]. by apply Hev. }
  destruct (fh_msg_id header) eqn:Hid; try (by apply Hw, srv_keeps_fatal); try (by apply Hw, srv_keeps_ret).
  - destruct (ping_from_ssz body); [apply Hw, srv_keeps_reply|by apply Hw, srv_keeps_ret].
  - destruct (relay_config_from_ssz body) as [c|]; [|by apply Hw, srv_keeps_fatal].
    destruct (is_ok _); [|by apply Hw, srv_keeps_fatal].
    eapply srv_keeps_weaken; [by apply srv_keeps_send_control| |done]. intros pub s HA. apply Hsrc; [done|].
    intros ev Hk. unfold event_of. by rewrite Hk.
  - destruct (slot_start_from_ssz body) as [m|]; [|by apply Hw, srv_keeps_fatal].
    eapply srv_keeps_weaken; [by apply srv_keeps_send_control| |done]. intros pub s HA. apply Hsrc; [done|].
    intros ev Hk. unfold event_of. by rewrite Hk.
  - unfold handle_block. destruct (_ <? _); [apply Hw, srv_keeps_reply|].
    eapply (srv_keeps_bind _ server_inv); [|intros []; [apply srv_keeps_ret|apply srv_keeps_reply]].
    eapply srv_keeps_weaken; [by apply srv_keeps_send| |done]. intros pub s HA. apply Hsrc; [done|].
    intros ev Hk. unfold event_of. by rewrite Hk.
  - destruct (slot_end_from_ssz body) as [slot|]; [|by apply Hw, srv_keeps_fatal].
    eapply srv_keeps_weaken; [by apply srv_keeps_send_control| |done]. intros pub s HA. apply Hsrc; [done|].
    intros ev Hk. unfold event_of. by rewrite Hk.
Qed.

(** ** Operations *)

Lemma server_inv_session pub s t x y :
  server_inv pub s → sv_sessions s !! t = Some x → se_state y = se_state x →
  server_inv pub (s <| sv_sessions ::= <[t := y]> |>).
Proof.
  intros ((HF & [HS1 HS2] & HG) & Hsrc) Hx Hy. split; [|done]. split_and!; [by destruct HF; split| |done].
  split; rec_simpl.
  - intros t' z [[-> ->]|[Hne Hz]]%lookup_insert_Some; [rewrite Hy; by apply HS1|by apply HS1].
  - intros t' Ht'. destruct (HS2 t' Ht') as (x' & Hx' & Hr). destruct (decide (t = t')) as [<-|?].
    + exists y. rewrite lookup_insert_eq. split; [done|]. unfold session_zstd. rewrite Hy. by simplify_eq.
    + exists x'. by rewrite lookup_insert_ne.
Qed.

(** A new connection has a token of its own, and the engine's merged blocks
    reach past the response's number. *)
Definition op_ok (s : Server) (op : ServerOp) : Prop :=
  match op with
  | OpNet _ (SvAccepted t) => sv_sessions s !! t = None
  | OpOutput OutputMerged _ body => 12 ≤ len body
  | _ => True
  end.

Lemma srv_keeps_flush now : srv_keeps server_inv server_inv (flush_reactions now).
Proof.
  unfold flush_reactions. apply srv_keeps_get. intros s0. eapply (srv_keeps_bind _ server_inv).
  { apply srv_keeps_modify. intros pub s [-> HI]. by eapply server_inv_frame. }
  intros _. eapply srv_keeps_bind.
  { apply srv_keeps_emit. induction (sv_replies s0) as [|[t r] l IH]; [done|exact IH]. }
  intros _. apply srv_keeps_get. intros s1. eapply (srv_keeps_bind _ server_inv).
  { apply srv_keeps_modify. intros pub s [-> HI]. by eapply server_inv_frame. }
  intros _. apply srv_keeps_each. intros t _. eapply srv_keeps_bind; [by apply srv_keeps_emit|]. intros _. apply srv_keeps_lose_active.
Qed.

Lemma srv_keeps_on_event now ev s :
  OpNet now ev ∈ hist → op_ok s (OpNet now ev) →
  srv_keeps (λ pub s', s' = s ∧ server_inv pub s') server_inv (on_event config now ev).
Proof.
  intros Hin Hok. destruct ev as [t|t|t|t payload]; cbn [on_event].
  - apply srv_keeps_modify. intros pub s' [-> ((HF & [HS1 HS2] & HG) & Hsrc)]. cbn in Hok. split; [|done].
    assert (sv_active s ≠ Some t) as Hna by (intros (x & Hx & _)%HS2; congruence).
    split_and!; [by destruct HF; split| |done]. split; rec_simpl.
    + intros t' z [[<- <-]|[Hne Hz]]%lookup_insert_Some; [|by apply HS1]. split; [by intros []|done].
    + intros t' Ht'. destruct (HS2 t' Ht') as (x & ? & ?). exists x. rewrite lookup_insert_ne by congruence. done.
  - eapply srv_keeps_weaken; [by apply srv_keeps_ret|by intros pub s' []|done].
  - eapply srv_keeps_weaken; [by apply srv_keeps_lose_active|by intros pub s' []|done].
  - intros pub s' [-> HI]. wp_step. wp_step. destruct (sv_sessions s !! t) as [x|] eqn:Hx; [|by apply srv_keeps_disconnect].
    set (s1 := s <| sv_sessions ::= <[t := x <| se_last_recv := now |>]> |>).
    assert (server_inv pub s1) as HI1 by (by eapply server_inv_session).
    assert (sv_sessions s1 !! t = Some (x <| se_last_recv := now |>)) as Hx1 by (unfold s1; rec_simpl; apply lookup_insert_eq).
    wp_step. wp_step. change (sv_generation s) with (sv_generation s1). destruct (se_state x) as [d|z] eqn:Hst.
    + eapply (srv_keeps_bind (awaiting t) server_inv); [by apply srv_keeps_handle_registration| |].
      * intros [r|]; [apply srv_keeps_reply|apply srv_keeps_ret].
      * split; [done|]. by exists (x <| se_last_recv := now |>), d.
    + apply srv_keeps_handle_active; [done|]. split_and!; [done| |done]. destruct HI1 as ((_ & [HS1 _] & _) & _).
      apply (HS1 t _ Hx1). by exists z.
Qed.

Lemma srv_keeps_tick now : srv_keeps server_inv server_inv (tick_timers config now).
Proof.
  unfold tick_timers. apply srv_keeps_get. intros s0. eapply (srv_keeps_bind _ server_inv).
  { eapply srv_keeps_weaken; [|by intros pub s [_ HI]; exact HI|by intros pub s HI; exact HI].
    destruct (sv_active s0); [|apply srv_keeps_ret]. case_bool_decide; [|apply srv_keeps_ret].
    eapply (srv_keeps_bind _ server_inv).
    { apply srv_keeps_modify. intros pub s HI. by eapply server_inv_frame. }
    intros _. apply srv_keeps_get. intros s1. eapply srv_keeps_weaken; [by apply srv_keeps_emit|by intros pub s [_ HI]; exact HI|done]. }
  intros _. apply srv_keeps_get. intros s1. eapply (srv_keeps_bind _ server_inv); [|intros _; apply srv_keeps_flush].
  eapply srv_keeps_weaken; [|by intros pub s [_ HI]; exact HI|by intros pub s HI; exact HI].
  apply srv_keeps_each. intros t _. apply srv_keeps_disconnect.
Qed.

Lemma stamp_total id body : 12 ≤ len body → is_Some (stamp_response_id id body).
Proof. intros H. unfold stamp_response_id. rewrite (proj2 (Z.leb_le _ _)) by done. by eexists. Qed.

(** What is sent of an engine's output. *)
Lemma send_output_spec kind g body s pub :
  server_inv pub s → op_ok s (OpOutput kind g body) →
  wp (send_output kind g body) (λ _ s' o, server_inv (pub ++ published o) s' ∧
    ∀ t f, SvFrame t f ∈ o → g = sv_generation s ∧ sv_active s = Some t) s.
Proof.
  intros HI Hok. unfold send_output. wp_step. wp_step.
  assert (wp (mret tt) (λ (_ : unit) s' o, server_inv (pub ++ published o) s' ∧
    ∀ t f, SvFrame t f ∈ o → g = sv_generation s ∧ sv_active s = Some t) s) as Hskip.
  { wp_step. cbn. rewrite app_nil_r. split; [done|]. by intros t f ?%elem_of_nil. }
  destruct (Z.eqb_spec g (sv_generation s)) as [->|]; cbn [negb]; [|exact Hskip].
  destruct (sv_active s) as [t|] eqn:Ha; [|exact Hskip]. destruct (sv_sessions s !! t) as [x|] eqn:Hx; [|exact Hskip].
  destruct kind.
  - cbn [next_response_id]. destruct (stamp_total (se_response_id x) body Hok) as [b ->]. wp_step. wp_step. wp_step.
    cbn [published omap list_omap app]. rewrite app_nil_r. split; [by eapply server_inv_session|].
    by intros t' f [= -> _]%list_elem_of_singleton.
  - wp_step. cbn [published omap list_omap]. rewrite app_nil_r. split; [done|].
    by intros t' f [= -> _]%list_elem_of_singleton.
Qed.

Lemma server_op_spec op s pub :
  server_inv pub s → op ∈ hist → op_ok s op →
  wp (server_op config op) (λ _ s' o, server_inv (pub ++ published o) s') s.
Proof.
  intros HI Hin Hok. destruct op as [now ev|now|now|kind g body]; cbn [server_op].
  - by apply (srv_keeps_on_event now ev s).
  - by apply srv_keeps_flush.
  - by apply srv_keeps_tick.
  - eapply wp_mono; [by apply send_output_spec|]. by intros _ s' o [? _].
Qed.
End sessions.

(** ** Keys *)

Lemma key_diff_zero a b : length a = length b → key_diff a b = 0 ↔ a = b.
Proof.
  assert (∀ l d, foldl (λ diff '(x, y), Z.lor diff (Z.lxor x y)) d l = 0 ↔ d = 0 ∧ Forall (λ e : Z * Z, e.1 = e.2) l) as Hfold.
  { induction l as [|[x y] l IH]; intros d; cbn [foldl]; [by split; [|intros [? _]]|].
    rewrite IH, Z.lor_eq_0_iff, Z.lxor_eq_0_iff, Forall_cons. cbn. tauto. }
  intros Hl. unfold key_diff. rewrite Hfold. revert b Hl. induction a as [|x a IH]; intros [|y b] Hl; try done.
  cbn in *. rewrite Forall_cons. specialize (IH b ltac:(lia)). cbn. naive_solver.
Qed.

Lemma api_key_allowed_spec keys candidate :
  Forall (λ k, length k = length candidate) keys → api_key_allowed keys candidate = true ↔ candidate ∈ keys.
Proof.
  unfold api_key_allowed. intros Hk. assert (∀ b, foldl (λ allowed key, allowed || (key_diff key candidate =? 0)) b keys = true ↔
    b = true ∨ candidate ∈ keys) as H; [|rewrite H; naive_solver].
  induction Hk as [|k keys Hk _ IH]; intros b; cbn [foldl]; [rewrite elem_of_nil; tauto|].
  rewrite IH, elem_of_cons, orb_true_iff, Z.eqb_eq, (key_diff_zero k candidate Hk). naive_solver.
Qed.

(** ** Theorems *)
Section theorems.
Context {MC : MergingCodec} {LB : ServerLibs} `{HO : HashOrder} (config : ServerConfig) (depth ring : u64).

(** Histories of the server: what was done, what was published and the state. *)
Inductive reach : list ServerOp → list (ToEngine * Bytes) → Server → Prop :=
| reach_new : reach [] [] (server_new depth ring)
| reach_step hist pub s reads op s' o :
    reach hist pub s → op_ok s op → server_op config op (s <| sv_reads := reads |>) = Some (tt, s', o) →
    reach (hist ++ [op]) (pub ++ published o) s'.

Lemma server_inv_mono hist op pub s : server_inv config hist depth ring pub s → server_inv config (hist ++ [op]) depth ring pub s.
Proof.
  intros ((HF & [HS1 HS2] & HG) & Hsrc). split; [split_and!; [done|split; [done|]|done]|].
  - intros t Ht. destruct (HS2 t Ht) as (x & Hx & now & p & h & r & Hin & ?). exists x. split; [done|].
    exists now, p, h, r. split; [set_solver|done].
  - intros ev b Hin Hg Hk. destruct (Hsrc ev b Hin Hg Hk) as (t & Ht & now & p & h & z & body & Hm & ?). exists t.
    split; [done|]. exists now, p, h, z, body. split; [set_solver|done].
Qed.

Lemma server_inv_reads hist pub s reads :
  server_inv config hist depth ring pub s → server_inv config hist depth ring pub (s <| sv_reads := reads |>).
Proof. intros HI. by eapply server_inv_frame. Qed.

Lemma server_inv_new : 0 ≤ depth → 0 ≤ ring → server_inv config [] depth ring [] (server_new depth ring).
Proof.
  intros Hd Hr. split; [split_and!|].
  - split; cbn.
    + by exists [].
    + split_and!; [done..|]. intros i e. by rewrite lookup_nil.
    + unfold len, cost_of. cbn. lia.
    + intros pre e post Hq. by destruct pre.
  - split; cbn; [|done]. intros t x. by rewrite lookup_empty.
  - split; [constructor|done].
  - by intros ev b ?%elem_of_nil.
Qed.

Lemma reach_inv hist pub s : 0 ≤ depth → 0 ≤ ring → reach hist pub s → server_inv config hist depth ring pub s.
Proof.
  intros Hd Hr. induction 1 as [|hist pub s reads op s' o _ IH Hok Hrun]; [by apply server_inv_new|].
  pose proof (server_op_spec config (hist ++ [op]) depth ring op (s <| sv_reads := reads |>) pub) as H.
  unfold wp in H. rewrite Hrun in H. apply H; [by apply server_inv_reads, server_inv_mono|set_solver|].
  by destruct op as [? []| | |].
Qed.

(** C30: The server never panics and never overruns the engine: whatever the
    relays send and however far the engine gets, what is published is what the
    engine has read followed by what waits in the queue, every event carries
    its number and the bytes charged so far, and the events and bytes in flight
    fit the queue and its ring. *)
Theorem engine_queue_bounded hist pub s reads op :
  0 ≤ depth → 0 ≤ ring → reach hist pub s → op_ok s op →
  (∃ read, pub = read ++ sv_queue s ∧ sv_cursor s = (len read, cost_of read)) ∧ numbered pub ∧
  len (sv_queue s) ≤ depth ∧ cost_of (sv_queue s) ≤ ring ∧
  ∃ s' o, server_op config op (s <| sv_reads := reads |>) = Some (tt, s', o).
Proof.
  intros Hd Hr Hreach%reach_inv Hok; [|done..]. pose proof Hreach as (([Hq (_ & _ & Hn) [Hb1 Hb2] _] & _ & _ & Hsd & Hsr) & _).
  rewrite Hsd in Hb1. rewrite Hsr in Hb2.
  split_and!; [done..|]. pose proof (server_op_spec config (hist ++ [op]) depth ring op (s <| sv_reads := reads |>) pub) as H.
  unfold wp in H. destruct (server_op config op _) as [[[[] s'] o]|]; [by exists s', o|]. destruct H.
  - by apply server_inv_reads, server_inv_mono.
  - set_solver.
  - by destruct op as [? []| | |].
Qed.

(** Control events get through while blocks are refused: one is dropped
    only when sixteen events, or events whose bodies are charged a mebibyte
    less its own charge, already wait behind every block in the queue. *)
Theorem control_events_fit hist pub s now kind g slot body s' o :
  0 ≤ depth → 0 ≤ ring → (∀ n cap, n ≤ cap → dcache_accepts n cap = true) →
  reach hist pub s → kind ≠ KindMergeableBlock →
  send_control now kind g slot body s = Some (tt, s', o) → SvDropped kind ∈ o →
  ∀ pre e post, sv_queue s' = pre ++ e :: post → ev_kind e.1 = KindMergeableBlock →
    CONTROL_HEADROOM.1 ≤ len post ∨
    CONTROL_HEADROOM.2 < cost_of post + (if len body =? 0 then 0 else charge_of (len body)).
Proof.
  intros Hd Hr Hdc Hreach%reach_inv Hk Hrun Hdrop pre e post Hq He; [|done..].
  destruct Hreach as ((HF & _) & _).
  pose proof (send_spec pub now kind g slot body (0, 0) s HF ltac:(done) ltac:(done) ltac:(done)) as Hspec.
  unfold send_control, mbind, comp_bind in Hrun. unfold wp in Hspec.
  destruct (send now kind g slot body (0, 0) s) as [[[b s1] o1]|]; [|done].
  destruct Hspec as (HF1 & _ & Hres). destruct b; unfold mret, comp_ret, emit in Hrun; injection Hrun as <- <-.
  { destruct Hres as (ev & -> & _). rewrite app_nil_r in Hdrop. by apply list_elem_of_singleton in Hdrop. }
  destruct Hres as [-> Href]. destruct HF1 as [_ _ _ Hhead]. destruct (Hhead pre e post Hq He) as [Hh1 Hh2].
  unfold refused in Href. rewrite Hq in Href. unfold len in Href at 1. rewrite length_app, cost_of_app in Href.
  change (cost_of (e :: post)) with (event_cost e + cost_of post) in Href. cbn [length fst snd] in Href.
  unfold CONTROL_HEADROOM, len in *. cbn [fst snd] in *.
  destruct Href as [?|[?|[Hc Ha]]]; [left; lia|right; lia|].
  rewrite Hdc in Ha; [done|]. pose proof (charge_bounds (Z.of_nat (length body))). lia.
Qed.

End theorems.

(** ** Examples *)

(** The operations of a connection after it was accepted. *)
Section exec.
Context {MC : MergingCodec} {LB : ServerLibs} `{HO : HashOrder} (config : ServerConfig) (depth ring : u64).

Fixpoint exec (ops : list ServerOp) (s : Server) : option (list (ToEngine * Bytes) * Server) :=
  match ops with
  | [] => Some ([], s)
  | op :: ops =>
      '(_, s, o) ← server_op config op (s <| sv_reads := [] |>);
      '(pub, s) ← exec ops s; Some (published o ++ pub, s)
  end.

Lemma exec_reach ops : ∀ hist pub s pub' s',
  reach config depth ring hist pub s → Forall (λ op, ∀ s, op_ok s op) ops → exec ops s = Some (pub', s') →
  reach config depth ring (hist ++ ops) (pub ++ pub') s'.
Proof.
  induction ops as [|op ops IH]; intros hist pub s pub' s' Hr Hops; cbn [exec].
  { intros [= <- <-]. by rewrite !app_nil_r. }
  inversion Hops; subst. intros ([[[] s1] o] & Hop & H)%bind_Some. apply bind_Some in H as ([pub1 s2] & Hx & [= <- <-]).
  rewrite (app_assoc pub), (app_assoc hist [op] ops : hist ++ op :: ops = _). eapply IH; [|done..].
  by eapply reach_step.
Qed.

Lemma accepted_reach now t :
  reach config depth ring [OpNet now (SvAccepted t)] []
    ((server_new depth ring) <| sv_sessions := {[t := session_awaiting now (sc_handshake_timeout config)]} |>).
Proof. by apply (reach_step config depth ring [] [] (server_new depth ring) [] (OpNet now (SvAccepted t)) _ []); [constructor|..]. Qed.
End exec.

Definition ex_server_libs : ServerLibs := {|
  zstd_compress := λ _, None; zstd_decompress := λ _ _, None; dcache_accepts := λ n cap, n <=? cap |}.
Definition ex_server_codec : MergingCodec := {|
  registration_from_ssz := λ _, Some (mkMergerRegistrationV1 7 [] 6 6 false);
  ack_from_ssz := λ _, None; ping_from_ssz := λ _, None; relay_config_from_ssz := λ _, None;
  slot_start_from_ssz := λ _, None; slot_end_from_ssz := λ _, Some 5; mergeable_from_ssz := λ _, None;
  merged_from_ssz := λ _, None; reject_from_ssz := λ _, None; mergeable_to_ssz := λ _, [] |}.
Definition ex_server_config : ServerConfig := mkServerConfig [be_bytes 16 7] 10 100000 false 1000 1000.

(** Connection 3 registers and sends a block, then the ends of slots. *)
Definition ex_message (id : MergingMsgId) (body : Bytes) : ServerOp :=
  OpNet 4 (SvMessage 3 (append_encoded (header_new id) ++ body)).
Definition ex_server_ops (n : nat) : list ServerOp :=
  [ex_message IdMergerRegistrationV1 []; OpFlush 5; ex_message IdMergeableBlockV1 (replicate 20 1)] ++
  replicate n (ex_message IdSlotEndV1 []).

Local Abbreviation ex_exec n := (exec (MC := ex_server_codec) (LB := ex_server_libs) (HO := list_order) ex_server_config (ex_server_ops n)
  ((server_new 18 (2 ^ 21)) <| sv_sessions := {[3 := session_awaiting 1 1000]} |>)) (only parsing).

Lemma ex_server_reach n pub s :
  ex_exec n = Some (pub, s) →
  reach (MC := ex_server_codec) (LB := ex_server_libs) (HO := list_order) ex_server_config 18 (2 ^ 21)
    (OpNet 1 (SvAccepted 3) :: ex_server_ops n) pub s.
Proof.
  intros Hx. apply (exec_reach (HO := list_order) _ _ _ _ [OpNet 1 (SvAccepted 3)] [] _ pub s (accepted_reach _ _ _ 1 3)); [|exact Hx].
  unfold ex_server_ops. apply Forall_app. split; [by repeat constructor|]. by apply Forall_replicate.
Qed.

Lemma engine_queue_bounded_witness :
  ∃ pub s, ex_exec 2 = Some (pub, s) ∧ (length (sv_queue s) = 4)%nat ∧ cost_of (sv_queue s) = 128 ∧
    len (sv_queue s) ≤ 18 ∧ cost_of (sv_queue s) ≤ 2 ^ 21 ∧ numbered pub.
Proof.
  destruct (ex_exec 2) as [[pub s]|] eqn:Hx; [|vm_compute in Hx; discriminate].
  destruct (engine_queue_bounded (MC := ex_server_codec) (LB := ex_server_libs) (HO := list_order) ex_server_config
    18 (2 ^ 21) (OpNet 1 (SvAccepted 3) :: ex_server_ops 2) pub s [] (OpFlush 6)) as (_ & Hn & H1 & H2 & _);
    [lia|lia|by apply ex_server_reach|done|].
  vm_compute in Hx. injection Hx as <- <-. eexists _, _. split; [reflexivity|].
  split_and!; [reflexivity|reflexivity|exact H1|exact H2|exact Hn].
Defined.

Lemma control_events_fit_witness :
  ∃ pub s s' o pre e post, ex_exec 16 = Some (pub, s) ∧
    send_control (LB := ex_server_libs) 9 KindSlotEnd 1 5 [] s = Some (tt, s', o) ∧ SvDropped KindSlotEnd ∈ o ∧
    sv_queue s' = pre ++ e :: post ∧ ev_kind e.1 = KindMergeableBlock ∧
    (CONTROL_HEADROOM.1 ≤ len post ∨ CONTROL_HEADROOM.2 < cost_of post + 0).
Proof.
  destruct (ex_exec 16) as [[pub s]|] eqn:Hx; [|vm_compute in Hx; discriminate].
  pose proof (ex_server_reach 16 pub s Hx) as Hr. vm_compute in Hx. injection Hx as <- <-.
  eexists _, _, _, _, [_], _, _. split; [reflexivity|]. split; [vm_compute; reflexivity|].
  split; [apply list_elem_of_singleton; reflexivity|]. split; [reflexivity|]. split; [reflexivity|].
  refine (control_events_fit (MC := ex_server_codec) (LB := ex_server_libs) (HO := list_order) ex_server_config 18 (2 ^ 21)
    _ _ _ 9 KindSlotEnd 1 5 [] _ _ _ _ _ Hr _ _ _ [_] _ _ _ _); try lia; try reflexivity; try discriminate.
  - intros n cap Hle. cbn. lia.
  - apply list_elem_of_singleton. reflexivity.
Defined.
