(* ===== verification/MergeResponses.v ===== *)
(** * Responses of the merging server

    Where [MergingServerTile] of [crates/builder/src/server/mod.rs] sends what the
    merge engine publishes, how the frame is compressed and which response number
    a merged block carries ([Session::next_response_id] of [session.rs]). *)

From S2P Require Import Prelude Types Submission Rlp MergeTrie MergeOrders MergeWire MergeServer.

Create HintDb quiet discriminated.

(** ** Histories with their outputs *)
Section trace.
Context {MC : MergingCodec} {LB : ServerLibs} `{HO : HashOrder} (config : ServerConfig) (depth ring : u64).
Abbreviation Srv := (Comp Server ServerOutput) (only parsing).

Inductive traced : list (ServerOp * list ServerOutput) → Server → Prop :=
| traced_new : traced [] (server_new depth ring)
| traced_step l s reads op s' o :
    traced l s → op_ok s op → server_op config op (s <| sv_reads := reads |>) = Some (tt, s', o) →
    traced (l ++ [(op, o)]) s'.

Lemma traced_reach l s : traced l s → reach config depth ring l.*1 (published (concat l.*2)) s.
Proof.
  induction 1 as [|l s reads op s' o _ IH Hok Hrun]; [constructor|].
  rewrite !fmap_app. cbn. rewrite concat_app, published_app. cbn. rewrite app_nil_r. by eapply reach_step.
Qed.

(** The frames to a connection among some outputs. *)
Definition frames_to (t : Z) (o : list ServerOutput) : list Bytes :=
  omap (λ x, match x with SvFrame t' f => if t' =? t then Some f else None | _ => None end) o.

(** The frames of merged blocks sent on a connection since it was accepted. *)
Definition merged_step (t : Z) (acc : list Bytes) (e : ServerOp * list ServerOutput) : list Bytes :=
  match e.1 with
  | OpNet _ (SvAccepted t') => if t' =? t then [] else acc
  | OpOutput OutputMerged _ _ => acc ++ frames_to t e.2
  | _ => acc
  end.
Definition merged_frames (t : Z) (l : list (ServerOp * list ServerOutput)) : list Bytes := foldl (merged_step t) [] l.

(** The body a frame stands for. *)
Definition frame_reads (f : Bytes) (id : MergingMsgId) (zstd : bool) (body : Bytes) : Prop :=
  ∃ h, header_decode f = Ok h ∧ fh_msg_id h = id ∧ is_zstd_compressed h = zstd ∧
    if zstd then zstd_compress body = Some (frame_body f) else frame_body f = body.

(** A body with a response number in its bytes 8 to 12. *)
Definition stamped (n : u32) (body body' : Bytes) : Prop :=
  take 8 body' = take 8 body ∧ from_le_bytes (take 4 (drop 8 body')) = n ∧ drop 12 body' = drop 12 body.

(** ** What leaves the response numbers alone *)

Definition ids_from (s s' : Server) : Prop :=
  ∀ t x', sv_sessions s' !! t = Some x' → ∃ x, sv_sessions s !! t = Some x ∧ se_response_id x = se_response_id x'.

#[local] Instance ids_from_preorder : PreOrder ids_from.
Proof.
  split; [intros s t x Hx; by exists x|]. intros s1 s2 s3 H12 H23 t x Hx.
  destruct (H23 t x Hx) as (y & Hy & <-). by apply H12.
Qed.

Definition quiet_at {A} (s : Server) (m : Srv A) : Prop := ∀ a s' o, m s = Some (a, s', o) → ids_from s s'.
Definition quiet {A} (m : Srv A) : Prop := ∀ s, quiet_at s m.

Lemma quiet_ret {A} (a : A) : quiet (mret a).
Proof. by intros s a' s' o [= <- <- <-]. Qed.
Lemma quiet_emit o : quiet (emit o).
Proof. by intros s a' s' o' [= <- <- <-]. Qed.
Lemma quiet_panic {A} : quiet (panic : Srv A).
Proof. done. Qed.
Lemma quiet_modify f : (∀ s, ids_from s (f s)) → quiet (modify f).
Proof. intros H s a s' o [= <- <- <-]. apply H. Qed.
Lemma quiet_same f : (∀ s, sv_sessions (f s) = sv_sessions s) → quiet (modify f).
Proof. intros H. apply quiet_modify. intros s t x. rewrite H. intros Hx. by exists x. Qed.

Lemma quiet_at_bind {A B} s (m : Srv A) (k : A → Srv B) : quiet_at s m → (∀ a, quiet (k a)) → quiet_at s (m ≫= k).
Proof.
  intros Hm Hk b s' o. unfold mbind, comp_bind. destruct (m s) as [[[a s1] o1]|] eqn:E1; [|done].
  destruct (k a s1) as [[[b1 s2] o2]|] eqn:E2; [|done]. intros [= <- <- <-].
  etrans; [by eapply Hm|by eapply Hk].
Qed.
Lemma quiet_bind {A B} (m : Srv A) (k : A → Srv B) : quiet m → (∀ a, quiet (k a)) → quiet (m ≫= k).
Proof. intros Hm Hk s. by apply quiet_at_bind. Qed.
Lemma quiet_get {A} (k : Server → Srv A) : (∀ s, quiet_at s (k s)) → quiet (get ≫= k).
Proof.
  intros Hk s a s' o. unfold mbind, comp_bind, get. destruct (k s s) as [[[b s1] o1]|] eqn:E; [|done].
  intros [= <- <- <-]. by eapply Hk.
Qed.
Lemma quiet_each {A} (f : A → Srv unit) l : (∀ x, quiet (f x)) → quiet (each f l).
Proof. intros Hf. induction l as [|x l IH]; cbn [each]; [apply quiet_ret|]. apply quiet_bind; [done|by intros _]. Qed.

(** Steps of code that touches no session; what is known quiet is in the hint
    database [quiet]. *)
#[local] Hint Resolve quiet_ret quiet_emit quiet_panic : quiet.

Ltac quiet_step :=
  first
    [ solve [auto with quiet nocore]
    | match goal with
      | |- quiet (modify _) => by apply quiet_same
      | |- quiet (get ≫= _) => apply quiet_get; intros ?
      | |- quiet (_ ≫= _) => apply quiet_bind; [|intros ?]
      | |- quiet_at _ (_ ≫= _) => apply quiet_at_bind; [|intros ?]
      | |- quiet (match ?x with _ => _ end) => destruct x
      | |- quiet_at _ (match ?x with _ => _ end) => destruct x
      | |- quiet (let _ := _ in _) => cbv zeta
      | |- quiet_at _ (let _ := _ in _) => cbv zeta
      | |- quiet_at ?s ?m => cut (quiet m); [by intros Hq; apply Hq|]
      end ].
Ltac quiet_steps := repeat quiet_step.

Lemma quiet_reads : quiet engine_reads.
Proof. unfold engine_reads. apply quiet_same. intros s. by destruct (sv_reads s). Qed.
#[local] Hint Resolve quiet_reads : quiet.

Lemma quiet_send now kind g slot body headroom : quiet (send now kind g slot body headroom).
Proof. unfold send. quiet_steps. Qed.
#[local] Hint Resolve quiet_send : quiet.

Lemma quiet_send_control now kind g slot body : quiet (send_control now kind g slot body).
Proof. unfold send_control. quiet_steps. Qed.
#[local] Hint Resolve quiet_send_control : quiet.

Lemma quiet_next_generation now : quiet (next_generation now).
Proof. unfold next_generation. quiet_steps. Qed.

Lemma quiet_delete t : quiet (modify (λ s : Server, s <| sv_sessions ::= delete t |>)).
Proof. apply quiet_modify. intros s t' x. cbn. intros [_ Hx]%lookup_delete_Some. by exists x. Qed.
#[local] Hint Resolve quiet_next_generation quiet_delete : quiet.

Lemma quiet_lose_active now t : quiet (lose_active now t).
Proof. unfold lose_active. quiet_steps. Qed.
#[local] Hint Resolve quiet_lose_active : quiet.

Lemma quiet_flush now : quiet (flush_reactions now).
Proof. unfold flush_reactions. quiet_steps. apply quiet_each. intros t. quiet_steps. Qed.

Lemma quiet_reply t r : quiet (reply t r).
Proof. unfold reply. quiet_step. Qed.
Lemma quiet_disconnect t : quiet (disconnect t).
Proof. unfold disconnect. quiet_step. Qed.
#[local] Hint Resolve quiet_flush quiet_reply quiet_disconnect : quiet.

Lemma quiet_tick now : quiet (tick_timers config now).
Proof. unfold tick_timers. quiet_steps. apply quiet_each. intros t. quiet_step. Qed.

Lemma quiet_fatal t code : quiet (fatal t code).
Proof. unfold fatal. quiet_steps. Qed.
#[local] Hint Resolve quiet_fatal : quiet.

Lemma quiet_active_state t z :
  quiet (modify (λ s : Server, s <| sv_sessions ::= alter (λ x : Session, x <| se_state := SessionActive z |>) t |>
                                 <| sv_active := Some t |>)).
Proof.
  apply quiet_modify. intros s t' x. cbn. intros [(-> & y & Hy & ->)|[_ Hx]]%lookup_alter_Some; [by exists y|by exists x].
Qed.
#[local] Hint Resolve quiet_active_state : quiet.

Lemma quiet_registration now t payload : quiet (handle_registration config now t payload).
Proof. unfold handle_registration. quiet_steps. Qed.

Lemma quiet_active now t payload z g : quiet (handle_active_message config now t payload z g).
Proof. unfold handle_active_message, handle_block. quiet_steps. Qed.
#[local] Hint Resolve quiet_registration quiet_active : quiet.

(** Only a new connection starts a number, at zero. *)
Lemma quiet_event now ev s a s' o :
  on_event config now ev s = Some (a, s', o) →
  ids_from s s' ∨ ∃ t, ev = SvAccepted t ∧ sv_sessions s' = <[t := session_awaiting now (sc_handshake_timeout config)]> (sv_sessions s).
Proof.
  destruct ev as [t|t|t|t payload]; cbn [on_event]; intros Hrun.
  - right. exists t. split; [done|]. by injection Hrun as _ <- _.
  - left. by eapply quiet_ret.
  - left. by eapply quiet_lose_active.
  - left. revert Hrun. apply (quiet_get (λ s, match sv_sessions s !! t with None => _ | Some _ => _ end)). clear s. intros s.
    destruct (sv_sessions s !! t) as [x|] eqn:Hx; [|by apply quiet_disconnect]. apply quiet_at_bind; [|intros _; quiet_steps].
    intros a' s1 o1 [= <- <- <-] t' y. cbn. intros [[<- <-]|[_ Hy]]%lookup_insert_Some; [by exists x|by exists y].
Qed.
(** ** Frames *)

Lemma header_reads h rest : header_decode (append_encoded h ++ rest) = Ok h ∧ frame_body (append_encoded h ++ rest) = rest.
Proof. split; [|done]. unfold header_decode, append_encoded. cbn [app]. rewrite msg_id_round_trip. by destruct h. Qed.

Lemma body_frame_reads id body zstd :
  ∃ z, frame_reads (append_body_frame id body zstd) id z body ∧ (z = true → zstd = true).
Proof.
  assert (frame_reads (append_encoded (header_new id) ++ body) id false body) as Hwhole.
  { destruct (header_reads (header_new id) body) as [Hd Hb]. by exists (header_new id). }
  unfold append_body_frame. destruct (negb zstd || _) eqn:Hz; [by exists false|].
  destruct (zstd_compress body) as [c|] eqn:Hc; [|by exists false]. exists true. split; [|by destruct zstd].
  destruct (header_reads (with_zstd (header_new id)) c) as [Hd Hb]. exists (with_zstd (header_new id)).
  split_and!; [done..|]. by rewrite Hb.
Qed.

Lemma from_le_be_bytes n v : from_le_bytes (reverse (be_bytes n v)) = v mod 256 ^ Z.of_nat n.
Proof.
  revert v. induction n as [|n IH]; intros v; [by rewrite Z.mod_1_r|].
  cbn [be_bytes]. rewrite reverse_snoc. cbn [from_le_bytes foldr]. change (foldr _ 0) with from_le_bytes. rewrite IH.
  rewrite Nat2Z.inj_succ, Z.pow_succ_r, Z.rem_mul_r by lia. lia.
Qed.

Lemma stamp_stamped id body body' :
  0 ≤ id < u32_modulus → stamp_response_id id body = Some body' → stamped id body body'.
Proof.
  intros Hid. unfold stamp_response_id. destruct (Z.leb_spec 12 (len body)) as [Hl|]; [|done]. intros Hb%(inj Some). subst body'.
  pose proof (from_le_be_bytes 4 id) as Hle. rewrite Z.mod_small in Hle by done.
  unfold len in Hl. assert (length (take 8 body) = 8%nat) as H8 by (rewrite length_take; lia).
  assert (length (reverse (be_bytes 4 id)) = 4%nat) as H4 by (by rewrite length_reverse, be_bytes_length).
  revert Hle H4. generalize (reverse (be_bytes 4 id)). intros n4 Hle H4. split_and!.
  - by rewrite take_app_length'.
  - rewrite drop_app_length' by done. by rewrite take_app_length'.
  - rewrite app_assoc, drop_app_length'; [done|]. rewrite length_app. lia.
Qed.

(** ** Response numbers *)

Definition ids_ok (l : list (ServerOp * list ServerOutput)) (s : Server) : Prop :=
  ∀ t x, sv_sessions s !! t = Some x → se_response_id x = Z.of_nat (length (merged_frames t l)) mod u32_modulus.

Lemma merged_frames_snoc t l e : merged_frames t (l ++ [e]) = merged_step t (merged_frames t l) e.
Proof. unfold merged_frames. by rewrite foldl_app. Qed.

(** What [send_output] sends, and the number it counts up. *)
Lemma send_output_cases kind g body s s' o :
  send_output kind g body s = Some (tt, s', o) →
  (o = [] ∧ s' = s) ∨
  ∃ t x, sv_active s = Some t ∧ g = sv_generation s ∧ sv_sessions s !! t = Some x ∧
    match kind with
    | OutputMerged => ∃ body', stamp_response_id (se_response_id x) body = Some body' ∧
        o = [SvFrame t (append_body_frame IdMergedBlockV1 body' (session_zstd x))] ∧
        sv_sessions s' = <[t := x <| se_response_id := (se_response_id x + 1) mod u32_modulus |>]> (sv_sessions s)
    | OutputReject => o = [SvFrame t (append_body_frame IdRejectV1 body false)] ∧ s' = s
    end.
Proof.
  unfold send_output, mbind, comp_bind, get, modify, emit, mret, comp_ret. intros H.
  destruct (Z.eqb_spec g (sv_generation s)) as [->|]; cbn [negb] in H; [|left; by injection H as <- <-].
  destruct (sv_active s) as [t|]; [|left; by injection H as <- <-].
  destruct (sv_sessions s !! t) as [x|] eqn:Hx; [|left; by injection H as <- <-].
  right. exists t, x. split_and!; [done..|]. destruct kind; [|by injection H as <- <-].
  cbn [next_response_id] in H. destruct (stamp_response_id _ body) as [body'|] eqn:Hb; [|done].
  injection H as <- <-. exists body'. by split_and!.
Qed.

Lemma ids_ok_step l s reads op s' o :
  ids_ok l s → op_ok s op → server_op config op (s <| sv_reads := reads |>) = Some (tt, s', o) → ids_ok (l ++ [(op, o)]) s'.
Proof.
  intros HI Hok Hrun t x' Hx'. rewrite merged_frames_snoc.
  assert (ids_from (s <| sv_reads := reads |>) s' → se_response_id x' = Z.of_nat (length (merged_frames t l)) mod u32_modulus) as Hq.
  { intros Hf. destruct (Hf t x' Hx') as (x & Hx & <-). by apply HI. }
  destruct op as [now ev|now|now|kind g body]; cbn [server_op] in Hrun.
  - destruct (quiet_event now ev _ _ _ _ Hrun) as [Hf|(t' & -> & Hs)].
    + destruct ev as [t'| | |]; try (by apply Hq). cbn. destruct (Z.eqb_spec t' t) as [->|]; [|by apply Hq].
      destruct (Hf t x' Hx') as (x & Hx & _). cbn in Hok, Hx. congruence.
    + cbn. rewrite Hs in Hx'. apply lookup_insert_Some in Hx' as [[-> <-]|[Hne Hx']].
      * by rewrite Z.eqb_refl.
      * rewrite (proj2 (Z.eqb_neq _ _) Hne). by apply HI.
  - by apply Hq; eapply quiet_flush.
  - by apply Hq; eapply quiet_tick.
  - destruct (send_output_cases _ _ _ _ _ _ Hrun) as [[-> ->]|(t' & x & _ & _ & Hx & Hk)].
    { cbn. destruct kind; cbn; rewrite ?app_nil_r; by apply HI. }
    destruct kind; [|destruct Hk as [-> ->]; by apply HI]. destruct Hk as (body' & _ & -> & Hs). cbn.
    rewrite Hs in Hx'. apply lookup_insert_Some in Hx' as [[-> <-]|[Hne Hx']].
    + rewrite Z.eqb_refl, length_app. cbn. cbn in Hx. rewrite (HI t x Hx). rewrite Zplus_mod_idemp_l. f_equal. lia.
    + rewrite (proj2 (Z.eqb_neq _ _) Hne), app_nil_r. by apply HI.
Qed.

Lemma traced_ids l s : traced l s → ids_ok l s.
Proof. induction 1 as [|l s reads op s' o _ IH Hok Hrun]; [done|]. by eapply ids_ok_step. Qed.

(** C31: What the engine answers goes back where it came from, in order. A frame
    is sent for an output only when the output's generation is current, and then
    to the registered connection, which presented a key of the allowlist and a
    range of versions that has the builder's; whatever the engine was told under
    that generation, blocks included, was sent by that same connection. The frame
    is compressed only when that registration and the server's configuration both
    allow it, and a receiver reads the output's body from it; in a merged block
    the bytes 8 to 12 are replaced by its response number, which counts the merged
    blocks sent on the connection since it was accepted, modulo 2^32. *)
Theorem outputs_return_to_sender l s kind g body :
  0 ≤ depth → 0 ≤ ring → Forall (λ k, length k = 16%nat) (sc_api_keys config) →
  traced l s → op_ok s (OpOutput kind g body) →
  ∃ s' o, server_op config (OpOutput kind g body) s = Some (tt, s', o) ∧
    ∀ t f, SvFrame t f ∈ o → sv_active s = Some t ∧ g = sv_generation s ∧
      (∃ now payload reg compressed body', OpNet now (SvMessage t payload) ∈ l.*1 ∧
        registration_from_ssz (frame_body payload) = Some reg ∧
        be_bytes 16 (rg_api_key reg) ∈ sc_api_keys config ∧
        rg_min_version reg ≤ MERGING_PROTOCOL_VERSION ≤ rg_max_version reg ∧
        frame_reads f (match kind with OutputMerged => IdMergedBlockV1 | OutputReject => IdRejectV1 end) compressed body' ∧
        (compressed = true → rg_supports_zstd reg = true ∧ sc_supports_zstd config = true) ∧
        match kind with
        | OutputMerged => stamped (Z.of_nat (length (merged_frames t l)) mod u32_modulus) body body'
        | OutputReject => body' = body
        end) ∧
      ∀ ev b, (ev, b) ∈ published (concat l.*2) → ev_generation ev = g → ev_kind ev ≠ KindConnectionReset →
        sent_by config l.*1 t ev b.
Proof.
  intros Hd Hr Hkeys Htr Hok. pose proof (traced_ids _ _ Htr) as Hids.
  apply traced_reach, reach_inv in Htr; [|done..].
  pose proof (send_output_spec config l.*1 depth ring kind g body s _ Htr Hok) as H. unfold wp in H.
  change (server_op config (OpOutput kind g body) s) with (send_output kind g body s).
  destruct (send_output kind g body s) as [[[[] s'] o]|] eqn:Hrun; [|done]. clear H.
  exists s', o. split; [done|]. intros t f Hf.
  destruct (send_output_cases _ _ _ _ _ _ Hrun) as [[-> ->]|(t' & x & Ha & -> & Hx & Hk)]; [by apply elem_of_nil in Hf|].
  assert (t' = t) as ->.
  { destruct kind; [destruct Hk as (? & _ & -> & _)|destruct Hk as [-> _]]; by apply list_elem_of_singleton in Hf as [= -> _]. }
  destruct Htr as ((_ & [_ HS2] & _) & Hsrc). split_and!; [done..| |].
  - destruct (HS2 t Ha) as (x' & Hx' & now & payload & h & reg & Hin & _ & _ & Hreg & Hkey & Hv & Hz).
    rewrite Hx in Hx'. injection Hx' as <-.
    assert (be_bytes 16 (rg_api_key reg) ∈ sc_api_keys config) as Hk'.
    { apply api_key_allowed_spec; [|done]. eapply Forall_impl; [exact Hkeys|]. intros k ->. by rewrite be_bytes_length. }
    destruct kind.
    + destruct Hk as (body' & Hst & -> & _). apply list_elem_of_singleton in Hf as [= ->].
      destruct (body_frame_reads IdMergedBlockV1 body' (session_zstd x)) as (z & Hread & Hzt).
      exists now, payload, reg, z, body'. split_and!; [done..|lia|lia|done| |].
      * intros ->. apply andb_true_iff. rewrite <- Hz. by apply Hzt.
      * rewrite <- (Hids t x Hx). apply stamp_stamped; [|done]. rewrite (Hids t x Hx). by apply Z.mod_pos_bound.
    + destruct Hk as [-> _]. apply list_elem_of_singleton in Hf as [= ->].
      destruct (body_frame_reads IdRejectV1 body false) as (z & Hread & Hzt).
      exists now, payload, reg, z, body. split_and!; [done..|lia|lia|done| |done]. intros ->. by specialize (Hzt eq_refl).
  - intros ev b Hin Hg Hnr. destruct (Hsrc ev b Hin Hg Hnr) as (t' & Ht' & Hs). congruence.
Qed.
(** A history run from a state. *)
Fixpoint trace_of (ops : list ServerOp) (s : Server) : option (list (ServerOp * list ServerOutput) * Server) :=
  match ops with
  | [] => Some ([], s)
  | op :: ops =>
      '(_, s, o) ← server_op config op (s <| sv_reads := [] |>);
      '(l, s) ← trace_of ops s; Some ((op, o) :: l, s)
  end.

Lemma trace_of_traced ops : ∀ l s l' s',
  traced l s → Forall (λ op, ∀ s, op_ok s op) ops → trace_of ops s = Some (l', s') → traced (l ++ l') s'.
Proof.
  induction ops as [|op ops IH]; intros l s l' s' Ht Hops; cbn [trace_of].
  { intros [= <- <-]. by rewrite app_nil_r. }
  inversion Hops; subst. intros ([[[] s1] o] & Hop & H)%bind_Some. apply bind_Some in H as ([l1 s2] & Hx & [= <- <-]).
  rewrite (app_assoc l [(op, o)] l1 : l ++ (op, o) :: l1 = _). eapply IH; [|done..]. by eapply traced_step.
Qed.

Lemma accepted_traced now t :
  traced [(OpNet now (SvAccepted t), [])]
    ((server_new depth ring) <| sv_sessions := {[t := session_awaiting now (sc_handshake_timeout config)]} |>).
Proof. by apply (traced_step [] (server_new depth ring) [] (OpNet now (SvAccepted t)) _ []); [constructor|..]. Qed.
End trace.

(** ** Example: connection 3 was answered once, and its second answer is number 1 *)

Definition ex_response_ops : list ServerOp := ex_server_ops 0 ++ [OpOutput OutputMerged 1 (replicate 20 2)].

Local Abbreviation ex_response_trace := (trace_of (MC := ex_server_codec) (LB := ex_server_libs) (HO := list_order) ex_server_config
  ex_response_ops ((server_new 18 (2 ^ 21)) <| sv_sessions := {[3 := session_awaiting 1 1000]} |>)) (only parsing).

Lemma outputs_return_to_sender_witness :
  ∃ l s s' f body', ex_response_trace = Some (l, s) ∧
    send_output (LB := ex_server_libs) OutputMerged 1 (replicate 20 5) s = Some (tt, s', [SvFrame 3 f]) ∧
    frame_reads (LB := ex_server_libs) f IdMergedBlockV1 false body' ∧ stamped 1 (replicate 20 5) body'.
Proof.
  destruct ex_response_trace as [[l s]|] eqn:Hx; [|vm_compute in Hx; discriminate].
  pose proof (trace_of_traced (MC := ex_server_codec) (LB := ex_server_libs) (HO := list_order) ex_server_config 18 (2 ^ 21)
    ex_response_ops _ _ l s (accepted_traced _ _ _ 1 3) ltac:(by repeat constructor) Hx) as Htr.
  destruct (outputs_return_to_sender (MC := ex_server_codec) (LB := ex_server_libs) (HO := list_order) ex_server_config
    18 (2 ^ 21) _ s OutputMerged 1 (replicate 20 5) ltac:(lia) ltac:(lia) ltac:(by repeat constructor) Htr
    ltac:(vm_compute; discriminate)) as (s' & o & Hrun & Hout).
  vm_compute in Hx. injection Hx as <- <-.
  assert (∃ f, o = [SvFrame 3 f]) as [f ->].
  { vm_compute in Hrun. injection Hrun as _ <-. eexists. reflexivity. }
  destruct (Hout 3 f) as (_ & _ & (now & payload & reg & z & body' & _ & _ & _ & _ & Hread & Hz & Hst) & _);
    [apply list_elem_of_singleton; reflexivity|].
  assert (z = false) as -> by (destruct z; [destruct (Hz eq_refl) as [_ Hf]; vm_compute in Hf; discriminate|reflexivity]).
  eexists _, _, s', f, body'. split; [reflexivity|]. split; [exact Hrun|]. split; [exact Hread|exact Hst].
Defined.
