(* ===== verification/MergeReturn.v ===== *)
(** * The merging server and the engine together

    The engine reads the events the server publishes and the server sends its
    outputs back: [MergeEngine] of [crates/builder/src/merge/mod.rs] behind
    [MergingServerTile] of [crates/builder/src/server/mod.rs]. *)

From S2P Require Import Prelude Types Submission Rlp MergeTrie MergeOrders MergeWire MergePool MergeEngine MergeServer.

Section return_path.
Context {MC : MergingCodec} {LB : ServerLibs} `{HO : HashOrder} {KE : Keccak} {CT : CanonicalTx}
  (server_config : ServerConfig) (config : EngineConfig) (depth ring : u64).

(** [apply_event] of the engine on a published event: the body is decoded by its
    kind. *)
Definition event_op (blacklist : gset Address) (e : ToEngine * Bytes) : EngineOp :=
  let '(ev, body) := e in
  OpEvent (ev_generation ev)
    match ev_kind ev with
    | KindRelayConfig => EvRelayConfig (relay_config_from_ssz body)
    | KindSlotStart => EvSlotStart (slot_start_from_ssz body) blacklist
    | KindSlotEnd => EvSlotEnd (ev_slot ev)
    | KindMergeableBlock => EvMergeableBlock (mergeable_from_ssz body) (ev_recv_ns ev)
    | KindConnectionReset => EvConnectionReset
    end.

Definition is_event (op : EngineOp) : bool := match op with OpEvent _ _ => true | _ => false end.

(** The engine has read the events [read], in order, with work in between. *)
Definition reads_events (blacklist : gset Address) (read : list (ToEngine * Bytes)) (ops : list EngineOp) : Prop :=
  List.filter is_event ops = event_op blacklist <$> read.

Lemma read_block blacklist read ops g m recv :
  reads_events blacklist read ops → OpEvent g (EvMergeableBlock (Some m) recv) ∈ ops →
  ∃ ev body, (ev, body) ∈ read ∧ ev_generation ev = g ∧ ev_kind ev = KindMergeableBlock ∧ mergeable_from_ssz body = Some m.
Proof.
  intros Hread Hin. assert (OpEvent g (EvMergeableBlock (Some m) recv) ∈ event_op blacklist <$> read) as Hev.
  { rewrite <- Hread. apply list_elem_of_In, filter_In. by rewrite <- list_elem_of_In. }
  apply list_elem_of_fmap in Hev as ([ev body] & He & Hr). exists ev, body. cbn in He. destruct (ev_kind ev); by simplify_eq.
Qed.

(** Decoded indices are unsigned. *)
Definition decodes_typed : Prop := ∀ body m, mergeable_from_ssz body = Some m → Forall ref_typed (fb_merge_orders m).

Lemma read_typed blacklist read ops : decodes_typed → reads_events blacklist read ops → Forall op_typed ops.
Proof.
  intros Hty Hread. apply Forall_forall. intros [g [| | | |[m|] recv]| |] Hin; try done.
  destruct (read_block _ _ _ _ _ _ Hread Hin) as (ev & body & _ & _ & _ & Hm). by apply (Hty body).
Qed.

(** C8: A merged block goes to the connection whose block it extends. After any
    history of the server, and any work of the engine on the events it has read
    of those the server published, a merged block that the engine publishes and
    the server sends extends a block that the same connection sent in a message
    of its own, for the slot and on the parent the engine works on, that allows
    appending, and names that block's builder; nothing panics on the way. *)
Theorem merged_block_answers_sender hist pub s blacklist read ops w body :
  0 ≤ depth → 0 ≤ ring → 0 ≤ ec_max_orders_per_slot config → decodes_typed →
  reach server_config depth ring hist pub s → read `prefix_of` pub → reads_events blacklist read ops → 12 ≤ len body →
  ∃ bs e o b e' o', engine_run config ops engine_new = Some (bs, e, o) ∧ do_work config w e = Some (b, e', o') ∧
    ∀ g hash pubkey, OutMerged g hash pubkey ∈ o' →
      ∃ s' frames, send_output OutputMerged g body s = Some (tt, s', frames) ∧
        ∀ t f, SvFrame t f ∈ frames →
          ∃ slot now payload header zstd b m, en_slot e = Some slot ∧ OpNet now (SvMessage t payload) ∈ hist ∧
            header_decode payload = Ok header ∧ fh_msg_id header = IdMergeableBlockV1 ∧
            message_body server_config header zstd payload = Ok b ∧ mergeable_from_ssz b = Some m ∧
            fb_slot m = ss_slot slot ∧ ep_parent_hash (fb_execution_payload m) = ss_parent_hash slot ∧
            block_hash_of m = hash ∧ fb_builder_pubkey m = pubkey ∧ fb_allow_appending m = true.
Proof.
  intros Hd Hr Hmax Hty Hreach%reach_inv Hpre Hread Hlen; [|done..].
  destruct (engine_reachable config ops Hmax (read_typed _ _ _ Hty Hread)) as (bs & e & o & Hrun & HI).
  pose proof (do_work_spec config _ w e HI) as Hw. unfold wp in Hw.
  destruct (do_work config w e) as [[[b e'] o']|] eqn:Hwork; [|done]. destruct Hw as (_ & _ & Hout & _).
  exists bs, e, o, b, e', o'. split; [exact Hrun|]. split; [exact Hwork|]. intros g hash pubkey Hin.
  destruct (proj1 (Forall_forall _ _) Hout _ Hin) as (-> & slot & m & Hslot & [recv Hm] & Hfs & Hpar & Hap & -> & ->).
  pose proof (send_output_spec server_config hist depth ring OutputMerged (en_generation e) body s pub Hreach Hlen) as Hs.
  unfold wp in Hs. destruct (send_output OutputMerged (en_generation e) body s) as [[[[] s'] frames]|] eqn:Hsend; [|done].
  exists s', frames. split; [reflexivity|]. intros t f Hf. destruct Hs as [_ Hs]. destruct (Hs t f Hf) as [Hg Ha].
  destruct (read_block _ _ _ _ _ _ Hread Hm) as (ev & eb & Hev & Hgen & Hk & Hdec).
  destruct Hpre as [rest ->]. destruct Hreach as [_ Hsrc].
  destruct (Hsrc ev eb) as (t' & Ht' & now & payload & header & z & mb & H1 & H2 & H3 & H4); [set_solver|congruence|congruence|].
  rewrite Ha in Ht'. injection Ht' as <-. unfold event_of in H4. rewrite Hk in H4. destruct H4 as [H4 ->].
  by exists slot, now, payload, header, z, mb, m.
Qed.
End return_path.

(** ** Example *)

Definition ex_return_codec : MergingCodec := {|
  registration_from_ssz := λ _, Some (mkMergerRegistrationV1 7 [] 6 6 false);
  ack_from_ssz := λ _, None; ping_from_ssz := λ _, None;
  relay_config_from_ssz := λ _, Some (mkRelayConfigV1 1 2 0 5000 4000 0 [mkBuilderCollateral 1 2]);
  slot_start_from_ssz := λ _, Some (mkSlotStartV1 5 100 9 0 false); slot_end_from_ssz := λ _, None;
  mergeable_from_ssz := λ _, Some (ex_mergeable 12 20 []);
  merged_from_ssz := λ _, None; reject_from_ssz := λ _, None; mergeable_to_ssz := λ _, [] |}.

Definition ex_return_ops : list ServerOp :=
  [ex_message IdMergerRegistrationV1 []; OpFlush 5; ex_message IdRelayConfigV1 [1];
   ex_message IdSlotStartV1 [2]; ex_message IdMergeableBlockV1 (replicate 20 1)].

Local Abbreviation ex_return_exec := (exec (MC := ex_return_codec) (LB := ex_server_libs) (HO := list_order) ex_server_config
  ex_return_ops ((server_new 64 (2 ^ 21)) <| sv_sessions := {[3 := session_awaiting 1 1000]} |>)) (only parsing).

Definition ex_published : list (ToEngine * Bytes) := match ex_return_exec with Some (pub, _) => pub | None => [] end.
Definition ex_served : Server := match ex_return_exec with Some (_, s) => s | None => server_new 0 0 end.

Lemma ex_return_reach :
  reach (MC := ex_return_codec) (LB := ex_server_libs) (HO := list_order) ex_server_config 64 (2 ^ 21)
    (OpNet 1 (SvAccepted 3) :: ex_return_ops) ex_published ex_served.
Proof.
  apply (exec_reach (HO := list_order) _ _ _ _ [OpNet 1 (SvAccepted 3)] [] _ ex_published ex_served (accepted_reach _ _ _ 1 3)).
  - by repeat constructor.
  - vm_compute. reflexivity.
Qed.

Definition ex_return_events : list EngineOp := event_op (MC := ex_return_codec) ∅ <$> ex_published.

Definition frame_tokens (o : list ServerOutput) : list Z :=
  omap (M := list) (λ x, match x with SvFrame t _ => Some t | _ => None end) o.

Lemma ex_return_outputs :
  match engine_run (CT := ex_canonical) ex_engine_config ex_return_events engine_new with
  | Some (_, e, _) => match do_work ex_engine_config ex_work e with Some (_, _, o) => o | None => [] end
  | None => []
  end = [OutMerged 1 12 7] ∧
  match send_output (LB := ex_server_libs) OutputMerged 1 (replicate 20 2) ex_served with
  | Some (_, _, o) => frame_tokens o
  | None => []
  end = [3].
Proof. split; vm_compute; reflexivity. Qed.

Lemma merged_block_answers_sender_witness :
  ∃ s' frames f, send_output (LB := ex_server_libs) OutputMerged 1 (replicate 20 2) ex_served = Some (tt, s', frames) ∧
    SvFrame 3 f ∈ frames ∧
    ∃ slot now payload m, OpNet now (SvMessage 3 payload) ∈ OpNet 1 (SvAccepted 3) :: ex_return_ops ∧
      fb_slot m = ss_slot slot ∧ block_hash_of m = 12 ∧ fb_builder_pubkey m = 7 ∧ fb_allow_appending m = true.
Proof.
  destruct (merged_block_answers_sender (MC := ex_return_codec) (LB := ex_server_libs) (HO := list_order)
    (CT := ex_canonical) ex_server_config ex_engine_config 64 (2 ^ 21) (OpNet 1 (SvAccepted 3) :: ex_return_ops)
    ex_published ex_served ∅ ex_published ex_return_events ex_work (replicate 20 2))
    as (bs & e & o & b & e' & o' & Hrun & Hwork & Hout).
  - lia.
  - lia.
  - vm_compute. discriminate.
  - intros body m [= <-]. constructor.
  - apply ex_return_reach.
  - reflexivity.
  - unfold reads_events. vm_compute. reflexivity.
  - vm_compute. discriminate.
  - destruct ex_return_outputs as [Hc Hs]. rewrite Hrun, Hwork in Hc. subst o'.
    destruct (Hout 1 12 7) as (s' & frames & Hsend & Hf); [apply list_elem_of_singleton; reflexivity|].
    rewrite Hsend in Hs. assert (3 ∈ frame_tokens frames) as Hin
      by (rewrite Hs; apply list_elem_of_singleton; reflexivity).
    apply list_elem_of_omap in Hin as ([| |t f| | |] & Hin & Ht); try discriminate Ht. injection Ht as ->.
    destruct (Hf 3 f Hin) as (slot & now & payload & header & z & b' & m & _ & H1 & _ & _ & _ & _ & Hfs & _ & H2 & H3 & H4).
    exists s', frames, f. split; [exact Hsend|]. split; [exact Hin|]. exists slot, now, payload, m.
    split; [exact H1|]. split; [exact Hfs|]. split; [exact H2|]. split; [exact H3|exact H4].
Defined.
