(* ===== verification/MergeState.v ===== *)
(** * The state of a merged block

    [crates/builder/src/merge/state.rs]: accounts and storage slots are interned
    as numbers ([KeyTable]), and what a block has written over its parent is kept
    in two tables with an undo log ([UndoTable], [BlockState]). The database of
    the parent and the EVM are the node's code. *)

From S2P Require Import Prelude Types Submission Rlp MergeTrie.

Definition MAX_STATE_ACCOUNTS : Z := Z.shiftl 1 15.
Definition MAX_STATE_SLOTS : Z := Z.shiftl 1 17.
Definition MAX_UNDO : Z := Z.shiftl 1 14.

(** ** Tables with an undo log *)

Record UndoTable (T : Type) := mkUndoTable {
  ut_values : list (bool * T);
  ut_written : list nat;
  ut_undo_log : list (nat * T * bool)
}.
Arguments mkUndoTable {T}.
Arguments ut_values {T}.
Arguments ut_written {T}.
Arguments ut_undo_log {T}.

Section table.
Context {T : Type} `{!Inhabited T} `{!EqDecision T}.
Implicit Types (t : UndoTable T) (v : T) (id : nat).

Definition table_new : UndoTable T := mkUndoTable [] [] [].

Definition table_get t id : option T :=
  match ut_values t !! id with Some (true, v) => Some v | _ => None end.

(** [values.resize(i + 1, (false, T::default()))] where the table is shorter. *)
Definition grown id (values : list (bool * T)) : list (bool * T) :=
  values ++ replicate (S id - length values) (false, inhabitant).

Definition table_set id v t : bool * UndoTable T :=
  if MAX_UNDO =? len (ut_undo_log t) then (false, t)
  else
    let values := grown id (ut_values t) in
    let '(set, old) := default (false, inhabitant) (values !! id) in
    (true, mkUndoTable (<[id := (true, v)]> values)
             (if (set : bool) then ut_written t else ut_written t ++ [id])
             (ut_undo_log t ++ [(id, old, negb set)])).

(** [vec.pop()]. *)
Definition pop {A} (l : list A) : list A := take (length l - 1) l.

(** One turn of the loop of [undo_to]; [None]: an index out of range. *)
Definition undo_one t : option (UndoTable T) :=
  match last (ut_undo_log t) with
  | None => Some t
  | Some (id, old, first) =>
      '(set, val) ← ut_values t !! id;
      Some (if (first : bool)
            then mkUndoTable (<[id := (false, val)]> (ut_values t)) (pop (ut_written t)) (pop (ut_undo_log t))
            else mkUndoTable (<[id := (set, old)]> (ut_values t)) (ut_written t) (pop (ut_undo_log t)))
  end.

Definition table_undo_to (n : nat) t : option (UndoTable T) :=
  Nat.iter (length (ut_undo_log t) - n) (λ acc, x ← acc; undo_one x) (Some t).

Definition table_clear_undo t : UndoTable T := mkUndoTable (ut_values t) (ut_written t) [].

Definition unset (values : list (bool * T)) id : list (bool * T) :=
  match values !! id with Some (_, v) => <[id := (false, v)]> values | None => values end.

Definition table_reset t : UndoTable T := mkUndoTable (foldl unset (ut_values t) (ut_written t)) [] [].

(** The value of a key: the parent's where the table has none. *)
Definition table_value (parent : nat → T) t id : T := default (parent id) (table_get t id).

Definition table_diff t held (parent : nat → T) : list (nat * T) :=
  omap (λ id, v ← snd <$> ut_values t !! id;
              if decide (table_value parent held id = v) then None else Some (id, v)) (ut_written t) ++
  omap (λ id, v ← snd <$> ut_values held !! id;
              if decide (table_get t id = None ∧ v ≠ parent id) then Some (id, parent id) else None) (ut_written held).

Definition table_copy_from t src : UndoTable T :=
  let t := table_reset t in
  let values := ut_values t ++ replicate (length (ut_values src) - length (ut_values t)) (false, inhabitant) in
  mkUndoTable (foldl (λ vs id, match snd <$> ut_values src !! id with Some v => <[id := (true, v)]> vs | None => vs end)
                 values (ut_written src))
    (ut_written t ++ ut_written src) [].
End table.

(** ** Accounts *)

Record Account := mkAccount {
  ac_balance : U256;
  ac_nonce : u64;
  ac_code_hash : B256;
  ac_has_storage : bool
}.
#[export] Instance eta_Account : Eta Account := λ r,
  mkAccount (ac_balance r) (ac_nonce r) (ac_code_hash r) (ac_has_storage r).
#[export] Instance Account_eq_dec : EqDecision Account.
Proof. solve_decision. Defined.
#[export] Instance Account_inhabited : Inhabited Account := populate (mkAccount 0 0 0 false).

(** The account as the node's database has it. *)
Record AccountState := mkAccountState {
  as_nonce : u64;
  as_balance : U256;
  as_storage_root : B256;
  as_code_hash : B256
}.
#[export] Instance AccountState_eq_dec : EqDecision AccountState.
Proof. solve_decision. Defined.

(** The node's constants and the database of the parent; [None]: an error. *)
Class StateDb := {
  EMPTY_KECCAK_HASH : B256;
  EMPTY_TRIE_ROOT : B256;
  get_account_state : Address → option AccountState;
  get_storage_value : Address → B256 → option U256;
  get_account_code : B256 → option (list Z)
}.

Section state.
Context `{DB : StateDb}.

Definition account_from_state (s : AccountState) : Account :=
  mkAccount (as_balance s) (as_nonce s) (as_code_hash s) (negb (as_storage_root s =? EMPTY_TRIE_ROOT)).

Definition account_is_empty (a : Account) : bool :=
  (ac_balance a =? 0) && (ac_nonce a =? 0) && (ac_code_hash a =? EMPTY_KECCAK_HASH).

Definition is_plain_eoa (a : Account) : bool :=
  (ac_code_hash a =? EMPTY_KECCAK_HASH) && negb (account_is_empty a).

Definition account_to_state (a : Account) : AccountState :=
  mkAccountState (ac_nonce a) (ac_balance a) (if ac_has_storage a then 0 else EMPTY_TRIE_ROOT) (ac_code_hash a).

(** ** Keys *)
Record KeyTable := mkKeyTable {
  kt_account_ids : gmap Address nat;
  kt_slot_ids : gmap (Address * B256) nat;
  kt_accounts : list (Address * Account);
  kt_storage_roots : list B256;
  kt_slots : list (Address * B256 * U256);
  kt_deployed_codes : gmap B256 (list Z)
}.
#[export] Instance eta_KeyTable : Eta KeyTable := λ r,
  mkKeyTable (kt_account_ids r) (kt_slot_ids r) (kt_accounts r) (kt_storage_roots r) (kt_slots r) (kt_deployed_codes r).

(** The first entry of each list is a sentinel. *)
Definition keys_new : KeyTable := mkKeyTable ∅ ∅ [(0, inhabitant)] [0] [(0, 0, 0)] ∅.

Inductive StateError := KeySpaceFull | StateRead | StateFold | DestroyedStorage | StateFull.

Definition intern_account (address : Address) (k : KeyTable) : Result nat StateError * KeyTable :=
  match kt_account_ids k !! address with
  | Some id => (Ok id, k)
  | None =>
      if len (kt_accounts k) =? MAX_STATE_ACCOUNTS then (Err KeySpaceFull, k)
      else
        match get_account_state address with
        | None => (Err StateRead, k)
        | Some state =>
            let id := length (kt_accounts k) in
            (Ok id, k <| kt_accounts ::= (λ l, l ++ [(address, account_from_state state)]) |>
                      <| kt_storage_roots ::= (λ l, l ++ [as_storage_root state]) |>
                      <| kt_account_ids ::= <[address := id]> |>)
        end
  end.

Definition intern_slot (address : Address) (key : B256) (k : KeyTable) : Result nat StateError * KeyTable :=
  match kt_slot_ids k !! (address, key) with
  | Some id => (Ok id, k)
  | None =>
      if len (kt_slots k) =? MAX_STATE_SLOTS then (Err KeySpaceFull, k)
      else
        match get_storage_value address key with
        | None => (Err StateRead, k)
        | Some value =>
            let id := length (kt_slots k) in
            (Ok id, k <| kt_slots ::= (λ l, l ++ [(address, key, value)]) |>
                      <| kt_slot_ids ::= <[(address, key) := id]> |>)
        end
  end.

Definition find_account (address : Address) (k : KeyTable) : option nat := kt_account_ids k !! address.

(** Out of range these panic; the sentinel stands for it. *)
Definition parent_account (k : KeyTable) (id : nat) : Address * Account := default (0, inhabitant) (kt_accounts k !! id).
Definition parent_storage_root (k : KeyTable) (id : nat) : B256 := default 0 (kt_storage_roots k !! id).
Definition parent_slot (k : KeyTable) (id : nat) : Address * B256 * U256 := default (0, 0, 0) (kt_slots k !! id).

(** ** The state of a block *)

Record BlockState := mkBlockState { bs_accounts : UndoTable Account; bs_slots : UndoTable U256 }.
Record Checkpoint := mkCheckpoint { cp_accounts : nat; cp_slots : nat }.

Definition state_new : BlockState := mkBlockState table_new table_new.

Definition state_account (k : KeyTable) (s : BlockState) (id : nat) : Account :=
  table_value (λ id, (parent_account k id).2) (bs_accounts s) id.
Definition state_slot (k : KeyTable) (s : BlockState) (id : nat) : U256 :=
  table_value (λ id, (parent_slot k id).2) (bs_slots s) id.

Definition set_account (id : nat) (a : Account) (s : BlockState) : bool * BlockState :=
  let '(ok, t) := table_set id a (bs_accounts s) in (ok, mkBlockState t (bs_slots s)).
Definition set_slot (id : nat) (v : U256) (s : BlockState) : bool * BlockState :=
  let '(ok, t) := table_set id v (bs_slots s) in (ok, mkBlockState (bs_accounts s) t).

Definition checkpoint (s : BlockState) : Checkpoint :=
  mkCheckpoint (length (ut_undo_log (bs_accounts s))) (length (ut_undo_log (bs_slots s))).

Definition undo_to (at_ : Checkpoint) (s : BlockState) : option BlockState :=
  a ← table_undo_to (cp_accounts at_) (bs_accounts s);
  l ← table_undo_to (cp_slots at_) (bs_slots s);
  Some (mkBlockState a l).

Definition clear_undo (s : BlockState) : BlockState :=
  mkBlockState (table_clear_undo (bs_accounts s)) (table_clear_undo (bs_slots s)).
Definition state_reset (s : BlockState) : BlockState :=
  mkBlockState (table_reset (bs_accounts s)) (table_reset (bs_slots s)).

Definition accounts_since (at_ : Checkpoint) (s : BlockState) : list nat :=
  (λ u : nat * Account * bool, u.1.1) <$> drop (cp_accounts at_) (ut_undo_log (bs_accounts s)).
Definition slots_since (at_ : Checkpoint) (s : BlockState) : list nat :=
  (λ u : nat * U256 * bool, u.1.1) <$> drop (cp_slots at_) (ut_undo_log (bs_slots s)).

Definition accounts_diff (s held : BlockState) (k : KeyTable) : list (nat * Account) :=
  table_diff (bs_accounts s) (bs_accounts held) (λ id, (parent_account k id).2).
Definition slots_diff (s held : BlockState) (k : KeyTable) : list (nat * U256) :=
  table_diff (bs_slots s) (bs_slots held) (λ id, (parent_slot k id).2).

Definition state_copy_from (s src : BlockState) : BlockState :=
  mkBlockState (table_copy_from (bs_accounts s) (bs_accounts src)) (table_copy_from (bs_slots s) (bs_slots src)).

(** ** Absorbing a run

    What the EVM leaves of an account: the account now, whether it was modified
    or destroyed, and its storage; with the account and the storage it started
    from. *)
Record RunAccount := mkRunAccount {
  ru_address : Address;
  ru_modified : bool;
  ru_destroyed : bool;
  ru_now : Account;
  ru_storage : list (B256 * U256);
  ru_initial : option (Account * gmap B256 U256)
}.

(** State passing with an error that leaves what was written. *)
Definition absorb_slot (address : Address) (destroyed : bool) (initial : gmap B256 U256)
    (acc : Result unit StateError * KeyTable * BlockState) (e : B256 * U256) : Result unit StateError * KeyTable * BlockState :=
  let '(r, k, s) := acc in
  match r with
  | Err _ => acc
  | Ok _ =>
      let '(key, value) := e in
      match (if destroyed then Some 0 else initial !! key) with
      | None => (Err StateFold, k, s)
      | Some old =>
          if value =? old then acc
          else
            match intern_slot address key k with
            | (Err e, k) => (Err e, k, s)
            | (Ok id, k) =>
                match set_slot id value s with
                | (true, s) => (Ok tt, k, s)
                | (false, s) => (Err StateFull, k, s)
                end
            end
      end
  end.

(** The code of an account that got a new one is kept first. *)
Definition absorb_code (codes : gmap B256 (list Z)) (now initial : Account) (k : KeyTable) : Result unit StateError * KeyTable :=
  if negb (ac_code_hash now =? ac_code_hash initial) && bool_decide (kt_deployed_codes k !! ac_code_hash now = None) then
    match codes !! ac_code_hash now with
    | None => (Err StateFold, k)
    | Some code => (Ok tt, k <| kt_deployed_codes ::= <[ac_code_hash now := code]> |>)
    end
  else (Ok tt, k).

Definition absorb_info (codes : gmap B256 (list Z)) (a : RunAccount) (initial : Account) (k : KeyTable) (s : BlockState)
    : Result unit StateError * KeyTable * BlockState :=
  if decide (ru_now a = initial) then (Ok tt, k, s)
  else
    match absorb_code codes (ru_now a) initial k with
    | (Err e, k) => (Err e, k, s)
    | (Ok _, k) =>
        match intern_account (ru_address a) k with
        | (Err e, k) => (Err e, k, s)
        | (Ok id, k) =>
            match set_account id (ru_now a) s with
            | (true, s) => (Ok tt, k, s)
            | (false, s) => (Err StateFull, k, s)
            end
        end
    end.

(** [codes]: the codes the run has loaded or deployed. *)
Definition absorb_account (codes : gmap B256 (list Z)) (acc : Result unit StateError * KeyTable * BlockState)
    (a : RunAccount) : Result unit StateError * KeyTable * BlockState :=
  let '(r, k, s) := acc in
  match r with
  | Err _ => acc
  | Ok _ =>
      if negb (ru_modified a) then acc
      else
        match ru_initial a with
        | None => (Err StateFold, k, s)
        | Some (initial, storage) =>
            if ru_destroyed a && ac_has_storage initial then (Err DestroyedStorage, k, s)
            else
              foldl (absorb_slot (ru_address a) (ru_destroyed a) storage) (absorb_info codes a initial k s) (ru_storage a)
        end
  end.

Definition absorb_run (codes : gmap B256 (list Z)) (run : list RunAccount) (k : KeyTable) (s : BlockState)
    : Result unit StateError * KeyTable * BlockState :=
  foldl (absorb_account codes) (Ok tt, k, s) run.

(** ** The view of the EVM *)

Definition view_account (k : KeyTable) (s : BlockState) (address : Address) : option AccountState :=
  match kt_account_ids k !! address with
  | Some id => Some (account_to_state (state_account k s id))
  | None => get_account_state address
  end.

Definition view_storage (k : KeyTable) (s : BlockState) (address : Address) (key : B256) : option U256 :=
  match kt_slot_ids k !! (address, key) with
  | Some id => Some (state_slot k s id)
  | None => get_storage_value address key
  end.

Definition view_code (k : KeyTable) (code_hash : B256) : option (list Z) :=
  match kt_deployed_codes k !! code_hash with Some code => Some code | None => get_account_code code_hash end.
End state.

(** ** Undoing

    Two tables are equivalent when they hold the same values, in the same order
    of writing and with the same log; what is left in unset cells does not
    matter. *)
Section undo.
Context {T : Type} `{!Inhabited T} `{!EqDecision T}.
Implicit Types (t u : UndoTable T) (v : T) (id : nat).

#[export] Instance table_equiv : Equiv (UndoTable T) := λ t u,
  (∀ id, table_get t id = table_get u id) ∧ ut_written t = ut_written u ∧ ut_undo_log t = ut_undo_log u.

#[export] Instance table_equivalence : Equivalence (≡@{UndoTable T}).
Proof.
  split; [done| |].
  - intros t u (H1 & H2 & H3). by split_and!; [intros id; rewrite H1|..].
  - intros t u w (H1 & H2 & H3) (H4 & H5 & H6). split_and!; [intros id; by rewrite H1|congruence..].
Qed.

#[export] Instance table_value_proper parent : Proper ((≡) ==> eq ==> eq) (table_value (T := T) parent).
Proof. intros t u (H & _) id _ <-. unfold table_value. by rewrite H. Qed.

(** The keys of the log's first writes, in order. *)
Definition firsts (log : list (nat * T * bool)) : list nat :=
  (λ x : nat * T * bool, x.1.1) <$> List.filter (λ x : nat * T * bool, x.2) log.

(** The keys with a value are those written, once each, the log's keys have
    cells, and its first writes are the last of those written. *)
Record table_wf t : Prop := mk_table_wf {
  tw_written : ∀ id, id ∈ ut_written t ↔ is_Some (table_get t id);
  tw_nodup : NoDup (ut_written t);
  tw_log : Forall (λ x, (x.1.1 < length (ut_values t))%nat) (ut_undo_log t);
  tw_firsts : ∃ w, ut_written t = w ++ firsts (ut_undo_log t)
}.

Lemma firsts_snoc log x : firsts (log ++ [x]) = firsts log ++ if x.2 then [x.1.1] else [].
Proof. unfold firsts. rewrite List.filter_app, fmap_app. cbn. by destruct (x.2). Qed.

Lemma lookup_grown id values j :
  grown id values !! j = match values !! j with
                         | Some x => Some x
                         | None => if decide (j ≤ id)%nat then Some (false, inhabitant : T) else None
                         end.
Proof.
  unfold grown. destruct (values !! j) as [x|] eqn:Hj; [by apply lookup_app_l_Some|].
  apply lookup_ge_None in Hj. rewrite lookup_app_r by done. case_decide.
  - by rewrite lookup_replicate_2 by lia.
  - apply lookup_ge_None. rewrite length_replicate. lia.
Qed.

Lemma length_grown id (values : list (bool * T)) : length (grown id values) = Nat.max (length values) (S id).
Proof. unfold grown. rewrite length_app, length_replicate. lia. Qed.

Lemma table_set_get id v t t' j :
  table_set id v t = (true, t') → table_get t' j = if decide (j = id) then Some v else table_get t j.
Proof.
  unfold table_set. destruct (_ =? _); [done|]. destruct (default _ _) as [set old]. intros [= <-].
  unfold table_get. cbn. case_decide as Hj; [subst j|].
  - rewrite list_lookup_insert_eq; [done|]. rewrite length_grown. lia.
  - rewrite list_lookup_insert_ne, lookup_grown by done. destruct (ut_values t !! j); [done|]. by case_decide.
Qed.

(** What a write pushes. *)
Lemma table_set_log id v t t' :
  table_set id v t = (true, t') →
  ∃ old, ut_undo_log t' = ut_undo_log t ++ [(id, old, bool_decide (table_get t id = None))] ∧
    ut_written t' = (if bool_decide (table_get t id = None) then ut_written t ++ [id] else ut_written t) ∧
    (length (ut_values t) ≤ length (ut_values t'))%nat ∧ (id < length (ut_values t'))%nat ∧
    (∀ x, table_get t id = Some x → old = x).
Proof.
  unfold table_set, table_get. destruct (_ =? _); [done|]. rewrite lookup_grown.
  assert ((length (ut_values t) ≤ length (<[id := (true, v)]> (grown id (ut_values t))))%nat ∧
    (id < length (<[id := (true, v)]> (grown id (ut_values t))))%nat) as [Hl1 Hl2]
    by (rewrite length_insert, length_grown; lia).
  destruct (ut_values t !! id) as [[[] x]|] eqn:Hx; cbn.
  - intros [= <-]. exists x. split_and!; try done. by intros y [= <-].
  - intros [= <-]. by exists x.
  - rewrite decide_True by done. cbn. intros [= <-]. by exists inhabitant.
Qed.

Lemma table_wf_set id v t t' : table_wf t → table_set id v t = (true, t') → table_wf t'.
Proof.
  intros [H1 H2 H3 [w H4]] Hs. pose proof (table_set_log _ _ _ _ Hs) as (old & Hlog & Hw & Hlen & Hid & _).
  split; [..|exists w; rewrite Hlog, Hw, firsts_snoc, H4; cbn; case_bool_decide; by rewrite ?app_assoc, ?app_nil_r].
  - intros j. rewrite Hw, (table_set_get _ _ _ _ _ Hs). case_bool_decide as Hn; case_decide as Hj; subst.
    + rewrite elem_of_app. split; [by eexists|]. intros _. right. by left.
    + rewrite elem_of_app, H1, list_elem_of_singleton. naive_solver.
    + split; [by eexists|]. intros _. rewrite H1. by destruct (table_get t id).
    + apply H1.
  - rewrite Hw. case_bool_decide as Hn; [|done]. apply NoDup_app. split_and!; [done| |apply NoDup_singleton].
    intros j Hj ->%list_elem_of_singleton. apply H1 in Hj. rewrite Hn in Hj. by destruct Hj.
  - rewrite Hlog. apply Forall_app. split; [|by apply Forall_singleton].
    eapply Forall_impl; [exact H3|]. intros x Hx. cbn in *. lia.
Qed.

Lemma pop_snoc {A} (l : list A) x : pop (l ++ [x]) = l.
Proof. unfold pop. rewrite length_app, Nat.add_comm. cbn. rewrite Nat.sub_0_r. apply take_app_length. Qed.

(** Undoing a write takes it back. *)
Lemma undo_set id v t t' :
  table_set id v t = (true, t') → ∃ u, undo_one t' = Some u ∧ u ≡ t ∧ (length (ut_values t) ≤ length (ut_values u))%nat.
Proof.
  intros Hs. pose proof (table_set_log _ _ _ _ Hs) as (old & Hlog & Hw & Hlen & Hid & Hold).
  pose proof (λ j, table_set_get _ _ _ _ j Hs) as Hget. unfold undo_one. rewrite Hlog, last_snoc.
  destruct (lookup_lt_is_Some_2 _ _ Hid) as [[set x] Hx]. rewrite Hx. cbn [mbind option_bind].
  assert (set = true) as ->.
  { specialize (Hget id). rewrite decide_True in Hget by done. unfold table_get in Hget. rewrite Hx in Hget. by destruct set. }
  eexists. split; [reflexivity|]. case_bool_decide as Hn; cbn [ut_values].
  - rewrite length_insert. split; [|done]. split_and!; cbn; [|by rewrite Hw, pop_snoc|by rewrite pop_snoc].
    intros j. specialize (Hget j). unfold table_get in *. cbn. destruct (decide (j = id)) as [->|Hj].
    + rewrite list_lookup_insert_eq by done. by rewrite Hn.
    + by rewrite list_lookup_insert_ne.
  - rewrite length_insert. split; [|done]. split_and!; cbn; [|done|by rewrite pop_snoc].
    intros j. specialize (Hget j). destruct (decide (j = id)) as [->|Hj].
    + unfold table_get at 1. cbn. rewrite list_lookup_insert_eq by done.
      destruct (table_get t id) as [y|]; [|done]. by rewrite (Hold y eq_refl).
    + unfold table_get in *. cbn. by rewrite list_lookup_insert_ne.
Qed.

Lemma undo_one_equiv t u :
  Forall (λ x, (x.1.1 < length (ut_values t))%nat) (ut_undo_log t) →
  Forall (λ x, (x.1.1 < length (ut_values u))%nat) (ut_undo_log u) → t ≡ u →
  ∃ t' u', undo_one t = Some t' ∧ undo_one u = Some u' ∧ t' ≡ u' ∧
    Forall (λ x, (x.1.1 < length (ut_values t'))%nat) (ut_undo_log t') ∧
    Forall (λ x, (x.1.1 < length (ut_values u'))%nat) (ut_undo_log u').
Proof.
  intros Ht Hu (Hg & Hw & Hl). unfold undo_one. rewrite <- Hl in Hu |- *.
  destruct (last (ut_undo_log t)) as [[[id old] first]|] eqn:Hlast.
  2:{ exists t, u. rewrite <- Hl. by split_and!. }
  apply last_Some in Hlast as [l Hlog]. rewrite Hlog in *. clear Hl Hlog.
  apply Forall_app in Ht as [Ht1 Ht2]. apply Forall_app in Hu as [Hu1 Hu2]. rewrite Forall_singleton in Ht2, Hu2.
  destruct (lookup_lt_is_Some_2 _ _ Ht2) as [[s1 x1] Hx1]. destruct (lookup_lt_is_Some_2 _ _ Hu2) as [[s2 x2] Hx2].
  cbn [fst] in *. rewrite Hx1, Hx2. cbn [mbind option_bind].
  assert (s1 = s2) as ->.
  { specialize (Hg id). unfold table_get in Hg. rewrite Hx1, Hx2 in Hg. by destruct s1, s2. }
  eexists _, _. split_and!; [reflexivity..| | |].
  - split_and!; destruct first; cbn; rewrite ?pop_snoc, ?Hw; try done.
    all: intros j; specialize (Hg j); unfold table_get in *; cbn; destruct (decide (j = id)) as [->|Hj].
    all: rewrite ?list_lookup_insert_eq, ?list_lookup_insert_ne by done; done.
  - destruct first; cbn; by rewrite pop_snoc, length_insert.
  - destruct first; cbn; by rewrite pop_snoc, length_insert.
Qed.

(** Tables reached by writes, some of them taken back. *)
Inductive written_after t : UndoTable T → Prop :=
| after_none : written_after t t
| after_set t' id v t'' : written_after t t' → table_set id v t' = (true, t'') → written_after t t''
| after_undo t' t'' : written_after t t' → (length (ut_undo_log t) < length (ut_undo_log t'))%nat →
    undo_one t' = Some t'' → written_after t t''.

Lemma undo_one_log t u :
  undo_one t = Some u → ut_undo_log u = pop (ut_undo_log t) ∧ length (ut_values u) = length (ut_values t).
Proof.
  unfold undo_one. destruct (last (ut_undo_log t)) as [[[id old] first]|] eqn:Hl.
  - destruct (ut_values t !! id) as [[set x]|]; [|done]. cbn. intros [= <-]. by destruct first; cbn; rewrite length_insert.
  - apply last_None in Hl. intros [= <-]. by rewrite Hl.
Qed.

Lemma pop_prefix {A} (l : list A) : pop l = [] ∨ ∃ x, l = pop l ++ [x].
Proof. destruct l as [|x l] using rev_ind; [by left|]. right. exists x. by rewrite pop_snoc. Qed.

(** Taking back the last write keeps a table well formed. *)
Lemma table_wf_undo t u : table_wf t → undo_one t = Some u → table_wf u.
Proof.
  intros [H1 H2 H3 [w H4]] Hu. pose proof (undo_one_log _ _ Hu) as [Hlog Hlen]. revert Hu. unfold undo_one.
  destruct (last (ut_undo_log t)) as [[[id old] first]|] eqn:Hl; [|by intros [= <-]; split; eauto].
  destruct (ut_values t !! id) as [[set x]|] eqn:Hx; [|done]. cbn. intros Hu.
  apply last_Some in Hl as [log Hl]. rewrite Hl in H3, H4, Hlog. rewrite pop_snoc in Hlog.
  apply Forall_app in H3 as [H3 _]. rewrite firsts_snoc in H4. cbn [fst snd] in H4.
  assert (∀ j, table_get u j = if decide (j = id) then (if first then None else if set then Some old else None) else table_get t j) as Hget.
  { intros j. unfold table_get. destruct first; injection Hu as <-; cbn; case_decide as Hj; subst;
      rewrite ?list_lookup_insert_eq, ?list_lookup_insert_ne by (done || by eapply lookup_lt_Some); done. }
  assert (ut_written u = if first then pop (ut_written t) else ut_written t) as Hw by (by destruct first; injection Hu as <-).
  rewrite <- Hlen in H3. split; [|rewrite Hw|by rewrite Hlog|exists w; rewrite Hw, Hlog]; destruct first;
    rewrite ?app_nil_r in H4; try (rewrite app_assoc in H4; rewrite H4, pop_snoc); try done.
  - intros j. rewrite app_assoc in H4. rewrite Hw, H4, pop_snoc, Hget. specialize (H1 j). rewrite H4, elem_of_app, list_elem_of_singleton in H1.
    rewrite H4 in H2. apply NoDup_app in H2 as (_ & Hd & _). case_decide as Hj; [subst j|naive_solver].
    split; [|by intros []]. intros Hin. destruct (Hd id Hin). by left.
  - intros j. rewrite Hw, Hget, H1. case_decide as Hj; [subst j|done]. unfold table_get. rewrite Hx. by destruct set.
  - rewrite H4 in H2. by apply NoDup_app in H2 as (? & _).
Qed.

Lemma undo_iter_equiv n : ∀ t u,
  Forall (λ x, (x.1.1 < length (ut_values t))%nat) (ut_undo_log t) →
  Forall (λ x, (x.1.1 < length (ut_values u))%nat) (ut_undo_log u) → t ≡ u →
  ∃ t' u', Nat.iter n (λ acc, x ← acc; undo_one x) (Some t) = Some t' ∧
    Nat.iter n (λ acc, x ← acc; undo_one x) (Some u) = Some u' ∧ t' ≡ u'.
Proof.
  induction n as [|n IH]; intros t u Ht Hu Heq; [by exists t, u|].
  rewrite !Nat.iter_succ_r. cbn [mbind option_bind].
  destruct (undo_one_equiv t u Ht Hu Heq) as (t' & u' & -> & -> & Heq' & Ht' & Hu'). by apply IH.
Qed.

Lemma undo_iter_none n : Nat.iter n (λ acc : option (UndoTable T), x ← acc; undo_one x) None = None.
Proof. induction n as [|n IH]; [done|]. by rewrite Nat.iter_succ, IH. Qed.

Lemma undo_iter_wf n : ∀ t u, table_wf t → Nat.iter n (λ acc, x ← acc; undo_one x) (Some t) = Some u → table_wf u.
Proof.
  induction n as [|n IH]; intros t u Ht; [by intros [= <-]|]. rewrite Nat.iter_succ_r. cbn [mbind option_bind].
  destruct (undo_one t) as [t1|] eqn:H1; [|by rewrite undo_iter_none]. apply IH. by eapply table_wf_undo.
Qed.

Lemma written_after_log t t' : written_after t t' → ∃ l, ut_undo_log t' = ut_undo_log t ++ l.
Proof.
  induction 1 as [|t' id v t'' _ [l Hl] Hs|t' t'' _ [l Hl] Hlt Hu]; [exists []; by rewrite app_nil_r|..].
  - apply table_set_log in Hs as (old & -> & _). rewrite Hl. eexists. by rewrite <- app_assoc.
  - apply undo_one_log in Hu as [-> _]. rewrite Hl in Hlt |- *. rewrite length_app in Hlt.
    destruct l as [|x l _] using rev_ind; [cbn in Hlt; lia|]. exists l. by rewrite app_assoc, pop_snoc.
Qed.

Lemma written_after_wf t t' : table_wf t → written_after t t' → table_wf t'.
Proof. intros Ht. induction 1; [done|by eapply table_wf_set|by eapply table_wf_undo]. Qed.

(** Undoing to a checkpoint restores the table of the checkpoint. *)
Lemma table_undo_restores t t' :
  table_wf t → written_after t t' →
  ∃ u, table_undo_to (length (ut_undo_log t)) t' = Some u ∧ u ≡ t ∧ table_wf u.
Proof.
  intros Hwf Ha. assert (∃ u, table_undo_to (length (ut_undo_log t)) t' = Some u ∧ u ≡ t) as (u & Hu & Heq).
  { induction Ha as [|t' id v t'' Ha IH Hs|t' t'' Ha IH Hlt Hu'].
    { exists t. unfold table_undo_to. rewrite Nat.sub_diag. by split. }
    2: { destruct IH as (u & Hu & Heq). exists u. split; [|done]. unfold table_undo_to in *.
         replace (length (ut_undo_log t') - length (ut_undo_log t))%nat with (S (length (ut_undo_log t'') - length (ut_undo_log t))) in Hu.
         - rewrite Nat.iter_succ_r in Hu. cbn [mbind option_bind] in Hu. by rewrite Hu' in Hu.
         - apply undo_one_log in Hu' as [-> _]. unfold pop. rewrite length_take. lia. }
    destruct (written_after_log _ _ Ha) as [l Hl]. pose proof (written_after_wf _ _ Hwf Ha) as Hwf'.
    destruct IH as (u & Hu & Heq). destruct (undo_set _ _ _ _ Hs) as (u1 & Hu1 & Hequ1 & Hlen).
    assert (Forall (λ x, (x.1.1 < length (ut_values u1))%nat) (ut_undo_log u1)) as Hr1.
    { destruct Hequ1 as (_ & _ & ->). eapply Forall_impl; [apply (tw_log _ Hwf')|]. intros x Hx. cbn in *. lia. }
    unfold table_undo_to in *. destruct (table_set_log _ _ _ _ Hs) as (old & Hlog & _).
    replace (length (ut_undo_log t'') - length (ut_undo_log t))%nat
      with (S (length (ut_undo_log t') - length (ut_undo_log t)))
      by (rewrite Hlog, Hl, !length_app; cbn; lia).
    rewrite Nat.iter_succ_r. cbn [mbind option_bind]. rewrite Hu1.
    destruct (undo_iter_equiv (length (ut_undo_log t') - length (ut_undo_log t)) u1 t' Hr1 (tw_log _ Hwf') Hequ1)
      as (a & b & Ha' & Hb & Hab).
    rewrite Hu in Hb. injection Hb as <-. exists a. split; [done|]. by rewrite Hab. }
  exists u. split_and!; [done..|]. eapply undo_iter_wf; [|exact Hu]. by eapply written_after_wf.
Qed.

(** Undoing to a later checkpoint is part of what was written since an earlier
    one. *)
Lemma table_undo_written n t t' u :
  written_after t t' → (length (ut_undo_log t) ≤ n)%nat → table_undo_to n t' = Some u → written_after t u.
Proof.
  intros Ha Hn. unfold table_undo_to. remember (length (ut_undo_log t') - n)%nat as d eqn:Hd.
  revert t' Ha Hd. induction d as [|d IH]; intros t' Ha Hd; [by intros [= <-]|].
  rewrite Nat.iter_succ_r. cbn [mbind option_bind]. destruct (undo_one t') as [t1|] eqn:H1; [|by rewrite undo_iter_none].
  apply IH; [eapply after_undo; [done|lia|done]|]. apply undo_one_log in H1 as [-> _]. unfold pop. rewrite length_take. lia.
Qed.

(** ** Copies and differences *)

Lemma unset_lookup values id j :
  unset (T := T) values id !! j = if decide (j = id) then (λ x, (false, x.2)) <$> values !! j else values !! j.
Proof.
  unfold unset. case_decide as Hj; [subst j|]; destruct (values !! id) as [[b x]|] eqn:Hx.
  - rewrite list_lookup_insert_eq by (by eapply lookup_lt_Some). done.
  - by rewrite Hx.
  - by rewrite list_lookup_insert_ne.
  - done.
Qed.

Lemma table_reset_get t j : table_wf t → table_get (table_reset t) j = None.
Proof.
  intros [Hw _ _]. unfold table_reset, table_get. cbn.
  assert (∀ l values, foldl (unset (T := T)) values l !! j =
    if decide (j ∈ l) then (λ x, (false, x.2)) <$> values !! j else values !! j) as Hf.
  { induction l as [|id l IH]; intros values; cbn [foldl]; [by rewrite decide_False by apply not_elem_of_nil|].
    rewrite IH, unset_lookup. destruct (decide (j = id)) as [->|Hj]; repeat case_decide; try set_solver.
    by destruct (values !! id) as [[]|]. }
  rewrite Hf. specialize (Hw j). unfold table_get in Hw. case_decide as Hin.
  - destruct (ut_values t !! j) as [[]|]; done.
  - destruct (ut_values t !! j) as [[[] x]|]; try done. destruct Hin. apply Hw. by eexists.
Qed.

Lemma table_wf_reset t : table_wf t → table_wf (table_reset t).
Proof.
  intros Hwf. split; [|apply NoDup_nil_2|constructor|by exists []]. intros id. rewrite (table_reset_get t id Hwf).
  split; [by intros ?%elem_of_nil|by intros []].
Qed.

Lemma copied_lookup (src : UndoTable T) l : ∀ values j,
  (length (ut_values src) ≤ length values)%nat →
  foldl (λ vs id, match snd <$> ut_values src !! id with Some v => <[id := (true, v)]> vs | None => vs end) values l !! j =
  if decide (j ∈ l ∧ is_Some (ut_values src !! j)) then (λ x, (true, x.2)) <$> ut_values src !! j else values !! j.
Proof.
  induction l as [|id l IH]; intros values j Hlen; cbn [foldl].
  { rewrite decide_False; [done|]. intros [?%elem_of_nil _]. done. }
  destruct (ut_values src !! id) as [[b v]|] eqn:Hv; cbn [fmap option_fmap option_map snd].
  - rewrite IH by (by rewrite length_insert). destruct (decide (j = id)) as [->|Hj].
    + rewrite (decide_True (P := id ∈ id :: l ∧ _)) by (split; [by left|by rewrite Hv]). case_decide; [done|].
      rewrite list_lookup_insert_eq by (apply lookup_lt_Some in Hv; lia). by rewrite Hv.
    + rewrite list_lookup_insert_ne by done. repeat case_decide; set_solver.
  - rewrite IH by done. repeat case_decide; try done; exfalso.
    + set_solver.
    + destruct H0 as [[->|?]%elem_of_cons Hs]; [by rewrite Hv in Hs; destruct Hs|]. by apply H.
Qed.

Lemma table_copy_get t src j : table_wf t → table_wf src → table_get (table_copy_from t src) j = table_get src j.
Proof.
  intros Ht Hsrc. unfold table_copy_from. set (r := table_reset t). unfold table_get at 1. cbn [ut_values].
  rewrite copied_lookup by (rewrite length_app, length_replicate; lia).
  pose proof (tw_written _ Hsrc j) as Hw. pose proof (table_reset_get t j Ht) as Hr. fold r in Hr.
  unfold table_get in Hw, Hr |- *. case_decide as Hin.
  - destruct Hin as [Hin [x Hx]]. rewrite Hx in Hw |- *. cbn. destruct x as [[] v]; [done|].
    apply Hw in Hin as []. done.
  - rewrite lookup_app. destruct (ut_values r !! j) as [[[] x]|].
    + done.
    + destruct (ut_values src !! j) as [[[] y]|]; try done. destruct Hin. split; [|by eexists]. apply Hw. by eexists.
    + destruct (replicate _ _ !! _) as [[b y]|] eqn:Hrep.
      * apply lookup_replicate_1 in Hrep as [[= -> _] _].
        destruct (ut_values src !! j) as [[[] z]|]; try done. destruct Hin. split; [|by eexists]. apply Hw. by eexists.
      * destruct (ut_values src !! j) as [[[] z]|]; try done. destruct Hin. split; [|by eexists]. apply Hw. by eexists.
Qed.

Lemma table_wf_copy t src : table_wf t → table_wf src → table_wf (table_copy_from t src).
Proof.
  intros Ht Hsrc. split; [| |constructor|exists (ut_written (table_copy_from t src)); by rewrite app_nil_r].
  - intros id. rewrite table_copy_get by done. apply Hsrc.
  - apply Hsrc.
Qed.

(** The difference names exactly the keys whose values differ, once each, with
    the value they have now. *)
Lemma table_diff_spec parent t held :
  table_wf t → table_wf held →
  NoDup (table_diff t held parent).*1 ∧
  ∀ id v, (id, v) ∈ table_diff t held parent ↔ table_value parent t id = v ∧ table_value parent held id ≠ v.
Proof.
  intros Ht Hh. unfold table_diff.
  set (ours := omap _ (ut_written t)). set (theirs := omap _ (ut_written held)).
  assert (∀ t id, table_wf t → id ∈ ut_written t → ∃ v, ut_values t !! id = Some (true, v) ∧ table_get t id = Some v) as Hval.
  { intros w id Hw [v Hv]%(tw_written _ Hw). exists v. split; [|done]. unfold table_get in Hv.
    destruct (ut_values w !! id) as [[[] x]|]; by simplify_eq. }
  assert (∀ id v, (id, v) ∈ ours ↔ table_get t id = Some v ∧ table_value parent held id ≠ v) as Hours.
  { intros id v. unfold ours. rewrite list_elem_of_omap. split.
    - intros (id' & Hin & He). destruct (Hval t id' Ht Hin) as (w & Hw & Hg). rewrite Hw in He.
      cbn [fmap option_fmap option_map snd mbind option_bind] in He. case_decide; [done|]. by injection He as -> ->.
    - intros [Hg Hne]. assert (id ∈ ut_written t) as Hin by (apply (tw_written _ Ht); by eexists). exists id.
      split; [done|]. destruct (Hval t id Ht Hin) as (w & Hw & Hg'). rewrite Hw.
      cbn [fmap option_fmap option_map snd mbind option_bind]. assert (w = v) as -> by congruence. by rewrite decide_False. }
  assert (∀ id v, (id, v) ∈ theirs ↔ table_get t id = None ∧ parent id = v ∧ table_value parent held id ≠ v) as Htheirs.
  { intros id v. unfold theirs. rewrite list_elem_of_omap. split.
    - intros (id' & Hin & He). destruct (Hval held id' Hh Hin) as (w & Hw & Hg). rewrite Hw in He.
      cbn [fmap option_fmap option_map snd mbind option_bind] in He. case_decide as Hd; [|done]. injection He as -> <-.
      unfold table_value. rewrite Hg. naive_solver.
    - intros (Hg & <- & Hne). unfold table_value in Hne. destruct (table_get held id) as [w|] eqn:Hgh; [|done].
      assert (id ∈ ut_written held) as Hin by (apply (tw_written _ Hh); by eexists). exists id. split; [done|].
      destruct (Hval held id Hh Hin) as (w' & Hw & Hg'). rewrite Hw. cbn [fmap option_fmap option_map snd mbind option_bind].
      rewrite decide_True; [done|]. split; [done|]. cbn in Hne. congruence. }
  split.
  - assert (∀ (f : nat → option (nat * T)) l, (∀ x y, f x = Some y → y.1 = x) → NoDup l → NoDup (omap f l).*1) as Hnd.
    { intros f l Hf. induction 1 as [|x l Hx _ IH]; [by apply NoDup_nil_2|]. cbn. destruct (f x) as [y|] eqn:Hy; [|done].
      cbn. constructor; [|done]. rewrite (Hf _ _ Hy). intros (z & Hz & Hin)%list_elem_of_fmap.
      apply list_elem_of_omap in Hin as (x' & Hx' & Hy'). apply Hf in Hy'. subst. congruence. }
    rewrite fmap_app. apply NoDup_app. split_and!.
    + apply Hnd; [|apply Ht]. intros x y. destruct (ut_values t !! x) as [[]|]; [|done]. cbn. case_decide; [done|]. by intros [= <-].
    + intros id (e & -> & Hin)%list_elem_of_fmap (e' & He & Hin')%list_elem_of_fmap.
      destruct e as [id v], e' as [id' v']. cbn in He. subst id'. apply Hours in Hin as [? _]. apply Htheirs in Hin' as [? _]. congruence.
    + apply Hnd; [|apply Hh]. intros x y. destruct (ut_values held !! x) as [[]|]; [|done]. cbn. case_decide; [|done]. by intros [= <-].
  - intros id v. rewrite elem_of_app, Hours, Htheirs. unfold table_value at 3. destruct (table_get t id) as [w|]; cbn; naive_solver.
Qed.
End undo.

(** ** What a run leaves *)
Section runs.
Context `{DB : StateDb}.
Implicit Types (k : KeyTable) (s : BlockState).

(** Every id names its key with the parent's value. *)
Record keys_ok k : Prop := mk_keys_ok {
  ko_accounts : ∀ a id, kt_account_ids k !! a = Some id →
    ∃ st, get_account_state a = Some st ∧ kt_accounts k !! id = Some (a, account_from_state st);
  ko_slots : ∀ a key id, kt_slot_ids k !! (a, key) = Some id →
    ∃ v, get_storage_value a key = Some v ∧ kt_slots k !! id = Some (a, key, v)
}.

(** The keys a table writes are below a bound. *)
Definition ids_below {T} (n : nat) (t : UndoTable T) : Prop :=
  Forall (λ id, (id < n)%nat) (ut_written t) ∧ Forall (λ x, (x.1.1 < n)%nat) (ut_undo_log t).

Lemma ids_below_weaken {T} (n n' : nat) (t : UndoTable T) : (n ≤ n')%nat → ids_below n t → ids_below n' t.
Proof. intros Hn [H1 H2]. split; (eapply Forall_impl; [eassumption|]; intros x Hx; cbn in *; lia). Qed.

Record block_state_ok k s : Prop := mk_state_ok {
  so_accounts : table_wf (bs_accounts s);
  so_slots : table_wf (bs_slots s);
  so_account_ids : ids_below (length (kt_accounts k)) (bs_accounts s);
  so_slot_ids : ids_below (length (kt_slots k)) (bs_slots s)
}.

(** A key table only gains keys, at the end. *)
Record keys_ext k k' : Prop := mk_keys_ext {
  ke_account_ids : kt_account_ids k ⊆ kt_account_ids k';
  ke_slot_ids : kt_slot_ids k ⊆ kt_slot_ids k';
  ke_accounts : kt_accounts k `prefix_of` kt_accounts k';
  ke_slots : kt_slots k `prefix_of` kt_slots k';
  ke_codes : kt_deployed_codes k ⊆ kt_deployed_codes k';
  ke_new_accounts : ∀ a id, kt_account_ids k' !! a = Some id → kt_account_ids k !! a = None → (length (kt_accounts k) ≤ id)%nat;
  ke_new_slots : ∀ e id, kt_slot_ids k' !! e = Some id → kt_slot_ids k !! e = None → (length (kt_slots k) ≤ id)%nat
}.

#[export] Instance keys_ext_preorder : PreOrder keys_ext.
Proof.
  split.
  - intros k. split; try done; congruence.
  - intros k1 k2 k3 [a1 b1 c1 d1 e1 f1 g1] [a2 b2 c2 d2 e2 f2 g2].
    assert (length (kt_accounts k1) ≤ length (kt_accounts k2))%nat by (by apply prefix_length).
    assert (length (kt_slots k1) ≤ length (kt_slots k2))%nat by (by apply prefix_length).
    split; try (by etrans).
    + intros a id H3 H1. destruct (kt_account_ids k2 !! a) as [id'|] eqn:H2.
      * assert (id' = id) as -> by (eapply lookup_weaken in H2; [|exact a2]; congruence). eauto.
      * specialize (f2 _ _ H3 H2). lia.
    + intros a id H3 H1. destruct (kt_slot_ids k2 !! a) as [id'|] eqn:H2.
      * assert (id' = id) as -> by (eapply lookup_weaken in H2; [|exact b2]; congruence). eauto.
      * specialize (g2 _ _ H3 H2). lia.
Qed.

Lemma intern_account_ok a k r k' :
  keys_ok k → intern_account a k = (r, k') →
  keys_ok k' ∧ keys_ext k k' ∧ ∀ id, r = Ok id → kt_account_ids k' !! a = Some id.
Proof.
  intros [Hka Hks]. unfold intern_account. destruct (kt_account_ids k !! a) as [id|] eqn:Ha.
  { intros [= <- <-]. split_and!; [done|done|]. by intros ? [= <-]. }
  destruct (_ =? _); [by intros [= <- <-]|]. destruct (get_account_state a) as [st|] eqn:Hst; [|by intros [= <- <-]].
  intros [= <- <-]. split_and!.
  - split; rec_simpl; [|done]. intros a' id. rewrite lookup_insert_Some. intros [[<- <-]|[Hne Hid]].
    + exists st. split; [done|]. rewrite lookup_app_r, Nat.sub_diag by done. done.
    + destruct (Hka _ _ Hid) as (st' & ? & ?). exists st'. split; [done|]. by apply lookup_app_l_Some.
  - split; rec_simpl; try done; try congruence.
    + by apply insert_subseteq.
    + by apply prefix_app_r.
    + intros a' id. rewrite lookup_insert_Some. intros [[_ <-]|[_ H]] ?; [done|congruence].
  - intros ? [= <-]. rec_simpl. by rewrite lookup_insert_eq.
Qed.

Lemma intern_slot_ok a key k r k' :
  keys_ok k → intern_slot a key k = (r, k') →
  keys_ok k' ∧ keys_ext k k' ∧ ∀ id, r = Ok id → kt_slot_ids k' !! (a, key) = Some id.
Proof.
  intros [Hka Hks]. unfold intern_slot. destruct (kt_slot_ids k !! _) as [id|] eqn:Ha.
  { intros [= <- <-]. split_and!; [done|done|]. by intros ? [= <-]. }
  destruct (_ =? _); [by intros [= <- <-]|]. destruct (get_storage_value a key) as [v|] eqn:Hv; [|by intros [= <- <-]].
  intros [= <- <-]. split_and!.
  - split; rec_simpl; [done|]. intros a' key' id. rewrite lookup_insert_Some. intros [[[= <- <-] <-]|[Hne Hid]].
    + exists v. split; [done|]. rewrite lookup_app_r, Nat.sub_diag by done. done.
    + destruct (Hks _ _ _ Hid) as (st' & ? & ?). exists st'. split; [done|]. by apply lookup_app_l_Some.
  - split; rec_simpl; try done; try congruence.
    + by apply insert_subseteq.
    + by apply prefix_app_r.
    + intros a' id. rewrite lookup_insert_Some. intros [[_ <-]|[_ H]] ?; [done|congruence].
  - intros ? [= <-]. rec_simpl. by rewrite lookup_insert_eq.
Qed.

(** What the EVM sees of an account. *)
Definition seen_account k s (a : Address) : option Account := account_from_state <$> view_account k s a.

Hypothesis empty_root : EMPTY_TRIE_ROOT ≠ 0.

Lemma account_round_trip a : account_from_state (account_to_state a) = a.
Proof.
  destruct a as [b n c st]. unfold account_from_state, account_to_state. cbn. f_equal.
  destruct st; [|by rewrite Z.eqb_refl]. by rewrite (proj2 (Z.eqb_neq _ _)).
Qed.

Lemma seen_account_id k s a id : kt_account_ids k !! a = Some id → seen_account k s a = Some (state_account k s id).
Proof. intros H. unfold seen_account, view_account. rewrite H. cbn. by rewrite account_round_trip. Qed.

Lemma unwritten {T} `{!Inhabited T} (t : UndoTable T) n id :
  table_wf t → ids_below n t → (n ≤ id)%nat → table_get t id = None.
Proof.
  intros Hwf [Hall _] Hid. destruct (table_get t id) eqn:Hg; [|done].
  assert (id ∈ ut_written t) as Hin by (apply (tw_written _ Hwf); by eexists).
  rewrite Forall_forall in Hall. specialize (Hall _ Hin). cbn in Hall. lia.
Qed.

(** New keys do not change what the EVM sees. *)
Lemma seen_account_ext k k' s a :
  keys_ok k → keys_ok k' → keys_ext k k' → block_state_ok k s → seen_account k' s a = seen_account k s a.
Proof.
  intros Hk Hk' He Hs. destruct (kt_account_ids k !! a) as [id|] eqn:Ha.
  - pose proof (lookup_weaken _ _ _ _ Ha (ke_account_ids _ _ He)) as Ha'.
    rewrite (seen_account_id _ _ _ _ Ha), (seen_account_id _ _ _ _ Ha'). f_equal.
    unfold state_account, table_value, parent_account.
    destruct (ko_accounts _ Hk _ _ Ha) as (st & _ & H1). destruct (ke_accounts _ _ He) as [l ->].
    by rewrite (lookup_app_l_Some _ _ _ _ H1), H1.
  - destruct (kt_account_ids k' !! a) as [id|] eqn:Ha'.
    + rewrite (seen_account_id _ _ _ _ Ha'). unfold seen_account, view_account. rewrite Ha.
      destruct (ko_accounts _ Hk' _ _ Ha') as (st & -> & H1). cbn. f_equal. unfold state_account, table_value, parent_account.
      rewrite H1. rewrite (unwritten _ _ _ (so_accounts _ _ Hs) (so_account_ids _ _ Hs)); [done|]. by eapply ke_new_accounts.
    + unfold seen_account, view_account. by rewrite Ha, Ha'.
Qed.

Lemma view_storage_ext k k' s a key :
  keys_ok k → keys_ok k' → keys_ext k k' → block_state_ok k s → view_storage k' s a key = view_storage k s a key.
Proof.
  intros Hk Hk' He Hs. unfold view_storage. destruct (kt_slot_ids k !! (a, key)) as [id|] eqn:Ha.
  - rewrite (lookup_weaken _ _ _ _ Ha (ke_slot_ids _ _ He)). f_equal. unfold state_slot, table_value, parent_slot.
    destruct (ko_slots _ Hk _ _ _ Ha) as (v & _ & H1). destruct (ke_slots _ _ He) as [l ->].
    by rewrite (lookup_app_l_Some _ _ _ _ H1), H1.
  - destruct (kt_slot_ids k' !! (a, key)) as [id|] eqn:Ha'; [|done].
    destruct (ko_slots _ Hk' _ _ _ Ha') as (v & -> & H1). f_equal. unfold state_slot, table_value, parent_slot. rewrite H1.
    rewrite (unwritten _ _ _ (so_slots _ _ Hs) (so_slot_ids _ _ Hs)); [done|]. by eapply ke_new_slots.
Qed.

Lemma block_state_ok_ext k k' s : keys_ext k k' → block_state_ok k s → block_state_ok k' s.
Proof.
  intros He [H1 H2 H3 H4]. split; try done.
  - eapply ids_below_weaken; [|exact H3]. apply prefix_length, He.
  - eapply ids_below_weaken; [|exact H4]. apply prefix_length, He.
Qed.

Lemma written_set {T} `{!Inhabited T} (t t' : UndoTable T) n id v :
  table_set id v t = (true, t') → (id < n)%nat → ids_below n t → ids_below n t'.
Proof.
  intros Hs Hid [H1 H2]. destruct (table_set_log _ _ _ _ Hs) as (old & Hl & Hw & _). split; rewrite ?Hw, ?Hl.
  - case_bool_decide; [|done]. apply Forall_app. split; [done|]. by apply Forall_singleton.
  - apply Forall_app. split; [done|]. by apply Forall_singleton.
Qed.

Lemma set_account_seen k s a id v s' :
  keys_ok k → block_state_ok k s → kt_account_ids k !! a = Some id → set_account id v s = (true, s') →
  block_state_ok k s' ∧ (∀ b, seen_account k s' b = if decide (b = a) then Some v else seen_account k s b) ∧
  written_after (bs_accounts s) (bs_accounts s') ∧ bs_slots s' = bs_slots s.
Proof.
  intros Hk [H1 H2 H3 H4] Ha. unfold set_account. destruct (table_set id v (bs_accounts s)) as [ok t] eqn:Ht.
  intros [= -> <-]. destruct (ko_accounts _ Hk _ _ Ha) as (st & _ & Hid). split_and!; [| |by eapply after_set; [constructor|]|done].
  - split; cbn; try done; [by eapply table_wf_set|]. eapply written_set; [done| |done]. by eapply lookup_lt_Some.
  - intros b. destruct (kt_account_ids k !! b) as [id'|] eqn:Hb.
    + rewrite !(seen_account_id _ _ _ _ Hb). unfold state_account, table_value. cbn.
      rewrite (table_set_get _ _ _ _ _ Ht). destruct (ko_accounts _ Hk _ _ Hb) as (st' & _ & Hid').
      repeat case_decide; subst; try done; congruence.
    + unfold seen_account, view_account. rewrite Hb. case_decide; [congruence|done].
Qed.

Lemma set_slot_seen k s a key id v s' :
  keys_ok k → block_state_ok k s → kt_slot_ids k !! (a, key) = Some id → set_slot id v s = (true, s') →
  block_state_ok k s' ∧ (∀ b key', view_storage k s' b key' = if decide (b = a ∧ key' = key) then Some v else view_storage k s b key') ∧
  written_after (bs_slots s) (bs_slots s') ∧ bs_accounts s' = bs_accounts s.
Proof.
  intros Hk [H1 H2 H3 H4] Ha. unfold set_slot. destruct (table_set id v (bs_slots s)) as [ok t] eqn:Ht.
  intros [= -> <-]. destruct (ko_slots _ Hk _ _ _ Ha) as (st & _ & Hid). split_and!; [| |by eapply after_set; [constructor|]|done].
  - split; cbn; try done; [by eapply table_wf_set|]. eapply written_set; [done| |done]. by eapply lookup_lt_Some.
  - intros b key'. unfold view_storage. destruct (kt_slot_ids k !! (b, key')) as [id'|] eqn:Hb.
    + unfold state_slot, table_value. cbn. rewrite (table_set_get _ _ _ _ _ Ht).
      destruct (ko_slots _ Hk _ _ _ Hb) as (st' & _ & Hid').
      destruct (decide (id' = id)) as [->|Hne]; case_decide as Hd; try done; destruct_and?; subst; try congruence.
      destruct Hd. rewrite Hid in Hid'. by injection Hid' as -> -> _.
    + case_decide as Hd; [|done]. destruct Hd as [-> ->]. congruence.
Qed.

(** What absorbing does to the key table and the state, whether it fails or not. *)
Record absorbed k s k' s' : Prop := mk_absorbed {
  ab_keys : keys_ok k';
  ab_ext : keys_ext k k';
  ab_state : block_state_ok k' s';
  ab_accounts : written_after (bs_accounts s) (bs_accounts s');
  ab_slots : written_after (bs_slots s) (bs_slots s')
}.

Lemma absorbed_refl k s : keys_ok k → block_state_ok k s → absorbed k s k s.
Proof. intros Hk Hs. split; try done; constructor. Qed.

Lemma written_after_trans {T} `{!Inhabited T} (t1 t2 t3 : UndoTable T) :
  written_after t1 t2 → written_after t2 t3 → written_after t1 t3.
Proof.
  intros H. induction 1 as [|? ? ? ? _ IH|t' t'' H1 IH Hlt Hu]; [done|by eapply after_set|].
  eapply after_undo; [done| |done]. destruct (written_after_log _ _ H) as [l Hl]. rewrite Hl, length_app in Hlt. lia.
Qed.

Lemma absorbed_trans k1 s1 k2 s2 k3 s3 : absorbed k1 s1 k2 s2 → absorbed k2 s2 k3 s3 → absorbed k1 s1 k3 s3.
Proof. intros [] []. split; try done; [by etrans|by eapply written_after_trans..]. Qed.

Lemma absorbed_keys k s k' : keys_ok k' → keys_ext k k' → block_state_ok k s → absorbed k s k' s.
Proof. intros Hk He Hs. split; try done; [by eapply block_state_ok_ext|constructor..]. Qed.

Lemma set_account_full k s id v s' : set_account id v s = (false, s') → s' = s.
Proof.
  unfold set_account, table_set. destruct (_ =? _); [intros [= <-]; by destruct s|]. by destruct (default _ _).
Qed.
Lemma set_slot_full k s id v s' : set_slot id v s = (false, s') → s' = s.
Proof.
  unfold set_slot, table_set. destruct (_ =? _); [intros [= <-]; by destruct s|]. by destruct (default _ _).
Qed.

Lemma seen_same k s k' s' b :
  keys_ok k → block_state_ok k s → keys_ok k' → keys_ext k k' → bs_accounts s' = bs_accounts s → seen_account k' s' b = seen_account k s b.
Proof.
  intros Hk Hs Hk' He Ha. rewrite <- (seen_account_ext k k' s) by done.
  unfold seen_account, view_account, state_account. by rewrite Ha.
Qed.

Lemma storage_same k s k' s' b key :
  keys_ok k → block_state_ok k s → keys_ok k' → keys_ext k k' → bs_slots s' = bs_slots s → view_storage k' s' b key = view_storage k s b key.
Proof.
  intros Hk Hs Hk' He Ha. rewrite <- (view_storage_ext k k' s) by done.
  unfold view_storage, state_slot. by rewrite Ha.
Qed.

Lemma absorb_slot_ok address destroyed initial k s e r k' s' :
  keys_ok k → block_state_ok k s → absorb_slot address destroyed initial (Ok tt, k, s) e = (r, k', s') →
  absorbed k s k' s' ∧ (∀ b, seen_account k' s' b = seen_account k s b) ∧
  (r = Ok tt → (∀ old, (if destroyed then Some 0 else initial !! e.1) = Some old → view_storage k s address e.1 = Some old) →
   ∀ b key, view_storage k' s' b key = if decide (b = address ∧ key = e.1) then Some e.2 else view_storage k s b key).
Proof.
  intros Hk Hs. destruct e as [key value]. unfold absorb_slot. cbn [fst snd].
  destruct (if destroyed then _ else _) as [old|].
  2: { intros [= <- <- <-]. by split_and!; [apply absorbed_refl|..]. }
  destruct (value =? old) eqn:Hv.
  { intros [= <- <- <-]. split_and!; [by apply absorbed_refl|done|]. intros _ Hold b key'. case_decide as Hd; [|done].
    destruct Hd as [-> ->]. apply Z.eqb_eq in Hv as ->. by apply Hold. }
  destruct (intern_slot address key k) as [ri k1] eqn:Hi. pose proof (intern_slot_ok _ _ _ _ _ Hk Hi) as (Hk1 & He & Hid).
  destruct ri as [id|e].
  2: { intros [= <- <- <-]. split_and!; [by apply absorbed_keys|intros b; by apply seen_same|done]. }
  assert (block_state_ok k1 s) as Hs1 by (by eapply block_state_ok_ext).
  destruct (set_slot id value s) as [[] s1] eqn:Hset; intros [= <- <- <-].
  - destruct (set_slot_seen _ _ _ _ _ _ _ Hk1 Hs1 (Hid _ eq_refl) Hset) as (Hs2 & Hseen & Hwr & Heq). split_and!.
    + split; try done. rewrite Heq. constructor.
    + intros b. by apply seen_same.
    + intros _ _ b key'. rewrite Hseen. case_decide; [done|]. by apply view_storage_ext.
  - apply set_slot_full in Hset as ->; [|done]. split_and!; [by apply absorbed_keys|intros b; by apply seen_same|done].
Qed.

Lemma absorb_slots_err address destroyed initial l e k s :
  foldl (absorb_slot address destroyed initial) (Err e, k, s) l = (Err e, k, s).
Proof. by induction l. Qed.

Lemma absorb_slots_ok address destroyed initial l : ∀ k s r k' s',
  keys_ok k → block_state_ok k s → foldl (absorb_slot address destroyed initial) (Ok tt, k, s) l = (r, k', s') →
  absorbed k s k' s' ∧ (∀ b, seen_account k' s' b = seen_account k s b) ∧
  (r = Ok tt → NoDup l.*1 →
   (∀ e old, e ∈ l → (if destroyed then Some 0 else initial !! e.1) = Some old → view_storage k s address e.1 = Some old) →
   ∀ b key, view_storage k' s' b key =
     match (if decide (b = address) then snd <$> list_find (λ e, e.1 = key) l else None) with
     | Some (_, v) => Some v
     | None => view_storage k s b key
     end).
Proof.
  induction l as [|e l IH]; intros k s r k' s' Hk Hs; cbn [foldl].
  { intros [= <- <- <-]. split_and!; [by apply absorbed_refl|done|]. intros _ _ _ b key. by case_decide. }
  destruct (absorb_slot address destroyed initial (Ok tt, k, s) e) as [[r1 k1] s1] eqn:Hstep.
  destruct (absorb_slot_ok _ _ _ _ _ _ _ _ _ Hk Hs Hstep) as (Hab & Hseen & Hst).
  destruct r1 as [[]|e1].
  2: { rewrite absorb_slots_err. intros [= <- <- <-]. by split_and!. }
  intros Hf. destruct (IH _ _ _ _ _ (ab_keys _ _ _ _ Hab) (ab_state _ _ _ _ Hab) Hf) as (Hab' & Hseen' & Hst').
  split_and!; [by eapply absorbed_trans|intros b; by rewrite Hseen'|].
  intros -> Hnd Hold b key. rewrite fmap_cons in Hnd. apply NoDup_cons in Hnd as [Hni Hnd].
  specialize (Hst eq_refl (λ old, Hold e old ltac:(by left))).
  assert (∀ e' old, e' ∈ l → (if destroyed then Some 0 else initial !! e'.1) = Some old → view_storage k1 s1 address e'.1 = Some old) as Hold1.
  { intros e' old He' Ho. rewrite Hst, decide_False; [apply Hold; [by right|done]|].
    intros [_ Heq]. apply Hni. rewrite <- Heq. by apply list_elem_of_fmap_2. }
  rewrite (Hst' eq_refl Hnd Hold1).
  case_decide as Hb; [subst b|by rewrite Hst, decide_False by naive_solver]. cbn [list_find]. case_decide as Hkey.
  - assert (list_find (λ e0 : B256 * U256, e0.1 = key) l = None) as ->.
    { apply list_find_None, Forall_forall. intros x Hx Hxk. apply Hni. rewrite Hkey, <- Hxk. by apply list_elem_of_fmap_2. }
    cbn. rewrite Hst, decide_True by done. by destruct e.
  - destruct (list_find (λ e0 : B256 * U256, e0.1 = key) l) as [[i [key' v]]|]; cbn; [done|].
    rewrite Hst, decide_False; [done|]. by intros [_ ->].
Qed.

Lemma absorb_code_ok codes now initial k r k' :
  keys_ok k → absorb_code codes now initial k = (r, k') →
  keys_ok k' ∧ keys_ext k k' ∧ (r = Ok tt → ac_code_hash now ≠ ac_code_hash initial → is_Some (kt_deployed_codes k' !! ac_code_hash now)).
Proof.
  intros Hk. unfold absorb_code. destruct (_ && _) eqn:Hc.
  - destruct (codes !! _) as [code|]; [|by intros [= <- <-]]. intros [= <- <-].
    apply andb_true_iff in Hc as [_ Hc%bool_decide_eq_true]. split_and!.
    + destruct Hk. by split.
    + split; rec_simpl; try done; try congruence. by apply insert_subseteq.
    + intros _ _. rec_simpl. rewrite lookup_insert_eq. by eexists.
  - intros [= <- <-]. split_and!; [done|done|]. intros _ Hne. apply andb_false_iff in Hc as [Hc|Hc].
    + apply negb_false_iff, Z.eqb_eq in Hc. done.
    + apply bool_decide_eq_false in Hc. by destruct (kt_deployed_codes k !! _).
Qed.

Lemma absorb_info_ok codes a initial k s r k' s' :
  keys_ok k → block_state_ok k s → absorb_info codes a initial k s = (r, k', s') →
  absorbed k s k' s' ∧ (∀ b key, view_storage k' s' b key = view_storage k s b key) ∧
  (r = Ok tt → seen_account k s (ru_address a) = Some initial →
   (∀ b, seen_account k' s' b = if decide (b = ru_address a) then Some (ru_now a) else seen_account k s b) ∧
   (ac_code_hash (ru_now a) ≠ ac_code_hash initial → is_Some (kt_deployed_codes k' !! ac_code_hash (ru_now a)))).
Proof.
  intros Hk Hs. unfold absorb_info. case_decide as Hnow.
  { intros [= <- <- <-]. split_and!; [by apply absorbed_refl|done|]. intros _ Hi. split; [|by rewrite Hnow].
    intros b. case_decide; [|done]. subst b. by rewrite Hnow. }
  destruct (absorb_code codes (ru_now a) initial k) as [rc k1] eqn:Hc.
  destruct (absorb_code_ok _ _ _ _ _ _ Hk Hc) as (Hk1 & He1 & Hcode).
  destruct rc as [[]|e].
  2: { intros [= <- <- <-]. split_and!; [by apply absorbed_keys|intros; by apply storage_same|done]. }
  destruct (intern_account (ru_address a) k1) as [ri k2] eqn:Hi.
  destruct (intern_account_ok _ _ _ _ Hk1 Hi) as (Hk2 & He2 & Hid). assert (keys_ext k k2) as He by (by etrans).
  destruct ri as [id|e].
  2: { intros [= <- <- <-]. split_and!; [by apply absorbed_keys|intros; by apply storage_same|done]. }
  assert (block_state_ok k2 s) as Hs2 by (by eapply block_state_ok_ext).
  destruct (set_account id (ru_now a) s) as [[] s1] eqn:Hset; intros [= <- <- <-].
  - destruct (set_account_seen _ _ _ _ _ _ Hk2 Hs2 (Hid _ eq_refl) Hset) as (Hs3 & Hseen & Hwr & Heq). split_and!.
    + split; try done. rewrite Heq. constructor.
    + intros. by apply storage_same.
    + intros _ _. split.
      * intros b. rewrite Hseen. case_decide; [done|]. by apply seen_account_ext.
      * intros Hne. destruct (Hcode eq_refl Hne) as [c Hcd]. exists c. by eapply lookup_weaken; [|apply He2].
  - apply set_account_full in Hset as ->; [|done]. split_and!; [by apply absorbed_keys|intros; by apply storage_same|done].
Qed.

(** What a run started from is what the EVM saw. *)
Definition run_started k s (a : RunAccount) : Prop :=
  NoDup (ru_storage a).*1 ∧
  ∀ initial storage, ru_initial a = Some (initial, storage) →
    seen_account k s (ru_address a) = Some initial ∧
    ∀ e old, e ∈ ru_storage a → (if ru_destroyed a then Some 0 else storage !! e.1) = Some old →
      view_storage k s (ru_address a) e.1 = Some old.

(** The account and the slot as the run leaves them. *)
Definition run_account (run : list RunAccount) (b : Address) : option Account :=
  ru_now ∘ snd <$> list_find (λ a, ru_address a = b ∧ ru_modified a = true) run.
Definition run_slot (run : list RunAccount) (b : Address) (key : B256) : option U256 :=
  a ← snd <$> list_find (λ a, ru_address a = b ∧ ru_modified a = true) run;
  snd ∘ snd <$> list_find (λ e : B256 * U256, e.1 = key) (ru_storage a).

Lemma absorb_account_ok codes a k s r k' s' :
  keys_ok k → block_state_ok k s → absorb_account codes (Ok tt, k, s) a = (r, k', s') →
  absorbed k s k' s' ∧
  (r = Ok tt → run_started k s a →
   (∀ b, seen_account k' s' b = match run_account [a] b with Some x => Some x | None => seen_account k s b end) ∧
   (∀ b key, view_storage k' s' b key = match run_slot [a] b key with Some v => Some v | None => view_storage k s b key end)).
Proof.
  intros Hk Hs. unfold absorb_account, run_account, run_slot. cbn [list_find]. destruct (ru_modified a) eqn:Hm; cbn [negb].
  2: { intros [= <- <- <-]. split; [by apply absorbed_refl|]. intros _ _.
       split; intros b; [|intros key]; by rewrite decide_False by naive_solver. }
  destruct (ru_initial a) as [[initial storage]|] eqn:Hin.
  2: { intros [= <- <- <-]. by split; [apply absorbed_refl|]. }
  destruct (_ && _). { intros [= <- <- <-]. by split; [apply absorbed_refl|]. }
  destruct (absorb_info codes a initial k s) as [[r1 k1] s1] eqn:Hi.
  destruct (absorb_info_ok _ _ _ _ _ _ _ _ Hk Hs Hi) as (Hab & Hst & Hseen).
  destruct r1 as [[]|e].
  2: { rewrite absorb_slots_err. intros [= <- <- <-]. by split. }
  intros Hf. destruct (absorb_slots_ok _ _ _ _ _ _ _ _ _ (ab_keys _ _ _ _ Hab) (ab_state _ _ _ _ Hab) Hf) as (Hab' & Hseen' & Hst').
  split; [by eapply absorbed_trans|]. intros -> [Hnd Hrs]. destruct (Hrs _ _ Hin) as [Hacc Hslots].
  destruct (Hseen eq_refl Hacc) as [Hseen1 _]. split.
  - intros b. rewrite Hseen', Hseen1. repeat case_decide; naive_solver.
  - intros b key. rewrite (Hst' eq_refl Hnd) by (intros e old; rewrite Hst; apply Hslots).
    rewrite Hst. destruct (decide (b = ru_address a)) as [->|Hb].
    + rewrite decide_True by done. cbn. by destruct (list_find _ (ru_storage a)) as [[? []]|].
    + rewrite decide_False by naive_solver. done.
Qed.

Lemma absorb_accounts_err codes run e k s : foldl (absorb_account codes) (Err e, k, s) run = (Err e, k, s).
Proof. by induction run. Qed.

Lemma run_account_cons a run b :
  ru_address a ∉ ru_address <$> run →
  run_account (a :: run) b = match run_account run b with Some x => Some x | None => run_account [a] b end.
Proof.
  intros Hni. unfold run_account. cbn [list_find]. case_decide as Hd.
  - assert (list_find (λ a0 : RunAccount, ru_address a0 = b ∧ ru_modified a0 = true) run = None) as ->; [|done].
    apply list_find_None, Forall_forall. intros x Hx [Hxb _]. apply Hni. destruct Hd as [-> _]. rewrite <- Hxb. by apply list_elem_of_fmap_2.
  - cbn. by destruct (list_find _ run) as [[]|].
Qed.

Lemma run_slot_cons a run b key :
  ru_address a ∉ ru_address <$> run →
  run_slot (a :: run) b key = match run_slot run b key with Some x => Some x | None => run_slot [a] b key end.
Proof.
  intros Hni. unfold run_slot. cbn [list_find]. case_decide as Hd.
  - assert (list_find (λ a0 : RunAccount, ru_address a0 = b ∧ ru_modified a0 = true) run = None) as ->; [|done].
    apply list_find_None, Forall_forall. intros x Hx [Hxb _]. apply Hni. destruct Hd as [-> _]. rewrite <- Hxb. by apply list_elem_of_fmap_2.
  - cbn. destruct (list_find _ run) as [[? x]|]; cbn; [|done]. by destruct (list_find _ _).
Qed.

Lemma run_started_keep k s k' s' a run :
  (∀ b, seen_account k' s' b = match run_account [a] b with Some x => Some x | None => seen_account k s b end) →
  (∀ b key, view_storage k' s' b key = match run_slot [a] b key with Some v => Some v | None => view_storage k s b key end) →
  ru_address a ∉ ru_address <$> run → Forall (run_started k s) run → Forall (run_started k' s') run.
Proof.
  intros Ha Hst Hni. rewrite !Forall_forall. intros H x Hx. destruct (H x Hx) as [Hnd Hrs]. split; [done|].
  assert (ru_address a ≠ ru_address x) as Hne by (intros Heq; apply Hni; rewrite Heq; by apply list_elem_of_fmap_2).
  intros initial storage Hi. destruct (Hrs _ _ Hi) as [Hacc Hslots]. split.
  - rewrite Ha. unfold run_account. cbn [list_find]. by rewrite decide_False by naive_solver.
  - intros e old He Ho. rewrite Hst. unfold run_slot. cbn [list_find]. rewrite decide_False by naive_solver. by apply Hslots.
Qed.

Lemma absorb_run_ok codes run : ∀ k s r k' s',
  keys_ok k → block_state_ok k s → absorb_run codes run k s = (r, k', s') →
  absorbed k s k' s' ∧
  (r = Ok tt → NoDup (ru_address <$> run) → Forall (run_started k s) run →
   (∀ b, seen_account k' s' b = match run_account run b with Some x => Some x | None => seen_account k s b end) ∧
   (∀ b key, view_storage k' s' b key = match run_slot run b key with Some v => Some v | None => view_storage k s b key end)).
Proof.
  unfold absorb_run. induction run as [|a run IH]; intros k s r k' s' Hk Hs; cbn [foldl].
  { intros [= <- <- <-]. by split; [apply absorbed_refl|]. }
  destruct (absorb_account codes (Ok tt, k, s) a) as [[r1 k1] s1] eqn:Hstep.
  destruct (absorb_account_ok _ _ _ _ _ _ _ Hk Hs Hstep) as (Hab & Hok).
  destruct r1 as [[]|e1]; [|rewrite absorb_accounts_err; by intros [= <- <- <-]].
  intros Hf. destruct (IH _ _ _ _ _ (ab_keys _ _ _ _ Hab) (ab_state _ _ _ _ Hab) Hf) as (Hab' & Hok').
  split; [by eapply absorbed_trans|]. rewrite fmap_cons, NoDup_cons, Forall_cons. intros Hr [Hni Hnd] [Hsa Hsr].
  destruct (Hok eq_refl Hsa) as [H1 H2]. destruct (Hok' Hr Hnd (run_started_keep _ _ _ _ _ _ H1 H2 Hni Hsr)) as [H3 H4].
  split; intros b; [|intros key].
  - rewrite H3, (run_account_cons _ _ _ Hni), H1. by destruct (run_account run b).
  - rewrite H4, (run_slot_cons _ _ _ _ Hni), H2. by destruct (run_slot run b key).
Qed.

(** The undone state is the one the checkpoint was taken of. *)
Lemma undo_absorbed k s k' s' :
  block_state_ok k s → absorbed k s k' s' →
  ∃ s'', undo_to (checkpoint s) s' = Some s'' ∧ block_state_ok k' s'' ∧
    bs_accounts s'' ≡ bs_accounts s ∧ bs_slots s'' ≡ bs_slots s.
Proof.
  intros [H1 H2 H3 H4] [Hk He Hs Ha Hl]. unfold undo_to, checkpoint. cbn.
  destruct (table_undo_restores _ _ H1 Ha) as (ta & -> & Hta & Hwa).
  destruct (table_undo_restores _ _ H2 Hl) as (tl & -> & Htl & Hwl). cbn. eexists. split_and!; [done| |done..].
  apply (block_state_ok_ext k); [done|]. destruct Hta as (_ & Hta & Hla), Htl as (_ & Htl & Hll). split; cbn; try done; unfold ids_below in *; rewrite ?Hta, ?Htl, ?Hla, ?Hll; done.
Qed.

Lemma seen_equiv k s s' b : bs_accounts s' ≡ bs_accounts s → seen_account k s' b = seen_account k s b.
Proof. intros H. unfold seen_account, view_account, state_account. destruct (kt_account_ids k !! b); [|done]. by rewrite H. Qed.
Lemma storage_equiv k s s' b key : bs_slots s' ≡ bs_slots s → view_storage k s' b key = view_storage k s b key.
Proof. intros H. unfold view_storage, state_slot. destruct (kt_slot_ids k !! _); [|done]. by rewrite H. Qed.

(** C19: Absorbing what an execution left makes the block's state show exactly
    that execution: of every account and every slot, the EVM next sees what the
    execution left, and of those it did not change what it saw before. The key
    table and the state stay well formed. *)
Theorem absorb_exact codes run k s k' s' :
  keys_ok k → block_state_ok k s → NoDup (ru_address <$> run) → Forall (run_started k s) run →
  absorb_run codes run k s = (Ok tt, k', s') →
  (∀ b, seen_account k' s' b = match run_account run b with Some x => Some x | None => seen_account k s b end) ∧
  (∀ b key, view_storage k' s' b key = match run_slot run b key with Some v => Some v | None => view_storage k s b key end) ∧
  keys_ok k' ∧ block_state_ok k' s'.
Proof.
  intros Hk Hs Hnd Hst Hr. destruct (absorb_run_ok codes run k s (Ok tt) k' s' Hk Hs Hr) as [Hab Hv].
  destruct (Hv eq_refl Hnd Hst) as [Ha Hsl]. split_and!; [done..|apply Hab|apply Hab].
Qed.

(** C20: A transaction that is taken back leaves no trace: whatever an execution
    left, and wherever absorbing it failed, undoing to the checkpoint before it
    succeeds and the EVM sees every account and every slot as before; the key
    table has only gained keys, with the parent's values. *)
Theorem undo_restores_view codes run k s r k' s' :
  keys_ok k → block_state_ok k s → absorb_run codes run k s = (r, k', s') →
  ∃ s'', undo_to (checkpoint s) s' = Some s'' ∧ keys_ok k' ∧ block_state_ok k' s'' ∧
    (∀ b, seen_account k' s'' b = seen_account k s b) ∧
    (∀ b key, view_storage k' s'' b key = view_storage k s b key).
Proof.
  intros Hk Hs Hr. destruct (absorb_run_ok _ _ _ _ _ _ _ Hk Hs Hr) as [Hab _].
  destruct (undo_absorbed _ _ _ _ Hs Hab) as (s'' & Hu & Hok & Ha & Hl). destruct Hab as [Hk' He _ _ _].
  exists s''. split_and!; [done..| |]; intros b; [|intros key].
  - rewrite (seen_equiv _ _ _ _ Ha). by apply seen_account_ext.
  - rewrite (storage_equiv _ _ _ _ _ Hl). by apply view_storage_ext.
Qed.
End runs.

(** The difference of two states of a block is exact: it names the accounts
    whose values differ, once each and with the value they have now, so writing
    it over the held state's values gives the state's. *)
Theorem state_diff_exact (k : KeyTable) (s held : BlockState) :
  table_wf (bs_accounts s) → table_wf (bs_accounts held) →
  NoDup (accounts_diff s held k).*1 ∧
  (∀ id v, (id, v) ∈ accounts_diff s held k ↔ state_account k s id = v ∧ state_account k held id ≠ v) ∧
  (∀ id, state_account k s id =
     default (state_account k held id) ((list_to_map (accounts_diff s held k) : gmap nat Account) !! id)).
Proof.
  intros Hs Hh. destruct (table_diff_spec (λ id, (parent_account k id).2) _ _ Hs Hh) as [Hnd Hin].
  split_and!; [done|done|]. intros id. fold (accounts_diff s held k) in Hnd, Hin.
  destruct (_ !! id) as [v|] eqn:Hv; cbn.
  - apply elem_of_list_to_map_2, Hin in Hv as [<- _]. done.
  - apply not_elem_of_list_to_map_2 in Hv. destruct (decide (state_account k held id = state_account k s id)) as [->|Hne]; [done|].
    destruct Hv. apply list_elem_of_fmap. exists (id, state_account k s id). split; [done|]. by apply Hin.
Qed.

Lemma keys_new_ok `{StateDb} : keys_ok keys_new.
Proof. by split. Qed.
Lemma table_new_wf {T} `{!Inhabited T} : table_wf (table_new (T := T)).
Proof. split; [|apply NoDup_nil_2|constructor|by exists []]. intros id. cbn. split; [by intros ?%elem_of_nil|by intros []]. Qed.
Lemma state_new_ok k : block_state_ok k state_new.
Proof. by split; [apply table_new_wf..|split; constructor|split; constructor]. Qed.

(** ** A concrete run *)

Local Instance ex_db : StateDb := {
  EMPTY_KECCAK_HASH := 7;
  EMPTY_TRIE_ROOT := 8;
  get_account_state a := Some (if a =? 3 then mkAccountState 1 50 99 70 else mkAccountState 0 20 8 7);
  get_storage_value a key := Some (if (a =? 3) && (key =? 4) then 11 else 0);
  get_account_code _ := None
}.

(** Account 3 pays 10 and changes a slot, account 5 gets a code. *)
Definition ex_evm_run : list RunAccount :=
  [mkRunAccount 3 true false (mkAccount 40 2 70 true) [(4, 12); (6, 0)] (Some (mkAccount 50 1 70 true, {[4 := 11; 6 := 0]}));
   mkRunAccount 5 true false (mkAccount 30 1 71 false) [] (Some (mkAccount 20 0 7 false, ∅))].

Lemma ex_evm_run_started : Forall (run_started keys_new state_new) ex_evm_run.
Proof.
  repeat constructor; cbn; try set_solver.
Qed.

Lemma absorb_exact_witness :
  ∃ k' s', absorb_run {[71 := [1]]} ex_evm_run keys_new state_new = (Ok tt, k', s') ∧
    seen_account k' s' 3 = Some (mkAccount 40 2 70 true) ∧ view_storage k' s' 3 4 = Some 12 ∧
    view_storage k' s' 3 9 = Some 0 ∧ view_code k' 71 = Some [1].
Proof.
  destruct (absorb_run {[71 := [1]]} ex_evm_run keys_new state_new) as [[r k'] s'] eqn:Hr.
  assert (r = Ok tt) as -> by (by vm_compute in Hr; injection Hr).
  destruct (absorb_exact (DB := ex_db) ltac:(done) {[71 := [1]]} ex_evm_run keys_new state_new k' s' keys_new_ok (state_new_ok _)
              ltac:(repeat constructor; set_solver) ex_evm_run_started Hr) as (Ha & Hs & _).
  exists k', s'. split_and!; [done|by rewrite Ha|by rewrite Hs|by rewrite Hs|]. vm_compute in Hr. injection Hr as <- <-. done.
Defined.

Lemma undo_restores_view_witness :
  ∃ k' s' s'', absorb_run {[71 := [1]]} ex_evm_run keys_new state_new = (Ok tt, k', s') ∧
    undo_to (checkpoint state_new) s' = Some s'' ∧ seen_account k' s' 3 ≠ seen_account k' s'' 3 ∧
    seen_account k' s'' 3 = Some (mkAccount 50 1 70 true).
Proof.
  destruct (absorb_run {[71 := [1]]} ex_evm_run keys_new state_new) as [[r k'] s'] eqn:Hr.
  destruct (undo_restores_view (DB := ex_db) ltac:(done) {[71 := [1]]} ex_evm_run keys_new state_new r k' s' keys_new_ok
              (state_new_ok _) Hr) as (s'' & Hu & _ & _ & Ha & _).
  exists k', s', s''. rewrite !Ha. vm_compute in Hr. injection Hr as <- <- <-. by split_and!.
Defined.

Lemma state_diff_exact_witness :
  let s := (set_account 1 (mkAccount 9 0 7 false) state_new).2 in
  accounts_diff s state_new keys_new = [(1%nat, mkAccount 9 0 7 false)] ∧ NoDup (accounts_diff s state_new keys_new).*1.
Proof.
  split; [done|]. apply (state_diff_exact keys_new); [|apply table_new_wf].
  by eapply (table_wf_set 1%nat (mkAccount 9 0 7 false) table_new); [apply table_new_wf|].
Defined.
