(* ===== verification/MergeEffects.v ===== *)
(** * Replaying transactions

    [crates/builder/src/merge/effects.rs]: what an executed transaction read and
    wrote is kept, so that it is not executed again in a state that gives the same
    reads. Balances the transaction did not inspect may differ: the account is then
    credited or debited by the same amount. *)

From S2P Require Import Prelude Types Submission Rlp MergeTrie MergePool MergeState.

(** [NO_EFFECT] is [None]. *)
Definition VARIANTS_PER_TX : nat := 16.
Definition MAX_EFFECTS : Z := Z.shiftl 1 15.
Definition MAX_EFFECT_ACCOUNTS : Z := Z.shiftl 1 17.
Definition MAX_EFFECT_SLOTS : Z := Z.shiftl 1 18.
Definition MAX_LOGS : Z := Z.shiftl 8 20.

Inductive BalanceRule := RuleExact | RuleAtLeast | RulePlus | RuleMinus.
#[export] Instance BalanceRule_eq_dec : EqDecision BalanceRule.
Proof. solve_decision. Defined.

Record AccountEntry := mkAccountEntry { ae_account : Account; ae_rule : BalanceRule }.

(** A receipt: whether its transaction is of the type [Frame], whether it
    succeeded, and the encoding of its logs, which also determine the bloom. *)
Record Receipt := mkReceipt { rt_frame : bool; rt_succeeded : bool; rt_logs : Bytes }.

Record Effect := mkEffect {
  ef_tx : nat;
  ef_prev : option nat;
  ef_accounts : Range;
  ef_account_writes : nat;
  ef_slots : Range;
  ef_slot_writes : nat;
  ef_logs : Range;
  ef_coinbase_fee : U256;
  ef_gas : u64;
  ef_loads_coinbase : bool
}.

Record EffectCache := mkEffectCache {
  ec_latest_by_tx : list (option nat);
  ec_entries : list Effect;
  ec_receipts : list Receipt;
  ec_account_entries : list (nat * AccountEntry);
  ec_slot_entries : list (nat * U256);
  ec_logs_rlp : Bytes;
  ec_header_env : Address * u64 * u64 * B256
}.
#[export] Instance eta_EffectCache : Eta EffectCache := λ r,
  mkEffectCache (ec_latest_by_tx r) (ec_entries r) (ec_receipts r) (ec_account_entries r) (ec_slot_entries r)
    (ec_logs_rlp r) (ec_header_env r).

(** What the EVM reports of the reads of a transaction: accounts and slots with the
    values first read, the addresses whose balance was inspected, and the balances
    a transfer needed. *)
Record TxReads := mkTxReads {
  td_accounts : gmap Address Account;
  td_slots : gmap (Address * B256) U256;
  td_balances : gset Address;
  td_floors : list (Address * U256)
}.

Definition effects_new : EffectCache := mkEffectCache [] [] [] [] [] [] (0, 0, 0, 0).

Definition effects_clear (c : EffectCache) : EffectCache :=
  mkEffectCache (foldl (λ l e, <[ef_tx e := None]> l) (ec_latest_by_tx c) (ec_entries c)) [] [] [] [] [] (0, 0, 0, 0).

Definition reset_for (env : Address * u64 * u64 * B256) (c : EffectCache) : EffectCache :=
  if decide (env = ec_header_env c) then c else effects_clear c <| ec_header_env := env |>.

(** [split_at] and [slice] of a range whose first part has [n] entries. *)
Definition range_writes {A} (r : Range) (n : nat) (items : list A) : list A := take n (drop (ra_at r) items).
Definition range_reads {A} (r : Range) (n : nat) (items : list A) : list A :=
  take (ra_len r - n) (drop (ra_at r + n) items).

Definition U256_MAX : Z := 2 ^ 256 - 1.

Section effects.
Context `{DB : StateDb}.
Implicit Types (k : KeyTable) (s : BlockState) (c : EffectCache).

Definition matches_read (e : AccountEntry) (now : Account) : bool :=
  match ae_rule e with
  | RuleExact => bool_decide (ae_account e = now)
  | _ =>
      let read := ae_account e in
      (ac_nonce read =? ac_nonce now) && (ac_code_hash read =? ac_code_hash now) &&
      eqb (ac_has_storage read) (ac_has_storage now) && (ac_balance read <=? ac_balance now) && negb (account_is_empty now)
  end.

(** Whether an effect can be replayed. *)
Definition replayable c k s (coinbase : nat) (e : Effect) : bool :=
  negb (ef_loads_coinbase e && negb (is_plain_eoa (state_account k s coinbase))) &&
  forallb (λ x : nat * AccountEntry, matches_read x.2 (state_account k s x.1))
    (range_reads (ef_accounts e) (ef_account_writes e) (ec_account_entries c)) &&
  forallb (λ x : nat * U256, state_slot k s x.1 =? x.2)
    (range_reads (ef_slots e) (ef_slot_writes e) (ec_slot_entries c)).

Fixpoint find_variant (variants : nat) c k s (coinbase : nat) (ix : option nat) : option nat :=
  match variants with
  | O => None
  | S variants =>
      i ← ix;
      e ← ec_entries c !! i;
      if replayable c k s coinbase e then Some i else find_variant variants c k s coinbase (ef_prev e)
  end.

Definition find_replayable c (tx : nat) k s (coinbase : nat) : option nat :=
  ix ← ec_latest_by_tx c !! tx;
  find_variant VARIANTS_PER_TX c k s coinbase ix.

(** The account after a recorded write; [None]: the balance leaves its range. *)
Definition written_account (now : Account) (w : AccountEntry) : option Account :=
  balance ← match ae_rule w with
            | RulePlus => let b := ac_balance now + ac_balance (ae_account w) in if U256_MAX <? b then None else Some b
            | RuleMinus => let b := ac_balance now - ac_balance (ae_account w) in if b <? 0 then None else Some b
            | RuleExact | RuleAtLeast => Some (ac_balance (ae_account w))
            end;
  Some (mkAccount balance (ac_nonce (ae_account w)) (ac_code_hash (ae_account w)) (ac_has_storage (ae_account w))).

(** Writes until the first that fails, which leaves those before it. *)
Fixpoint replay_accounts k (ws : list (nat * AccountEntry)) s : bool * BlockState :=
  match ws with
  | [] => (true, s)
  | (id, w) :: ws =>
      match written_account (state_account k s id) w with
      | None => (false, s)
      | Some now => match set_account id now s with (true, s) => replay_accounts k ws s | (false, s) => (false, s) end
      end
  end.

Fixpoint replay_slots (ws : list (nat * U256)) s : bool * BlockState :=
  match ws with
  | [] => (true, s)
  | (id, v) :: ws => match set_slot id v s with (true, s) => replay_slots ws s | (false, s) => (false, s) end
  end.

Definition replay_fee k (fee : U256) (coinbase : nat) s : bool * BlockState :=
  if fee =? 0 then (true, s)
  else
    let now := state_account k s coinbase in
    if U256_MAX <? ac_balance now + fee then (false, s)
    else set_account coinbase (now <| ac_balance := ac_balance now + fee |>) s.

(** The gas, or [None] where a write fails; the outer [None] is an index out of
    range. *)
Definition effect_replay c (ix : nat) k s (coinbase : nat) : option (option u64 * BlockState) :=
  e ← ec_entries c !! ix;
  Some (
    let '(ok, s) := replay_accounts k (range_writes (ef_accounts e) (ef_account_writes e) (ec_account_entries c)) s in
    if negb ok then (None, s)
    else
      let '(ok, s) := replay_slots (range_writes (ef_slots e) (ef_slot_writes e) (ec_slot_entries c)) s in
      if negb ok then (None, s)
      else
        let '(ok, s) := replay_fee k (ef_coinbase_fee e) coinbase s in
        ((if ok then Some (ef_gas e) else None), s)).

(** ** Recording *)

Definition relaxed (reads : TxReads) (address : Address) (read : Account) : bool :=
  negb (bool_decide (address ∈ td_balances reads)) && negb (account_is_empty read).

(** A plain coinbase that was not inspected or sent from only receives. *)
Definition coinbase_unread (reads : TxReads) (address : Address) (now : Account) : bool :=
  match td_accounts reads !! address with
  | None => true
  | Some read =>
      negb (bool_decide (address ∈ td_balances reads)) && is_plain_eoa read && (ac_nonce read =? ac_nonce now) &&
      (ac_code_hash read =? ac_code_hash now)
  end.

Definition write_entry (reads : TxReads) (address : Address) (read now : Account) : AccountEntry :=
  if relaxed reads address read then
    if ac_balance read <=? ac_balance now then mkAccountEntry (now <| ac_balance := ac_balance now - ac_balance read |>) RulePlus
    else mkAccountEntry (now <| ac_balance := ac_balance read - ac_balance now |>) RuleMinus
  else mkAccountEntry now RuleExact.

(** The writes, the fee and whether the coinbase was loaded; [None]: not
    replayable. *)
Definition record_write k s (reads : TxReads) (coinbase : nat) (before : U256)
    (acc : option (list (nat * AccountEntry) * U256 * bool)) (id : nat) : option (list (nat * AccountEntry) * U256 * bool) :=
  '(writes, fee, loads) ← acc;
  let address := (parent_account k id).1 in
  let now := state_account k s id in
  if bool_decide (id = coinbase) && coinbase_unread reads address now then
    if ac_balance now <? before then None
    else Some (writes, ac_balance now - before, bool_decide (is_Some (td_accounts reads !! address)))
  else
    read ← td_accounts reads !! address;
    Some (writes ++ [(id, write_entry reads address read now)], fee, loads).

Definition record_slot_write k s (reads : TxReads) (id : nat) : option (nat * U256) :=
  let '(address, key, _) := parent_slot k id in
  if decide (is_Some (td_slots reads !! (address, key))) then Some (id, state_slot k s id) else None.

Definition read_entry k s (reads : TxReads) (address : Address) (snapshot : Account) (id : nat) : AccountEntry :=
  if relaxed reads address snapshot then
    let floor := default 0 (snd <$> find (λ e : Address * U256, e.1 =? address) (td_floors reads)) in
    let debit := sat_sub (ac_balance snapshot) (ac_balance (state_account k s id)) in
    mkAccountEntry (snapshot <| ac_balance := Z.max floor debit |>) RuleAtLeast
  else mkAccountEntry snapshot RuleExact.

Definition record_read s (reads : TxReads) (coinbase : nat) (loads : bool)
    (acc : option (list (nat * AccountEntry)) * KeyTable) (x : Address * Account) : option (list (nat * AccountEntry)) * KeyTable :=
  let '(entries, k) := acc in
  match entries with
  | None => acc
  | Some entries =>
      match intern_account x.1 k with
      | (Err _, k) => (None, k)
      | (Ok id, k) =>
          if loads && bool_decide (id = coinbase) then (Some entries, k)
          else (Some (entries ++ [(id, read_entry k s reads x.1 x.2 id)]), k)
      end
  end.

Definition record_slot_read (acc : option (list (nat * U256)) * KeyTable) (x : Address * B256 * U256)
    : option (list (nat * U256)) * KeyTable :=
  let '(entries, k) := acc in
  match entries with
  | None => acc
  | Some entries =>
      match intern_slot x.1.1 x.1.2 k with
      | (Err _, k) => (None, k)
      | (Ok id, k) => (Some (entries ++ [(id, x.2)]), k)
      end
  end.

Definition recorded_entries `{HO : HashOrder} k s (at_ : Checkpoint) (reads : TxReads) (coinbase : nat) (before : U256)
    : option (list (nat * AccountEntry) * list (nat * AccountEntry) * list (nat * U256) * list (nat * U256) * U256 * bool) * KeyTable :=
  match foldl (record_write k s reads coinbase before) (Some ([], 0, false)) (accounts_since at_ s) with
  | None => (None, k)
  | Some (writes, fee, loads) =>
      match mapM (record_slot_write k s reads) (slots_since at_ s) with
      | None => (None, k)
      | Some slot_writes =>
          let '(account_reads, k) := foldl (record_read s reads coinbase loads) (Some [], k) (hash_iter (td_accounts reads)) in
          match account_reads with
          | None => (None, k)
          | Some account_reads =>
              let '(slot_reads, k) := foldl record_slot_read (Some [], k) (hash_iter (td_slots reads)) in
              match slot_reads with
              | None => (None, k)
              | Some slot_reads => (Some (writes, account_reads, slot_writes, slot_reads, fee, loads), k)
              end
          end
      end
  end.

(** [vec.resize(n, NO_EFFECT)] where it is shorter. *)
Definition resized (n : nat) (l : list (option nat)) : list (option nat) := l ++ replicate (n - length l) None.

Definition effects_full c (reads : TxReads) (receipt : Receipt) : bool :=
  (len (ec_entries c) =? MAX_EFFECTS) ||
  (MAX_EFFECT_ACCOUNTS <? len (ec_account_entries c) + 2 * Z.of_nat (size (td_accounts reads))) ||
  (MAX_EFFECT_SLOTS <? len (ec_slot_entries c) + 2 * Z.of_nat (size (td_slots reads))) ||
  (MAX_LOGS <? len (ec_logs_rlp c) + len (rt_logs receipt)).

(** The effect, or [None] with the receipt added to [own]. *)
Definition effect_record `{HO : HashOrder} (tx : nat) (gas : u64) k s (at_ : Checkpoint) (reads : TxReads) (coinbase : nat)
    (before : U256) (receipt : Receipt) (own : list Receipt) c : option nat * KeyTable * list Receipt * EffectCache :=
  if effects_full c reads receipt || rt_frame receipt then (None, k, own ++ [receipt], c)
  else
    let '(entries, k) := recorded_entries k s at_ reads coinbase before in
    match entries with
    | None => (None, k, own ++ [receipt], c)
    | Some (writes, account_reads, slot_writes, slot_reads, fee, loads) =>
        let ix := length (ec_entries c) in
        let latest := resized (S tx) (ec_latest_by_tx c) in
        let account_entries := writes ++ account_reads in
        let slot_entries := slot_writes ++ slot_reads in
        let e := mkEffect tx (default None (latest !! tx))
                   (mkRange (length (ec_account_entries c)) (length account_entries)) (length writes)
                   (mkRange (length (ec_slot_entries c)) (length slot_entries)) (length slot_writes)
                   (mkRange (length (ec_logs_rlp c)) (length (rt_logs receipt))) fee gas loads in
        (Some ix, k, own,
         mkEffectCache (<[tx := Some ix]> latest) (ec_entries c ++ [e]) (ec_receipts c ++ [receipt])
           (ec_account_entries c ++ account_entries) (ec_slot_entries c ++ slot_entries)
           (ec_logs_rlp c ++ rt_logs receipt) (ec_header_env c))
    end.

Definition effect_receipt c (ix : nat) : option (Receipt * Bytes) :=
  receipt ← ec_receipts c !! ix;
  e ← ec_entries c !! ix;
  Some (receipt, take (ra_len (ef_logs e)) (drop (ra_at (ef_logs e)) (ec_logs_rlp c))).
End effects.

(** ** The cache's invariant *)

Record effects_ok (c : EffectCache) : Prop := mk_effects_ok {
  fo_receipts : length (ec_receipts c) = length (ec_entries c);
  fo_ranges : ∀ i e, ec_entries c !! i = Some e →
    (ra_at (ef_accounts e) + ra_len (ef_accounts e) ≤ length (ec_account_entries c))%nat ∧
    (ef_account_writes e ≤ ra_len (ef_accounts e))%nat ∧
    (ra_at (ef_slots e) + ra_len (ef_slots e) ≤ length (ec_slot_entries c))%nat ∧
    (ef_slot_writes e ≤ ra_len (ef_slots e))%nat;
  fo_logs : ∀ i e r, ec_entries c !! i = Some e → ec_receipts c !! i = Some r →
    (ra_at (ef_logs e) + ra_len (ef_logs e) ≤ length (ec_logs_rlp c))%nat ∧
    take (ra_len (ef_logs e)) (drop (ra_at (ef_logs e)) (ec_logs_rlp c)) = rt_logs r;
  fo_prev : ∀ i e p, ec_entries c !! i = Some e → ef_prev e = Some p →
    (p < i)%nat ∧ ∃ e', ec_entries c !! p = Some e' ∧ ef_tx e' = ef_tx e;
  fo_latest : ∀ tx i, ec_latest_by_tx c !! tx = Some (Some i) → ∃ e, ec_entries c !! i = Some e ∧ ef_tx e = tx;
  fo_txs : ∀ i e, ec_entries c !! i = Some e → ∃ j, ec_latest_by_tx c !! ef_tx e = Some (Some j)
}.

Lemma effects_new_ok : effects_ok effects_new.
Proof. by split; cbn; intros; rewrite ?lookup_nil in *. Qed.

Lemma cleared_lookup es : ∀ (l : list (option nat)) tx,
  foldl (λ l e, <[ef_tx e := None]> l) l es !! tx =
  if decide (tx ∈ ef_tx <$> es) then (λ _, None) <$> l !! tx else l !! tx.
Proof.
  induction es as [|e es IH]; intros l tx; cbn [foldl]; [by rewrite decide_False by apply not_elem_of_nil|].
  rewrite IH, fmap_cons. destruct (decide (tx = ef_tx e)) as [->|Hne].
  - rewrite (decide_True (P := ef_tx e ∈ ef_tx e :: _)) by (by left).
    destruct (l !! ef_tx e) as [x|] eqn:Hx.
    + rewrite list_lookup_insert_eq by (by eapply lookup_lt_Some). by case_decide.
    + apply lookup_ge_None in Hx. rewrite list_insert_ge by done. apply lookup_ge_None in Hx. rewrite Hx. by case_decide.
  - rewrite list_lookup_insert_ne by done. repeat case_decide; try done; set_solver.
Qed.

Lemma effects_clear_ok c : effects_ok c → effects_ok (effects_clear c).
Proof.
  intros [H1 H2 H3 H4 H5 H6]. split; cbn; intros; rewrite ?lookup_nil in *; try done.
  rewrite cleared_lookup in H. case_decide as Hin; [by destruct (ec_latest_by_tx c !! tx)|].
  destruct (H5 _ _ H) as (e & He & <-). destruct Hin. apply list_elem_of_fmap_2. by eapply list_elem_of_lookup_2.
Qed.

Lemma reset_for_ok env c : effects_ok c → effects_ok (reset_for env c).
Proof.
  intros Hc. unfold reset_for. case_decide; [done|]. destruct (effects_clear_ok c Hc) as [H1 H2 H3 H4 H5 H6]. by split.
Qed.

Lemma lookup_resized n l tx : resized n l !! tx = match l !! tx with Some x => Some x | None => if decide (tx < n)%nat then Some None else None end.
Proof.
  unfold resized. destruct (l !! tx) as [x|] eqn:Hx; [by apply lookup_app_l_Some|]. apply lookup_ge_None in Hx.
  rewrite lookup_app_r by done. case_decide.
  - by rewrite lookup_replicate_2 by lia.
  - apply lookup_ge_None. rewrite length_replicate. lia.
Qed.

Section recording.
Context `{DB : StateDb} `{HO : HashOrder}.

Lemma effect_record_ok tx gas k s at_ reads coinbase before receipt own c r k' own' c' :
  effects_ok c → effect_record tx gas k s at_ reads coinbase before receipt own c = (r, k', own', c') → effects_ok c'.
Proof.
  intros Hc. unfold effect_record. destruct (_ || _); [by intros [= <- <- <- <-]|].
  destruct (recorded_entries _ _ _ _ _ _) as [entries k1].
  destruct entries as [[[[[[writes areads] swrites] sreads] fee] loads]|]; [|by intros [= <- <- <- <-]].
  intros [= <- <- <- <-]. destruct Hc as [H1 H2 H3 H4 H5 H6].
  assert (length (resized (S tx) (ec_latest_by_tx c)) > tx)%nat as Hlen.
  { unfold resized. rewrite length_app, length_replicate. lia. }
  set (e0 := mkEffect _ _ _ _ _ _ _ _ _ _).
  assert (∀ i e, (ec_entries c ++ [e0]) !! i = Some e → ec_entries c !! i = Some e ∨ (i = length (ec_entries c) ∧ e = e0)) as Hlk.
  { intros i e. rewrite lookup_app_Some. intros [?|[Hi He]]; [by left|]. right.
    destruct (i - length (ec_entries c))%nat as [|n] eqn:Hn; cbn in He; [|done]. injection He as <-. split; [lia|done]. }
  split; cbn [ec_receipts ec_entries ec_account_entries ec_slot_entries ec_logs_rlp ec_latest_by_tx].
  - rewrite !length_app. cbn. lia.
  - intros i e [He|[-> ->]]%Hlk.
    + destruct (H2 _ _ He) as (? & ? & ? & ?). rewrite !length_app. split_and!; try done; lia.
    + subst e0. cbn. rewrite !length_app. split_and!; lia.
  - intros i e r [He|[-> ->]]%Hlk Hr.
    + rewrite lookup_app_l in Hr by (rewrite H1; by eapply lookup_lt_Some). destruct (H3 _ _ _ He Hr) as [? Hl].
      rewrite length_app. split; [lia|]. rewrite drop_app_le, take_app_le by (rewrite ?length_drop; lia). done.
    + rewrite lookup_app_r, H1, Nat.sub_diag in Hr by lia. injection Hr as <-. subst e0. cbn. rewrite length_app. split; [lia|].
      rewrite drop_app_length. by apply take_ge.
  - intros i e p [He|[-> ->]]%Hlk Hp.
    + destruct (H4 _ _ _ He Hp) as [? (e' & He' & ?)]. split; [done|]. exists e'. split; [|done]. by apply lookup_app_l_Some.
    + subst e0. cbn in Hp. rewrite lookup_resized in Hp. destruct (ec_latest_by_tx c !! tx) as [x|] eqn:Hx.
      * cbn in Hp. subst x. destruct (H5 _ _ Hx) as (e' & He' & Htx). split; [by eapply lookup_lt_Some|].
        exists e'. split; [by apply lookup_app_l_Some|done].
      * by case_decide.
  - intros tx' i Hl. destruct (decide (tx' = tx)) as [->|Hne].
    + rewrite list_lookup_insert_eq in Hl by done. injection Hl as <-. exists e0. split; [|done].
      by rewrite lookup_app_r, Nat.sub_diag.
    + rewrite list_lookup_insert_ne, lookup_resized in Hl by done. destruct (ec_latest_by_tx c !! tx') as [x|] eqn:Hx.
      * injection Hl as ->. destruct (H5 _ _ Hx) as (e' & He' & ?). exists e'. split; [by apply lookup_app_l_Some|done].
      * by case_decide.
  - intros i e [He|[-> ->]]%Hlk.
    + destruct (decide (ef_tx e = tx)) as [->|Hne]; [eexists; by rewrite list_lookup_insert_eq|].
      destruct (H6 _ _ He) as [j Hj]. exists j. by rewrite list_lookup_insert_ne, lookup_resized, Hj.
    + subst e0. cbn. eexists. by rewrite list_lookup_insert_eq.
Qed.

Lemma find_variant_sound n c k s coinbase tx : effects_ok c → ∀ ix i,
  (∀ j, ix = Some j → ∃ e, ec_entries c !! j = Some e ∧ ef_tx e = tx) →
  find_variant n c k s coinbase ix = Some i →
  ∃ e, ec_entries c !! i = Some e ∧ ef_tx e = tx ∧ replayable c k s coinbase e = true.
Proof.
  intros Hc. induction n as [|n IH]; intros ix i Hix; [done|]. cbn [find_variant].
  destruct ix as [j|]; [|done]. cbn [mbind option_bind]. destruct (Hix j eq_refl) as (e & He & Htx). rewrite He. cbn [mbind option_bind].
  destruct (replayable c k s coinbase e) eqn:Hr; [intros [= <-]; by exists e|]. apply IH. intros p Hp.
  destruct (fo_prev _ Hc _ _ _ He Hp) as [_ (e' & He' & Htx')]. exists e'. split; [done|]. congruence.
Qed.

Lemma find_replayable_sound c tx k s coinbase i :
  effects_ok c → find_replayable c tx k s coinbase = Some i →
  ∃ e, ec_entries c !! i = Some e ∧ ef_tx e = tx ∧ replayable c k s coinbase e = true.
Proof.
  intros Hc. unfold find_replayable. destruct (ec_latest_by_tx c !! tx) as [ix|] eqn:Hix; [|done]. cbn [mbind option_bind].
  apply find_variant_sound; [done|]. intros j ->. by apply (fo_latest _ Hc).
Qed.
End recording.

(** ** Replaying a recorded transaction *)
Section replaying.
Context `{DB : StateDb} `{HO : HashOrder}.
Implicit Types (k : KeyTable) (s : BlockState).

Lemma state_account_ext k k' s a id :
  keys_ok k → keys_ext k k' → kt_account_ids k !! a = Some id → state_account k' s id = state_account k s id.
Proof.
  intros Hk He Ha. unfold state_account, table_value, parent_account.
  destruct (ko_accounts _ Hk _ _ Ha) as (st & _ & H1). destruct (ke_accounts _ _ He) as [l ->].
  by rewrite (lookup_app_l_Some _ _ _ _ H1), H1.
Qed.

Lemma record_reads_err s reads coinbase loads l k : foldl (record_read s reads coinbase loads) (None, k) l = (None, k).
Proof. by induction l. Qed.
Lemma record_slot_reads_err l k : foldl record_slot_read (None, k) l = (None, k).
Proof. by induction l. Qed.

Lemma record_reads_ok s reads coinbase loads l : ∀ k acc es k',
  keys_ok k → foldl (record_read s reads coinbase loads) (Some acc, k) l = (Some es, k') →
  keys_ok k' ∧ keys_ext k k' ∧ acc ⊆ es ∧
  ∀ a x id, (a, x) ∈ l → kt_account_ids k !! a = Some id →
    (loads = true ∧ id = coinbase) ∨ (id, read_entry k s reads a x id) ∈ es.
Proof.
  induction l as [|[a x] l IH]; intros k acc es k' Hk; cbn [foldl].
  { intros [= <- <-]. split_and!; try done. by intros ? ? ? ?%elem_of_nil. }
  unfold record_read at 2. cbn [fst snd]. destruct (intern_account a k) as [[id|e] k1] eqn:Hi; [|by rewrite record_reads_err].
  destruct (intern_account_ok _ _ _ _ Hk Hi) as (Hk1 & He1 & Hid). specialize (Hid _ eq_refl).
  set (acc1 := if loads && bool_decide (id = coinbase) then acc else acc ++ [(id, read_entry k1 s reads a x id)]).
  intros Hf. assert (foldl (record_read s reads coinbase loads) (Some acc1, k1) l = (Some es, k')) as Hf'.
  { subst acc1. by destruct (loads && _). }
  destruct (IH _ _ _ _ Hk1 Hf') as (Hk' & He' & Hsub & Hall).
  assert (acc ⊆ acc1) by (subst acc1; destruct (loads && _); set_solver).
  split_and!; [done|by etrans|set_solver|]. intros b y id' [[= -> ->]|Hin]%elem_of_cons Hb.
  - assert (id' = id) as -> by (pose proof (lookup_weaken _ _ _ _ Hb (ke_account_ids _ _ He1)); congruence).
    destruct (loads && bool_decide (id = coinbase)) eqn:Hl.
    + apply andb_true_iff in Hl as [-> Hl%bool_decide_eq_true]. by left.
    + right. apply Hsub. subst acc1. cbn. apply elem_of_app. right. apply list_elem_of_singleton.
      unfold read_entry. by rewrite (state_account_ext k k1 s a id Hk He1 Hb).
  - destruct (Hall b y id' Hin (lookup_weaken _ _ _ _ Hb (ke_account_ids _ _ He1))) as [?|Hr]; [by left|]. right.
    unfold read_entry in *. by rewrite (state_account_ext k k1 s b id' Hk He1 Hb) in Hr.
Qed.

Lemma record_slot_reads_ok l : ∀ k acc es k',
  keys_ok k → foldl record_slot_read (Some acc, k) l = (Some es, k') →
  keys_ok k' ∧ keys_ext k k' ∧ acc ⊆ es ∧
  ∀ a key v id, (a, key, v) ∈ l → kt_slot_ids k !! (a, key) = Some id → (id, v) ∈ es.
Proof.
  induction l as [|[[a key] v] l IH]; intros k acc es k' Hk; cbn [foldl].
  { intros [= <- <-]. split_and!; try done. by intros ? ? ? ? ?%elem_of_nil. }
  unfold record_slot_read at 2. cbn [fst snd]. destruct (intern_slot a key k) as [[id|e] k1] eqn:Hi; [|by rewrite record_slot_reads_err].
  destruct (intern_slot_ok _ _ _ _ _ Hk Hi) as (Hk1 & He1 & Hid). specialize (Hid _ eq_refl).
  intros Hf. destruct (IH _ _ _ _ Hk1 Hf) as (Hk' & He' & Hsub & Hall).
  split_and!; [done|by etrans|set_solver|]. intros b key' w id' [[= -> -> ->]|Hin]%elem_of_cons Hb.
  - assert (id' = id) as -> by (pose proof (lookup_weaken _ _ _ _ Hb (ke_slot_ids _ _ He1)); congruence).
    apply Hsub, elem_of_app. right. by apply list_elem_of_singleton.
  - by apply (Hall b key' w id' Hin), (lookup_weaken _ _ _ _ Hb (ke_slot_ids _ _ He1)).
Qed.

(** Whether the fee rule applies to the coinbase. *)
Definition fee_rule k s reads coinbase (id : nat) : bool :=
  bool_decide (id = coinbase) && coinbase_unread reads (parent_account k id).1 (state_account k s id).

Lemma record_writes_ok k s reads coinbase before ids : ∀ acc fee loads ws fee' loads',
  NoDup ids →
  foldl (record_write k s reads coinbase before) (Some (acc, fee, loads)) ids = Some (ws, fee', loads') →
  ∃ new, ws = acc ++ new ∧ new.*1 = List.filter (λ id, negb (fee_rule k s reads coinbase id)) ids ∧
    Forall (λ x, ∃ read, td_accounts reads !! (parent_account k x.1).1 = Some read ∧
                         x.2 = write_entry reads (parent_account k x.1).1 read (state_account k s x.1)) new ∧
    (if decide (coinbase ∈ ids ∧ fee_rule k s reads coinbase coinbase = true) then
       before ≤ ac_balance (state_account k s coinbase) ∧ fee' = ac_balance (state_account k s coinbase) - before ∧
       loads' = bool_decide (is_Some (td_accounts reads !! (parent_account k coinbase).1))
     else fee' = fee ∧ loads' = loads).
Proof.
  induction ids as [|id ids IH]; intros acc fee loads ws fee' loads' Hnd; cbn [foldl].
  { intros [= <- <- <-]. exists []. rewrite app_nil_r. split_and!; [done|done|constructor|]. rewrite decide_False; [done|].
    by intros [?%elem_of_nil _]. }
  apply NoDup_cons in Hnd as [Hni Hnd]. unfold record_write at 2. cbn [mbind option_bind].
  assert (∀ b, foldl (record_write k s reads coinbase b) None ids = None) as Hnone by (intros b; clear; by induction ids).
  fold (fee_rule k s reads coinbase id). cbn [List.filter]. destruct (fee_rule k s reads coinbase id) eqn:Hf.
  - assert (id = coinbase) as -> by (apply andb_true_iff in Hf as [Hf _]; by apply bool_decide_eq_true in Hf).
    destruct (_ <? before) eqn:Hb; [by rewrite Hnone|]. apply Z.ltb_ge in Hb. intros H.
    destruct (IH _ _ _ _ _ _ Hnd H) as (new & -> & Hids & Hall & Hfee). exists new. split_and!; [done|done|done|].
    rewrite decide_True by (split; [by left|done]). rewrite decide_False in Hfee by (intros [? _]; done). by destruct Hfee as [-> ->].
  - destruct (td_accounts reads !! (parent_account k id).1) as [read|] eqn:Hr; cbn [mbind option_bind]; [|by rewrite Hnone]. intros H.
    destruct (IH _ _ _ _ _ _ Hnd H) as (new & -> & Hids & Hall & Hfee).
    exists ((id, write_entry reads (parent_account k id).1 read (state_account k s id)) :: new). split_and!.
    + by rewrite <- app_assoc.
    + cbn. by rewrite Hids.
    + constructor; [by exists read|done].
    + destruct (decide (id = coinbase)) as [->|Hne].
      * rewrite decide_False by (intros [_ ?]; congruence). by rewrite decide_False in Hfee by (intros [? _]; done).
      * destruct (decide (coinbase ∈ ids ∧ fee_rule k s reads coinbase coinbase = true)) as [[H1 H2]|H1].
        -- rewrite decide_True; [done|]. split; [by right|done].
        -- rewrite decide_False; [done|]. intros [[?|?]%elem_of_cons ?]; [done|]. by apply H1.
Qed.

Lemma set_account_get k id v s s' j :
  set_account id v s = (true, s') → state_account k s' j = if decide (j = id) then v else state_account k s j.
Proof.
  unfold set_account. destruct (table_set id v (bs_accounts s)) as [ok t] eqn:Ht. intros [= -> <-].
  unfold state_account, table_value. cbn. rewrite (table_set_get _ _ _ _ _ Ht). by case_decide.
Qed.
Lemma set_slot_get k id v s s' j :
  set_slot id v s = (true, s') → state_slot k s' j = if decide (j = id) then v else state_slot k s j.
Proof.
  unfold set_slot. destruct (table_set id v (bs_slots s)) as [ok t] eqn:Ht. intros [= -> <-].
  unfold state_slot, table_value. cbn. rewrite (table_set_get _ _ _ _ _ Ht). by case_decide.
Qed.

(** What writing leaves: the tables were only written to. *)
Definition rewritten s s' : Prop :=
  written_after (bs_accounts s) (bs_accounts s') ∧ written_after (bs_slots s) (bs_slots s').

#[export] Instance rewritten_preorder : PreOrder rewritten.
Proof.
  split; [by split; constructor|]. intros s1 s2 s3 [] []. by split; eapply written_after_trans.
Qed.

Lemma set_account_rewritten id v s ok s' : set_account id v s = (ok, s') → rewritten s s' ∧ bs_slots s' = bs_slots s.
Proof.
  intros Hs. destruct ok; [|by rewrite (set_account_full (keys_new) _ _ _ _ Hs)]. unfold set_account in Hs.
  destruct (table_set id v (bs_accounts s)) as [[] t] eqn:Ht; [|done]. injection Hs as <-.
  split; [|done]. split; cbn; [|constructor]. by eapply after_set; [constructor|].
Qed.
Lemma set_slot_rewritten id v s ok s' : set_slot id v s = (ok, s') → rewritten s s' ∧ bs_accounts s' = bs_accounts s.
Proof.
  intros Hs. destruct ok; [|by rewrite (set_slot_full (keys_new) _ _ _ _ Hs)]. unfold set_slot in Hs.
  destruct (table_set id v (bs_slots s)) as [[] t] eqn:Ht; [|done]. injection Hs as <-.
  split; [|done]. split; cbn; [constructor|]. by eapply after_set; [constructor|].
Qed.

Definition undo_full s : Prop := len (ut_undo_log (bs_accounts s)) = MAX_UNDO ∨ len (ut_undo_log (bs_slots s)) = MAX_UNDO.

Lemma set_account_fails id v s s' : set_account id v s = (false, s') → undo_full s'.
Proof.
  unfold set_account, table_set. destruct (_ =? _) eqn:Hf; [|by destruct (default _ _)]. intros [= <-]. left. cbn.
  apply Z.eqb_eq in Hf. lia.
Qed.
Lemma set_slot_fails id v s s' : set_slot id v s = (false, s') → undo_full s'.
Proof.
  unfold set_slot, table_set. destruct (_ =? _) eqn:Hf; [|by destruct (default _ _)]. intros [= <-]. right. cbn.
  apply Z.eqb_eq in Hf. lia.
Qed.

Lemma replay_accounts_ok k ws : ∀ s ok s',
  NoDup ws.*1 → replay_accounts k ws s = (ok, s') →
  rewritten s s' ∧ bs_slots s' = bs_slots s ∧
  (ok = true → (∀ id w, (id, w) ∈ ws → written_account (state_account k s id) w = Some (state_account k s' id)) ∧
               (∀ id, id ∉ ws.*1 → state_account k s' id = state_account k s id)) ∧
  (ok = false → undo_full s' ∨ ∃ id w, (id, w) ∈ ws ∧ written_account (state_account k s id) w = None).
Proof.
  induction ws as [|[id w] ws IH]; intros s ok s' Hnd; cbn [replay_accounts].
  { intros [= <- <-]. split_and!; try done. intros _. split; [by intros ? ? ?%elem_of_nil|done]. }
  rewrite fmap_cons, NoDup_cons in Hnd. destruct Hnd as [Hni Hnd]. cbn in Hni.
  destruct (written_account (state_account k s id) w) as [now|] eqn:Hw.
  2: { intros [= <- <-]. split_and!; try done. intros _. right. exists id, w. split; [by left|done]. }
  destruct (set_account id now s) as [[] s1] eqn:Hset.
  - destruct (set_account_rewritten _ _ _ _ _ Hset) as [Hre Hsl]. pose proof (λ j, set_account_get k _ _ _ _ j Hset) as Hget.
    intros Hr. destruct (IH _ _ _ Hnd Hr) as (Hre' & Hsl' & Hok & Hbad). split_and!; [by etrans|congruence| |].
    + intros Ht. destruct (Hok Ht) as [Hin Hout]. split.
      * intros id' w' [[= -> ->]|Hin']%elem_of_cons.
        -- rewrite Hw, (Hout id Hni), Hget. by rewrite decide_True.
        -- rewrite <- (Hin _ _ Hin'), Hget, decide_False; [done|]. intros ->. apply Hni.
           apply list_elem_of_fmap. by exists (id, w').
      * intros id'. rewrite fmap_cons. cbn. rewrite not_elem_of_cons. intros [Hne Hni']. by rewrite (Hout _ Hni'), Hget, decide_False.
    + intros Hf. destruct (Hbad Hf) as [?|(id' & w' & Hin & Hn)]; [by left|]. right. exists id', w'. split; [by right|].
      rewrite Hget, decide_False in Hn; [done|]. intros ->. apply Hni. apply list_elem_of_fmap. by exists (id, w').
  - intros [= <- <-]. destruct (set_account_rewritten _ _ _ _ _ Hset). split_and!; try done. intros _. left. by eapply set_account_fails.
Qed.

Lemma replay_slots_ok k ws : ∀ s ok s',
  NoDup ws.*1 → replay_slots ws s = (ok, s') →
  rewritten s s' ∧ bs_accounts s' = bs_accounts s ∧
  (ok = true → (∀ id v, (id, v) ∈ ws → state_slot k s' id = v) ∧
               (∀ id, id ∉ ws.*1 → state_slot k s' id = state_slot k s id)) ∧
  (ok = false → undo_full s').
Proof.
  induction ws as [|[id v] ws IH]; intros s ok s' Hnd; cbn [replay_slots].
  { intros [= <- <-]. split_and!; try done. intros _. split; [by intros ? ? ?%elem_of_nil|done]. }
  rewrite fmap_cons, NoDup_cons in Hnd. destruct Hnd as [Hni Hnd]. cbn in Hni.
  destruct (set_slot id v s) as [[] s1] eqn:Hset.
  - destruct (set_slot_rewritten _ _ _ _ _ Hset) as [Hre Hsl]. pose proof (λ j, set_slot_get k _ _ _ _ j Hset) as Hget.
    intros Hr. destruct (IH _ _ _ Hnd Hr) as (Hre' & Hsl' & Hok & Hbad). split_and!; [by etrans|congruence| |done].
    intros Ht. destruct (Hok Ht) as [Hin Hout]. split.
    + intros id' w' [[= -> ->]|Hin']%elem_of_cons; [rewrite (Hout id Hni), Hget; by rewrite decide_True|by apply Hin].
    + intros id'. rewrite fmap_cons. cbn. rewrite not_elem_of_cons. intros [Hne Hni']. by rewrite (Hout _ Hni'), Hget, decide_False.
  - intros [= <- <-]. destruct (set_slot_rewritten _ _ _ _ _ Hset). split_and!; try done. intros _. by eapply set_slot_fails.
Qed.

Lemma replay_fee_ok k fee coinbase s ok s' :
  0 ≤ fee → replay_fee k fee coinbase s = (ok, s') →
  rewritten s s' ∧ bs_slots s' = bs_slots s ∧
  (ok = true → ∀ id, state_account k s' id =
     if decide (id = coinbase) then (state_account k s id) <| ac_balance := ac_balance (state_account k s id) + fee |>
     else state_account k s id) ∧
  (ok = false → fee ≠ 0 ∧ (undo_full s' ∨ U256_MAX < ac_balance (state_account k s coinbase) + fee)).
Proof.
  intros Hfee. unfold replay_fee. destruct (fee =? 0) eqn:H0.
  { apply Z.eqb_eq in H0 as ->. intros [= <- <-]. split_and!; try done. intros _ id. case_decide; [|done].
    destruct (state_account k s id). rec_simpl. by rewrite Z.add_0_r. }
  apply Z.eqb_neq in H0. destruct (U256_MAX <? _) eqn:Hb.
  { intros [= <- <-]. split_and!; try done. intros _. split; [done|]. right. by apply Z.ltb_lt. }
  intros Hset. destruct (set_account_rewritten _ _ _ _ _ Hset) as [Hre Hsl]. split_and!; [done|done| |].
  - intros ->. intros id. rewrite (set_account_get k _ _ _ _ id Hset). case_decide; [by subst|done].
  - intros ->. split; [done|]. left. by eapply set_account_fails.
Qed.

(** A transaction was executed in [s0] and left [s1]; the keys it wrote are
    interned, and what it read of accounts was their value in [s0]. *)
Record executed k s0 s1 (at_ : Checkpoint) (reads : TxReads) (coinbase : nat) (before : U256) : Prop := mk_executed {
  xd_keys : keys_ok k;
  xd_accounts : NoDup (accounts_since at_ s1);
  xd_slots : NoDup (slots_since at_ s1);
  xd_account_ids : ∀ id, id ∈ accounts_since at_ s1 → ∃ a, kt_account_ids k !! a = Some id;
  xd_slot_ids : ∀ id, id ∈ slots_since at_ s1 → ∃ e, kt_slot_ids k !! e = Some id;
  xd_reads : ∀ a read id, td_accounts reads !! a = Some read → kt_account_ids k !! a = Some id → read = state_account k s0 id;
  xd_before : before = ac_balance (state_account k s0 coinbase)
}.

Lemma parent_account_id k a id : keys_ok k → kt_account_ids k !! a = Some id → (parent_account k id).1 = a.
Proof. intros Hk Ha. destruct (ko_accounts _ Hk _ _ Ha) as (st & _ & H). unfold parent_account. by rewrite H. Qed.

(** The entry of a written account applied to a state that matches its read. *)
Lemma written_matches reads a read now cur floor :
  matches_read (if relaxed reads a read
                then mkAccountEntry (read <| ac_balance := Z.max floor (sat_sub (ac_balance read) (ac_balance now)) |>) RuleAtLeast
                else mkAccountEntry read RuleExact) cur = true →
  written_account cur (write_entry reads a read now) =
    (let b := ac_balance cur + (ac_balance now - ac_balance read) in
     if relaxed reads a read && (U256_MAX <? b) && (ac_balance read <=? ac_balance now) then None else Some (now <| ac_balance := b |>)).
Proof.
  unfold matches_read, write_entry. destruct (relaxed reads a read); cbn [ae_rule ae_account].
  - rewrite !andb_true_iff, !Z.leb_le. rec_simpl. intros [[_ Hle] _]. cbn zeta.
    destruct (ac_balance read <=? ac_balance now) eqn:Hb; unfold written_account; cbn [ae_rule ae_account]; rec_simpl.
    + rewrite andb_true_r. by destruct (U256_MAX <? _).
    + rewrite andb_false_r. apply Z.leb_gt in Hb. unfold sat_sub in Hle.
      rewrite (proj2 (Z.ltb_ge _ _)) by lia. cbn. f_equal. f_equal. lia.
  - intros Hm%bool_decide_eq_true. subst cur. cbn zeta. cbn [andb]. unfold written_account. cbn [ae_rule ae_account].
    destruct now. rec_simpl. f_equal. f_equal. lia.
Qed.

Lemma record_slot_writes_ok k s reads ids sw :
  mapM (record_slot_write k s reads) ids = Some sw → sw = (λ id, (id, state_slot k s id)) <$> ids.
Proof.
  intros H%mapM_Some. induction H as [|id x ids sw Hx _ IH]; [done|]. rewrite fmap_cons, IH. f_equal.
  unfold record_slot_write in Hx. destruct (parent_slot k id) as [[a key] v]. case_decide; [by injection Hx|done].
Qed.

Lemma recorded_entries_ok k s0 s1 at_ reads coinbase before ws rs sw sr fee loads k' :
  executed k s0 s1 at_ reads coinbase before →
  recorded_entries k s1 at_ reads coinbase before = (Some (ws, rs, sw, sr, fee, loads), k') →
  keys_ok k' ∧ keys_ext k k' ∧
  ws.*1 = List.filter (λ id, negb (fee_rule k s1 reads coinbase id)) (accounts_since at_ s1) ∧
  (∀ id w, (id, w) ∈ ws → ∃ a, kt_account_ids k !! a = Some id ∧ w = write_entry reads a (state_account k s0 id) (state_account k s1 id) ∧
     (id, read_entry k s1 reads a (state_account k s0 id) id) ∈ rs) ∧
  sw = (λ id, (id, state_slot k s1 id)) <$> slots_since at_ s1 ∧ 0 ≤ fee ∧
  fee = (if decide (coinbase ∈ accounts_since at_ s1 ∧ fee_rule k s1 reads coinbase coinbase = true)
         then ac_balance (state_account k s1 coinbase) - ac_balance (state_account k s0 coinbase) else 0).
Proof.
  intros [Hk Hnd Hnds Hids Hsids Hreads ->]. unfold recorded_entries.
  destruct (foldl _ (Some ([], 0, false)) _) as [[[ws' fee'] loads']|] eqn:Hw; [|done].
  destruct (mapM _ _) as [sw'|] eqn:Hsw; [|done].
  destruct (foldl (record_read _ _ _ _) _ _) as [[rs'|] k1] eqn:Hr; [|done].
  destruct (foldl record_slot_read _ _) as [[sr'|] k2] eqn:Hsr; [|done]. intros [= -> -> -> -> -> -> ->].
  destruct (record_writes_ok _ _ _ _ _ _ _ _ _ _ _ _ Hnd Hw) as (new & -> & Hfst & Hall & Hfee). cbn [app] in *.
  destruct (record_reads_ok _ _ _ _ _ _ _ _ _ Hk Hr) as (Hk1 & He1 & _ & Hrs).
  destruct (record_slot_reads_ok _ _ _ _ _ Hk1 Hsr) as (Hk2 & He2 & _ & _).
  split_and!; [done|by etrans|done| |by apply record_slot_writes_ok in Hsw| |].
  - intros id w Hin. rewrite Forall_forall in Hall. destruct (Hall _ Hin) as (read & Hread & Hwe). cbn [fst snd] in *.
    assert (id ∈ new.*1) as Hin1 by (apply list_elem_of_fmap; by exists (id, w)). rewrite Hfst in Hin1.
    apply elem_of_bool_filter in Hin1 as [Hsince Hnf%negb_true_iff].
    destruct (Hids id Hsince) as [a Ha]. rewrite (parent_account_id k a id Hk Ha) in Hread, Hwe.
    assert (read = state_account k s0 id) as -> by (by eapply Hreads). exists a. split_and!; [done|done|].
    destruct (Hrs a _ id (proj2 (elem_of_hash_iter _ _ _) Hread) Ha) as [[-> ->]|?]; [|done]. exfalso.
    rewrite decide_False in Hfee by (intros [_ ?]; congruence). by destruct Hfee.
  - case_decide; [|by destruct Hfee as [-> _]]. lia.
  - case_decide; [by destruct Hfee as (_ & -> & _)|by destruct Hfee as [-> _]].
Qed.

Lemma range_middle {A} (l ws rs : list A) :
  range_writes (mkRange (length l) (length (ws ++ rs))) (length ws) (l ++ ws ++ rs) = ws ∧
  range_reads (mkRange (length l) (length (ws ++ rs))) (length ws) (l ++ ws ++ rs) = rs.
Proof.
  unfold range_writes, range_reads. cbn. rewrite drop_app_length, take_app_length. split; [done|].
  rewrite <- drop_drop, drop_app_length, drop_app_length, length_app. apply take_ge. lia.
Qed.

(** The account a replay in [s] leaves where the execution changed [s0] to [s1]. *)
Definition shifted_account k s0 s1 s reads coinbase (id : nat) : Account :=
  (if fee_rule k s1 reads coinbase id then state_account k s id else state_account k s1 id)
    <| ac_balance := ac_balance (state_account k s id) + (ac_balance (state_account k s1 id) - ac_balance (state_account k s0 id)) |>.

Section recorded.
Context (tx : nat) (gas : u64) (k : KeyTable) (s0 s1 : BlockState) (at_ : Checkpoint) (reads : TxReads) (coinbase : nat).
Context (before : U256) (receipt : Receipt) (own own' : list Receipt) (c c' : EffectCache) (ix : nat) (k' : KeyTable).
Hypothesis Hex : executed k s0 s1 at_ reads coinbase before.
Hypothesis Hrec : effect_record tx gas k s1 at_ reads coinbase before receipt own c = (Some ix, k', own', c').

Lemma recorded_effect :
  ∃ e ws rs sw sr fee loads, ec_entries c' !! ix = Some e ∧ ef_tx e = tx ∧ ef_gas e = gas ∧ ef_coinbase_fee e = fee ∧
    recorded_entries k s1 at_ reads coinbase before = (Some (ws, rs, sw, sr, fee, loads), k') ∧
    range_writes (ef_accounts e) (ef_account_writes e) (ec_account_entries c') = ws ∧
    range_reads (ef_accounts e) (ef_account_writes e) (ec_account_entries c') = rs ∧
    range_writes (ef_slots e) (ef_slot_writes e) (ec_slot_entries c') = sw ∧
    ec_latest_by_tx c' !! tx = Some (Some ix).
Proof.
  revert Hrec. unfold effect_record. destruct (_ || _); [done|].
  destruct (recorded_entries k s1 at_ reads coinbase before) as [[[[[[[ws rs] sw] sr] fee] loads]|] k1] eqn:He; [|done].
  intros [= <- <- <- <-]. eexists _, ws, rs, sw, sr, fee, loads. cbn [ec_entries ec_account_entries ec_slot_entries ec_latest_by_tx].
  split_and!; [by rewrite lookup_app_r, Nat.sub_diag|done..|apply range_middle|apply range_middle|apply range_middle|].
  apply list_lookup_insert_eq. unfold resized. rewrite length_app, length_replicate. lia.
Qed.

Lemma known_id id : id ∈ accounts_since at_ s1 → ∃ a, kt_account_ids k !! a = Some id.
Proof. apply Hex. Qed.

Lemma replay_shifts s e :
  keys_ext k k' → ec_entries c' !! ix = Some e → replayable c' k' s coinbase e = true →
  (∃ a, kt_account_ids k !! a = Some coinbase) →
  ∃ r s', effect_replay c' ix k' s coinbase = Some (r, s') ∧ rewritten s s' ∧
    (∀ g, r = Some g → g = gas ∧
       (∀ id, state_account k' s' id = if decide (id ∈ accounts_since at_ s1) then shifted_account k s0 s1 s reads coinbase id
                                       else state_account k' s id) ∧
       (∀ id, state_slot k' s' id = if decide (id ∈ slots_since at_ s1) then state_slot k s1 id else state_slot k' s id)) ∧
    (r = None → undo_full s' ∨ ∃ id, id ∈ accounts_since at_ s1 ∧
       U256_MAX < ac_balance (state_account k s id) + (ac_balance (state_account k s1 id) - ac_balance (state_account k s0 id))).
Proof.
  intros He' Hent Hrep [acb Hcb].
  destruct recorded_effect as (e' & ws & rs & sw & sr & fee & loads & Hent' & _ & Hgas & Hfe & Hentries & Hws & Hrs & Hsw & _).
  assert (e' = e) as -> by congruence. clear Hent'.
  destruct (recorded_entries_ok _ _ _ _ _ _ _ _ _ _ _ _ _ _ Hex Hentries) as (_ & _ & Hfst & Hin & Hsweq & Hfee0 & Hfee).
  pose proof (xd_keys _ _ _ _ _ _ _ Hex) as Hk.
  assert (∀ a id t, kt_account_ids k !! a = Some id → state_account k' t id = state_account k t id) as Hsame.
  { intros a id t Ha. by eapply state_account_ext. }
  assert (NoDup ws.*1) as Hndw.
  { rewrite Hfst. apply NoDup_ListNoDup, List.NoDup_filter, NoDup_ListNoDup. apply Hex. }
  assert (∀ id w, (id, w) ∈ ws → id ∈ accounts_since at_ s1 ∧
    (written_account (state_account k' s id) w = Some (shifted_account k s0 s1 s reads coinbase id) ∨
     written_account (state_account k' s id) w = None ∧
     U256_MAX < ac_balance (state_account k s id) + (ac_balance (state_account k s1 id) - ac_balance (state_account k s0 id)))) as Hwritten.
  { intros id w Hw. assert (id ∈ ws.*1) as Hf by (apply list_elem_of_fmap; by exists (id, w)).
    rewrite Hfst in Hf. apply elem_of_bool_filter in Hf as [Hsince Hnf%negb_true_iff]. split; [done|].
    destruct (Hin _ _ Hw) as (a & Ha & -> & Hr). unfold replayable in Hrep. rewrite Hrs, !andb_true_iff in Hrep.
    destruct Hrep as [[_ Hra] _]. rewrite forallb_Forall, Forall_forall in Hra. specialize (Hra _ Hr). cbn [fst snd] in Hra.
    unfold read_entry in Hra. rewrite (Hsame a id s Ha) in Hra |- *. rewrite (written_matches _ _ _ _ _ _ Hra). cbn zeta.
    unfold shifted_account. rewrite Hnf. destruct (_ && _) eqn:Hb; [|by left]. right. rewrite !andb_true_iff, Z.ltb_lt in Hb. naive_solver. }
  unfold effect_replay. rewrite Hent. cbn [mbind option_bind]. rewrite Hws, Hsw.
  destruct (replay_accounts k' ws s) as [ok1 t1] eqn:H1.
  destruct (replay_accounts_ok _ _ _ _ _ Hndw H1) as (Hre1 & Hsl1 & Hok1 & Hbad1).
  destruct ok1; cbn [negb].
  2: { eexists _, _. split; [reflexivity|]. split_and!; [done|done|]. intros _. destruct (Hbad1 eq_refl) as [?|(id & w & Hw & Hn)]; [by left|].
       right. exists id. destruct (Hwritten _ _ Hw) as (Hs & [?|[_ ?]]); [congruence|done]. }
  destruct (Hok1 eq_refl) as [Hset1 Hkeep1]. clear Hok1 Hbad1.
  destruct (replay_slots sw t1) as [ok2 t2] eqn:H2.
  assert (NoDup sw.*1) as Hnds.
  { rewrite Hsweq, <- list_fmap_compose. unfold compose. cbn. rewrite list_fmap_id. apply Hex. }
  destruct (replay_slots_ok k' _ _ _ _ Hnds H2) as (Hre2 & Hac2 & Hok2 & Hbad2).
  destruct ok2; cbn [negb].
  2: { eexists _, _. split; [reflexivity|]. split_and!; [by etrans|done|]. intros _. left. by apply Hbad2. }
  destruct (Hok2 eq_refl) as [Hset2 Hkeep2]. clear Hok2 Hbad2. rewrite Hfe. clear Hfe.
  destruct (replay_fee k' fee coinbase t2) as [ok3 t3] eqn:H3.
  destruct (replay_fee_ok _ _ _ _ _ _ Hfee0 H3) as (Hre3 & Hsl3 & Hok3 & Hbad3).
  assert (∀ id, state_account k' t2 id = state_account k' t1 id) as Ha12 by (intros id; unfold state_account; by rewrite Hac2).
  assert (∀ id, state_slot k' t1 id = state_slot k' s id) as Hs01 by (intros id; unfold state_slot; by rewrite Hsl1).
  assert (∀ id, state_slot k' t3 id = state_slot k' t2 id) as Hs23 by (intros id; unfold state_slot; by rewrite Hsl3).
  assert (fee_rule k s1 reads coinbase coinbase = true → coinbase ∉ ws.*1) as Hcbw.
  { rewrite Hfst. intros Hf [_ Hn]%elem_of_bool_filter. rewrite Hf in Hn. done. }
  eexists _, _. split; [reflexivity|]. split_and!; [by repeat (etrans; [eassumption|])| |].
  - intros g Hg. destruct ok3; [|done]. injection Hg as <-. split_and!; [done| |].
    + intros id. rewrite (Hok3 eq_refl id), !Ha12. destruct (decide (id ∈ accounts_since at_ s1)) as [Hsince|Hsince].
      * destruct (fee_rule k s1 reads coinbase id) eqn:Hf.
        -- assert (id = coinbase) as -> by (apply andb_true_iff in Hf as [Hf _]; by apply bool_decide_eq_true in Hf).
           rewrite decide_True, (Hkeep1 _ (Hcbw Hf)), (Hsame _ _ s Hcb) by done. unfold shifted_account. rewrite Hf.
           rewrite decide_True in Hfee by done. by rewrite Hfee.
        -- assert (id ∈ ws.*1) as Hiw by (rewrite Hfst; apply elem_of_bool_filter; by rewrite Hf).
           apply list_elem_of_fmap in Hiw as ([id' w] & Heq & Hw). cbn in Heq. subst id'.
           assert (state_account k' t1 id = shifted_account k s0 s1 s reads coinbase id) as ->.
           { pose proof (Hset1 _ _ Hw). destruct (Hwritten _ _ Hw) as (_ & [?|[? _]]); congruence. }
           destruct (decide (id = coinbase)) as [Hc|Hc]; [|done]. subst id. rewrite decide_False in Hfee by (intros [_ ?]; congruence). subst fee.
           destruct (shifted_account _ _ _ _ _ _ _). rec_simpl. by rewrite Z.add_0_r.
      * assert (id ∉ ws.*1) as Hiw by (rewrite Hfst; intros [? _]%elem_of_bool_filter; done). rewrite (Hkeep1 _ Hiw).
        destruct (decide (id = coinbase)) as [Hc|Hc]; [|done]. subst id. rewrite decide_False in Hfee by (intros [? _]; done). subst fee.
        destruct (state_account k' s coinbase). rec_simpl. by rewrite Z.add_0_r.
    + intros id. rewrite Hs23. destruct (decide (id ∈ slots_since at_ s1)) as [Hsince|Hsince].
      * apply Hset2. rewrite Hsweq. apply list_elem_of_fmap. by exists id.
      * rewrite Hkeep2, Hs01; [done|]. rewrite Hsweq, <- list_fmap_compose. unfold compose. cbn. by rewrite list_fmap_id.
  - intros Hn. destruct ok3; [done|]. destruct (Hbad3 eq_refl) as [Hf0 [?|Hov]]; [by left|]. right. exists coinbase.
    case_decide as Hd; [|done]. destruct Hd as [Hd1 Hd2]. split; [done|].
    rewrite Ha12, (Hkeep1 _ (Hcbw Hd2)), (Hsame _ _ s Hcb), Hfee in Hov. done.
Qed.

(** C21: Replaying a recorded transaction repeats its writes. Once it is recorded,
    in every state whose values match what the transaction read, the recorded effect
    is the one found, and replaying it leaves of every account and slot the
    execution wrote what the execution left, with each balance moved by as much as
    the execution moved it; a coinbase that only received keeps its other fields,
    and nothing else changes. The gas is that of the execution, and the only ways to
    fail are a full undo log and a balance over its width: no debit underflows. *)
Theorem replay_equivalent s e :
  (∃ a, kt_account_ids k !! a = Some coinbase) → ec_entries c' !! ix = Some e → replayable c' k' s coinbase e = true →
  find_replayable c' tx k' s coinbase = Some ix ∧
  ∃ r s', effect_replay c' ix k' s coinbase = Some (r, s') ∧ rewritten s s' ∧
    (∀ g, r = Some g → g = gas ∧
       (∀ id, state_account k' s' id = if decide (id ∈ accounts_since at_ s1) then shifted_account k s0 s1 s reads coinbase id
                                       else state_account k' s id) ∧
       (∀ id, state_slot k' s' id = if decide (id ∈ slots_since at_ s1) then state_slot k s1 id else state_slot k' s id)) ∧
    (r = None → undo_full s' ∨ ∃ id, id ∈ accounts_since at_ s1 ∧
       U256_MAX < ac_balance (state_account k s id) + (ac_balance (state_account k s1 id) - ac_balance (state_account k s0 id))).
Proof.
  intros Hcb He Hrep. destruct recorded_effect as (e' & ws & rs & sw & sr & fee & loads & He' & _ & _ & _ & Hentries & _ & _ & _ & Hl).
  assert (e' = e) as -> by congruence. split.
  - unfold find_replayable. rewrite Hl. cbn [mbind option_bind VARIANTS_PER_TX find_variant]. rewrite He. cbn [mbind option_bind]. by rewrite Hrep.
  - apply (replay_shifts s e); [|done..]. by destruct (recorded_entries_ok _ _ _ _ _ _ _ _ _ _ _ _ _ _ Hex Hentries) as (_ & ? & _).
Qed.
End recorded.

(** ** Histories of the cache *)

Inductive cache_reach : EffectCache → Prop :=
| reach_new : cache_reach effects_new
| reach_clear c : cache_reach c → cache_reach (effects_clear c)
| reach_reset env c : cache_reach c → cache_reach (reset_for env c)
| reach_record tx gas k s at_ reads coinbase before receipt own c r k' own' c' :
    cache_reach c → effect_record tx gas k s at_ reads coinbase before receipt own c = (r, k', own', c') → cache_reach c'.

Lemma cache_reach_ok c : cache_reach c → effects_ok c.
Proof.
  induction 1; [apply effects_new_ok|by apply effects_clear_ok|by apply reset_for_ok|by eapply effect_record_ok].
Qed.

End replaying.

(** ** A concrete transaction

    Account 3 sends 10 to account 5 and pays a fee of 2 to the coinbase 9; it is
    replayed after account 3 received 100. *)

Local Existing Instance ex_db.
Local Existing Instance list_order.

Definition ex_keys : KeyTable := (intern_account 9 (intern_account 5 (intern_account 3 keys_new).2).2).2.

Lemma ex_keys_ok : keys_ok ex_keys.
Proof.
  eapply intern_account_ok; [|apply surjective_pairing]. eapply intern_account_ok; [|apply surjective_pairing].
  eapply intern_account_ok; [apply keys_new_ok|apply surjective_pairing].
Qed.

Definition ex_after : BlockState :=
  (set_account 3 (mkAccount 22 0 7 false) (set_account 2 (mkAccount 30 0 7 false)
     (set_account 1 (mkAccount 38 2 70 true) state_new).2).2).2.
Definition ex_reads : TxReads :=
  mkTxReads {[3 := mkAccount 50 1 70 true; 5 := mkAccount 20 0 7 false]} ∅ ∅ [(3, 12)].
Definition ex_recorded := effect_record 6 21000 ex_keys ex_after (checkpoint state_new) ex_reads 3 20 (mkReceipt false true [192]) [] effects_new.

Lemma ex_executed : executed ex_keys state_new ex_after (checkpoint state_new) ex_reads 3 20.
Proof.
  split; [apply ex_keys_ok| | | | | |done].
  - change (accounts_since (checkpoint state_new) ex_after) with [1; 2; 3]%nat. repeat constructor; set_solver.
  - apply NoDup_nil_2.
  - intros id. change (accounts_since (checkpoint state_new) ex_after) with [1; 2; 3]%nat.
    intros [->|[->|[->|[]%elem_of_nil]%elem_of_cons]%elem_of_cons]%elem_of_cons; [by exists 3|by exists 5|by exists 9].
  - intros id. change (slots_since (checkpoint state_new) ex_after) with (@nil nat). by intros ?%elem_of_nil.
  - intros a read id. unfold ex_reads. cbn [td_accounts]. rewrite lookup_insert_Some, lookup_singleton_Some.
    intros [[<- <-]|[_ [<- <-]]] Ha; vm_compute in Ha; by injection Ha as <-.
Qed.

Definition ex_richer : BlockState := (set_account 1 (mkAccount 150 1 70 true) state_new).2.

Lemma replay_equivalent_witness :
  ∃ s', effect_replay ex_recorded.2 0 ex_recorded.1.1.2 ex_richer 3 = Some (Some 21000, s') ∧
    state_account ex_recorded.1.1.2 s' 1 = mkAccount 138 2 70 true ∧
    state_account ex_recorded.1.1.2 s' 3 = mkAccount 22 0 7 false.
Proof.
  destruct (replay_equivalent 6 21000 ex_keys state_new ex_after (checkpoint state_new) ex_reads 3 20 (mkReceipt false true [192]) []
              ex_recorded.1.2 effects_new ex_recorded.2 0 ex_recorded.1.1.2 ex_executed
              ltac:(by vm_compute) ex_richer (default (mkEffect 0 None (mkRange 0 0) 0 (mkRange 0 0) 0 (mkRange 0 0) 0 0 false) (ec_entries ex_recorded.2 !! 0%nat))
              ltac:(by exists 9) ltac:(by vm_compute) ltac:(by vm_compute)) as [_ (r & s' & Hr & _ & Hok & Hbad)].
  assert (r = Some 21000) as -> by (vm_compute in Hr; by injection Hr). destruct (Hok _ eq_refl) as (_ & Ha & _).
  exists s'. rewrite !Ha. by split_and!; [|vm_compute..].
Defined.

