(* ===== verification/MergePayment.v ===== *)
(** * Distribution of the merged revenue

    [crates/builder/src/merge/payment.rs]: how the revenue of the appended orders
    is split between proposer, relay, the builders the orders come from and the
    builder of the base block, and the call that pays it out of the collateral
    safe. 256-bit arithmetic wraps. *)

From S2P Require Import Prelude Types Submission Rlp MergeTrie MergeOrders MergeWire MergePool.

Definition u256_modulus : Z := 2 ^ 256.

Record Revenue := mkRevenue { rv_submitter : nat; rv_paid : U256 }.

(** [iter().sum()] on 256-bit integers. *)
Definition sum_u256 (l : list U256) : U256 := foldl (λ acc x, (acc + x) mod u256_modulus) 0 l.

Definition share (bps value : Z) : U256 := (bps * value) mod u256_modulus / TOTAL_BPS.

Definition credit (out : list (Address * U256)) (e : Address * U256) : list (Address * U256) :=
  match position (λ x : Address * U256, x.1 =? e.1) out with
  | Some i => alter (λ x, (x.1, (x.2 + e.2) mod u256_modulus)) i out
  | None => out ++ [e]
  end.

(** The share of a revenue: [None] is a panic, of the division, of the conversion
    back to 256 bits or of the index. *)
Definition origin_credit (relay : RelayConfigV1) (submitters : list Submitter) (net total : U256) (r : Revenue)
    : option (Address * U256) :=
  let actual := rv_paid r * net / total in
  submitter ← submitters !! rv_submitter r;
  if (total =? 0) || (u256_modulus <=? actual) then None
  else Some (sb_address submitter, share (rc_merged_builder_bps relay) actual).

Definition proposer_bps (relay : RelayConfigV1) : u64 :=
  (TOTAL_BPS - rc_relay_bps relay - rc_merged_builder_bps relay - rc_winning_builder_bps relay) mod u64_modulus.

(** The calls of [credit], in order. *)
Definition credits (relay : RelayConfigV1) (revenues : list Revenue) (submitters : list Submitter) (cost : U256)
    (gas_payer proposer : Address) : option (list (Address * U256)) :=
  let total := sum_u256 (rv_paid <$> revenues) in
  let net := (total - cost) mod u256_modulus in
  origins ← mapM (origin_credit relay submitters net total) revenues;
  Some ((proposer, share (proposer_bps relay) net) ::
        (rc_relay_fee_recipient relay, share (rc_relay_bps relay) net) ::
        origins ++ if cost =? 0 then [] else [(gas_payer, cost)]).

Definition split_revenue (relay : RelayConfigV1) (revenues : list Revenue) (submitters : list Submitter) (cost : U256)
    (gas_payer proposer beneficiary : Address) : option (list (Address * U256)) :=
  l ← credits relay revenues submitters cost gas_payer proposer;
  Some (List.filter (λ x : Address * U256, negb (x.1 =? beneficiary)) (foldl credit [] l)).

(** ** The payment *)

Record SafePayment := mkSafePayment {
  sp_safe : Address;
  sp_safe_balance : U256;
  sp_safe_nonce : u64;
  sp_signer_nonce : u64;
  sp_chain_id : u64;
  sp_gas_limit : u64;
  sp_base_fee : Z;
  sp_multisend : Address
}.

(** Operation, recipient, value and the length of the data, which is empty. *)
Definition pack_call (e : Address * U256) : Bytes :=
  0 :: be_bytes 20 e.1 ++ be_bytes 32 e.2 ++ replicate 32 0.
Definition pack_calls (to : list (Address * U256)) : Bytes := to ≫= pack_call.

(** [execTransaction] of the safe and the transaction that calls it. *)
Record ExecTransaction := mkExecTransaction {
  xt_to : Address;
  xt_value : U256;
  xt_data : Bytes;
  xt_operation : Z;
  xt_safe_tx_gas : U256;
  xt_base_gas : U256;
  xt_gas_price : U256;
  xt_gas_token : Address;
  xt_refund_receiver : Address;
  xt_signatures : Bytes
}.
Record TxEip1559 := mkTxEip1559 {
  fx_chain_id : u64;
  fx_nonce : u64;
  fx_gas_limit : u64;
  fx_max_fee_per_gas : Z;
  fx_max_priority_fee_per_gas : Z;
  fx_to : Address;
  fx_value : U256;
  fx_access_list : list (Address * list B256);
  fx_input : Bytes
}.
Record Signature := mkSignature { sg_r : U256; sg_s : U256; sg_v : bool }.

(** The encodings of the ABI and of transactions, and the signer. *)
Class PaymentLibs := {
  abi_multi_send : Bytes → Bytes;
  abi_exec_transaction : ExecTransaction → Bytes;
  (** A tuple of values of fixed size. *)
  abi_encode : list Z → Bytes;
  signature_hash : TxEip1559 → B256;
  encoded_2718 : TxEip1559 → Signature → Bytes;
  sign_hash_sync : B256 → option Signature
}.

Definition DELEGATE_CALL : Z := 1.
Definition ascii_bytes (s : string) : Bytes := (λ c, Z.of_N (Ascii.N_of_ascii c)) <$> String.list_ascii_of_string s.
Definition DOMAIN_TYPE : string := "EIP712Domain(uint256 chainId,address verifyingContract)".
Definition SAFE_TX_TYPE : string :=
  "SafeTx(address to,uint256 value,bytes data,uint8 operation,uint256 safeTxGas,uint256 baseGas,uint256 gasPrice,address gasToken,address refundReceiver,uint256 nonce)".

Inductive PaymentError := SafeBalance.

Section payment.
Context `{KE : Keccak} `{PL : PaymentLibs}.

Definition safe_tx_hash (safe to : Address) (value : U256) (data : Bytes) (nonce chain : u64) : B256 :=
  let domain := keccak256 (abi_encode [keccak256 (ascii_bytes DOMAIN_TYPE); chain; safe]) in
  let struct_hash :=
    keccak256 (abi_encode [keccak256 (ascii_bytes SAFE_TX_TYPE); to; value; keccak256 data; DELEGATE_CALL; 0; 0; 0; 0; 0; nonce]) in
  keccak256 ([25; 1] ++ be_bytes 32 domain ++ be_bytes 32 struct_hash).

(** [None] is a panic: the signer fails. *)
Definition payment_tx (p : SafePayment) (to : list (Address * U256)) : option (Result Bytes PaymentError) :=
  let total := sum_u256 to.*2 in
  if sp_safe_balance p <? total then Some (Err SafeBalance)
  else
    let data := abi_multi_send (pack_calls to) in
    signature ← sign_hash_sync (safe_tx_hash (sp_safe p) (sp_multisend p) total data (sp_safe_nonce p) (sp_chain_id p));
    let signatures := be_bytes 32 (sg_r signature) ++ be_bytes 32 (sg_s signature) ++ [27 + Z.b2z (sg_v signature)] in
    let input := abi_exec_transaction (mkExecTransaction (sp_multisend p) total data DELEGATE_CALL 0 0 0 0 0 signatures) in
    let tx := mkTxEip1559 (sp_chain_id p) (sp_signer_nonce p) (sp_gas_limit p) (sp_base_fee p) 0 (sp_safe p) 0 [] input in
    signature ← sign_hash_sync (signature_hash tx);
    Some (Ok (encoded_2718 tx signature)).
End payment.

(** ** Crediting

    What an address is paid. *)
Definition paid_to (out : list (Address * U256)) (a : Address) : Z :=
  sumZ ((λ e : Address * U256, if e.1 =? a then e.2 else 0) <$> out).
Definition share_of (out : list (Address * U256)) (a : Address) : U256 :=
  default 0 (snd <$> find (λ e : Address * U256, e.1 =? a) out).

Definition amounts_ok (l : list (Address * U256)) : Prop := Forall (λ e : Address * U256, 0 ≤ e.2) l.

Lemma sum_u256_exact l : Forall (λ x, 0 ≤ x) l → sumZ l < u256_modulus → sum_u256 l = sumZ l.
Proof.
  intros Hl Hs. unfold sum_u256.
  assert (∀ l acc, Forall (λ x, 0 ≤ x) l → 0 ≤ acc → acc + sumZ l < u256_modulus →
    foldl (λ acc x, (acc + x) mod u256_modulus) acc l = acc + sumZ l) as Hg; [|by rewrite Hg].
  clear. induction l as [|x l IH]; intros acc Hl Hacc Hs; cbn in *; [lia|].
  apply Forall_cons in Hl as [Hx Hl]. assert (0 ≤ sumZ l) by (apply sumZ_nonneg; by apply Forall_forall).
  rewrite Z.mod_small by lia. rewrite IH by (done || lia). lia.
Qed.

Lemma sumZ_le_elem l x : Forall (λ x, 0 ≤ x) l → x ∈ l → x ≤ sumZ l.
Proof.
  induction 1 as [|y l Hy Hl IH]; [by intros ?%elem_of_nil|].
  assert (0 ≤ sumZ l) by (apply sumZ_nonneg; by apply Forall_forall).
  intros [->|Hx]%elem_of_cons; cbn; [lia|]. specialize (IH Hx). lia.
Qed.

Lemma credit_spec out e :
  NoDup out.*1 → amounts_ok out → 0 ≤ e.2 → sumZ out.*2 + e.2 < u256_modulus →
  NoDup (credit out e).*1 ∧ amounts_ok (credit out e) ∧ sumZ (credit out e).*2 = sumZ out.*2 + e.2 ∧
  ∀ a, paid_to (credit out e) a = paid_to out a + if e.1 =? a then e.2 else 0.
Proof.
  intros Hnd Hok He Hs. unfold credit. destruct (position _ out) as [i|] eqn:Hp.
  - apply position_some in Hp as (x & Hx & Hp & _). apply Z.eqb_eq in Hp.
    assert (0 ≤ x.2) as Hx0 by (by eapply (Forall_lookup_1 _ _ _ _ Hok)).
    assert (x.2 + e.2 < u256_modulus) as Hlt.
    { assert (x.2 ≤ sumZ out.*2); [|lia]. apply sumZ_le_elem.
      - by apply Forall_fmap.
      - apply list_elem_of_fmap_2. by eapply list_elem_of_lookup_2. }
    assert (alter (λ x, (x.1, (x.2 + e.2) mod u256_modulus)) i out = <[i := (x.1, x.2 + e.2)]> out) as ->.
    { apply list_eq. intros j. destruct (decide (j = i)) as [->|Hj].
      - rewrite list_lookup_alter_eq, Hx, list_lookup_insert_eq by (by eapply lookup_lt_Some). cbn.
        by rewrite Z.mod_small by lia.
      - by rewrite list_lookup_alter_ne, list_lookup_insert_ne. }
    split_and!.
    + rewrite list_fmap_insert. rewrite list_insert_id; [done|]. by rewrite list_lookup_fmap, Hx.
    + apply Forall_insert; [done|]. cbn. lia.
    + rewrite list_fmap_insert. rewrite (sumZ_insert _ _ _ x.2) by (by rewrite list_lookup_fmap, Hx). cbn. lia.
    + intros a. unfold paid_to. rewrite list_fmap_insert.
      rewrite (sumZ_insert _ _ _ (if x.1 =? a then x.2 else 0)) by (by rewrite list_lookup_fmap, Hx). cbn.
      rewrite Hp. destruct (e.1 =? a); lia.
  - rewrite position_none in Hp. split_and!.
    + rewrite fmap_app. apply NoDup_app. split_and!; [done| |apply NoDup_singleton].
      intros a (x & -> & Hx)%list_elem_of_fmap Ha%list_elem_of_singleton. specialize (Hp x Hx). cbn in Hp, Ha.
      rewrite Ha, Z.eqb_refl in Hp. done.
    + apply Forall_app. split; [done|]. by apply Forall_singleton.
    + rewrite fmap_app, sumZ_app. cbn. lia.
    + intros a. unfold paid_to. rewrite fmap_app, sumZ_app. cbn. lia.
Qed.

Lemma credit_all l : ∀ out,
  NoDup out.*1 → amounts_ok out → amounts_ok l → sumZ out.*2 + sumZ l.*2 < u256_modulus →
  let out' := foldl credit out l in
  NoDup out'.*1 ∧ amounts_ok out' ∧ sumZ out'.*2 = sumZ out.*2 + sumZ l.*2 ∧
  ∀ a, paid_to out' a = paid_to out a + paid_to l a.
Proof.
  induction l as [|e l IH]; intros out Hnd Hok Hl Hs; cbn [foldl fmap list_fmap sumZ foldr] in *.
  { split_and!; [done|done|lia|]. intros a. unfold paid_to at 3. cbn. lia. }
  apply Forall_cons in Hl as [He Hl]. change (foldr Z.add 0 l.*2) with (sumZ l.*2) in Hs |- *.
  assert (0 ≤ sumZ l.*2) by (apply sumZ_nonneg; intros x (y & -> & Hy)%list_elem_of_fmap; rewrite Forall_forall in Hl; by apply Hl).
  destruct (credit_spec out e Hnd Hok He ltac:(lia)) as (H1 & H2 & H3 & H4).
  destruct (IH (credit out e) H1 H2 Hl ltac:(lia)) as (H5 & H6 & H7 & H8). split_and!; [done|done|lia|].
  intros a. rewrite H8, H4. unfold paid_to. cbn. lia.
Qed.

Lemma sumZ_filter_le (p : Address * U256 → bool) l : amounts_ok l → sumZ (List.filter p l).*2 ≤ sumZ l.*2.
Proof. induction 1 as [|x l Hx Hl IH]; cbn; [done|]. destruct (p x); cbn; lia. Qed.

Lemma paid_to_filter l b a :
  paid_to (List.filter (λ x : Address * U256, negb (x.1 =? b)) l) a = if a =? b then 0 else paid_to l a.
Proof.
  unfold paid_to. induction l as [|x l IH]; cbn [List.filter]; [by destruct (a =? b)|].
  destruct (x.1 =? b) eqn:Hb; cbn [negb fmap list_fmap sumZ foldr]; fold (sumZ); rewrite IH; cbn.
  - apply Z.eqb_eq in Hb. destruct (a =? b) eqn:Ha; [done|]. apply Z.eqb_neq in Ha.
    rewrite (proj2 (Z.eqb_neq x.1 a)) by congruence. lia.
  - destruct (a =? b) eqn:Ha; [|done]. apply Z.eqb_eq in Ha. rewrite Ha, Hb. lia.
Qed.

Lemma paid_to_absent l a : a ∉ l.*1 → paid_to l a = 0.
Proof.
  unfold paid_to. induction l as [|x l IH]; [done|]. cbn. intros Hni. rewrite not_elem_of_cons in Hni. destruct Hni as [H1 H2].
  rewrite (IH H2), (proj2 (Z.eqb_neq x.1 a)) by congruence. done.
Qed.

Lemma share_of_paid l a : NoDup l.*1 → share_of l a = paid_to l a.
Proof.
  unfold share_of. induction l as [|x l IH]; [done|]. rewrite fmap_cons, NoDup_cons. intros [Hni Hnd].
  rewrite find_cons. unfold paid_to. cbn. destruct (x.1 =? a) eqn:Hx.
  - apply Z.eqb_eq in Hx. subst a. pose proof (paid_to_absent l x.1 Hni) as H. unfold paid_to in H. cbn. lia.
  - rewrite (IH Hnd). done.
Qed.

(** ** Splitting *)
Section split.
Context (relay : RelayConfigV1) (revenues : list Revenue) (submitters : list Submitter).
Context (cost : U256) (gas_payer proposer beneficiary : Address).

(** The configuration is valid, the revenues name submitters and exceed the cost
    of the payment, and are far from the width of the integers. *)
Record split_ok : Prop := mk_split_ok {
  sl_bps : 0 ≤ rc_relay_bps relay ∧ 0 ≤ rc_merged_builder_bps relay ∧ 0 ≤ rc_winning_builder_bps relay;
  sl_sum : rc_relay_bps relay + rc_merged_builder_bps relay + rc_winning_builder_bps relay < TOTAL_BPS;
  sl_paid : Forall (λ r, 0 ≤ rv_paid r) revenues;
  sl_submitters : Forall (λ r, (rv_submitter r < length submitters)%nat) revenues;
  sl_cost : 0 ≤ cost < sumZ (rv_paid <$> revenues);
  sl_width : sumZ (rv_paid <$> revenues) * TOTAL_BPS < u256_modulus
}.

Definition origin_of (r : Revenue) : Address := from_option sb_address 0 (submitters !! rv_submitter r).
Definition total_paid : Z := sumZ (rv_paid <$> revenues).
Definition net_paid : Z := total_paid - cost.
Definition actual_of (r : Revenue) : Z := rv_paid r * net_paid / total_paid.

(** What each address is owed. *)
Definition owed (a : Address) : Z :=
  (if proposer =? a then
     (TOTAL_BPS - rc_relay_bps relay - rc_merged_builder_bps relay - rc_winning_builder_bps relay) * net_paid / TOTAL_BPS
   else 0) +
  (if rc_relay_fee_recipient relay =? a then rc_relay_bps relay * net_paid / TOTAL_BPS else 0) +
  sumZ ((λ r, if origin_of r =? a then rc_merged_builder_bps relay * actual_of r / TOTAL_BPS else 0) <$> revenues) +
  (if gas_payer =? a then cost else 0).

Hypothesis Hok : split_ok.

Lemma share_exact bps value :
  0 ≤ bps ≤ TOTAL_BPS → 0 ≤ value ≤ total_paid → share bps value = bps * value / TOTAL_BPS.
Proof.
  intros Hb Hv. unfold share. rewrite Z.mod_small; [done|]. pose proof (sl_width Hok) as Hw. fold total_paid in Hw.
  split; [nia|]. apply Z.le_lt_trans with (TOTAL_BPS * total_paid); [nia|lia].
Qed.

Lemma total_exact : sum_u256 (rv_paid <$> revenues) = total_paid.
Proof.
  apply sum_u256_exact; [apply Forall_fmap; apply Hok|]. pose proof (sl_width Hok). pose proof (sl_cost Hok).
  unfold TOTAL_BPS in *. lia.
Qed.

Lemma net_range : 0 < net_paid ≤ total_paid.
Proof. pose proof (sl_cost Hok). unfold net_paid, total_paid. lia. Qed.

Lemma actual_range r : r ∈ revenues → 0 ≤ actual_of r ≤ net_paid.
Proof.
  intros Hr. pose proof net_range. pose proof (sl_paid Hok) as Hp. rewrite Forall_forall in Hp. specialize (Hp r Hr). cbn in Hp.
  assert (rv_paid r ≤ total_paid).
  { apply sumZ_le_elem; [apply Forall_fmap; apply Hok|]. by apply list_elem_of_fmap_2. }
  unfold actual_of. split; [apply Z.div_pos; nia|]. apply Z.div_le_upper_bound; nia.
Qed.

(** The rounding of a sum of quotients. *)
Lemma sum_div {A} (f : A → Z) (c d : Z) (l : list A) :
  0 < d → c * sumZ (f <$> l) - d * Z.of_nat (length l) ≤ d * sumZ ((λ x, c * f x / d) <$> l) ≤ c * sumZ (f <$> l).
Proof.
  intros Hd. induction l as [|x l IH]; cbn [fmap list_fmap sumZ foldr length]; [lia|].
  change (foldr Z.add 0 (f <$> l)) with (sumZ (f <$> l)). change (foldr Z.add 0 ((λ x, c * f x / d) <$> l)) with (sumZ ((λ x, c * f x / d) <$> l)).
  pose proof (Z.mul_div_le (c * f x) d Hd). pose proof (Z.mul_succ_div_gt (c * f x) d Hd). lia.
Qed.

Lemma sum_actual : net_paid - Z.of_nat (length revenues) ≤ sumZ (actual_of <$> revenues) ≤ net_paid.
Proof.
  pose proof net_range. pose proof (sum_div rv_paid net_paid total_paid revenues ltac:(lia)) as Hs. fold total_paid in Hs.
  assert (sumZ ((λ x, net_paid * rv_paid x / total_paid) <$> revenues) = sumZ (actual_of <$> revenues)) as Heq.
  { f_equal. apply list_fmap_ext. intros i r _. unfold actual_of. f_equal. lia. }
  rewrite Heq in Hs. nia.
Qed.

Definition owed_list : list (Address * U256) :=
  (proposer, (TOTAL_BPS - rc_relay_bps relay - rc_merged_builder_bps relay - rc_winning_builder_bps relay) * net_paid / TOTAL_BPS) ::
  (rc_relay_fee_recipient relay, rc_relay_bps relay * net_paid / TOTAL_BPS) ::
  ((λ r, (origin_of r, rc_merged_builder_bps relay * actual_of r / TOTAL_BPS)) <$> revenues) ++
  if cost =? 0 then [] else [(gas_payer, cost)].

Lemma credits_exact : credits relay revenues submitters cost gas_payer proposer = Some owed_list.
Proof.
  pose proof net_range as Hn. pose proof (sl_bps Hok) as Hb. pose proof (sl_sum Hok) as Hsum.
  pose proof (sl_cost Hok) as Hc. fold total_paid in Hc. pose proof (sl_width Hok) as Hw. fold total_paid in Hw.
  assert (0 < TOTAL_BPS) by done. unfold credits. rewrite total_exact.
  rewrite (Z.mod_small (total_paid - cost)) by (unfold TOTAL_BPS in *; lia). fold net_paid.
  assert (mapM (origin_credit relay submitters net_paid total_paid) revenues =
    Some ((λ r, (origin_of r, rc_merged_builder_bps relay * actual_of r / TOTAL_BPS)) <$> revenues)) as ->.
  { apply mapM_Some, Forall2_fmap_r, Forall_Forall2_diag, Forall_forall. intros r Hr.
    pose proof (actual_range r Hr) as Ha. unfold origin_credit, origin_of, compose. fold (actual_of r).
    pose proof (sl_submitters Hok) as Hs. rewrite Forall_forall in Hs. destruct (lookup_lt_is_Some_2 _ _ (Hs r Hr)) as [s ->]. cbn [mbind option_bind from_option].
    rewrite (proj2 (Z.eqb_neq total_paid 0)), (proj2 (Z.leb_gt _ _)) by (unfold TOTAL_BPS in *; lia). cbn [orb].
    by rewrite share_exact by lia. }
  cbn [mbind option_bind]. unfold owed_list, proposer_bps. rewrite Z.mod_small by (unfold u64_modulus, TOTAL_BPS in *; lia).
  by rewrite !share_exact by lia.
Qed.

Lemma owed_list_paid a : paid_to owed_list a = owed a.
Proof.
  unfold paid_to, owed_list, owed. cbn [fmap list_fmap sumZ foldr fst snd]. fold sumZ.
  change (foldr Z.add 0) with sumZ. rewrite fmap_app, sumZ_app, <- list_fmap_compose.
  assert (sumZ ((λ e : Address * U256, if e.1 =? a then e.2 else 0) <$> (if cost =? 0 then [] else [(gas_payer, cost)])) =
    if gas_payer =? a then cost else 0) as ->.
  { destruct (cost =? 0) eqn:Hc; cbn; [apply Z.eqb_eq in Hc; rewrite Hc; by destruct (_ =? _)|lia]. }
  unfold compose. cbn. lia.
Qed.

Lemma owed_list_amounts : amounts_ok owed_list.
Proof.
  pose proof net_range. pose proof (sl_bps Hok) as Hb. pose proof (sl_sum Hok) as Hsum. assert (0 < TOTAL_BPS) by done.
  pose proof (sl_cost Hok) as Hc. unfold owed_list. repeat constructor; cbn; [apply Z.div_pos; nia..|].
  apply Forall_app. split.
  - apply Forall_fmap, Forall_forall. intros r Hr. pose proof (actual_range r Hr). cbn. apply Z.div_pos; nia.
  - destruct (cost =? 0); repeat constructor. cbn. lia.
Qed.

Lemma owed_list_sum :
  let n := Z.of_nat (length revenues) in
  rc_winning_builder_bps relay * net_paid ≤ TOTAL_BPS * (total_paid - sumZ owed_list.*2) ≤
  rc_winning_builder_bps relay * net_paid + 2 * TOTAL_BPS * (n + 1).
Proof.
  pose proof net_range. pose proof (sl_bps Hok) as Hb. pose proof (sl_sum Hok) as Hsum. assert (0 < TOTAL_BPS) as HT by done.
  pose proof (sl_cost Hok) as Hc. fold total_paid in Hc. pose proof sum_actual as Hact.
  pose proof (sum_div actual_of (rc_merged_builder_bps relay) TOTAL_BPS revenues HT) as Hm.
  unfold owed_list. rewrite !fmap_cons, fmap_app, <- list_fmap_compose. cbn [sumZ foldr fst snd]. change (foldr Z.add 0) with sumZ.
  rewrite sumZ_app. unfold compose. cbn [snd].
  assert (sumZ (if cost =? 0 then [] else [(gas_payer, cost)]).*2 = cost) as ->.
  { destruct (cost =? 0) eqn:E; cbn; [apply Z.eqb_eq in E|]; lia. }
  set (p := TOTAL_BPS - rc_relay_bps relay - rc_merged_builder_bps relay - rc_winning_builder_bps relay).
  pose proof (Z.mul_div_le (p * net_paid) TOTAL_BPS HT). pose proof (Z.mul_succ_div_gt (p * net_paid) TOTAL_BPS HT).
  pose proof (Z.mul_div_le (rc_relay_bps relay * net_paid) TOTAL_BPS HT).
  pose proof (Z.mul_succ_div_gt (rc_relay_bps relay * net_paid) TOTAL_BPS HT).
  set (sm := sumZ ((λ x, rc_merged_builder_bps relay * actual_of x / TOTAL_BPS) <$> revenues)) in *.
  set (sa := sumZ (actual_of <$> revenues)) in *. unfold net_paid in *.
  assert (rc_merged_builder_bps relay * sa ≤ rc_merged_builder_bps relay * (total_paid - cost)) by nia.
  assert (rc_merged_builder_bps relay * (total_paid - cost) - TOTAL_BPS * Z.of_nat (length revenues) ≤ rc_merged_builder_bps relay * sa) by nia.
  subst p. cbn zeta. nia.
Qed.

Lemma sumZ_without l b : sumZ (List.filter (λ x : Address * U256, negb (x.1 =? b)) l).*2 = sumZ l.*2 - paid_to l b.
Proof.
  unfold paid_to. induction l as [|x l IH]; cbn [List.filter]; [done|].
  destruct (x.1 =? b) eqn:Hx; cbn [negb]; rewrite ?fmap_cons; cbn [sumZ foldr]; change (foldr Z.add 0) with sumZ; rewrite ?IH, ?Hx; lia.
Qed.

Lemma NoDup_filter_fst (p : Address * U256 → bool) l : NoDup l.*1 → NoDup (List.filter p l).*1.
Proof.
  induction l as [|x l IH]; cbn; [done|]. rewrite NoDup_cons. intros [Hni Hnd]. destruct (p x); cbn; [|by apply IH].
  constructor; [|by apply IH]. intros (y & Hy & Hin)%list_elem_of_fmap. apply elem_of_bool_filter in Hin as [Hin _].
  apply Hni. rewrite Hy. by apply list_elem_of_fmap_2.
Qed.

(** C22: The revenue is split exactly: for a valid configuration and revenues that
    exceed the cost of the payment and do not overflow, every recipient is listed
    once with what it is owed (its part of the revenue net of the cost, in basis
    points, and the cost for the payer of gas). The builder of the base block is
    not paid: it keeps at least its own part, and at most that with what it is owed
    otherwise and two wei for each revenue and two more of rounding. *)
Theorem split_exact :
  ∃ out, split_revenue relay revenues submitters cost gas_payer proposer beneficiary = Some out ∧
    NoDup out.*1 ∧ (∀ a, share_of out a = if a =? beneficiary then 0 else owed a) ∧ sum_u256 out.*2 = sumZ out.*2 ∧
    rc_winning_builder_bps relay * net_paid ≤ TOTAL_BPS * (total_paid - sumZ out.*2) ≤
      rc_winning_builder_bps relay * net_paid + TOTAL_BPS * owed beneficiary + 2 * TOTAL_BPS * (Z.of_nat (length revenues) + 1).
Proof.
  pose proof owed_list_sum as Hsum. pose proof owed_list_amounts as Ham. pose proof net_range. pose proof (sl_width Hok) as Hw.
  fold total_paid in Hw. assert (0 < TOTAL_BPS) by done. pose proof (sl_bps Hok) as (_ & _ & Hbw). cbn zeta in Hsum.
  assert (sumZ owed_list.*2 ≤ total_paid) as Hle by nia.
  destruct (credit_all owed_list [] (NoDup_nil_2) (Forall_nil_2 _) Ham) as (Hnd & Hok' & Hs & Hp).
  { change (0 + sumZ owed_list.*2 < u256_modulus). unfold TOTAL_BPS in *. lia. }
  unfold split_revenue. rewrite credits_exact. cbn [mbind option_bind]. eexists. split; [reflexivity|].
  set (out := foldl credit [] owed_list) in *. unfold amounts_ok in Hok'. change (sumZ (@nil (Z * Z)).*2) with 0 in Hs.
  assert (0 ≤ paid_to out beneficiary) as Hpb.
  { apply sumZ_nonneg. intros x (y & -> & Hy)%list_elem_of_fmap. destruct (_ =? _); [|done]. rewrite Forall_forall in Hok'. by apply Hok'. }
  split_and!.
  - by apply NoDup_filter_fst.
  - intros a. rewrite share_of_paid by (by apply NoDup_filter_fst). rewrite paid_to_filter. destruct (a =? beneficiary); [done|].
    rewrite Hp, owed_list_paid. done.
  - apply sum_u256_exact; [apply Forall_fmap|].
    + apply Forall_forall. intros x [Hx _]%elem_of_bool_filter. rewrite Forall_forall in Hok'. by apply Hok'.
    + rewrite sumZ_without. unfold TOTAL_BPS in *. lia.
  - rewrite sumZ_without. nia.
  - rewrite sumZ_without, Hp, owed_list_paid. unfold paid_to at 1. cbn [fmap list_fmap sumZ foldr]. nia.
Qed.
End split.

(** ** Paying

    How the multisend contract reads the packed calls: operation, recipient,
    value, length of the data and the data, until the end. *)
Fixpoint multisend_calls (fuel : nat) (b : Bytes) : option (list (Z * Address * U256 * Bytes)) :=
  match fuel, b with
  | O, _ => None
  | _, [] => Some []
  | S fuel, op :: rest =>
      let n := Z.to_nat (be_fold (take 32 (drop 52 rest))) in
      if (length rest <? 84 + n)%nat then None
      else
        calls ← multisend_calls fuel (drop (84 + n) rest);
        Some ((op, be_fold (take 20 rest), be_fold (take 32 (drop 20 rest)), take n (drop 84 rest)) :: calls)
  end.

Lemma be_fold_zeros n : be_fold (replicate n 0) = 0.
Proof. unfold be_fold. induction n as [|n IH]; [done|]. exact IH. Qed.

Definition payee_ok (e : Address * U256) : Prop := 0 ≤ e.1 < 2 ^ 160 ∧ 0 ≤ e.2 < 2 ^ 256.

Lemma multisend_packed to : Forall payee_ok to → ∀ fuel, (length (pack_calls to) < fuel)%nat →
  multisend_calls fuel (pack_calls to) = Some ((λ e, (0, e.1, e.2, [])) <$> to).
Proof.
  induction 1 as [|e to [Ha Hv] Hto IH]; intros fuel Hf; [by destruct fuel; cbn in *; [lia|]|].
  unfold pack_calls in *. cbn [mbind list_bind] in *. change (list_bind _ _ pack_call to) with (to ≫= pack_call) in *.
  destruct fuel as [|fuel]; [lia|]. set (rest := to ≫= pack_call) in *. unfold pack_call in Hf |- *. cbn [app multisend_calls].
  set (a := be_bytes 20 e.1) in *. set (v := be_bytes 32 e.2) in *. set (z := replicate 32 0) in *.
  assert (length a = 20%nat) as La by apply be_bytes_length. assert (length v = 32%nat) as Lv by apply be_bytes_length.
  assert (length z = 32%nat) as Lz by apply length_replicate.
  rewrite <- !app_assoc.
  assert (drop 52 (a ++ v ++ z ++ rest) = z ++ rest) as ->.
  { rewrite app_assoc. apply drop_app_length'. rewrite length_app. lia. }
  assert (take 32 (z ++ rest) = z) as -> by (apply take_app_length'; lia). assert (be_fold z = 0) as -> by apply be_fold_zeros.
  change (Z.to_nat 0) with 0%nat.
  assert ((length (a ++ v ++ z ++ rest) <? 84 + 0)%nat = false) as -> by (apply Nat.ltb_ge; rewrite !length_app; lia).
  assert (drop (84 + 0) (a ++ v ++ z ++ rest) = rest) as ->.
  { rewrite !app_assoc. apply drop_app_length'. rewrite !length_app. lia. }
  rewrite IH by (cbn [app length] in Hf; rewrite ?length_app in Hf; lia). cbn [mbind option_bind]. rewrite take_0, fmap_cons.
  assert (take 20 (a ++ v ++ z ++ rest) = a) as -> by (by apply take_app_length').
  assert (drop 20 (a ++ v ++ z ++ rest) = v ++ z ++ rest) as -> by (by apply drop_app_length').
  assert (take 32 (v ++ z ++ rest) = v) as -> by (by apply take_app_length').
  unfold a, v. rewrite !be_fold_be_bytes by done. done.
Qed.

(** The hash the safe computes of a call it is asked to execute, from the fields
    of the call, and the three parts it reads of a signature. *)
Definition safe_call_hash `{Keccak, PaymentLibs} (chain : u64) (safe : Address) (nonce : u64) (c : ExecTransaction) : B256 :=
  keccak256 ([25; 1] ++
    be_bytes 32 (keccak256 (abi_encode [keccak256 (ascii_bytes DOMAIN_TYPE); chain; safe])) ++
    be_bytes 32 (keccak256 (abi_encode
      [keccak256 (ascii_bytes SAFE_TX_TYPE); xt_to c; xt_value c; keccak256 (xt_data c); xt_operation c; xt_safe_tx_gas c;
       xt_base_gas c; xt_gas_price c; xt_gas_token c; xt_refund_receiver c; nonce]))).
Definition signature_split (b : Bytes) : U256 * U256 * Bytes := (be_fold (take 32 b), be_fold (take 32 (drop 32 b)), drop 64 b).

Lemma signature_split_joined r s v :
  0 ≤ r < 2 ^ 256 → 0 ≤ s < 2 ^ 256 → signature_split (be_bytes 32 r ++ be_bytes 32 s ++ [v]) = (r, s, [v]).
Proof.
  intros Hr Hs. unfold signature_split. rewrite take_app_length' by (by rewrite be_bytes_length).
  rewrite drop_app_length' by (by rewrite be_bytes_length). rewrite take_app_length' by (by rewrite be_bytes_length). rewrite app_assoc.
  rewrite drop_app_length' by (rewrite length_app, !be_bytes_length; done). by rewrite !be_fold_be_bytes.
Qed.

(** C39: The payment is refused exactly when the collateral safe holds less than
    what is due. Otherwise the relay signs a transaction to the safe that carries
    no value, and the call in it delegates to the multisend contract: the value is
    the sum due, the packed calls, as the contract reads them, are one plain
    transfer to each recipient in order, of its amount and without data, and the
    signature is that of the hash the safe computes of this very call. *)
Theorem payment_pays_exactly `{Keccak, PaymentLibs} p to :
  Forall payee_ok to → sumZ to.*2 < u256_modulus →
  (∀ h, ∃ sg, sign_hash_sync h = Some sg ∧ 0 ≤ sg_r sg < 2 ^ 256 ∧ 0 ≤ sg_s sg < 2 ^ 256) →
  match payment_tx p to with
  | None => False
  | Some (Err SafeBalance) => sp_safe_balance p < sumZ to.*2
  | Some (Ok encoded) => sumZ to.*2 ≤ sp_safe_balance p ∧ ∃ tx outer call packed inner,
      encoded = encoded_2718 tx outer ∧ sign_hash_sync (signature_hash tx) = Some outer ∧
      fx_to tx = sp_safe p ∧ fx_value tx = 0 ∧ fx_nonce tx = sp_signer_nonce p ∧ fx_input tx = abi_exec_transaction call ∧
      xt_to call = sp_multisend p ∧ xt_operation call = 1 ∧ xt_value call = sumZ to.*2 ∧ xt_data call = abi_multi_send packed ∧
      multisend_calls (S (length packed)) packed = Some ((λ e, (0, e.1, e.2, [])) <$> to) ∧
      sign_hash_sync (safe_call_hash (sp_chain_id p) (sp_safe p) (sp_safe_nonce p) call) = Some inner ∧
      signature_split (xt_signatures call) = (sg_r inner, sg_s inner, [if sg_v inner then 28 else 27])
  end.
Proof.
  intros Hto Hs Hsign. unfold payment_tx.
  rewrite sum_u256_exact by (done || (apply Forall_fmap; eapply Forall_impl; [exact Hto|]; by intros e [_ []])).
  destruct (_ <? _) eqn:Hb; [by apply Z.ltb_lt|]. apply Z.ltb_ge in Hb. cbn zeta.
  destruct (Hsign (safe_tx_hash (sp_safe p) (sp_multisend p) (sumZ to.*2) (abi_multi_send (pack_calls to)) (sp_safe_nonce p) (sp_chain_id p)))
    as (inner & Hi & Hr & Hsg). rewrite Hi. cbn [mbind option_bind].
  match goal with |- context [sign_hash_sync ?h] => destruct (Hsign h) as (outer & Ho & _) end. rewrite Ho. cbn [mbind option_bind].
  split; [done|]. eexists _, outer, _, (pack_calls to), inner. split_and!; try done.
  - apply multisend_packed; [done|lia].
  - cbn [xt_signatures]. rewrite signature_split_joined by done. by destruct (sg_v inner).
Qed.

(** ** Concrete splits *)

Definition ex_relay_config : RelayConfigV1 := mkRelayConfigV1 901 902 500 2500 1000 21000 [mkBuilderCollateral 7 77].
Definition ex_submitters : list Submitter := [mkSubmitter 1 11; mkSubmitter 2 12].
Definition ex_revenues : list Revenue := [mkRevenue 0 1000; mkRevenue 1 3001].

Lemma split_exact_witness :
  ∃ out, split_revenue ex_relay_config ex_revenues ex_submitters 100 800 700 11 = Some out ∧
    share_of out 700 = 2340 ∧ share_of out 11 = 0 ∧ share_of out 800 = 100.
Proof.
  destruct (split_exact ex_relay_config ex_revenues ex_submitters 100 800 700 11) as (out & Ho & _ & Hs & _).
  { split; cbn; try lia; repeat constructor; cbn; lia. }
  exists out. split_and!; [done|by rewrite Hs..].
Defined.

Local Instance ex_payment_libs : PaymentLibs := {
  abi_multi_send b := 8 :: b;
  abi_exec_transaction c := xt_to c :: xt_value c :: xt_operation c :: xt_data c ++ xt_signatures c;
  abi_encode l := l ≫= be_bytes 32;
  signature_hash tx := fx_nonce tx;
  encoded_2718 tx sg := 2 :: fx_input tx ++ [sg_r sg];
  sign_hash_sync h := Some (mkSignature (h mod 1000) 17 (Z.odd h))
}.

Lemma payment_pays_exactly_witness :
  ∃ encoded, payment_tx (mkSafePayment 77 5000 0 0 1 21000 7 902) [(700, 2340); (12, 731)] = Some (Ok encoded).
Proof.
  pose proof (payment_pays_exactly (mkSafePayment 77 5000 0 0 1 21000 7 902) [(700, 2340); (12, 731)]) as Hp.
  destruct (payment_tx _ _) as [[encoded|[]]|]; [by exists encoded|exfalso..].
  - cut (5000 < 3071); [lia|]. apply Hp; [repeat constructor; cbn; lia|done|].
    intros h. eexists. split; [done|]. cbn. pose proof (Z.mod_pos_bound h 1000). lia.
  - apply Hp; [repeat constructor; cbn; lia|done|].
    intros h. eexists. split; [done|]. cbn. pose proof (Z.mod_pos_bound h 1000). lia.
Defined.

(** A configuration whose basis points wrap around passes validation, and the
    revenue split with it owes the relay more than there is. *)
Theorem wrapped_bps_overpay :
  let relay := mkRelayConfigV1 901 902 (u64_max) 1 0 21000 [mkBuilderCollateral 7 77] in
  relay_config_validate relay = Ok tt ∧
  ∃ out, split_revenue relay [mkRevenue 0 (10 ^ 18)] ex_submitters 0 800 700 7 = Some out ∧
    10 ^ 18 < share_of out 901 ∧ 10 ^ 18 < sum_u256 out.*2.
Proof. split; [by vm_compute|]. eexists. split; [by vm_compute|]. by vm_compute. Qed.
