(* ===== verification/MergeBlock.v ===== *)
(** * Extending a base block

    [BlockMerger] of [crates/builder/src/merge/block.rs]: a base block is executed
    again, and orders of the pool are appended to it as long as each pays the
    coinbase. Executing a transaction is the node's code, a parameter; tracing and
    the buffers of [emit] are left out. *)

From S2P Require Import Prelude Types Submission Rlp MergeTrie MergeOrders MergeWire MergePool MergeState MergeEffects MergePayment.

(** ** State *)

Inductive UnmergedReason := ZeroPayment | OutOfSpace | Replaced | Invalid | Duplicate.
#[export] Instance UnmergedReason_eq_dec : EqDecision UnmergedReason.
Proof. solve_decision. Defined.
(** The labels [open_base] fails with. *)
Inductive OpenError :=
| UnknownCollateral | NoPaymentTx | NoDistributionHeadroom | Amsterdam | TooManyBlobs | HeaderMismatch | ProposerIsCoinbase
| KeyError (e : StateError) | SystemCalls | Blacklisted | GasAllowance | BaseTxInvalid | GasUsedMismatch | InvalidPayment.

Inductive OrderMark := MarkOpen | MarkTaken | MarkUnmerged (reason : UnmergedReason).
#[export] Instance OrderMark_eq_dec : EqDecision OrderMark.
Proof. solve_decision. Defined.

Record BlockMerger := mkBlockMerger {
  bm_base : BaseBlock;
  bm_live : bool;
  bm_state : BlockState;
  bm_coinbase_id : nat;
  bm_collateral_safe : Address;
  bm_order_gas_cap : u64;
  bm_max_blobs : u64;
  bm_blobs_used : u64;
  bm_gas_used : u64;
  bm_appended_txs : list nat;
  bm_receipt_refs : list (option nat * u64);
  bm_unrecorded : list Receipt;
  bm_in_block : list u64;
  bm_order_marks : list OrderMark;
  bm_effects : EffectCache;
  bm_included_orders : list (nat * u32);
  bm_carried_orders : list nat;
  bm_revenues : list Revenue;
  bm_seen_version : u64;
  bm_best_value : U256;
  bm_emissions : u32
}.
#[export] Instance eta_BlockMerger : Eta BlockMerger := λ r,
  mkBlockMerger (bm_base r) (bm_live r) (bm_state r) (bm_coinbase_id r) (bm_collateral_safe r) (bm_order_gas_cap r)
    (bm_max_blobs r) (bm_blobs_used r) (bm_gas_used r) (bm_appended_txs r) (bm_receipt_refs r) (bm_unrecorded r)
    (bm_in_block r) (bm_order_marks r) (bm_effects r) (bm_included_orders r) (bm_carried_orders r) (bm_revenues r)
    (bm_seen_version r) (bm_best_value r) (bm_emissions r).

(** The merger and the key table of the slot it is lent. *)
Record Merging := mkMerging { mg_m : BlockMerger; mg_keys : KeyTable }.
#[export] Instance eta_Merging : Eta Merging := λ r, mkMerging (mg_m r) (mg_keys r).

Definition Mrg (A : Type) : Type := Comp Merging Empty_set A.

Definition merger (f : BlockMerger → BlockMerger) : Mrg unit := modify (λ g, g <| mg_m ::= f |>).
Definition unwrap {A} (o : option A) : Mrg A := match o with Some a => mret a | None => panic end.

(** What the code reads of the slot. *)
Record SlotCtx := mkSlotCtx {
  sx_relay : RelayConfigV1;
  sx_slot : u64;
  sx_proposer : Address;
  sx_blacklist : option (gset Address);
  sx_signer : Address;
  sx_min_increase : U256
}.

(** ** The node *)

Record Execution := mkExecution {
  xe_gas_spent : u64;
  xe_receipt : Receipt;
  xe_run : list RunAccount;
  xe_codes : gmap B256 (list Z);
  xe_reads : TxReads
}.

Class MergeEvm := {
  (** The address a transaction calls; [None] for a creation. *)
  tx_call : Tx → option Address;
  (** The counter of gas after the execution, and what it left; [None]: the
      transaction is invalid. *)
  execute_tx : BaseBlock → Tx → KeyTable → BlockState → u64 → u64 * option Execution;
  apply_system_calls : BaseBlock → KeyTable → BlockState → option (list RunAccount * gmap B256 (list Z));
  (** What the parent and the chain configuration demand of the header. *)
  is_amsterdam_activated : u64 → bool;
  fork_max_blobs : u64 → u64;
  parent_number : u64;
  calc_gas_limit : u64 → u64;
  calculate_base_fee : u64 → option u64;
  calc_excess_blob_gas : u64 → u64
}.

(** ** Bits *)

Definition bit_get (words : list u64) (i : nat) : option bool :=
  w ← words !! (i `div` 64)%nat; Some (Z.testbit w (Z.of_nat (i mod 64))).
Definition bit_set (words : list u64) (i : nat) : option (list u64) :=
  w ← words !! (i `div` 64)%nat; Some (<[(i `div` 64)%nat := Z.lor w (Z.shiftl 1 (Z.of_nat (i mod 64)))]> words).
Definition resize_words (n : nat) (words : list u64) : list u64 := take n words ++ replicate (n - length words) 0.
Definition words_for (txs : nat) : nat := ((txs + 63) `div` 64)%nat.

(** 64-bit arithmetic of a release build. *)
Definition uadd (x y : Z) : u64 := (x + y) mod u64_modulus.
Definition usub (x y : Z) : u64 := (x - y) mod u64_modulus.

Section merger.
Context `{DB : StateDb} `{HO : HashOrder} `{EV : MergeEvm}.
Implicit Types (p : Pool) (order : PoolOrder) (cx : SlotCtx).

Definition tx_fit p (ix : nat) : option (u64 * u64) := pl_tx_fit p !! ix.
Definition txs_of p (r : Range) : option (list nat) := range_slice r (pl_tx_refs p).

Definition calls_blacklisted (list : gset Address) (tx : Tx) : bool :=
  match tx_call tx with Some to => bool_decide (to ∈ list) | None => false end.

Definition touches_blacklisted (list : gset Address) (k : KeyTable) (s : BlockState) (at_ : Checkpoint) (coinbase : nat) : bool :=
  if decide (list = ∅) then false
  else
    existsb (λ id, negb (bool_decide (id = coinbase)) && bool_decide ((parent_account k id).1 ∈ list)) (accounts_since at_ s) ||
    existsb (λ id, bool_decide ((parent_slot k id).1.1 ∈ list)) (slots_since at_ s).

(** [is_some_and] on the blacklist. *)
Definition blacklisted_by cx (f : gset Address → bool) : bool :=
  match sx_blacklist cx with Some l => f l | None => false end.

(** ** Transactions *)

Definition undo_state (at_ : Checkpoint) : Mrg unit :=
  g ← get; s ← unwrap (undo_to at_ (bm_state (mg_m g))); merger (λ m, m <| bm_state := s |>).

Definition truncate_receipts (n : nat) : Mrg unit :=
  merger (λ m,
    let own := length (List.filter (λ r : option nat * u64, bool_decide (r.1 = None)) (drop n (bm_receipt_refs m))) in
    m <| bm_unrecorded ::= (λ l, take (length l - own) l) |> <| bm_receipt_refs ::= take n |>).

Definition push_receipt (effect : option nat) : Mrg unit :=
  merger (λ m, m <| bm_receipt_refs ::= (λ l, l ++ [(effect, bm_gas_used m)]) |>).

Definition replay_tx (effect : nat) (at_ : Checkpoint) : Mrg (option (u64 * bool)) :=
  g ← get;
  let m := mg_m g in
  '(gas, s) ← unwrap (effect_replay (bm_effects m) effect (mg_keys g) (bm_state m) (bm_coinbase_id m));
  merger (λ m, m <| bm_state := s |>);;
  match gas with
  | None => undo_state at_;; mret None
  | Some gas =>
      merger (λ m, m <| bm_gas_used ::= (λ x, uadd x gas) |>);;
      push_receipt (Some effect);;
      '(receipt, _) ← unwrap (effect_receipt (bm_effects m) effect);
      mret (Some (gas, rt_succeeded receipt))
  end.

Definition execute (ix : nat) p (at_ : Checkpoint) (cumulative : u64) : Mrg (option (u64 * bool)) :=
  g ← get;
  let m := mg_m g in
  tx ← unwrap (pl_txs p !! ix);
  let before := ac_balance (state_account (mg_keys g) (bm_state m) (bm_coinbase_id m)) in
  let '(gas_used, ran) := execute_tx (bm_base m) tx (mg_keys g) (bm_state m) (bm_gas_used m) in
  merger (λ m, m <| bm_gas_used := gas_used |>);;
  match ran with
  | None => mret None
  | Some x =>
      let '(folded, k, s) := absorb_run (xe_codes x) (xe_run x) (mg_keys g) (bm_state m) in
      modify (λ g, g <| mg_keys := k |> <| mg_m ::= (λ m, m <| bm_state := s |>) |>);;
      match folded with
      | Err _ => undo_state at_;; merger (λ m, m <| bm_gas_used := cumulative |>);; mret None
      | Ok _ =>
          let '(effect, k, own, effects) :=
            effect_record ix (xe_gas_spent x) k s at_ (xe_reads x) (bm_coinbase_id m) before (xe_receipt x)
              (bm_unrecorded m) (bm_effects m) in
          modify (λ g, g <| mg_keys := k |> <| mg_m ::= (λ m, m <| bm_unrecorded := own |> <| bm_effects := effects |>) |>);;
          push_receipt effect;;
          mret (Some (xe_gas_spent x, rt_succeeded (xe_receipt x)))
      end
  end.

(** The gas of the transaction and whether it succeeded; [None]: it is invalid. *)
Definition apply_tx (ix : nat) p : Mrg (option (u64 * bool)) :=
  g ← get;
  let m := mg_m g in
  match find_replayable (bm_effects m) ix (mg_keys g) (bm_state m) (bm_coinbase_id m) with
  | Some effect => replay_tx effect (checkpoint (bm_state m))
  | None => execute ix p (checkpoint (bm_state m)) (bm_gas_used m)
  end.

(** ** Orders *)

Fixpoint fits p order (in_block : list u64) (i : nat) (txs : list nat) (gas blobs : u64)
    : option (Result (u64 * u64) UnmergedReason) :=
  match txs with
  | [] => Some (Ok (gas, blobs))
  | tx :: txs =>
      if Z.testbit (po_may_drop order) (Z.of_nat i) then fits p order in_block (S i) txs gas blobs
      else
        b ← bit_get in_block tx;
        if (b : bool) then Some (Err Duplicate)
        else
          '(g, bl) ← tx_fit p tx;
          fits p order in_block (S i) txs (uadd gas g) (uadd blobs bl)
  end.

Definition can_fit order p : Mrg (Result unit UnmergedReason) :=
  g ← get;
  let m := mg_m g in
  txs ← unwrap (txs_of p (po_txs order));
  r ← unwrap (fits p order (bm_in_block m) 0 txs 0 0);
  mret match r with
       | Err e => Err e
       | Ok (gas, blobs) =>
           if (usub (bm_order_gas_cap m) (bm_gas_used m) <? gas) || (usub (bm_max_blobs m) (bm_blobs_used m) <? blobs)
           then Err OutOfSpace else Ok tt
       end.

(** What the loop of [run_order] carries: gas, blobs and the mask of the
    transactions kept. *)
Record OrderRun := mkOrderRun { or_gas : u64; or_blobs : u64; or_kept : u32 }.
#[export] Instance eta_OrderRun : Eta OrderRun := λ r, mkOrderRun (or_gas r) (or_blobs r) (or_kept r).

(** Why a transaction that ran is taken back, and whether it may be dropped. *)
Definition undo_reason cx (k : KeyTable) (s : BlockState) (mark : Checkpoint) (coinbase : nat) (succeeded can_drop can_revert : bool)
    (gas tx_gas gas_left : u64) : option (UnmergedReason * bool) :=
  if blacklisted_by cx (λ l, touches_blacklisted l k s mark coinbase) then Some (Invalid, false)
  else if negb succeeded && negb can_revert then Some (Invalid, can_drop)
  else if gas_left <? uadd gas tx_gas then Some (OutOfSpace, can_drop)
  else None.

(** One turn of the loop: [Err] ends it. *)
Definition run_order_tx order p cx (gas_left blobs_left : u64) (i ix : nat) (r : OrderRun) : Mrg (Result OrderRun UnmergedReason) :=
  '(tx_gas_limit, tx_blobs) ← unwrap (tx_fit p ix);
  let can_drop := Z.testbit (po_may_drop order) (Z.of_nat i) in
  let can_revert := Z.testbit (po_may_revert order) (Z.of_nat i) in
  if (usub gas_left (or_gas r) <? tx_gas_limit) || (usub blobs_left (or_blobs r) <? tx_blobs) then
    mret (if can_drop then Ok r else Err OutOfSpace)
  else
    g ← get;
    let at_ := bm_gas_used (mg_m g) in
    let mark := checkpoint (bm_state (mg_m g)) in
    ran ← apply_tx ix p;
    match ran with
    | None =>
        merger (λ m, m <| bm_gas_used := at_ |>);;
        mret (if can_drop || can_revert then Ok r else Err Invalid)
    | Some (tx_gas, succeeded) =>
        g ← get;
        let m := mg_m g in
        match undo_reason cx (mg_keys g) (bm_state m) mark (bm_coinbase_id m) succeeded can_drop can_revert (or_gas r) tx_gas gas_left with
        | Some (reason, droppable) =>
            undo_state mark;;
            truncate_receipts (length (bm_receipt_refs m) - 1);;
            merger (λ m, m <| bm_gas_used := at_ |>);;
            mret (if (droppable : bool) then Ok r else Err reason)
        | None =>
            mret (Ok (mkOrderRun (uadd (or_gas r) tx_gas) (uadd (or_blobs r) tx_blobs) (Z.lor (or_kept r) (Z.shiftl 1 (Z.of_nat i)))))
        end
    end.

Fixpoint run_order_txs order p cx (gas_left blobs_left : u64) (i : nat) (txs : list nat) (r : OrderRun)
    : Mrg (OrderRun * option UnmergedReason) :=
  match txs with
  | [] => mret (r, None)
  | ix :: txs =>
      res ← run_order_tx order p cx gas_left blobs_left i ix r;
      match res with
      | Ok r => run_order_txs order p cx gas_left blobs_left (S i) txs r
      | Err reason => mret (r, Some reason)
      end
  end.

Definition coinbase_balance (g : Merging) : U256 :=
  ac_balance (state_account (mg_keys g) (bm_state (mg_m g)) (bm_coinbase_id (mg_m g))).

Definition run_order order p cx (keep : bool) : Mrg (Result (U256 * u32) UnmergedReason) :=
  txs ← unwrap (txs_of p (po_txs order));
  listed ← unwrap (match sx_blacklist cx with
                   | None => Some false
                   | Some l => ts ← mapM (λ ix, pl_txs p !! ix) txs; Some (existsb (calls_blacklisted l) ts)
                   end);
  if (listed : bool) then mret (Err Invalid)
  else
    g ← get;
    let m := mg_m g in
    let paid_before := coinbase_balance g in
    let gas_left := usub (bm_order_gas_cap m) (bm_gas_used m) in
    let blobs_left := usub (bm_max_blobs m) (bm_blobs_used m) in
    '(r, failed) ← run_order_txs order p cx gas_left blobs_left 0 txs (mkOrderRun 0 0 0);
    g' ← get;
    let paid := sat_sub (coinbase_balance g') paid_before in
    let failed := match failed with
                  | Some reason => Some reason
                  | None => if (or_kept r =? 0) || (paid =? 0) then Some ZeroPayment else None
                  end in
    (if negb keep || bool_decide (is_Some failed) then
       undo_state (checkpoint (bm_state m));;
       truncate_receipts (length (bm_receipt_refs m));;
       merger (λ m', m' <| bm_gas_used := bm_gas_used m |>)
     else merger (λ m, m <| bm_state ::= clear_undo |>));;
    match failed with
    | Some reason => mret (Err reason)
    | None =>
        (if keep then merger (λ m, m <| bm_blobs_used ::= (λ x, uadd x (or_blobs r)) |>) else mret tt);;
        mret (Ok (paid, or_kept r))
    end.

(** The transactions of an order whose bit is set. *)
Fixpoint kept_txs (kept : u32) (i : nat) (txs : list nat) : list nat :=
  match txs with
  | [] => []
  | tx :: txs => if Z.testbit kept (Z.of_nat i) then tx :: kept_txs kept (S i) txs else kept_txs kept (S i) txs
  end.

Definition set_bits (words : list u64) (txs : list nat) : option (list u64) :=
  foldl (λ acc tx, w ← acc; bit_set w tx) (Some words) txs.

Definition submitter_address p (submitter : nat) : option Address := sb_address <$> pl_submitters p !! submitter.

(** The first revenue of the origin gets the payment. *)
Fixpoint add_revenue p (origin : Address) (submitter : nat) (paid : U256) (revenues : list Revenue) : option (list Revenue) :=
  match revenues with
  | [] => Some [mkRevenue submitter paid]
  | r :: rest =>
      a ← submitter_address p (rv_submitter r);
      if a =? origin then Some (mkRevenue (rv_submitter r) ((rv_paid r + paid) mod u256_modulus) :: rest)
      else rest' ← add_revenue p origin submitter paid rest; Some (r :: rest')
  end.

Definition commit_order (ix : nat) order p (paid : U256) (kept : u32) : Mrg unit :=
  g ← get;
  let m := mg_m g in
  txs ← unwrap (txs_of p (po_txs order));
  let taken := kept_txs kept 0 txs in
  in_block ← unwrap (set_bits (bm_in_block m) taken);
  _ ← unwrap (bm_order_marks m !! ix);
  origin ← unwrap (submitter_address p (po_submitter order));
  revenues ← unwrap (add_revenue p origin (po_submitter order) paid (bm_revenues m));
  merger (λ m, m <| bm_appended_txs ::= (λ l, l ++ taken) |> <| bm_in_block := in_block |>
                 <| bm_order_marks ::= insert ix MarkTaken |>
                 <| bm_included_orders ::= (λ l, l ++ [(ix, kept)]) |> <| bm_revenues := revenues |>).

Definition mark_order_unmerged (ix : nat) (reason : UnmergedReason) : Mrg unit :=
  g ← get;
  _ ← unwrap (bm_order_marks (mg_m g) !! ix);
  merger (λ m, m <| bm_order_marks ::= insert ix (MarkUnmerged reason) |>).

(** [can_fit(..).and_then(run_order(..))]. *)
Definition try_order order p cx (keep : bool) : Mrg (Result (U256 * u32) UnmergedReason) :=
  fit ← can_fit order p;
  match fit with Err reason => mret (Err reason) | Ok _ => run_order order p cx keep end.

Definition append_order p cx (ix : nat) order : Mrg unit :=
  ran ← try_order order p cx true;
  match ran with
  | Ok (paid, kept) => commit_order ix order p paid kept
  | Err reason => mark_order_unmerged ix reason
  end.

Fixpoint each_order {A} (f : A → Mrg unit) (l : list A) : Mrg unit :=
  match l with [] => mret tt | x :: l => f x;; each_order f l end.

Definition carry_order p cx (ix : nat) : Mrg unit :=
  order ← unwrap (pl_orders p !! ix);
  g ← get;
  if po_withdrawn order || bool_decide (po_best_block order = ba_block (bm_base (mg_m g))) then mret tt
  else append_order p cx ix order.

(** A solo run: what the order pays on the block as it is. *)
Definition solo_run p cx (runs : list (nat * U256)) (x : nat * PoolOrder) : Mrg (list (nat * U256)) :=
  let '(ix, order) := x in
  g ← get;
  mark ← unwrap (bm_order_marks (mg_m g) !! ix);
  if bool_decide (mark = MarkTaken) || bool_decide (po_best_block order = ba_block (bm_base (mg_m g))) then mret runs
  else if po_withdrawn order then mark_order_unmerged ix Replaced;; mret runs
  else
    ran ← try_order order p cx false;
    match ran with
    | Ok (paid, _) => mret (runs ++ [(ix, paid)])
    | Err reason => mark_order_unmerged ix reason;; mret runs
    end.

Fixpoint solo_runs p cx (runs : list (nat * U256)) (l : list (nat * PoolOrder)) : Mrg (list (nat * U256)) :=
  match l with [] => mret runs | x :: l => runs ← solo_run p cx runs x; solo_runs p cx runs l end.

(** [sort_by_key(Reverse(paid))], which is stable. *)
Definition by_payment (runs : list (nat * U256)) : list (nat * U256) :=
  sort_by (λ x y : nat * U256, Z.compare y.2 x.2) runs.

Definition extend p cx : Mrg unit :=
  merger (λ m, m <| bm_seen_version := pl_orders_version p |>
                 <| bm_order_marks ::= (λ l, take (length (pl_orders p)) l ++ replicate (length (pl_orders p) - length l) MarkOpen) |>
                 <| bm_in_block ::= resize_words (words_for (length (pl_txs p))) |>);;
  g ← get;
  let carried := bm_carried_orders (mg_m g) in
  merger (λ m, m <| bm_carried_orders := [] |>);;
  each_order (carry_order p cx) carried;;
  runs ← solo_runs p cx [] (enumerate (pl_orders p));
  each_order (λ x : nat * U256, order ← unwrap (pl_orders p !! x.1); append_order p cx x.1 order) (by_payment runs).

(** ** Opening a base block *)

(** [u64::try_from(base_fee).ok()]. *)
Definition header_base_fee (h : ExecutionPayload) : option u64 :=
  if ep_base_fee_per_gas h <? u64_modulus then Some (ep_base_fee_per_gas h) else None.

(** The checks before anything is changed, with the safe, the limit of blobs and
    the blobs of the block. *)
Definition check_base (base : BaseBlock) p cx : Mrg (Result (Address * u64 * u64) OpenError) :=
  let h := ba_payload base in
  let reserve := rc_distribution_gas_limit (sx_relay cx) in
  match collateral_safe (sx_relay cx) (ep_fee_recipient h) with
  | None => mret (Err UnknownCollateral)
  | Some safe =>
      if bool_decide (ra_len (ba_txs base) = 0%nat) then mret (Err NoPaymentTx)
      else if sat_sub (ep_gas_limit h) (ep_gas_used h) <=? reserve then mret (Err NoDistributionHeadroom)
      else if is_amsterdam_activated (ep_timestamp h) then mret (Err Amsterdam)
      else
        let max_blobs := fork_max_blobs (ep_timestamp h) in
        txs ← unwrap (txs_of p (ba_txs base));
        fit ← unwrap (mapM (tx_fit p) txs);
        let blobs := foldl uadd 0 (snd <$> fit) in
        if max_blobs <? blobs then mret (Err TooManyBlobs)
        else if negb (ep_block_number h =? uadd parent_number 1) || negb (calc_gas_limit (ep_gas_limit h) =? ep_gas_limit h)
        then mret (Err HeaderMismatch)
        else
          let base_fee := calculate_base_fee (ep_gas_limit h) in
          if bool_decide (base_fee = None) || negb (bool_decide (header_base_fee h = base_fee)) ||
             negb (ep_excess_blob_gas h =? calc_excess_blob_gas (ep_timestamp h))
          then mret (Err HeaderMismatch)
          else if sx_proposer cx =? ep_fee_recipient h then mret (Err ProposerIsCoinbase)
          else mret (Ok (safe, max_blobs, blobs))
  end.

Definition intern (a : Address) : Mrg (Result nat OpenError) :=
  g ← get;
  let '(r, k) := intern_account a (mg_keys g) in
  modify (λ g, g <| mg_keys := k |>);;
  mret (match r with Ok id => Ok id | Err e => Err (KeyError e) end).

(** The base block's transactions, with the proposer's balance before the last. *)
Fixpoint run_base_txs p cx (proposer : nat) (txs : list nat) (paid_before : U256) : Mrg (Result U256 OpenError) :=
  match txs with
  | [] => mret (Ok paid_before)
  | ix :: txs =>
      tx ← unwrap (pl_txs p !! ix);
      '(tx_gas, _) ← unwrap (tx_fit p ix);
      g ← get;
      let m := mg_m g in
      if blacklisted_by cx (λ l, calls_blacklisted l tx) then mret (Err Blacklisted)
      else if sat_sub (ep_gas_limit (ba_payload (bm_base m))) (bm_gas_used m) <? tx_gas then mret (Err GasAllowance)
      else
        let paid_before := if bool_decide (txs = []) then ac_balance (state_account (mg_keys g) (bm_state m) proposer) else paid_before in
        let at_ := checkpoint (bm_state m) in
        ran ← apply_tx ix p;
        match ran with
        | None => mret (Err BaseTxInvalid)
        | Some _ =>
            g ← get;
            if blacklisted_by cx (λ l, touches_blacklisted l (mg_keys g) (bm_state (mg_m g)) at_ (bm_coinbase_id (mg_m g)))
            then mret (Err Blacklisted)
            else merger (λ m, m <| bm_state ::= clear_undo |>);; run_base_txs p cx proposer txs paid_before
        end
  end.

(** The merger is ready to append once the block was executed. *)
Definition open_done p cx (base : BaseBlock) (txs : list nat) (safe : Address) (max_blobs blobs : u64) : Mrg unit :=
  in_block ← unwrap (set_bits (replicate (words_for (length (pl_txs p))) 0) txs);
  merger (λ m, m <| bm_in_block := in_block |> <| bm_collateral_safe := safe |>
                 <| bm_order_gas_cap := usub (ep_gas_limit (ba_payload (bm_base m))) (rc_distribution_gas_limit (sx_relay cx)) |>
                 <| bm_max_blobs := max_blobs |> <| bm_blobs_used := blobs |> <| bm_appended_txs := [] |>
                 <| bm_order_marks := [] |> <| bm_carried_orders := (bm_included_orders m).*1 |>
                 <| bm_included_orders := [] |> <| bm_revenues := [] |> <| bm_seen_version := u64_max |>
                 <| bm_best_value := 0 |> <| bm_emissions := 0 |> <| bm_live := true |>).

Definition open_base (base : BaseBlock) p cx : Mrg (Result unit OpenError) :=
  let h := ba_payload base in
  checked ← check_base base p cx;
  match checked with
  | Err e => mret (Err e)
  | Ok (safe, max_blobs, blobs) =>
      merger (λ m, m <| bm_live := false |> <| bm_base := base |> <| bm_state ::= state_reset |>);;
      coinbase ← intern (ep_fee_recipient h);
      match coinbase with
      | Err e => mret (Err e)
      | Ok coinbase =>
          merger (λ m, m <| bm_coinbase_id := coinbase |>);;
          proposer ← intern (sx_proposer cx);
          match proposer with
          | Err e => mret (Err e)
          | Ok proposer =>
              g ← get;
              match apply_system_calls base (mg_keys g) (bm_state (mg_m g)) with
              | None => mret (Err SystemCalls)
              | Some (run, codes) =>
                  let '(folded, k, s) := absorb_run codes run (mg_keys g) (bm_state (mg_m g)) in
                  modify (λ g, g <| mg_keys := k |> <| mg_m ::= (λ m, m <| bm_state := s |>) |>);;
                  match folded with
                  | Err e => mret (Err (KeyError e))
                  | Ok _ =>
                      merger (λ m, m <| bm_state ::= clear_undo |>
                                     <| bm_effects ::= reset_for (ep_fee_recipient h, ep_gas_limit h, ep_timestamp h, ep_prev_randao h) |>
                                     <| bm_receipt_refs := [] |> <| bm_unrecorded := [] |> <| bm_gas_used := 0 |>);;
                      txs ← unwrap (txs_of p (ba_txs base));
                      ran ← run_base_txs p cx proposer txs 0;
                      match ran with
                      | Err e => mret (Err e)
                      | Ok paid_before =>
                          g ← get;
                          let m := mg_m g in
                          if negb (bm_gas_used m =? ep_gas_used h) then mret (Err GasUsedMismatch)
                          else
                            let paid := sat_sub (ac_balance (state_account (mg_keys g) (bm_state m) proposer)) paid_before in
                            value ← unwrap (pl_block_values p !! ba_block base);
                            if paid <? value then mret (Err InvalidPayment)
                            else open_done p cx base txs safe max_blobs blobs;; mret (Ok tt)
                      end
                  end
              end
          end
      end
  end.

(** What refers to the ended slot is dropped. *)
Definition merger_drop : Mrg unit :=
  merger (λ m, m <| bm_base ::= (λ b, mkBaseBlock 0 (ba_recv_ns b) (ba_block b) (ba_submitter b) (ba_payload b) (ba_txs b)) |>
                 <| bm_live := false |> <| bm_included_orders := [] |> <| bm_effects ::= effects_clear |>).
End merger.
