(* ===== verification/MergeExtend.v ===== *)
(** * Properties of the extension of a base block

    What running a transaction, an order and a whole round of orders does to the
    merger of [crates/builder/src/merge/block.rs]: orders are appended whole or not
    at all, within the gas and the blobs of the block, and the revenue recorded is
    what the coinbase gained. *)

From S2P Require Import Prelude Types Submission Rlp MergeTrie MergeOrders MergeWire MergePool MergeState MergeEffects MergePayment MergeBlock.

(** The limits of the transactions are those of the table and fit their width, and
    orders refer to transactions and submitters there are. *)
Record pool_fit (p : Pool) : Prop := mk_pool_fit {
  pf_fit : pl_tx_fit p = (λ tx, (ti_gas_limit (px_info tx), ti_blobs (px_info tx))) <$> pl_txs p;
  pf_limits : Forall (λ tx, 0 ≤ ti_gas_limit (px_info tx) < u64_modulus ∧ 0 ≤ ti_blobs (px_info tx) < u64_modulus) (pl_txs p);
  pf_orders : ∀ i o, pl_orders p !! i = Some o →
    (∃ l, txs_of p (po_txs o) = Some l ∧ Forall (λ ix, (ix < length (pl_txs p))%nat) l) ∧
    (po_submitter o < length (pl_submitters p))%nat
}.

(** ** States *)

#[export] Instance state_equiv : Equiv BlockState := λ s t, bs_accounts s ≡ bs_accounts t ∧ bs_slots s ≡ bs_slots t.
#[export] Instance state_equivalence : Equivalence (≡@{BlockState}).
Proof.
  split; [done|by intros s t []|]. intros s t u [H1 H2] [H3 H4]. split; by etrans.
Qed.

#[export] Instance state_account_proper k : Proper ((≡) ==> eq ==> eq) (state_account k).
Proof. intros s t [H _] id _ <-. unfold state_account. by rewrite H. Qed.
#[export] Instance state_slot_proper k : Proper ((≡) ==> eq ==> eq) (state_slot k).
Proof. intros s t [_ H] id _ <-. unfold state_slot. by rewrite H. Qed.

Lemma state_ok_equiv k s t : s ≡ t → table_wf (bs_accounts s) → table_wf (bs_slots s) → block_state_ok k t → block_state_ok k s.
Proof.
  intros [(_ & Hw & Hl) (_ & Hw' & Hl')] H1 H2 [_ _ H3 H4]. split; try done; unfold ids_below in *; by rewrite ?Hw, ?Hl, ?Hw', ?Hl'.
Qed.

(** Undoing to the checkpoint of a state that was since written to. *)
Lemma undo_rewritten k s s' :
  block_state_ok k s → rewritten s s' →
  ∃ u, undo_to (checkpoint s) s' = Some u ∧ u ≡ s ∧ rewritten s u ∧ block_state_ok k u.
Proof.
  intros Hs [Ha Hl]. pose proof Hs as [H1 H2 _ _]. unfold undo_to, checkpoint. cbn.
  destruct (table_undo_restores _ _ H1 Ha) as (ta & Ea & Hta & Hwa). destruct (table_undo_restores _ _ H2 Hl) as (tl & El & Htl & Hwl).
  rewrite Ea, El. cbn. eexists. split_and!; [done|done| |by apply (state_ok_equiv k _ s)].
  split; (eapply table_undo_written; [eassumption| |eassumption]; lia).
Qed.

Lemma clear_undo_ok k s : block_state_ok k s → block_state_ok k (clear_undo s).
Proof.
  intros [[A1 A2 A3 A4] [B1 B2 B3 B4] [H3 _] [H4 _]].
  assert (∀ {T} (t : UndoTable T), ∃ w, ut_written t = w ++ []) as Hw by (intros T t; exists (ut_written t); by rewrite app_nil_r).
  split; cbn; [split; cbn; try done; apply Hw|split; cbn; try done; apply Hw|by split|by split].
Qed.

Lemma clear_undo_account k s id : state_account k (clear_undo s) id = state_account k s id.
Proof. done. Qed.

(** ** Running transactions *)

(** What a run leaves alone. *)
Definition frame (m : BlockMerger) :=
  (bm_base m, bm_live m, bm_coinbase_id m, bm_collateral_safe m, bm_order_gas_cap m, bm_max_blobs m,
   (bm_appended_txs m, bm_in_block m, bm_order_marks m, bm_included_orders m, bm_carried_orders m, bm_revenues m),
   (bm_seen_version m, bm_best_value m, bm_emissions m)).

Definition count_own (l : list (option nat * u64)) : nat :=
  length (List.filter (λ r : option nat * u64, bool_decide (r.1 = None)) l).

Lemma count_own_app l l' : count_own (l ++ l') = (count_own l + count_own l')%nat.
Proof. unfold count_own. by rewrite List.filter_app, length_app. Qed.

(** The receipts gained. *)
Definition receipts_grow (m m' : BlockMerger) (new : list (option nat * u64)) : Prop :=
  bm_receipt_refs m' = bm_receipt_refs m ++ new ∧
  ∃ added, bm_unrecorded m' = bm_unrecorded m ++ added ∧ length added = count_own new.

(** ** Recording and replaying stay within the key table *)
Section ids.
Context `{DB : StateDb} `{HO : HashOrder}.
Implicit Types (k : KeyTable) (s : BlockState).

Definition known_accounts {A} k (l : list (nat * A)) : Prop := Forall (λ x, (x.1 < length (kt_accounts k))%nat) l.
Definition known_slots {A} k (l : list (nat * A)) : Prop := Forall (λ x, (x.1 < length (kt_slots k))%nat) l.

Lemma known_accounts_ext {A} k k' (l : list (nat * A)) : keys_ext k k' → known_accounts k l → known_accounts k' l.
Proof.
  intros He. pose proof (prefix_length _ _ (ke_accounts _ _ He)). intros Hl. eapply Forall_impl; [exact Hl|]. intros x Hx. cbn in *. lia.
Qed.
Lemma known_slots_ext {A} k k' (l : list (nat * A)) : keys_ext k k' → known_slots k l → known_slots k' l.
Proof.
  intros He. pose proof (prefix_length _ _ (ke_slots _ _ He)). intros Hl. eapply Forall_impl; [exact Hl|]. intros x Hx. cbn in *. lia.
Qed.

Lemma known_account k a id : keys_ok k → kt_account_ids k !! a = Some id → (id < length (kt_accounts k))%nat.
Proof. intros Hk Ha. destruct (ko_accounts _ Hk _ _ Ha) as (st & _ & H). by eapply lookup_lt_Some. Qed.
Lemma known_slot k e id : keys_ok k → kt_slot_ids k !! e = Some id → (id < length (kt_slots k))%nat.
Proof. destruct e. intros Hk Ha. destruct (ko_slots _ Hk _ _ _ Ha) as (st & _ & H). by eapply lookup_lt_Some. Qed.

Lemma set_account_ok k s id v ok s' :
  block_state_ok k s → (id < length (kt_accounts k))%nat → set_account id v s = (ok, s') → block_state_ok k s'.
Proof.
  intros Hs Hid Hset. destruct ok; [|by rewrite (set_account_full k _ _ _ _ Hset)].
  destruct Hs as [H1 H2 H3 H4]. unfold set_account in Hset. destruct (table_set id v (bs_accounts s)) as [[] t] eqn:Ht; [|done].
  injection Hset as <-. split; cbn; [by eapply table_wf_set|done|by eapply written_set|done].
Qed.
Lemma set_slot_ok k s id v ok s' :
  block_state_ok k s → (id < length (kt_slots k))%nat → set_slot id v s = (ok, s') → block_state_ok k s'.
Proof.
  intros Hs Hid Hset. destruct ok; [|by rewrite (set_slot_full k _ _ _ _ Hset)].
  destruct Hs as [H1 H2 H3 H4]. unfold set_slot in Hset. destruct (table_set id v (bs_slots s)) as [[] t] eqn:Ht; [|done].
  injection Hset as <-. split; cbn; [done|by eapply table_wf_set|done|by eapply written_set].
Qed.

Lemma replay_accounts_known k ws : ∀ s ok s',
  block_state_ok k s → known_accounts k ws → replay_accounts k ws s = (ok, s') → block_state_ok k s' ∧ rewritten s s'.
Proof.
  induction ws as [|[id w] ws IH]; intros s ok s' Hs Hws; cbn [replay_accounts]; [by intros [= <- <-]|].
  apply Forall_cons in Hws as [Hid Hws]. destruct (written_account _ w) as [now|]; [|by intros [= <- <-]].
  destruct (set_account id now s) as [[] s1] eqn:Hset; intros Hr.
  - destruct (IH _ _ _ (set_account_ok _ _ _ _ _ _ Hs Hid Hset) Hws Hr). split; [done|]. etrans; [|done].
    by apply (set_account_rewritten _ _ _ _ _ Hset).
  - injection Hr as <- <-. split; [by eapply set_account_ok|]. by apply (set_account_rewritten _ _ _ _ _ Hset).
Qed.

Lemma replay_slots_known k ws : ∀ s ok s',
  block_state_ok k s → known_slots k ws → replay_slots ws s = (ok, s') → block_state_ok k s' ∧ rewritten s s'.
Proof.
  induction ws as [|[id w] ws IH]; intros s ok s' Hs Hws; cbn [replay_slots]; [by intros [= <- <-]|].
  apply Forall_cons in Hws as [Hid Hws]. destruct (set_slot id w s) as [[] s1] eqn:Hset; intros Hr.
  - destruct (IH _ _ _ (set_slot_ok _ _ _ _ _ _ Hs Hid Hset) Hws Hr). split; [done|]. etrans; [|done].
    by apply (set_slot_rewritten _ _ _ _ _ Hset).
  - injection Hr as <- <-. split; [by eapply set_slot_ok|]. by apply (set_slot_rewritten _ _ _ _ _ Hset).
Qed.

Lemma effect_replay_known c ix k s coinbase r s' :
  block_state_ok k s → known_accounts k (ec_account_entries c) → known_slots k (ec_slot_entries c) →
  (coinbase < length (kt_accounts k))%nat → effect_replay c ix k s coinbase = Some (r, s') →
  block_state_ok k s' ∧ rewritten s s'.
Proof.
  intros Hs Ha Hl Hc. unfold effect_replay. destruct (ec_entries c !! ix) as [e|]; [|done]. cbn [mbind option_bind]. intros [= Hr].
  assert (known_accounts k (range_writes (ef_accounts e) (ef_account_writes e) (ec_account_entries c))) as Ha' by (by apply Forall_take, Forall_drop).
  assert (known_slots k (range_writes (ef_slots e) (ef_slot_writes e) (ec_slot_entries c))) as Hl' by (by apply Forall_take, Forall_drop).
  destruct (replay_accounts k _ s) as [ok1 s1] eqn:H1. destruct (replay_accounts_known _ _ _ _ _ Hs Ha' H1) as [Hs1 Hr1].
  destruct ok1; cbn [negb] in Hr; [|by injection Hr as <- <-].
  destruct (replay_slots _ s1) as [ok2 s2] eqn:H2. destruct (replay_slots_known _ _ _ _ _ Hs1 Hl' H2) as [Hs2 Hr2].
  destruct ok2; cbn [negb] in Hr; [|injection Hr as <- <-; split; [done|by etrans]].
  destruct (replay_fee k (ef_coinbase_fee e) coinbase s2) as [ok3 s3] eqn:H3. injection Hr as _ <-.
  assert (block_state_ok k s3 ∧ rewritten s2 s3) as [Hs3 Hr3].
  { revert H3. unfold replay_fee. destruct (_ =? 0); [by intros [= <- <-]|]. destruct (U256_MAX <? _); [by intros [= <- <-]|].
    intros Hset. split; [by eapply set_account_ok|]. by apply (set_account_rewritten _ _ _ _ _ Hset). }
  split; [done|]. by repeat (etrans; [eassumption|]).
Qed.

Lemma record_writes_known k s reads coinbase before ids : ∀ acc fee loads r,
  0 ≤ fee → foldl (record_write k s reads coinbase before) (Some (acc, fee, loads)) ids = Some r →
  0 ≤ r.1.2 ∧ ∃ new, r.1.1 = acc ++ new ∧ Forall (λ x, x.1 ∈ ids) new.
Proof.
  induction ids as [|id ids IH]; intros acc fee loads r Hfee; cbn [foldl].
  { intros [= <-]. cbn. split; [done|]. exists []. by rewrite app_nil_r. }
  assert (foldl (record_write k s reads coinbase before) None ids = None) as Hnone by (clear; by induction ids).
  unfold record_write at 2. cbn [mbind option_bind].
  assert (∀ new : list (nat * AccountEntry), Forall (λ x, x.1 ∈ ids) new → Forall (λ x, x.1 ∈ id :: ids) new) as Hmono.
  { intros new Hn. eapply Forall_impl; [exact Hn|]. intros x Hx. by right. }
  destruct (_ && _).
  - destruct (_ <? before) eqn:Hb; [by rewrite Hnone|]. apply Z.ltb_ge in Hb. intros Hr.
    apply IH in Hr as [? (new & ? & Hn)]; [|lia]. split; [done|]. exists new. split; [done|]. by apply Hmono.
  - destruct (td_accounts reads !! _) as [read|]; cbn [mbind option_bind]; [|by rewrite Hnone]. intros Hr.
    destruct (IH _ _ _ _ Hfee Hr) as [? (new & Hnew & Hn)]. split; [done|]. eexists. split; [by rewrite Hnew, <- app_assoc|].
    constructor; [by left|]. by apply Hmono.
Qed.

Lemma record_reads_known s reads coinbase loads l : ∀ k acc es k',
  keys_ok k → known_accounts k acc → foldl (record_read s reads coinbase loads) (Some acc, k) l = (es, k') →
  keys_ok k' ∧ keys_ext k k' ∧ ∀ es', es = Some es' → known_accounts k' es'.
Proof.
  induction l as [|[a x] l IH]; intros k acc es k' Hk Hacc; cbn [foldl].
  { intros [= <- <-]. split_and!; try done. by intros es' [= <-]. }
  unfold record_read at 2. cbn [fst snd]. destruct (intern_account a k) as [ri k1] eqn:Hi.
  destruct (intern_account_ok _ _ _ _ Hk Hi) as (Hk1 & He1 & Hid). destruct ri as [id|e].
  2: { rewrite record_reads_err. by intros [= <- <-]. }
  specialize (Hid _ eq_refl). pose proof (known_accounts_ext _ _ _ He1 Hacc) as Hacc1. intros Hf.
  assert (∃ acc1, known_accounts k1 acc1 ∧ foldl (record_read s reads coinbase loads) (Some acc1, k1) l = (es, k')) as (acc1 & Ha1 & Hf1).
  { destruct (loads && _); [by exists acc|]. eexists. split; [|exact Hf]. apply Forall_app. split; [done|].
    apply Forall_singleton. cbn. by eapply known_account. }
  destruct (IH _ _ _ _ Hk1 Ha1 Hf1) as (? & ? & ?). split_and!; [done|by etrans|done].
Qed.

Lemma record_slot_reads_known l : ∀ k acc es k',
  keys_ok k → known_slots k acc → foldl record_slot_read (Some acc, k) l = (es, k') →
  keys_ok k' ∧ keys_ext k k' ∧ ∀ es', es = Some es' → known_slots k' es'.
Proof.
  induction l as [|[[a key] v] l IH]; intros k acc es k' Hk Hacc; cbn [foldl].
  { intros [= <- <-]. split_and!; try done. by intros es' [= <-]. }
  unfold record_slot_read at 2. cbn [fst snd]. destruct (intern_slot a key k) as [ri k1] eqn:Hi.
  destruct (intern_slot_ok _ _ _ _ _ Hk Hi) as (Hk1 & He1 & Hid). destruct ri as [id|e].
  2: { rewrite record_slot_reads_err. by intros [= <- <-]. }
  specialize (Hid _ eq_refl). intros Hf. eapply IH in Hf as (? & ? & ?); [by split_and!; [|etrans|]|done|].
  apply Forall_app. split; [by eapply known_slots_ext|]. apply Forall_singleton. cbn. by eapply known_slot.
Qed.

(** A cache over a key table. *)
Definition cache_known k (c : EffectCache) : Prop :=
  known_accounts k (ec_account_entries c) ∧ known_slots k (ec_slot_entries c) ∧ Forall (λ e, 0 ≤ ef_coinbase_fee e) (ec_entries c).

Lemma cache_known_ext k k' c : keys_ext k k' → cache_known k c → cache_known k' c.
Proof. intros He (? & ? & ?). split_and!; [by eapply known_accounts_ext|by eapply known_slots_ext|done]. Qed.

Lemma recorded_entries_known k s at_ reads coinbase before es k' :
  keys_ok k → block_state_ok k s → recorded_entries k s at_ reads coinbase before = (es, k') →
  keys_ok k' ∧ keys_ext k k' ∧
  ∀ ws rs sw sr fee loads, es = Some (ws, rs, sw, sr, fee, loads) → known_accounts k' (ws ++ rs) ∧ known_slots k' (sw ++ sr) ∧ 0 ≤ fee.
Proof.
  intros Hk Hs. unfold recorded_entries.
  destruct (foldl _ (Some ([], 0, false)) _) as [[[ws fee] loads]|] eqn:Hw; [|by intros [= <- <-]].
  destruct (mapM _ _) as [sw|] eqn:Hsw; [|by intros [= <- <-]].
  destruct (foldl (record_read _ _ _ _) _ _) as [rs k1] eqn:Hr.
  destruct (record_reads_known _ _ _ _ _ _ _ _ _ Hk (Forall_nil_2 _) Hr) as (Hk1 & He1 & Hrs).
  destruct rs as [rs|]; [|by intros [= <- <-]].
  destruct (foldl record_slot_read _ _) as [sr k2] eqn:Hsr.
  destruct (record_slot_reads_known _ _ _ _ _ Hk1 (Forall_nil_2 _) Hsr) as (Hk2 & He2 & Hsrs).
  assert (keys_ext k k2) as He by (by etrans). destruct sr as [sr|]; intros [= <- <-]; split_and!; try done.
  intros ? ? ? ? ? ? [= <- <- <- <- <- <-].
  destruct (record_writes_known _ _ _ _ _ _ _ _ _ _ (Z.le_refl 0) Hw) as [Hfee (new & Hnew & Hin)]. cbn in Hfee, Hnew. subst ws.
  split_and!; [| |done]; apply Forall_app; split.
  - eapply known_accounts_ext; [exact He|]. eapply Forall_impl; [exact Hin|]. intros x Hx. cbn in *.
    unfold accounts_since in Hx. apply list_elem_of_fmap in Hx as (y & -> & Hy).
    pose proof (proj2 (so_account_ids _ _ Hs)) as Hl. apply (Forall_drop _ (cp_accounts at_)) in Hl. rewrite Forall_forall in Hl. by apply Hl.
  - eapply known_accounts_ext; [exact He2|]. by apply Hrs.
  - rewrite (record_slot_writes_ok _ _ _ _ _ Hsw). eapply known_slots_ext; [exact He|]. apply Forall_fmap, Forall_forall. intros x Hx. cbn.
    unfold slots_since in Hx. apply list_elem_of_fmap in Hx as (y & -> & Hy).
    pose proof (proj2 (so_slot_ids _ _ Hs)) as Hl. apply (Forall_drop _ (cp_slots at_)) in Hl. rewrite Forall_forall in Hl. by apply Hl.
  - by apply Hsrs.
Qed.

Lemma effect_record_known tx gas k s at_ reads coinbase before receipt own c r k' own' c' :
  keys_ok k → block_state_ok k s → cache_known k c →
  effect_record tx gas k s at_ reads coinbase before receipt own c = (r, k', own', c') →
  keys_ok k' ∧ keys_ext k k' ∧ cache_known k' c' ∧
  (∀ i e, ec_entries c' !! i = Some e → ec_entries c !! i = Some e ∨ ef_tx e = tx ∧ ef_gas e = gas) ∧
  own' = own ++ if r then [] else [receipt].
Proof.
  intros Hk Hs Hc. unfold effect_record. destruct (_ || _); [intros [= <- <- <- <-]; by split_and!; auto|].
  destruct (recorded_entries k s at_ reads coinbase before) as [es k1] eqn:Hes.
  destruct (recorded_entries_known _ _ _ _ _ _ _ _ Hk Hs Hes) as (Hk1 & He1 & Hin).
  destruct es as [[[[[[ws rs] sw] sr] fee] loads]|]; intros [= <- <- <- <-].
  2: { split_and!; auto. by eapply cache_known_ext. }
  destruct (Hin _ _ _ _ _ _ eq_refl) as (Hws & Hsl & Hfee). destruct (cache_known_ext _ _ _ He1 Hc) as (Ha & Hl & Hf).
  split_and!; [done|done|split_and!; cbn| |by rewrite app_nil_r].
  - by apply Forall_app.
  - by apply Forall_app.
  - apply Forall_app. split; [done|]. by apply Forall_singleton.
  - intros i e. cbn. rewrite lookup_app_Some. intros [?|[_ He]]; [by left|]. right.
    destruct (i - _)%nat; cbn in He; [by injection He as <-|done].
Qed.
End ids.

(** ** The bits of a block *)

Lemma bit_get_Some words i : (i < 64 * length words)%nat → ∃ b, bit_get words i = Some b.
Proof.
  intros Hi. unfold bit_get. destruct (lookup_lt_is_Some_2 words (i `div` 64)) as [w ->]; [|by eexists].
  apply Nat.Div0.div_lt_upper_bound. lia.
Qed.

Lemma bit_set_spec words i :
  (i < 64 * length words)%nat →
  ∃ words', bit_set words i = Some words' ∧ length words' = length words ∧
    ∀ j, bit_get words' j = if decide (j = i) then Some true else bit_get words j.
Proof.
  intros Hi. assert (i `div` 64 < length words)%nat as Hlt by (apply Nat.Div0.div_lt_upper_bound; lia).
  destruct (lookup_lt_is_Some_2 words (i `div` 64) Hlt) as [w Hw]. unfold bit_set. rewrite Hw. cbn [mbind option_bind]. eexists. split_and!; [done|by rewrite length_insert|].
  intros j. unfold bit_get. pose proof (Nat.div_mod_eq i 64). pose proof (Nat.div_mod_eq j 64).
  destruct (decide (j `div` 64 = i `div` 64)%nat) as [Hd|Hd].
  - rewrite Hd, list_lookup_insert_eq, Hw by done. cbn [mbind option_bind]. rewrite Z.lor_spec, Z.shiftl_1_l, Z.pow2_bits_eqb by lia.
    case_decide as Hj.
    + subst j. by rewrite Z.eqb_refl, orb_true_r.
    + assert (Z.of_nat (i mod 64) ≠ Z.of_nat (j mod 64)) as Hne by lia. apply Z.eqb_neq in Hne. by rewrite Hne, orb_false_r.
  - rewrite list_lookup_insert_ne by done. rewrite decide_False; [done|]. by intros ->.
Qed.

Lemma set_bits_spec txs : ∀ words,
  Forall (λ i, (i < 64 * length words)%nat) txs →
  ∃ words', set_bits words txs = Some words' ∧ length words' = length words ∧
    ∀ j, bit_get words' j = if decide (j ∈ txs) then Some true else bit_get words j.
Proof.
  unfold set_bits. induction txs as [|i txs IH]; intros words Hin; cbn [foldl].
  { exists words. split_and!; [done|done|]. intros j. by rewrite decide_False by apply not_elem_of_nil. }
  apply Forall_cons in Hin as [Hi Hin]. destruct (bit_set_spec words i Hi) as (w1 & Hw1 & Hl1 & Hg1). cbn [mbind option_bind]. rewrite Hw1.
  destruct (IH w1) as (w2 & Hw2 & Hl2 & Hg2); [by rewrite Hl1|]. exists w2. split_and!; [done|congruence|].
  intros j. rewrite Hg2, Hg1. repeat case_decide; set_solver.
Qed.

Section running.
Context `{DB : StateDb} `{HO : HashOrder} `{EV : MergeEvm}.
Context (p : Pool).
Hypothesis Hpool : pool_fit p.
Hypothesis empty_root : EMPTY_TRIE_ROOT ≠ 0.

(** The EVM spends at most the limit of a transaction and adds it to the counter. *)
Hypothesis gas_law : ∀ base tx k s used used' x,
  execute_tx base tx k s used = (used', Some x) → 0 ≤ xe_gas_spent x ≤ ti_gas_limit (px_info tx) ∧ used' = uadd used (xe_gas_spent x).

Record run_inv (g : Merging) : Prop := mk_run_inv {
  ri_keys : keys_ok (mg_keys g);
  ri_state : block_state_ok (mg_keys g) (bm_state (mg_m g));
  ri_effects : effects_ok (bm_effects (mg_m g));
  ri_gas : ∀ i e, ec_entries (bm_effects (mg_m g)) !! i = Some e →
    ∃ tx, pl_txs p !! ef_tx e = Some tx ∧ 0 ≤ ef_gas e ≤ ti_gas_limit (px_info tx);
  ri_known : cache_known (mg_keys g) (bm_effects (mg_m g));
  ri_coinbase : (bm_coinbase_id (mg_m g) < length (kt_accounts (mg_keys g)))%nat
}.

(** A computation that only runs transactions. *)
Record ran (g g' : Merging) : Prop := mk_ran {
  rn_inv : run_inv g';
  rn_keys : keys_ext (mg_keys g) (mg_keys g');
  rn_state : rewritten (bm_state (mg_m g)) (bm_state (mg_m g'));
  rn_frame : frame (mg_m g') = frame (mg_m g);
  rn_blobs : bm_blobs_used (mg_m g') = bm_blobs_used (mg_m g)
}.

Lemma ran_refl g : run_inv g → ran g g.
Proof. intros Hg. by split. Qed.

Lemma ran_trans g1 g2 g3 : ran g1 g2 → ran g2 g3 → ran g1 g3.
Proof. intros [A1 A2 A3 A4 A5] [B1 B2 B3 B4 B5]. split; [done|by etrans|by etrans|congruence|congruence]. Qed.

(** Only the state and the counters of a run changed. *)
Lemma ran_state g m' :
  run_inv g → block_state_ok (mg_keys g) (bm_state m') → rewritten (bm_state (mg_m g)) (bm_state m') →
  frame m' = frame (mg_m g) → bm_blobs_used m' = bm_blobs_used (mg_m g) → bm_effects m' = bm_effects (mg_m g) →
  ran g (mkMerging m' (mg_keys g)).
Proof.
  intros [H1 H2 H3 H4 H5 H6] Hs Hr Hf Hb He. split; [|done..]. split; cbn; rewrite ?He; try done.
  unfold frame in Hf. injection Hf as _ _ -> _. done.
Qed.

Lemma wp_unwrap {A} (o : option A) a (Q : A → Merging → list Empty_set → Prop) g : o = Some a → Q a g [] → wp (unwrap o) Q g.
Proof. intros ->. apply wp_ret. Qed.

Lemma wp_undo_state s0 k m (Q : unit → Merging → list Empty_set → Prop) :
  block_state_ok k s0 → rewritten s0 (bm_state m) →
  (∀ u, u ≡ s0 → rewritten s0 u → block_state_ok k u → Q tt (mkMerging (m <| bm_state := u |>) k) []) →
  wp (undo_state (checkpoint s0)) Q (mkMerging m k).
Proof.
  intros Hs Hr HQ. destruct (undo_rewritten _ _ _ Hs Hr) as (u & Hu & H1 & H2 & H3). unfold undo_state.
  apply wp_bind, wp_get, wp_bind. eapply wp_unwrap; [exact Hu|]. apply wp_modify. by apply HQ.
Qed.

(** What a transaction that ran leaves: its gas is counted and its receipt added. *)
Definition tx_ran (g g' : Merging) (ix : nat) (r : option (u64 * bool)) : Prop :=
  ran g g' ∧
  match r with
  | None => bm_state (mg_m g') ≡ bm_state (mg_m g) ∧ receipts_grow (mg_m g) (mg_m g') []
  | Some (gas, _) =>
      (∃ tx, pl_txs p !! ix = Some tx ∧ 0 ≤ gas ≤ ti_gas_limit (px_info tx)) ∧
      bm_gas_used (mg_m g') = uadd (bm_gas_used (mg_m g)) gas ∧
      ∃ effect, receipts_grow (mg_m g) (mg_m g') [(effect, bm_gas_used (mg_m g'))]
  end.

Lemma receipts_none m m' :
  bm_receipt_refs m' = bm_receipt_refs m → bm_unrecorded m' = bm_unrecorded m → receipts_grow m m' [].
Proof. intros H1 H2. split; [by rewrite app_nil_r|]. exists []. split; [by rewrite app_nil_r|done]. Qed.

Lemma replay_tx_spec g effect e :
  run_inv g → ec_entries (bm_effects (mg_m g)) !! effect = Some e →
  wp (replay_tx effect (checkpoint (bm_state (mg_m g)))) (λ r g' _, tx_ran g g' (ef_tx e) r) g.
Proof.
  intros Hg He. pose proof Hg as [H1 H2 H3 H4 (H5 & H5' & H5'') H6]. unfold replay_tx. apply wp_bind, wp_get.
  assert (∃ rs, effect_replay (bm_effects (mg_m g)) effect (mg_keys g) (bm_state (mg_m g)) (bm_coinbase_id (mg_m g)) = Some rs) as [[gas s] Hrep].
  { unfold effect_replay. rewrite He. by eexists. }
  destruct (effect_replay_known _ _ _ _ _ _ _ H2 H5 H5' H6 Hrep) as [Hs Hrw].
  apply wp_bind. eapply wp_unwrap; [exact Hrep|]. cbn beta iota. apply wp_bind, wp_modify.
  destruct g as [m k]. cbn [mg_m mg_keys] in *. destruct gas as [gas|].
  - assert (gas = ef_gas e) as Hgas.
    { unfold effect_replay in Hrep. rewrite He in Hrep. cbn [mbind option_bind] in Hrep. injection Hrep as Hrep.
      destruct (replay_accounts _ _ _) as [[] ?]; cbn in Hrep; [|done]. destruct (replay_slots _ _) as [[] ?]; cbn in Hrep; [|done].
      destruct (replay_fee _ _ _ _) as [[] ?]; by injection Hrep. }
    apply wp_bind, wp_modify. apply wp_bind, wp_modify. apply wp_bind.
    assert (∃ receipt bytes, effect_receipt (bm_effects m) effect = Some (receipt, bytes)) as (receipt & bytes & Hrec).
    { unfold effect_receipt. destruct (lookup_lt_is_Some_2 (ec_receipts (bm_effects m)) effect) as [rc Hrc].
      { rewrite (fo_receipts _ H3). by eapply lookup_lt_Some. }
      rewrite Hrc. cbn [mbind option_bind]. rewrite He. by eexists _, _. }
    eapply wp_unwrap; [exact Hrec|]. cbn beta iota. apply wp_ret. split.
    + by apply (ran_state (mkMerging m k)).
    + cbn. destruct (H4 _ _ He) as (tx & Htx & Hlim). split_and!; [exists tx; by rewrite Hgas|done|].
      exists (Some effect). split; [done|]. exists []. split; [by rewrite app_nil_r|done].
  - apply wp_bind. eapply (wp_undo_state (bm_state m)); [exact H2|exact Hrw|]. intros u Hu Hru Hok. apply wp_ret. split.
    + by apply (ran_state (mkMerging m k)).
    + split; [exact Hu|]. by apply receipts_none.
Qed.

Lemma execute_spec g ix :
  run_inv g → (ix < length (pl_txs p))%nat →
  wp (execute ix p (checkpoint (bm_state (mg_m g))) (bm_gas_used (mg_m g))) (λ r g' _, tx_ran g g' ix r) g.
Proof.
  intros Hg Hix. pose proof Hg as [H1 H2 H3 H4 H5 H6]. destruct (lookup_lt_is_Some_2 _ _ Hix) as [tx Htx].
  unfold execute. apply wp_bind, wp_get, wp_bind. eapply wp_unwrap; [exact Htx|]. cbn beta.
  destruct g as [m k]. cbn [mg_m mg_keys] in *.
  destruct (execute_tx (bm_base m) tx k (bm_state m) (bm_gas_used m)) as [used [x|]] eqn:Hx; apply wp_bind, wp_modify.
  2: { apply wp_ret. split; [by apply (ran_state (mkMerging m k))|]. split; [done|]. by apply receipts_none. }
  destruct (gas_law _ _ _ _ _ _ _ Hx) as [Hgas ->].
  destruct (absorb_run (xe_codes x) (xe_run x) k (bm_state m)) as [[folded k1] s1] eqn:Hab.
  destruct (absorb_run_ok empty_root _ _ _ _ _ _ _ H1 H2 Hab) as [[Hk1 He1 Hs1 Ha1 Hl1] _].
  assert (rewritten (bm_state m) s1) as Hrw by done.
  apply wp_bind, wp_modify. destruct folded as [[]|e].
  2: { apply wp_bind. eapply (wp_undo_state (bm_state m)); [by eapply block_state_ok_ext|done|]. intros u Hu Hru Hok.
       apply wp_bind, wp_modify, wp_ret. split.
       - split; [|done..]. split; cbn; try done; [by eapply cache_known_ext|]. pose proof (prefix_length _ _ (ke_accounts _ _ He1)). lia.
       - split; [exact Hu|]. by apply receipts_none. }
  destruct (effect_record ix (xe_gas_spent x) k1 s1 (checkpoint (bm_state m)) (xe_reads x) (bm_coinbase_id m) _ (xe_receipt x)
    (bm_unrecorded m) (bm_effects m)) as [[[effect k2] own] effects] eqn:Hrec.
  destruct (effect_record_known _ _ _ _ _ _ _ _ _ _ _ _ _ _ _ Hk1 Hs1 (cache_known_ext _ _ _ He1 H5) Hrec) as (Hk2 & He2 & Hc2 & Hent & Hown).
  apply wp_bind, wp_modify. apply wp_bind, wp_modify, wp_ret. split.
  - split; [|by etrans|done..]. split; cbn; try done.
    + by eapply block_state_ok_ext.
    + by eapply effect_record_ok.
    + intros i e Hi. destruct (Hent _ _ Hi) as [?|[-> ->]]; [by eapply H4|]. by exists tx.
    + pose proof (prefix_length _ _ (ke_accounts _ _ He1)). pose proof (prefix_length _ _ (ke_accounts _ _ He2)). lia.
  - cbn. split_and!; [by exists tx|done|]. exists effect. split; [done|]. eexists. split; [exact Hown|]. by destruct effect.
Qed.

Lemma apply_tx_spec g ix :
  run_inv g → (ix < length (pl_txs p))%nat → wp (apply_tx ix p) (λ r g' _, tx_ran g g' ix r) g.
Proof.
  intros Hg Hix. unfold apply_tx. apply wp_bind, wp_get. destruct (find_replayable _ _ _ _ _) as [effect|] eqn:Hf.
  - destruct (find_replayable_sound _ _ _ _ _ _ (ri_effects _ Hg) Hf) as (e & He & <- & _). by apply replay_tx_spec.
  - by apply execute_spec.
Qed.

(** ** Running an order *)

Lemma tx_fit_Some ix : (ix < length (pl_txs p))%nat → ∃ tx, pl_txs p !! ix = Some tx ∧
  tx_fit p ix = Some (ti_gas_limit (px_info tx), ti_blobs (px_info tx)) ∧
  0 ≤ ti_gas_limit (px_info tx) < u64_modulus ∧ 0 ≤ ti_blobs (px_info tx) < u64_modulus.
Proof.
  intros Hix. destruct (lookup_lt_is_Some_2 _ _ Hix) as [tx Htx]. exists tx. unfold tx_fit.
  rewrite (pf_fit _ Hpool), list_lookup_fmap, Htx. split_and!; try done;
    pose proof (pf_limits _ Hpool) as Hl; by apply (Forall_lookup_1 _ _ _ _ Hl Htx).
Qed.

Lemma truncate_receipts_grow m m' new :
  receipts_grow m m' new →
  let own := length (List.filter (λ r : option nat * u64, bool_decide (r.1 = None)) (drop (length (bm_receipt_refs m)) (bm_receipt_refs m'))) in
  take (length (bm_unrecorded m') - own) (bm_unrecorded m') = bm_unrecorded m ∧
  take (length (bm_receipt_refs m)) (bm_receipt_refs m') = bm_receipt_refs m.
Proof.
  intros [-> (added & -> & Hl)]. cbn. rewrite drop_app_length. fold (count_own new). rewrite take_app_length. split; [|done].
  apply take_app_length'. rewrite length_app. lia.
Qed.

Lemma receipts_grow_trans m1 m2 m3 l l' : receipts_grow m1 m2 l → receipts_grow m2 m3 l' → receipts_grow m1 m3 (l ++ l').
Proof.
  intros [H1 (a & H2 & H3)] [H4 (b & H5 & H6)]. split; [by rewrite H4, H1, app_assoc|]. exists (a ++ b).
  rewrite H5, H2, app_assoc, length_app, count_own_app. split; [done|lia].
Qed.

(** The block has room: nothing was used beyond its limits. *)
Record room (m : BlockMerger) : Prop := mk_room {
  rm_gas : 0 ≤ bm_gas_used m ≤ bm_order_gas_cap m;
  rm_cap : bm_order_gas_cap m < u64_modulus;
  rm_blobs : 0 ≤ bm_blobs_used m ≤ bm_max_blobs m;
  rm_max : bm_max_blobs m < u64_modulus
}.

Definition blobs_of (txs : list nat) : Z := sumZ ((λ ix, from_option snd 0 (tx_fit p ix)) <$> txs).

Lemma kept_txs_app kept l l' : ∀ i, kept_txs kept i (l ++ l') = kept_txs kept i l ++ kept_txs kept (i + length l) l'.
Proof.
  induction l as [|x l IH]; intros i; cbn [app kept_txs length]; [by rewrite Nat.add_0_r|].
  rewrite IH. replace (i + S (length l))%nat with (S i + length l)%nat by lia. by destruct (Z.testbit _ _).
Qed.

Lemma kept_txs_ext kept kept' l : ∀ i,
  (∀ j, (i ≤ j < i + length l)%nat → Z.testbit kept (Z.of_nat j) = Z.testbit kept' (Z.of_nat j)) → kept_txs kept i l = kept_txs kept' i l.
Proof.
  induction l as [|x l IH]; intros i Hj; cbn [kept_txs]; [done|]. rewrite (Hj i) by (cbn; lia).
  rewrite (IH (S i)); [done|]. intros j ?. apply Hj. cbn. lia.
Qed.

(** Setting the bit of the next transaction keeps it. *)
Lemma kept_txs_set kept done_ ix :
  0 ≤ kept < 2 ^ Z.of_nat (length done_) →
  let kept' := Z.lor kept (Z.shiftl 1 (Z.of_nat (length done_))) in
  0 ≤ kept' < 2 ^ Z.of_nat (S (length done_)) ∧ Z.testbit kept' (Z.of_nat (length done_)) = true ∧
  (∀ j, (j < length done_)%nat → Z.testbit kept' (Z.of_nat j) = Z.testbit kept (Z.of_nat j)) ∧
  kept_txs kept' 0 (done_ ++ [ix]) = kept_txs kept 0 done_ ++ [ix].
Proof.
  intros Hk kept'. set (n := length done_) in *.
  assert (kept' = kept + 2 ^ Z.of_nat n) as Hadd.
  { subst kept'. rewrite Z.shiftl_1_l, <- Z.lxor_lor, <- Z.add_nocarry_lxor; [done|..];
      apply Z.bits_inj'; intros j Hj; rewrite Z.land_spec, Z.pow2_bits_eqb, Z.bits_0 by lia;
      destruct (Z.eqb_spec (Z.of_nat n) j) as [<-|]; rewrite ?andb_false_r, ?andb_true_r; try done;
      (destruct (decide (kept = 0)) as [->|]; [by rewrite Z.bits_0|]; apply Z.bits_above_log2; [lia|]; apply Z.log2_lt_pow2; lia). }
  assert (∀ j, (j < n)%nat → Z.testbit kept' (Z.of_nat j) = Z.testbit kept (Z.of_nat j)) as Hlow.
  { intros j Hj. subst kept'. rewrite Z.lor_spec, Z.shiftl_1_l, Z.pow2_bits_false by lia. by rewrite orb_false_r. }
  assert (Z.testbit kept' (Z.of_nat n) = true) as Hbit.
  { subst kept'. rewrite Z.lor_spec, Z.shiftl_1_l, Z.pow2_bits_true by lia. by rewrite orb_true_r. }
  split_and!; [rewrite Hadd; lia|rewrite Hadd, Nat2Z.inj_succ, Z.pow_succ_r; lia|done|done|].
  rewrite kept_txs_app. cbn [kept_txs]. fold n. rewrite Nat.add_0_l, Hbit. f_equal. apply kept_txs_ext. intros j Hj. apply Hlow. subst n. lia.
Qed.

(** Leaving it unset drops it. *)
Lemma kept_txs_skip kept done_ ix :
  0 ≤ kept < 2 ^ Z.of_nat (length done_) →
  0 ≤ kept < 2 ^ Z.of_nat (S (length done_)) ∧ kept_txs kept 0 (done_ ++ [ix]) = kept_txs kept 0 done_.
Proof.
  intros Hk. split; [rewrite Nat2Z.inj_succ, Z.pow_succ_r; lia|]. rewrite kept_txs_app. cbn [kept_txs]. rewrite Nat.add_0_l.
  assert (Z.testbit kept (Z.of_nat (length done_)) = false) as ->; [|by rewrite app_nil_r].
  destruct (decide (kept = 0)) as [->|]; [by rewrite Z.bits_0|]. apply Z.bits_above_log2; [lia|]. apply Z.log2_lt_pow2; lia.
Qed.

Section order.
Context (order : PoolOrder) (cx : SlotCtx) (g0 : Merging).
Hypothesis Hroom : room (mg_m g0).

Local Abbreviation gas_left := (bm_order_gas_cap (mg_m g0) - bm_gas_used (mg_m g0)).
Local Abbreviation blobs_left := (bm_max_blobs (mg_m g0) - bm_blobs_used (mg_m g0)).

(** May the transaction at a position be missing. *)
Definition may_omit (i : nat) : bool := Z.testbit (po_may_drop order) (Z.of_nat i) || Z.testbit (po_may_revert order) (Z.of_nat i).

(** The loop after the transactions [done_]. *)
Record loop_inv (g : Merging) (r : OrderRun) (done_ : list nat) : Prop := mk_loop_inv {
  li_ran : ran g0 g;
  li_used : bm_gas_used (mg_m g) = bm_gas_used (mg_m g0) + or_gas r;
  li_gas : 0 ≤ or_gas r ≤ gas_left;
  li_blobs : 0 ≤ or_blobs r ≤ blobs_left;
  li_blobs_of : or_blobs r = blobs_of (kept_txs (or_kept r) 0 done_);
  li_kept : 0 ≤ or_kept r < 2 ^ Z.of_nat (length done_);
  li_receipts : ∃ new, receipts_grow (mg_m g0) (mg_m g) new ∧ length new = length (kept_txs (or_kept r) 0 done_);
  li_allowed : ∀ j, (j < length done_)%nat → Z.testbit (or_kept r) (Z.of_nat j) = true ∨ may_omit j = true
}.

(** A loop that stopped. *)
Definition loop_failed (g : Merging) : Prop := ran g0 g ∧ ∃ new, receipts_grow (mg_m g0) (mg_m g) new.

Lemma loop_inv_failed g r done_ : loop_inv g r done_ → loop_failed g.
Proof. intros [H _ _ _ _ _ (new & Hn & _) _]. split; [done|]. by exists new. Qed.

(** A transaction left out. *)
Lemma loop_skip g g' r done_ ix :
  loop_inv g r done_ → ran g0 g' → bm_gas_used (mg_m g') = bm_gas_used (mg_m g) →
  receipts_grow (mg_m g) (mg_m g') [] → may_omit (length done_) = true → loop_inv g' r (done_ ++ [ix]).
Proof.
  intros [H1 H2 H3 H4 H5 H6 (new & H7 & H7') H8] Hran Hgas Hrec Hom.
  destruct (kept_txs_skip _ _ ix H6) as [Hk Heq]. split; try done; rewrite ?Heq.
  - congruence.
  - done.
  - by rewrite length_app, Nat.add_1_r.
  - exists new. split; [|done]. rewrite <- (app_nil_r new). by eapply receipts_grow_trans.
  - intros j. rewrite length_app. cbn. intros Hj. destruct (decide (j = length done_)) as [->|]; [by right|]. apply H8. lia.
Qed.

Lemma run_order_tx_spec g r done_ ix :
  (ix < length (pl_txs p))%nat → loop_inv g r done_ →
  wp (run_order_tx order p cx gas_left blobs_left (length done_) ix r)
    (λ res g' _, match res with Ok r' => loop_inv g' r' (done_ ++ [ix]) | Err _ => loop_failed g' end) g.
Proof.
  intros Hix Hinv. pose proof Hinv as [H1 H2 H3 H4 H5 H6 H7 H8]. pose proof Hroom as [R1 R2 R3 R4].
  destruct (tx_fit_Some ix Hix) as (tx & Htx & Hfit & Hg & Hb). unfold run_order_tx. apply wp_bind.
  eapply wp_unwrap; [exact Hfit|]. cbn beta iota zeta. unfold usub.
  rewrite (Z.mod_small (gas_left - or_gas r)), (Z.mod_small (blobs_left - or_blobs r)) by lia.
  destruct ((_ <? _) || (_ <? _)) eqn:Hspace.
  { apply wp_ret. destruct (Z.testbit (po_may_drop order) _) eqn:Hd; [|by eapply loop_inv_failed].
    eapply loop_skip; [done|done|done|by apply receipts_none|]. unfold may_omit. by rewrite Hd. }
  apply orb_false_iff in Hspace as [Hs1%Z.ltb_ge Hs2%Z.ltb_ge]. apply wp_bind, wp_get, wp_bind.
  eapply wp_mono; [apply apply_tx_spec; [apply H1|done]|]. cbn beta. intros ran_ g1 _ [Hran Hout].
  assert (ran g0 g1) as Hran1 by (by eapply ran_trans).
  destruct ran_ as [[tx_gas succeeded]|].
  2: { destruct Hout as [Heq Hrec]. apply wp_bind, wp_modify, wp_ret.
       assert (ran g0 (g1 <| mg_m ::= (λ m, m <| bm_gas_used := bm_gas_used (mg_m g) |>) |>)) as Hran2.
       { eapply ran_trans; [exact Hran1|]. destruct g1 as [m1 k1]. apply (ran_state (mkMerging m1 k1)); try done; apply Hran1. }
       destruct H7 as (new & Hnew & Hlen).
       destruct (_ || _) eqn:Hd.
       - eapply loop_skip; [done|done|done|exact Hrec|exact Hd].
       - split; [done|]. exists (new ++ []). by eapply receipts_grow_trans. }
  destruct Hout as ((tx' & Htx' & Hlim) & Hused & effect & Hrec). assert (tx' = tx) as -> by congruence.
  apply wp_bind, wp_get. destruct (undo_reason _ _ _ _ _ _ _ _ _ _ _) as [[reason droppable]|] eqn:Hundo.
  - destruct g1 as [m1 k1], g as [m k]. cbn [mg_m mg_keys] in *. apply wp_bind.
    assert (block_state_ok k1 (bm_state m)) as Hsm.
    { eapply block_state_ok_ext; [apply (rn_keys _ _ Hran)|]. apply (ri_state _ (rn_inv _ _ H1)). }
    eapply (wp_undo_state (bm_state m)); [done|apply (rn_state _ _ Hran)|]. intros u Hu Hru Hok.
    apply wp_bind, wp_modify. apply wp_bind, wp_modify, wp_ret.
    assert (length (bm_receipt_refs m1) - 1 = length (bm_receipt_refs m))%nat as Hn by (rewrite (proj1 Hrec), length_app; cbn; lia).
    destruct (truncate_receipts_grow _ _ _ Hrec) as [Ht1 Ht2]. rewrite Hn.
    set (g' := mkMerging (m1 <| bm_state := u |> <| bm_unrecorded := bm_unrecorded m |> <| bm_receipt_refs := bm_receipt_refs m |>
                             <| bm_gas_used := bm_gas_used m |>) k1).
    match goal with |- context [loop_failed ?x] => assert (x = g') as -> by (subst g'; rec_simpl; by rewrite Ht1, Ht2) end.
    assert (ran (mkMerging m k) g') as Hran2.
    { destruct Hran as [[A1 A2 A3 A4 A5 A6] B2 B3 B4 B5]. by split. }
    assert (ran g0 g') as Hran3 by (by apply (ran_trans _ (mkMerging m k))).
    assert (receipts_grow m (mg_m g') []) as Hrec'.
    { by apply receipts_none. }
    destruct droppable.
    + eapply (loop_skip (mkMerging m k)); [done|done|done|done|].
      revert Hundo. unfold undo_reason, may_omit. destruct (blacklisted_by _ _); [done|].
      destruct (negb succeeded && _); [by intros [= _ ->]|]. destruct (_ <? _); [by intros [= _ ->]|done].
    + split; [done|]. destruct H7 as (new & Hnew & _). exists (new ++ []). by eapply receipts_grow_trans.
  - apply wp_ret. unfold uadd. rewrite !Z.mod_small by lia.
    destruct (kept_txs_set _ done_ ix H6) as (Hk' & Hbit & Hlow & Hkept). cbn zeta in Hkept. split; cbn [or_gas or_blobs or_kept].
    + done.
    + rewrite Hused, H2. unfold uadd. rewrite Z.mod_small by lia. lia.
    + lia.
    + lia.
    + rewrite Hkept. unfold blobs_of. rewrite fmap_app, sumZ_app. cbn. rewrite Hfit. cbn. fold (blobs_of (kept_txs (or_kept r) 0 done_)). lia.
    + by rewrite length_app, Nat.add_1_r.
    + destruct H7 as (new & Hnew & Hlen). eexists. split; [by eapply receipts_grow_trans|]. rewrite Hkept, !length_app. cbn. lia.
    + intros j. rewrite length_app. cbn. intros Hj. destruct (decide (j = length done_)) as [->|]; [by left|].
      rewrite Hlow by lia. apply H8. lia.
Qed.

Lemma run_order_txs_spec txs : ∀ g r done_,
  Forall (λ ix, (ix < length (pl_txs p))%nat) txs → loop_inv g r done_ →
  wp (run_order_txs order p cx gas_left blobs_left (length done_) txs r)
    (λ out g' _, match out.2 with None => loop_inv g' out.1 (done_ ++ txs) | Some _ => loop_failed g' end) g.
Proof.
  induction txs as [|ix txs IH]; intros g r done_ Htxs Hinv; cbn [run_order_txs].
  { apply wp_ret. cbn. by rewrite app_nil_r. }
  apply Forall_cons in Htxs as [Hix Htxs]. apply wp_bind. eapply wp_mono; [by apply run_order_tx_spec|]. cbn beta.
  intros [r'|reason] g' _ Hres; [|by apply wp_ret].
  replace (S (length done_)) with (length (done_ ++ [ix])) by (rewrite length_app; cbn; lia).
  eapply wp_mono; [by apply IH|]. cbn beta. intros out g2 _. by rewrite <- app_assoc.
Qed.

(** What is left of a run that was taken back: keys and effects. *)
Record taken_back (g g' : Merging) : Prop := mk_taken_back {
  tb_ran : ran g g';
  tb_state : bm_state (mg_m g') ≡ bm_state (mg_m g);
  tb_gas : bm_gas_used (mg_m g') = bm_gas_used (mg_m g);
  tb_refs : bm_receipt_refs (mg_m g') = bm_receipt_refs (mg_m g);
  tb_own : bm_unrecorded (mg_m g') = bm_unrecorded (mg_m g)
}.

(** An order that was appended whole: what it may not omit was kept, its gas and
    blobs are counted, and the coinbase gained what it paid. *)
Record appended (g g' : Merging) (txs : list nat) (paid : U256) (kept : u32) : Prop := mk_appended {
  ap_inv : run_inv g';
  ap_keys : keys_ext (mg_keys g) (mg_keys g');
  ap_frame : frame (mg_m g') = frame (mg_m g);
  ap_room : room (mg_m g');
  ap_gas : bm_gas_used (mg_m g) ≤ bm_gas_used (mg_m g');
  ap_blobs : bm_blobs_used (mg_m g') = bm_blobs_used (mg_m g) + blobs_of (kept_txs kept 0 txs);
  ap_receipts : ∃ new, receipts_grow (mg_m g) (mg_m g') new ∧ length new = length (kept_txs kept 0 txs);
  ap_kept : 0 < kept < 2 ^ Z.of_nat (length txs);
  ap_allowed : ∀ j, (j < length txs)%nat → Z.testbit kept (Z.of_nat j) = true ∨ may_omit j = true;
  ap_paid : 0 < paid ∧ coinbase_balance g' = coinbase_balance g + paid
}.
End order.

Lemma run_order_spec order cx keep g txs :
  run_inv g → room (mg_m g) → txs_of p (po_txs order) = Some txs → Forall (λ ix, (ix < length (pl_txs p))%nat) txs →
  wp (run_order order p cx keep)
    (λ res g' _, match res with
                 | Err _ => taken_back g g'
                 | Ok (paid, kept) => if keep then appended order g g' txs paid kept else taken_back g g' ∧ 0 < paid
                 end) g.
Proof.
  intros Hg Hroom Htxs Hin. unfold run_order. apply wp_bind. eapply wp_unwrap; [exact Htxs|]. cbn beta.
  assert (∃ b, match sx_blacklist cx with
               | None => Some false
               | Some l => ts ← mapM (λ ix, pl_txs p !! ix) txs; Some (existsb (calls_blacklisted l) ts)
               end = Some b) as [listed Hlisted].
  { destruct (sx_blacklist cx) as [l|]; [|by eexists].
    assert (is_Some (mapM (λ ix, pl_txs p !! ix) txs)) as [ts ->].
    { apply mapM_is_Some. eapply Forall_impl; [exact Hin|]. intros ix Hix. by apply lookup_lt_is_Some_2. }
    by eexists. }
  apply wp_bind. eapply wp_unwrap; [exact Hlisted|]. cbn beta.
  assert (taken_back g g) as Hself by (by split; [apply ran_refl|..]).
  destruct listed; [by apply wp_ret|]. apply wp_bind, wp_get. cbn zeta. pose proof Hroom as [R1 R2 R3 R4].
  unfold usub. rewrite (Z.mod_small (bm_order_gas_cap _ - _)), (Z.mod_small (bm_max_blobs _ - _)) by lia.
  apply wp_bind. eapply wp_mono.
  { apply (run_order_txs_spec order cx g Hroom txs g (mkOrderRun 0 0 0) []); [done|].
    split; cbn; try done; try lia; first [by apply ran_refl|exists []; split; [by apply receipts_none|done]|intros; lia]. }
  cbn beta. intros [r failed] g1 _ Hout. cbn [fst snd app] in Hout. apply wp_bind, wp_get. cbn zeta.
  set (paid := sat_sub (coinbase_balance g1) (coinbase_balance g)).
  set (failed' := match failed with Some _ => _ | None => _ end).
  assert (loop_failed g g1) as Hf by (destruct failed; [done|by eapply loop_inv_failed]).
  assert (negb keep || bool_decide (is_Some failed') = true →
    ∀ Q : unit → Merging → list Empty_set → Prop, (∀ g', taken_back g g' → Q tt g' []) →
    wp (undo_state (checkpoint (bm_state (mg_m g)));; truncate_receipts (length (bm_receipt_refs (mg_m g)));;
        merger (λ m', m' <| bm_gas_used := bm_gas_used (mg_m g) |>)) Q g1) as Hundo.
  { intros _ Q HQ. destruct Hf as [Hran (new & Hrec)]. destruct g1 as [m1 k1], g as [m k]. cbn [mg_m mg_keys] in *. apply wp_bind.
    eapply (wp_undo_state (bm_state m)); [eapply block_state_ok_ext; [apply (rn_keys _ _ Hran)|apply Hg]|apply (rn_state _ _ Hran)|].
    intros u Hu Hru Hok. apply wp_bind, wp_modify, wp_modify. apply HQ. destruct (truncate_receipts_grow _ _ _ Hrec) as [Ht1 Ht2].
    destruct Hran as [[A1 A2 A3 A4 A5 A6] B2 B3 B4 B5]. split; cbn; try done. }
  apply wp_bind. destruct (negb keep || bool_decide (is_Some failed')) eqn:Hk.
  - apply Hundo; [done|]. intros g' Hg'. destruct failed' as [reason|] eqn:Hf'; [by apply wp_ret|].
    destruct keep; [by rewrite bool_decide_false in Hk by (by intros [])|]. apply wp_bind, wp_ret, wp_ret. split; [done|].
    subst failed'. destruct failed; [done|]. destruct (_ || _) eqn:Hz; [done|]. apply orb_false_iff in Hz as [_ Hz%Z.eqb_neq].
    subst paid. unfold sat_sub in *. lia.
  - apply orb_false_iff in Hk as [Hk%negb_false_iff Hn%bool_decide_eq_false]. subst keep. apply wp_modify.
    destruct failed' as [reason|] eqn:Hf'; [by destruct Hn|]. clear Hn Hundo. subst failed'. destruct failed; [done|].
    destruct (_ || _) eqn:Hz; [done|]. apply orb_false_iff in Hz as [Hz1%Z.eqb_neq Hz2%Z.eqb_neq].
    apply wp_bind, wp_modify, wp_ret. destruct Hout as [H1 H2 H3 H4 H5 H6 H7 H8]. destruct H1 as [[A1 A2 A3 A4 A5 A6] B2 B3 B4 B5].
    pose proof B4 as B4'. unfold frame in B4'. injection B4' as _ _ Hcb _ Hcap Hmax _ _ _ _ _ _ _ _ _.
    assert (uadd (bm_blobs_used (mg_m g1)) (or_blobs r) = bm_blobs_used (mg_m g) + or_blobs r) as Hub.
    { unfold uadd. rewrite B5, Z.mod_small by lia. done. }
    split; cbn; try done.
    + split; cbn; try done. by apply clear_undo_ok.
    + split; cbn; rewrite ?Hcap, ?Hmax, ?Hub, ?H2; lia.
    + lia.
    + rewrite Hub. lia.
    + lia.
    + unfold coinbase_balance. cbn. rewrite clear_undo_account. fold (coinbase_balance g1). subst paid. unfold sat_sub in *.
      fold (coinbase_balance g). lia.
Qed.

(** ** Orders that fit *)

Lemma fits_spec order words txs : ∀ i gas blobs,
  Forall (λ ix, (ix < length (pl_txs p))%nat) txs → (length (pl_txs p) ≤ 64 * length words)%nat →
  ∃ r, fits p order words i txs gas blobs = Some r ∧
    (is_ok r = true → ∀ j tx, txs !! j = Some tx → Z.testbit (po_may_drop order) (Z.of_nat (i + j)) = false → bit_get words tx = Some false).
Proof.
  induction txs as [|tx txs IH]; intros i gas blobs Hin Hw; cbn [fits]; [by eexists|].
  apply Forall_cons in Hin as [Htx Hin].
  assert (∀ P, (∀ j t, txs !! j = Some t → Z.testbit (po_may_drop order) (Z.of_nat (S i + j)) = false → bit_get words t = Some false) →
    (Z.testbit (po_may_drop order) (Z.of_nat i) = false → bit_get words tx = Some false) → P = true →
    ∀ j t, (tx :: txs) !! j = Some t → Z.testbit (po_may_drop order) (Z.of_nat (i + j)) = false → bit_get words t = Some false) as Hcons.
  { intros P H1 H2 _ [|j] t; cbn [lookup list_lookup]; [intros [= <-]; by rewrite Nat.add_0_r|].
    intros Ht Hd. apply (H1 j t Ht). by replace (S i + j)%nat with (i + S j)%nat by lia. }
  destruct (Z.testbit (po_may_drop order) (Z.of_nat i)) eqn:Hd.
  - destruct (IH (S i) gas blobs Hin Hw) as (r & Hr & Hok). exists r. split; [done|]. intros H. by apply (Hcons true); [apply Hok| |].
  - destruct (bit_get_Some words tx ltac:(lia)) as [b Hb]. rewrite Hb. cbn [mbind option_bind]. destruct b; [by eexists|].
    destruct (tx_fit_Some tx Htx) as (t & _ & Hf & _). rewrite Hf. cbn [mbind option_bind].
    destruct (IH (S i) (uadd gas (ti_gas_limit (px_info t))) (uadd blobs (ti_blobs (px_info t))) Hin Hw) as (r & Hr & Hok).
    exists r. split; [done|]. intros H. by apply (Hcons true); [apply Hok| |].
Qed.

Lemma can_fit_spec order g txs :
  txs_of p (po_txs order) = Some txs → Forall (λ ix, (ix < length (pl_txs p))%nat) txs →
  (length (pl_txs p) ≤ 64 * length (bm_in_block (mg_m g)))%nat →
  wp (can_fit order p)
    (λ res g' _, g' = g ∧ (is_ok res = true → ∀ j tx, txs !! j = Some tx → Z.testbit (po_may_drop order) (Z.of_nat j) = false →
                             bit_get (bm_in_block (mg_m g)) tx = Some false)) g.
Proof.
  intros Htxs Hin Hw. unfold can_fit. apply wp_bind, wp_get, wp_bind. eapply wp_unwrap; [exact Htxs|].
  destruct (fits_spec order (bm_in_block (mg_m g)) txs 0 0 0 Hin Hw) as (r & Hr & Hok).
  apply wp_bind. eapply wp_unwrap; [exact Hr|]. apply wp_ret. split; [done|]. destruct r as [[gas blobs]|e]; [|done].
  destruct (_ || _); [done|]. intros _. by apply Hok.
Qed.

Lemma state_account_known k k' s id :
  keys_ext k k' → (id < length (kt_accounts k))%nat → state_account k' s id = state_account k s id.
Proof.
  intros He Hid. unfold state_account, table_value, parent_account. destruct (ke_accounts _ _ He) as [l ->]. by rewrite lookup_app_l.
Qed.

Lemma taken_back_balance g g' : run_inv g → taken_back g g' → coinbase_balance g' = coinbase_balance g.
Proof.
  intros Hg [[_ Hk _ Hf _] Hs _ _ _]. unfold coinbase_balance. unfold frame in Hf. injection Hf as _ _ -> _.
  rewrite Hs. by rewrite (state_account_known _ _ _ _ Hk (ri_coinbase _ Hg)).
Qed.
End running.
