(* ===== verification/MergeRounds.v ===== *)
(** * Rounds of appending

    [BlockMerger::extend] of [crates/builder/src/merge/block.rs] as a whole: the
    orders carried over from the last base block, the solo runs that rank the rest,
    and the appending in the order of their payments. *)

From S2P Require Import Prelude Types Submission Rlp MergeTrie MergeOrders MergeWire MergePool MergeState MergeEffects MergePayment MergeBlock MergeExtend.

Section rounds.
Context `{DB : StateDb} `{HO : HashOrder} `{EV : MergeEvm}.
Context (p : Pool).
Hypothesis Hpool : pool_fit p.
Hypothesis empty_root : EMPTY_TRIE_ROOT ≠ 0.
Hypothesis gas_law : ∀ base tx k s used used' x,
  execute_tx base tx k s used = (used', Some x) → 0 ≤ xe_gas_spent x ≤ ti_gas_limit (px_info tx) ∧ used' = uadd used (xe_gas_spent x).

(** The transactions an entry of [included_orders] stands for. *)
Definition order_txs (ix : nat) : option (list nat) := o ← pl_orders p !! ix; txs_of p (po_txs o).
Definition entry_txs (e : nat * u32) : list nat :=
  match order_txs e.1 with Some txs => kept_txs e.2 0 txs | None => [] end.

(** An order was included whole: only what it may omit is missing. *)
Definition entry_ok (e : nat * u32) : Prop :=
  ∃ o txs, pl_orders p !! e.1 = Some o ∧ txs_of p (po_txs o) = Some txs ∧ 0 < e.2 < 2 ^ Z.of_nat (length txs) ∧
    ∀ j, (j < length txs)%nat → Z.testbit e.2 (Z.of_nat j) = true ∨ may_omit o j = true.

(** What an order may not drop was not in the block before. *)
Definition entry_fresh (before : list nat) (e : nat * u32) : Prop :=
  ∀ o txs j tx, pl_orders p !! e.1 = Some o → txs_of p (po_txs o) = Some txs → txs !! j = Some tx →
    Z.testbit (po_may_drop o) (Z.of_nat j) = false → tx ∉ before.

Definition revenue_origin (r : Revenue) : option Address := submitter_address p (rv_submitter r).

(** The invariant of a round, over a block with the transactions [base_txs] that
    left the coinbase the balance [b0] and uses [blobs0] blobs. *)
Record ext_inv (base_txs : list nat) (b0 blobs0 : Z) (g : Merging) : Prop := mk_ext_inv {
  ei_run : run_inv p g;
  ei_room : room (mg_m g);
  ei_nodup : NoDup (bm_included_orders (mg_m g)).*1;
  ei_entries : Forall entry_ok (bm_included_orders (mg_m g));
  ei_taken : ∀ ix, bm_order_marks (mg_m g) !! ix = Some MarkTaken ↔ ix ∈ (bm_included_orders (mg_m g)).*1;
  ei_appended : bm_appended_txs (mg_m g) = bm_included_orders (mg_m g) ≫= entry_txs;
  ei_in_block : ∀ tx, bit_get (bm_in_block (mg_m g)) tx = Some true ↔ tx ∈ base_txs ++ bm_appended_txs (mg_m g);
  ei_fresh : ∀ l e l', bm_included_orders (mg_m g) = l ++ e :: l' → entry_fresh (base_txs ++ (l ≫= entry_txs)) e;
  ei_blobs : bm_blobs_used (mg_m g) = blobs0 + blobs_of p (bm_appended_txs (mg_m g));
  ei_origins : Forall (λ r, is_Some (revenue_origin r)) (bm_revenues (mg_m g)) ∧ NoDup (revenue_origin <$> bm_revenues (mg_m g));
  ei_balance : b0 ≤ coinbase_balance g;
  ei_revenue : 0 ≤ b0 → coinbase_balance g < u256_modulus →
    Forall (λ r, 0 < rv_paid r) (bm_revenues (mg_m g)) ∧ sumZ (rv_paid <$> bm_revenues (mg_m g)) = coinbase_balance g - b0
}.

(** The marks and bits cover the pool. *)
Definition sized (g : Merging) : Prop :=
  length (bm_order_marks (mg_m g)) = length (pl_orders p) ∧ (length (pl_txs p) ≤ 64 * length (bm_in_block (mg_m g)))%nat.

(** What a round does not change: the block and its limits. *)
Definition limits_of (m : BlockMerger) : BaseBlock * u64 * u64 := (bm_base m, bm_order_gas_cap m, bm_max_blobs m).

Definition not_taken (g : Merging) (ix : nat) : Prop := bm_order_marks (mg_m g) !! ix ≠ Some MarkTaken.

Section round.
Context (base_txs : list nat) (b0 blobs0 : Z).

(** A run that was taken back keeps the invariant. *)
Lemma ext_taken_back g g' : ext_inv base_txs b0 blobs0 g → taken_back p g g' → ext_inv base_txs b0 blobs0 g'.
Proof.
  intros Hg Htb. pose proof (taken_back_balance p _ _ (ei_run _ _ _ _ Hg) Htb) as Hbal.
  destruct Hg as [H1 H2 H3 H4 H5 H6 H7 H8 H9 H10 H11 H12]. destruct Htb as [[Hinv Hk _ Hf Hb] _ Hgas _ _].
  pose proof Hf as Hf'. unfold frame in Hf'. injection Hf' as _ _ _ _ Hcap Hmax Happ Hin Hmarks Hinc _ Hrev _ _ _.
  split; rewrite ?Hbal, ?Hb, ?Happ, ?Hin, ?Hmarks, ?Hinc, ?Hrev; try done.
  destruct H2 as [R1 R2 R3 R4]. split; rewrite ?Hgas, ?Hb, ?Hcap, ?Hmax; done.
Qed.

(** The revenue of an origin grows by a payment. *)
Lemma add_revenue_spec origin submitter paid revenues :
  submitter_address p submitter = Some origin →
  Forall (λ r, is_Some (revenue_origin r)) revenues → NoDup (revenue_origin <$> revenues) →
  ∃ revenues', add_revenue p origin submitter paid revenues = Some revenues' ∧
    Forall (λ r, is_Some (revenue_origin r)) revenues' ∧ NoDup (revenue_origin <$> revenues') ∧
    (∀ a, a ∈ revenue_origin <$> revenues' → a ∈ revenue_origin <$> revenues ∨ a = Some origin) ∧
    (Forall (λ r, 0 < rv_paid r) revenues → 0 < paid → sumZ (rv_paid <$> revenues) + paid < u256_modulus →
     Forall (λ r, 0 < rv_paid r) revenues' ∧ sumZ (rv_paid <$> revenues') = sumZ (rv_paid <$> revenues) + paid).
Proof.
  intros Hsub. induction revenues as [|r revenues IH]; cbn [add_revenue]; intros Hall Hnd.
  { eexists. split; [done|]. split_and!.
    - apply Forall_singleton. unfold revenue_origin. cbn. by rewrite Hsub.
    - apply NoDup_singleton.
    - intros a Ha. right. cbn in Ha. apply list_elem_of_singleton in Ha as ->. unfold revenue_origin. cbn. done.
    - intros _ Hp _. split; [by apply Forall_singleton|]. cbn. lia. }
  apply Forall_cons in Hall as [[a Ha] Hall]. rewrite fmap_cons, NoDup_cons in Hnd. destruct Hnd as [Hni Hnd].
  unfold revenue_origin in Ha. rewrite Ha. cbn [mbind option_bind]. destruct (a =? origin) eqn:Heq.
  - apply Z.eqb_eq in Heq. subst a. eexists. split; [done|]. split_and!.
    + constructor; [|done]. unfold revenue_origin. cbn. by rewrite Ha.
    + rewrite fmap_cons. by constructor.
    + intros b. rewrite !fmap_cons. auto.
    + intros Hpos Hp Hs. apply Forall_cons in Hpos as [Hr Hpos]. cbn [fmap list_fmap sumZ foldr] in Hs |- *.
      change (foldr Z.add 0) with sumZ in *. assert (0 ≤ sumZ (rv_paid <$> revenues)).
      { apply sumZ_nonneg. intros x (y & -> & Hy)%list_elem_of_fmap. rewrite Forall_forall in Hpos. specialize (Hpos y Hy). cbn in Hpos. lia. }
      cbn [rv_paid]. rewrite Z.mod_small by lia. split; [constructor; [cbn; lia|done]|lia].
  - apply Z.eqb_neq in Heq. destruct (IH Hall Hnd) as (rest & Hrest & Hall' & Hnd' & Hsub' & Hsum). rewrite Hrest. cbn [mbind option_bind].
    eexists. split; [done|]. split_and!.
    + constructor; [|done]. unfold revenue_origin. by rewrite Ha.
    + rewrite fmap_cons. constructor; [|done]. intros [?|Hx]%Hsub'; [done|]. unfold revenue_origin in Hx. congruence.
    + intros b. rewrite !fmap_cons. intros [->|Hb]%elem_of_cons; [left; by left|]. destruct (Hsub' b Hb); [left; by right|by right].
    + intros Hpos Hp Hs. apply Forall_cons in Hpos as [Hr Hpos]. cbn [fmap list_fmap sumZ foldr] in Hs |- *.
      change (foldr Z.add 0) with sumZ in *. destruct (Hsum Hpos Hp ltac:(lia)) as [H1 H2]. split; [by constructor|lia].
Qed.

Lemma order_known ix order :
  pl_orders p !! ix = Some order →
  ∃ txs origin, txs_of p (po_txs order) = Some txs ∧ Forall (λ tx, (tx < length (pl_txs p))%nat) txs ∧
    order_txs ix = Some txs ∧ submitter_address p (po_submitter order) = Some origin.
Proof.
  intros Ho. destruct (pf_orders _ Hpool ix order Ho) as ((txs & Htxs & Hin) & Hsub).
  destruct (lookup_lt_is_Some_2 _ _ Hsub) as [s Hs]. exists txs, (sb_address s). unfold order_txs, submitter_address.
  by rewrite Ho, Hs.
Qed.

Lemma kept_txs_elem kept l x : ∀ i, x ∈ kept_txs kept i l → x ∈ l.
Proof.
  induction l as [|y l IH]; intros i; cbn [kept_txs]; [done|]. destruct (Z.testbit _ _); [|by intros ?%IH; right].
  intros [->|?%IH]%elem_of_cons; [by left|by right].
Qed.

Lemma blobs_of_app l l' : blobs_of p (l ++ l') = blobs_of p l + blobs_of p l'.
Proof. unfold blobs_of. by rewrite fmap_app, sumZ_app. Qed.

(** The merger with an order entered. *)
Definition committed (ix : nat) (kept : u32) (taken : list nat) (words : list u64) (revenues : list Revenue) (m : BlockMerger) : BlockMerger :=
  m <| bm_appended_txs ::= (λ l, l ++ taken) |> <| bm_in_block := words |> <| bm_order_marks ::= insert ix MarkTaken |>
    <| bm_included_orders ::= (λ l, l ++ [(ix, kept)]) |> <| bm_revenues := revenues |>.

Section commit.
Context (ix : nat) (order : PoolOrder) (txs : list nat) (g g1 : Merging) (paid : U256) (kept : u32).
Hypothesis Hg : ext_inv base_txs b0 blobs0 g.
Hypothesis Hsize : sized g.
Hypothesis Ho : pl_orders p !! ix = Some order.
Hypothesis Htxs : txs_of p (po_txs order) = Some txs.
Hypothesis Hin : Forall (λ tx, (tx < length (pl_txs p))%nat) txs.
Hypothesis Hnt : not_taken g ix.
Hypothesis Hap : appended p order g g1 txs paid kept.
Hypothesis Hfresh : ∀ j tx, txs !! j = Some tx → Z.testbit (po_may_drop order) (Z.of_nat j) = false →
  bit_get (bm_in_block (mg_m g)) tx = Some false.

(** Nothing that may not be dropped was in the block. *)
Lemma fresh_entry l e l' :
  bm_included_orders (mg_m g) ++ [(ix, kept)] = l ++ e :: l' → entry_fresh (base_txs ++ (l ≫= entry_txs)) e.
Proof.
  destruct l' as [|e' l' _] using rev_ind.
  - intros [<- <-]%app_inj_tail o txs' j tx Ho' Htxs' Hj Hd. cbn in Ho'. assert (o = order ∧ txs' = txs) as [-> ->] by naive_solver.
    rewrite <- (ei_appended _ _ _ _ Hg), <- (ei_in_block _ _ _ _ Hg). by rewrite (Hfresh j tx Hj Hd).
  - rewrite app_comm_cons, app_assoc. intros [E _]%app_inj_tail. by apply (ei_fresh _ _ _ _ Hg l e l').
Qed.

Lemma ext_committed words revenues :
  (∀ tx, bit_get words tx = if decide (tx ∈ kept_txs kept 0 txs) then Some true else bit_get (bm_in_block (mg_m g)) tx) →
  Forall (λ r, is_Some (revenue_origin r)) revenues → NoDup (revenue_origin <$> revenues) →
  (Forall (λ r, 0 < rv_paid r) (bm_revenues (mg_m g)) → 0 < paid → sumZ (rv_paid <$> bm_revenues (mg_m g)) + paid < u256_modulus →
   Forall (λ r, 0 < rv_paid r) revenues ∧ sumZ (rv_paid <$> revenues) = sumZ (rv_paid <$> bm_revenues (mg_m g)) + paid) →
  ext_inv base_txs b0 blobs0 (mkMerging (committed ix kept (kept_txs kept 0 txs) words revenues (mg_m g1)) (mg_keys g1)).
Proof.
  intros Hw Hr1 Hr2 Hr3. pose proof Hap as [A1 A2 A3 A4 A5 A6 A7 A8 A9 [A10 A11]].
  pose proof A3 as A3'. unfold frame in A3'. injection A3' as _ _ Ecb _ _ _ Eapp Ein Emarks Einc _ Erev _ _ _.
  assert (ix ∉ (bm_included_orders (mg_m g)).*1) as Hni by (intros Hx%(ei_taken _ _ _ _ Hg); done).
  assert (entry_txs (ix, kept) = kept_txs kept 0 txs) as Hent by (unfold entry_txs, order_txs; cbn [fst snd]; rewrite Ho; cbn [mbind option_bind]; by rewrite Htxs).
  assert (ix < length (bm_order_marks (mg_m g)))%nat as Hix by (rewrite (proj1 Hsize); by eapply lookup_lt_Some).
  split.
  - destruct A1. by split.
  - destruct A4. by split.
  - change (NoDup (bm_included_orders (mg_m g1) ++ [(ix, kept)]).*1). rewrite Einc, fmap_app.
    apply NoDup_app. split_and!; [apply Hg| |apply NoDup_singleton]. by intros x Hx ->%list_elem_of_singleton.
  - change (Forall entry_ok (bm_included_orders (mg_m g1) ++ [(ix, kept)])). rewrite Einc. apply Forall_app.
    split; [apply Hg|]. apply Forall_singleton. by exists order, txs.
  - intros i. change (<[ix := MarkTaken]> (bm_order_marks (mg_m g1)) !! i = Some MarkTaken ↔ i ∈ (bm_included_orders (mg_m g1) ++ [(ix, kept)]).*1).
    rewrite Emarks, Einc, fmap_app, elem_of_app, <- (ei_taken _ _ _ _ Hg). cbn [fmap list_fmap fst]. rewrite list_elem_of_singleton.
    destruct (decide (i = ix)) as [->|Hne]; [rewrite list_lookup_insert_eq by done; naive_solver|].
    rewrite list_lookup_insert_ne by done. naive_solver.
  - change (bm_appended_txs (mg_m g1) ++ kept_txs kept 0 txs = (bm_included_orders (mg_m g1) ++ [(ix, kept)]) ≫= entry_txs).
    rewrite Eapp, Einc, bind_app, bind_cons, Hent, (ei_appended _ _ _ _ Hg). cbn. by rewrite app_nil_r.
  - intros tx. change (bit_get words tx = Some true ↔ tx ∈ base_txs ++ bm_appended_txs (mg_m g1) ++ kept_txs kept 0 txs).
    rewrite Hw, Eapp. pose proof (ei_in_block _ _ _ _ Hg tx) as Hb. case_decide; set_solver.
  - intros l e l'. change (bm_included_orders (mg_m g1) ++ [(ix, kept)] = l ++ e :: l' → entry_fresh (base_txs ++ (l ≫= entry_txs)) e).
    rewrite Einc. apply fresh_entry.
  - change (bm_blobs_used (mg_m g1) = blobs0 + blobs_of p (bm_appended_txs (mg_m g1) ++ kept_txs kept 0 txs)).
    rewrite Eapp, A6, blobs_of_app, (ei_blobs _ _ _ _ Hg). lia.
  - done.
  - change (b0 ≤ coinbase_balance g1). rewrite A11. pose proof (ei_balance _ _ _ _ Hg). lia.
  - intros Hb Hlt. change (coinbase_balance g1 < u256_modulus) in Hlt. rewrite A11 in Hlt.
    destruct (ei_revenue _ _ _ _ Hg Hb ltac:(lia)) as [Hp Hs]. destruct (Hr3 Hp A10) as [Hp' Hs']; [lia|]. split; [done|].
    change (sumZ (rv_paid <$> revenues) = coinbase_balance g1 - b0). lia.
Qed.

Lemma commit_order_spec :
  wp (commit_order ix order p paid kept)
    (λ _ g' _, ext_inv base_txs b0 blobs0 g' ∧ sized g' ∧
       limits_of (mg_m g') = limits_of (mg_m g) ∧
       bm_order_marks (mg_m g') = <[ix := MarkTaken]> (bm_order_marks (mg_m g))) g1.
Proof.
  pose proof (ap_frame _ _ _ _ _ _ _ Hap) as A3. unfold frame in A3. injection A3 as Ebase _ _ _ Ecap Emax Eapp Ein Emarks Einc _ Erev _ _ _.
  destruct (order_known ix order Ho) as (txs' & origin & _ & _ & _ & Hsub). destruct Hsize as [Hmarks Hwords].
  assert (Forall (λ i, (i < 64 * length (bm_in_block (mg_m g1)))%nat) (kept_txs kept 0 txs)) as Htaken.
  { apply Forall_forall. intros tx Htx%kept_txs_elem. rewrite Forall_forall in Hin. specialize (Hin tx Htx). rewrite Ein. lia. }
  destruct (set_bits_spec _ _ Htaken) as (words & Hwd & Hwl & Hwg).
  assert (ix < length (bm_order_marks (mg_m g)))%nat as Hix by (rewrite Hmarks; by eapply lookup_lt_Some).
  destruct (lookup_lt_is_Some_2 _ _ Hix) as [mark Hmark]. destruct (ei_origins _ _ _ _ Hg) as [Ho1 Ho2].
  destruct (add_revenue_spec origin (po_submitter order) paid _ Hsub Ho1 Ho2) as (revenues & Hrev & Hr1 & Hr2 & _ & Hr3).
  unfold commit_order. apply wp_bind, wp_get, wp_bind. eapply wp_unwrap; [exact Htxs|]. cbn zeta.
  apply wp_bind. eapply wp_unwrap; [exact Hwd|]. apply wp_bind. eapply wp_unwrap; [by rewrite Emarks|].
  apply wp_bind. eapply wp_unwrap; [exact Hsub|]. apply wp_bind. eapply wp_unwrap; [by rewrite Erev|]. apply wp_modify.
  split; [|split; [|split]].
  - apply (ext_committed words revenues); [|done..]. intros tx. by rewrite Hwg, Ein.
  - split; cbn; rewrite ?length_insert, ?Emarks, ?Hwl, ?Ein; done.
  - unfold limits_of. cbn. by rewrite Ebase, Ecap, Emax.
  - cbn. by rewrite Emarks.
Qed.
End commit.

(** ** Marks *)

Definition decided (g : Merging) (ix : nat) : Prop := ∃ mark, bm_order_marks (mg_m g) !! ix = Some mark ∧ mark ≠ MarkOpen.

(** A part of a round that decides on some of the orders [l]. *)
Record moved (l : list nat) (g g' : Merging) : Prop := mk_moved {
  mv_inv : ext_inv base_txs b0 blobs0 g';
  mv_sized : sized g';
  mv_limits : limits_of (mg_m g') = limits_of (mg_m g);
  mv_marks : ∀ ix, bm_order_marks (mg_m g') !! ix = bm_order_marks (mg_m g) !! ix ∨ ix ∈ l ∧ decided g' ix
}.

Lemma moved_base l g g' : moved l g g' → bm_base (mg_m g') = bm_base (mg_m g).
Proof. intros [_ _ H _]. unfold limits_of in H. by injection H. Qed.

Lemma moved_refl l g : ext_inv base_txs b0 blobs0 g → sized g → moved l g g.
Proof. intros Hg Hs. split; [done..|]. intros ix. by left. Qed.

Lemma moved_decided l g g' ix : moved l g g' → decided g ix → decided g' ix.
Proof. intros [_ _ _ H] (mark & Hm & Hne). destruct (H ix) as [E|[_ ?]]; [|done]. exists mark. by rewrite E. Qed.

Lemma moved_trans l l' g1 g2 g3 : moved l g1 g2 → moved l' g2 g3 → moved (l ++ l') g1 g3.
Proof.
  intros H12 H23. pose proof H12 as [_ _ B1 M1]. pose proof H23 as [I2 S2 B2 M2]. split; [done|done|congruence|].
  intros ix. destruct (M2 ix) as [E|[Hin Hd]]; [|right; split; [set_solver|done]].
  destruct (M1 ix) as [E'|[Hin Hd]]; [left; congruence|]. right. split; [set_solver|]. by eapply moved_decided.
Qed.

Lemma moved_weaken l l' g g' : l ⊆ l' → moved l g g' → moved l' g g'.
Proof. intros Hl [H1 H2 H3 H4]. split; [done..|]. intros ix. destruct (H4 ix) as [?|[? ?]]; [by left|right]. split; [set_solver|done]. Qed.

Lemma moved_not_taken l g g' ix : moved l g g' → ix ∉ l → not_taken g ix → not_taken g' ix.
Proof. intros [_ _ _ H] Hni. unfold not_taken. destruct (H ix) as [->|[? _]]; done. Qed.

Lemma taken_back_moved l g g' : ext_inv base_txs b0 blobs0 g → sized g → taken_back p g g' → moved l g g'.
Proof.
  intros Hg [Hs1 Hs2] Htb. pose proof (rn_frame _ _ _ (tb_ran _ _ _ Htb)) as Hf. unfold frame in Hf.
  injection Hf as Hb _ _ _ Hcap Hmax _ Hin Hmarks _ _ _ _ _ _. split; [by eapply ext_taken_back| |unfold limits_of; congruence|].
  - split; by rewrite ?Hmarks, ?Hin.
  - intros ix. left. by rewrite Hmarks.
Qed.

Lemma mark_unmerged_spec ix reason g :
  ext_inv base_txs b0 blobs0 g → sized g → (ix < length (pl_orders p))%nat → not_taken g ix →
  wp (mark_order_unmerged ix reason) (λ _ g' _, moved [ix] g g' ∧ decided g' ix) g.
Proof.
  intros Hg [Hs1 Hs2] Hix Hnt. unfold mark_order_unmerged. apply wp_bind, wp_get, wp_bind.
  rewrite <- Hs1 in Hix. destruct (lookup_lt_is_Some_2 _ _ Hix) as [mark Hm]. eapply wp_unwrap; [exact Hm|]. apply wp_modify.
  assert (decided (g <| mg_m ::= (λ m, m <| bm_order_marks ::= insert ix (MarkUnmerged reason) |>) |>) ix) as Hd.
  { exists (MarkUnmerged reason). split; [|done]. cbn. by apply list_lookup_insert_eq. }
  split; [|done]. split; [| |done|].
  - destruct Hg as [H1 H2 H3 H4 H5 H6 H7 H8 H9 H10 H11 H12]. split; try done; [by destruct H1|by destruct H2|].
    intros j. cbn. rewrite <- H5. destruct (decide (j = ix)) as [->|]; [|by rewrite list_lookup_insert_ne].
    rewrite list_lookup_insert_eq by done. split; [done|]. intros E. by destruct Hnt.
  - split; cbn; rewrite ?length_insert; done.
  - intros j. cbn. destruct (decide (j = ix)) as [->|]; [right; split; [by left|done]|]. left. by rewrite list_lookup_insert_ne.
Qed.

(** ** One order *)

Lemma try_order_spec ix order cx keep g :
  ext_inv base_txs b0 blobs0 g → sized g → pl_orders p !! ix = Some order →
  wp (try_order order p cx keep)
    (λ res g' _, match res with
                 | Err _ => taken_back p g g'
                 | Ok (paid, kept) =>
                     if keep then ∃ txs, txs_of p (po_txs order) = Some txs ∧ Forall (λ tx, (tx < length (pl_txs p))%nat) txs ∧
                       appended p order g g' txs paid kept ∧
                       ∀ j tx, txs !! j = Some tx → Z.testbit (po_may_drop order) (Z.of_nat j) = false → bit_get (bm_in_block (mg_m g)) tx = Some false
                     else taken_back p g g'
                 end) g.
Proof.
  intros Hg [_ Hw] Ho. destruct (order_known ix order Ho) as (txs & origin & Htxs & Hin & _ & _).
  unfold try_order. apply wp_bind. eapply wp_mono; [by apply (can_fit_spec p Hpool order g txs)|].
  cbn beta. intros res g1 _ [-> Hfit]. destruct res as [[]|reason].
  - eapply wp_mono; [apply (run_order_spec p Hpool empty_root gas_law order cx keep g txs); [apply Hg|apply Hg|done..]|].
    cbn beta. intros [[paid kept]|reason] g2 _ H; [|done]. destruct keep; [|by destruct H]. exists txs. split_and!; [done..|]. by apply Hfit.
  - apply wp_ret. split; [apply ran_refl, Hg|done..].
Qed.

Lemma append_order_spec ix order cx g :
  ext_inv base_txs b0 blobs0 g → sized g → pl_orders p !! ix = Some order → not_taken g ix →
  wp (append_order p cx ix order) (λ _ g' _, moved [ix] g g' ∧ decided g' ix) g.
Proof.
  intros Hg Hs Ho Hnt. unfold append_order. apply wp_bind. eapply wp_mono; [by apply (try_order_spec ix)|].
  cbn beta. intros [[paid kept]|reason] g1 _ Hres.
  - destruct Hres as (txs & Htxs & Hin & Hap & Hfresh).
    eapply wp_mono; [by apply (commit_order_spec ix order txs g g1 paid kept)|]. cbn beta. intros [] g2 _ (HI & HS & Hbase & Hmarks).
    assert (decided g2 ix) as Hd.
    { exists MarkTaken. split; [|done]. rewrite Hmarks. apply list_lookup_insert_eq. rewrite (proj1 Hs). by eapply lookup_lt_Some. }
    split; [|done]. split; [done..|]. intros j. rewrite Hmarks. destruct (decide (j = ix)) as [->|]; [right; split; [by left|done]|].
    left. by rewrite list_lookup_insert_ne.
  - pose proof (taken_back_moved [] g g1 Hg Hs Hres) as Hm.
    eapply wp_mono; [apply mark_unmerged_spec; [apply Hm|apply Hm|by eapply lookup_lt_Some|by apply (moved_not_taken [] g g1); [|apply not_elem_of_nil|]]|].
    cbn beta. intros [] g2 _ [Hm2 Hd]. split; [|done]. by apply (moved_trans [] [ix] g g1).
Qed.

(** ** Loops over orders *)

Lemma each_order_spec {A} (f : A → Mrg unit) (key : A → nat) (D : Prop) l : ∀ g,
  (∀ x g, x ∈ l → ext_inv base_txs b0 blobs0 g → sized g → not_taken g (key x) →
    wp (f x) (λ _ g' _, moved [key x] g g' ∧ (D → decided g' (key x))) g) →
  NoDup (key <$> l) → (∀ x, x ∈ l → not_taken g (key x)) → ext_inv base_txs b0 blobs0 g → sized g →
  wp (each_order f l) (λ _ g' _, moved (key <$> l) g g' ∧ (D → ∀ x, x ∈ l → decided g' (key x))) g.
Proof.
  induction l as [|x l IH]; intros g Hf Hnd Hnt Hg Hs; cbn [each_order].
  { apply wp_ret. split; [by apply moved_refl|]. by intros _ x ?%elem_of_nil. }
  rewrite fmap_cons, NoDup_cons in Hnd. destruct Hnd as [Hx Hnd]. apply wp_bind.
  eapply wp_mono; [apply Hf; [by left|done|done|apply Hnt; by left]|]. cbn beta. intros [] g1 _ [Hm1 Hd1].
  eapply wp_mono; [apply (IH g1); [|done| |apply Hm1|apply Hm1]|].
  - intros y g' Hy. apply Hf. by right.
  - intros y Hy. eapply moved_not_taken; [exact Hm1| |apply Hnt; by right].
    intros E%list_elem_of_singleton. apply Hx. rewrite <- E. by apply list_elem_of_fmap_2.
  - cbn beta. intros [] g2 _ [Hm2 Hd2]. split.
    + rewrite fmap_cons. by apply (moved_trans [key x] (key <$> l) g g1).
    + intros HD y [->|Hy]%elem_of_cons; [eapply moved_decided; [exact Hm2|by apply Hd1]|by apply Hd2].
Qed.

Lemma carry_order_spec cx ix g :
  (ix < length (pl_orders p))%nat → ext_inv base_txs b0 blobs0 g → sized g → not_taken g ix →
  wp (carry_order p cx ix) (λ _ g' _, moved [ix] g g' ∧ (False → decided g' ix)) g.
Proof.
  intros Hix Hg Hs Hnt. destruct (lookup_lt_is_Some_2 _ _ Hix) as [order Ho]. unfold carry_order. apply wp_bind.
  eapply wp_unwrap; [exact Ho|]. apply wp_bind, wp_get. destruct (_ || _); [apply wp_ret; split; [by apply moved_refl|done]|].
  eapply wp_mono; [by apply append_order_spec|]. cbn beta. intros [] g' _ [Hm _]. by split.
Qed.

(** A solo run leaves the block as it was; it decides on the order or ranks it. *)
Lemma solo_run_spec cx runs ix order g :
  ext_inv base_txs b0 blobs0 g → sized g → pl_orders p !! ix = Some order →
  wp (solo_run p cx runs (ix, order))
    (λ runs' g' _, moved [ix] g g' ∧ (runs' = runs ∨ not_taken g' ix ∧ ∃ paid, runs' = runs ++ [(ix, paid)]) ∧
       (decided g' ix ∨ ix ∈ runs'.*1 ∨ po_best_block order = ba_block (bm_base (mg_m g)))) g.
Proof.
  intros Hg Hs Ho. pose proof (lookup_lt_Some _ _ _ Ho) as Hix. rewrite <- (proj1 Hs) in Hix.
  destruct (lookup_lt_is_Some_2 _ _ Hix) as [mark Hm]. rewrite (proj1 Hs) in Hix. unfold solo_run. apply wp_bind, wp_get, wp_bind.
  eapply wp_unwrap; [exact Hm|]. destruct (_ || _) eqn:Hskip.
  { apply wp_ret. split; [by apply moved_refl|]. split; [by left|].
    apply orb_true_iff in Hskip as [->%bool_decide_eq_true|?%bool_decide_eq_true]; [left; by exists MarkTaken|by right; right]. }
  apply orb_false_iff in Hskip as [Hk%bool_decide_eq_false Hb]. assert (not_taken g ix) as Hnt by (unfold not_taken; rewrite Hm; congruence).
  destruct (po_withdrawn order).
  { apply wp_bind. eapply wp_mono; [by apply mark_unmerged_spec|]. cbn beta. intros [] g1 _ [Hm1 Hd]. apply wp_ret. split_and!; [done|by left|by left]. }
  apply wp_bind. eapply wp_mono; [by apply (try_order_spec ix)|]. cbn beta. intros [[paid kept]|reason] g1 _ Htb.
  - pose proof (taken_back_moved [ix] g g1 Hg Hs Htb) as Hm1. apply wp_ret. split; [done|]. split; [|right; left; rewrite fmap_app; apply elem_of_app; right; by left].
    right. split; [|by eexists]. apply (moved_not_taken [] g g1); [by apply taken_back_moved|apply not_elem_of_nil|done].
  - pose proof (taken_back_moved [] g g1 Hg Hs Htb) as Hm1. apply wp_bind.
    eapply wp_mono; [apply mark_unmerged_spec; [apply Hm1|apply Hm1|done|by apply (moved_not_taken [] g g1); [|apply not_elem_of_nil|]]|].
    cbn beta. intros [] g2 _ [Hm2 Hd]. apply wp_ret. split_and!; [by apply (moved_trans [] [ix] g g1)|by left|by left].
Qed.

Lemma solo_runs_spec cx l : ∀ runs g,
  ext_inv base_txs b0 blobs0 g → sized g → (∀ x, x ∈ l → pl_orders p !! x.1 = Some x.2) →
  NoDup (runs.*1 ++ l.*1) → (∀ ix, ix ∈ runs.*1 → not_taken g ix) →
  wp (solo_runs p cx runs l)
    (λ runs' g' _, moved l.*1 g g' ∧ runs `prefix_of` runs' ∧ NoDup runs'.*1 ∧ (∀ ix, ix ∈ runs'.*1 → not_taken g' ix) ∧
       (∀ ix, ix ∈ runs'.*1 → ix ∈ runs.*1 ∨ ix ∈ l.*1) ∧
       ∀ x, x ∈ l → decided g' x.1 ∨ x.1 ∈ runs'.*1 ∨ po_best_block x.2 = ba_block (bm_base (mg_m g))) g.
Proof.
  induction l as [|[ix order] l IH]; intros runs g Hg Hs Hl Hnd Hnt; cbn [solo_runs].
  { apply wp_ret. rewrite app_nil_r in Hnd. split_and!; [by apply moved_refl|done|done|done|by left|by intros x ?%elem_of_nil]. }
  apply wp_bind. eapply wp_mono; [apply (solo_run_spec cx runs ix order g Hg Hs), (Hl (ix, order)); by left|].
  cbn beta. intros runs1 g1 _ (Hm1 & Hruns & Hdec).
  rewrite fmap_cons in Hnd. cbn [fst] in Hnd. apply NoDup_app in Hnd as (Hn1 & Hn2 & Hn3). apply NoDup_cons in Hn3 as [Hn3 Hn4].
  assert (ix ∉ runs.*1) as Hixr by (intros Hx; apply (Hn2 ix Hx); by left).
  assert (runs `prefix_of` runs1 ∧ NoDup (runs1.*1 ++ l.*1) ∧ (∀ j, j ∈ runs1.*1 → not_taken g1 j) ∧
    ∀ j, j ∈ runs1.*1 → j ∈ runs.*1 ∨ j = ix) as (Hpre & Hnd1 & Hnt1 & Hsub).
  { assert (∀ j, j ∈ runs.*1 → not_taken g1 j) as Hold.
    { intros j Hj. eapply moved_not_taken; [exact Hm1| |by apply Hnt]. by intros ->%list_elem_of_singleton. }
    destruct Hruns as [->|(Hti & paid & ->)].
    - split_and!; [done| |done|by left]. apply NoDup_app. split_and!; [done| |done]. intros j Hj Hjl. apply (Hn2 j Hj). by right.
    - split_and!; [by eexists| | |].
      + rewrite fmap_app. cbn [fmap list_fmap fst]. rewrite <- app_assoc. apply NoDup_app. split_and!; [done| |by constructor].
        intros j Hj Hj'. apply (Hn2 j Hj). exact Hj'.
      + intros j. rewrite fmap_app, elem_of_app. intros [Hj| ->%list_elem_of_singleton]; [by apply Hold|done].
      + intros j. rewrite fmap_app, elem_of_app. intros [Hj| ->%list_elem_of_singleton]; [by left|by right]. }
  eapply wp_mono; [apply (IH runs1 g1); [apply Hm1|apply Hm1|intros x Hx; apply Hl; by right|done|done]|].
  cbn beta. intros runs2 g2 _ (Hm2 & Hpre2 & Hnd2 & Hnt2 & Hsub2 & Hdec2). split_and!; [|by etrans|done|done| |].
  - rewrite fmap_cons. by apply (moved_trans [ix] l.*1 g g1).
  - intros j [Hj|Hj]%Hsub2; [destruct (Hsub j Hj) as [?| ->]; [by left|right; by left]|right; by right].
  - intros x [->|Hx]%elem_of_cons; [|rewrite <- (moved_base _ _ _ Hm1); by apply Hdec2]. cbn [fst snd].
    destruct Hdec as [Hd|[Hd|Hd]]; [left; by eapply moved_decided|right; left|by right; right].
    destruct Hpre2 as [k ->]. rewrite fmap_app, elem_of_app. by left.
Qed.

(** ** A round *)

Lemma take_replicate_lookup {A} (l : list A) n x i :
  (length l ≤ n)%nat → (take n l ++ replicate (n - length l) x) !! i = if decide (i < length l)%nat then l !! i else if decide (i < n)%nat then Some x else None.
Proof.
  intros Hl. rewrite take_ge by done. case_decide as Hi; [by rewrite lookup_app_l|]. rewrite lookup_app_r by lia.
  case_decide; [apply lookup_replicate_2; lia|]. apply lookup_ge_None. rewrite length_replicate. lia.
Qed.

Lemma enumerate_keys_NoDup {A} (l : list A) : NoDup (enumerate l).*1.
Proof.
  assert (∀ k, (enumerate_from k l).*1 = seq k (length l)) as H; [|unfold enumerate; rewrite H; apply NoDup_seq].
  induction l as [|x l IH]; intros k; [done|]. cbn. by rewrite IH.
Qed.

Lemma words_for_enough n : (n ≤ 64 * words_for n)%nat.
Proof. unfold words_for. pose proof (Nat.div_mod_eq (n + 63) 64). pose proof (Nat.mod_upper_bound (n + 63) 64). lia. Qed.

Lemma resize_bit words n i : (length words ≤ n)%nat → bit_get (resize_words n words) i = Some true ↔ bit_get words i = Some true.
Proof.
  intros Hl. unfold bit_get, resize_words. rewrite take_replicate_lookup by done.
  destruct (decide (i `div` 64 < length words)%nat) as [|Hi]; [done|]. rewrite (lookup_ge_None_2 words) by lia.
  case_decide; cbn [mbind option_bind]; [rewrite Z.bits_0|]; done.
Qed.

(** The state [extend] starts from: the pool may have grown since. *)
Record extendable (g : Merging) : Prop := mk_extendable {
  xt_inv : ext_inv base_txs b0 blobs0 g;
  xt_marks : (length (bm_order_marks (mg_m g)) ≤ length (pl_orders p))%nat;
  xt_words : (length (bm_in_block (mg_m g)) ≤ words_for (length (pl_txs p)))%nat;
  xt_carried : NoDup (bm_carried_orders (mg_m g));
  xt_known : ∀ ix, ix ∈ bm_carried_orders (mg_m g) → (ix < length (pl_orders p))%nat ∧ not_taken g ix
}.

Definition resized (m : BlockMerger) : BlockMerger :=
  m <| bm_seen_version := pl_orders_version p |>
    <| bm_order_marks ::= (λ l, take (length (pl_orders p)) l ++ replicate (length (pl_orders p) - length l) MarkOpen) |>
    <| bm_in_block ::= resize_words (words_for (length (pl_txs p))) |> <| bm_carried_orders := [] |>.

Lemma resized_ok g :
  extendable g → ext_inv base_txs b0 blobs0 (g <| mg_m ::= resized |>) ∧ sized (g <| mg_m ::= resized |>) ∧
    ∀ ix, not_taken g ix → not_taken (g <| mg_m ::= resized |>) ix.
Proof.
  intros [Hg Hm Hw _ _].
  assert (∀ ix, bm_order_marks (resized (mg_m g)) !! ix = Some MarkTaken ↔ bm_order_marks (mg_m g) !! ix = Some MarkTaken) as Htk.
  { intros ix. cbn. rewrite take_replicate_lookup by done. case_decide; [done|].
    rewrite (lookup_ge_None_2 (bm_order_marks (mg_m g))) by lia. by case_decide. }
  split_and!.
  - destruct Hg as [H1 H2 H3 H4 H5 H6 H7 H8 H9 H10 H11 H12]. split; try done.
    + by destruct H1.
    + by destruct H2.
    + intros ix. rewrite <- H5. apply Htk.
    + intros tx. rewrite <- H7. cbn. by apply resize_bit.
  - split.
    + change (length (take (length (pl_orders p)) (bm_order_marks (mg_m g)) ++
        replicate (length (pl_orders p) - length (bm_order_marks (mg_m g))) MarkOpen) = length (pl_orders p)).
      rewrite length_app, length_take, length_replicate. lia.
    + change (length (pl_txs p) ≤ 64 * length (resize_words (words_for (length (pl_txs p))) (bm_in_block (mg_m g))))%nat.
      unfold resize_words. rewrite length_app, length_take, length_replicate. pose proof (words_for_enough (length (pl_txs p))). lia.
  - intros ix Hnt Ht. apply Hnt, Htk, Ht.
Qed.

(** [extend] decides on every order but those of the base block itself. *)
Lemma extend_spec cx g :
  extendable g →
  wp (extend p cx) (λ _ g' _, ext_inv base_txs b0 blobs0 g' ∧ sized g' ∧ limits_of (mg_m g') = limits_of (mg_m g) ∧
    ∀ ix o, pl_orders p !! ix = Some o → po_best_block o ≠ ba_block (bm_base (mg_m g)) → decided g' ix) g.
Proof.
  intros Hx. destruct (resized_ok g Hx) as (Hg & Hs & Hnt). destruct Hx as [_ _ _ Hc1 Hc2].
  unfold extend. apply wp_bind, wp_modify, wp_bind, wp_get. cbn zeta. apply wp_bind, wp_modify.
  set (g1 := g <| mg_m ::= resized |>) in *. apply wp_bind.
  eapply wp_mono; [apply (each_order_spec (carry_order p cx) id False (bm_carried_orders (mg_m g)) g1)|].
  { intros ix g' Hin. apply carry_order_spec. by apply Hc2. }
  { by rewrite list_fmap_id. }
  { intros ix Hin. by apply Hnt, Hc2. }
  { done. }
  { done. }
  cbn beta. intros [] g2 _ [Hm2 _].
  assert (bm_base (mg_m g2) = bm_base (mg_m g)) as Hb2 by (by rewrite (moved_base _ _ _ Hm2)).
  apply wp_bind. eapply wp_mono; [apply (solo_runs_spec cx (enumerate (pl_orders p)) [] g2); [apply Hm2|apply Hm2|..]|].
  { intros [ix o] Hin. by apply elem_of_enumerate in Hin. }
  { apply enumerate_keys_NoDup. }
  { by intros ix ?%elem_of_nil. }
  cbn beta. intros runs g3 _ (Hm3 & _ & Hnd & Hnt3 & Hsub & Hdec).
  assert (by_payment runs ≡ₚ runs) as Hperm by apply sort_by_perm.
  eapply wp_mono; [apply (each_order_spec _ fst True (by_payment runs) g3); [| | |apply Hm3|apply Hm3]|].
  { intros [ix paid] g' Hin Hg' Hs' Hnt'. cbn [fst] in *. rewrite Hperm in Hin.
    destruct (Hsub ix) as [?%elem_of_nil|Hix]; [by apply (list_elem_of_fmap_2 fst) in Hin|done|].
    apply list_elem_of_fmap in Hix as ([ix' o] & -> & Ho%elem_of_enumerate). cbn [fst]. apply wp_bind.
    eapply wp_unwrap; [exact Ho|]. eapply wp_mono; [by apply append_order_spec|]. cbn beta. intros [] g'' _ [Hm Hd]. by split. }
  { by rewrite Hperm. }
  { intros x Hin. apply Hnt3. rewrite Hperm in Hin. by apply list_elem_of_fmap_2. }
  cbn beta. intros [] g4 _ [Hm4 Hd4]. split_and!; [apply Hm4|apply Hm4| |].
  - by rewrite (mv_limits _ _ _ Hm4), (mv_limits _ _ _ Hm3), (mv_limits _ _ _ Hm2).
  - intros ix o Ho Hne. destruct (Hdec (ix, o)) as [Hd|[Hr|Hb]]; [by apply elem_of_enumerate|..]; cbn [fst snd] in *.
    + by eapply moved_decided.
    + apply list_elem_of_fmap in Hr as (x & -> & Hx). apply Hd4; [done|]. by rewrite Hperm.
    + by rewrite Hb2 in Hb.
Qed.
End round.
End rounds.
