(* ===== verification/MergeOpened.v ===== *)
(** * From a base block to its extension

    [BlockMerger::open_base] and [BlockMerger::extend] of
    [crates/builder/src/merge/block.rs] one after the other: a base block that was
    opened can be extended, and what is appended to it keeps to the rules of the
    orders and of the block. *)

From S2P Require Import Prelude Types Submission Rlp MergeTrie MergeOrders MergeWire MergePool MergeEngine MergeState MergeEffects MergePayment MergeBlock MergeExtend MergeRounds.

Section opened.
Context `{DB : StateDb} `{HO : HashOrder} `{EV : MergeEvm}.
Context (p : Pool).
Hypothesis Hpool : pool_fit p.
Hypothesis empty_root : EMPTY_TRIE_ROOT ≠ 0.
Hypothesis gas_law : ∀ base tx k s used used' x,
  execute_tx base tx k s used = (used', Some x) → 0 ≤ xe_gas_spent x ≤ ti_gas_limit (px_info tx) ∧ used' = uadd used (xe_gas_spent x).

(** The orders of the last block are orders of the pool, once each. *)
Definition included_ok (m : BlockMerger) : Prop :=
  NoDup (bm_included_orders m).*1 ∧ ∀ ix, ix ∈ (bm_included_orders m).*1 → (ix < length (pl_orders p))%nat.

(** A merger between blocks. *)
Record merger_wf (g : Merging) : Prop := mk_merger_wf {
  wf_keys : keys_ok (mg_keys g);
  wf_state : block_state_ok (mg_keys g) (bm_state (mg_m g));
  wf_effects : effects_ok (bm_effects (mg_m g));
  wf_gas : ∀ i e, ec_entries (bm_effects (mg_m g)) !! i = Some e →
    ∃ tx, pl_txs p !! ef_tx e = Some tx ∧ 0 ≤ ef_gas e ≤ ti_gas_limit (px_info tx);
  wf_known : cache_known (mg_keys g) (bm_effects (mg_m g));
  wf_included : included_ok (mg_m g)
}.

(** A block of the pool with a well-formed header. *)
Record base_fit (base : BaseBlock) (txs : list nat) : Prop := mk_base_fit {
  bf_txs : txs_of p (ba_txs base) = Some txs;
  bf_known : Forall (λ tx, (tx < length (pl_txs p))%nat) txs;
  bf_value : is_Some (pl_block_values p !! ba_block base);
  bf_gas : 0 ≤ ep_gas_used (ba_payload base) ∧ ep_gas_limit (ba_payload base) < u64_modulus
}.

Lemma wf_run g : merger_wf g → (bm_coinbase_id (mg_m g) < length (kt_accounts (mg_keys g)))%nat → run_inv p g.
Proof. intros [H1 H2 H3 H4 H5 _] Hc. by split. Qed.

Lemma run_wf g m : run_inv p g → included_ok m → bm_included_orders (mg_m g) = bm_included_orders m → merger_wf g.
Proof. intros [H1 H2 H3 H4 H5 _] Hi E. split; try done. unfold included_ok. by rewrite E. Qed.

Lemma state_reset_ok k s : block_state_ok k s → block_state_ok k (state_reset s).
Proof.
  intros [H1 H2 _ _]. split; cbn; [by apply table_wf_reset..|by split; constructor|by split; constructor].
Qed.

(** ** The checks *)

Lemma uadd_sum_range l : 0 ≤ foldl uadd 0 l < u64_modulus.
Proof.
  assert (∀ acc, 0 ≤ acc < u64_modulus → 0 ≤ foldl uadd acc l < u64_modulus) as H.
  { induction l as [|x l IH]; intros acc Ha; cbn; [done|]. apply IH. unfold uadd. by apply Z.mod_pos_bound. }
  by apply H.
Qed.

Lemma check_base_spec base cx txs g :
  base_fit base txs →
  wp (check_base base p cx)
    (λ r g' _, g' = g ∧ match r with
       | Ok (_, max_blobs, blobs) => max_blobs = fork_max_blobs (ep_timestamp (ba_payload base)) ∧ 0 ≤ blobs ≤ max_blobs ∧
           rc_distribution_gas_limit (sx_relay cx) < sat_sub (ep_gas_limit (ba_payload base)) (ep_gas_used (ba_payload base))
       | Err _ => True
       end) g.
Proof.
  intros [Htxs Hin _ _]. unfold check_base.
  destruct (collateral_safe _ _) as [safe|]; [|by apply wp_ret]. case_bool_decide; [by apply wp_ret|].
  destruct (Z.leb_spec (sat_sub (ep_gas_limit (ba_payload base)) (ep_gas_used (ba_payload base))) (rc_distribution_gas_limit (sx_relay cx)));
    [by apply wp_ret|]. destruct (is_amsterdam_activated _); [by apply wp_ret|]. cbn zeta.
  apply wp_bind. eapply wp_unwrap; [exact Htxs|]. apply wp_bind.
  assert (is_Some (mapM (tx_fit p) txs)) as [fit Hfit].
  { apply mapM_is_Some. eapply Forall_impl; [exact Hin|]. intros tx Htx. destruct (tx_fit_Some p Hpool tx Htx) as (t & _ & E & _). by eexists. }
  eapply wp_unwrap; [exact Hfit|]. pose proof (uadd_sum_range (snd <$> fit)).
  destruct (Z.ltb_spec (fork_max_blobs (ep_timestamp (ba_payload base))) (foldl uadd 0 (snd <$> fit))); [by apply wp_ret|].
  repeat (case_match; [by apply wp_ret|]). apply wp_ret. split_and!; [done..|lia|lia|lia].
Qed.

Lemma intern_spec a g :
  merger_wf g →
  wp (intern a) (λ r g' _, merger_wf g' ∧ mg_m g' = mg_m g ∧ keys_ext (mg_keys g) (mg_keys g') ∧
    ∀ id, r = Ok id → (id < length (kt_accounts (mg_keys g')))%nat) g.
Proof.
  intros [H1 H2 H3 H4 H5 H6]. unfold intern. apply wp_bind, wp_get. destruct (intern_account a (mg_keys g)) as [r k] eqn:Hi.
  destruct (intern_account_ok _ _ _ _ H1 Hi) as (Hk & He & Hid). apply wp_bind, wp_modify, wp_ret. split; [|split; [done|split; [done|]]].
  - split; cbn; try done; [by eapply block_state_ok_ext|by eapply cache_known_ext].
  - intros id. destruct r as [id'|e]; [|done]. intros [= ->]. cbn. eapply known_account; [done|]. by apply Hid.
Qed.

(** ** The transactions of the block *)

Lemma run_base_txs_spec cx proposer txs : ∀ paid g,
  run_inv p g → Forall (λ tx, (tx < length (pl_txs p))%nat) txs →
  wp (run_base_txs p cx proposer txs paid) (λ _ g' _, run_inv p g' ∧ frame (mg_m g') = frame (mg_m g)) g.
Proof.
  induction txs as [|ix txs IH]; intros paid g Hg Hin; cbn [run_base_txs]; [by apply wp_ret|].
  apply Forall_cons in Hin as [Hix Hin]. destruct (tx_fit_Some p Hpool ix Hix) as (tx & Htx & Hfit & _).
  apply wp_bind. eapply wp_unwrap; [exact Htx|]. apply wp_bind. eapply wp_unwrap; [exact Hfit|]. apply wp_bind, wp_get. cbn zeta.
  destruct (blacklisted_by cx _); [by apply wp_ret|]. destruct (_ <? _); [by apply wp_ret|].
  apply wp_bind. eapply wp_mono; [by apply (apply_tx_spec p empty_root gas_law)|]. cbn beta.
  intros r g1 _ [[Hg1 _ _ Hf1 _] _]. destruct r as [gas|]; [|by apply wp_ret]. apply wp_bind, wp_get.
  destruct (blacklisted_by cx _); [by apply wp_ret|]. apply wp_bind, wp_modify.
  eapply wp_mono; [apply IH; [|done]|].
  - destruct Hg1 as [H1 H2 H3 H4 H5 H6]. split; cbn; try done. by apply clear_undo_ok.
  - cbn beta. intros r g2 _ [Hg2 Hf2]. split; [done|]. rewrite Hf2. exact Hf1.
Qed.

(** ** Opening *)

Lemma reset_for_wf g env m :
  merger_wf g → (bm_coinbase_id (mg_m g) < length (kt_accounts (mg_keys g)))%nat →
  bm_state m = clear_undo (bm_state (mg_m g)) → bm_effects m = reset_for env (bm_effects (mg_m g)) →
  bm_coinbase_id m = bm_coinbase_id (mg_m g) → run_inv p (mkMerging m (mg_keys g)).
Proof.
  intros [H1 H2 H3 H4 H5 _] Hc Es Ee Ec. split; cbn; rewrite ?Es, ?Ee, ?Ec; try done.
  - by apply clear_undo_ok.
  - by apply reset_for_ok.
  - unfold reset_for. case_decide; [done|]. by intros i e.
  - unfold reset_for. case_decide; [done|]. split_and!; constructor.
Qed.

(** What an opened block is. *)
Record opened (base : BaseBlock) (cx : SlotCtx) (txs : list nat) (g : Merging) : Prop := mk_opened {
  op_base : bm_base (mg_m g) = base;
  op_live : bm_live (mg_m g) = true;
  op_gas : bm_gas_used (mg_m g) = ep_gas_used (ba_payload base);
  op_cap : bm_order_gas_cap (mg_m g) = ep_gas_limit (ba_payload base) - rc_distribution_gas_limit (sx_relay cx);
  op_max : bm_max_blobs (mg_m g) = fork_max_blobs (ep_timestamp (ba_payload base));
  op_ready : extendable p txs (coinbase_balance g) (bm_blobs_used (mg_m g)) g;
  op_fresh : bm_appended_txs (mg_m g) = [] ∧ bm_included_orders (mg_m g) = [] ∧ bm_revenues (mg_m g) = []
}.

Lemma zero_bits n i : bit_get (replicate n 0) i ≠ Some true.
Proof.
  unfold bit_get. destruct (replicate n 0 !! (i `div` 64)%nat) as [w|] eqn:Hw; [|done]. apply lookup_replicate in Hw as [-> _].
  cbn [mbind option_bind]. by rewrite Z.bits_0.
Qed.

Lemma open_done_spec base cx txs safe max_blobs blobs g :
  0 ≤ rc_distribution_gas_limit (sx_relay cx) → base_fit base txs → run_inv p g → included_ok (mg_m g) →
  bm_base (mg_m g) = base → bm_gas_used (mg_m g) = ep_gas_used (ba_payload base) →
  max_blobs = fork_max_blobs (ep_timestamp (ba_payload base)) → 0 ≤ blobs ≤ max_blobs → max_blobs < u64_modulus →
  rc_distribution_gas_limit (sx_relay cx) < sat_sub (ep_gas_limit (ba_payload base)) (ep_gas_used (ba_payload base)) →
  wp (open_done p cx base txs safe max_blobs blobs) (λ _ g' _, opened base cx txs g') g.
Proof.
  intros Hres [_ Hin _ [Hg1 Hg2]] Hrun [Hi1 Hi2] Hbase Hgas Hmax Hb1 Hb2 Hspace. unfold sat_sub in Hspace. unfold open_done. apply wp_bind.
  set (n := words_for (length (pl_txs p))).
  assert (Forall (λ i, (i < 64 * length (replicate n (0 : u64)))%nat) txs) as Hlt.
  { rewrite length_replicate. eapply Forall_impl; [exact Hin|]. intros i Hi. cbn beta in *. pose proof (words_for_enough (length (pl_txs p))). fold n in H. lia. }
  destruct (set_bits_spec _ _ Hlt) as (words & Hw & Hwl & Hwg). eapply wp_unwrap; [exact Hw|]. apply wp_modify.
  assert (usub (ep_gas_limit (ba_payload (bm_base (mg_m g)))) (rc_distribution_gas_limit (sx_relay cx)) =
    ep_gas_limit (ba_payload base) - rc_distribution_gas_limit (sx_relay cx)) as Hcap.
  { rewrite Hbase. unfold usub. apply Z.mod_small. lia. }
  split; try done. split.
  - split; try done.
    + by destruct Hrun.
    + split; cbn; rewrite ?Hcap, ?Hgas; lia.
    + constructor.
    + intros ix. by rewrite elem_of_nil.
    + intros tx. cbn. rewrite Hwg, app_nil_r. case_decide; [done|]. split; [by intros ?%zero_bits|done].
    + intros l e l' E. by destruct l.
    + cbn. lia.
    + split; [constructor|apply NoDup_nil_2].
    + intros _ _. split; [constructor|]. cbn. lia.
  - cbn. lia.
  - cbn. rewrite Hwl, length_replicate. done.
  - done.
  - intros ix Hix. split; [by apply Hi2|done].
Qed.

(** The block is executed: system calls, then its transactions. *)
Lemma open_base_spec base cx txs g :
  merger_wf g → base_fit base txs → 0 ≤ rc_distribution_gas_limit (sx_relay cx) →
  fork_max_blobs (ep_timestamp (ba_payload base)) < u64_modulus →
  wp (open_base base p cx) (λ r g' _, match r with Ok _ => opened base cx txs g' | Err _ => merger_wf g' end) g.
Proof.
  intros Hg Hfit Hres Hfork. pose proof Hfit as [Htxs Hin [value Hvalue] _]. unfold open_base. apply wp_bind.
  eapply wp_mono; [by apply (check_base_spec base cx txs)|]. cbn beta. intros r g' _ [-> Hr].
  destruct r as [[[safe max_blobs] blobs]|e]; [|by apply wp_ret]. destruct Hr as (Hmax & Hblobs & Hspace).
  apply wp_bind, wp_modify. set (g1 := g <| mg_m ::= _ |>).
  assert (merger_wf g1) as Hg1 by (destruct Hg as [H1 H2 H3 H4 H5 H6]; split; try done; by apply state_reset_ok).
  apply wp_bind. eapply wp_mono; [by apply intern_spec|]. cbn beta. intros r g2 _ (Hg2 & Em2 & He2 & Hid2).
  destruct r as [cb|e]; [|by apply wp_ret]. specialize (Hid2 cb eq_refl). apply wp_bind, wp_modify. set (g3 := g2 <| mg_m ::= _ |>).
  assert (merger_wf g3) as Hg3 by (destruct Hg2 as [H1 H2 H3 H4 H5 H6]; by split).
  apply wp_bind. eapply wp_mono; [by apply intern_spec|]. cbn beta. intros r g4 _ (Hg4 & Em4 & He4 & _).
  destruct r as [proposer|e]; [|by apply wp_ret]. apply wp_bind, wp_get.
  destruct (apply_system_calls base (mg_keys g4) (bm_state (mg_m g4))) as [[run codes]|]; [|by apply wp_ret].
  destruct (absorb_run codes run (mg_keys g4) (bm_state (mg_m g4))) as [[folded k] s] eqn:Hab.
  destruct (absorb_run_ok empty_root codes run _ _ _ _ _ (wf_keys _ Hg4) (wf_state _ Hg4) Hab) as [[Hk Hke Hs _ _] _].
  apply wp_bind, wp_modify. set (g5 := g4 <| mg_keys := k |> <| mg_m ::= _ |>).
  assert (merger_wf g5) as Hg5 by (destruct Hg4 as [H1 H2 H3 H4 H5 H6]; split; try done; by eapply cache_known_ext).
  destruct folded as [[]|e]; [|by apply wp_ret]. apply wp_bind, wp_modify. apply wp_bind. eapply wp_unwrap; [exact Htxs|].
  assert (bm_coinbase_id (mg_m g5) < length (kt_accounts (mg_keys g5)))%nat as Hcb.
  { change (bm_coinbase_id (mg_m g4) < length (kt_accounts k))%nat. rewrite Em4. change (cb < length (kt_accounts k))%nat.
    pose proof (prefix_length _ _ (ke_accounts _ _ He4)). pose proof (prefix_length _ _ (ke_accounts _ _ Hke)).
    change (mg_keys g3) with (mg_keys g2) in *. lia. }
  assert (bm_base (mg_m g5) = base ∧ bm_included_orders (mg_m g5) = bm_included_orders (mg_m g)) as [Hb5 Hi5].
  { change (mg_m g5) with ((mg_m g4) <| bm_state := s |>). rewrite Em4. unfold g3. cbn. by rewrite Em2. }
  apply wp_bind. eapply wp_mono; [apply run_base_txs_spec; [|done]|].
  { apply (reset_for_wf g5 (ep_fee_recipient (ba_payload base), ep_gas_limit (ba_payload base), ep_timestamp (ba_payload base), ep_prev_randao (ba_payload base))); done. }
  cbn beta. intros r g6 _ [Hg6 Hf6]. unfold frame in Hf6. injection Hf6 as Hb6 _ _ _ _ _ _ _ _ Hi6 _ _ _ _ _.
  assert (merger_wf g6) as Hwf6 by (eapply (run_wf g6 (mg_m g)); [done|apply Hg|by rewrite Hi6, <- Hi5]).
  destruct r as [paid_before|e]; [|by apply wp_ret]. apply wp_bind, wp_get. cbn zeta.
  destruct (Z.eqb_spec (bm_gas_used (mg_m g6)) (ep_gas_used (ba_payload base))) as [Hgas|]; cbn [negb]; [|by apply wp_ret].
  apply wp_bind. eapply wp_unwrap; [exact Hvalue|]. destruct (_ <? value); [by apply wp_ret|]. apply wp_bind.
  eapply wp_mono; [apply open_done_spec; try done; [apply Hwf6|by rewrite Hb6, <- Hb5|by subst max_blobs]|].
  cbn beta. intros [] g7 _ Hop. by apply wp_ret.
Qed.

End opened.

(** ** The pool and the bases of the engine

    They are as the theorem asks, where gas limits and blob counts are the machine
    integers the decoder makes. *)
Section engine.
Context {KE : Keccak} {CT : CanonicalTx}.
Hypothesis decoded_limits : ∀ b i, decode_canonical b = Ok i → 0 ≤ ti_gas_limit i < u64_modulus ∧ 0 ≤ ti_blobs i < u64_modulus.

Lemma pool_inv_fit max_blocks max_orders log p : pool_inv max_blocks max_orders log p → pool_fit p.
Proof.
  intros HI. pose proof (pi_table _ _ _ _ HI) as [Htx _ Hfit]. pose proof (pi_orders _ _ _ _ HI) as HO. split; [done| |].
  - eapply Forall_impl; [exact Htx|]. intros tx (_ & _ & Hd). by eapply decoded_limits.
  - intros i o Ho. destruct (lookup_lt_is_Some_2 (pl_order_ids p) i) as [id Hid].
    { rewrite <- (oi_length _ _ _ _ HO). by eapply lookup_lt_Some. }
    destruct (oi_terms _ _ _ _ HO i id o Hid Ho) as ((ixs & txs & _ & Hs & Hm & _) & (sub & _ & Hsub) & _).
    split; [|by eapply lookup_lt_Some]. exists ixs. split; [exact Hs|]. apply mapM_Some in Hm.
    apply Forall_forall. intros ix [j Hj]%list_elem_of_lookup. destruct (Forall2_lookup_l _ _ _ _ _ Hm Hj) as (tx & _ & Htx').
    by eapply lookup_lt_Some.
Qed.

Lemma base_ok_fit log p coinbase base :
  base_ok log p coinbase base → 0 ≤ ep_gas_used (ba_payload base) → ep_gas_limit (ba_payload base) < u64_modulus →
  ∃ txs, base_fit p base txs.
Proof.
  intros (m & _ & (_ & _ & Hv & _) & _ & _ & ixs & Hs & Hpts) Hg Hl. exists ixs. split; [exact Hs| |by eexists|done].
  apply Forall_forall. intros ix [j Hj]%list_elem_of_lookup. destruct (Forall2_lookup_l _ _ _ _ _ Hpts Hj) as (b & _ & tx & Htx & _).
  by eapply lookup_lt_Some.
Qed.
End engine.

(** ** A concrete block

    Each transaction pays an amount to an address. The base block pays 50 to the
    proposer 5; of the orders, one has two transactions for the coinbase 9, one
    repeats the second of them and one pays another address. *)

Local Existing Instance ex_db.
Local Existing Instance list_order.

Definition pay_to (tx : Tx) : Address := default 0 (px_encoded tx !! 0%nat).
Definition pay_amount (tx : Tx) : U256 := default 0 (px_encoded tx !! 1%nat).
Definition paying_run (tx : Tx) (k : KeyTable) (s : BlockState) : list RunAccount :=
  match seen_account k s (pay_to tx) with
  | Some a => [mkRunAccount (pay_to tx) true false (mkAccount (ac_balance a + pay_amount tx) (ac_nonce a) (ac_code_hash a) (ac_has_storage a))
                 [] (Some (a, ∅))]
  | None => []
  end.
Definition paying_evm : MergeEvm := {|
  tx_call tx := Some (pay_to tx);
  execute_tx _ tx k s used :=
    if 21000 <=? ti_gas_limit (px_info tx)
    then (uadd used 21000, Some (mkExecution 21000 (mkReceipt false true [192]) (paying_run tx k s) ∅ (mkTxReads ∅ ∅ ∅ [])))
    else (used, None);
  apply_system_calls _ _ _ := Some ([], ∅);
  is_amsterdam_activated _ := false;
  fork_max_blobs _ := 6;
  parent_number := 6;
  calc_gas_limit l := l;
  calculate_base_fee _ := Some 1;
  calc_excess_blob_gas _ := 0
|}.
Local Existing Instance paying_evm.

Definition paying_tx (hash to amount : Z) : Tx := mkTx (mkTxInfo 3 30000 0) hash [to; amount].
Definition paying_txs : list Tx := [paying_tx 10 5 50; paying_tx 11 9 4; paying_tx 12 9 6; paying_tx 13 4 1].
Definition paying_pool : Pool :=
  mkPool paying_txs ((λ tx, (ti_gas_limit (px_info tx), ti_blobs (px_info tx))) <$> paying_txs) ∅ [0; 1; 2; 2; 3]%nat
    [mkPoolOrder (mkRange 3 1) 0 0 1 0 false; mkPoolOrder (mkRange 4 1) 0 0 1 0 false; mkPoolOrder (mkRange 1 2) 0 0 1 0 false] [] ∅
    [mkSubmitter 1 61] ∅ [50; 20] [] [] 3.
Definition paying_base : BaseBlock :=
  mkBaseBlock 1010 0 0 0 (mkExecutionPayload 100 9 0 0 0 77 7 200000 21000 12345 [] 1 1010 [] [] 0 0) (mkRange 0 1).
Definition paying_cx : SlotCtx :=
  mkSlotCtx (mkRelayConfigV1 71 72 500 1500 8000 50000 [MergeWire.mkBuilderCollateral 9 90]) 32 5 (Some {[66]}) 91 1.
Definition paying_merger : Merging :=
  mkMerging (mkBlockMerger paying_base false state_new 0 0 0 0 0 0 [] [] [] [] [] effects_new [] [] [] 0 0 0) keys_new.

Lemma paying_pool_fit : pool_fit paying_pool.
Proof.
  split; [done|repeat constructor; cbn; lia|].
  intros [|[|[|i]]] o [= <-]; (split; [|cbn; lia]); eexists; (split; [reflexivity|repeat constructor; cbn; lia]).
Qed.

Lemma paying_gas_law base tx k s used used' x :
  execute_tx base tx k s used = (used', Some x) → 0 ≤ xe_gas_spent x ≤ ti_gas_limit (px_info tx) ∧ used' = uadd used (xe_gas_spent x).
Proof.
  cbn [execute_tx paying_evm]. destruct (Z.leb_spec 21000 (ti_gas_limit (px_info tx))); [|done]. intros [= <- <-]. cbn [xe_gas_spent]. split; [lia|done].
Qed.

Lemma paying_merger_wf : merger_wf paying_pool paying_merger.
Proof.
  split; [apply keys_new_ok|apply state_new_ok|apply effects_new_ok|by intros i e| |].
  - split_and!; constructor.
  - split; [apply NoDup_nil_2|]. by intros ix ?%elem_of_nil.
Qed.

Lemma paying_base_fit : base_fit paying_pool paying_base [0%nat].
Proof. split; [done|apply Forall_singleton; cbn; lia|by eexists|by split]. Qed.

