(* ===== verification/BidSorter.v ===== *)
(** * The bid sorter

    [relay/src/auctioneer/bid_sorter.rs]: the latest bid of every builder on
    every fork of the slot and the best of them, which is the bid served. *)

From S2P Require Import Prelude Types Submission.

Record Bid := mkBid {
  bid_version : SubmissionVersion;
  bid_value : U256;
  bid_slot : u64;
  bid_block_hash : B256;
  bid_builder_pubkey : Pubkey;
  bid_block_number : u64;
  bid_parent_hash : B256;
  bid_parent_root : B256;
  bid_fee_recipient : Address
}.

(** [Bid::new]: the bid of a full submission. *)
Definition bid_new (version : SubmissionVersion) (submission : SignedBidSubmission)
    (parent_root : B256) : Bid :=
  let trace := signed_bid_trace submission in {|
  bid_version := version;
  bid_value := bt_value trace;
  bid_slot := bt_slot trace;
  bid_block_hash := bt_block_hash trace;
  bid_builder_pubkey := bt_builder_pubkey trace;
  bid_block_number := signed_block_number submission;
  bid_parent_hash := bt_parent_hash trace;
  bid_parent_root := parent_root;
  bid_fee_recipient := signed_fee_recipient submission
|}.

Record TopBidUpdate := mkTopBidUpdate {
  tbu_timestamp : u64;
  tbu_slot : u64;
  tbu_block_number : u64;
  tbu_block_hash : B256;
  tbu_parent_hash : B256;
  tbu_builder_pubkey : Pubkey;
  tbu_fee_recipient : Address;
  tbu_value : U256
}.

(** The time spent sorting ([subs_process_time]) feeds a log line only and is
    left out. *)
Record BidSorterTelemetry := mkBidSorterTelemetry {
  bst_subs : u32;
  bst_stale_subs : u32
}.
#[export] Instance eta_BidSorterTelemetry : Eta BidSorterTelemetry :=
  λ r, mkBidSorterTelemetry (bst_subs r) (bst_stale_subs r).

Definition telemetry_default : BidSorterTelemetry := mkBidSorterTelemetry 0 0.

Record ForkState := mkForkState {
  fs_bids : gmap Pubkey Bid;
  fs_curr_bid : option Bid;
  fs_subs : u32;
  fs_top_bids : u32
}.
#[export] Instance eta_ForkState : Eta ForkState :=
  λ r, mkForkState (fs_bids r) (fs_curr_bid r) (fs_subs r) (fs_top_bids r).

Definition fork_default : ForkState := mkForkState ∅ None 0 0.

Record BidSorter := mkBidSorter {
  bs_curr_bid_slot : u64;
  bs_forks : gmap ForkKey ForkState;
  bs_demotions : gset Pubkey;
  bs_local_telemetry : BidSorterTelemetry
}.
#[export] Instance eta_BidSorter : Eta BidSorter :=
  λ r, mkBidSorter (bs_curr_bid_slot r) (bs_forks r) (bs_demotions r) (bs_local_telemetry r).

Definition new : BidSorter := mkBidSorter 0 ∅ ∅ telemetry_default.

(** What [report] logs at the end of a slot. *)
Record SlotStats := mkSlotStats {
  st_bid_slot : u64;
  st_valid_subs : u32;
  st_accepted_subs : u32;
  st_stale_subs : u32
}.

Definition bid_fork (b : Bid) : ForkKey := mkForkKey (bid_parent_hash b) (bid_parent_root b).

(** [state.bids.entry(new_bid.builder_pubkey)] is occupied by a version at
    least as new. *)
Definition is_stale (bids : gmap Pubkey Bid) (b : Bid) : bool :=
  match bids !! bid_builder_pubkey b with
  | Some entry => version_ge (bid_version entry) (bid_version b)
  | None => false
  end.

Section sorter.
Context `{HO : HashOrder}.

Definition best_bid (st : ForkState) : option Bid :=
  reduce (λ best bid, if bid_value best <? bid_value bid then bid else best)
    (hash_values (fs_bids st)).

(** The message [update_top_bid] produces. *)
Definition top_bid_update (now_ns : u64) (bid : Bid) : TopBidUpdate := {|
  tbu_timestamp := now_ns;
  tbu_slot := bid_slot bid;
  tbu_block_number := bid_block_number bid;
  tbu_block_hash := bid_block_hash bid;
  tbu_parent_hash := bid_parent_hash bid;
  tbu_builder_pubkey := bid_builder_pubkey bid;
  tbu_fee_recipient := bid_fee_recipient bid;
  tbu_value := bid_value bid
|}.

(** [now_ns] is the reading of the clock; the submission's trace and the
    [is_optimistic] flag only select latency metrics. *)
Definition update_top_bid (now_ns : u64) (bid : Bid) : Comp ForkState TopBidUpdate unit :=
  emit [top_bid_update now_ns bid];;
  modify (λ st, st <| fs_curr_bid := Some bid |>);;
  modify (λ st, st <| fs_top_bids ::= inc32 |>).

Definition traverse_update_top_bid (now_ns : u64) : Comp ForkState TopBidUpdate unit :=
  best ← gets best_bid;
  match best with
  | Some b => update_top_bid now_ns b
  | None => modify (λ st, st <| fs_curr_bid := None |>)
  end.

(** The part of [process_bid] after the entry has been written: [state.subs]
    and the comparison with the current best bid. *)
Definition compare_with_top (now_ns : u64) (new_bid : Bid) : Comp ForkState TopBidUpdate bool :=
  modify (λ st, st <| fs_subs ::= inc32 |>);;
  curr ← gets fs_curr_bid;
  match curr with
  | Some curr_bid =>
      if bid_value curr_bid <? bid_value new_bid then
        update_top_bid now_ns new_bid;; mret true
      else if bid_builder_pubkey new_bid =? bid_builder_pubkey curr_bid then
        traverse_update_top_bid now_ns;;
        gets (λ st, match fs_curr_bid st with
                    | Some b => bid_block_hash b =? bid_block_hash new_bid
                    | None => false
                    end)
      else mret false
  | None => update_top_bid now_ns new_bid;; mret true
  end.

Definition fork_state (fork : ForkKey) (s : BidSorter) : ForkState :=
  default fork_default (bs_forks s !! fork).

(** [self.forks.entry(fork).or_default()]. *)
Definition with_fork {A} (fork : ForkKey) (m : Comp ForkState TopBidUpdate A)
    : Comp BidSorter TopBidUpdate A :=
  zoom (fork_state fork) (λ st s, s <| bs_forks ::= <[fork := st]> |>) id m.

Definition process_bid (now_ns : u64) (new_bid : Bid) : Comp BidSorter TopBidUpdate bool :=
  let fork := bid_fork new_bid in
  stale ← with_fork fork (gets (λ st, is_stale (fs_bids st) new_bid));
  if stale : bool then
    modify (λ s, s <| bs_local_telemetry ::=
                        λ t, t <| bst_stale_subs ::= inc32 |> |>);;
    mret false
  else
    with_fork fork
      (modify (λ st, st <| fs_bids ::= <[bid_builder_pubkey new_bid := new_bid]> |>);;
       compare_with_top now_ns new_bid).

Definition sort (now_ns : u64) (bid : Bid) : Comp BidSorter TopBidUpdate bool :=
  slot ← gets bs_curr_bid_slot;
  assert_that (bid_slot bid =? slot);;
  is_top_bid ← process_bid now_ns bid;
  modify (λ s, s <| bs_local_telemetry ::= λ t, t <| bst_subs ::= inc32 |> |>);;
  mret is_top_bid.

(** One iteration of the loop of [process_demotion]. *)
Definition demote_in_fork (now_ns : u64) (demoted : Pubkey) : Comp ForkState TopBidUpdate unit :=
  removed ← gets (λ st, fs_bids st !! demoted);
  match removed with
  | None => mret tt
  | Some _ =>
      modify (λ st, st <| fs_bids ::= delete demoted |>);;
      curr ← gets fs_curr_bid;
      match curr with
      | Some curr_bid =>
          if bid_builder_pubkey curr_bid =? demoted
          then traverse_update_top_bid now_ns
          else mret tt
      | None => mret tt
      end
  end.

Fixpoint for_forks (f : ForkKey → Comp ForkState TopBidUpdate unit) (forks : list ForkKey)
    : Comp BidSorter TopBidUpdate unit :=
  match forks with
  | [] => mret tt
  | fork :: rest => with_fork fork (f fork);; for_forks f rest
  end.

(** [now_ns fork] is the reading of the clock when the loop is at [fork]. *)
Definition process_demotion (now_ns : ForkKey → u64) (demoted : Pubkey)
    : Comp BidSorter TopBidUpdate unit :=
  forks ← gets (λ s, hash_keys (bs_forks s));
  for_forks (λ fork, demote_in_fork (now_ns fork) demoted) forks.

Definition demote (now_ns : ForkKey → u64) (demoted : Pubkey)
    : Comp BidSorter TopBidUpdate unit :=
  seen ← gets (λ s, bool_decide (demoted ∈ bs_demotions s));
  if seen : bool then mret tt
  else
    modify (λ s, s <| bs_demotions ::= λ d, {[demoted]} ∪ d |>);;
    process_demotion now_ns demoted.

Definition top_bid_value (fork : ForkKey) (s : BidSorter) : option U256 :=
  st ← bs_forks s !! fork; bid_value <$> fs_curr_bid st.

Definition get_header (fork : ForkKey) (s : BidSorter) : option B256 :=
  st ← bs_forks s !! fork; bid_block_hash <$> fs_curr_bid st.

(** [self.forks.values().map(|s| s.subs).sum()], a [u32] sum. *)
Definition accepted_subs (s : BidSorter) : u32 :=
  sumZ (fs_subs <$> hash_values (bs_forks s)) mod u32_modulus.

Definition report : Comp BidSorter TopBidUpdate SlotStats :=
  tel ← gets bs_local_telemetry;
  modify (λ s, s <| bs_local_telemetry := telemetry_default |>);;
  gets (λ s, mkSlotStats (bs_curr_bid_slot s) (bst_subs tel) (accepted_subs s)
                         (bst_stale_subs tel)).

Definition process_slot (bid_slot : u64) : Comp BidSorter TopBidUpdate (option SlotStats) :=
  curr ← gets bs_curr_bid_slot;
  stats ← (if 0 <? curr then r ← report; mret (Some r) else mret None);
  modify (λ s, s <| bs_curr_bid_slot := bid_slot |>);;
  modify (λ s, s <| bs_demotions := ∅ |>);;
  modify (λ s, s <| bs_forks := ∅ |>);;
  mret stats.
End sorter.

(** ** The auction the sorter implements

    Per fork and builder the latest bid; the served bid is any bid of maximal
    value. A submission is taken unless the builder's entry is at least as
    new, a builder's first demotion in a slot removes its bids, a new slot
    forgets everything. *)
Record Auction := mkAuction {
  au_slot : u64;
  au_bids : gmap (ForkKey * Pubkey) Bid;
  au_demoted : gset Pubkey
}.
#[export] Instance eta_Auction : Eta Auction :=
  λ r, mkAuction (au_slot r) (au_bids r) (au_demoted r).

Definition auction_new : Auction := mkAuction 0 ∅ ∅.

Definition auction_submit (b : Bid) (a : Auction) : Auction :=
  let key := (bid_fork b, bid_builder_pubkey b) in
  match au_bids a !! key with
  | Some e => if version_ge (bid_version e) (bid_version b) then a
              else a <| au_bids ::= <[key := b]> |>
  | None => a <| au_bids ::= <[key := b]> |>
  end.

Definition auction_demote (k : Pubkey) (a : Auction) : Auction :=
  if bool_decide (k ∈ au_demoted a) then a
  else a <| au_demoted ::= λ d, {[k]} ∪ d |>
         <| au_bids ::= filter (λ e, e.1.2 ≠ k) |>.

Definition auction_slot (slot : u64) (_ : Auction) : Auction := mkAuction slot ∅ ∅.

(** [b] is a best bid of the auction on [fork]. *)
Definition is_top (a : Auction) (fork : ForkKey) (b : Bid) : Prop :=
  au_bids a !! (fork, bid_builder_pubkey b) = Some b ∧
  ∀ k b', au_bids a !! (fork, k) = Some b' → bid_value b' ≤ bid_value b.

(** The bid the sorter serves on [fork]. *)
Definition served (fork : ForkKey) (s : BidSorter) : option Bid :=
  st ← bs_forks s !! fork; fs_curr_bid st.

Inductive SorterOp :=
| OpSort (now_ns : u64) (b : Bid)
| OpDemote (now_ns : ForkKey → u64) (k : Pubkey)
| OpSlot (slot : u64).

(** The bids [sort] is called with are for the current slot. *)
Definition op_ok (a : Auction) (op : SorterOp) : Prop :=
  match op with OpSort _ b => bid_slot b = au_slot a | _ => True end.

Definition auction_step (op : SorterOp) : Auction → Auction :=
  match op with
  | OpSort _ b => auction_submit b
  | OpDemote _ k => auction_demote k
  | OpSlot slot => auction_slot slot
  end.

Definition auction_run (ops : list SorterOp) : Auction → Auction :=
  λ a, foldl (λ a op, auction_step op a) a ops.

Fixpoint ops_ok (a : Auction) (ops : list SorterOp) : Prop :=
  match ops with
  | [] => True
  | op :: rest => op_ok a op ∧ ops_ok (auction_step op a) rest
  end.

Section correctness.
Context `{HO : HashOrder}.

Definition run_op (op : SorterOp) : Comp BidSorter TopBidUpdate unit :=
  match op with
  | OpSort now_ns b => sort now_ns b;; mret tt
  | OpDemote now_ns k => demote now_ns k
  | OpSlot slot => process_slot slot;; mret tt
  end.

Fixpoint run_ops (ops : list SorterOp) : Comp BidSorter TopBidUpdate unit :=
  match ops with
  | [] => mret tt
  | op :: rest => run_op op;; run_ops rest
  end.

(** *** Invariants *)

Definition bids_ok (slot : u64) (fork : ForkKey) (bids : gmap Pubkey Bid) : Prop :=
  ∀ k b, bids !! k = Some b →
    bid_builder_pubkey b = k ∧ bid_slot b = slot ∧ bid_fork b = fork.

Definition top_ok (bids : gmap Pubkey Bid) (curr : option Bid) : Prop :=
  match curr with
  | None => bids = ∅
  | Some b => bids !! bid_builder_pubkey b = Some b ∧
              ∀ k b', bids !! k = Some b' → bid_value b' ≤ bid_value b
  end.

Definition fork_ok (slot : u64) (fork : ForkKey) (st : ForkState) : Prop :=
  bids_ok slot fork (fs_bids st) ∧ top_ok (fs_bids st) (fs_curr_bid st).

Definition sorter_ok (s : BidSorter) : Prop :=
  map_Forall (fork_ok (bs_curr_bid_slot s)) (bs_forks s).

(** The equation the telemetry documents, on [u32] counters. *)
Definition telemetry_ok (s : BidSorter) : Prop :=
  bst_subs (bs_local_telemetry s) =
    (bst_stale_subs (bs_local_telemetry s) + accepted_subs s) mod u32_modulus.

(** The sorter's map of maps holds the auction's bids. *)
Definition bids_agree (s : BidSorter) (a : Auction) : Prop :=
  ∀ fork k, au_bids a !! (fork, k) = fs_bids (fork_state fork s) !! k.

Definition refines (s : BidSorter) (a : Auction) : Prop :=
  sorter_ok s ∧ bs_curr_bid_slot s = au_slot a ∧ bs_demotions s = au_demoted a ∧
  bids_agree s a.

Lemma fork_default_ok slot fork : fork_ok slot fork fork_default.
Proof. split; [|done]. intros k b. simpl. by rewrite lookup_empty. Qed.

Lemma fork_state_ok s fork : sorter_ok s → fork_ok (bs_curr_bid_slot s) fork (fork_state fork s).
Proof.
  intros Hs. unfold fork_state. destruct (bs_forks s !! fork) as [st|] eqn:E; simpl.
  - by apply (Hs fork st).
  - apply fork_default_ok.
Qed.

Lemma fork_state_insert s fork fork' st :
  fork_state fork' (s <| bs_forks ::= <[fork := st]> |>) =
    if decide (fork = fork') then st else fork_state fork' s.
Proof.
  unfold fork_state. cbn. destruct (decide (fork = fork')) as [->|Hne].
  - by rewrite lookup_insert_eq.
  - by rewrite lookup_insert_ne.
Qed.

Lemma best_bid_some st slot fork b :
  bids_ok slot fork (fs_bids st) → best_bid st = Some b → top_ok (fs_bids st) (Some b).
Proof.
  intros Hok Hb. unfold best_bid in Hb. split.
  - assert (b ∈ hash_values (fs_bids st)) as [k Hk]%elem_of_hash_values.
    { refine (reduce_select_elem _ _ _ _ Hb). intros x y. case_match; auto. }
    by destruct (Hok _ _ Hk) as [-> _].
  - intros k b' Hk.
    refine (reduce_bound (λ x y, bid_value x ≤ bid_value y) _ _ b _ _ _ Hb b' _).
    + intros x. lia.
    + intros x y z. lia.
    + intros x y. cbv beta. destruct (Z.ltb_spec (bid_value x) (bid_value y)); lia.
    + apply elem_of_hash_values. eauto.
Qed.

Lemma best_bid_none st : best_bid st = None → fs_bids st = ∅.
Proof. intros E%reduce_none. by apply hash_values_nil. Qed.

(** *** One fork *)

Lemma bids_ok_insert slot fork bids b :
  bids_ok slot fork bids → bid_slot b = slot → bid_fork b = fork →
  bids_ok slot fork (<[bid_builder_pubkey b := b]> bids).
Proof.
  intros Hok Hs Hf k b' [[<- <-]|[_ Hk]]%lookup_insert_Some; [done|]. by apply Hok.
Qed.

Lemma bids_ok_delete slot fork bids k : bids_ok slot fork bids → bids_ok slot fork (delete k bids).
Proof. intros Hok k' b [_ Hk]%lookup_delete_Some. by apply Hok. Qed.

(** The updates sent for a fork end with the bid now served. *)
Definition feed_ok (now_ns : u64) (curr curr' : option Bid) (o : list TopBidUpdate) : Prop :=
  (o = [] ∧ (curr' = curr ∨ curr' = None)) ∨
  (∃ c, o = [top_bid_update now_ns c] ∧ curr' = Some c).

Lemma traverse_wp now slot fork st :
  bids_ok slot fork (fs_bids st) →
  wp (traverse_update_top_bid now) (λ _ st' o,
    fork_ok slot fork st' ∧ fs_bids st' = fs_bids st ∧ fs_subs st' = fs_subs st ∧
    feed_ok now (fs_curr_bid st) (fs_curr_bid st') o) st.
Proof.
  intros Hok. unfold traverse_update_top_bid, update_top_bid. wp_steps; cbn.
  - split_and!; [|done|done|right; eauto]. split; [done|]. by eapply best_bid_some.
  - split_and!; [|done|done|left; eauto]. split; [done|]. by apply best_bid_none.
Qed.

Lemma top_ok_insert_new bids b c :
  top_ok bids (Some c) → bid_value c < bid_value b →
  top_ok (<[bid_builder_pubkey b := b]> bids) (Some b).
Proof.
  intros [_ Hmax] Hlt. split; [by rewrite lookup_insert_eq|].
  intros k b' [[_ <-]|[_ Hk]]%lookup_insert_Some; [lia|]. apply Hmax in Hk. lia.
Qed.

Lemma top_ok_insert_lower bids b c :
  top_ok bids (Some c) → bid_value b ≤ bid_value c →
  bid_builder_pubkey b ≠ bid_builder_pubkey c →
  top_ok (<[bid_builder_pubkey b := b]> bids) (Some c).
Proof.
  intros [Hc Hmax] Hle Hne. split; [by rewrite lookup_insert_ne|].
  intros k b' [[_ <-]|[_ Hk]]%lookup_insert_Some; [lia|]. by eapply Hmax.
Qed.

(** What taking a bid into its fork does. *)
Definition accepted (now_ns : u64) (b : Bid) (slot : u64) (fork : ForkKey) (st : ForkState)
    (r : bool) (st' : ForkState) (o : list TopBidUpdate) : Prop :=
  fork_ok slot fork st' ∧
  fs_bids st' = <[bid_builder_pubkey b := b]> (fs_bids st) ∧
  fs_subs st' = inc32 (fs_subs st) ∧
  (∃ c, fs_curr_bid st' = Some c ∧
    if r then bid_block_hash c = bid_block_hash b else bid_value b ≤ bid_value c) ∧
  feed_ok now_ns (fs_curr_bid st) (fs_curr_bid st') o.

Lemma compare_with_top_wp now b slot fork st :
  fork_ok slot fork st → bid_slot b = slot → bid_fork b = fork →
  wp (compare_with_top now b) (accepted now b slot fork st)
    (st <| fs_bids ::= <[bid_builder_pubkey b := b]> |>).
Proof.
  intros [Hok Htop] Hs Hf. pose proof (bids_ok_insert _ _ _ b Hok Hs Hf) as Hok'.
  unfold compare_with_top. do 2 (wp_step; cbn). wp_step. cbn.
  wp_step; cbn.
  destruct (fs_curr_bid st) as [c|] eqn:Ec.
  - destruct (Z.ltb_spec (bid_value c) (bid_value b)) as [Hlt|Hge].
    + unfold update_top_bid. wp_steps. cbn. unfold accepted; cbn.
      split_and!; [split; [done|by eapply top_ok_insert_new]|done|done|eauto|right; eauto].
    + destruct (Z.eqb_spec (bid_builder_pubkey b) (bid_builder_pubkey c)) as [Heq|Hne].
      * wp_step. eapply wp_mono; [apply (traverse_wp now slot fork); exact Hok'|].
        intros _ st' o (Hfok & Hb & Hsub & Hfeed). wp_step. cbn in *. rewrite app_nil_r.
        destruct Hfok as [Hbok Htop']. unfold accepted. rewrite Hb in *.
        destruct (fs_curr_bid st') as [c'|] eqn:Ec'; [|by apply insert_non_empty in Htop'].
        split_and!; [split; rewrite ?Hb, ?Ec'; done|done|done| |].
        -- exists c'. split; [done|]. destruct (Z.eqb_spec (bid_block_hash c') (bid_block_hash b)); [done|].
           apply Htop' with (bid_builder_pubkey b). by rewrite lookup_insert_eq.
        -- done.
      * wp_steps. unfold accepted; cbn.
        rewrite Ec. split_and!; [split; cbn; [done|]|done|done|eauto|left; eauto].
        rewrite Ec. by apply top_ok_insert_lower.
  - unfold update_top_bid. wp_steps. unfold accepted; cbn. simpl in Htop.
    split_and!; [split; cbn; [done|]|done|done|eauto|right; eauto].
    rewrite Htop. split; [by rewrite lookup_insert_eq|].
    intros k b' [[_ <-]|[_ Hk]]%lookup_insert_Some; [lia|done].
Qed.

Lemma top_ok_delete bids c k :
  top_ok bids (Some c) → bid_builder_pubkey c ≠ k → top_ok (delete k bids) (Some c).
Proof.
  intros [Hc Hmax] Hne. split; [by rewrite lookup_delete_ne|].
  intros k' b' [_ Hk]%lookup_delete_Some. by eapply Hmax.
Qed.

Lemma demote_in_fork_wp now k slot fork st :
  fork_ok slot fork st →
  wp (demote_in_fork now k) (λ _ st' o,
    fork_ok slot fork st' ∧ fs_bids st' = delete k (fs_bids st) ∧
    fs_subs st' = fs_subs st ∧ feed_ok now (fs_curr_bid st) (fs_curr_bid st') o) st.
Proof.
  intros [Hok Htop]. unfold demote_in_fork. wp_step. wp_step. cbn.
  destruct (fs_bids st !! k) as [b|] eqn:Hb.
  - do 3 (wp_step; cbn). wp_step. cbn. destruct (fs_curr_bid st) as [c|] eqn:Ec.
    + destruct (Z.eqb_spec (bid_builder_pubkey c) k) as [Heq|Hne].
      * eapply wp_mono; [apply (traverse_wp now slot fork), bids_ok_delete, Hok|].
        cbn. rewrite Ec. naive_solver.
      * wp_steps. cbn. rewrite Ec. split_and!; [split|done|done|left; auto]; cbn.
        -- by apply bids_ok_delete.
        -- rewrite Ec. by apply top_ok_delete.
    + simpl in Htop. by rewrite Htop, lookup_empty in Hb.
  - wp_steps. split_and!; [done|by rewrite delete_id|done|left; auto].
Qed.

(** *** The whole sorter *)

Lemma with_fork_wp {A} fork (m : Comp ForkState TopBidUpdate A) Q s :
  wp m (λ a st o, Q a (s <| bs_forks ::= <[fork := st]> |>) o) (fork_state fork s) →
  wp (with_fork fork m) Q s.
Proof.
  intros H. unfold with_fork. wp_step. eapply wp_mono; [exact H|].
  intros a st o. by rewrite list_fmap_id.
Qed.

Lemma sorter_ok_insert s fork st :
  sorter_ok s → fork_ok (bs_curr_bid_slot s) fork st →
  sorter_ok (s <| bs_forks ::= <[fork := st]> |>).
Proof. intros Hs Hst. by apply map_Forall_insert_2. Qed.

Lemma accepted_subs_eq s : accepted_subs s = map_sum fs_subs (bs_forks s) mod u32_modulus.
Proof. unfold accepted_subs. by rewrite map_sum_hash. Qed.

Lemma fork_subs_insert s fork st :
  map_sum fs_subs (<[fork := st]> (bs_forks s)) =
    fs_subs st - fs_subs (fork_state fork s) + map_sum fs_subs (bs_forks s).
Proof. rewrite map_sum_insert. unfold fork_state. by destruct (bs_forks s !! fork). Qed.

(** What [sort] does: a stale bid only counts, any other is taken. *)
Definition sorted (now_ns : u64) (b : Bid) (s : BidSorter)
    (r : bool) (s' : BidSorter) (o : list TopBidUpdate) : Prop :=
  let fork := bid_fork b in
  let st := fork_state fork s in
  if is_stale (fs_bids st) b then
    r = false ∧ o = [] ∧
    s' = s <| bs_forks ::= <[fork := st]> |>
           <| bs_local_telemetry ::= λ t, t <| bst_stale_subs ::= inc32 |>
                                            <| bst_subs ::= inc32 |> |>
  else ∃ st',
    accepted now_ns b (bs_curr_bid_slot s) fork st r st' o ∧
    s' = s <| bs_forks ::= <[fork := st']> |>
           <| bs_local_telemetry ::= λ t, t <| bst_subs ::= inc32 |> |>.

Lemma sort_wp now b s :
  sorter_ok s → bid_slot b = bs_curr_bid_slot s → wp (sort now b) (sorted now b s) s.
Proof.
  intros Hs Hslot. unfold sort, process_bid. wp_step. wp_step. cbn.
  wp_step. apply wp_assert; [by apply Z.eqb_eq|]. wp_step. wp_step.
  apply with_fork_wp. wp_step. cbn.
  destruct (is_stale (fs_bids (fork_state (bid_fork b) s)) b) eqn:Est.
  - wp_steps. unfold sorted. cbn. by rewrite Est.
  - apply with_fork_wp. rewrite fork_state_insert, decide_True by done. wp_step. wp_step.
    eapply wp_mono.
    { apply (compare_with_top_wp now b (bs_curr_bid_slot s) (bid_fork b)); [|done|done].
      by apply fork_state_ok. }
    intros r st' o Hacc. wp_steps. cbn. rewrite !app_nil_r.
    unfold sorted. rewrite Est. exists st'. split; [done|]. cbn.
    rec_simpl. by rewrite insert_insert_eq.
Qed.

(** The loop of [process_demotion] after some of the forks. *)
Definition demoted_in (k : Pubkey) (s s' : BidSorter) : Prop :=
  sorter_ok s' ∧ bs_curr_bid_slot s' = bs_curr_bid_slot s ∧
  bs_demotions s' = bs_demotions s ∧ bs_local_telemetry s' = bs_local_telemetry s ∧
  accepted_subs s' = accepted_subs s ∧
  (∀ fork, fs_bids (fork_state fork s') = fs_bids (fork_state fork s) ∨
           fs_bids (fork_state fork s') = delete k (fs_bids (fork_state fork s))).

Lemma for_forks_demote_wp now k l s :
  sorter_ok s →
  wp (for_forks (λ fork, demote_in_fork (now fork) k) l) (λ _ s' _,
    demoted_in k s s' ∧ ∀ fork, fork ∈ l →
      fs_bids (fork_state fork s') = delete k (fs_bids (fork_state fork s))) s.
Proof.
  revert s. induction l as [|fork l IH]; intros s Hs; simpl.
  { wp_step. split; [|by intros ? ?%elem_of_nil]. split_and!; auto. }
  wp_step. apply with_fork_wp.
  eapply wp_mono; [apply demote_in_fork_wp, fork_state_ok, Hs|].
  intros _ st' o (Hok & Hb & Hsub & _).
  eapply wp_mono; [apply IH, sorter_ok_insert; done|].
  intros _ s' o' [(Hs' & Hslot & Hdem & Htel & Hacc & Hforks) Hin].
  cbn in Hslot, Hdem, Htel.
  assert (∀ f, fs_bids (fork_state f (s <| bs_forks ::= <[fork := st']> |>)) =
    if decide (fork = f) then delete k (fs_bids (fork_state f s))
    else fs_bids (fork_state f s)) as Hst.
  { intros f. rewrite fork_state_insert. case_decide; [by subst|done]. }
  split; [split_and!; try done|].
  - rewrite Hacc, !accepted_subs_eq. cbn. rewrite fork_subs_insert, Hsub. f_equal. lia.
  - intros f. specialize (Hforks f). rewrite Hst in Hforks.
    case_decide; rewrite ?delete_delete_eq in Hforks; tauto.
  - intros f Hf. destruct (decide (f ∈ l)) as [Hl|Hl].
    + rewrite Hin by done. rewrite Hst. case_decide; [by rewrite delete_delete_eq|done].
    + assert (f = fork) as -> by set_solver. specialize (Hforks fork).
      rewrite Hst, decide_True in Hforks by done. rewrite delete_delete_eq in Hforks. tauto.
Qed.

Lemma new_refines : refines new auction_new.
Proof.
  split_and!; [by apply map_Forall_empty|done|done|]. intros fork k.
  unfold fork_state. cbn. by rewrite !lookup_empty.
Qed.

Lemma new_telemetry : telemetry_ok new.
Proof. unfold telemetry_ok. rewrite accepted_subs_eq. cbn. by rewrite map_sum_empty. Qed.

Lemma sorted_refines now b s a r s' o :
  refines s a → sorted now b s r s' o → refines s' (auction_submit b a).
Proof.
  intros (Hs & Hslot & Hdem & Hag) Hsorted. unfold sorted in Hsorted.
  set (fork := bid_fork b) in *. set (st := fork_state fork s) in *.
  pose proof (Hag fork (bid_builder_pubkey b)) as Hkey.
  unfold auction_submit, is_stale in *. fold fork st in Hkey |- *. rewrite Hkey.
  assert (∀ st', fork_ok (bs_curr_bid_slot s) fork st' →
    fs_bids st' = <[bid_builder_pubkey b := b]> (fs_bids st) →
    refines (s <| bs_forks ::= <[fork := st']> |>
               <| bs_local_telemetry ::= λ t, t <| bst_subs ::= inc32 |> |>)
            (a <| au_bids ::= <[(fork, bid_builder_pubkey b) := b]> |>)) as Htake.
  { intros st' Hok Hb. split_and!; [by apply (sorter_ok_insert s fork st')|done|done|].
    intros f k. cbn. rewrite lookup_insert. unfold bids_agree in Hag.
    change (fork_state f _) with (fork_state f (s <| bs_forks ::= <[fork := st']> |>)).
    rewrite fork_state_insert, Hag. destruct (decide (fork = f)) as [<-|Hne].
    - rewrite Hb, lookup_insert. repeat case_decide; naive_solver.
    - rewrite decide_False by naive_solver. done. }
  assert (∀ g, refines (s <| bs_forks ::= <[fork := st]> |> <| bs_local_telemetry ::= g |>) a)
    as Hkeep.
  { intros g. split_and!; [by apply (sorter_ok_insert s fork st), fork_state_ok|done|done|].
    intros f k. rewrite Hag.
    change (fork_state f (update_field _ (update_field _ _))) with
      (fork_state f (s <| bs_forks ::= <[fork := st]> |>)).
    rewrite fork_state_insert. case_decide; [by subst f|done]. }
  destruct (fs_bids st !! bid_builder_pubkey b) as [e|].
  - destruct (version_ge (bid_version e) (bid_version b)).
    + destruct Hsorted as (_ & _ & ->). apply Hkeep.
    + destruct Hsorted as (st' & (Hok & Hb & _) & ->). by apply Htake.
  - destruct Hsorted as (st' & (Hok & Hb & _) & ->). by apply Htake.
Qed.

Lemma inc32_mod x y : (inc32 x + y) mod u32_modulus = (x + y + 1) mod u32_modulus.
Proof.
  unfold inc32. rewrite Z.add_mod_idemp_l by (unfold u32_modulus; lia). f_equal. lia.
Qed.

Lemma sorted_telemetry now b s r s' o :
  telemetry_ok s → sorted now b s r s' o → telemetry_ok s'.
Proof.
  unfold telemetry_ok, sorted. rewrite !accepted_subs_eq, !Z.add_mod_idemp_r
    by (unfold u32_modulus; lia). intros Htel Hsorted.
  destruct (is_stale _ b).
  - destruct Hsorted as (_ & _ & ->). cbn. rewrite fork_subs_insert, Htel, inc32_mod.
    unfold inc32. rewrite Z.add_mod_idemp_l by (unfold u32_modulus; lia). f_equal. lia.
  - destruct Hsorted as (st' & (_ & _ & Hsub & _) & ->). cbn.
    rewrite fork_subs_insert, Hsub, Htel. unfold inc32.
    rewrite Z.add_mod_idemp_l by (unfold u32_modulus; lia).
    rewrite (Z.mod_eq (fs_subs _ + 1)) by (unfold u32_modulus; lia).
    set (q := (fs_subs _ + 1) / u32_modulus).
    symmetry. rewrite <- (Z_mod_plus_full _ q). f_equal. lia.
Qed.

(** The first demotion of a builder in a slot removes it from every fork. *)
Lemma process_demotion_wp now k s :
  sorter_ok s →
  wp (process_demotion now k) (λ _ s' _, demoted_in k s s' ∧
    ∀ fork, fs_bids (fork_state fork s') = delete k (fs_bids (fork_state fork s))) s.
Proof.
  intros Hs. unfold process_demotion. wp_step. wp_step. cbn.
  eapply wp_mono; [by apply for_forks_demote_wp|].
  intros _ s' o [Hd Hin]. split; [done|]. intros fork.
  destruct (bs_forks s !! fork) as [st|] eqn:E.
  - apply Hin, elem_of_hash_keys. eauto.
  - destruct Hd as (_ & _ & _ & _ & _ & Hf). destruct (Hf fork) as [-> | ->]; [|done].
    unfold fork_state. rewrite E. cbn. by rewrite delete_empty.
Qed.

Lemma without_builder_lookup (m : gmap (ForkKey * Pubkey) Bid) (bids : gmap Pubkey Bid) fork k k' :
  m !! (fork, k') = bids !! k' →
  filter (λ e, e.1.2 ≠ k) m !! (fork, k') = delete k bids !! k'.
Proof.
  intros Hm. rewrite map_lookup_filter, Hm. destruct (decide (k' = k)) as [->|Hne].
  - rewrite lookup_delete_eq. destruct (bids !! k); simpl; [|done].
    by rewrite option_guard_False by naive_solver.
  - rewrite lookup_delete_ne by done. destruct (bids !! k'); simpl; [|done].
    by rewrite option_guard_True by naive_solver.
Qed.

Lemma demote_wp now k s a :
  refines s a →
  wp (demote now k) (λ _ s' _, refines s' (auction_demote k a) ∧
    bs_local_telemetry s' = bs_local_telemetry s ∧ accepted_subs s' = accepted_subs s) s.
Proof.
  intros (Hs & Hslot & Hdem & Hag). unfold demote, auction_demote. wp_step. wp_step. cbn.
  rewrite <- Hdem. case_bool_decide as Hk; [by wp_step|]. wp_step. wp_step.
  eapply wp_mono; [by apply process_demotion_wp|]. cbn.
  intros _ s' o [(Hs' & Hslot' & Hdem' & Htel & Hacc & _) Hb]. cbn in *.
  split_and!; [split_and!|done|done]; [done|by rewrite Hslot'|by rewrite Hdem', Hdem|].
  intros fork k'. rewrite Hb. cbn. apply without_builder_lookup. by rewrite Hag.
Qed.

Lemma process_slot_wp slot s a :
  wp (process_slot slot) (λ _ s' _, refines s' (auction_slot slot a) ∧ bs_forks s' = ∅ ∧
    bs_local_telemetry s' =
      if 0 <? bs_curr_bid_slot s then telemetry_default else bs_local_telemetry s) s.
Proof.
  unfold process_slot, report.
  assert (∀ tel, refines (mkBidSorter slot ∅ ∅ tel) (auction_slot slot a)) as Hr.
  { intros tel. split_and!; [by apply map_Forall_empty|done|done|].
    intros fork k. unfold fork_state. cbn. by rewrite !lookup_empty. }
  wp_step. wp_step. cbn. wp_step.
  destruct (0 <? bs_curr_bid_slot s); wp_steps; (split_and!; [apply Hr|done|done]).
Qed.

Lemma run_op_refines op s a :
  refines s a → op_ok a op → wp (run_op op) (λ _ s' _, refines s' (auction_step op a)) s.
Proof.
  intros Hr Hop. destruct op as [now b|now k|slot]; simpl.
  - wp_step. pose proof Hr as (Hs & Hslot & _). simpl in Hop.
    eapply wp_mono; [apply sort_wp; [done|congruence]|].
    intros r s' o H. wp_step. by eapply sorted_refines.
  - eapply wp_mono; [by eapply demote_wp|]. naive_solver.
  - wp_step. eapply wp_mono; [by eapply process_slot_wp|]. intros ? ? ? [? _]. by wp_step.
Qed.

Lemma run_ops_refines ops s a :
  refines s a → ops_ok a ops →
  wp (run_ops ops) (λ _ s' _, refines s' (auction_run ops a)) s.
Proof.
  revert s a. induction ops as [|op ops IH]; intros s a Hr; simpl; [by intros; wp_step|].
  intros [Hop Hops]. wp_step. eapply wp_mono; [by eapply run_op_refines|].
  intros ? s' o Hr'. eapply wp_mono; [apply (IH s' (auction_step op a)); [exact Hr'|done]|]. done.
Qed.

(** At slot 0, before the first slot, nothing has been counted. *)
Definition telemetry_inv (s : BidSorter) : Prop :=
  telemetry_ok s ∧ (bs_curr_bid_slot s ≤ 0 → bs_local_telemetry s = telemetry_default).

Lemma run_op_telemetry op s a :
  refines s a → op_ok a op → match op with OpSort _ b => 0 < bid_slot b | _ => True end →
  telemetry_inv s → wp (run_op op) (λ _ s' _, telemetry_inv s') s.
Proof.
  intros Hr Hop Hpos [Ht Hzero]. pose proof Hr as (Hs & Hslot & _).
  destruct op as [now b|now k|slot]; simpl in *.
  - wp_step. eapply wp_mono; [apply sort_wp; [done|congruence]|].
    intros r s' o H. wp_step. split; [by eapply sorted_telemetry|].
    assert (bs_curr_bid_slot s' = bs_curr_bid_slot s) as ->; [|lia].
    unfold sorted in H. destruct (is_stale _ b); naive_solver.
  - eapply wp_mono; [by eapply demote_wp|]. intros _ s' o ((_ & Hslot' & _) & Htel & Hacc).
    split; [unfold telemetry_ok; congruence|]. rewrite Htel, Hslot'.
    unfold auction_demote. case_bool_decide; simpl; rewrite <- Hslot; done.
  - wp_step. eapply wp_mono; [by apply (process_slot_wp _ _ a)|]. intros ? s' o (_ & Hf & Htel).
    wp_step. assert (bs_local_telemetry s' = telemetry_default) as Hd.
    { rewrite Htel. destruct (Z.ltb_spec 0 (bs_curr_bid_slot s)); auto. }
    split; [|done]. unfold telemetry_ok. by rewrite accepted_subs_eq, Hd, Hf, map_sum_empty.
Qed.

Lemma run_ops_telemetry ops s a :
  refines s a → ops_ok a ops →
  Forall (λ op, match op with OpSort _ b => 0 < bid_slot b | _ => True end) ops →
  telemetry_inv s → wp (run_ops ops) (λ _ s' _, telemetry_inv s') s.
Proof.
  revert s a. induction ops as [|op ops IH]; intros s a Hr; simpl; [by intros; wp_step|].
  intros [Hop Hops] [Hp Hps]%Forall_cons Ht. wp_step.
  eapply wp_mono; [apply wp_conj; [by eapply run_op_refines|by eapply run_op_telemetry]|].
  intros ? s' o [Hr' Ht']. eapply wp_mono; [by eapply IH|]. done.
Qed.

Lemma refines_served s a fork :
  refines s a →
  match served fork s with
  | Some b => is_top a fork b ∧ bid_slot b = au_slot a ∧ bid_fork b = fork
  | None => ∀ k, au_bids a !! (fork, k) = None
  end.
Proof.
  intros (Hs & Hslot & _ & Hag). unfold served.
  destruct (bs_forks s !! fork) as [st|] eqn:E; simpl.
  - assert (fork_state fork s = st) as Hst by (unfold fork_state; by rewrite E).
    destruct (Hs fork st E) as [Hbids Htop].
    destruct (fs_curr_bid st) as [b|]; simpl in Htop.
    + destruct Htop as [Hb Hmax]. split_and!; [split|..].
      * by rewrite Hag, Hst.
      * intros k b'. rewrite Hag, Hst. apply Hmax.
      * rewrite <- Hslot. by apply (Hbids _ _ Hb).
      * by apply (Hbids _ _ Hb).
    + intros k. by rewrite Hag, Hst, Htop.
  - intros k. rewrite Hag. unfold fork_state. by rewrite E.
Qed.

Lemma served_insert s fork fork' st :
  served fork' (s <| bs_forks ::= <[fork := st]> |>) =
    if decide (fork = fork') then fs_curr_bid st else served fork' s.
Proof.
  unfold served. cbn. rewrite lookup_insert. by case_decide.
Qed.

Lemma served_fork_state s fork : served fork s = fs_curr_bid (fork_state fork s).
Proof. unfold served, fork_state. by destruct (bs_forks s !! fork). Qed.
End correctness.

(** ** Properties *)

(** A slot with two builders on one fork: builder 1 bids 10, builder 2 bids
    20, then builder 2 is demoted and bids again. *)
Definition ex_fork : ForkKey := mkForkKey 100 200.
Definition ex_bid (builder value recv : Z) : Bid :=
  mkBid (mkSubmissionVersion recv None) value 5 (1000 + value) builder 7 100 200 9.
Definition ex_ops : list SorterOp :=
  [OpSlot 5; OpSort 1 (ex_bid 1 10 1); OpSort 2 (ex_bid 2 20 2); OpDemote (λ _, 3) 2].

Section properties.
Context `{HO : HashOrder}.

(** C5: Over any sequence of submissions, demotions and new slots whose
    submissions are for the current slot, the sorter never panics and refines
    the auction: it holds exactly the auction's bids, and on every fork it
    serves a bid of maximal value of that fork and slot, or nothing when the
    auction has no bid there. *)
Theorem sorter_refines_auction ops :
  ops_ok auction_new ops →
  ∃ s o, run_ops ops new = Some (tt, s, o) ∧
    let a := auction_run ops auction_new in
    bs_curr_bid_slot s = au_slot a ∧ bs_demotions s = au_demoted a ∧
    (∀ fork k, au_bids a !! (fork, k) = fs_bids (fork_state fork s) !! k) ∧
    ∀ fork, match served fork s with
            | Some b => is_top a fork b ∧ bid_slot b = au_slot a ∧ bid_fork b = fork
            | None => ∀ k, au_bids a !! (fork, k) = None
            end.
Proof.
  intros Hops. pose proof (run_ops_refines ops new auction_new new_refines Hops) as H.
  unfold wp in H. destruct (run_ops ops new) as [[[[] s] o]|]; [|done].
  exists s, o. split; [done|]. pose proof (λ fork, refines_served s _ fork H).
  destruct H as (_ & ? & ? & ?). done.
Qed.

(** Sorting a bid for the current slot never panics. A stale bid returns
    [false], produces nothing and changes no served bid. Any other bid leaves
    a bid served on its fork: with the result [true] it has the new bid's
    block hash, with [false] it is worth at least as much. The update sent, if
    any, is exactly the bid now served, and without one the served bid is the
    old one; other forks are untouched. *)
Theorem sort_correct now b s :
  sorter_ok s → bid_slot b = bs_curr_bid_slot s →
  ∃ r s' o, sort now b s = Some (r, s', o) ∧ sorter_ok s' ∧
    (∀ fork, fork ≠ bid_fork b → served fork s' = served fork s) ∧
    if is_stale (fs_bids (fork_state (bid_fork b) s)) b then
      r = false ∧ o = [] ∧ served (bid_fork b) s' = served (bid_fork b) s
    else ∃ c, served (bid_fork b) s' = Some c ∧
      (if r then bid_block_hash c = bid_block_hash b else bid_value b ≤ bid_value c) ∧
      (o = [top_bid_update now c] ∨ o = [] ∧ served (bid_fork b) s = Some c).
Proof.
  intros Hs Hb. pose proof (sort_wp now b s Hs Hb) as H.
  unfold wp in H. destruct (sort now b s) as [[[r s'] o]|]; [|done].
  exists r, s', o. split; [done|]. unfold sorted in H.
  destruct (is_stale _ b).
  - destruct H as (-> & -> & ->). split_and!; [|..]; try done.
    + by apply (sorter_ok_insert s), fork_state_ok.
    + intros fork Hne. etrans; [apply served_insert|]. by rewrite decide_False.
    + etrans; [apply served_insert|]. by rewrite decide_True, served_fork_state.
  - destruct H as (st' & (Hok & _ & _ & (c & Hc & Hr) & Hfeed) & ->). split_and!.
    + by apply (sorter_ok_insert s).
    + intros fork Hne. etrans; [apply served_insert|]. by rewrite decide_False.
    + exists c. split_and!; [|done|].
      * etrans; [apply served_insert|]. by rewrite decide_True.
      * rewrite Hc in Hfeed. rewrite served_fork_state.
        destruct Hfeed as [[-> [E|E]]|(c' & -> & E)]; [right|done|left]; naive_solver.
Qed.

(** The first demotion of a builder in a slot takes every bid of the
    builder out of the auction, on every fork, and the builder's bids are no
    longer served. *)
Theorem demote_removes_builder now k s :
  sorter_ok s → k ∉ bs_demotions s →
  ∃ s' o, demote now k s = Some (tt, s', o) ∧ k ∈ bs_demotions s' ∧ sorter_ok s' ∧
    (∀ fork, fs_bids (fork_state fork s') = delete k (fs_bids (fork_state fork s))) ∧
    ∀ fork b, served fork s' = Some b → bid_builder_pubkey b ≠ k.
Proof.
  intros Hs Hk.
  assert (wp (demote now k) (λ _ s' _, k ∈ bs_demotions s' ∧ sorter_ok s' ∧
    ∀ fork, fs_bids (fork_state fork s') = delete k (fs_bids (fork_state fork s))) s) as H.
  { unfold demote. wp_step. wp_step. cbn. rewrite bool_decide_eq_false_2 by done.
    wp_step. wp_step. eapply wp_mono; [by apply process_demotion_wp|]. cbn.
    intros _ s' o [(Hs' & _ & Hdem & _) Hb]. cbn in Hdem. split_and!; [|done|done].
    rewrite Hdem. set_solver. }
  unfold wp in H. destruct (demote now k s) as [[[[] s'] o]|]; [|done].
  destruct H as (Hin & Hs' & Hb). exists s', o. split_and!; [done..|].
  intros fork b Hserved Heq. pose proof (fork_state_ok s' fork Hs') as [_ Htop].
  rewrite <- served_fork_state, Hserved in Htop. destruct Htop as [Hin' _].
  by rewrite Hb, Heq, lookup_delete_eq in Hin'.
Qed.

(** After any run in which bids are for positive slots, the counters
    satisfy the documented equation [subs == stale_subs + sum(fork.subs)] (on
    32 bits), so the slot report is consistent. *)
Theorem telemetry_consistent ops :
  ops_ok auction_new ops →
  Forall (λ op, match op with OpSort _ b => 0 < bid_slot b | _ => True end) ops →
  ∃ s o, run_ops ops new = Some (tt, s, o) ∧
    ∃ stats s', report s = Some (stats, s', []) ∧
      st_valid_subs stats = (st_stale_subs stats + st_accepted_subs stats) mod u32_modulus.
Proof.
  intros Hops Hpos.
  pose proof (run_ops_telemetry ops new auction_new new_refines Hops Hpos) as H.
  unfold wp in H. destruct (run_ops ops new) as [[[[] s] o]|].
  - exists s, o. split; [done|]. do 2 eexists. split; [done|].
    apply H. split; [apply new_telemetry|done].
  - destruct H. split; [apply new_telemetry|done].
Qed.
End properties.

Lemma sorter_refines_auction_witness :
  ∃ s o, run_ops (HO := list_order) ex_ops new = Some (tt, s, o) ∧
    served ex_fork s = Some (ex_bid 1 10 1).
Proof.
  destruct (sorter_refines_auction (HO := list_order) ex_ops) as (s & o & Hrun & _).
  { by vm_compute. }
  exists s, o. split; [exact Hrun|]. vm_compute in Hrun. by injection Hrun as <- <-.
Defined.

Lemma sort_correct_witness :
  ∃ r s' o, sort (HO := list_order) 1 (ex_bid 1 10 1)
    (mkBidSorter 5 ∅ ∅ telemetry_default) = Some (r, s', o) ∧ sorter_ok s'.
Proof.
  destruct (sort_correct (HO := list_order) 1 (ex_bid 1 10 1)
    (mkBidSorter 5 ∅ ∅ telemetry_default)) as (r & s' & o & H & Hok & _).
  - by apply map_Forall_empty.
  - done.
  - by exists r, s', o.
Defined.

Lemma demote_removes_builder_witness :
  ∃ s0 o0 s' o, run_ops (HO := list_order) (take 3 ex_ops) new = Some (tt, s0, o0) ∧
    served ex_fork s0 = Some (ex_bid 2 20 2) ∧
    demote (HO := list_order) (λ _, 3) 2 s0 = Some (tt, s', o) ∧ 2 ∈ bs_demotions s'.
Proof.
  pose proof (run_ops_refines (HO := list_order) (take 3 ex_ops) new auction_new new_refines) as H.
  unfold wp in H.
  destruct (run_ops (HO := list_order) (take 3 ex_ops) new) as [[[[] s0] o0]|] eqn:E.
  - destruct H as [Hs0 _]; [by vm_compute|].
    destruct (demote_removes_builder (HO := list_order) (λ _, 3) 2 s0) as (s' & o & Hd & Hin & _).
    + exact Hs0.
    + vm_compute in E. injection E as <- <-. apply (bool_decide_eq_false_1 (2 ∈ _)). by vm_compute.
    + exists s0, o0, s', o. split_and!; [done| |done|done].
      vm_compute in E. by injection E as <- <-.
  - destruct H. by vm_compute.
Defined.

Lemma telemetry_consistent_witness :
  ∃ s o, run_ops (HO := list_order) ex_ops new = Some (tt, s, o) ∧
    bst_subs (bs_local_telemetry s) = 2.
Proof.
  destruct (telemetry_consistent (HO := list_order) ex_ops) as (s & o & Hrun & _).
  - by vm_compute.
  - repeat constructor.
  - exists s, o. split; [exact Hrun|]. vm_compute in Hrun. by injection Hrun as <- <-.
Defined.

(** A builder demoted once in a slot can bid again, and a second demotion in
    the same slot leaves that bid served. *)
Theorem second_demotion_ignored :
  ∃ s o, run_ops (HO := list_order)
           (ex_ops ++ [OpSort 4 (ex_bid 2 30 4); OpDemote (λ _, 5) 2]) new = Some (tt, s, o) ∧
    served ex_fork s = Some (ex_bid 2 30 4).
Proof. do 2 eexists. split; vm_compute; reflexivity. Qed.
