(* ===== verification/Hydration.v ===== *)
(** * The hydration cache

    [types/src/hydration.rs]: per builder, the transactions, blobs and
    withdrawals it has already sent, so that a dehydrated submission can refer
    to them by key. *)

From S2P Require Import Prelude Types Submission.

(** [rustc_hash::FxHasher]: the hash of a sequence of writes. *)
Inductive FxWrite := WriteU64 (n : u64) | WriteBytes (b : Bytes) | WriteArray (a : Z).
Class FxHasher := fx_finish : list FxWrite → u64.

Definition TX_KEY_SIZE : Z := 67.
Definition NEXT_FULL_ITEM : u64 := 0.

Inductive HydrationError :=
| UnknownTxHash (index : nat) (hash : u64)
| InvalidTxLength (length : Z) (index : nat)
| UnknownBlobHashFulu (key : u64) (index : nat)
| TooManyBlobs (blobs max : Z)
| MissingFullTx (index : nat)
| MissingNewBlob (index : nat)
| TooManyTxs
| UnknownWithdrawals (key : u64)
| InvalidBlobProofs (index : nat) (proofs : Z).

(** Commitment, proofs and blob. *)
Abbreviation CachedBlob := (Z * list Z * Z)%type (only parsing).
Abbreviation CachedWithdrawals := (list Withdrawal * B256)%type (only parsing).

Record Cache := mkCache {
  c_transactions : gmap u64 Bytes;
  c_blobs_fulu : gmap u64 CachedBlob;
  c_withdrawals : gmap u64 CachedWithdrawals
}.
#[export] Instance eta_Cache : Eta Cache :=
  λ r, mkCache (c_transactions r) (c_blobs_fulu r) (c_withdrawals r).

Definition cache_new : Cache := mkCache ∅ ∅ ∅.

(** One cache per builder pubkey. *)
Record HydrationCache := mkHydrationCache { hc_caches : gmap Pubkey Cache }.
#[export] Instance eta_HydrationCache : Eta HydrationCache := λ r, mkHydrationCache (hc_caches r).

Record HydratedData := mkHydratedData {
  hd_submission : SignedBidSubmissionFulu;
  hd_tx_cache_hits : Z;
  hd_blob_cache_hits : Z;
  hd_tx_root : option B256
}.

(** The v1 wire shape: a cached transaction is its 8-byte key inline, a cached
    blob its commitment. *)
Record DehydratedBlobsFulu := mkDehydratedBlobsFulu {
  db1_commitments : list Z;
  db1_new_items : list BlobItemFulu
}.

Record DehydratedBidSubmissionFuluV1 := mkDehydratedBidSubmissionFuluV1 {
  v1_message : BidTrace;
  v1_execution_payload : ExecutionPayload;
  v1_blobs_bundle : DehydratedBlobsFulu;
  v1_execution_requests : Bytes;
  v1_signature : Z;
  v1_tx_root : option B256
}.

Section hydration.
Context `{FX : FxHasher} `{ES : EthSpec} `{TH : TreeHash}.

Definition tx_cache_key (tx : Bytes) : u64 :=
  fx_finish [WriteBytes (drop (length tx - Z.to_nat TX_KEY_SIZE) tx)].

Definition blob_cache_key (commitment : Z) : u64 := fx_finish [WriteArray commitment].

Definition withdrawals_key (ws : list Withdrawal) : u64 :=
  fx_finish (ws ≫= λ w, [WriteU64 (w_index w); WriteU64 (w_validator_index w);
                         WriteArray (w_address w); WriteU64 (w_amount w)]).

Definition has_all_cells (proofs : list Z) : bool := len proofs =? CELLS_PER_EXT_BLOB.

Definition next_full_refs (refs : list u64) : Z :=
  len (filter (λ r, r = NEXT_FULL_ITEM) refs).

Definition can_hydrate_inner (s : DehydratedBidSubmissionFulu) (c : Cache)
    (max_blobs_per_block : Z) : bool :=
  let full_txs := ep_transactions (dh_execution_payload s) in
  let new_items := db_new_items (dh_blobs_bundle s) in
  let refs := db_refs (dh_blobs_bundle s) in
  let is_new r := existsb (λ b, blob_cache_key (bi_commitment b) =? r) new_items in
  (len (dh_tx_refs s) <=? max_transactions_per_payload) &&
  (len refs <=? max_blobs_per_block) &&
  is_ok (payload_validate_ssz_lengths (dh_execution_payload s)) &&
  ((dh_withdrawals_ref s =? 0) || bool_decide (is_Some (c_withdrawals c !! dh_withdrawals_ref s))) &&
  forallb (λ tx, TX_KEY_SIZE <=? len tx) full_txs &&
  (next_full_refs (dh_tx_refs s) <=? len full_txs) &&
  forallb (λ r, (r =? NEXT_FULL_ITEM) || bool_decide (is_Some (c_transactions c !! r)))
    (dh_tx_refs s) &&
  forallb (λ b, has_all_cells (bi_proof b)) new_items &&
  (next_full_refs refs <=? len new_items) &&
  forallb (λ r, (r =? NEXT_FULL_ITEM) || is_new r ||
                match c_blobs_fulu c !! r with
                | Some (_, proofs, _) => has_all_cells proofs
                | None => false
                end) refs.

(** [withdrawals.entry(withdrawals_key(w)).or_insert_with(...)]. *)
Definition remember_withdrawals (w : list Withdrawal) (m : gmap u64 CachedWithdrawals)
    : gmap u64 CachedWithdrawals :=
  match m !! withdrawals_key w with
  | Some _ => m
  | None => <[withdrawals_key w := (w, withdrawals_root w)]> m
  end.

(** The locals of the loop over the transaction references. *)
Record TxLoop := mkTxLoop {
  tl_txs : gmap u64 Bytes;
  tl_full : list Bytes;
  tl_hydrated : list Bytes;
  tl_hits : Z;
  tl_err : option HydrationError
}.

Definition hydrate_tx (l : TxLoop) (e : nat * u64) : TxLoop :=
  let '(index, tx_ref) := e in
  if tx_ref =? NEXT_FULL_ITEM then
    match tl_full l with
    | [] => mkTxLoop (tl_txs l) [] (tl_hydrated l) (tl_hits l) (Some (MissingFullTx index))
    | tx :: full =>
        if len tx <? TX_KEY_SIZE then
          mkTxLoop (tl_txs l) full (tl_hydrated l ++ [tx]) (tl_hits l)
            (Some (InvalidTxLength (len tx) index))
        else
          mkTxLoop (<[tx_cache_key tx := tx]> (tl_txs l)) full (tl_hydrated l ++ [tx])
            (tl_hits l) (tl_err l)
    end
  else
    match tl_txs l !! tx_ref with
    | Some cached_tx =>
        mkTxLoop (tl_txs l) (tl_full l) (tl_hydrated l ++ [cached_tx]) (tl_hits l + 1) (tl_err l)
    | None =>
        mkTxLoop (tl_txs l) (tl_full l) (tl_hydrated l) (tl_hits l)
          (Some (UnknownTxHash index tx_ref))
    end.

Record BlobLoop := mkBlobLoop {
  bl_blobs : gmap u64 CachedBlob;
  bl_new_keys : list u64;
  bl_err : option HydrationError
}.

Definition remember_blob (l : BlobLoop) (e : nat * BlobItemFulu) : BlobLoop :=
  let '(index, item) := e in
  if has_all_cells (bi_proof item) then
    let key := blob_cache_key (bi_commitment item) in
    mkBlobLoop (<[key := (bi_commitment item, bi_proof item, bi_blob item)]> (bl_blobs l))
      (bl_new_keys l ++ [key]) (bl_err l)
  else
    mkBlobLoop (bl_blobs l) (bl_new_keys l)
      (Some (InvalidBlobProofs index (len (bi_proof item)))).

(** The loop that builds the sidecar. [VariableList::push] fails on a full
    list and its [unwrap] panics, which is [None]. *)
Fixpoint build_sidecar (blobs : gmap u64 CachedBlob) (index : nat) (refs : list u64)
    (new_keys : list u64) (sidecar : BlobsBundle) : option (Result BlobsBundle HydrationError) :=
  match refs with
  | [] => Some (Ok sidecar)
  | blob_ref :: rest =>
      let next :=
        if blob_ref =? NEXT_FULL_ITEM then
          match new_keys with
          | [] => Err (MissingNewBlob index)
          | key :: keys => Ok (key, keys)
          end
        else Ok (blob_ref, new_keys) in
      match next with
      | Err e => Some (Err e)
      | Ok (key, keys) =>
          match blobs !! key with
          | None => Some (Err (UnknownBlobHashFulu key index))
          | Some (commitment, proofs, blob) =>
              if len (bb_commitments sidecar) <? max_blob_commitments_per_block then
                build_sidecar blobs (S index) rest keys
                  (mkBlobsBundle (bb_commitments sidecar ++ [commitment])
                     (bb_proofs sidecar ++ proofs) (bb_blobs sidecar ++ [blob]))
              else None
          end
      end
  end.

(** The first half of [hydrate_inner]: withdrawals, then transactions. *)
Definition hydrate_withdrawals (s : DehydratedBidSubmissionFulu) (c : Cache)
    : list Withdrawal * gmap u64 CachedWithdrawals * option HydrationError :=
  let w := ep_withdrawals (dh_execution_payload s) in
  if negb (dh_withdrawals_ref s =? 0) then
    match c_withdrawals c !! dh_withdrawals_ref s with
    | Some (cached, _) => (cached, c_withdrawals c, None)
    | None => (w, c_withdrawals c, Some (UnknownWithdrawals (dh_withdrawals_ref s)))
    end
  else if bool_decide (w = []) then (w, c_withdrawals c, None)
  else (w, remember_withdrawals w (c_withdrawals c), None).

Definition hydrate_inner (s : DehydratedBidSubmissionFulu) (c : Cache) (max_blobs_per_block : Z)
    : option (Result HydratedData HydrationError * Cache) :=
  let '(ws, withdrawals, err) := hydrate_withdrawals s c in
  let tl := foldl hydrate_tx
    (mkTxLoop (c_transactions c) (ep_transactions (dh_execution_payload s)) [] 0 err)
    (enumerate (dh_tx_refs s)) in
  if max_transactions_per_payload <? len (tl_hydrated tl) then
    Some (Err TooManyTxs, mkCache (tl_txs tl) (c_blobs_fulu c) withdrawals)
  else
    let bl := foldl remember_blob (mkBlobLoop (c_blobs_fulu c) [] (tl_err tl))
      (enumerate (db_new_items (dh_blobs_bundle s))) in
    let c' := mkCache (tl_txs tl) (bl_blobs bl) withdrawals in
    let refs := db_refs (dh_blobs_bundle s) in
    let last_err :=
      if max_blobs_per_block <? len refs
      then Some (TooManyBlobs (len refs) max_blobs_per_block) else bl_err bl in
    match last_err with
    | Some e => Some (Err e, c')
    | None =>
        match build_sidecar (bl_blobs bl) 0 refs (bl_new_keys bl) (mkBlobsBundle [] [] []) with
        | None => None
        | Some (Err e) => Some (Err e, c')
        | Some (Ok sidecar) =>
            Some (Ok {|
              hd_submission := {|
                sf_message := dh_message s;
                sf_execution_payload :=
                  (dh_execution_payload s) <| ep_withdrawals := ws |>
                                           <| ep_transactions := tl_hydrated tl |>;
                sf_blobs_bundle := sidecar;
                sf_execution_requests := dh_execution_requests s;
                sf_signature := dh_signature s |};
              hd_tx_cache_hits := tl_hits tl;
              hd_blob_cache_hits := sat_sub (len refs) (len (db_new_items (dh_blobs_bundle s)));
              hd_tx_root := dh_tx_root s |}, c')
        end
    end.

Definition feed_tx (txs : gmap u64 Bytes) (tx : Bytes) : gmap u64 Bytes :=
  if TX_KEY_SIZE <=? len tx then <[tx_cache_key tx := tx]> txs else txs.

Definition feed_blob (blobs : gmap u64 CachedBlob) (item : BlobItemFulu) : gmap u64 CachedBlob :=
  if has_all_cells (bi_proof item)
  then <[blob_cache_key (bi_commitment item) :=
           (bi_commitment item, bi_proof item, bi_blob item)]> blobs
  else blobs.

Definition feed_inner (s : DehydratedBidSubmissionFulu) (c : Cache) : Cache :=
  let w := ep_withdrawals (dh_execution_payload s) in
  mkCache
    (foldl feed_tx (c_transactions c) (ep_transactions (dh_execution_payload s)))
    (foldl feed_blob (c_blobs_fulu c) (db_new_items (dh_blobs_bundle s)))
    (if (dh_withdrawals_ref s =? 0) && negb (bool_decide (w = []))
     then remember_withdrawals w (c_withdrawals c) else c_withdrawals c).

(** The loop of the v1 conversion: a key becomes a reference, a full
    transaction moves to the list of full ones. *)
Fixpoint v1_tx_refs (txs : list Bytes) : list u64 * list Bytes :=
  match txs with
  | [] => ([], [])
  | tx :: rest =>
      let '(refs, full) := v1_tx_refs rest in
      if len tx =? 8 then (from_le_bytes tx :: refs, full)
      else (NEXT_FULL_ITEM :: refs, tx :: full)
  end.

(** [None] is the [expect] on the length of the list of full transactions. *)
Definition from_v1 (v1 : DehydratedBidSubmissionFuluV1) : option DehydratedBidSubmissionFulu :=
  let '(tx_refs, full) := v1_tx_refs (ep_transactions (v1_execution_payload v1)) in
  if max_transactions_per_payload <? len full then None
  else Some {|
    dh_message := v1_message v1;
    dh_execution_payload := (v1_execution_payload v1) <| ep_transactions := full |>;
    dh_blobs_bundle :=
      mkDehydratedBlobsFuluV2 (blob_cache_key <$> db1_commitments (v1_blobs_bundle v1))
        (db1_new_items (v1_blobs_bundle v1));
    dh_execution_requests := v1_execution_requests v1;
    dh_signature := v1_signature v1;
    dh_tx_root := v1_tx_root v1;
    dh_tx_refs := tx_refs;
    dh_withdrawals_ref := 0
  |}.

(** ** [HydrationCache] *)

Definition hydration_cache_new : HydrationCache := mkHydrationCache ∅.

Definition can_hydrate (h : HydrationCache) (d : DehydratedBidSubmission)
    (max_blobs_per_block : Z) : bool :=
  match d with
  | DFulu s =>
      match hc_caches h !! bt_builder_pubkey (dh_message s) with
      | Some c => can_hydrate_inner s c max_blobs_per_block
      | None => can_hydrate_inner s (mkCache ∅ ∅ ∅) max_blobs_per_block
      end
  end.

Definition cached_withdrawals_root (h : HydrationCache) (d : DehydratedBidSubmission)
    : option B256 :=
  match d with
  | DFulu s =>
      if negb (dh_withdrawals_ref s =? 0) then
        c ← hc_caches h !! bt_builder_pubkey (dh_message s);
        snd <$> c_withdrawals c !! dh_withdrawals_ref s
      else None
  end.

Definition hydrate (h : HydrationCache) (d : DehydratedBidSubmission) (max_blobs_per_block : Z)
    : option (Result HydratedData HydrationError * HydrationCache) :=
  match d with
  | DFulu s =>
      let pubkey := bt_builder_pubkey (dh_message s) in
      let entry := default cache_new (hc_caches h !! pubkey) in
      '(r, entry') ← hydrate_inner s entry max_blobs_per_block;
      Some (r, h <| hc_caches ::= <[pubkey := entry']> |>)
  end.

Definition feed (h : HydrationCache) (d : DehydratedBidSubmission) : HydrationCache :=
  match d with
  | DFulu s =>
      let pubkey := bt_builder_pubkey (dh_message s) in
      let entry := default cache_new (hc_caches h !! pubkey) in
      h <| hc_caches ::= <[pubkey := feed_inner s entry]> |>
  end.

Definition clear (h : HydrationCache) : HydrationCache :=
  h <| hc_caches ::= fmap (λ _, mkCache ∅ ∅ ∅) |>.
End hydration.

(** ** Invariant of the caches

    Every entry sits under the key its content hashes to, a cached transaction
    is long enough to be keyed, a cached blob has the proofs of all its cells
    and cached withdrawals carry their root. *)
Section invariant.
Context `{FX : FxHasher} `{ES : EthSpec} `{TH : TreeHash}.

Definition txs_ok (m : gmap u64 Bytes) : Prop :=
  map_Forall (λ k tx, tx_cache_key tx = k ∧ TX_KEY_SIZE ≤ len tx) m.

Definition blobs_ok (m : gmap u64 CachedBlob) : Prop :=
  map_Forall (λ k '(com, proofs, _), blob_cache_key com = k ∧ len proofs = CELLS_PER_EXT_BLOB) m.

Definition withdrawals_ok (m : gmap u64 CachedWithdrawals) : Prop :=
  map_Forall (λ k '(w, root), withdrawals_key w = k ∧ root = withdrawals_root w) m.

Definition cache_ok (c : Cache) : Prop :=
  txs_ok (c_transactions c) ∧ blobs_ok (c_blobs_fulu c) ∧ withdrawals_ok (c_withdrawals c).

Definition hydration_ok (h : HydrationCache) : Prop := map_Forall (λ _, cache_ok) (hc_caches h).

Lemma cache_new_ok : cache_ok cache_new.
Proof. split_and!; apply map_Forall_empty. Qed.

Lemma remember_withdrawals_ok w m : withdrawals_ok m → withdrawals_ok (remember_withdrawals w m).
Proof.
  intros Hm. unfold remember_withdrawals. destruct (m !! _); [done|].
  by apply map_Forall_insert_2.
Qed.

Lemma hydrate_tx_ok l e : txs_ok (tl_txs l) → txs_ok (tl_txs (hydrate_tx l e)).
Proof.
  intros Hl. destruct e as [i r]. simpl. case_match; [|by case_match].
  case_match; [done|]. destruct (Z.ltb_spec (len l0) TX_KEY_SIZE); [done|].
  by apply map_Forall_insert_2.
Qed.

Lemma remember_blob_ok l e : blobs_ok (bl_blobs l) → blobs_ok (bl_blobs (remember_blob l e)).
Proof.
  intros Hl. destruct e as [i b]. simpl. unfold has_all_cells.
  destruct (Z.eqb_spec (len (bi_proof b)) CELLS_PER_EXT_BLOB); [|done].
  by apply map_Forall_insert_2.
Qed.

Lemma hydrate_withdrawals_ok s c ws m err :
  withdrawals_ok (c_withdrawals c) → hydrate_withdrawals s c = (ws, m, err) → withdrawals_ok m.
Proof.
  intros Hc. unfold hydrate_withdrawals. repeat case_match; intros [= <- <- <-];
    auto using remember_withdrawals_ok.
Qed.

Lemma hydrate_inner_cache_ok s c max r c' :
  cache_ok c → hydrate_inner s c max = Some (r, c') → cache_ok c'.
Proof.
  intros (Ht & Hb & Hw) H. unfold hydrate_inner in H.
  destruct (hydrate_withdrawals s c) as [[ws m] err] eqn:E.
  apply hydrate_withdrawals_ok in E; [|done].
  set (tl := foldl hydrate_tx _ _) in *.
  assert (txs_ok (tl_txs tl)) as Htl.
  { apply (foldl_preserves (λ l, txs_ok (tl_txs l))); [apply hydrate_tx_ok|done]. }
  set (bl := foldl remember_blob _ _) in *.
  assert (blobs_ok (bl_blobs bl)) as Hbl.
  { apply (foldl_preserves (λ l, blobs_ok (bl_blobs l))); [apply remember_blob_ok|done]. }
  repeat case_match; simplify_eq; by split_and!.
Qed.

Lemma feed_inner_ok s c : cache_ok c → cache_ok (feed_inner s c).
Proof.
  intros (Ht & Hb & Hw). unfold feed_inner. split_and!; cbn.
  - apply (foldl_preserves txs_ok); [|done]. intros m tx Hm. unfold feed_tx.
    destruct (Z.leb_spec TX_KEY_SIZE (len tx)); [|done]. by apply map_Forall_insert_2.
  - apply (foldl_preserves blobs_ok); [|done]. intros m b Hm. unfold feed_blob, has_all_cells.
    destruct (Z.eqb_spec (len (bi_proof b)) CELLS_PER_EXT_BLOB); [|done].
    by apply map_Forall_insert_2.
  - case_match; auto using remember_withdrawals_ok.
Qed.

Lemma entry_ok h k : hydration_ok h → cache_ok (default cache_new (hc_caches h !! k)).
Proof.
  intros Hh. destruct (hc_caches h !! k) as [c|] eqn:E; simpl; [|apply cache_new_ok].
  by apply (Hh k).
Qed.

Lemma hydrate_ok h d max r h' :
  hydration_ok h → hydrate h d max = Some (r, h') → hydration_ok h'.
Proof.
  intros Hh H. destruct d as [s]. simpl in H.
  apply bind_Some in H as ([r' c'] & E & [= -> <-]).
  apply map_Forall_insert_2; [|done].
  eapply hydrate_inner_cache_ok; [|done]. by apply entry_ok.
Qed.

Lemma feed_ok h d : hydration_ok h → hydration_ok (feed h d).
Proof.
  intros Hh. destruct d as [s]. apply map_Forall_insert_2; [|done].
  by apply feed_inner_ok, entry_ok.
Qed.

Lemma clear_ok h : hydration_ok (clear h).
Proof.
  intros k c. cbn. rewrite lookup_fmap, fmap_Some. intros (? & _ & ->). apply cache_new_ok.
Qed.
End invariant.

(** ** Success *)

Section success.
Context `{FX : FxHasher} `{ES : EthSpec} `{TH : TreeHash}.

Lemma next_full_refs_cons r refs :
  next_full_refs (r :: refs) = (if r =? NEXT_FULL_ITEM then 1 else 0) + next_full_refs refs.
Proof.
  unfold next_full_refs, len. rewrite filter_cons.
  destruct (Z.eqb_spec r NEXT_FULL_ITEM); case_decide; simpl; try lia; congruence.
Qed.

(** The loop over the references succeeds when every keyed reference is
    cached and every other one finds a full transaction long enough. *)
Lemma hydrate_txs_success refs i l :
  tl_err l = None →
  Forall (λ tx, TX_KEY_SIZE ≤ len tx) (tl_full l) →
  next_full_refs refs ≤ len (tl_full l) →
  Forall (λ r, r = NEXT_FULL_ITEM ∨ is_Some (tl_txs l !! r)) refs →
  let l' := foldl hydrate_tx l (enumerate_from i refs) in
  tl_err l' = None ∧ len (tl_hydrated l') = len (tl_hydrated l) + len refs.
Proof.
  revert i l. induction refs as [|r refs IH]; intros i l Herr Hfull Hn Href; simpl.
  { unfold len. simpl. split; [done|lia]. }
  apply Forall_cons in Href as [Hr Href]. rewrite next_full_refs_cons in Hn.
  destruct (Z.eqb_spec r NEXT_FULL_ITEM) as [->|Hne].
  - pose proof (len_nonneg (filter (λ r, r = NEXT_FULL_ITEM) refs)) as Hnn.
    fold (next_full_refs refs) in Hnn.
    destruct (tl_full l) as [|tx full] eqn:Ef; [unfold len in Hn at 1; simpl in Hn; lia|].
    apply Forall_cons in Hfull as [Htx Hfull].
    destruct (Z.ltb_spec (len tx) TX_KEY_SIZE); [lia|].
    set (l1 := mkTxLoop _ _ _ _ _).
    destruct (IH (S i) l1) as [He Hl]; subst l1; cbn.
    + done.
    + done.
    + unfold len in *. simpl in Hn. lia.
    + eapply Forall_impl; [exact Href|]. intros r' [->|Hr']; [by left|right].
      rewrite lookup_insert. by case_decide.
    + split; [done|]. cbn in Hl. rewrite Hl, len_app. unfold len. simpl. lia.
  - destruct Hr as [?|[tx Htx]]; [done|]. rewrite Htx.
    set (l1 := mkTxLoop _ _ _ _ _).
    destruct (IH (S i) l1) as [He Hl]; subst l1; cbn; [done|done|lia|done|].
    split; [done|]. cbn in Hl. rewrite Hl, len_app. unfold len. simpl. lia.
Qed.

Lemma remember_blobs_success items i l :
  Forall (λ b, has_all_cells (bi_proof b) = true) items →
  let l' := foldl remember_blob l (enumerate_from i items) in
  bl_err l' = bl_err l ∧
  bl_new_keys l' = bl_new_keys l ++ ((λ b, blob_cache_key (bi_commitment b)) <$> items) ∧
  (∀ k, is_Some (bl_blobs l !! k) ∨ k ∈ ((λ b, blob_cache_key (bi_commitment b)) <$> items) →
        is_Some (bl_blobs l' !! k)).
Proof.
  revert i l. induction items as [|b items IH]; intros i l Hall; simpl.
  { rewrite app_nil_r. split_and!; [done|done|]. intros k [?|?%elem_of_nil]; done. }
  apply Forall_cons in Hall as [Hb Hall]. rewrite Hb.
  set (l1 := mkBlobLoop _ _ _). destruct (IH (S i) l1 Hall) as (He & Hk & Hd). subst l1. cbn in *.
  split_and!; [done|by rewrite Hk, <- app_assoc|]. intros k Hor. apply Hd.
  rewrite lookup_insert. destruct (decide _); [left; eauto|]. set_solver.
Qed.

Lemma build_sidecar_success blobs refs i keys sc :
  Forall (λ k, is_Some (blobs !! k)) keys →
  next_full_refs refs ≤ len keys →
  Forall (λ r, r = NEXT_FULL_ITEM ∨ is_Some (blobs !! r)) refs →
  len (bb_commitments sc) + len refs ≤ max_blob_commitments_per_block →
  ∃ sc', build_sidecar blobs i refs keys sc = Some (Ok sc').
Proof.
  revert i keys sc. induction refs as [|r refs IH]; intros i keys sc Hkeys Hn Href Hlen.
  { by exists sc. }
  apply Forall_cons in Href as [Hr Href]. rewrite next_full_refs_cons in Hn.
  pose proof (len_nonneg (filter (λ r, r = NEXT_FULL_ITEM) refs)) as Hnn.
  fold (next_full_refs refs) in Hnn.
  assert (∀ com pr bl keys',
    Forall (λ k, is_Some (blobs !! k)) keys' → next_full_refs refs ≤ len keys' →
    ∃ sc', build_sidecar blobs (S i) refs keys'
      (mkBlobsBundle (bb_commitments sc ++ [com]) (bb_proofs sc ++ pr) (bb_blobs sc ++ [bl]))
      = Some (Ok sc')) as Hrest.
  { intros com pr bl keys' Hk Hn'. apply IH; [done..|]. cbn. rewrite len_app.
    unfold len in *. simpl in *. lia. }
  cbn [build_sidecar]. cbv zeta. destruct (Z.eqb_spec r NEXT_FULL_ITEM) as [->|Hne].
  - destruct keys as [|k keys]; [unfold len in Hn at 1; simpl in Hn; lia|].
    apply Forall_cons in Hkeys as [[[[com pr] bl] Hk] Hkeys]. cbv beta iota. rewrite Hk.
    destruct (Z.ltb_spec (len (bb_commitments sc)) max_blob_commitments_per_block).
    + apply Hrest; [done|]. unfold len in Hn at 1. unfold len. simpl in Hn. lia.
    + unfold len in *. simpl in *. lia.
  - destruct Hr as [?|[[[com pr] bl] Hr]]; [done|]. rewrite Hr.
    destruct (Z.ltb_spec (len (bb_commitments sc)) max_blob_commitments_per_block).
    + apply Hrest; [done|lia].
    + unfold len in *. simpl in *. lia.
Qed.

Lemma build_sidecar_lengths blobs refs i keys sc sc' :
  blobs_ok blobs → build_sidecar blobs i refs keys sc = Some (Ok sc') →
  len (bb_commitments sc') = len (bb_commitments sc) + len refs ∧
  len (bb_blobs sc') = len (bb_blobs sc) + len refs ∧
  len (bb_proofs sc') = len (bb_proofs sc) + len refs * CELLS_PER_EXT_BLOB.
Proof.
  intros Hok. revert i keys sc. induction refs as [|r refs IH]; intros i keys sc; simpl.
  { intros [= ->]. unfold len; simpl. lia. }
  destruct (if r =? NEXT_FULL_ITEM then _ else _) as [[k keys']|e]; [|done].
  destruct (blobs !! k) as [[[com pr] bl]|] eqn:Hk; [|done].
  case_match; [|done]. intros (H1 & H2 & H3)%IH. cbn in *.
  destruct (Hok k _ Hk) as [_ Hpr]. rewrite H1, H2, H3, !len_app, Hpr.
  unfold len. simpl. nia.
Qed.

(** What [can_hydrate_inner] checks. *)
Lemma can_hydrate_inner_spec s c max :
  can_hydrate_inner s c max = true →
  let refs := db_refs (dh_blobs_bundle s) in
  let items := db_new_items (dh_blobs_bundle s) in
  let full := ep_transactions (dh_execution_payload s) in
  len (dh_tx_refs s) ≤ max_transactions_per_payload ∧ len refs ≤ max ∧
  (dh_withdrawals_ref s = 0 ∨ is_Some (c_withdrawals c !! dh_withdrawals_ref s)) ∧
  Forall (λ tx, TX_KEY_SIZE ≤ len tx) full ∧ next_full_refs (dh_tx_refs s) ≤ len full ∧
  Forall (λ r, r = NEXT_FULL_ITEM ∨ is_Some (c_transactions c !! r)) (dh_tx_refs s) ∧
  Forall (λ b, has_all_cells (bi_proof b) = true) items ∧ next_full_refs refs ≤ len items ∧
  Forall (λ r, r = NEXT_FULL_ITEM ∨ is_Some (c_blobs_fulu c !! r) ∨
               r ∈ ((λ b, blob_cache_key (bi_commitment b)) <$> items)) refs.
Proof.
  unfold can_hydrate_inner. cbv zeta.
  rewrite !andb_true_iff, !Z.leb_le, !forallb_Forall, orb_true_iff, Z.eqb_eq,
    bool_decide_eq_true.
  intros (((((((((? & ?) & ?) & ?) & Hfull) & ?) & Htx) & ?) & ?) & Hblob).
  split_and!; try done.
  - eapply Forall_impl; [exact Hfull|]. intros tx. by rewrite Z.leb_le.
  - eapply Forall_impl; [exact Htx|]. intros r.
    by rewrite orb_true_iff, Z.eqb_eq, bool_decide_eq_true.
  - eapply Forall_impl; [exact Hblob|]. intros r. cbv beta.
    rewrite !orb_true_iff, Z.eqb_eq, existsb_elem.
    intros [[?|(b & Hb & Hr%Z.eqb_eq)]|H']; [by left| |].
    + right; right. apply list_elem_of_fmap. eauto.
    + right; left. by destruct (c_blobs_fulu c !! r).
Qed.

Lemma hydrate_withdrawals_success s c :
  withdrawals_ok (c_withdrawals c) →
  dh_withdrawals_ref s = 0 ∨ is_Some (c_withdrawals c !! dh_withdrawals_ref s) →
  ∃ ws m, hydrate_withdrawals s c = (ws, m, None) ∧
    withdrawals_root ws =
      if dh_withdrawals_ref s =? 0 then withdrawals_root (ep_withdrawals (dh_execution_payload s))
      else from_option snd 0 (c_withdrawals c !! dh_withdrawals_ref s).
Proof.
  intros Hok Hor. unfold hydrate_withdrawals.
  destruct (Z.eqb_spec (dh_withdrawals_ref s) 0) as [E|E]; simpl.
  - case_bool_decide; eauto.
  - destruct Hor as [?|[[w root] Hw]]; [done|]. rewrite Hw. simpl.
    destruct (Hok _ _ Hw) as [_ ->]. eauto.
Qed.

(** A submission that passes [can_hydrate_inner] hydrates. *)
Lemma hydrate_inner_success s c max :
  cache_ok c → max ≤ max_blob_commitments_per_block → can_hydrate_inner s c max = true →
  ∃ data c', hydrate_inner s c max = Some (Ok data, c') ∧
    let sub := hd_submission data in
    sf_message sub = dh_message s ∧
    len (ep_transactions (sf_execution_payload sub)) = len (dh_tx_refs s) ∧
    blobs_validate_ssz_lengths (sf_blobs_bundle sub) max = Ok tt ∧
    submission_validate (Full (SFulu sub)) = submission_validate (Dehydrated (DFulu s)) ∧
    withdrawals_root (ep_withdrawals (sf_execution_payload sub)) =
      if dh_withdrawals_ref s =? 0 then withdrawals_root (ep_withdrawals (dh_execution_payload s))
      else from_option snd 0 (c_withdrawals c !! dh_withdrawals_ref s).
Proof.
  intros (Htok & Hbok & Hwok) Hmax
    (Hn & Hb & Hw & Hfull & Hnext & Htxs & Hitems & Hnew & Hrefs)%can_hydrate_inner_spec.
  destruct (hydrate_withdrawals_success s c Hwok Hw) as (ws & m & Ews & Hroot).
  unfold hydrate_inner. rewrite Ews.
  destruct (hydrate_txs_success (dh_tx_refs s) 0
    (mkTxLoop (c_transactions c) (ep_transactions (dh_execution_payload s)) [] 0 None))
    as [Herr Hlen]; [done..|]. fold (enumerate (dh_tx_refs s)) in Herr, Hlen.
  set (tl := foldl hydrate_tx _ _) in *. cbn [tl_hydrated] in Hlen.
  assert (len (tl_hydrated tl) = len (dh_tx_refs s)) as Hlen' by (rewrite Hlen; done).
  destruct (Z.ltb_spec max_transactions_per_payload (len (tl_hydrated tl))); [lia|].
  destruct (remember_blobs_success (db_new_items (dh_blobs_bundle s)) 0
    (mkBlobLoop (c_blobs_fulu c) [] (tl_err tl)) Hitems) as (Hberr & Hkeys & Hdom).
  assert (blobs_ok (bl_blobs (foldl remember_blob (mkBlobLoop (c_blobs_fulu c) [] (tl_err tl))
    (enumerate (db_new_items (dh_blobs_bundle s)))))) as Hblok.
  { apply (foldl_preserves (λ l, blobs_ok (bl_blobs l))); [apply remember_blob_ok|done]. }
  fold (enumerate (db_new_items (dh_blobs_bundle s))) in Hberr, Hkeys, Hdom.
  set (bl := foldl remember_blob _ _) in *. cbn in Hberr, Hkeys, Hdom.
  destruct (Z.ltb_spec max (len (db_refs (dh_blobs_bundle s)))); [lia|].
  rewrite Hberr, Herr.
  destruct (build_sidecar_success (bl_blobs bl) (db_refs (dh_blobs_bundle s)) 0
    (bl_new_keys bl) (mkBlobsBundle [] [] [])) as [sc Hsc].
  - rewrite Hkeys. apply Forall_forall. intros k Hk. apply Hdom. by right.
  - rewrite Hkeys. unfold len. rewrite length_fmap. done.
  - eapply Forall_impl; [exact Hrefs|]. naive_solver.
  - unfold len at 1. simpl. lia.
  - rewrite Hsc. do 2 eexists. split; [done|]. cbn. split_and!; [done|done| |done|done].
    apply build_sidecar_lengths in Hsc as (H1 & H2 & H3); [|done].
    apply blobs_lengths_ok. rewrite H1, H2, H3. unfold len. simpl. unfold len in *. lia.
Qed.
End success.

(** ** Round trip *)

Section round_trip.
Context `{FX : FxHasher} `{ES : EthSpec} `{TH : TreeHash}.

(** What a builder sends for the block [txs] when it takes the relay to hold
    the transactions in [known]. *)
Definition dehydrate_refs (known : Bytes → bool) (txs : list Bytes) : list u64 :=
  (λ tx, if known tx then tx_cache_key tx else NEXT_FULL_ITEM) <$> txs.
Definition dehydrate_full (known : Bytes → bool) (txs : list Bytes) : list Bytes :=
  filter (λ tx, known tx = false) txs.

(** The relay really holds them, and no full transaction of the block takes
    the key of one of them. *)
Definition dehydrates (known : Bytes → bool) (txs : list Bytes) (cached : gmap u64 Bytes) : Prop :=
  (∀ tx, tx ∈ txs → known tx = true →
     tx_cache_key tx ≠ NEXT_FULL_ITEM ∧ cached !! tx_cache_key tx = Some tx) ∧
  (∀ tx tx', tx ∈ txs → tx' ∈ txs → known tx = true → known tx' = false →
     tx_cache_key tx ≠ tx_cache_key tx').

Lemma hydrate_txs_round_trip known txs i l :
  dehydrates known txs (tl_txs l) →
  tl_full l = dehydrate_full known txs →
  Forall (λ tx, TX_KEY_SIZE ≤ len tx) (tl_full l) →
  tl_hydrated (foldl hydrate_tx l (enumerate_from i (dehydrate_refs known txs))) =
    tl_hydrated l ++ txs.
Proof.
  revert i l. induction txs as [|tx txs IH]; intros i l [Hkn Hcol] Hfull Hlen.
  { simpl. by rewrite app_nil_r. }
  unfold dehydrate_full in Hfull. rewrite filter_cons in Hfull.
  cbn [dehydrate_refs fmap list_fmap enumerate_from foldl].
  destruct (known tx) eqn:Ek.
  - rewrite decide_False in Hfull by done.
    destruct (Hkn tx) as [Hne Hc]; [set_solver|done|]. unfold hydrate_tx at 2.
    destruct (Z.eqb_spec (tx_cache_key tx) NEXT_FULL_ITEM); [done|]. rewrite Hc.
    fold (dehydrate_refs known txs). rewrite IH; cbn; [by rewrite <- app_assoc| |done|done].
    split; intros; [apply Hkn|apply Hcol]; set_solver.
  - rewrite decide_True in Hfull by done. rewrite Hfull in Hlen.
    apply Forall_cons in Hlen as [Htx Hlen]. unfold hydrate_tx at 2.
    rewrite Z.eqb_refl, Hfull. destruct (Z.ltb_spec (len tx) TX_KEY_SIZE); [lia|].
    fold (dehydrate_refs known txs). rewrite IH; cbn; [by rewrite <- app_assoc| |done|done].
    split.
    + intros tx' Hin Hk'. destruct (Hkn tx') as [? Hc]; [set_solver|done|]. split; [done|].
      rewrite lookup_insert_ne; [done|]. intros E. apply (Hcol tx' tx); set_solver.
    + intros; apply Hcol; set_solver.
Qed.

Lemma hydrate_inner_transactions s c max data c' :
  hydrate_inner s c max = Some (Ok data, c') →
  ∃ err, ep_transactions (sf_execution_payload (hd_submission data)) =
    tl_hydrated (foldl hydrate_tx
      (mkTxLoop (c_transactions c) (ep_transactions (dh_execution_payload s)) [] 0 err)
      (enumerate (dh_tx_refs s))).
Proof.
  unfold hydrate_inner. destruct (hydrate_withdrawals s c) as [[ws m] err]. intros H.
  exists err. repeat case_match; by simplify_eq.
Qed.

Lemma v1_tx_refs_spec txs refs full :
  v1_tx_refs txs = (refs, full) →
  length refs = length txs ∧ full = filter (λ tx, len tx ≠ 8) txs ∧
  len full ≤ next_full_refs refs.
Proof.
  revert refs full. induction txs as [|tx txs IH]; intros refs full; simpl.
  { intros [= <- <-]. split_and!; [done|done|]. unfold next_full_refs, len. simpl. lia. }
  destruct (v1_tx_refs txs) as [refs' full'] eqn:E.
  destruct (IH refs' full' eq_refl) as (Hl & Hf & Hn).
  destruct (Z.eqb_spec (len tx) 8) as [H8|H8]; intros [= <- <-];
    rewrite next_full_refs_cons, filter_cons.
  - rewrite decide_False by naive_solver. split_and!; [simpl; lia|done|]. case_match; lia.
  - rewrite decide_True by done. split_and!; [simpl; lia|by f_equal|].
    rewrite Z.eqb_refl. unfold len in *. simpl. lia.
Qed.
End round_trip.

(** ** Properties *)

(** An operation of the relay on the hydration cache. *)
Inductive HydrationOp :=
| OpHydrate (d : DehydratedBidSubmission) (max : Z)
| OpFeed (d : DehydratedBidSubmission)
| OpClear.

Section properties.
Context `{FX : FxHasher} `{ES : EthSpec} `{TH : TreeHash}.

Definition hydration_step (op : HydrationOp) (h : HydrationCache) : option HydrationCache :=
  match op with
  | OpHydrate d max => snd <$> hydrate h d max
  | OpFeed d => Some (feed h d)
  | OpClear => Some (clear h)
  end.

Definition hydration_run (ops : list HydrationOp) : option HydrationCache :=
  foldl (λ h op, h ≫= hydration_step op) (Some hydration_cache_new) ops.

Lemma hydration_run_ok ops h : hydration_run ops = Some h → hydration_ok h.
Proof.
  intros H. enough (∀ h, hydration_run ops = Some h → hydration_ok h) by auto. clear.
  apply (foldl_preserves (λ o, ∀ h, o = Some h → hydration_ok h)).
  - intros [h|] op Ho; cbn; [|done]. specialize (Ho h eq_refl).
    destruct op as [d max|d|]; cbn; intros h' Hh'.
    + apply fmap_Some in Hh' as ([r h''] & E & ->). by eapply hydrate_ok.
    + simplify_eq. by apply feed_ok.
    + simplify_eq. apply clear_ok.
  - intros h0 [= <-]. apply map_Forall_empty.
Qed.

(** A submission [can_hydrate] admits hydrates. *)
Lemma can_hydrate_success h d max :
  hydration_ok h → max ≤ max_blob_commitments_per_block →
  can_hydrate h d max = true →
  ∃ data h', hydrate h d max = Some (Ok data, h') ∧
    let sub := hd_submission data in
    sf_message sub = dehydrated_bid_trace d ∧
    len (ep_transactions (sf_execution_payload sub)) = dehydrated_num_txs d ∧
    blobs_validate_ssz_lengths (sf_blobs_bundle sub) max = Ok tt ∧
    submission_validate (Full (SFulu sub)) = submission_validate (Dehydrated d) ∧
    Some (withdrawals_root (ep_withdrawals (sf_execution_payload sub))) =
      match dehydrated_withdrawal_root d with
      | Some root => Some root
      | None => cached_withdrawals_root h d
      end.
Proof.
  intros Hok Hmax Hcan. destruct d as [s]. cbn in Hcan |- *.
  set (k := bt_builder_pubkey (dh_message s)) in *.
  assert (can_hydrate_inner s (default cache_new (hc_caches h !! k)) max = true) as Hcan'.
  { by destruct (hc_caches h !! k). }
  destruct (hydrate_inner_success s _ max (entry_ok h k Hok) Hmax Hcan')
    as (data & c' & E & Hmsg & Hlen & Hb & Hv & Hw).
  rewrite E. cbn. exists data, (h <| hc_caches ::= <[k := c']> |>).
  split_and!; [done..|]. rewrite Hw.
  destruct (Z.eqb_spec (dh_withdrawals_ref s) 0) as [E0|E0]; cbn; [done|].
  apply can_hydrate_inner_spec in Hcan' as (_ & _ & [?|[[w root] Hwd]] & _); [done|].
  destruct (hc_caches h !! k) as [c|]; cbn in *; [by rewrite Hwd|].
  by rewrite lookup_empty in Hwd.
Qed.
(** ** Sizes

    Transactions within the limit of the specification stay within it. *)
Definition tx_small (tx : Bytes) : Prop := len tx ≤ max_bytes_per_transaction.
Definition txs_small (m : gmap u64 Bytes) : Prop := map_Forall (λ _, tx_small) m.
Definition hydration_small (h : HydrationCache) : Prop :=
  map_Forall (λ _ c, txs_small (c_transactions c)) (hc_caches h).
Definition dehydrated_small (d : DehydratedBidSubmission) : Prop :=
  match d with DFulu s => Forall tx_small (ep_transactions (dh_execution_payload s)) end.
Definition loop_small (l : TxLoop) : Prop :=
  txs_small (tl_txs l) ∧ Forall tx_small (tl_full l) ∧ Forall tx_small (tl_hydrated l).

Lemma hydrate_tx_small l e : loop_small l → loop_small (hydrate_tx l e).
Proof.
  intros (Hm & Hf & Hh). destruct e as [i r]. unfold hydrate_tx.
  destruct (r =? NEXT_FULL_ITEM).
  - destruct (tl_full l) as [|tx full]; [done|]. apply Forall_cons in Hf as [Htx Hf].
    destruct (len tx <? TX_KEY_SIZE); split_and!; cbn; try done;
      try (apply Forall_app; split; [done|]; by repeat constructor).
    by apply map_Forall_insert_2.
  - destruct (tl_txs l !! r) as [tx|] eqn:E; [|done]. split_and!; cbn; [done..|].
    apply Forall_app. split; [done|]. constructor; [|done]. exact (Hm _ _ E).
Qed.

Lemma hydrate_small h d max r h' :
  hydration_small h → dehydrated_small d → hydrate h d max = Some (r, h') →
  hydration_small h' ∧
  ∀ data, r = Ok data → Forall tx_small (ep_transactions (sf_execution_payload (hd_submission data))).
Proof.
  intros Hh Hd H. destruct d as [s]. cbn in H, Hd.
  apply bind_Some in H as ([r' c'] & E & [= -> <-]). unfold hydrate_inner in E.
  destruct (hydrate_withdrawals s _) as [[ws m] err].
  set (l0 := mkTxLoop _ _ _ _ _) in *.
  assert (loop_small (foldl hydrate_tx l0 (enumerate (dh_tx_refs s)))) as (Hm & _ & Htx).
  { apply (foldl_preserves loop_small); [apply hydrate_tx_small|]. split_and!; [|done|constructor].
    cbn. destruct (hc_caches h !! _) as [c|] eqn:Ec; [exact (Hh _ _ Ec)|apply map_Forall_empty]. }
  set (tl := foldl hydrate_tx _ _) in *. set (bl := foldl remember_blob _ _) in *.
  assert (∀ b w, hydration_small (h <| hc_caches ::=
    <[bt_builder_pubkey (dh_message s) := mkCache (tl_txs tl) b w]> |>)) as Hins.
  { intros b w. by apply map_Forall_insert_2. }
  repeat case_match; simplify_eq; (split; [apply Hins|]); intros data [= <-]; done.
Qed.

Lemma feed_small h d : hydration_small h → dehydrated_small d → hydration_small (feed h d).
Proof.
  intros Hh Hd. destruct d as [s]. apply map_Forall_insert_2; [|done]. cbn.
  assert (txs_small (c_transactions (default cache_new
    (hc_caches h !! bt_builder_pubkey (dh_message s))))) as Hc.
  { destruct (hc_caches h !! _) as [c|] eqn:Ec; [exact (Hh _ _ Ec)|apply map_Forall_empty]. }
  cbn in Hd. revert Hc. generalize (c_transactions (default cache_new
    (hc_caches h !! bt_builder_pubkey (dh_message s)))).
  induction Hd as [|tx txs Htx _ IH]; intros m Hm; [done|]. cbn. apply IH. unfold feed_tx.
  case_match; [|done]. by apply map_Forall_insert_2.
Qed.

Lemma clear_small h : hydration_small (clear h).
Proof.
  intros k c. cbn. rewrite lookup_fmap, fmap_Some. intros (? & _ & ->). apply map_Forall_empty.
Qed.

Lemma check_tx_lengths_ok txs : Forall tx_small txs → check_tx_lengths txs = Ok tt.
Proof.
  induction 1 as [|tx txs Htx _ IH]; [done|]. cbn. unfold tx_small in Htx.
  destruct (Z.ltb_spec max_bytes_per_transaction (len tx)); [lia|done].
Qed.

(** The lengths checked after hydration hold. *)
Lemma can_hydrate_lengths h d max data h' :
  hydration_ok h → hydration_small h → dehydrated_small d → max ≤ max_blob_commitments_per_block →
  can_hydrate h d max = true → hydrate h d max = Some (Ok data, h') →
  validate_payload_ssz_lengths (hd_submission data) max = Ok tt.
Proof.
  intros Hok Hsm Hd Hmax Hcan E.
  destruct (can_hydrate_success h d max Hok Hmax Hcan) as (data' & h'' & E' & _ & Hlen & Hb & _).
  rewrite E in E'. injection E' as <- <-.
  destruct (hydrate_small h d max _ _ Hsm Hd E) as [_ Htx]. specialize (Htx data eq_refl).
  unfold validate_payload_ssz_lengths, payload_validate_ssz_lengths.
  rewrite (check_tx_lengths_ok _ Htx), Hlen, Hb. destruct d as [s]. cbn [dehydrated_num_txs].
  assert (∃ c, can_hydrate_inner s c max = true) as [c Hc].
  { cbn in Hcan. destruct (hc_caches h !! _); eauto. }
  pose proof (can_hydrate_inner_spec s c max Hc) as (Hn & _).
  assert (ep_extra_data (sf_execution_payload (hd_submission data)) =
          ep_extra_data (dh_execution_payload s)) as ->.
  { clear -E. cbn in E. apply bind_Some in E as ([r c'] & E & [= -> <-]). unfold hydrate_inner in E.
    destruct (hydrate_withdrawals s _) as [[ws m] err]. repeat case_match; by simplify_eq. }
  unfold can_hydrate_inner in Hc. rewrite !andb_true_iff in Hc.
  destruct Hc as (((((((((_ & _) & Hp) & _) & _) & _) & _) & _) & _) & _).
  unfold payload_validate_ssz_lengths in Hp.
  destruct (negb (max_extra_data_bytes <? _)); [|done]. cbn in Hp |- *.
  destruct (Z.ltb_spec max_transactions_per_payload (len (dh_tx_refs s))); [lia|]. done.
Qed.

(** ** Any outcome

    What holds of a hydration, whatever the caller checked first. *)
Lemma build_sidecar_total blobs refs i keys sc :
  len (bb_commitments sc) + len refs ≤ max_blob_commitments_per_block →
  is_Some (build_sidecar blobs i refs keys sc).
Proof.
  revert i keys sc. induction refs as [|r refs IH]; intros i keys sc Hlen; [by eexists|].
  assert (len (r :: refs) = 1 + len refs) as Hc by (unfold len; cbn [length]; lia).
  pose proof (len_nonneg refs). rewrite Hc in Hlen. cbn [build_sidecar]. cbv zeta.
  destruct (if r =? NEXT_FULL_ITEM then _ else _) as [[k keys']|e]; [|by eexists].
  destruct (blobs !! k) as [[[com pr] bl]|]; [|by eexists].
  destruct (Z.ltb_spec (len (bb_commitments sc)) max_blob_commitments_per_block); [|lia].
  apply IH. cbn. rewrite len_app. unfold len at 2. cbn [length]. lia.
Qed.

Lemma hydrate_total h d max : max ≤ max_blob_commitments_per_block → is_Some (hydrate h d max).
Proof.
  intros Hmax. destruct d as [s]. cbn. set (c := default _ _).
  assert (is_Some (hydrate_inner s c max)) as [[r c'] ->]; [|by eexists].
  unfold hydrate_inner. destruct (hydrate_withdrawals s c) as [[ws m] err].
  case_match; [by eexists|]. set (bl := foldl remember_blob _ _).
  destruct (Z.ltb_spec max (len (db_refs (dh_blobs_bundle s)))) as [|Hle]; [by eexists|].
  destruct (bl_err bl); [by eexists|].
  destruct (build_sidecar_total (bl_blobs bl) (db_refs (dh_blobs_bundle s)) 0 (bl_new_keys bl)
    (mkBlobsBundle [] [] [])) as [[sc|e] ->]; [cbn; unfold len in *; cbn; lia|by eexists..].
Qed.

Definition loop_long (l : TxLoop) : Prop :=
  txs_ok (tl_txs l) ∧ (tl_err l = None → Forall (λ tx, TX_KEY_SIZE ≤ len tx) (tl_hydrated l)).

Lemma hydrate_tx_long l e : loop_long l → loop_long (hydrate_tx l e).
Proof.
  intros [Ht Hh]. split; [by apply hydrate_tx_ok|]. destruct e as [i r]. unfold hydrate_tx.
  destruct (r =? NEXT_FULL_ITEM).
  - destruct (tl_full l) as [|tx full]; [done|].
    destruct (Z.ltb_spec (len tx) TX_KEY_SIZE); cbn; [done|]. intros He.
    apply Forall_app. split; [by apply Hh|by repeat constructor].
  - destruct (tl_txs l !! r) as [tx|] eqn:E; cbn; [|done]. intros He.
    apply Forall_app. split; [by apply Hh|]. constructor; [|done]. by destruct (Ht _ _ E).
Qed.

Lemma remember_blobs_err items l : bl_err (foldl remember_blob l items) = None → bl_err l = None.
Proof.
  revert l. induction items as [|[i b] items IH]; intros l; cbn; [done|]. intros H%IH.
  unfold remember_blob in H. by destruct (has_all_cells _).
Qed.

(** A hydrated submission keeps the bid trace, its transactions are long enough
    to be keyed, and its bundle has as many commitments as blobs and the proofs
    of every cell, so that the slices taken of it are in range. *)
Lemma hydrated_facts h d max data h' :
  hydration_ok h → hydrate h d max = Some (Ok data, h') →
  let sub := hd_submission data in
  sf_message sub = dehydrated_bid_trace d ∧
  Forall (λ tx, TX_KEY_SIZE ≤ len tx) (ep_transactions (sf_execution_payload sub)) ∧
  blobs_validate_ssz_lengths (sf_blobs_bundle sub) max = Ok tt.
Proof.
  intros Hok H. destruct d as [s]. cbn in H.
  pose proof (entry_ok h (bt_builder_pubkey (dh_message s)) Hok) as (Htok & Hbok & _).
  apply bind_Some in H as ([r c'] & E & [= -> <-]). unfold hydrate_inner in E.
  destruct (hydrate_withdrawals s _) as [[ws m] err].
  set (l0 := mkTxLoop _ _ _ _ _) in *. set (tl := foldl hydrate_tx _ _) in *.
  assert (loop_long tl) as [_ Hlong].
  { apply (foldl_preserves loop_long); [apply hydrate_tx_long|]. split; [done|constructor]. }
  set (bl := foldl remember_blob _ _) in *.
  assert (blobs_ok (bl_blobs bl)) as Hbl.
  { apply (foldl_preserves (λ l, blobs_ok (bl_blobs l))); [apply remember_blob_ok|done]. }
  case_match; [done|].
  destruct (Z.ltb_spec max (len (db_refs (dh_blobs_bundle s)))) as [?|Hle]; [done|].
  destruct (bl_err bl) eqn:Herr; [done|]. apply remember_blobs_err in Herr. cbn in Herr.
  destruct (build_sidecar (bl_blobs bl) 0 _ _ _) as [[sc|]|] eqn:Esc; [|done..].
  apply build_sidecar_lengths in Esc as (H1 & H2 & H3); [|done]. simplify_eq. cbn.
  split_and!; [done|by apply Hlong|].
  apply blobs_lengths_ok. rewrite H1, H2, H3. unfold len in *. simpl. lia.
Qed.

(** In a reachable cache, a dehydrated submission admitted by
    [can_hydrate] hydrates without panicking or failing. The full submission
    keeps the bid trace, has one transaction per reference and a blobs bundle
    of valid lengths, passes the same consistency checks as the dehydrated
    one, and its withdrawals have the root the relay checked before hydrating:
    the inline one, or the cached one for keyed withdrawals. *)
Theorem can_hydrate_sound ops h d max :
  hydration_run ops = Some h → max ≤ max_blob_commitments_per_block →
  can_hydrate h d max = true →
  ∃ data h', hydrate h d max = Some (Ok data, h') ∧
    let sub := hd_submission data in
    sf_message sub = dehydrated_bid_trace d ∧
    len (ep_transactions (sf_execution_payload sub)) = dehydrated_num_txs d ∧
    blobs_validate_ssz_lengths (sf_blobs_bundle sub) max = Ok tt ∧
    submission_validate (Full (SFulu sub)) = submission_validate (Dehydrated d) ∧
    Some (withdrawals_root (ep_withdrawals (sf_execution_payload sub))) =
      match dehydrated_withdrawal_root d with
      | Some root => Some root
      | None => cached_withdrawals_root h d
      end.
Proof. intros Hrun. by apply can_hydrate_success, (hydration_run_ok ops). Qed.

(** Whatever the caller checked first, a bundle that hydration returns
    has as many commitments as blobs and the proofs of every cell, so the
    slices taken of it are in range. *)
Theorem hydrated_bundle_valid ops h d max data h' :
  hydration_run ops = Some h → hydrate h d max = Some (Ok data, h') →
  blobs_validate_ssz_lengths (sf_blobs_bundle (hd_submission data)) max = Ok tt.
Proof.
  intros Hrun H. by apply (hydrated_facts h d max data h' (hydration_run_ok ops h Hrun)) in H as (_ & _ & ?).
Qed.

(** C35: Dehydration followed by hydration is the identity on the block's
    transactions. When the builder replaces by its key any set of transactions
    the relay holds, and none of the transactions it sends in full has the key
    of a replaced one, hydrating gives the block back in order. *)
Theorem hydration_round_trip known txs s c max :
  cache_ok c → max ≤ max_blob_commitments_per_block →
  dh_tx_refs s = dehydrate_refs known txs →
  ep_transactions (dh_execution_payload s) = dehydrate_full known txs →
  dehydrates known txs (c_transactions c) →
  can_hydrate_inner s c max = true →
  ∃ data c', hydrate_inner s c max = Some (Ok data, c') ∧
    ep_transactions (sf_execution_payload (hd_submission data)) = txs.
Proof.
  intros Hc Hmax Hrefs Hfull Hd Hcan.
  destruct (hydrate_inner_success s c max Hc Hmax Hcan) as (data & c' & E & _).
  exists data, c'. split; [done|].
  destruct (hydrate_inner_transactions s c max data c' E) as [err ->].
  rewrite Hrefs. apply (hydrate_txs_round_trip known txs 0); cbn; [done|done|].
  by apply can_hydrate_inner_spec in Hcan as (_ & _ & _ & ? & _).
Qed.
End properties.

(** A concrete hash to evaluate examples with: the sum of the bytes written. *)
Definition ex_hash : FxHasher := λ ws,
  1 + sumZ ((λ w, match w with WriteU64 n => n | WriteBytes b => sumZ b | WriteArray a => a end) <$> ws).

(** The first submission carries everything in full, the second refers to the
    transaction, the blob and the withdrawals of the first. *)
Definition ex_dehydrated1 : DehydratedBidSubmissionFulu :=
  mkDehydratedBidSubmissionFulu ex_trace (ex_payload [ex_tx 1] [ex_withdrawal])
    (mkDehydratedBlobsFuluV2 [0] [mkBlobItemFulu (replicate 128 5) 6 7]) [] 0 None [0] 0.
Definition ex_dehydrated2 : DehydratedBidSubmissionFulu :=
  mkDehydratedBidSubmissionFulu ex_trace (ex_payload [ex_tx 2] [])
    (mkDehydratedBlobsFuluV2 [7] []) [] 0 None [68; 0] 11.

Lemma can_hydrate_sound_witness :
  ∃ h data h',
    hydration_run (FX := ex_hash) (ES := mainnet) (TH := ex_roots)
      [OpHydrate (DFulu ex_dehydrated1) 9] = Some h ∧
    hydrate (FX := ex_hash) (ES := mainnet) (TH := ex_roots) h (DFulu ex_dehydrated2) 9
      = Some (Ok data, h') ∧
    len (ep_transactions (sf_execution_payload (hd_submission data))) = 2.
Proof.
  destruct (hydration_run (FX := ex_hash) (ES := mainnet) (TH := ex_roots)
    [OpHydrate (DFulu ex_dehydrated1) 9]) as [h|] eqn:E.
  - destruct (can_hydrate_sound (FX := ex_hash) (ES := mainnet) (TH := ex_roots)
      [OpHydrate (DFulu ex_dehydrated1) 9] h (DFulu ex_dehydrated2) 9)
      as (data & h' & Hh & _ & Hlen & _).
    + exact E.
    + vm_compute. discriminate.
    + vm_compute in E. injection E as <-. vm_compute. reflexivity.
    + exists h, data, h'. split_and!; [done|done|]. rewrite Hlen. reflexivity.
  - vm_compute in E. discriminate.
Defined.

Lemma hydrated_bundle_valid_witness :
  ∃ data h', hydrate (FX := ex_hash) (ES := mainnet) (TH := ex_roots) hydration_cache_new
      (DFulu ex_dehydrated1) 9 = Some (Ok data, h') ∧
    blobs_validate_ssz_lengths (ES := mainnet) (sf_blobs_bundle (hd_submission data)) 9 = Ok tt.
Proof.
  destruct (hydrate (FX := ex_hash) (ES := mainnet) (TH := ex_roots) hydration_cache_new
    (DFulu ex_dehydrated1) 9) as [[[data|e] h']|] eqn:E.
  - exists data, h'. split; [reflexivity|].
    apply (hydrated_bundle_valid (FX := ex_hash) (ES := mainnet) (TH := ex_roots)
      [] hydration_cache_new (DFulu ex_dehydrated1) 9 data h'); [reflexivity|exact E].
  - vm_compute in E. discriminate.
  - vm_compute in E. discriminate.
Defined.

Lemma hydration_round_trip_witness :
  ∃ data c', hydrate_inner (FX := ex_hash) (ES := mainnet) (TH := ex_roots) ex_dehydrated2
      (mkCache {[68 := ex_tx 1]} {[7 := (6, replicate 128 5, 7)]}
               {[11 := ([ex_withdrawal], 4)]}) 9 = Some (Ok data, c') ∧
    ep_transactions (sf_execution_payload (hd_submission data)) = [ex_tx 1; ex_tx 2].
Proof.
  apply (hydration_round_trip (FX := ex_hash) (ES := mainnet) (TH := ex_roots)
    (λ tx, bool_decide (tx = ex_tx 1)) [ex_tx 1; ex_tx 2]).
  - split_and!; cbn; apply map_Forall_singleton; vm_compute; split; congruence.
  - vm_compute. discriminate.
  - vm_compute. reflexivity.
  - vm_compute. reflexivity.
  - split.
    + intros tx [->|[->|?%elem_of_nil]%elem_of_cons]%elem_of_cons; [|vm_compute; discriminate|done].
      intros _. split; [vm_compute; discriminate|reflexivity].
    + intros tx tx' [->|[->|?%elem_of_nil]%elem_of_cons]%elem_of_cons
        [->|[->|?%elem_of_nil]%elem_of_cons]%elem_of_cons; vm_compute; congruence.
  - vm_compute. reflexivity.
Defined.
