(* ===== verification/SlotStores.v ===== *)
(** * Stores that outlive a slot

    [relay/src/auctioneer/seen_blocks.rs], the [PayloadStore] of
    [context.rs], [builder_preferences.rs] and the reveal decision of
    [gloas_payload.rs]. *)

From S2P Require Import Prelude Types Submission.

(** ** Blocks seen per slot *)

Record SeenBlock := mkSeenBlock {
  sb_block_root : B256;
  sb_parent_root : B256;
  sb_bid_builder_index : u64;
  sb_bid_block_hash : B256
}.
#[export] Instance SeenBlock_eq_dec : EqDecision SeenBlock.
Proof. solve_decision. Defined.

Inductive Recorded := RecNew | RecRepeat | RecLate.

Record SeenBlocks := mkSeenBlocks {
  sbs_slots : gmap u64 (list SeenBlock);
  sbs_decided : u64
}.
#[export] Instance eta_SeenBlocks : Eta SeenBlocks :=
  λ r, mkSeenBlocks (sbs_slots r) (sbs_decided r).

Definition seen_blocks_default : SeenBlocks := mkSeenBlocks ∅ 0.

Definition record (slot : u64) (block : SeenBlock) (s : SeenBlocks) : Recorded * SeenBlocks :=
  if slot <=? sbs_decided s then (RecLate, s)
  else
    let seen := default [] (sbs_slots s !! slot) in
    if existsb (λ b, sb_block_root b =? sb_block_root block) seen
    then (RecRepeat, s <| sbs_slots ::= <[slot := seen]> |>)
    else (RecNew, s <| sbs_slots ::= <[slot := seen ++ [block]]> |>).

Definition decide_slot (slot : u64) (s : SeenBlocks) : list SeenBlock * SeenBlocks :=
  let seen := default [] (sbs_slots s !! slot) in
  (seen, {| sbs_slots := filter (λ kv, slot < kv.1) (delete slot (sbs_slots s));
            sbs_decided := Z.max (sbs_decided s) slot |}).

(** ** Payloads of two generations *)

Record PayloadStore (T : Type) := mkPayloadStore {
  ps_current : gmap B256 T;
  ps_previous : gmap B256 T
}.
Arguments mkPayloadStore {T}.
Arguments ps_current {T}.
Arguments ps_previous {T}.

Section payload_store.
Context {T : Type}.
Implicit Types s : PayloadStore T.

Definition payload_store_new : PayloadStore T := mkPayloadStore ∅ ∅.

Definition insert_payload (block_hash : B256) (entry : T) s : PayloadStore T :=
  mkPayloadStore (<[block_hash := entry]> (ps_current s)) (ps_previous s).

Definition get_payload (block_hash : B256) s : option T := ps_current s !! block_hash.

Definition get_for_reveal (block_hash : B256) s : option T :=
  match ps_current s !! block_hash with
  | Some e => Some e
  | None => ps_previous s !! block_hash
  end.

Definition store_is_empty s : bool :=
  bool_decide (ps_current s = ∅) && bool_decide (ps_previous s = ∅).

(** Returns the generation that is now too old to reveal. *)
Definition rotate s : gmap B256 T * PayloadStore T :=
  (ps_previous s, mkPayloadStore ∅ (ps_current s)).
End payload_store.

(** ** Builder preferences *)

Record BuilderPreferencesStore := mkBuilderPreferencesStore {
  by_proposer_slot : gmap (Pubkey * u64) u64
}.
#[export] Instance eta_BuilderPreferencesStore : Eta BuilderPreferencesStore :=
  λ r, mkBuilderPreferencesStore (by_proposer_slot r).

Definition preferences_default : BuilderPreferencesStore := mkBuilderPreferencesStore ∅.

Definition store_preference (proposer : Pubkey) (slot payment : u64)
    (p : BuilderPreferencesStore) : BuilderPreferencesStore :=
  p <| by_proposer_slot ::= <[(proposer, slot) := payment]> |>.

Definition max_execution_payment (proposer : Pubkey) (slot : u64)
    (p : BuilderPreferencesStore) : option u64 :=
  by_proposer_slot p !! (proposer, slot).

Definition preferences_on_new_slot (bid_slot : u64) (p : BuilderPreferencesStore)
    : BuilderPreferencesStore :=
  p <| by_proposer_slot ::= filter (λ kv, bid_slot ≤ kv.1.2) |>.

(** ** The reveal decision *)

(** What the deadline handler reveals: the payload, the index it signs with
    and the block it fulfils. *)
Record Reveal (T : Type) := mkReveal {
  rv_slot : u64;
  rv_block : SeenBlock;
  rv_builder_index : u64;
  rv_payload : T
}.
Arguments mkReveal {T}.
Arguments rv_slot {T}.
Arguments rv_block {T}.
Arguments rv_builder_index {T}.
Arguments rv_payload {T}.

(** [handle_attestation_deadline]; [ours] is the relay's builder index, once
    the beacon chain has one. *)
Definition attestation_deadline {T} (ours : option u64) (payloads : PayloadStore T)
    (slot : u64) (head_root : B256) (s : SeenBlocks) : option (Reveal T) * SeenBlocks :=
  let '(seen, s') := decide_slot slot s in
  (match seen with
   | [block] =>
       match ours with
       | None => None
       | Some builder_index =>
           if negb (sb_bid_builder_index block =? builder_index) then None
           else if negb (sb_block_root block =? head_root) then None
           else
             match get_for_reveal (sb_bid_block_hash block) payloads with
             | None => None
             | Some entry => Some (mkReveal slot block builder_index entry)
             end
       end
   | _ => None
   end, s').

Definition PUBLISH_ATTEMPTS : nat := 12.

(** The retry loop of [reveal_envelope]: [accepts i] is the beacon nodes'
    answer to attempt [i]. Returns the attempts made and whether one was
    taken. *)
Fixpoint publish_loop (accepts : nat → bool) (attempt fuel : nat) : list nat * bool :=
  match fuel with
  | O => ([], false)
  | S fuel' =>
      if accepts attempt then ([attempt], true)
      else let '(made, taken) := publish_loop accepts (S attempt) fuel' in
           (attempt :: made, taken)
  end.
Definition reveal_envelope (accepts : nat → bool) : list nat * bool :=
  publish_loop accepts 0 PUBLISH_ATTEMPTS.

(** ** Histories *)

Inductive SeenOp := OpRecord (slot : u64) (block : SeenBlock) | OpDecide (slot : u64).

Definition seen_step (s : SeenBlocks) (op : SeenOp) : SeenBlocks :=
  match op with
  | OpRecord slot block => (record slot block s).2
  | OpDecide slot => (decide_slot slot s).2
  end.
Definition seen_run : list SeenOp → SeenBlocks := foldl seen_step seen_blocks_default.

(** The blocks that arrived for [slot], in order. *)
Definition blocks_for (slot : u64) : list SeenOp → list SeenBlock :=
  omap (λ op, match op with
              | OpRecord s b => if s =? slot then Some b else None
              | OpDecide _ => None
              end).

(** The latest deadline handled; slot 0 needs none. *)
Definition last_deadline : list SeenOp → u64 :=
  foldl (λ d op, match op with OpDecide s => Z.max d s | OpRecord _ _ => d end) 0.

(** The first block of each root. *)
Definition push_root (acc : list SeenBlock) (b : SeenBlock) : list SeenBlock :=
  if existsb (λ b', sb_block_root b' =? sb_block_root b) acc then acc else acc ++ [b].
Definition distinct_roots : list SeenBlock → list SeenBlock := foldl push_root [].

Lemma blocks_for_snoc slot ops op :
  blocks_for slot (ops ++ [op]) = blocks_for slot ops ++ blocks_for slot [op].
Proof. apply omap_app. Qed.

Lemma seen_run_snoc ops op : seen_run (ops ++ [op]) = seen_step (seen_run ops) op.
Proof. apply foldl_snoc. Qed.

Lemma seen_run_spec ops :
  sbs_decided (seen_run ops) = last_deadline ops ∧
  ∀ slot, default [] (sbs_slots (seen_run ops) !! slot) =
    if slot <=? last_deadline ops then [] else distinct_roots (blocks_for slot ops).
Proof.
  induction ops as [|op ops [IHd IHs]] using rev_ind.
  { split; [done|]. intros slot. cbn. by case_match. }
  rewrite seen_run_snoc. unfold last_deadline. rewrite foldl_snoc.
  fold (last_deadline ops). destruct op as [slot' b|slot']; cbn.
  - unfold record. rewrite IHd. destruct (Z.leb_spec slot' (last_deadline ops)) as [Hle|Hgt]; cbn.
    + split; [done|]. intros slot. rewrite IHs, blocks_for_snoc. cbn.
      destruct (Z.leb_spec slot (last_deadline ops)); [done|].
      destruct (Z.eqb_spec slot' slot); [lia|]. by rewrite app_nil_r.
    + pose proof (IHs slot') as Hseen. rewrite (proj2 (Z.leb_gt _ _)) in Hseen by lia.
      rewrite Hseen.
      assert (∀ slot l, l = push_root (distinct_roots (blocks_for slot' ops)) b →
        default [] (<[slot' := l]> (sbs_slots (seen_run ops)) !! slot) =
        if slot <=? last_deadline ops then []
        else distinct_roots (blocks_for slot (ops ++ [OpRecord slot' b]))) as Hins.
      { intros slot l ->. rewrite blocks_for_snoc. cbn.
        destruct (Z.eqb_spec slot' slot) as [<-|Hne].
        - rewrite lookup_insert_eq. cbn. rewrite (proj2 (Z.leb_gt _ _)) by lia.
          unfold distinct_roots. by rewrite foldl_snoc.
        - rewrite lookup_insert_ne by done. by rewrite IHs, app_nil_r. }
      unfold push_root in Hins.
      destruct (existsb _ (distinct_roots _)); cbn; (split; [done|]); intros slot; by apply Hins.
  - rewrite IHd. split; [done|]. intros slot.
    rewrite blocks_for_snoc. cbn. rewrite app_nil_r.
    destruct (decide (slot ≤ slot')) as [Hle|Hgt].
    + rewrite (proj2 (Z.leb_le _ _)) by lia. rewrite map_lookup_filter.
      destruct (delete slot' (sbs_slots (seen_run ops)) !! slot); cbn; [|done].
      by rewrite option_guard_False by lia.
    + rewrite map_lookup_filter, lookup_delete_ne by lia.
      specialize (IHs slot).
      destruct (Z.leb_spec slot (last_deadline ops)), (Z.leb_spec slot (Z.max (last_deadline ops) slot'));
        try lia; rewrite <- IHs; destruct (sbs_slots (seen_run ops) !! slot); cbn;
        rewrite ?option_guard_True by lia; done.
Qed.

Lemma distinct_roots_app l b acc :
  foldl push_root (b :: acc) l = [b] ↔ acc = [] ∧ ∀ b', b' ∈ l → sb_block_root b' = sb_block_root b.
Proof.
  revert acc. induction l as [|b' l IH]; intros acc; cbn [foldl].
  { split; [|naive_solver]. intros [= ->]. split; [done|]. by intros ? ?%elem_of_nil. }
  unfold push_root at 2. destruct (existsb _ (b :: acc)) eqn:E.
  - rewrite IH. split; [|set_solver]. intros [-> Hl]. split; [done|].
    intros b'' [->|Hin]%elem_of_cons; [|by apply Hl].
    apply existsb_elem in E as (x & Hx & Hr%Z.eqb_eq). set_solver.
  - change ((b :: acc) ++ [b']) with (b :: (acc ++ [b'])). rewrite IH. split.
    + intros [Hacc _]. by destruct acc.
    + intros [-> Hl]. exfalso. cbn in E.
      rewrite (Hl b'), Z.eqb_refl in E by set_solver. done.
Qed.

Lemma distinct_roots_singleton l b :
  distinct_roots l = [b] ↔
  ∃ rest, l = b :: rest ∧ ∀ b', b' ∈ rest → sb_block_root b' = sb_block_root b.
Proof.
  unfold distinct_roots. destruct l as [|b0 rest]; cbn [foldl]; [naive_solver|].
  change (push_root [] b0) with [b0]. split.
  - intros H. assert (b0 = b) as ->.
    { assert (∀ l acc, ∃ tl, foldl push_root (b0 :: acc) l = b0 :: tl) as Hhd.
      { intros l. induction l as [|x l IH]; intros acc; cbn [foldl]; [eauto|].
        unfold push_root at 2. destruct (existsb _ _); [apply IH|]. apply (IH (acc ++ [x])). }
      destruct (Hhd rest []) as [tl E]. rewrite E in H. by injection H. }
    exists rest. split; [done|]. by apply distinct_roots_app in H as [_ ?].
  - intros (rest' & [= -> ->] & Hall). by apply distinct_roots_app.
Qed.

(** ** Properties *)

(** At a slot's attestation deadline, after any history of blocks and
    deadlines, the relay reveals a payload exactly when the deadline was not
    handled before, at least one block arrived for the slot, every block that
    arrived has the root of our head, the first one names our builder index,
    and we hold the payload of its bid. An equivocation is never revealed
    into. *)
Theorem reveal_iff {T} ours (payloads : PayloadStore T) slot head_root ops r :
  (attestation_deadline ours payloads slot head_root (seen_run ops)).1 = Some r ↔
  last_deadline ops < slot ∧
  ∃ block rest idx entry,
    blocks_for slot ops = block :: rest ∧
    (∀ b, b ∈ blocks_for slot ops → sb_block_root b = head_root) ∧
    ours = Some idx ∧ sb_bid_builder_index block = idx ∧
    get_for_reveal (sb_bid_block_hash block) payloads = Some entry ∧
    r = mkReveal slot block idx entry.
Proof.
  unfold attestation_deadline, decide_slot. cbn [fst].
  destruct (seen_run_spec ops) as [_ Hs]. rewrite Hs.
  destruct (Z.leb_spec slot (last_deadline ops)) as [Hle|Hlt].
  { split; [done|]. intros [? _]. lia. }
  split.
  - intros H. split; [done|].
    destruct (distinct_roots (blocks_for slot ops)) as [|block [|]] eqn:Ed; [done| |done].
    apply distinct_roots_singleton in Ed as (rest & Eb & Hall).
    destruct ours as [idx|]; [|done].
    destruct (Z.eqb_spec (sb_bid_builder_index block) idx); [|done]. cbn in H.
    destruct (Z.eqb_spec (sb_block_root block) head_root) as [Hroot|]; [|done]. cbn in H.
    destruct (get_for_reveal _ _) as [entry|] eqn:Eg; [|done]. injection H as <-.
    exists block, rest, idx, entry. split_and!; try done.
    rewrite Eb. set_solver.
  - intros (_ & block & rest & idx & entry & Eb & Hall & -> & <- & Eg & ->).
    assert (distinct_roots (blocks_for slot ops) = [block]) as ->.
    { apply distinct_roots_singleton. exists rest. split; [done|].
      intros b Hb. rewrite !Hall; rewrite ?Eb; set_solver. }
    rewrite Z.eqb_refl. cbn. rewrite (Hall block), Z.eqb_refl by (rewrite Eb; set_solver).
    cbn. by rewrite Eg.
Qed.

(** A slot is decided once. Whatever arrives after its deadline, later
    deadlines for it reveal nothing. *)
Theorem reveal_once {T} ours (payloads : PayloadStore T) slot head_root before after :
  (attestation_deadline ours payloads slot head_root
     (seen_run (before ++ OpDecide slot :: after))).1 = None.
Proof.
  unfold attestation_deadline, decide_slot. cbn [fst].
  destruct (seen_run_spec (before ++ OpDecide slot :: after)) as [_ ->].
  assert (slot ≤ last_deadline (before ++ OpDecide slot :: after)) as Hle.
  { unfold last_deadline. rewrite foldl_app. cbn [foldl].
    assert (∀ d l, d ≤ foldl (λ d op, match op with
      | OpDecide s => Z.max d s | OpRecord _ _ => d end) d l) as Hmono.
    { intros d l. revert d. induction l as [|[] l IH]; intros d; cbn; [lia|apply IH|].
      etrans; [|apply IH]. lia. }
    etrans; [|apply Hmono]. lia. }
  by rewrite (proj2 (Z.leb_le _ _) Hle).
Qed.

Definition ex_seen (root idx : Z) : SeenBlock := mkSeenBlock root 1 idx 42.

(** The hypotheses on the right of [reveal_iff] can be met. *)
Lemma reveal_example :
  (attestation_deadline (Some 3) (insert_payload 42 99 payload_store_new) 7 50
     (seen_run [OpDecide 6; OpRecord 7 (ex_seen 50 3); OpRecord 7 (ex_seen 50 3)])).1
  = Some (mkReveal 7 (ex_seen 50 3) 3 99).
Proof. reflexivity. Qed.

Inductive StoreOp (T : Type) := OpInsert (h : B256) (e : T) | OpRotate.
Arguments OpInsert {T}.
Arguments OpRotate {T}.

Definition store_step {T} (s : PayloadStore T) (op : StoreOp T) : PayloadStore T :=
  match op with OpInsert h e => insert_payload h e s | OpRotate => (rotate s).2 end.
Definition store_run {T} (s : PayloadStore T) (ops : list (StoreOp T)) : PayloadStore T :=
  foldl store_step s ops.

(** The payload inserted last under [h] by operations without a rotation. *)
Definition last_insert {T} (h : B256) (ops : list (StoreOp T)) : option T :=
  last (omap (λ op, match op with
                    | OpInsert h' e => if h' =? h then Some e else None
                    | OpRotate => None
                    end) ops).

Definition no_rotate {T} (ops : list (StoreOp T)) : Prop :=
  Forall (λ op, match op with OpRotate => False | _ => True end) ops.

Lemma store_run_inserts {T} (s : PayloadStore T) ops h :
  no_rotate ops →
  ps_current (store_run s ops) !! h =
    match last_insert h ops with Some e => Some e | None => ps_current s !! h end ∧
  ps_previous (store_run s ops) = ps_previous s.
Proof.
  intros Hno. induction ops as [|op ops IH] using rev_ind; [done|].
  apply Forall_app in Hno as [Hno Hop]. destruct (IH Hno) as [IHc IHp].
  unfold store_run, last_insert. rewrite foldl_snoc, omap_app. fold (store_run s ops).
  apply Forall_cons in Hop as [Hop _]. destruct op as [h' e|]; [|by destruct Hop]. cbn.
  destruct (Z.eqb_spec h' h) as [->|Hne].
  - rewrite lookup_insert_eq, last_snoc. split; [done|exact IHp].
  - rewrite lookup_insert_ne by done. rewrite app_nil_r. split; [exact IHc|exact IHp].
Qed.

(** The payloads of an auction stay revealable through the next auction
    and no longer. After an auction's inserts, a rotation and the next
    auction's inserts, a reveal finds the payload inserted last under the
    hash, the newer auction's first; serving only sees the newer auction; and
    one more rotation drops what only the older one held. *)
Theorem payload_store_generations {T} (s : PayloadStore T) ops1 ops2 ops3 h :
  no_rotate ops1 → no_rotate ops2 → no_rotate ops3 →
  let s1 := store_run s (OpRotate :: ops1 ++ OpRotate :: ops2) in
  get_payload h s1 = last_insert h ops2 ∧
  get_for_reveal h s1 =
    match last_insert h ops2 with Some e => Some e | None => last_insert h ops1 end ∧
  get_for_reveal h (store_run s1 (OpRotate :: ops3)) =
    match last_insert h ops3 with Some e => Some e | None => last_insert h ops2 end.
Proof.
  intros H1 H2 H3. cbn zeta.
  assert (∀ s0 : PayloadStore T, store_run s (OpRotate :: ops1 ++ OpRotate :: ops2) =
    store_run (rotate (store_run (rotate s).2 ops1)).2 ops2) as E.
  { intros _. unfold store_run. cbn [foldl]. by rewrite foldl_app. }
  rewrite (E s). unfold get_payload, get_for_reveal.
  change (store_run ?x (OpRotate :: ops3)) with (store_run (rotate x).2 ops3).
  set (a := store_run (rotate s).2 ops1). set (b := store_run (rotate a).2 ops2).
  destruct (store_run_inserts (rotate s).2 ops1 h H1) as [Ea _]. fold a in Ea.
  destruct (store_run_inserts (rotate a).2 ops2 h H2) as [Eb Pb]. fold b in Eb, Pb.
  destruct (store_run_inserts (rotate b).2 ops3 h H3) as [Ec Pc].
  rewrite Ec, Pc. cbn in *. rewrite lookup_empty in *. rewrite Pb, Eb, Ea.
  split_and!; by repeat case_match.
Qed.

Lemma payload_store_generations_witness :
  get_for_reveal 5 (store_run (payload_store_new (T := Z)) [OpRotate; OpInsert 5 50; OpRotate]) = Some 50
  ∧ no_rotate [OpInsert 5 50].
Proof.
  assert (no_rotate [OpInsert 5 50]) as H1 by (repeat constructor).
  assert (no_rotate (T := Z) []) as H2 by constructor.
  destruct (payload_store_generations payload_store_new [OpInsert 5 50] [] [] 5 H1 H2 H2)
    as (_ & H & _).
  split; [exact H|exact H1].
Defined.

(** [reveal_envelope] stops at the first success and makes at most twelve
    attempts, in order. *)
Lemma publish_loop_spec accepts attempt fuel made taken :
  publish_loop accepts attempt fuel = (made, taken) →
  made = seq attempt (length made) ∧ (length made ≤ fuel)%nat ∧
  (if taken then ∃ init l, made = init ++ [l] ∧ accepts l = true ∧ Forall (λ i, accepts i = false) init
   else length made = fuel ∧ Forall (λ i, accepts i = false) made).
Proof.
  revert attempt made taken. induction fuel as [|fuel IH]; intros attempt made taken; cbn.
  { intros [= <- <-]. done. }
  destruct (accepts attempt) eqn:E.
  - intros [= <- <-]. split_and!; [done|cbn; lia|]. by exists [], attempt.
  - destruct (publish_loop accepts (S attempt) fuel) as [made' taken'] eqn:El.
    intros [= <- <-]. destruct (IH _ _ _ El) as (Hseq & Hlen & Hres). cbn.
    split_and!; [by rewrite <- Hseq|lia|]. destruct taken'.
    + destruct Hres as (init & l & -> & Hl & Hi). exists (attempt :: init), l.
      split_and!; [done|done|]. by constructor.
    + destruct Hres as [-> Hi]. split; [done|]. by constructor.
Qed.
