(* ===== verification/SimError.v ===== *)
(** * Simulation errors

    [common/src/simulator.rs]: what a failed simulation says about the block,
    the simulator and the builder. *)

From Stdlib Require Import Ascii String.
From S2P Require Import Prelude Types Submission.

(** ** ASCII case-insensitive comparison *)

(** [u8::to_ascii_lowercase]. *)
Definition ascii_lower (c : ascii) : ascii :=
  let n := N_of_ascii c in
  if ((65 <=? n) && (n <=? 90))%N then ascii_of_N (n + 32) else c.

Fixpoint lower (s : string) : string :=
  match s with
  | EmptyString => EmptyString
  | String c s' => String (ascii_lower c) (lower s')
  end.

Definition eq_ignore_ascii_case (a b : string) : bool := String.eqb (lower a) (lower b).

(** The first [n] bytes, when there are as many. *)
Definition head_bytes (n : nat) (s : string) : option string :=
  if Nat.leb n (String.length s) then Some (substring 0 n s) else None.

Definition starts_with_ignore_ascii_case (s prefix : string) : bool :=
  match head_bytes (String.length prefix) s with
  | Some head => eq_ignore_ascii_case head prefix
  | None => false
  end.

(** ** Errors *)

Definition UNKNOWN_ANCESTOR : string := "unknown ancestor".
Definition PARENT_NOT_FOUND : string := "parent block not found".
Definition MISSING_TRIE_NODE : string := "missing trie node".
Definition BLOCK_ALREADY_KNOWN : string := "block already known".
Definition BLOCK_TOO_OLD : string := "block is too old, outside validation window".
Definition BLOCK_REQ_REORG : string := "block requires a reorg".
Definition PARENT_BLOCK_NOT_FOUND : string :=
  "could not find parent block: parent block not found".
Definition NO_STATE_FOR_BLOCK : string := "no state found for block".
Definition MISSING_PARENT_STATE : string := "parent state is not available".

Inductive BlockSimError :=
| BlockValidationFailed (reason : string)
| InvalidTxRoot (got expected : B256)
| Timeout
| RpcError
| SendError
| NoSimulatorAvailable
| SimulationDropped
| HydrationMiss
| RelayHydrationFailed
| UnsupportedFork (fork : ForkName)
| PayloadTooLarge.
#[export] Instance BlockSimError_eq_dec : EqDecision BlockSimError.
Proof. solve_decision. Defined.

Definition is_temporary (e : BlockSimError) : bool :=
  match e with
  | BlockValidationFailed reason =>
      existsb (eq_ignore_ascii_case reason)
        [UNKNOWN_ANCESTOR; PARENT_NOT_FOUND; PARENT_BLOCK_NOT_FOUND; BLOCK_REQ_REORG;
         MISSING_PARENT_STATE]
      || starts_with_ignore_ascii_case reason MISSING_TRIE_NODE
      || starts_with_ignore_ascii_case reason NO_STATE_FOR_BLOCK
  | Timeout => true
  | RpcError => true
  | SimulationDropped => true
  | NoSimulatorAvailable => true
  | UnsupportedFork _ => true
  | RelayHydrationFailed => true
  | PayloadTooLarge => true
  | _ => false
  end.

Definition is_sim_fault (e : BlockSimError) : bool :=
  match e with
  | BlockValidationFailed reason => starts_with_ignore_ascii_case reason MISSING_TRIE_NODE
  | Timeout | RpcError => true
  | _ => false
  end.

Definition is_already_known (e : BlockSimError) : bool :=
  match e with
  | BlockValidationFailed reason => eq_ignore_ascii_case reason BLOCK_ALREADY_KNOWN
  | _ => false
  end.

Definition is_too_old (e : BlockSimError) : bool :=
  match e with
  | BlockValidationFailed reason => eq_ignore_ascii_case reason BLOCK_TOO_OLD
  | _ => false
  end.

Definition is_demotable (e : BlockSimError) : bool :=
  negb (is_already_known e) && negb (is_temporary e) && negb (is_too_old e).

Definition is_merge_builder_fault (e : BlockSimError) : bool :=
  is_demotable e &&
  negb (match e with SendError | SimulationDropped | HydrationMiss => true | _ => false end).

(** Metric label for what a simulation said. *)
Definition sim_outcome (error : option BlockSimError) : string :=
  match error with
  | None => "valid"
  | Some PayloadTooLarge => "too_large"
  | Some err =>
      if is_sim_fault err then "sim_fault"
      else if is_temporary err then "temporary"
      else "invalid"
  end.

(** ** Properties *)

Lemma lower_idempotent s : lower (lower s) = lower s.
Proof.
  induction s as [|c s IH]; simpl; [done|]. f_equal; [|done].
  destruct c as [[] [] [] [] [] [] [] []]; reflexivity.
Qed.

Lemma eq_ignore_refl s : eq_ignore_ascii_case s s = true.
Proof. apply String.eqb_refl. Qed.

Lemma eq_ignore_trans a b c :
  eq_ignore_ascii_case a b = true → eq_ignore_ascii_case a c = eq_ignore_ascii_case b c.
Proof. unfold eq_ignore_ascii_case. by intros ->%String.eqb_eq. Qed.

Lemma lower_length s : String.length (lower s) = String.length s.
Proof. induction s as [|c s IH]; simpl; congruence. Qed.

Lemma lower_substring n s : lower (substring 0 n s) = substring 0 n (lower s).
Proof. revert s. induction n as [|n IH]; intros [|c s]; simpl; [done..|]. by rewrite IH. Qed.

Lemma starts_with_ignore_trans a b p :
  eq_ignore_ascii_case a b = true →
  starts_with_ignore_ascii_case a p = starts_with_ignore_ascii_case b p.
Proof.
  unfold eq_ignore_ascii_case, starts_with_ignore_ascii_case, head_bytes.
  intros E%String.eqb_eq.
  rewrite <- (lower_length a), E, lower_length.
  destruct (Nat.leb _ _); [|done]. unfold eq_ignore_ascii_case.
  by rewrite !lower_substring, E.
Qed.

(** The letter case of a node's message never changes its classification. *)
Lemma demotable_ignores_case a b :
  eq_ignore_ascii_case a b = true →
  is_demotable (BlockValidationFailed a) = is_demotable (BlockValidationFailed b).
Proof.
  intros E. unfold is_demotable, is_already_known, is_temporary, is_too_old. simpl.
  by rewrite !(eq_ignore_trans a b), !(starts_with_ignore_trans a b).
Qed.

(** What a failed simulation may cost. A fault of the simulator is always
    temporary, so it never demotes the builder. Relay-side failures
    ([Timeout], a dropped simulation, no simulator, an unsupported fork, a
    body over the limit, a miss in the relay's own cache) never demote either.
    A builder is demoted exactly for a wrong transaction root, a send error, a
    hydration miss, or a validation message that is none of the known
    temporary, already-known and too-old ones; a merge builder only for the
    first and the last of these. *)
Theorem demotion_grounds e :
  (is_sim_fault e = true → is_temporary e = true ∧ is_demotable e = false) ∧
  (is_demotable e = true ↔
     match e with
     | BlockValidationFailed r =>
         is_temporary e = false ∧ eq_ignore_ascii_case r BLOCK_ALREADY_KNOWN = false ∧
         eq_ignore_ascii_case r BLOCK_TOO_OLD = false
     | InvalidTxRoot _ _ | SendError | HydrationMiss => True
     | _ => False
     end) ∧
  (is_merge_builder_fault e = true ↔
     is_demotable e = true ∧
     match e with BlockValidationFailed _ | InvalidTxRoot _ _ => True | _ => False end).
Proof.
  unfold is_merge_builder_fault, is_demotable. destruct e as [r| | | | | | | | | |]; simpl;
    [|naive_solver..].
  split_and!.
  - intros ->. by rewrite orb_true_r, andb_false_r.
  - rewrite !andb_true_iff, !negb_true_iff. tauto.
  - rewrite !andb_true_iff. tauto.
Qed.
