(* ===== verification/SimEntry.v ===== *)
(** * One simulator

    The [SimEntry] of [relay/src/simulator/mod.rs]: the adaptive concurrency
    limit, the circuit breaker and the sync status of a node. Instants and
    durations are nanoseconds. *)

From S2P Require Import Prelude Types Submission SimError.

Definition millis (n : Z) : Z := n * 1000000.
Definition secs (n : Z) : Z := n * 1000000000.

Definition LATENCY_TARGET : Z := millis 500.
Definition MIN_LIMIT : Z := 1.
Definition DECREASE_FLOOR : Z := 4.
Definition DECREASE_WINDOW : Z := millis 250.
Definition UTILIZATION_SCALE : Z := 1000.
Definition SIM_FAULTS_TO_OPEN : Z := 3.
Definition OPTIMISTIC_GRACE : Z := secs 30.
Definition BREAKER_BACKOFF_START : Z := secs 12.
Definition BREAKER_BACKOFF_MAX : Z := secs 60.
Definition SYNC_FAILURES_TO_UNSYNC : Z := 3.

(** What of the simulator's configuration decides dispatch: its task limit and
    whether it has an SSZ endpoint. *)
Record SimulatorClient := mkSimulatorClient {
  max_concurrent_tasks : Z;
  has_ssz_url : bool
}.

Inductive Breaker := Closed | Open (until backoff : Z).
#[export] Instance Breaker_eq_dec : EqDecision Breaker.
Proof. solve_decision. Defined.

Inductive SimHealth := HealthOk | HealthProbe | HealthOpen | HealthUnsynced.

Record SimEntry := mkSimEntry {
  se_client : SimulatorClient;
  se_is_synced : bool;
  se_breaker : Breaker;
  se_last_success : option Z;
  se_limit : Z;
  se_faults : Z;
  se_sync_failures : Z;
  se_last_decrease : option Z;
  se_pending : Z
}.
#[export] Instance eta_SimEntry : Eta SimEntry := λ r,
  mkSimEntry (se_client r) (se_is_synced r) (se_breaker r) (se_last_success r) (se_limit r)
    (se_faults r) (se_sync_failures r) (se_last_decrease r) (se_pending r).

Definition entry_new (client : SimulatorClient) : SimEntry :=
  mkSimEntry client false Closed None (Z.max (max_concurrent_tasks client) MIN_LIMIT) 0 0 None 0.

Definition ceiling (s : SimEntry) : Z := Z.max (max_concurrent_tasks (se_client s)) MIN_LIMIT.
Definition floor (s : SimEntry) : Z := Z.min DECREASE_FLOOR (ceiling s).

Definition decrease (now : Z) (s : SimEntry) : SimEntry :=
  if match se_last_decrease s with
     | Some at_ => sat_sub now at_ <? DECREASE_WINDOW
     | None => false
     end
  then s
  else
    s <| se_last_decrease := Some now |>
      <| se_limit := Z.max (Z.min (se_limit s * 4 / 5) (sat_sub (se_limit s) 1)) (floor s) |>.

Definition effective_limit (now : Z) (s : SimEntry) : Z :=
  match se_breaker s with
  | Closed => se_limit s
  | Open until _ => if now <? until then 0 else 1
  end.

Definition answered_recently (now : Z) (s : SimEntry) : bool :=
  match se_last_success s with
  | Some at_ => sat_sub now at_ <? OPTIMISTIC_GRACE
  | None => false
  end.

Definition can_simulate_light (now : Z) (s : SimEntry) : bool :=
  se_is_synced s && (bool_decide (se_breaker s = Closed) || answered_recently now s).

Definition can_simulate_at (now : Z) (s : SimEntry) : bool :=
  se_is_synced s && (se_pending s <? effective_limit now s).

Definition health (now : Z) (s : SimEntry) : SimHealth :=
  if negb (se_is_synced s) then HealthUnsynced
  else
    let limit := effective_limit now s in
    if limit =? 0 then HealthOpen
    else if (limit =? 1) && negb (bool_decide (se_breaker s = Closed)) then HealthProbe
    else HealthOk.

(** [usize::MAX] when the breaker is open. *)
Definition utilization (now : Z) (s : SimEntry) : Z :=
  let limit := effective_limit now s in
  if limit =? 0 then u64_max else se_pending s * UTILIZATION_SCALE / limit.

Definition record_success (elapsed now : Z) (s : SimEntry) : SimEntry :=
  let s := s <| se_faults := 0 |> <| se_breaker := Closed |> <| se_last_success := Some now |> in
  if elapsed <=? LATENCY_TARGET
  then s <| se_limit := Z.min (se_limit s + 1) (ceiling s) |>
  else decrease now s.

Definition record_failure (err : BlockSimError) (now : Z) (s : SimEntry) : SimEntry :=
  if negb (is_sim_fault err) then s
  else
    let s := decrease now (s <| se_faults ::= λ f, f + 1 |>) in
    s <| se_breaker :=
           match se_breaker s with
           | Open _ backoff =>
               let backoff := Z.min (backoff * 2) BREAKER_BACKOFF_MAX in
               Open (now + backoff) backoff
           | Closed =>
               if SIM_FAULTS_TO_OPEN <=? se_faults s
               then Open (now + BREAKER_BACKOFF_START) BREAKER_BACKOFF_START
               else Closed
           end |>.

Definition record_sync (reported : option bool) (s : SimEntry) : SimEntry :=
  match reported with
  | Some synced => s <| se_sync_failures := 0 |> <| se_is_synced := synced |>
  | None =>
      let s := s <| se_sync_failures ::= λ f, f + 1 |> in
      if SYNC_FAILURES_TO_UNSYNC <=? se_sync_failures s
      then s <| se_is_synced := false |> else s
  end.

(** ** Histories *)

(** What happens to a simulator: a task is sent, a task ends, a sync poll
    answers. [at_] is the time. *)
Inductive EntryOp :=
| EntrySend (at_ : Z)
| EntryDone (at_ : Z) (error : option BlockSimError) (elapsed : option Z)
| EntrySync (reported : option bool).

(** [pending += 1] of the spawn and the first half of [on_task_response]. *)
Definition entry_send (s : SimEntry) : SimEntry := s <| se_pending ::= λ p, p + 1 |>.

Definition entry_done (now : Z) (error : option BlockSimError) (elapsed : option Z)
    (s : SimEntry) : SimEntry :=
  let s := s <| se_pending ::= λ p, sat_sub p 1 |> in
  match error with
  | Some err => record_failure err now s
  | None =>
      match elapsed with
      | Some elapsed => record_success elapsed now s
      | None => s
      end
  end.

(** A send happens only when the simulator can take a task. *)
Inductive entry_step : SimEntry → EntryOp → SimEntry → Prop :=
| step_send now s : can_simulate_at now s = true → entry_step s (EntrySend now) (entry_send s)
| step_done now error elapsed s :
    entry_step s (EntryDone now error elapsed) (entry_done now error elapsed s)
| step_sync reported s : entry_step s (EntrySync reported) (record_sync reported s).

Inductive entry_reach (c : SimulatorClient) : SimEntry → Prop :=
| reach_new : entry_reach c (entry_new c)
| reach_step s op s' : entry_reach c s → entry_step s op s' → entry_reach c s'.

(** ** Invariant *)

Definition backoff_ok (b : Breaker) : Prop :=
  match b with
  | Closed => True
  | Open _ backoff => BREAKER_BACKOFF_START ≤ backoff ≤ BREAKER_BACKOFF_MAX
  end.

Record entry_ok (s : SimEntry) : Prop := {
  ok_limit : floor s ≤ se_limit s ≤ ceiling s;
  ok_backoff : backoff_ok (se_breaker s);
  ok_faults : 0 ≤ se_faults s ∧ (se_breaker s = Closed ↔ se_faults s < SIM_FAULTS_TO_OPEN);
  ok_pending : 0 ≤ se_pending s ≤ ceiling s
}.

Lemma floor_bounds s : 1 ≤ floor s ≤ ceiling s.
Proof. unfold floor, ceiling, DECREASE_FLOOR, MIN_LIMIT. lia. Qed.

Lemma decrease_limit now s :
  floor s ≤ se_limit s → floor s ≤ se_limit (decrease now s) ≤ se_limit s.
Proof.
  intros H. pose proof (floor_bounds s). unfold decrease, sat_sub. case_match; [done|]. cbn.
  pose proof (Z.div_le_upper_bound (se_limit s * 4) 5 (se_limit s) ltac:(lia) ltac:(lia)). lia.
Qed.

Lemma decrease_frame now s :
  se_client (decrease now s) = se_client s ∧ se_breaker (decrease now s) = se_breaker s ∧
  se_faults (decrease now s) = se_faults s ∧ se_pending (decrease now s) = se_pending s ∧
  se_is_synced (decrease now s) = se_is_synced s.
Proof. unfold decrease. by case_match. Qed.

Lemma ceiling_client s s' : se_client s' = se_client s → ceiling s' = ceiling s ∧ floor s' = floor s.
Proof. unfold floor, ceiling. by intros ->. Qed.

Lemma entry_new_ok c : entry_ok (entry_new c).
Proof.
  pose proof (floor_bounds (entry_new c)) as H.
  split; [|done|done|]; unfold ceiling, floor, entry_new, MIN_LIMIT, DECREASE_FLOOR in *;
    cbn [se_client se_limit se_pending] in *; lia.
Qed.

Lemma effective_limit_le now s : entry_ok s → 0 ≤ effective_limit now s ≤ ceiling s.
Proof.
  intros [Hl _ _ _]. pose proof (floor_bounds s). unfold effective_limit.
  repeat case_match; lia.
Qed.

Lemma entry_send_ok now s : entry_ok s → can_simulate_at now s = true → entry_ok (entry_send s).
Proof.
  intros Hok [_ Hlt%Z.ltb_lt]%andb_true_iff. pose proof (effective_limit_le now s Hok).
  destruct Hok as [Hl Hb Hf Hp]. split; [done|done|done|]. unfold ceiling in *. cbn in *. lia.
Qed.

Lemma record_sync_ok r s : entry_ok s → entry_ok (record_sync r s).
Proof. intros [Hl Hb Hf Hp]. unfold record_sync. destruct r; [done|]. by case_match. Qed.

Lemma record_success_ok elapsed now s : entry_ok s → entry_ok (record_success elapsed now s).
Proof.
  intros [Hl Hb Hf Hp]. unfold record_success.
  set (s1 := s <| se_faults := 0 |> <| se_breaker := Closed |> <| se_last_success := Some now |>).
  destruct (elapsed <=? LATENCY_TARGET).
  - split; [|done|done|]; unfold floor, ceiling in *; cbn in *; lia.
  - destruct (decrease_frame now s1) as (Hc & Hbr & Hfa & Hpe & _).
    destruct (ceiling_client s1 (decrease now s1) Hc) as [Ec Ef].
    pose proof (decrease_limit now s1 ltac:(apply Hl)) as Hd.
    change (ceiling s1) with (ceiling s) in Ec. change (floor s1) with (floor s) in Ef, Hd.
    change (se_limit s1) with (se_limit s) in Hd.
    split; rewrite ?Ec, ?Ef, ?Hbr, ?Hfa, ?Hpe; [lia|done| |done].
    done.
Qed.

Lemma record_failure_ok err now s : entry_ok s → entry_ok (record_failure err now s).
Proof.
  intros [Hl Hb [Hf0 Hf] Hp]. unfold record_failure. destruct (is_sim_fault err); [|done]. cbn.
  set (s1 := s <| se_faults ::= λ f, f + 1 |>).
  destruct (decrease_frame now s1) as (Hc & Hbr & Hfa & Hpe & _).
  destruct (ceiling_client s1 (decrease now s1) Hc) as [Ec Ef].
  pose proof (decrease_limit now s1 ltac:(apply Hl)) as Hd.
  change (ceiling s1) with (ceiling s) in Ec. change (floor s1) with (floor s) in Ef, Hd.
  change (se_limit s1) with (se_limit s) in Hd. change (se_pending s1) with (se_pending s) in Hpe.
  change (se_breaker s1) with (se_breaker s) in Hbr.
  change (se_faults s1) with (se_faults s + 1) in Hfa.
  split; change (ceiling (update_field _ _)) with (ceiling (decrease now s1));
    change (floor (update_field _ _)) with (floor (decrease now s1)); cbn;
    rewrite ?Ec, ?Ef, ?Hbr, ?Hfa, ?Hpe; [lia| | |done].
  - unfold backoff_ok, BREAKER_BACKOFF_START, BREAKER_BACKOFF_MAX, secs in *.
    destruct (se_breaker s); [destruct (SIM_FAULTS_TO_OPEN <=? _); [lia|done]|lia].
  - split; [lia|]. destruct (se_breaker s) as [|until backoff].
    + destruct (Z.leb_spec SIM_FAULTS_TO_OPEN (se_faults s + 1)); split; done || lia.
    + assert (¬ se_faults s < SIM_FAULTS_TO_OPEN) by (intros ?%Hf; done). split; [done|lia].
Qed.

Lemma entry_done_ok now error elapsed s : entry_ok s → entry_ok (entry_done now error elapsed s).
Proof.
  intros [Hl Hb Hf Hp]. unfold entry_done.
  assert (entry_ok (s <| se_pending ::= λ p, sat_sub p 1 |>)) as Hok.
  { split; [done..|]. unfold sat_sub, ceiling in *. cbn in *. lia. }
  destruct error; [by apply record_failure_ok|].
  destruct elapsed; [by apply record_success_ok|done].
Qed.

Lemma entry_reach_ok c s : entry_reach c s → entry_ok s.
Proof.
  induction 1 as [|s op s' Hs IH Hstep]; [apply entry_new_ok|].
  destruct Hstep; eauto using entry_send_ok, entry_done_ok, record_sync_ok.
Qed.

Lemma entry_done_client now error elapsed s :
  se_client (entry_done now error elapsed s) = se_client s.
Proof.
  unfold entry_done, record_failure, record_success.
  destruct error as [err|]; [destruct (is_sim_fault err); [|done]|
    destruct elapsed as [e|]; [destruct (e <=? LATENCY_TARGET)|]]; try done; cbn.
  - etrans; [apply decrease_frame|done].
  - etrans; [apply decrease_frame|done].
Qed.

Lemma entry_reach_client c s : entry_reach c s → se_client s = c.
Proof.
  induction 1 as [|s op s' Hs IH Hstep]; [done|]. rewrite <- IH.
  destruct Hstep; [done|apply entry_done_client|].
  unfold record_sync. by repeat case_match.
Qed.

(** ** Properties *)

(** Over any history of sends, answers and sync polls, a simulator's
    adaptive limit stays between its floor and the configured maximum (at
    least one), it never holds more tasks than that maximum, and the breaker
    is open exactly after three or more consecutive simulator faults, with a
    backoff between twelve and sixty seconds. *)
Theorem entry_bounds c s :
  entry_reach c s →
  Z.min DECREASE_FLOOR (Z.max (max_concurrent_tasks c) 1) ≤ se_limit s
    ≤ Z.max (max_concurrent_tasks c) 1 ∧
  0 ≤ se_pending s ≤ Z.max (max_concurrent_tasks c) 1 ∧
  (se_breaker s = Closed ↔ se_faults s < SIM_FAULTS_TO_OPEN) ∧
  match se_breaker s with
  | Closed => True
  | Open _ backoff => secs 12 ≤ backoff ≤ secs 60
  end.
Proof.
  intros Hr. pose proof (entry_reach_client c s Hr) as Hc.
  destruct (entry_reach_ok c s Hr) as [Hl Hb [_ Hf] Hp].
  unfold floor, ceiling, MIN_LIMIT in *. rewrite Hc in *. done.
Qed.

(** A simulator takes a task only when its last answer to a sync poll
    says it is synced and, with the breaker closed, when it is below its
    limit; an open breaker lets nothing through before the backoff has passed,
    and then only a single probe. *)
Theorem dispatch_gate c s now :
  entry_reach c s → can_simulate_at now s = true →
  se_is_synced s = true ∧
  match se_breaker s with
  | Closed => se_pending s < se_limit s
  | Open until _ => until ≤ now ∧ se_pending s = 0
  end.
Proof.
  intros Hr [Hs Hlt%Z.ltb_lt]%andb_true_iff. split; [done|].
  destruct (entry_reach_ok c s Hr) as [_ _ _ Hp]. unfold effective_limit in Hlt.
  destruct (se_breaker s) as [|until b]; [done|]. destruct (Z.ltb_spec now until); lia.
Qed.

(** A node that answers a fault thrice is cut off until its backoff passes. *)
Definition ex_client : SimulatorClient := mkSimulatorClient 32 true.
Definition ex_faulty : SimEntry :=
  entry_done 3 (Some RpcError) None (entry_done 2 (Some RpcError) None
    (entry_done 1 (Some RpcError) None (record_sync (Some true) (entry_new ex_client)))).

Lemma ex_faulty_reach : entry_reach ex_client ex_faulty.
Proof.
  do 3 (eapply reach_step; [|apply step_done]). eapply reach_step; [|apply step_sync]. constructor.
Qed.

Lemma entry_bounds_witness :
  se_breaker ex_faulty = Open (3 + secs 12) (secs 12) ∧ 4 ≤ se_limit ex_faulty ≤ 32.
Proof.
  destruct (entry_bounds ex_client ex_faulty ex_faulty_reach) as [H _].
  split; [reflexivity|exact H].
Defined.

Lemma dispatch_gate_witness :
  can_simulate_at (secs 13) ex_faulty = true ∧ se_pending ex_faulty = 0.
Proof.
  destruct (dispatch_gate ex_client ex_faulty (secs 13) ex_faulty_reach) as [_ [_ H]].
  - reflexivity.
  - split; [reflexivity|exact H].
Defined.
