(* ===== verification/ApiError.v ===== *)
(** * Errors of the two APIs

    [relay/src/api/builder/error.rs] and [relay/src/api/proposer/error.rs]:
    what a builder or a proposer is answered, and the HTTP status of it. An
    error of another crate that these enums only wrap is the text it displays. *)

From Stdlib Require Import String.
From S2P Require Import Prelude Types Submission Hydration SimError.

Abbreviation ErrorText := string (only parsing).

Inductive SigError := InvalidBlsSignatureBytes | InvalidBlsPubkeyBytes | InvalidBlsSignature.

(** ** HTTP statuses *)

Inductive StatusCode :=
| NO_CONTENT | BAD_REQUEST | UNAUTHORIZED | REQUEST_TIMEOUT | PAYLOAD_TOO_LARGE
| INTERNAL_SERVER_ERROR | SERVICE_UNAVAILABLE.
#[export] Instance StatusCode_eq_dec : EqDecision StatusCode.
Proof. solve_decision. Defined.

(** ** The builder API *)

Module BuilderApi.

Inductive BuilderApiError :=
| JsonDecodeError (e : ErrorText)
| SszDecode (e : ErrorText)
| IOError (e : ErrorText)
| PayloadDecode (e : ErrorText)
| BidValidation (e : BlockValidationError)
| SigError (e : SigError)
| BlockSimulation (e : BlockSimError)
| HydrationFailed (e : HydrationError)
| UntrustedBuilderOnDehydratedPayload
| ProposerDutyNotFound
| SimOnNextSlot
| DeliveringPayload (bid_slot delivering : u64)
| InvalidApiKey
| RequestTimeout
| AuctioneerError (e : ErrorText)
| DatabaseError (e : ErrorText)
| InternalError
| InvalidBuilderPubkey (expected received : Pubkey).

Definition http_status (e : BuilderApiError) : StatusCode :=
  match e with
  | JsonDecodeError _ | IOError _ | SszDecode _ | PayloadDecode _ | BidValidation _
  | ProposerDutyNotFound | HydrationFailed _ | SigError _ | SimOnNextSlot
  | InvalidBuilderPubkey _ _ | DeliveringPayload _ _ => BAD_REQUEST
  | InvalidApiKey | UntrustedBuilderOnDehydratedPayload => UNAUTHORIZED
  | InternalError | AuctioneerError _ | DatabaseError _ => INTERNAL_SERVER_ERROR
  | BlockSimulation err =>
      match err with
      | Timeout | SimulationDropped => REQUEST_TIMEOUT
      | RelayHydrationFailed => INTERNAL_SERVER_ERROR
      | PayloadTooLarge => PAYLOAD_TOO_LARGE
      | _ => BAD_REQUEST
      end
  | RequestTimeout => REQUEST_TIMEOUT
  end.

Definition should_report (e : BuilderApiError) : bool :=
  match e with
  | DeliveringPayload _ _ | ProposerDutyNotFound
  | BidValidation (OutOfSequence _ _) | BidValidation AlreadyProcessingNewerPayload
  | BidValidation (SubmissionForWrongSlot _ _) | BidValidation (PrevRandaoMismatch _ _)
  | SimOnNextSlot => false
  | _ => true
  end.

End BuilderApi.
Export BuilderApi (BuilderApiError).

(** ** The proposer API *)

Module ProposerApi.

Inductive ProposerApiError :=
| HyperError (e : ErrorText)
| AxumError (e : ErrorText)
| ToStrError (e : ErrorText)
| NoBidPrepared
| UnexpectedProposerIndex (expected actual : u64)
| BidRequestSlotMismatch (expected actual : u64)
| UnexpectedProposerPubkey (expected actual : Pubkey)
| NoValidatorsCouldBeRegistered
| InvalidFork
| SerdeDecodeError (e : ErrorText)
| InvalidApiKey
| StreamNotAdmitted
| ProposerNotRegistered
| TimestampTooEarly (timestamp min_timestamp : u64)
| TimestampTooFarInTheFuture (timestamp max_timestamp : u64)
| RequestWrongSlot (request_slot bid_slot : u64)
| SlotTooNew
| GetHeaderRequestTooLate (ms_into_slot cutoff : u64)
| GetPayloadRequestTooLate (cutoff request_time : u64)
| NoExecutionPayloadFound
| BlindedBlockAndPayloadHeaderMismatch
| UnsupportedBeaconChainVersion
| BeaconClientError (e : ErrorText)
| DatabaseError (e : ErrorText)
| AuctioneerError (e : ErrorText)
| EmptyRequest
| InternalServerError
| PrimaryRequestFailed (status : StatusCode) (message : string)
| ServiceUnavailableError
| BlindedBlobsBundleLengthMismatch
| InternalSlotMismatchesWithSlotDuty (internal_slot slot_duty_slot : u64)
| InvalidBlindedBlockSlot (internal_slot blinded_block_slot : u64)
| BlobKzgCommitmentsMismatch
| SszError (e : Submission.SszError)
| SigError (e : SigError)
| DeliveringPayload
| GetPayloadAlreadyReceived
| RequestForPastSlot (request_slot head_slot : u64)
| InvalidGetHeader (e : string)
| SszDecodeError (e : ErrorText)
| InvalidRequestAuthSignature
| RequestAuthSlotMismatch (auth_slot request_slot : u64)
| MissingTimingHeaders
| InvalidProposerSignature.

Definition should_report_gossiped (e : ProposerApiError) : bool :=
  match e with
  | RequestForPastSlot _ _ | NoExecutionPayloadFound | ProposerNotRegistered
  | GetPayloadRequestTooLate _ _ | GetPayloadAlreadyReceived | DeliveringPayload => false
  | _ => true
  end.

Definition status_code (e : ProposerApiError) : StatusCode :=
  match e with
  | NoBidPrepared | GetHeaderRequestTooLate _ _ => NO_CONTENT
  | HyperError _ | AxumError _ | ToStrError _ | UnexpectedProposerIndex _ _
  | BidRequestSlotMismatch _ _ | UnexpectedProposerPubkey _ _ | NoValidatorsCouldBeRegistered
  | InvalidFork | SerdeDecodeError _ | ProposerNotRegistered | TimestampTooEarly _ _
  | TimestampTooFarInTheFuture _ _ | RequestWrongSlot _ _ | SlotTooNew
  | GetPayloadRequestTooLate _ _ | BlindedBlockAndPayloadHeaderMismatch
  | UnsupportedBeaconChainVersion | BeaconClientError _ | DatabaseError _ | AuctioneerError _
  | EmptyRequest | BlindedBlobsBundleLengthMismatch | InternalSlotMismatchesWithSlotDuty _ _
  | InvalidBlindedBlockSlot _ _ | BlobKzgCommitmentsMismatch | SszError _ | SszDecodeError _
  | SigError _ | DeliveringPayload | GetPayloadAlreadyReceived | RequestForPastSlot _ _
  | RequestAuthSlotMismatch _ _ | MissingTimingHeaders | InvalidProposerSignature => BAD_REQUEST
  | InvalidApiKey | StreamNotAdmitted | InvalidRequestAuthSignature => UNAUTHORIZED
  | InternalServerError | NoExecutionPayloadFound => INTERNAL_SERVER_ERROR
  | ServiceUnavailableError => SERVICE_UNAVAILABLE
  | PrimaryRequestFailed status _ => status
  | InvalidGetHeader _ => UNAUTHORIZED
  end.

End ProposerApi.
Export ProposerApi (ProposerApiError).
