(* ===== verification/Simulators.v ===== *)
(** * The simulator pool

    [relay/src/simulator/mod.rs]: which simulator runs a validation request,
    the queues of the requests none can take, the results shared by
    resubmissions of a block, and the answers owed to the builders. *)

From S2P Require Import Prelude Types Submission SimError SimEntry BidSorter.

Inductive SimPriority := PreviousSlot | Low | Sample | Top.
#[export] Instance SimPriority_eq_dec : EqDecision SimPriority.
Proof. solve_decision. Defined.

(** The derived order. *)
Definition priority_rank (p : SimPriority) : Z :=
  match p with PreviousSlot => 0 | Low => 1 | Sample => 2 | Top => 3 end.

Record ValidationRequest := mkValidationRequest {
  vr_submission_id : Uuid;
  vr_priority : SimPriority;
  vr_is_top_bid : bool;
  vr_is_optimistic : bool;
  vr_apply_blacklist : bool;
  vr_registered_gas_limit : u64;
  vr_parent_beacon_block_root : B256;
  vr_inclusion_list : InclusionListWithMetadata;
  vr_submission : SignedBidSubmission;
  vr_tx_root : option B256;
  vr_version : SubmissionVersion;
  vr_trace : SubmissionTrace;
  vr_receive_ns : u64;
  vr_submission_ref : SubmissionRef
}.
#[export] Instance eta_ValidationRequest : Eta ValidationRequest := λ r,
  mkValidationRequest (vr_submission_id r) (vr_priority r) (vr_is_top_bid r)
    (vr_is_optimistic r) (vr_apply_blacklist r) (vr_registered_gas_limit r)
    (vr_parent_beacon_block_root r) (vr_inclusion_list r) (vr_submission r) (vr_tx_root r)
    (vr_version r) (vr_trace r) (vr_receive_ns r) (vr_submission_ref r).

Definition vr_block_hash (r : ValidationRequest) : B256 :=
  bt_block_hash (signed_bid_trace (vr_submission r)).

(** [sort_key]: priority, then a live top bid, then the oldest. *)
Definition sort_key_cmp (x y : ValidationRequest) : comparison :=
  let top r := if vr_is_top_bid r then 1 else 0 in
  cmp_then (Z.compare (priority_rank (vr_priority x)) (priority_rank (vr_priority y)))
    (cmp_then (Z.compare (top x) (top y))
       (Z.compare (u64_max - vr_receive_ns x) (u64_max - vr_receive_ns y))).

Definition optimistic_version (r : ValidationRequest) : OptimisticVersion :=
  if vr_is_optimistic r then V1 else NotOptimistic.

Record MergedValidationRequest := mkMergedValidationRequest {
  mv_submission_id : Uuid;
  mv_base_block_hash : B256;
  mv_slot : u64;
  mv_parent_beacon_block_root : B256;
  mv_proposer_fee_recipient : Address;
  mv_registered_gas_limit : u64;
  mv_apply_blacklist : bool;
  mv_inclusion_list : InclusionListWithMetadata;
  mv_receive_ns : u64
}.

Record MergedBlockTrace := mkMergedBlockTrace {
  mt_request_time_ns : u64;
  mt_sim_start_time_ns : u64;
  mt_sim_end_time_ns : u64;
  mt_finalize_time_ns : u64;
  mt_header_served_time_ns : option u64;
  mt_was_top_builder : option bool;
  mt_top_bid : option U256
}.
#[export] Instance eta_MergedBlockTrace : Eta MergedBlockTrace := λ r,
  mkMergedBlockTrace (mt_request_time_ns r) (mt_sim_start_time_ns r) (mt_sim_end_time_ns r)
    (mt_finalize_time_ns r) (mt_header_served_time_ns r) (mt_was_top_builder r) (mt_top_bid r).

Record BuilderInclusionResult := mkBuilderInclusionResult {
  in_contribution : U256;
  in_revenue : U256;
  in_txs : list B256
}.

(** The unmerged transactions, the builder of each transaction and two
    timestamps only feed the stored record and metrics, and are left out. *)
Record BlockMergeResponse := mkBlockMergeResponse {
  mr_base_block_hash : B256;
  mr_execution_payload : ExecutionPayload;
  mr_execution_requests : Bytes;
  mr_blobs_bundle : BlobsBundle;
  mr_proposer_value : U256;
  mr_base_builder_revenue : U256;
  mr_relay_revenue : U256;
  mr_builder_inclusions : gmap Address BuilderInclusionResult;
  mr_base_payment_tx_index : Z;
  mr_trace : MergedBlockTrace
}.

Record TxDetail := mkTxDetail {
  td_hash : B256;
  td_sender : Address;
  td_nonce : u64;
  td_to : option Address;
  td_builder_payment : U256
}.

(** ** Results *)

Record SimulationResultInner := mkSimulationResultInner {
  si_submission_ref : SubmissionRef;
  si_optimistic_version : OptimisticVersion;
  si_bid : option Bid;
  si_result : Result SubmissionTrace BlockSimError;
  si_submission_id : Uuid;
  si_block_hash : B256;
  si_txs : list TxDetail;
  si_retried : bool
}.

Record MergedSimulationResultInner := mkMergedSimulationResultInner {
  mi_result : Result unit BlockSimError;
  mi_submission_id : Uuid;
  mi_block_hash : B256;
  mi_txs : list TxDetail
}.

Inductive SimResult :=
| Validate (id : nat) (inner : option SimulationResultInner)
| ValidateMerged (id : nat) (inner : option MergedSimulationResultInner).

Record SimDone := mkSimDone { sd_result : SimResult; sd_elapsed : Z }.

Record SimStarted := mkSimStarted {
  ss_submission_id : Uuid;
  ss_block_hash : B256;
  ss_merged : bool;
  ss_is_top_bid : bool
}.

Record SimPreviousSlotDrops := mkSimPreviousSlotDrops {
  pd_slot : u64;
  pd_current_slot : u64;
  pd_queued_requests : Z;
  pd_superseded_requests : Z
}.

Inductive SimulatorsEvent :=
| TaskDone (id : nat) (error : option BlockSimError) (result : SimResult) (elapsed : option Z)
| SyncStatus (id : nat) (reported : option bool).

(** ** State *)

(** The resubmissions waiting on a block's first simulation, or its outcome. *)
Inductive SimSeenBlock :=
| InFlight (waiting : list ValidationRequest)
| Done (result : Result unit BlockSimError).

Record SampleState := mkSampleState { sp_seen : u32; sp_sampled : u32 }.

Record QueueKey := mkQueueKey { qk_parent_hash : B256; qk_builder_pubkey : Pubkey }.
#[export] Instance QueueKey_eq_dec : EqDecision QueueKey.
Proof. solve_decision. Defined.

Abbreviation PendingRequests := (list (ValidationRequest * QueueKey * SubmissionVersion))
  (only parsing).
Abbreviation PendingMergeRequests := (list (MergedValidationRequest * BlockMergeResponse))
  (only parsing).

Record SimTelemetry := mkSimTelemetry {
  lt_sims_reqs : Z;
  lt_sims_sent_immediately : Z;
  lt_sims_reqs_dropped : Z;
  lt_max_pending : Z;
  lt_max_in_flight : Z;
  lt_sample_skipped : Z;
  lt_duplicate_skipped : Z;
  lt_queued : Z;
  lt_sims_sent_from_queue : Z;
  lt_superseded : Z;
  lt_superseded_sent : Z
}.
#[export] Instance eta_SimTelemetry : Eta SimTelemetry := λ r,
  mkSimTelemetry (lt_sims_reqs r) (lt_sims_sent_immediately r) (lt_sims_reqs_dropped r)
    (lt_max_pending r) (lt_max_in_flight r) (lt_sample_skipped r) (lt_duplicate_skipped r)
    (lt_queued r) (lt_sims_sent_from_queue r) (lt_superseded r) (lt_superseded_sent r).
Definition sim_telemetry_default : SimTelemetry := mkSimTelemetry 0 0 0 0 0 0 0 0 0 0 0.

(** A task running on the async runtime, with the simulator it was sent to. *)
Inductive SimTask :=
| SimTaskRun (id : nat) (ssz : bool) (req : ValidationRequest)
| MergeTaskRun (id : nat) (ssz : bool) (req : MergedValidationRequest)
    (response : BlockMergeResponse).

(** [sm_in_flight] holds the spawned tasks, [sm_rx] the channel they report
    on. The per-simulator slot statistics only feed the slot report and are
    left out. *)
Record Simulators := mkSimulators {
  sm_simulators : list SimEntry;
  sm_ssz_sim_indices : list nat;
  sm_requests : PendingRequests;
  sm_priority_requests : PendingRequests;
  sm_merge_requests : PendingMergeRequests;
  sm_superseded : list ValidationRequest;
  sm_last_bid_slot : u64;
  sm_previous_bid_slot : u64;
  sm_local_telemetry : SimTelemetry;
  sm_rx : list SimulatorsEvent;
  sm_sample_state : gmap Pubkey SampleState;
  sm_seen_blocks : gmap B256 SimSeenBlock;
  sm_accept_optimistic : bool;
  sm_answered : list SimDone;
  sm_in_flight : list SimTask
}.
#[export] Instance eta_Simulators : Eta Simulators := λ r,
  mkSimulators (sm_simulators r) (sm_ssz_sim_indices r) (sm_requests r)
    (sm_priority_requests r) (sm_merge_requests r) (sm_superseded r) (sm_last_bid_slot r)
    (sm_previous_bid_slot r) (sm_local_telemetry r) (sm_rx r) (sm_sample_state r)
    (sm_seen_blocks r) (sm_accept_optimistic r) (sm_answered r) (sm_in_flight r).

Definition SAMPLE_FLOOR : Z := 3.
Definition SAMPLE_EVERY : Z := 64.
Definition SUPERSEDED_CAPACITY : Z := 5000.

(** ** Construction *)

Definition simulators_new (configs : list SimulatorClient) : Simulators :=
  let simulators := entry_new <$> configs in
  {| sm_simulators := simulators;
     sm_ssz_sim_indices :=
       (filter (λ e : nat * SimEntry, has_ssz_url (se_client e.2) = true)
          (enumerate simulators)).*1;
     sm_requests := []; sm_priority_requests := []; sm_merge_requests := [];
     sm_superseded := []; sm_last_bid_slot := 0; sm_previous_bid_slot := 0;
     sm_local_telemetry := sim_telemetry_default; sm_rx := []; sm_sample_state := ∅;
     sm_seen_blocks := ∅; sm_accept_optimistic := true; sm_answered := []; sm_in_flight := [] |}.

(** ** Answers *)

Definition sim_started_event (submission_id : Uuid) (block_hash : B256) (merged is_top_bid : bool)
    : SimStarted := mkSimStarted submission_id block_hash merged is_top_bid.

(** [SimDone::dropped]; an optimistic submission was answered when sorted. *)
Definition dropped (req : ValidationRequest) : list SimDone :=
  if vr_is_optimistic req then []
  else [mkSimDone
    (Validate 0 (Some (mkSimulationResultInner (vr_submission_ref req) (optimistic_version req)
       None (Err SimulationDropped) (vr_submission_id req) 0 [] false))) 0].

Definition cached_answer (req : ValidationRequest) (result : Result unit BlockSimError)
    : list SimDone :=
  if vr_is_optimistic req then []
  else [mkSimDone
    (Validate 0 (Some (mkSimulationResultInner (vr_submission_ref req) (optimistic_version req)
       (Some (bid_new (vr_version req) (vr_submission req) (vr_parent_beacon_block_root req)))
       (match result with Ok tt => Ok (vr_trace req) | Err e => Err e end)
       (vr_submission_id req) 0 [] false))) 0].

(** ** Queues *)

Definition next_req (reqs : PendingRequests) : option (ValidationRequest * PendingRequests) :=
  e ← max_by (λ x y, sort_key_cmp x.2.1.1 y.2.1.1) (enumerate reqs);
  '(r, rest) ← swap_remove e.1 reqs;
  Some (r.1.1, rest).

(** Returns the new queue and the request dropped: the older one under the
    key, or [req] itself. *)
Definition store (req : ValidationRequest) (key : QueueKey) (version : SubmissionVersion)
    (reqs : PendingRequests) : PendingRequests * option ValidationRequest :=
  match find (λ e : nat * (ValidationRequest * QueueKey * SubmissionVersion),
                bool_decide (e.2.1.2 = key)) (enumerate reqs) with
  | Some (i, (queued, k, v)) =>
      if version_lt v version
      then (<[i := (req, k, version)]> reqs, Some queued)
      else (reqs, Some req)
  | None => (reqs ++ [(req, key, version)], None)
  end.

Definition merge_store (req : MergedValidationRequest) (response : BlockMergeResponse)
    (reqs : PendingMergeRequests)
    : PendingMergeRequests * option (MergedValidationRequest * BlockMergeResponse) :=
  match find (λ e : nat * (MergedValidationRequest * BlockMergeResponse),
                mv_base_block_hash e.2.1 =? mv_base_block_hash req) (enumerate reqs) with
  | Some (i, (queued, queued_response)) =>
      if mv_receive_ns queued <? mv_receive_ns req
      then (<[i := (req, response)]> reqs, Some (queued, queued_response))
      else (reqs, None)
  | None => (reqs ++ [(req, response)], None)
  end.

Definition merge_next_req (reqs : PendingMergeRequests)
    : option (MergedValidationRequest * BlockMergeResponse * PendingMergeRequests) :=
  e ← max_by (λ x y, Z.compare (mv_receive_ns x.2.1) (mv_receive_ns y.2.1)) (enumerate reqs);
  swap_remove e.1 reqs.

(** ** Selection *)

(** [ssz_request_builder] and [sim_request_builder]: whether the simulator has
    a validation method for the fork. *)
Definition supports (client : SimulatorClient) (fork : ForkName) : bool :=
  if has_ssz_url client then
    match fork with Fulu | Gloas => true | _ => false end
  else
    match fork with
    | Fulu | Bellatrix | Capella | Deneb | Electra => true
    | Base | Altair | Gloas | Heze => false
    end.

Definition next_client (now : Z) (s : Simulators) : option nat :=
  fst <$> min_by (λ x y, Z.compare (utilization now x.2) (utilization now y.2))
    (filter (λ e : nat * SimEntry, can_simulate_at now e.2 = true)
       (enumerate (sm_simulators s))).

Definition select_simulator (now : Z) (s : Simulators) : option nat :=
  let util i := from_option (utilization now) 0 (sm_simulators s !! i) in
  match min_by (λ x y, Z.compare (util x) (util y))
    (filter (λ i, from_option (can_simulate_at now) false (sm_simulators s !! i) = true)
       (sm_ssz_sim_indices s)) with
  | Some i => Some i
  | None => next_client now s
  end.

(** ** The pool *)

Abbreviation Pool := (Comp Simulators SimStarted) (only parsing).

(** [&mut self.simulators[id]], which panics out of range. *)
Definition with_sim (id : nat) (f : SimEntry → SimEntry) : Pool unit :=
  sim ← gets (λ s, sm_simulators s !! id);
  match sim with
  | None => panic
  | Some sim => modify (λ s, s <| sm_simulators ::= <[id := f sim]> |>)
  end.

Definition bump (f : SimTelemetry → SimTelemetry) : Pool unit :=
  modify (λ s, s <| sm_local_telemetry ::= f |>).

Definition note_in_flight (id : nat) : Pool unit :=
  pending ← gets (λ s, from_option se_pending 0 (sm_simulators s !! id));
  bump (λ t, t <| lt_max_in_flight ::= Z.max pending |>).

(** The answer of a simulator without a method for the fork. *)
Definition unsupported_answer (id : nat) (req : ValidationRequest) (fork : ForkName)
    : SimulatorsEvent :=
  TaskDone id None
    (Validate id (Some (mkSimulationResultInner (vr_submission_ref req) (optimistic_version req)
       None (Err (UnsupportedFork fork)) (vr_submission_id req) (vr_block_hash req) [] false)))
    None.

Definition spawn_sim (id : nat) (req : ValidationRequest) : Pool (option SimStarted) :=
  let hash := vr_block_hash req in
  modify (λ s, s <| sm_seen_blocks ::=
    λ m, match m !! hash with Some _ => m | None => <[hash := InFlight []]> m end |>);;
  client ← gets (λ s, se_client <$> sm_simulators s !! id);
  match client with
  | None => panic
  | Some client =>
      let fork := signed_fork_name (vr_submission req) in
      let started := sim_started_event (vr_submission_id req) hash false (vr_is_top_bid req) in
      (if supports client fork then
         with_sim id entry_send;;
         note_in_flight id;;
         modify (λ s, s <| sm_in_flight ::= λ l, l ++ [SimTaskRun id (has_ssz_url client) req] |>)
       else
         with_sim id entry_send;;
         modify (λ s, s <| sm_rx ::= λ l, l ++ [unsupported_answer id req fork] |>));;
      mret (if hash =? 0 then None else Some started)
  end.

Definition spawn_merge_sim (id : nat) (req : MergedValidationRequest)
    (response : BlockMergeResponse) : Pool (option SimStarted) :=
  let hash := ep_block_hash (mr_execution_payload response) in
  ssz ← gets (λ s, from_option (λ sim, has_ssz_url (se_client sim)) false (sm_simulators s !! id));
  with_sim id entry_send;;
  note_in_flight id;;
  modify (λ s, s <| sm_in_flight ::= λ l, l ++ [MergeTaskRun id ssz req response] |>);;
  mret (if hash =? 0 then None
        else Some (sim_started_event (mv_submission_id req) hash true false)).

Definition answer_cached (req : ValidationRequest) (result : Result unit BlockSimError)
    : Pool unit :=
  modify (λ s, s <| sm_answered ::= λ l, l ++ cached_answer req result |>).

Definition answer_dropped (req : ValidationRequest) : Pool unit :=
  modify (λ s, s <| sm_answered ::= λ l, l ++ dropped req |>).

Definition take_sample (builder : Pubkey) : Pool bool :=
  st ← gets (λ s, default (mkSampleState 0 0) (sm_sample_state s !! builder));
  let seen := inc32 (sp_seen st) in
  let taken := (sp_sampled st <? SAMPLE_FLOOR) || (seen mod SAMPLE_EVERY =? 0) in
  modify (λ s, s <| sm_sample_state ::= <[builder :=
    mkSampleState seen (if taken then inc32 (sp_sampled st) else sp_sampled st)]> |>);;
  mret taken.

(** The part of [dispatch] for a request no simulator can take now. *)
Definition enqueue (req : ValidationRequest) (fast_track : bool) : Pool unit :=
  let trace := signed_bid_trace (vr_submission req) in
  let key := mkQueueKey (bt_parent_hash trace) (bt_builder_pubkey trace) in
  queue ← gets (if fast_track then sm_priority_requests else sm_requests);
  let '(queue', drop) := store req key (vr_version req) queue in
  modify (λ s, if fast_track then s <| sm_priority_requests := queue' |>
               else s <| sm_requests := queue' |>);;
  match drop with
  | Some q =>
      bump (λ t, t <| lt_sims_reqs_dropped ::= λ n, n + 1 |>);;
      room ← gets (λ s, len (sm_superseded s) <? SUPERSEDED_CAPACITY);
      if vr_is_optimistic q && room then
        bump (λ t, t <| lt_superseded ::= λ n, n + 1 |>);;
        modify (λ s, s <| sm_superseded ::= λ l, l ++ [q <| vr_priority := Low |>] |>)
      else answer_dropped q
  | None => bump (λ t, t <| lt_max_pending ::= Z.max (len queue') |>)
  end.

(** A sampled bid outside its builder's sample runs at [Low]. *)
Definition sample_request (req : ValidationRequest) : Pool ValidationRequest :=
  if bool_decide (vr_priority req = Sample) then
    taken ← take_sample (bt_builder_pubkey (signed_bid_trace (vr_submission req)));
    if taken : bool then mret req
    else
      bump (λ t, t <| lt_sample_skipped ::= λ n, n + 1 |>);;
      mret (req <| vr_priority := Low |>)
  else mret req.

Definition send_or_queue (now : Z) (req : ValidationRequest) (fast_track : bool)
    : Pool (option SimStarted) :=
  sim_id ← gets (select_simulator now);
  match sim_id with
  | Some id =>
      bump (λ t, t <| lt_sims_sent_immediately ::= λ n, n + 1 |>);;
      spawn_sim id req
  | None =>
      bump (λ t, t <| lt_queued ::= λ n, n + 1 |>);;
      enqueue req fast_track;;
      mret None
  end.

Definition dispatch (now : Z) (req : ValidationRequest) (fast_track : bool)
    : Pool (option SimStarted) :=
  bump (λ t, t <| lt_sims_reqs ::= λ n, n + 1 |>);;
  seen ← gets (λ s, sm_seen_blocks s !! vr_block_hash req);
  match seen with
  | Some (InFlight waiting) =>
      bump (λ t, t <| lt_duplicate_skipped ::= λ n, n + 1 |>);;
      (if vr_is_optimistic req then mret tt
       else modify (λ s, s <| sm_seen_blocks ::=
              <[vr_block_hash req := InFlight (waiting ++ [req])]> |>));;
      mret None
  | Some (Done result) =>
      bump (λ t, t <| lt_duplicate_skipped ::= λ n, n + 1 |>);;
      answer_cached req result;;
      mret None
  | None =>
      req ← sample_request req;
      send_or_queue now req fast_track
  end.

Definition dispatch_merged (now : Z) (req : MergedValidationRequest)
    (response : BlockMergeResponse) : Pool (option SimStarted) :=
  bump (λ t, t <| lt_sims_reqs ::= λ n, n + 1 |>);;
  sim_id ← gets (next_client now);
  match sim_id with
  | Some id =>
      bump (λ t, t <| lt_sims_sent_immediately ::= λ n, n + 1 |>);;
      spawn_merge_sim id req response
  | None =>
      bump (λ t, t <| lt_queued ::= λ n, n + 1 |>);;
      modify (λ s, s <| sm_merge_requests ::= λ l, (merge_store req response l).1 |>);;
      mret None
  end.

(** [from_fn(|| superseded.pop()).find(...)], on the reversed list: newest
    first, discarding the blocks already sent to a simulator. *)
Fixpoint pop_unseen (seen : gmap B256 SimSeenBlock) (l : list ValidationRequest)
    : option ValidationRequest * list ValidationRequest :=
  match l with
  | [] => (None, [])
  | r :: rest =>
      match seen !! vr_block_hash r with
      | Some _ => pop_unseen seen rest
      | None => (Some r, rest)
      end
  end.

Definition refresh_accept_optimistic (now : Z) : Pool unit :=
  modify (λ s, s <| sm_accept_optimistic := existsb (can_simulate_light now) (sm_simulators s) |>).

Definition handle_sync_status (now : Z) (id : nat) (reported : option bool) : Pool unit :=
  with_sim id (record_sync reported);;
  refresh_accept_optimistic now.

Definition publish (started : option SimStarted) : Pool unit :=
  match started with Some e => emit [e] | None => mret tt end.

(** The last part of [on_task_response]: the next request for a simulator
    that can take one. *)
Definition send_next (id : nat) : Pool unit :=
  s ← get;
  match next_req (sm_priority_requests s), next_req (sm_requests s) with
  | Some (req, rest), _ =>
      modify (λ s, s <| sm_priority_requests := rest |>);;
      bump (λ t, t <| lt_sims_sent_from_queue ::= λ n, n + 1 |>);;
      started ← spawn_sim id req; publish started
  | None, Some (req, rest) =>
      modify (λ s, s <| sm_requests := rest |>);;
      bump (λ t, t <| lt_sims_sent_from_queue ::= λ n, n + 1 |>);;
      started ← spawn_sim id req; publish started
  | None, None =>
      match merge_next_req (sm_merge_requests s) with
      | Some (req, response, rest) =>
          modify (λ s, s <| sm_merge_requests := rest |>);;
          started ← spawn_merge_sim id req response; publish started
      | None =>
          let '(found, rest) := pop_unseen (sm_seen_blocks s) (reverse (sm_superseded s)) in
          modify (λ s, s <| sm_superseded := reverse rest |>);;
          match found with
          | Some req =>
              bump (λ t, t <| lt_superseded_sent ::= λ n, n + 1 |>);;
              started ← spawn_sim id req; publish started
          | None => mret tt
          end
      end
  end.

Definition on_task_response (now : Z) (id : nat) (error : option BlockSimError)
    (elapsed : option Z) : Pool unit :=
  with_sim id (entry_done now error elapsed);;
  refresh_accept_optimistic now;;
  next ← gets (next_client now);
  match next with
  | Some id => send_next id
  | None => mret tt
  end.

Definition outcome (result : Result SubmissionTrace BlockSimError) : Result unit BlockSimError :=
  match result with Ok _ => Ok tt | Err e => Err e end.

Definition on_block_simulated (block_hash : B256) (result : Result SubmissionTrace BlockSimError)
    : Pool unit :=
  prev ← gets (λ s, sm_seen_blocks s !! block_hash);
  (if match result with Err err => negb (is_demotable err) | Ok _ => false end
   then modify (λ s, s <| sm_seen_blocks ::= delete block_hash |>)
   else modify (λ s, s <| sm_seen_blocks ::= <[block_hash := Done (outcome result)]> |>));;
  match prev with
  | Some (InFlight waiting) =>
      modify (λ s, s <| sm_answered ::=
        λ l, l ++ (waiting ≫= λ req, cached_answer req (outcome result)) |>)
  | _ => mret tt
  end.

(** The loop of [next_done]: [now i] is the clock when event [i] is handled. *)
Fixpoint next_done_loop (now : nat → Z) (i : nat) (fuel : nat) : Pool (option SimDone) :=
  match fuel with
  | O => mret None
  | S fuel' =>
      rx ← gets sm_rx;
      match rx with
      | TaskDone id error result elapsed :: rest =>
          modify (λ s, s <| sm_rx := rest |>);;
          on_task_response (now i) id error elapsed;;
          (match result with
           | Validate _ (Some inner) => on_block_simulated (si_block_hash inner) (si_result inner)
           | _ => mret tt
           end);;
          mret (Some (mkSimDone result (default 0 elapsed)))
      | SyncStatus id reported :: rest =>
          modify (λ s, s <| sm_rx := rest |>);;
          handle_sync_status (now i) id reported;;
          next_done_loop now (S i) fuel'
      | [] =>
          answered ← gets sm_answered;
          match last answered with
          | Some done =>
              modify (λ s, s <| sm_answered := take (pred (length answered)) answered |>);;
              mret (Some done)
          | None => mret None
          end
      end
  end.

(** One iteration per event of the channel and one for the empty channel. *)
Definition next_done (now : nat → Z) : Pool (option SimDone) :=
  fuel ← gets (λ s, S (length (sm_rx s)));
  next_done_loop now 0 fuel.

(** [retain_mut] of [on_new_slot] on the queue: keeps the optimistic requests
    of the slot that ends, marked, and answers the others. *)
Definition retire_queued (e : ValidationRequest * QueueKey * SubmissionVersion)
    : option (ValidationRequest * QueueKey * SubmissionVersion) :=
  let req := e.1.1 in
  if negb (vr_is_optimistic req) || bool_decide (vr_priority req = PreviousSlot) then None
  else Some (req <| vr_priority := PreviousSlot |>, e.1.2, e.2).

Definition retire_superseded (req : ValidationRequest) : option ValidationRequest :=
  if bool_decide (vr_priority req = PreviousSlot) then None
  else Some (req <| vr_priority := PreviousSlot |>).

Definition from_previous_slot (reqs : list ValidationRequest) : Z :=
  len (filter (λ r, vr_priority r = PreviousSlot) reqs).

(** The requests [on_new_slot] removes from the queue. *)
Definition retired (reqs : PendingRequests) : list ValidationRequest :=
  omap (λ e, match retire_queued e with Some _ => None | None => Some e.1.1 end) reqs.
#[global] Arguments retired : simpl never.

Definition waiting_requests (b : SimSeenBlock) : list ValidationRequest :=
  match b with InFlight waiting => waiting | Done _ => [] end.

Section new_slot.
Context `{HO : HashOrder}.

Definition pool_on_new_slot (bid_slot : u64) : Pool (option SimPreviousSlotDrops) :=
  s ← get;
  let drops := mkSimPreviousSlotDrops (sm_previous_bid_slot s) bid_slot
    (from_previous_slot (sm_requests s).*1.*1) (from_previous_slot (sm_superseded s)) in
  modify (λ s, if 0 <? sm_last_bid_slot s
               then s <| sm_local_telemetry := sim_telemetry_default |> else s);;
  modify (λ s, s <| sm_previous_bid_slot := sm_last_bid_slot s |>);;
  modify (λ s, s <| sm_last_bid_slot := bid_slot |>);;
  modify (λ s, s <| sm_answered ::= λ l, l ++ ((sm_priority_requests s).*1.*1 ≫= dropped) |>
                 <| sm_priority_requests := [] |>);;
  modify (λ s, s <| sm_answered ::= λ l, l ++ (retired (sm_requests s) ≫= dropped) |>
                 <| sm_requests ::= omap retire_queued |>);;
  modify (λ s, s <| sm_superseded ::= omap retire_superseded |>);;
  modify (λ s, s <| sm_merge_requests := [] |>);;
  modify (λ s, s <| sm_sample_state := ∅ |>);;
  modify (λ s, s <| sm_answered ::=
                      λ l, l ++ ((hash_values (sm_seen_blocks s) ≫= waiting_requests) ≫= dropped) |>
                 <| sm_seen_blocks := ∅ |>);;
  mret (if sm_previous_bid_slot s =? 0 then None else Some drops).
End new_slot.

(** ** Tasks *)

Section tasks.
Context `{TH : TreeHash}.

(** What a simulator answers to the requests of one task: the first answer
    and, after a hydration miss, the answer to the full submission. *)
Record SimReply := mkSimReply {
  sr_first : Result (list TxDetail) BlockSimError;
  sr_retry : Result (list TxDetail) BlockSimError;
  sr_elapsed : Z
}.

(** The body of the task [spawn_sim] spawns, up to its report. *)
Definition sim_response (ssz : bool) (req : ValidationRequest) (reply : SimReply)
    : Result (list TxDetail) BlockSimError * bool :=
  let first :=
    if ssz then sr_first reply
    else match vr_submission req with
         | SFulu _ => match sr_first reply with Ok _ => Ok [] | Err e => Err e end
         | SGloas _ => Err (UnsupportedFork Gloas)
         end in
  let '(res, retried) :=
    match first with
    | Err HydrationMiss => if ssz then (sr_retry reply, true) else (Err RpcError, false)
    | _ => (first, false)
    end in
  let res :=
    match vr_tx_root req, vr_submission req with
    | Some got, SFulu submission =>
        let expected := transactions_root (ep_transactions (sf_execution_payload submission)) in
        if expected =? got then res else Err (InvalidTxRoot got expected)
    | _, _ => res
    end in
  (res, retried).

Definition result_err {A E} (r : Result A E) : option E :=
  match r with Ok _ => None | Err e => Some e end.

Definition merged_block_to_submission (response : BlockMergeResponse)
    (req : MergedValidationRequest) : SignedBidSubmissionFulu :=
  let payload := mr_execution_payload response in
  {| sf_message := {|
       bt_slot := mv_slot req;
       bt_parent_hash := ep_parent_hash payload;
       bt_block_hash := ep_block_hash payload;
       bt_builder_pubkey := 0;
       bt_proposer_pubkey := 0;
       bt_proposer_fee_recipient := mv_proposer_fee_recipient req;
       bt_gas_limit := ep_gas_limit payload;
       bt_gas_used := ep_gas_used payload;
       bt_value := mr_proposer_value response |};
     sf_execution_payload := payload;
     sf_blobs_bundle := mr_blobs_bundle response;
     sf_execution_requests := mr_execution_requests response;
     sf_signature := 0 |}.

(** The report a task sends on the channel. *)
Definition task_done (task : SimTask) (reply : SimReply) : SimulatorsEvent :=
  match task with
  | SimTaskRun id ssz req =>
      let '(res, retried) := sim_response ssz req reply in
      TaskDone id (result_err res)
        (Validate id (Some {|
           si_submission_ref := vr_submission_ref req;
           si_optimistic_version := optimistic_version req;
           si_bid := Some (bid_new (vr_version req) (vr_submission req)
                             (vr_parent_beacon_block_root req));
           si_result := match res with Ok _ => Ok (vr_trace req) | Err e => Err e end;
           si_submission_id := vr_submission_id req;
           si_block_hash := vr_block_hash req;
           si_txs := match res with Ok txs => txs | Err _ => [] end;
           si_retried := retried |}))
        (Some (sr_elapsed reply))
  | MergeTaskRun id ssz req response =>
      let submission := merged_block_to_submission response req in
      let res :=
        if ssz then sr_first reply
        else match sr_first reply with Ok _ => Ok [] | Err e => Err e end in
      TaskDone id (result_err res)
        (ValidateMerged id (Some {|
           mi_result := match res with Ok _ => Ok tt | Err e => Err e end;
           mi_submission_id := mv_submission_id req;
           mi_block_hash := ep_block_hash (sf_execution_payload submission);
           mi_txs := match res with Ok txs => txs | Err _ => [] end |}))
        (Some (sr_elapsed reply))
  end.

(** The runtime finishes the task at position [i]. *)
Definition complete_task (i : nat) (reply : SimReply) (s : Simulators) : Simulators :=
  match sm_in_flight s !! i with
  | Some task => s <| sm_in_flight ::= delete i |>
                   <| sm_rx ::= λ l, l ++ [task_done task reply] |>
  | None => s
  end.

(** The sync poller reports. *)
Definition sync_poll (id : nat) (reported : option bool) (s : Simulators) : Simulators :=
  s <| sm_rx ::= λ l, l ++ [SyncStatus id reported] |>.
End tasks.

(** ** What is owed to the builders

    A non-optimistic submission is answered with its simulation result. These
    count, for a submission reference, the requests queued, waiting on another
    simulation of their block or running, and the results not yet taken. *)
Definition req_owed (r : SubmissionRef) (q : ValidationRequest) : Z :=
  if vr_is_optimistic q then 0 else if bool_decide (vr_submission_ref q = r) then 1 else 0.

Definition result_owed (r : SubmissionRef) (res : SimResult) : Z :=
  match res with
  | Validate _ (Some i) =>
      if version_is_optimistic (si_optimistic_version i) then 0
      else if bool_decide (si_submission_ref i = r) then 1 else 0
  | _ => 0
  end.

Definition task_owed (r : SubmissionRef) (t : SimTask) : Z :=
  match t with SimTaskRun _ _ req => req_owed r req | MergeTaskRun _ _ _ _ => 0 end.

Definition event_owed (r : SubmissionRef) (e : SimulatorsEvent) : Z :=
  match e with TaskDone _ _ res _ => result_owed r res | SyncStatus _ _ => 0 end.

Definition done_owed (r : SubmissionRef) (d : SimDone) : Z := result_owed r (sd_result d).

Definition queue_owed (r : SubmissionRef) (reqs : PendingRequests) : Z :=
  sumZ (req_owed r <$> reqs.*1.*1).
#[global] Arguments queue_owed : simpl never.

Definition waiting_owed (r : SubmissionRef) (b : SimSeenBlock) : Z :=
  sumZ (req_owed r <$> waiting_requests b).

Definition owed (r : SubmissionRef) (s : Simulators) : Z :=
  queue_owed r (sm_requests s) + queue_owed r (sm_priority_requests s) +
  map_sum (waiting_owed r) (sm_seen_blocks s) + sumZ (task_owed r <$> sm_in_flight s) +
  sumZ (event_owed r <$> sm_rx s) + sumZ (done_owed r <$> sm_answered s).

(** ** Invariant *)

Definition task_id (t : SimTask) : nat :=
  match t with SimTaskRun id _ _ => id | MergeTaskRun id _ _ _ => id end.
Definition event_id (e : SimulatorsEvent) : nat :=
  match e with TaskDone id _ _ _ => id | SyncStatus id _ => id end.

Definition task_on (id : nat) (t : SimTask) : Z := if bool_decide (task_id t = id) then 1 else 0.
Definition event_on (id : nat) (e : SimulatorsEvent) : Z :=
  match e with
  | TaskDone id' _ _ _ => if bool_decide (id' = id) then 1 else 0
  | SyncStatus _ _ => 0
  end.

(** The tasks of simulator [id] whose end the pool has not seen. *)
Definition running (id : nat) (s : Simulators) : Z :=
  sumZ (task_on id <$> sm_in_flight s) + sumZ (event_on id <$> sm_rx s).
#[global] Arguments running : simpl never.

Record pool_ok (s : Simulators) : Prop := {
  pool_sims : Forall entry_ok (sm_simulators s);
  pool_ssz : Forall (λ i, (i < length (sm_simulators s))%nat) (sm_ssz_sim_indices s);
  pool_tasks : Forall (λ t, (task_id t < length (sm_simulators s))%nat) (sm_in_flight s);
  pool_events : Forall (λ e, (event_id e < length (sm_simulators s))%nat) (sm_rx s);
  pool_pending : ∀ id sim, sm_simulators s !! id = Some sim → se_pending sim = running id s;
  pool_superseded : Forall (λ q, vr_is_optimistic q = true) (sm_superseded s) ∧
                    len (sm_superseded s) ≤ SUPERSEDED_CAPACITY;
  pool_waiting : map_Forall (λ _ b, Forall (λ q, vr_is_optimistic q = false) (waiting_requests b))
                   (sm_seen_blocks s)
}.

(** *** Counting *)

Lemma sum_dropped r l : sumZ (done_owed r <$> (l ≫= dropped)) = sumZ (req_owed r <$> l).
Proof.
  induction l as [|q l IH]; cbn; [done|]. rewrite fmap_app, sumZ_app.
  fold (mbind (M := list) dropped l). rewrite IH. f_equal.
  unfold dropped, req_owed. destruct (vr_is_optimistic q) eqn:E; cbn; [done|].
  unfold done_owed, optimistic_version. cbn. rewrite E. cbn. case_bool_decide; lia.
Qed.

Lemma sum_cached r res l :
  sumZ (done_owed r <$> (l ≫= λ q, cached_answer q res)) = sumZ (req_owed r <$> l).
Proof.
  induction l as [|q l IH]; cbn; [done|]. rewrite fmap_app, sumZ_app.
  fold (mbind (M := list) (λ q, cached_answer q res) l). rewrite IH. f_equal.
  unfold cached_answer, req_owed. destruct (vr_is_optimistic q) eqn:E; cbn; [done|].
  unfold done_owed, optimistic_version. cbn. rewrite E. cbn. case_bool_decide; lia.
Qed.

Lemma sum_dropped1 r q : sumZ (done_owed r <$> dropped q) = req_owed r q.
Proof. pose proof (sum_dropped r [q]) as H. cbn in H. rewrite app_nil_r in H. rewrite H. lia. Qed.

Lemma sum_cached1 r q res : sumZ (done_owed r <$> cached_answer q res) = req_owed r q.
Proof. pose proof (sum_cached r res [q]) as H. cbn in H. rewrite app_nil_r in H. rewrite H. lia. Qed.

Lemma next_req_owed r reqs q rest :
  next_req reqs = Some (q, rest) → queue_owed r reqs = req_owed r q + queue_owed r rest.
Proof.
  unfold next_req, queue_owed. intros (e & _ & H)%bind_Some.
  apply bind_Some in H as ([x rest'] & Hx & [= <- <-]).
  apply swap_remove_perm in Hx. by rewrite Hx.
Qed.

Lemma find_enumerate {A} (p : nat * A → bool) (l : list A) i x :
  find p (enumerate l) = Some (i, x) → l !! i = Some x ∧ p (i, x) = true.
Proof. intros [H ?]%find_some. by apply elem_of_enumerate in H. Qed.

Lemma store_owed r req key v reqs reqs' drop :
  store req key v reqs = (reqs', drop) →
  queue_owed r reqs' + from_option (req_owed r) 0 drop = queue_owed r reqs + req_owed r req.
Proof.
  unfold store, queue_owed. destruct (find _ _) as [[i [[q k] v']]|] eqn:E.
  - apply find_enumerate in E as [Hi _]. destruct (version_lt v' v); intros [= <- <-]; cbn.
    + rewrite !list_fmap_insert. cbn. rewrite (sumZ_insert _ _ _ (req_owed r q)); [lia|].
      by rewrite !list_lookup_fmap, Hi.
    + lia.
  - intros [= <- <-]. rewrite !fmap_app, sumZ_app. cbn. lia.
Qed.

(** *** Selection *)

Lemma next_client_some now s id :
  next_client now s = Some id →
  ∃ sim, sm_simulators s !! id = Some sim ∧ can_simulate_at now sim = true.
Proof.
  unfold next_client. intros ([i sim] & Hm & ->)%fmap_Some.
  apply min_by_elem, list_elem_of_filter in Hm as [Hc Hin].
  apply elem_of_enumerate in Hin. eauto.
Qed.

Lemma select_simulator_some now s id :
  select_simulator now s = Some id →
  ∃ sim, sm_simulators s !! id = Some sim ∧ can_simulate_at now sim = true.
Proof.
  unfold select_simulator. destruct (min_by _ _) as [i|] eqn:E; [|apply next_client_some].
  intros [= ->]. apply min_by_elem, list_elem_of_filter in E as [Hc _].
  destruct (sm_simulators s !! id); [eauto|done].
Qed.

(** *** Steps

    [pool_step d s s']: the invariant holds after the step, the answers owed
    for [r] changed by [d r], the slot and the simulators are the same. *)
Definition clients (s : Simulators) : list SimulatorClient := se_client <$> sm_simulators s.

Definition pool_frame (s s' : Simulators) : Prop :=
  sm_last_bid_slot s' = sm_last_bid_slot s ∧ clients s' = clients s.

Definition pool_step (d : SubmissionRef → Z) (s s' : Simulators) : Prop :=
  pool_ok s' ∧ (∀ r, owed r s' = owed r s + d r) ∧ pool_frame s s'.

Lemma pool_frame_trans s1 s2 s3 : pool_frame s1 s2 → pool_frame s2 s3 → pool_frame s1 s3.
Proof. intros [? ?] [? ?]. split; congruence. Qed.

Lemma clients_update (s s' : Simulators) id sim sim' :
  sm_simulators s !! id = Some sim →
  sm_simulators s' = <[id := sim']> (sm_simulators s) → se_client sim' = se_client sim →
  clients s' = clients s.
Proof.
  intros Hid E Hc. unfold clients. rewrite E, list_fmap_insert, Hc.
  apply list_insert_id. by rewrite list_lookup_fmap, Hid.
Qed.

Lemma pool_step_trans d1 d2 s1 s2 s3 :
  pool_step d1 s1 s2 → pool_step d2 s2 s3 → pool_step (λ r, d1 r + d2 r) s1 s3.
Proof.
  intros (_ & H1 & E1) (Hok & H2 & E2). split_and!; [done| |by eapply pool_frame_trans].
  intros r. rewrite H2, H1. lia.
Qed.

Lemma pool_step_ext d d' s s' : pool_step d s s' → (∀ r, d r = d' r) → pool_step d' s s'.
Proof. intros (? & H & ?) E. split_and!; [done| |done]. intros r. by rewrite H, E. Qed.

Lemma pool_step_refl s : pool_ok s → pool_step (λ _, 0) s s.
Proof. intros Hs. split_and!; [done| |done]. intros r. lia. Qed.

Lemma wp_pool_bind {A B} d1 d2 d (m : Pool A) (k : A → Pool B) s :
  (∀ r, d r = d1 r + d2 r) →
  wp m (λ a s' _, pool_step d1 s s' ∧ wp (k a) (λ _ s'' _, pool_step d2 s' s'') s') s →
  wp (m ≫= k) (λ _ s' _, pool_step d s s') s.
Proof.
  intros Hd Hm. apply wp_bind. eapply wp_mono; [exact Hm|]. intros a s' o [H1 Hk].
  eapply wp_mono; [exact Hk|]. intros b s'' o' H2.
  cbn in H2. eapply pool_step_ext; [exact (pool_step_trans _ _ _ _ _ H1 H2)|]. intros r. symmetry. apply Hd.
Qed.

Lemma running_app id s s' ts evs :
  sm_in_flight s' = sm_in_flight s ++ ts → sm_rx s' = sm_rx s ++ evs →
  running id s' = running id s + sumZ (task_on id <$> ts) + sumZ (event_on id <$> evs).
Proof. intros H1 H2. unfold running. rewrite H1, H2, !fmap_app, !sumZ_app. lia. Qed.

(** Handing a task to a simulator that can take it. *)
Lemma pool_ok_send s s' id sim now ts evs :
  pool_ok s → sm_simulators s !! id = Some sim → can_simulate_at now sim = true →
  sm_simulators s' = <[id := entry_send sim]> (sm_simulators s) →
  sm_ssz_sim_indices s' = sm_ssz_sim_indices s →
  sm_in_flight s' = sm_in_flight s ++ ts → sm_rx s' = sm_rx s ++ evs →
  Forall (λ t, task_id t = id) ts → Forall (λ e, event_id e = id) evs →
  (∀ id', sumZ (task_on id' <$> ts) + sumZ (event_on id' <$> evs) = if decide (id = id') then 1 else 0) →
  sm_superseded s' = sm_superseded s → sm_seen_blocks s' = sm_seen_blocks s →
  pool_ok s'.
Proof.
  intros [Hsims Hssz Htasks Hevents Hpend Hsup Hwait] Hid Hcan Es Ez Ei Er Ht He Hsum Eu Eb.
  assert (id < length (sm_simulators s))%nat as Hlt by (by eapply lookup_lt_Some).
  split; rewrite ?Es, ?Ez, ?Ei, ?Er, ?Eu, ?Eb, ?length_insert; try done.
  - apply Forall_insert; [done|]. eapply entry_send_ok; [|done].
    by eapply Forall_lookup_1 in Hsims.
  - apply Forall_app. split; [done|]. eapply Forall_impl; [exact Ht|]. by intros t ->.
  - apply Forall_app. split; [done|]. eapply Forall_impl; [exact He|]. by intros e ->.
  - intros id' sim' Hid'. rewrite (running_app id' s s' ts evs Ei Er).
    specialize (Hsum id'). apply list_lookup_insert_Some in Hid' as [(<- & <- & _)|[Hne Hid']].
    + rewrite decide_True in Hsum by done. cbn. rewrite (Hpend id sim Hid). lia.
    + rewrite decide_False in Hsum by done. rewrite (Hpend id' sim' Hid'). lia.
Qed.

Lemma owed_seen_empty r hash (m : gmap B256 SimSeenBlock) :
  map_sum (waiting_owed r) (match m !! hash with Some _ => m | None => <[hash := InFlight []]> m end)
  = map_sum (waiting_owed r) m.
Proof.
  destruct (m !! hash) eqn:E; [done|]. rewrite map_sum_insert_new by done. cbn. lia.
Qed.

Definition ready (id : nat) (s : Simulators) : Prop :=
  ∃ now sim, sm_simulators s !! id = Some sim ∧ can_simulate_at now sim = true.

Lemma with_sim_wp id f sim Q s :
  sm_simulators s !! id = Some sim →
  Q tt (s <| sm_simulators ::= <[id := f sim]> |>) [] → wp (with_sim id f) Q s.
Proof. intros Hid HQ. unfold with_sim. wp_step. wp_step. cbn. rewrite Hid. by wp_step. Qed.

Lemma spawn_sim_wp id req s :
  pool_ok s → ready id s →
  wp (spawn_sim id req) (λ _ s' _, pool_step (λ r, req_owed r req) s s') s.
Proof.
  intros Hok (now & sim & Hid & Hcan). unfold spawn_sim. wp_step. wp_step. wp_step. wp_step. cbn.
  set (s1 := s <| sm_seen_blocks ::= _ |>).
  assert (pool_ok s1) as Hok1.
  { destruct Hok. split; try done. subst s1. cbn. case_match; [done|]. by apply map_Forall_insert_2. }
  change (sm_simulators s !! id) with (sm_simulators s1 !! id) in *.
  rewrite Hid. cbn. wp_step. destruct (supports _ _).
  - wp_step. apply (with_sim_wp _ _ sim); [done|]. unfold note_in_flight, bump. wp_steps.
    split_and!.
    + eapply (pool_ok_send s1 _ id sim now [SimTaskRun id _ req] []); [done..|exact Hcan|
        done|done|done|cbn; by rewrite app_nil_r|by repeat constructor|constructor| |done|done].
      intros id'. cbn. unfold task_on. cbn. case_decide; case_bool_decide; lia.
    + intros r. unfold owed. cbn. rewrite owed_seen_empty, fmap_app, sumZ_app. cbn. lia.
    + split; [done|]. by eapply (clients_update s1 _ id sim).
  - wp_step. apply (with_sim_wp _ _ sim); [done|]. wp_steps. split_and!.
    + eapply (pool_ok_send s1 _ id sim now [] [unsupported_answer id req _]); [done..|exact Hcan|
        done|done|cbn; by rewrite app_nil_r|done|constructor|by repeat constructor| |done|done].
      intros id'. cbn. case_decide; case_bool_decide; lia.
    + intros r. unfold owed. cbn. rewrite owed_seen_empty, fmap_app, sumZ_app. cbn.
      unfold req_owed, optimistic_version. destruct (vr_is_optimistic req); cbn; lia.
    + split; [done|]. by eapply (clients_update s1 _ id sim).
Qed.

Lemma pool_ok_same s s' :
  pool_ok s → sm_simulators s' = sm_simulators s →
  sm_ssz_sim_indices s' = sm_ssz_sim_indices s → sm_in_flight s' = sm_in_flight s →
  sm_rx s' = sm_rx s → sm_superseded s' = sm_superseded s →
  sm_seen_blocks s' = sm_seen_blocks s → pool_ok s'.
Proof.
  intros [H1 H2 H3 H4 H5 H6 H7] E1 E2 E3 E4 E5 E6.
  split; unfold running; rewrite ?E1, ?E2, ?E3, ?E4, ?E5, ?E6; done.
Qed.

Lemma spawn_merge_sim_wp id req response s :
  pool_ok s → ready id s →
  wp (spawn_merge_sim id req response) (λ _ s' _, pool_step (λ _, 0) s s') s.
Proof.
  intros Hok (now & sim & Hid & Hcan). unfold spawn_merge_sim. wp_step. wp_step. cbn. wp_step.
  apply (with_sim_wp _ _ sim); [done|]. unfold note_in_flight, bump. wp_steps. split_and!.
  - eapply (pool_ok_send s _ id sim now [MergeTaskRun id _ req response] []); [done..|exact Hcan|
      done|done|done|cbn; by rewrite app_nil_r|by repeat constructor|constructor| |done|done].
    intros id'. cbn. unfold task_on. cbn. case_decide; case_bool_decide; lia.
  - intros r. unfold owed. cbn. rewrite fmap_app, sumZ_app. cbn. lia.
  - split; [done|]. by eapply (clients_update s _ id sim).
Qed.

Lemma enqueue_wp req fast_track s :
  pool_ok s → wp (enqueue req fast_track) (λ _ s' _, pool_step (λ r, req_owed r req) s s') s.
Proof.
  intros Hok. unfold enqueue, bump, answer_dropped. wp_step. wp_step. cbn.
  set (queue := (if fast_track then _ else _) s).
  destruct (store req _ _ queue) as [queue' drop] eqn:Est.
  pose proof (λ r, store_owed r _ _ _ _ _ _ Est) as Hst.
  set (set_queue := λ s, if fast_track then s <| sm_priority_requests := queue' |>
                         else s <| sm_requests := queue' |>).
  assert (∀ r s', owed r s' - queue_owed r (sm_requests s') - queue_owed r (sm_priority_requests s') =
    owed r s - queue_owed r (sm_requests s) - queue_owed r (sm_priority_requests s) +
      from_option (req_owed r) 0 drop →
    sm_requests s' = sm_requests (set_queue s) →
    sm_priority_requests s' = sm_priority_requests (set_queue s) →
    owed r s' = owed r s + req_owed r req) as Hsum.
  { intros r s' Ho E1 E2. specialize (Hst r). rewrite E1, E2 in Ho. subst queue set_queue.
    destruct fast_track; cbn in *; lia. }
  wp_step. wp_step. fold set_queue.
  assert (pool_ok (set_queue s)) as Hok1.
  { subst set_queue. cbn. destruct fast_track; by apply (pool_ok_same s). }
  assert (pool_frame s (set_queue s)) as Hslot.
  { subst set_queue. cbn. by destruct fast_track. }
  assert (sm_superseded (set_queue s) = sm_superseded s) as Hsup.
  { subst set_queue. cbn. by destruct fast_track. }
  assert (∀ r, owed r (set_queue s) - queue_owed r (sm_requests (set_queue s))
      - queue_owed r (sm_priority_requests (set_queue s)) =
    owed r s - queue_owed r (sm_requests s) - queue_owed r (sm_priority_requests s)) as Howed.
  { intros r. unfold owed. subst set_queue. cbn. destruct fast_track; cbn; lia. }
  destruct drop as [q|]; cbn in Hsum.
  - wp_step. wp_step. cbn. wp_step. wp_step. cbn.
    destruct (vr_is_optimistic q) eqn:Eopt; cbn; [destruct (_ <? SUPERSEDED_CAPACITY) eqn:Eroom|].
    + wp_steps. split_and!.
      * destruct Hok1 as [H1 H2 H3 H4 H5 [H6 H6'] H7]. split; try done. cbn.
        apply Z.ltb_lt in Eroom. split; [apply Forall_app; split; [done|by repeat constructor]|].
        rewrite len_app. unfold len at 2. cbn. lia.
      * intros r. apply Hsum; [|done..]. specialize (Howed r). unfold req_owed. rewrite Eopt.
        unfold owed in *. cbn in *. lia.
      * done.
    + wp_steps. split_and!; [by apply (pool_ok_same (set_queue s))| |done].
      intros r. apply Hsum; [|done..]. specialize (Howed r). unfold owed in *. cbn in *.
      rewrite fmap_app, sumZ_app, sum_dropped1. lia.
    + wp_steps. split_and!; [by apply (pool_ok_same (set_queue s))| |done].
      intros r. apply Hsum; [|done..]. specialize (Howed r). unfold owed in *. cbn in *.
      rewrite fmap_app, sumZ_app, sum_dropped1. lia.
  - wp_steps. split_and!; [by apply (pool_ok_same (set_queue s))| |done].
    intros r. apply Hsum; [|done..]. specialize (Howed r). unfold owed in *. cbn in *. lia.
Qed.

Lemma sample_request_wp req s :
  pool_ok s →
  wp (sample_request req) (λ req' s' _, pool_step (λ _, 0) s s' ∧
    (∀ r, req_owed r req' = req_owed r req)) s.
Proof.
  intros Hok. unfold sample_request, take_sample, bump.
  wp_steps; (split; [split_and!; [by apply (pool_ok_same s)| |done]|done]);
    intros r; unfold owed; cbn; lia.
Qed.

Lemma send_or_queue_wp now req fast_track s :
  pool_ok s →
  wp (send_or_queue now req fast_track) (λ _ s' _, pool_step (λ r, req_owed r req) s s') s.
Proof.
  intros Hok. unfold send_or_queue, bump. wp_step. wp_step. cbn.
  destruct (select_simulator now s) as [id|] eqn:Esel; (wp_step; wp_step; cbn).
  - apply select_simulator_some in Esel as (sim & ? & ?).
    eapply wp_mono; [apply spawn_sim_wp; [by apply (pool_ok_same s)|by exists now, sim]|].
    intros ? s' ? Hstep. exact Hstep.
  - wp_step. eapply wp_mono; [apply enqueue_wp; by apply (pool_ok_same s)|].
    intros ? s' ? Hstep. wp_step. exact Hstep.
Qed.

Lemma dispatch_wp now req fast_track s :
  pool_ok s →
  wp (dispatch now req fast_track) (λ _ s' _, pool_step (λ r, req_owed r req) s s') s.
Proof.
  intros Hok. unfold dispatch, bump, answer_cached. wp_step. wp_step. cbn. wp_step. wp_step. cbn.
  destruct (sm_seen_blocks s !! vr_block_hash req) as [[waiting|result]|] eqn:Eseen.
  - wp_step. wp_step. cbn. wp_step. destruct (vr_is_optimistic req) eqn:Eopt; wp_steps.
    + split_and!; [by apply (pool_ok_same s)| |done].
      intros r. unfold req_owed, owed. rewrite Eopt. cbn. lia.
    + split_and!; [|  |done].
      * destruct Hok as [H1 H2 H3 H4 H5 H6 H7]. split; try done. cbn.
        apply map_Forall_insert_2; [|done]. cbn. apply Forall_app.
        split; [apply (H7 _ _ Eseen)|by repeat constructor].
      * intros r. unfold owed. cbn. rewrite map_sum_insert, Eseen. unfold waiting_owed. cbn.
        rewrite fmap_app, sumZ_app. cbn. lia.
  - wp_steps. split_and!; [by apply (pool_ok_same s)| |done].
    intros r. unfold owed. cbn. rewrite fmap_app, sumZ_app, sum_cached1. lia.
  - wp_step. eapply wp_mono; [apply sample_request_wp; by apply (pool_ok_same s)|].
    intros req' s1 _ [Hs1 Hreq]. eapply wp_mono; [apply send_or_queue_wp, Hs1|].
    intros ? s2 ? Hs2. eapply pool_step_ext; [exact (pool_step_trans _ _ s _ _ Hs1 Hs2)|].
    intros r. cbn. by rewrite Hreq.
Qed.

Lemma dispatch_merged_wp now req response s :
  pool_ok s → wp (dispatch_merged now req response) (λ _ s' _, pool_step (λ _, 0) s s') s.
Proof.
  intros Hok. unfold dispatch_merged, bump. wp_step. wp_step. cbn. wp_step. wp_step. cbn.
  destruct (next_client now _) as [id|] eqn:Esel; (wp_step; wp_step; cbn).
  - apply next_client_some in Esel as (sim & ? & ?).
    eapply wp_mono; [apply spawn_merge_sim_wp; [by apply (pool_ok_same s)|by exists now, sim]|].
    intros ? s' ? Hstep. exact Hstep.
  - wp_steps. split_and!; [by apply (pool_ok_same s)| |done].
    intros r. unfold owed. cbn. lia.
Qed.

Lemma pop_unseen_spec (P : ValidationRequest → Prop) seen l found rest :
  pop_unseen seen l = (found, rest) → Forall P l →
  Forall P rest ∧ (length rest ≤ length l)%nat ∧
  (∀ q, found = Some q → P q ∧ seen !! vr_block_hash q = None).
Proof.
  revert found rest. induction l as [|q l IH]; intros found rest; cbn.
  { intros [= <- <-] _. split_and!; [done|done|done]. }
  destruct (seen !! vr_block_hash q) eqn:E.
  - intros H [_ Hl]%Forall_cons. destruct (IH _ _ H Hl) as (? & ? & ?). split_and!; [done|lia|done].
  - intros [= <- <-] [Hq Hl]%Forall_cons. split_and!; [done|lia|]. by intros q' [= <-].
Qed.

Lemma publish_wp e (Q : unit → Simulators → list SimStarted → Prop) s :
  (∀ o, Q tt s o) → wp (publish e) Q s.
Proof. intros H. destruct e; apply H. Qed.

(** A request that leaves a queue is sent. *)
Lemma send_queued_wp id req (s s1 : Simulators) :
  pool_ok s1 → ready id s1 → (∀ r, owed r s1 = owed r s - req_owed r req) →
  pool_frame s s1 →
  wp (started ← spawn_sim id req; publish started) (λ _ s' _, pool_step (λ _, 0) s s') s1.
Proof.
  intros Hok Hr Ho Hs. wp_step. eapply wp_mono; [by apply spawn_sim_wp|].
  intros e s' o (H1 & H2 & H3). apply publish_wp. intros o'.
  split_and!; [done| |by eapply pool_frame_trans]. intros r. rewrite H2, Ho. lia.
Qed.

Lemma send_next_wp id s :
  pool_ok s → ready id s → wp (send_next id) (λ _ s' _, pool_step (λ _, 0) s s') s.
Proof.
  intros Hok Hready. unfold send_next, bump. wp_step. wp_step. cbn.
  destruct (next_req (sm_priority_requests s)) as [[q rest]|] eqn:Ep.
  { wp_step. wp_step. cbn. wp_step. wp_step. cbn.
    eapply send_queued_wp; [by apply (pool_ok_same s)|done| |done].
    intros r. unfold owed. cbn. rewrite (next_req_owed r _ _ _ Ep). lia. }
  destruct (next_req (sm_requests s)) as [[q rest]|] eqn:Eq.
  { wp_step. wp_step. cbn. wp_step. wp_step. cbn.
    eapply send_queued_wp; [by apply (pool_ok_same s)|done| |done].
    intros r. unfold owed. cbn. rewrite (next_req_owed r _ _ _ Eq). lia. }
  destruct (merge_next_req (sm_merge_requests s)) as [[[q response] rest]|].
  { wp_step. wp_step. cbn. wp_step.
    eapply wp_mono; [apply spawn_merge_sim_wp; [by apply (pool_ok_same s)|done]|].
    intros e s' o Hstep. apply publish_wp. intros o'. exact Hstep. }
  destruct (pop_unseen (sm_seen_blocks s) (reverse (sm_superseded s))) as [found rest] eqn:Eu.
  pose proof (pool_superseded s Hok) as [Hopt Hcap].
  apply (pop_unseen_spec (λ q, vr_is_optimistic q = true)) in Eu as (Hrest & Hlen & Hfound);
    [|by apply Forall_reverse].
  set (s1 := s <| sm_superseded := reverse rest |>).
  assert (pool_ok s1) as Hok1.
  { destruct Hok. split; try done. subst s1. cbn. split; [by apply Forall_reverse|].
    rewrite length_reverse in Hlen. unfold len in *. rewrite length_reverse. lia. }
  assert (∀ r, owed r s1 = owed r s) as Ho1 by done.
  wp_step. wp_step. fold s1. destruct found as [q|].
  - destruct (Hfound q eq_refl) as [Hq _]. wp_step. wp_step. cbn.
    eapply send_queued_wp; [by apply (pool_ok_same s1)|done| |done].
    intros r. unfold req_owed. rewrite Hq. unfold owed. cbn. lia.
  - wp_step. split_and!; [done| |done]. intros r. rewrite Ho1. lia.
Qed.

Lemma entry_done_pending now error elapsed sim :
  se_pending (entry_done now error elapsed sim) = sat_sub (se_pending sim) 1.
Proof.
  unfold entry_done, record_failure, record_success.
  destruct error as [err|]; [destruct (is_sim_fault err); [|done]|
    destruct elapsed as [e|]; [destruct (e <=? LATENCY_TARGET)|]]; try done; cbn.
  - etrans; [apply decrease_frame|done].
  - etrans; [apply decrease_frame|done].
Qed.

(** [s1] is the pool after the report was taken off the channel of [s]. *)
Lemma on_task_response_wp now id error result elapsed rest s :
  pool_ok s → sm_rx s = TaskDone id error result elapsed :: rest →
  wp (on_task_response now id error elapsed) (λ _ s' _, pool_step (λ r, - result_owed r result) s s')
    (s <| sm_rx := rest |>).
Proof.
  intros [Hsims Hssz Htasks Hevents Hpend Hsup Hwait] Erx.
  rewrite Erx in Hevents. apply Forall_cons in Hevents as [Hid Hevents]. cbn in Hid.
  destruct (lookup_lt_is_Some_2 _ _ Hid) as [sim Hsim].
  unfold on_task_response, refresh_accept_optimistic. wp_step.
  apply (with_sim_wp _ _ sim); [done|].
  set (s2 := s <| sm_rx := rest |> <| sm_simulators ::= _ |>).
  assert (pool_ok s2) as Hok2.
  { subst s2. split; cbn; rewrite ?length_insert; try done.
    - apply Forall_insert; [done|]. apply entry_done_ok. by eapply Forall_lookup_1 in Hsims.
    - assert (∀ id', running id' s = (if decide (id = id') then 1 else 0) +
        running id' (s <| sm_rx := rest |>)) as Hrun.
      { intros id'. unfold running. rewrite Erx. cbn. case_bool_decide; case_decide; lia. }
      intros id' sim' Hid'. change (running id' _) with (running id' (s <| sm_rx := rest |>)).
      specialize (Hrun id').
      apply list_lookup_insert_Some in Hid' as [(<- & <- & _)|[Hne Hid']].
      + rewrite decide_True in Hrun by done. rewrite entry_done_pending, (Hpend id sim Hsim).
        assert (0 ≤ running id (s <| sm_rx := rest |>)) as Hnn.
        { unfold running. cbn.
          assert (∀ l, 0 ≤ sumZ (task_on id <$> l)) as H1.
          { intros l. induction l as [|t l IH]; cbn; [lia|]. unfold task_on at 1.
            case_bool_decide; lia. }
          assert (∀ l, 0 ≤ sumZ (event_on id <$> l)) as H2.
          { intros l. induction l as [|[] l IH]; cbn; [lia| |lia]. case_bool_decide; lia. }
          specialize (H1 (sm_in_flight s)). specialize (H2 rest). lia. }
        unfold sat_sub. lia.
      + rewrite decide_False in Hrun by done. rewrite (Hpend id' sim' Hid'). lia. }
  assert (∀ r, owed r s2 = owed r s - result_owed r result) as Ho2.
  { intros r. unfold owed. subst s2. cbn. rewrite Erx. cbn. lia. }
  assert (pool_frame s s2) as Hf2.
  { split; [done|]. eapply (clients_update s _ id sim); [done..|]. apply entry_done_client. }
  wp_step. wp_step. cbn. set (s3 := s2 <| sm_accept_optimistic := _ |>).
  assert (pool_ok s3) as Hok3 by (by apply (pool_ok_same s2)).
  wp_step. wp_step. destruct (next_client now s3) as [id'|] eqn:En.
  - apply next_client_some in En as (sim' & ? & ?).
    eapply wp_mono; [apply send_next_wp; [done|by exists now, sim']|].
    intros _ s' _ (H1 & H2 & H3). split_and!; [done| |exact (pool_frame_trans _ _ _ Hf2 H3)].
    intros r. rewrite H2. change (owed r s3) with (owed r s2). rewrite Ho2. lia.
  - wp_step. split_and!; [done| |exact Hf2]. intros r.
    change (owed r s3) with (owed r s2). rewrite Ho2. lia.
Qed.

Lemma on_block_simulated_wp hash result s :
  pool_ok s → wp (on_block_simulated hash result) (λ _ s' _, pool_step (λ _, 0) s s') s.
Proof.
  intros Hok. unfold on_block_simulated. wp_step. wp_step. cbn.
  set (keep := match result with Err err => negb (is_demotable err) | Ok _ => false end).
  set (m' := if keep then delete hash (sm_seen_blocks s)
             else <[hash := Done (outcome result)]> (sm_seen_blocks s)).
  assert (wp (if keep then modify (λ s, s <| sm_seen_blocks ::= delete hash |>)
      else modify (λ s, s <| sm_seen_blocks ::= <[hash := Done (outcome result)]> |>))
    (λ _ s1 o, s1 = s <| sm_seen_blocks := m' |> ∧ o = @nil SimStarted) s) as Hmod.
  { subst m'. destruct keep; by wp_step. }
  set (s1 := s <| sm_seen_blocks := m' |>) in *.
  assert (pool_ok s1) as Hok1.
  { destruct Hok. split; try done. subst s1 m'. cbn. destruct keep.
    - by apply map_Forall_delete.
    - by apply map_Forall_insert_2. }
  assert (∀ r, map_sum (waiting_owed r) (sm_seen_blocks s) =
    from_option (waiting_owed r) 0 (sm_seen_blocks s !! hash) + map_sum (waiting_owed r) m') as Hm.
  { intros r. subst m'. destruct keep.
    - destruct (sm_seen_blocks s !! hash) as [b|] eqn:E; cbn.
      + by rewrite (map_sum_delete _ _ _ _ E).
      + by rewrite delete_id.
    - rewrite map_sum_insert. change (waiting_owed r (Done _)) with 0. lia. }
  wp_step. eapply wp_mono; [exact Hmod|]. cbn. intros _ s' o [-> ->].
  destruct (sm_seen_blocks s !! hash) as [[waiting|done_]|] eqn:E; cbn in Hm.
  - wp_step. split_and!; [by apply (pool_ok_same s1)| |done].
    intros r. unfold owed. cbn. rewrite fmap_app, sumZ_app, sum_cached, (Hm r).
    unfold waiting_owed. cbn. lia.
  - wp_step. split_and!; [done| |done]. intros r. specialize (Hm r).
    change (waiting_owed r (Done done_)) with 0 in Hm. unfold owed. cbn. lia.
  - wp_step. split_and!; [done| |done]. intros r. unfold owed. cbn. rewrite (Hm r). lia.
Qed.

Lemma handle_sync_status_wp now id reported rest s :
  pool_ok s → sm_rx s = SyncStatus id reported :: rest →
  wp (handle_sync_status now id reported) (λ _ s' _, pool_step (λ _, 0) s s' ∧ sm_rx s' = rest)
    (s <| sm_rx := rest |>).
Proof.
  intros [Hsims Hssz Htasks Hevents Hpend Hsup Hwait] Erx.
  rewrite Erx in Hevents. apply Forall_cons in Hevents as [Hid Hevents]. cbn in Hid.
  destruct (lookup_lt_is_Some_2 _ _ Hid) as [sim Hsim].
  unfold handle_sync_status, refresh_accept_optimistic. wp_step.
  apply (with_sim_wp _ _ sim); [done|]. wp_step. split; [|done]. split_and!.
  - split; cbn; rewrite ?length_insert; try done.
    + apply Forall_insert; [done|]. apply record_sync_ok. by eapply Forall_lookup_1 in Hsims.
    + intros id' sim' Hid'.
      assert (running id' s = running id' (s <| sm_rx := rest |>)) as Hrun.
      { unfold running. rewrite Erx. cbn. lia. }
      change (running id' _) with (running id' (s <| sm_rx := rest |>)). rewrite <- Hrun.
      apply list_lookup_insert_Some in Hid' as [(<- & <- & _)|[Hne Hid']]; [|by apply Hpend].
      rewrite <- (Hpend id sim Hsim). unfold record_sync. by repeat case_match.
  - intros r. unfold owed. cbn. rewrite Erx. cbn. lia.
  - split; [done|]. eapply (clients_update s _ id sim); [done..|].
    unfold record_sync. by repeat case_match.
Qed.

(** Taking a result off the pool: what was owed is what is still owed plus the
    result returned. *)
Definition takes (d : option SimDone) (s s' : Simulators) : Prop :=
  pool_step (λ r, - from_option (done_owed r) 0 d) s s'.

Lemma next_done_loop_wp now i fuel s :
  pool_ok s → (length (sm_rx s) < fuel)%nat →
  wp (next_done_loop now i fuel) (λ d s' _, takes d s s' ∧ (d = None → sm_rx s' = [] ∧ sm_answered s' = [])) s.
Proof.
  revert i s. induction fuel as [|fuel IH]; intros i s Hok Hlen; [lia|]. cbn [next_done_loop].
  wp_step. wp_step. cbn. destruct (sm_rx s) as [|[id error result elapsed|id reported] rest] eqn:Erx.
  - wp_step. wp_step. cbn. destruct (last (sm_answered s)) as [d|] eqn:El.
    + wp_steps. split; [|done]. split_and!; [by apply (pool_ok_same s)| |done].
      intros r. apply last_Some in El as [l El]. unfold owed. cbn. rewrite El.
      rewrite length_app, Nat.add_comm. cbn. rewrite take_app_length, fmap_app, sumZ_app. cbn. lia.
    + wp_step. apply last_None in El. split; [|done].
      split_and!; [done| |done]. intros r. cbn. lia.
  - wp_step. wp_step. cbn. wp_step.
    eapply wp_mono; [by eapply on_task_response_wp|]. intros ? s1 ? Hs1. wp_step.
    assert (wp (match result with
      | Validate _ (Some inner) => on_block_simulated (si_block_hash inner) (si_result inner)
      | _ => mret tt end) (λ _ s' _, pool_step (λ _, 0) s1 s') s1) as Hb.
    { destruct Hs1 as [Hok1 _]. repeat case_match; try (by wp_step; apply pool_step_refl).
      by apply on_block_simulated_wp. }
    eapply wp_mono; [exact Hb|]. intros ? s2 ? Hs2. wp_step. split; [|done].
    eapply pool_step_ext; [exact (pool_step_trans _ _ _ _ _ Hs1 Hs2)|]. intros r. cbn.
    unfold done_owed. cbn. lia.
  - wp_step. wp_step. cbn. wp_step.
    eapply wp_mono; [by eapply handle_sync_status_wp|]. intros ? s1 ? [Hs1 Erx1].
    eapply wp_mono.
    { apply (IH (S i) s1); [apply Hs1|]. rewrite Erx1. cbn in Hlen. lia. }
    intros d s2 ? [Hs2 Hnone]. split; [|done].
    eapply pool_step_ext; [exact (pool_step_trans _ _ _ _ _ Hs1 Hs2)|]. intros r. cbn. lia.
Qed.

Lemma next_done_wp now s :
  pool_ok s →
  wp (next_done now) (λ d s' _, takes d s s' ∧ (d = None → sm_rx s' = [] ∧ sm_answered s' = [])) s.
Proof.
  intros Hok. unfold next_done. wp_step. wp_step. cbv beta.
  eapply wp_mono; [apply next_done_loop_wp; [done|lia]|]. done.
Qed.

Lemma complete_task_step `{TH : TreeHash} i reply s :
  pool_ok s → pool_step (λ _, 0) s (complete_task i reply s).
Proof.
  intros Hok. unfold complete_task. destruct (sm_in_flight s !! i) as [task|] eqn:E;
    [|by apply pool_step_refl].
  assert (event_id (task_done task reply) = task_id task) as Hid.
  { destruct task as [id ssz req|]; [|done]. cbn. by destruct (sim_response ssz req reply). }
  assert (∀ id, event_on id (task_done task reply) = task_on id task) as Hon.
  { intros id. destruct task as [id' ssz req|]; [|done]. cbn.
    by destruct (sim_response ssz req reply). }
  assert (∀ r, event_owed r (task_done task reply) = task_owed r task) as Howed.
  { intros r. destruct task as [id' ssz req|]; [|done]. cbn.
    destruct (sim_response ssz req reply). cbn. unfold req_owed, optimistic_version.
    by destruct (vr_is_optimistic req). }
  destruct Hok as [H1 H2 H3 H4 H5 H6 H7]. split_and!; [|  |done].
  - split; cbn; try done.
    + by apply Forall_delete.
    + apply Forall_app. split; [done|]. repeat constructor. rewrite Hid.
      by eapply Forall_lookup_1 in H3.
    + intros id sim Hsim. rewrite (H5 id sim Hsim). unfold running. cbn.
      rewrite !list_fmap_delete, fmap_app, sumZ_app. cbn. rewrite Hon.
      rewrite (sumZ_delete _ i (task_on id task)); [lia|]. by rewrite list_lookup_fmap, E.
  - intros r. unfold owed. cbn. rewrite list_fmap_delete, fmap_app, sumZ_app. cbn. rewrite Howed.
    rewrite (sumZ_delete _ i (task_owed r task)); [lia|]. by rewrite list_lookup_fmap, E.
Qed.

Lemma sync_poll_step id reported s :
  pool_ok s → (id < length (sm_simulators s))%nat → pool_step (λ _, 0) s (sync_poll id reported s).
Proof.
  intros [H1 H2 H3 H4 H5 H6 H7] Hid. split_and!; [|  |done].
  - split; cbn; try done.
    + apply Forall_app. split; [done|]. by repeat constructor.
    + intros id' sim Hsim. rewrite (H5 id' sim Hsim). unfold running. cbn.
      rewrite fmap_app, sumZ_app. cbn. lia.
  - intros r. unfold owed. cbn. rewrite fmap_app, sumZ_app. cbn. lia.
Qed.

Lemma retired_owed r reqs :
  sumZ (req_owed r <$> retired reqs) + queue_owed r (omap retire_queued reqs) = queue_owed r reqs.
Proof.
  unfold queue_owed. induction reqs as [|e reqs IH]; [done|].
  assert (retired (e :: reqs) =
    match retire_queued e with Some _ => retired reqs | None => e.1.1 :: retired reqs end) as ->.
  { unfold retired. cbn. by destruct (retire_queued e). }
  cbn [omap list_omap]. destruct (retire_queued e) as [e'|] eqn:E; cbn [fmap list_fmap]; cbn.
  - assert (req_owed r e'.1.1 = req_owed r e.1.1) as ->.
    { unfold retire_queued in E. case_match; [done|]. by injection E as <-. }
    lia.
  - lia.
Qed.

(** What stays in the queue is optimistic. *)
Lemma kept_owed r reqs : queue_owed r (omap retire_queued reqs) = 0.
Proof.
  unfold queue_owed. induction reqs as [|e reqs IH]; [done|].
  cbn [omap list_omap]. destruct (retire_queued e) as [e'|] eqn:E; cbn; [|done].
  unfold retire_queued in E. destruct (negb _ || _) eqn:Ep; [done|]. injection E as <-.
  apply orb_false_iff in Ep as [Hopt%negb_false_iff _].
  unfold req_owed at 1. cbn. rewrite Hopt. lia.
Qed.

Lemma retire_superseded_ok l :
  Forall (λ q, vr_is_optimistic q = true) l →
  Forall (λ q, vr_is_optimistic q = true) (omap retire_superseded l) ∧
  len (omap retire_superseded l) ≤ len l.
Proof.
  unfold len. induction 1 as [|q l Hq Hl [IH1 IH2]]; [split; [constructor|done]|].
  cbn [omap list_omap]. destruct (retire_superseded q) as [q'|] eqn:E; cbn [length].
  - split; [|lia]. constructor; [|done]. unfold retire_superseded in E.
    case_match; [done|]. by injection E as <-.
  - split; [done|]. lia.
Qed.

Lemma sum_waiting `{HO : HashOrder} r (m : gmap B256 SimSeenBlock) :
  sumZ (done_owed r <$> ((hash_values m ≫= waiting_requests) ≫= dropped)) =
    map_sum (waiting_owed r) m.
Proof.
  rewrite sum_dropped, <- (map_sum_hash (waiting_owed r) m).
  induction (hash_values m) as [|b l IH]; cbn; [done|]. rewrite fmap_app, sumZ_app.
  fold (mbind (M := list) waiting_requests l). by rewrite IH.
Qed.

(** A new slot answers the non-optimistic requests that were queued or
    waiting: none is forgotten. *)
Lemma on_new_slot_wp `{HO : HashOrder} bid_slot s :
  pool_ok s →
  wp (pool_on_new_slot bid_slot) (λ _ s' _,
    pool_ok s' ∧ (∀ r, owed r s' = owed r s) ∧ sm_last_bid_slot s' = bid_slot ∧
    clients s' = clients s) s.
Proof.
  intros Hok. unfold pool_on_new_slot. wp_step. wp_step. cbn.
  assert (∀ s1, sm_simulators s1 = sm_simulators s → sm_ssz_sim_indices s1 = sm_ssz_sim_indices s →
    sm_in_flight s1 = sm_in_flight s → sm_rx s1 = sm_rx s →
    sm_superseded s1 = omap retire_superseded (sm_superseded s) → sm_seen_blocks s1 = ∅ →
    pool_ok s1) as Hok1.
  { intros s1 E1 E2 E3 E4 E5 E6. destruct Hok as [H1 H2 H3 H4 H5 [H6 H6'] H7].
    destruct (retire_superseded_ok _ H6).
    split; unfold running; rewrite ?E1, ?E2, ?E3, ?E4, ?E5, ?E6; try done.
    split; [done|]. lia. }
  wp_steps. split_and!; [|  | |].
  - apply Hok1; cbn; by destruct (0 <? sm_last_bid_slot s).
  - intros r. unfold owed. cbn. rewrite !fmap_app, !sumZ_app, sum_waiting, !sum_dropped,
      map_sum_empty. pose proof (retired_owed r (sm_requests s)).
    destruct (0 <? sm_last_bid_slot s); cbn; unfold queue_owed in *; cbn; lia.
  - by destruct (0 <? sm_last_bid_slot s).
  - unfold clients. cbn. by destruct (0 <? sm_last_bid_slot s).
Qed.

(** ** Histories *)

Inductive PoolOp :=
| OpDispatch (now : Z) (req : ValidationRequest) (fast_track : bool)
| OpDispatchMerged (now : Z) (req : MergedValidationRequest) (response : BlockMergeResponse)
| OpNextDone (now : nat → Z)
| OpNewSlot (slot : u64)
| OpComplete (i : nat) (reply : SimReply)
| OpSyncPoll (id : nat) (reported : option bool).

Section histories.
Context `{HO : HashOrder} `{TH : TreeHash}.

(** The results an operation delivers. *)
Definition run_pool_op (op : PoolOp) : Pool (list SimDone) :=
  match op with
  | OpDispatch now req fast_track => dispatch now req fast_track;; mret []
  | OpDispatchMerged now req response => dispatch_merged now req response;; mret []
  | OpNextDone now => d ← next_done now; mret (option_list d)
  | OpNewSlot slot => pool_on_new_slot slot;; mret []
  | OpComplete i reply => modify (complete_task i reply);; mret []
  | OpSyncPoll id reported => modify (sync_poll id reported);; mret []
  end.

Fixpoint run_pool (ops : list PoolOp) : Pool (list SimDone) :=
  match ops with
  | [] => mret []
  | op :: rest => d ← run_pool_op op; ds ← run_pool rest; mret (d ++ ds)
  end.

(** The sync poller reports on simulators of the pool. *)
Definition pool_op_ok (n : nat) (op : PoolOp) : Prop :=
  match op with OpSyncPoll id _ => (id < n)%nat | _ => True end.

Definition op_owed (r : SubmissionRef) (op : PoolOp) : Z :=
  match op with OpDispatch _ req _ => req_owed r req | _ => 0 end.

Lemma simulators_new_ok configs : pool_ok (simulators_new configs).
Proof.
  split; cbn; try constructor; try done.
  - apply Forall_fmap, Forall_true. intros c. apply entry_new_ok.
  - apply Forall_forall. intros i [[j sim] [-> [_ Hin]%list_elem_of_filter]]%list_elem_of_fmap.
    apply elem_of_enumerate, lookup_lt_Some in Hin. done.
  - intros id sim Hs. rewrite list_lookup_fmap in Hs.
    apply fmap_Some in Hs as (c & _ & ->). done.
Qed.

Lemma simulators_new_owed r configs : owed r (simulators_new configs) = 0.
Proof. unfold owed. cbn. by rewrite map_sum_empty. Qed.

Lemma simulators_new_clients configs : clients (simulators_new configs) = configs.
Proof. unfold clients. cbn. rewrite <- list_fmap_compose. apply list_fmap_id. Qed.

(** What an operation takes in is delivered or still held. *)
Definition accounts (d : SubmissionRef → Z) (ds : list SimDone) (s s' : Simulators) : Prop :=
  pool_ok s' ∧ clients s' = clients s ∧
  ∀ r, owed r s + d r = sumZ (done_owed r <$> ds) + owed r s'.

Lemma accounts_step d ds s s' :
  pool_step (λ r, d r - sumZ (done_owed r <$> ds)) s s' → accounts d ds s s'.
Proof. intros (Hok & Ho & _ & Hc). split_and!; [done..|]. intros r. rewrite Ho. lia. Qed.

Lemma run_pool_op_wp op s :
  pool_ok s → pool_op_ok (length (clients s)) op →
  wp (run_pool_op op) (λ ds s' _, accounts (λ r, op_owed r op) ds s s') s.
Proof.
  intros Hok Hop. destruct op as [now req ft|now req resp|now|slot|i reply|id reported]; cbn.
  - wp_step. eapply wp_mono; [by apply dispatch_wp|]. intros ? s' ? H. wp_step.
    apply accounts_step. eapply pool_step_ext; [exact H|]. intros r. cbn. lia.
  - wp_step. eapply wp_mono; [by apply dispatch_merged_wp|]. intros ? s' ? H. wp_step.
    apply accounts_step. eapply pool_step_ext; [exact H|]. intros r. cbn. lia.
  - wp_step. eapply wp_mono; [by apply next_done_wp|]. intros d s' ? [H _]. wp_step.
    apply accounts_step. eapply pool_step_ext; [exact H|]. intros r. destruct d; cbn; lia.
  - wp_step. eapply wp_mono; [by apply on_new_slot_wp|]. intros ? s' ? (H1 & H2 & _ & H3). wp_step.
    split_and!; [done..|]. intros r. rewrite H2. cbn. lia.
  - wp_step. wp_step. wp_step. apply accounts_step. eapply pool_step_ext.
    + by apply complete_task_step.
    + intros r. cbn. lia.
  - wp_step. wp_step. wp_step. apply accounts_step. eapply pool_step_ext.
    + apply sync_poll_step; [done|]. cbn in Hop. unfold clients in Hop. by rewrite length_fmap in Hop.
    + intros r. cbn. lia.
Qed.

Lemma run_pool_wp ops s :
  pool_ok s → Forall (pool_op_ok (length (clients s))) ops →
  wp (run_pool ops) (λ ds s' _, accounts (λ r, sumZ (op_owed r <$> ops)) ds s s') s.
Proof.
  revert s. induction ops as [|op ops IH]; intros s Hok Hops; cbn [run_pool].
  - wp_step. split_and!; [done..|]. intros r. cbn. lia.
  - apply Forall_cons in Hops as [Hop Hops]. wp_step.
    eapply wp_mono; [by apply run_pool_op_wp|]. intros d s1 ? (Hok1 & Hc1 & Ho1). wp_step.
    rewrite <- Hc1 in Hops. eapply wp_mono; [by apply IH|]. intros ds s2 ? (Hok2 & Hc2 & Ho2).
    wp_step. split_and!; [done|congruence|]. intros r. rewrite fmap_app, sumZ_app.
    specialize (Ho1 r). specialize (Ho2 r). cbn. lia.
Qed.
End histories.

(** *** Telemetry *)

(** The requests the slot's counters do not explain. *)
Definition unaccounted (s : Simulators) : Z :=
  let t := sm_local_telemetry s in
  lt_sims_reqs t - lt_sims_sent_immediately t - lt_queued t - lt_duplicate_skipped t.

Ltac shift_step :=
  lazymatch goal with
  | |- shifts _ 0 (mret _) => apply shifts_ret
  | |- shifts _ 0 get => apply shifts_get
  | |- shifts _ 0 (gets _) => apply shifts_gets
  | |- shifts _ 0 (emit _) => apply shifts_emit
  | |- shifts _ _ panic => apply shifts_panic
  | |- shifts _ _ (modify _) =>
      apply shifts_modify; intros ?; unfold unaccounted; cbn;
      first [lia | repeat case_match; cbn; lia]
  | |- shifts _ _ (bump _) => apply shifts_modify; intros ?; unfold unaccounted; cbn; lia
  | |- shifts _ _ (match ?x with _ => _ end) => destruct x
  | |- shifts _ _ (if ?x then _ else _) => destruct x
  | |- shifts _ 0 (mbind _ _) => apply shifts_bind_0; [|intros ?]
  end.
Ltac shift_steps := repeat (shift_step; cbn beta iota).

Lemma with_sim_counts id f : shifts unaccounted 0 (with_sim id f).
Proof. unfold with_sim. shift_steps. Qed.

Lemma spawn_sim_counts id req : shifts unaccounted 0 (spawn_sim id req).
Proof. unfold spawn_sim, note_in_flight. shift_steps; apply with_sim_counts. Qed.

Lemma spawn_merge_sim_counts id req response : shifts unaccounted 0 (spawn_merge_sim id req response).
Proof. unfold spawn_merge_sim, note_in_flight. shift_steps. apply with_sim_counts. Qed.

Lemma enqueue_counts req fast_track : shifts unaccounted 0 (enqueue req fast_track).
Proof. unfold enqueue, answer_dropped. shift_steps. Qed.

Lemma sample_request_counts req : shifts unaccounted 0 (sample_request req).
Proof. unfold sample_request, take_sample. shift_steps. Qed.

Lemma send_next_counts id : shifts unaccounted 0 (send_next id).
Proof.
  unfold send_next, publish. shift_steps; auto using spawn_sim_counts, spawn_merge_sim_counts.
Qed.

Lemma next_done_loop_counts now i fuel : shifts unaccounted 0 (next_done_loop now i fuel).
Proof.
  revert i. induction fuel as [|fuel IH]; intros i; cbn [next_done_loop]; [shift_steps|].
  unfold on_task_response, handle_sync_status, refresh_accept_optimistic, on_block_simulated.
  shift_steps; auto using with_sim_counts, send_next_counts.
Qed.

Lemma dispatch_counts now req fast_track : shifts unaccounted 0 (dispatch now req fast_track).
Proof.
  unfold dispatch. apply (shifts_bind _ 1 (-1)); [shift_step|]. intros _.
  apply shifts_bind_0; [shift_step|]. intros [[waiting|result]|].
  - apply (shifts_bind _ (-1) 0); [shift_step|]. intros _. shift_steps.
  - apply (shifts_bind _ (-1) 0); [shift_step|]. intros _. unfold answer_cached. shift_steps.
  - apply shifts_bind_0; [apply sample_request_counts|]. intros req'. unfold send_or_queue.
    apply shifts_bind_0; [shift_step|]. intros [id|];
      (apply (shifts_bind _ (-1) 0); [shift_step|]); intros _.
    + apply spawn_sim_counts.
    + shift_steps. apply enqueue_counts.
Qed.

Lemma dispatch_merged_counts now req response :
  shifts unaccounted 0 (dispatch_merged now req response).
Proof.
  unfold dispatch_merged. apply (shifts_bind _ 1 (-1)); [shift_step|]. intros _.
  apply shifts_bind_0; [shift_step|].
  intros [id|]; (apply (shifts_bind _ (-1) 0); [shift_step|]); intros _.
  - apply spawn_merge_sim_counts.
  - shift_steps.
Qed.

Lemma run_pool_op_counts `{HO : HashOrder} `{TH : TreeHash} op s ds s' o :
  run_pool_op op s = Some (ds, s', o) → unaccounted s = 0 → unaccounted s' = 0.
Proof.
  intros E H0.
  assert ((∃ slot, op = OpNewSlot slot) ∨ shifts unaccounted 0 (run_pool_op op)) as [[slot ->]|Hs].
  { destruct op as [now req ft|now req resp|now|slot|i reply|id reported]; cbn;
      [| | |by left; exists slot| |]; right; shift_steps;
      auto using dispatch_counts, dispatch_merged_counts.
    - unfold next_done. shift_steps. apply next_done_loop_counts.
    - apply shifts_modify. intros s0. unfold complete_task. case_match; unfold unaccounted; cbn; lia. }
  - revert E. cbn. unfold pool_on_new_slot, mbind, comp_bind, get, modify, gets, mret, comp_ret.
    destruct (0 <? sm_last_bid_slot s); intros [= <- <- <-]; [done|exact H0].
  - rewrite (Hs _ _ _ _ E). lia.
Qed.

Lemma run_pool_counts `{HO : HashOrder} `{TH : TreeHash} ops s ds s' o :
  run_pool ops s = Some (ds, s', o) → unaccounted s = 0 → unaccounted s' = 0.
Proof.
  revert s ds o. induction ops as [|op ops IH]; intros s ds o; cbn [run_pool].
  - intros [= <- <- <-]. done.
  - unfold mbind, comp_bind. destruct (run_pool_op op s) as [[[d s1] o1]|] eqn:E1; [|done].
    destruct (run_pool ops s1) as [[[ds1 s2] o2]|] eqn:E2; [|done].
    intros [= <- <- <-] H0. eauto using run_pool_op_counts.
Qed.

(** *** Queues *)

#[export] Instance sort_key_total {A} (f : A → ValidationRequest) :
  TotalCmp (λ x y, sort_key_cmp (f x) (f y)).
Proof.
  unfold sort_key_cmp.
  apply (cmp_then_total (λ x y, Z.compare (priority_rank (vr_priority (f x))) _));
    [apply (Zcompare_total (λ x, priority_rank (vr_priority (f x))))|].
  apply (cmp_then_total (λ x y, Z.compare (if vr_is_top_bid (f x) then 1 else 0) _));
    [apply (Zcompare_total (λ x, if vr_is_top_bid (f x) then 1 else 0))|].
  apply (Zcompare_total (λ x, u64_max - vr_receive_ns (f x))).
Qed.

Definition queue_keys (reqs : PendingRequests) : list QueueKey := reqs.*1.*2.

(** The three ways [store] ends. *)
Lemma store_cases req key version reqs reqs' drop :
  NoDup (queue_keys reqs) → store req key version reqs = (reqs', drop) →
  (∃ i q v, reqs !! i = Some (q, key, v) ∧
     (∀ q0 v0, (q0, key, v0) ∈ reqs → q0 = q ∧ v0 = v) ∧
     ((version_lt v version = true ∧ reqs' = <[i := (req, key, version)]> reqs ∧ drop = Some q) ∨
      (version_lt v version = false ∧ reqs' = reqs ∧ drop = Some req))) ∨
  ((∀ q0 v0, (q0, key, v0) ∉ reqs) ∧ reqs' = reqs ++ [(req, key, version)] ∧ drop = None).
Proof.
  intros Hnd. unfold store. destruct (find _ _) as [[i [[queued k] v]]|] eqn:Ef.
  - apply find_enumerate in Ef as [Hi Hk%bool_decide_eq_true]. cbn in Hk. subst k.
    intros E. left. exists i, queued, v. split_and!; [done| |].
    + intros q0 v0 (j & Hj)%list_elem_of_lookup. assert (j = i) as ->; [|naive_solver].
      eapply (NoDup_lookup (queue_keys reqs)); [exact Hnd| |]; unfold queue_keys;
        rewrite !list_lookup_fmap; [by rewrite Hj|by rewrite Hi].
    + destruct (version_lt v version) eqn:Ev; injection E as <- <-; auto.
  - rewrite find_none in Ef. intros [= <- <-]. right. split_and!; [|done..].
    intros q0 v0 (j & Hj)%list_elem_of_lookup. rewrite <- elem_of_enumerate in Hj.
    specialize (Ef _ Hj). by rewrite bool_decide_eq_false in Ef.
Qed.

(** ** Properties *)

(** C10: Over any history of dispatches, finished tasks, sync reports, polls and
    new slots the pool does not panic, and every non-optimistic request it took
    is delivered as a result exactly once or still held: no answer is lost and
    none is given twice. *)
Theorem pool_conserves `{HO : HashOrder} `{TH : TreeHash} configs ops :
  Forall (pool_op_ok (length configs)) ops →
  wp (run_pool ops) (λ ds s _, ∀ r,
    sumZ (op_owed r <$> ops) = sumZ (done_owed r <$> ds) + owed r s) (simulators_new configs).
Proof.
  intros Hops. eapply wp_mono.
  - apply run_pool_wp; [apply simulators_new_ok|]. by rewrite simulators_new_clients.
  - intros ds s ? (_ & _ & Ho) r. specialize (Ho r). rewrite simulators_new_owed in Ho. lia.
Qed.

(** Over any history, the number of tasks charged to a simulator is the
    number it is really running, and it never exceeds the configured maximum. *)
Theorem pool_capacity `{HO : HashOrder} `{TH : TreeHash} configs ops :
  Forall (pool_op_ok (length configs)) ops →
  wp (run_pool ops) (λ _ s _, ∀ id c, configs !! id = Some c →
    ∃ sim, sm_simulators s !! id = Some sim ∧ se_client sim = c ∧
      se_pending sim = running id s ∧
      0 ≤ running id s ≤ Z.max (max_concurrent_tasks c) 1) (simulators_new configs).
Proof.
  intros Hops. eapply wp_mono.
  - apply run_pool_wp; [apply simulators_new_ok|]. by rewrite simulators_new_clients.
  - intros ds s ? (Hok & Hc & _) id c Hid. rewrite simulators_new_clients in Hc.
    unfold clients in Hc. rewrite <- Hc, list_lookup_fmap in Hid.
    apply fmap_Some in Hid as (sim & Hsim & ->). exists sim.
    pose proof (pool_pending s Hok id sim Hsim) as Hp. split_and!; [done..| |].
    all: pose proof (Forall_lookup_1 _ _ _ _ (pool_sims s Hok) Hsim) as [_ _ _ Hb];
      unfold ceiling, MIN_LIMIT in Hb; lia.
Qed.

(** At a new slot every non-optimistic request that was queued or waited
    for another simulation of its block gets an answer, and what stays queued
    is optimistic, marked as of the slot that ended: a bid is carried over one
    slot at most. *)
Theorem new_slot_answers `{HO : HashOrder} slot s :
  wp (pool_on_new_slot slot) (λ _ s' _,
    sm_seen_blocks s' = ∅ ∧ sm_priority_requests s' = [] ∧
    (∀ q, q ∈ (sm_requests s').*1.*1 → vr_is_optimistic q = true ∧ vr_priority q = PreviousSlot ∧
      ∃ q0, q0 ∈ (sm_requests s).*1.*1 ∧ vr_submission q = vr_submission q0 ∧
        vr_priority q0 ≠ PreviousSlot) ∧
    ∀ r, sumZ (done_owed r <$> sm_answered s') =
      sumZ (done_owed r <$> sm_answered s) + queue_owed r (sm_requests s) +
      queue_owed r (sm_priority_requests s) + map_sum (waiting_owed r) (sm_seen_blocks s)) s.
Proof.
  unfold pool_on_new_slot. wp_steps. split_and!.
  - by destruct (0 <? sm_last_bid_slot s).
  - by destruct (0 <? sm_last_bid_slot s).
  - assert (∀ q, q ∈ (omap retire_queued (sm_requests s)).*1.*1 →
      vr_is_optimistic q = true ∧ vr_priority q = PreviousSlot ∧
      ∃ q0, q0 ∈ (sm_requests s).*1.*1 ∧ vr_submission q = vr_submission q0 ∧
        vr_priority q0 ≠ PreviousSlot) as H; [|by destruct (0 <? sm_last_bid_slot s)].
    intros q (e & -> & (e1 & -> & (e0 & Hin & He)%list_elem_of_omap)%list_elem_of_fmap)%list_elem_of_fmap.
    unfold retire_queued in He. destruct (negb _ || _) eqn:E; [done|]. injection He as <-.
    apply orb_false_iff in E as [Hopt%negb_false_iff Hp%bool_decide_eq_false].
    split_and!; [done..|]. exists e0.1.1. split_and!; [|done..].
    by repeat apply (list_elem_of_fmap_2 _ _ _).
  - intros r. pose proof (retired_owed r (sm_requests s)).
    pose proof (kept_owed r (sm_requests s)). cbn. rewrite !fmap_app, !sumZ_app, sum_waiting, !sum_dropped.
    destruct (0 <? sm_last_bid_slot s); cbn; unfold queue_owed in *; cbn; lia.
Qed.

(** A queue holds one request per fork and builder. Storing a request keeps
    that, forgets nothing (what was queued and the new request are what is
    queued now and the one dropped), leaves the other builders' requests alone,
    and under its own key keeps the fresher of the two. *)
Theorem store_keeps_freshest req key version reqs reqs' drop :
  NoDup (queue_keys reqs) → store req key version reqs = (reqs', drop) →
  NoDup (queue_keys reqs') ∧ req :: reqs.*1.*1 ≡ₚ option_list drop ++ reqs'.*1.*1 ∧
  (∀ e, e.1.2 ≠ key → e ∈ reqs ↔ e ∈ reqs') ∧
  ∃ q v, (q, key, v) ∈ reqs' ∧
    ((∀ q0 v0, (q0, key, v0) ∈ reqs → version_lt v0 version = true) → q = req ∧ v = version) ∧
    (∀ q0 v0, (q0, key, v0) ∈ reqs → version_lt v0 version = false → q = q0 ∧ v = v0).
Proof.
  intros Hnd E. destruct (store_cases _ _ _ _ _ _ Hnd E)
    as [(i & q & v & Hi & Huniq & [(Hv & -> & ->)|(Hv & -> & ->)])|(Hnone & -> & ->)];
    unfold queue_keys in *.
  - rewrite !list_fmap_insert. cbn.
    rewrite list_insert_id by (by rewrite !list_lookup_fmap, Hi). split_and!; [done| | |].
    + apply insert_perm. by rewrite !list_lookup_fmap, Hi.
    + intros e He. eapply elem_of_insert_ne; [exact Hi|..]; intros ->; by apply He.
    + exists req, version. split_and!; [|done|].
      * eapply list_elem_of_lookup_2, list_lookup_insert_eq. by eapply lookup_lt_Some.
      * intros q0 v0 [-> ->]%Huniq. congruence.
  - split_and!; [done..|]. exists q, v. assert ((q, key, v) ∈ reqs) by (by eapply list_elem_of_lookup_2).
    split_and!; [done| |by intros q0 v0 [-> ->]%Huniq].
    intros H'. by rewrite (H' q v) in Hv.
  - rewrite !fmap_app. split_and!.
    + apply NoDup_app. split_and!; [done| |apply NoDup_singleton].
      intros k (e & -> & ([[q0 k0] v0] & -> & Hin)%list_elem_of_fmap)%list_elem_of_fmap.
      cbn. intros ->%list_elem_of_singleton. by apply (Hnone q0 v0).
    + cbn. by rewrite Permutation_cons_append.
    + intros e He. rewrite elem_of_app, list_elem_of_singleton. split; [auto|].
      by intros [?| ->].
    + exists req, version. split_and!; [|done|by intros q0 v0 []%Hnone].
      apply elem_of_app. right. by apply list_elem_of_singleton.
Qed.

(** The next request taken off a queue is one no other is ahead of: by
    priority, then a live top bid, then the earliest received; the others stay
    queued, and a queue yields nothing only when it is empty. *)
Theorem next_req_best reqs :
  match next_req reqs with
  | None => reqs = []
  | Some (q, rest) =>
      reqs.*1.*1 ≡ₚ q :: rest.*1.*1 ∧
      ∀ q', q' ∈ reqs.*1.*1 →
        priority_rank (vr_priority q') ≤ priority_rank (vr_priority q) ∧
        (vr_priority q' = vr_priority q → vr_is_top_bid q' = vr_is_top_bid q →
         vr_receive_ns q ≤ vr_receive_ns q')
  end.
Proof.
  unfold next_req. destruct (max_by _ _) as [[i e]|] eqn:Em; cbn.
  2: { by rewrite max_by_none, enumerate_nil in Em. }
  pose proof (max_by_elem _ _ _ Em) as Hin%elem_of_enumerate.
  destruct (swap_remove_is_some i reqs) as [_ [[x rest] Hx]]; [by eapply lookup_lt_Some|].
  rewrite Hx. cbn. assert (x = e) as ->.
  { revert Hx. unfold swap_remove. rewrite Hin. cbn. by destruct (last reqs); intros [= -> _]. }
  split; [by rewrite (swap_remove_perm _ _ _ _ Hx)|].
  intros q' (e1 & -> & (e2 & -> & (j & Hj)%list_elem_of_lookup)%list_elem_of_fmap)%list_elem_of_fmap.
  apply elem_of_enumerate in Hj.
  pose proof (max_by_ge (λ x y, sort_key_cmp x.2.1.1 y.2.1.1) _ _ (j, e2) Em Hj) as Hle.
  revert Hle. cbn. unfold sort_key_cmp, cmp_then.
  destruct (Z.compare_spec (priority_rank (vr_priority e2.1.1)) (priority_rank (vr_priority e.1.1)))
    as [Ep|Ep|Ep]; intros Hle; [|split; [lia|congruence || (intros Eq; rewrite Eq in Ep; lia)]|done].
  split; [lia|]. intros _ Et. rewrite Et, Z.compare_refl, Z.compare_le_iff in Hle. lia.
Qed.

(** In any slot, a validation request counted by the pool was sent at once,
    queued, or skipped as a resubmission of a block already simulated. *)
Theorem requests_accounted `{HO : HashOrder} `{TH : TreeHash} configs ops :
  Forall (pool_op_ok (length configs)) ops →
  wp (run_pool ops) (λ _ s _,
    let t := sm_local_telemetry s in
    lt_sims_reqs t = lt_sims_sent_immediately t + lt_queued t + lt_duplicate_skipped t)
    (simulators_new configs).
Proof.
  intros Hops. pose proof (run_pool_wp ops (simulators_new configs)) as Hwp.
  rewrite simulators_new_clients in Hwp. specialize (Hwp (simulators_new_ok configs) Hops).
  unfold wp in *. destruct (run_pool ops (simulators_new configs)) as [[[ds s] o]|] eqn:E; [|done].
  pose proof (run_pool_counts _ _ _ _ _ E eq_refl) as H. unfold unaccounted in H. cbn. lia.
Qed.

(** ** Examples

    One simulator; a block submitted twice while its simulation runs, and
    both submissions answered when it ends. *)
Definition ex_request (builder : Pubkey) (hash : B256) (optimistic : bool) (id : Z)
    : ValidationRequest :=
  {| vr_submission_id := id; vr_priority := Top; vr_is_top_bid := true;
     vr_is_optimistic := optimistic; vr_apply_blacklist := false; vr_registered_gas_limit := 30;
     vr_parent_beacon_block_root := 1; vr_inclusion_list := [];
     vr_submission := ex_submission builder hash 10; vr_tx_root := None;
     vr_version := mkSubmissionVersion id None; vr_trace := mkSubmissionTrace 0 0 0;
     vr_receive_ns := id; vr_submission_ref := ref_http id |}.

Definition ex_pool_ops : list PoolOp :=
  [OpSyncPoll 0 (Some true); OpNextDone (λ _, 0);
   OpDispatch 1 (ex_request 1 1010 false 1) false; OpDispatch 2 (ex_request 2 1010 false 2) false;
   OpComplete 0 (mkSimReply (Ok []) (Ok []) 5); OpNextDone (λ _, 3); OpNextDone (λ _, 3)].

Lemma ex_pool_ops_ok : Forall (pool_op_ok (length [ex_client])) ex_pool_ops.
Proof. repeat constructor. Qed.

Lemma pool_conserves_witness :
  ∃ ds s o, run_pool (HO := list_order) (TH := ex_roots) ex_pool_ops (simulators_new [ex_client])
      = Some (ds, s, o) ∧
    length ds = 2%nat ∧ owed (ref_http 2) s = 0 ∧
    sumZ (op_owed (ref_http 2) <$> ex_pool_ops) = sumZ (done_owed (ref_http 2) <$> ds) + owed (ref_http 2) s.
Proof.
  pose proof (pool_conserves (HO := list_order) (TH := ex_roots) [ex_client] ex_pool_ops ex_pool_ops_ok) as H.
  unfold wp in H. destruct (run_pool _ _) as [[[ds s] o]|] eqn:E; [|done].
  exists ds, s, o. vm_compute in E. injection E as <- <- <-. split_and!; [done..|apply H].
Defined.

Lemma pool_capacity_witness :
  ∃ ds s o, run_pool (HO := list_order) (TH := ex_roots) (take 4 ex_pool_ops)
      (simulators_new [ex_client]) = Some (ds, s, o) ∧
    running 0 s = 1 ∧ ∃ sim, sm_simulators s !! 0%nat = Some sim ∧ se_pending sim = running 0 s.
Proof.
  pose proof (pool_capacity (HO := list_order) (TH := ex_roots) [ex_client] (take 4 ex_pool_ops)
    ltac:(repeat constructor)) as H.
  unfold wp in H. destruct (run_pool _ _) as [[[ds s] o]|] eqn:E; [|done].
  destruct (H 0%nat ex_client eq_refl) as (sim & Hs & _ & Hp & _).
  exists ds, s, o. split_and!; [done| |by exists sim].
  vm_compute in E. injection E as <- <- <-. done.
Defined.

Lemma requests_accounted_witness :
  ∃ ds s o, run_pool (HO := list_order) (TH := ex_roots) ex_pool_ops (simulators_new [ex_client])
      = Some (ds, s, o) ∧
    lt_sims_reqs (sm_local_telemetry s) = 2 ∧
    lt_sims_sent_immediately (sm_local_telemetry s) + lt_queued (sm_local_telemetry s) = 1 ∧
    lt_sims_reqs (sm_local_telemetry s) = lt_sims_sent_immediately (sm_local_telemetry s) +
      lt_queued (sm_local_telemetry s) + lt_duplicate_skipped (sm_local_telemetry s).
Proof.
  pose proof (requests_accounted (HO := list_order) (TH := ex_roots) [ex_client] ex_pool_ops
    ex_pool_ops_ok) as H.
  unfold wp in H. destruct (run_pool _ _) as [[[ds s] o]|] eqn:E; [|done].
  exists ds, s, o. vm_compute in E. injection E as <- <- <-. split_and!; [done..|apply H].
Defined.

(** A later submission of the same builder replaces the queued one. *)
Lemma store_keeps_freshest_witness :
  ∃ q v, (q, mkQueueKey 100 1, v) ∈
      (store (ex_request 1 1011 true 8) (mkQueueKey 100 1) (mkSubmissionVersion 8 None)
        [(ex_request 1 1010 true 7, mkQueueKey 100 1, mkSubmissionVersion 7 None)]).1 ∧
    q = ex_request 1 1011 true 8.
Proof.
  destruct (store_keeps_freshest (ex_request 1 1011 true 8) (mkQueueKey 100 1)
    (mkSubmissionVersion 8 None)
    [(ex_request 1 1010 true 7, mkQueueKey 100 1, mkSubmissionVersion 7 None)] _ _
    ltac:(apply NoDup_singleton) eq_refl) as (_ & _ & _ & q & v & Hin & Hnew & _).
  exists q, v. split; [exact Hin|]. apply Hnew.
  intros q0 v0 [= _ ->]%list_elem_of_singleton. reflexivity.
Defined.
