(* ===== verification/SimResults.v ===== *)
(** * What simulation results say

    The requests the pool holds, and those behind the results it delivers, are
    the ones it was given: a result that says [Ok] names a bid, and the bid of
    a result is that of a request. [P] is any fact about requests that does not
    depend on their priority. *)

From S2P Require Import Prelude Types Submission SimError SimEntry BidSorter Simulators.

Definition priority_blind (P : ValidationRequest → Prop) : Prop :=
  ∀ q p, P q → P (q <| vr_priority := p |>).

(** The bid a result carries, from the request simulated. *)
Definition request_bid (q : ValidationRequest) : Bid :=
  bid_new (vr_version q) (vr_submission q) (vr_parent_beacon_block_root q).

Definition result_from (P : ValidationRequest → Prop) (i : SimulationResultInner) : Prop :=
  (∀ t, si_result i = Ok t → is_Some (si_bid i)) ∧
  ∀ b, si_bid i = Some b → ∃ q, P q ∧ b = request_bid q.

Definition sim_result_from (P : ValidationRequest → Prop) (r : SimResult) : Prop :=
  match r with Validate _ (Some i) => result_from P i | _ => True end.
Definition done_from (P : ValidationRequest → Prop) (d : SimDone) : Prop :=
  sim_result_from P (sd_result d).
Definition event_from (P : ValidationRequest → Prop) (e : SimulatorsEvent) : Prop :=
  match e with TaskDone _ _ r _ => sim_result_from P r | SyncStatus _ _ => True end.
Definition task_from (P : ValidationRequest → Prop) (t : SimTask) : Prop :=
  match t with SimTaskRun _ _ q => P q | MergeTaskRun _ _ _ _ => True end.
Definition queue_from (P : ValidationRequest → Prop) (reqs : PendingRequests) : Prop :=
  Forall (λ e, P e.1.1) reqs.

Record pool_all (P : ValidationRequest → Prop) (s : Simulators) : Prop := {
  all_requests : queue_from P (sm_requests s);
  all_priority : queue_from P (sm_priority_requests s);
  all_superseded : Forall P (sm_superseded s);
  all_waiting : map_Forall (λ _ b, Forall P (waiting_requests b)) (sm_seen_blocks s);
  all_tasks : Forall (task_from P) (sm_in_flight s);
  all_events : Forall (event_from P) (sm_rx s);
  all_answered : Forall (done_from P) (sm_answered s)
}.

Section pool_all.
Variable P : ValidationRequest → Prop.
Hypothesis P_blind : priority_blind P.

Lemma dropped_from q : P q → Forall (done_from P) (dropped q).
Proof. intros Hq. unfold dropped. case_match; repeat constructor; by intros. Qed.

Lemma cached_from q r : P q → Forall (done_from P) (cached_answer q r).
Proof.
  intros Hq. unfold cached_answer. case_match; repeat constructor; cbn.
  - by eexists.
  - intros b [= <-]. by exists q.
Qed.

Lemma bind_from {A} (f : A → list SimDone) (Q : A → Prop) l :
  (∀ a, Q a → Forall (done_from P) (f a)) → Forall Q l → Forall (done_from P) (l ≫= f).
Proof.
  intros Hf Hl. induction Hl as [|a l Ha Hl IH]; cbn; [constructor|].
  apply Forall_app. auto.
Qed.

Lemma queue_reqs reqs : queue_from P reqs → Forall P reqs.*1.*1.
Proof. unfold queue_from. by rewrite !Forall_fmap. Qed.

Lemma next_req_from reqs q rest :
  next_req reqs = Some (q, rest) → queue_from P reqs → P q ∧ queue_from P rest.
Proof.
  unfold next_req, queue_from. intros (e & _ & H)%bind_Some.
  apply bind_Some in H as ([x rest'] & Hx & [= <- <-]).
  apply swap_remove_perm in Hx. rewrite Hx, Forall_cons. done.
Qed.

Lemma store_from req key v reqs reqs' drop :
  store req key v reqs = (reqs', drop) → P req → queue_from P reqs →
  queue_from P reqs' ∧ from_option P True drop.
Proof.
  unfold store, queue_from. intros E Hreq Hall. destruct (find _ _) as [[i [[q k] v']]|] eqn:Ef.
  - apply find_enumerate in Ef as [Hi _]. pose proof (Forall_lookup_1 _ _ _ _ Hall Hi) as Hq.
    destruct (version_lt v' v); injection E as <- <-; cbn; [|done].
    split; [|done]. by apply Forall_insert.
  - injection E as <- <-. split; [|done]. apply Forall_app. split; [done|]. by repeat constructor.
Qed.

Lemma pop_unseen_from seen l found rest :
  pop_unseen seen l = (found, rest) → Forall P l → from_option P True found ∧ Forall P rest.
Proof.
  revert found rest. induction l as [|r l IH]; cbn; intros found rest.
  - by intros [= <- <-].
  - intros E [Hr Hl]%Forall_cons. destruct (seen !! vr_block_hash r).
    + by apply IH.
    + injection E as <- <-. done.
Qed.

Lemma task_done_from `{TH : TreeHash} task reply :
  task_from P task → event_from P (task_done task reply).
Proof.
  destruct task as [id ssz q|id ssz req response]; cbn; [|done]. intros Hq.
  destruct (sim_response ssz q reply) as [res retried]. cbn. split; cbn.
  - by eexists.
  - intros b [= <-]. by exists q.
Qed.

(** ** Operations of the pool *)

Ltac keep_step :=
  lazymatch goal with
  | |- keeps _ _ (mret _) => apply keeps_ret; try exact Logic.I
  | |- keeps _ _ panic => apply keeps_panic
  | |- keeps _ _ (match ?x with _ => _ end) => destruct x eqn:?
  | |- keeps _ _ (if ?x then _ else _) => destruct x eqn:?
  | |- keeps _ _ (mbind _ get) => eapply keeps_bind; [apply keeps_get|intros ? ?]
  | |- keeps _ _ (mbind _ (gets _)) => eapply keeps_bind; [apply keeps_gets|intros ? (? & ? & ->)]
  | |- keeps _ _ (mbind _ _) => eapply (keeps_bind _ (λ _, True)); [|intros ? _]
  | |- keeps _ _ (emit _) => apply keeps_emit
  | |- keeps _ _ (bump _) => apply keeps_modify; intros ? []; by split
  end.
Ltac keep_steps := repeat (keep_step; cbn beta iota).
(** A [modify] that changes lists of the pool. *)
Ltac keep_modify := apply keeps_modify; intros ? []; split; cbn; try done.

Local Abbreviation K := (keeps (pool_all P)).

Lemma with_sim_keeps id f : K (λ _, True) (with_sim id f).
Proof. unfold with_sim. keep_steps. keep_modify. Qed.

Lemma spawn_sim_keeps id q : P q → K (λ _, True) (spawn_sim id q).
Proof.
  intros Hq. unfold spawn_sim, note_in_flight. keep_steps; try apply with_sim_keeps; keep_modify.
  - case_match; [done|]. by apply map_Forall_insert_2.
  - apply Forall_app. split; [done|]. by repeat constructor.
  - apply Forall_app. split; [done|]. repeat constructor; by intros.
Qed.

Lemma spawn_merge_sim_keeps id req response : K (λ _, True) (spawn_merge_sim id req response).
Proof.
  unfold spawn_merge_sim, note_in_flight. keep_steps; try apply with_sim_keeps; keep_modify.
  apply Forall_app. split; [done|]. by repeat constructor.
Qed.

Lemma enqueue_keeps q fast_track : P q → K (λ _, True) (enqueue q fast_track).
Proof.
  intros Hq. unfold enqueue, answer_dropped. eapply keeps_bind; [apply keeps_gets|].
  intros queue (s0 & Hs0 & ->).
  assert (queue_from P ((if fast_track then sm_priority_requests else sm_requests) s0)) as Hqueue.
  { destruct fast_track; apply Hs0. }
  destruct (store _ _ _ _) as [queue' drop] eqn:E.
  destruct (store_from _ _ _ _ _ _ E Hq Hqueue) as [Hq' Hdrop].
  eapply (keeps_bind _ (λ _, True)); [destruct fast_track; keep_modify|]. intros _ _.
  destruct drop as [d|]; cbn in Hdrop; keep_steps; keep_modify; apply Forall_app;
    (split; [done|]); [|by apply dropped_from]. by repeat constructor; apply P_blind.
Qed.

Lemma sample_request_keeps q : P q → K P (sample_request q).
Proof. intros Hq. unfold sample_request, take_sample. keep_steps; auto. keep_modify. Qed.

Lemma dispatch_keeps now q fast_track : P q → K (λ _, True) (dispatch now q fast_track).
Proof.
  intros Hq. unfold dispatch, send_or_queue, answer_cached.
  eapply (keeps_bind _ (λ _, True)); [keep_step|]. intros _ _.
  eapply keeps_bind; [apply keeps_gets|]. intros seen (s0 & Hs0 & ->).
  destruct (sm_seen_blocks s0 !! _) as [[waiting|result]|] eqn:Es.
  - pose proof (all_waiting _ _ Hs0 _ _ Es) as Hw. cbn in Hw. keep_steps. keep_modify.
    apply map_Forall_insert_2; [|done]. cbn. apply Forall_app. split; [done|]. by repeat constructor.
  - keep_steps. keep_modify. apply Forall_app. split; [done|]. by apply cached_from.
  - eapply keeps_bind; [by apply sample_request_keeps|]. intros q' Hq'. keep_steps.
    + by apply spawn_sim_keeps.
    + by apply enqueue_keeps.
Qed.

Lemma dispatch_merged_keeps now req response : K (λ _, True) (dispatch_merged now req response).
Proof.
  unfold dispatch_merged. keep_steps; try apply spawn_merge_sim_keeps; keep_modify.
Qed.

Lemma publish_keeps started : K (λ _, True) (publish started).
Proof. unfold publish. keep_steps. Qed.

Lemma send_next_keeps id : K (λ _, True) (send_next id).
Proof.
  unfold send_next. eapply keeps_bind; [apply keeps_get|]. intros s0 Hs0.
  destruct (next_req (sm_priority_requests s0)) as [[q rest]|] eqn:E1.
  { destruct (next_req_from _ _ _ E1 (all_priority _ _ Hs0)). destruct (next_req (sm_requests s0));
      keep_steps; try apply publish_keeps; try (by apply spawn_sim_keeps); keep_modify. }
  destruct (next_req (sm_requests s0)) as [[q rest]|] eqn:E2.
  { destruct (next_req_from _ _ _ E2 (all_requests _ _ Hs0)).
    keep_steps; try apply publish_keeps; try (by apply spawn_sim_keeps); keep_modify. }
  destruct (merge_next_req _) as [[[req response] rest]|].
  { keep_steps; try apply publish_keeps; try apply spawn_merge_sim_keeps; keep_modify. }
  destruct (pop_unseen _ _) as [found rest] eqn:Ep.
  destruct (pop_unseen_from _ _ _ _ Ep) as [Hf Hrest].
  { apply Forall_reverse, Hs0. }
  destruct found as [q|]; cbn in Hf; keep_steps; try apply publish_keeps;
    try (by apply spawn_sim_keeps); keep_modify; by apply Forall_reverse.
Qed.

Lemma on_task_response_keeps now id error elapsed :
  K (λ _, True) (on_task_response now id error elapsed).
Proof.
  unfold on_task_response, refresh_accept_optimistic.
  keep_steps; try apply with_sim_keeps; try apply send_next_keeps; keep_modify.
Qed.

Lemma on_block_simulated_keeps hash result : K (λ _, True) (on_block_simulated hash result).
Proof.
  unfold on_block_simulated. eapply keeps_bind; [apply keeps_gets|]. intros prev (s0 & Hs0 & ->).
  eapply (keeps_bind _ (λ _, True)).
  - keep_steps; keep_modify; [by apply map_Forall_delete|by apply map_Forall_insert_2].
  - intros _ _. destruct (sm_seen_blocks s0 !! hash) as [[waiting|r]|] eqn:Es; keep_steps.
    pose proof (all_waiting _ _ Hs0 _ _ Es) as Hw. cbn in Hw. keep_modify.
    apply Forall_app. split; [done|]. eapply bind_from; [|exact Hw]. intros. by apply cached_from.
Qed.

Lemma next_done_loop_keeps now i fuel : K (from_option (done_from P) True) (next_done_loop now i fuel).
Proof.
  revert i. induction fuel as [|fuel IH]; intros i; cbn [next_done_loop]; [by apply keeps_ret|].
  eapply keeps_bind; [apply keeps_gets|]. intros rx (s0 & Hs0 & ->).
  destruct (sm_rx s0) as [|e rest] eqn:Erx.
  - eapply keeps_bind; [apply keeps_gets|]. intros answered (s1 & Hs1 & ->).
    pose proof (all_answered _ _ Hs1) as Hans.
    destruct (last (sm_answered s1)) as [d|] eqn:El; [|by apply keeps_ret].
    eapply (keeps_bind _ (λ _, True)).
    + keep_modify. by apply Forall_take.
    + intros _ _. apply keeps_ret. cbn. rewrite last_lookup in El. by eapply Forall_lookup_1.
  - pose proof (all_events _ _ Hs0) as Hev. rewrite Erx in Hev. apply Forall_cons in Hev as [He Hrest].
    destruct e as [id error result elapsed|id reported]; cbn in He.
    + keep_step; [keep_modify|]. keep_step; [apply on_task_response_keeps|]. keep_step.
      * destruct result as [? [inner|]|? ?]; keep_steps. apply on_block_simulated_keeps.
      * by apply keeps_ret.
    + keep_step; [keep_modify|]. keep_step; [|apply IH].
      unfold handle_sync_status, refresh_accept_optimistic. keep_steps; [apply with_sim_keeps|keep_modify].
Qed.

Lemma next_done_keeps now : K (from_option (done_from P) True) (next_done now).
Proof.
  unfold next_done. eapply keeps_bind; [apply keeps_gets|]. intros ? _. apply next_done_loop_keeps.
Qed.

Lemma retire_queued_from reqs :
  queue_from P reqs → queue_from P (omap retire_queued reqs) ∧ Forall P (retired reqs).
Proof.
  unfold queue_from, retired. intros Hr. split; apply Forall_forall.
  - intros e (e0 & Hin & E)%list_elem_of_omap. rewrite Forall_forall in Hr. specialize (Hr _ Hin).
    revert E. unfold retire_queued. case_match; [done|]. intros [= <-]. by apply P_blind.
  - intros q (e0 & Hin & E)%list_elem_of_omap. rewrite Forall_forall in Hr. specialize (Hr _ Hin).
    revert E. case_match; [done|]. by intros [= <-].
Qed.

Lemma retire_superseded_from l : Forall P l → Forall P (omap retire_superseded l).
Proof.
  intros Hl. apply Forall_forall. intros q (q0 & Hin & E)%list_elem_of_omap.
  rewrite Forall_forall in Hl. specialize (Hl _ Hin). revert E. unfold retire_superseded.
  case_match; [done|]. intros [= <-]. by apply P_blind.
Qed.

Lemma waiting_from `{HO : HashOrder} (m : gmap B256 SimSeenBlock) :
  map_Forall (λ _ b, Forall P (waiting_requests b)) m →
  Forall P (hash_values m ≫= waiting_requests).
Proof.
  intros Hm. apply Forall_forall. intros q (b & Hq & (h & Hb)%elem_of_hash_values)%list_elem_of_bind.
  specialize (Hm _ _ Hb). cbn in Hm. rewrite Forall_forall in Hm. auto.
Qed.

Lemma on_new_slot_keeps `{HO : HashOrder} slot : K (λ _, True) (pool_on_new_slot slot).
Proof.
  unfold pool_on_new_slot. keep_step.
  repeat (keep_step; [apply keeps_modify; intros ? []; try case_match; split; cbn; try done|]);
    try (by apply keeps_ret).
  - constructor.
  - apply Forall_app. split; [done|]. apply (bind_from _ P); [apply dropped_from|]. by apply queue_reqs.
  - by apply retire_queued_from.
  - apply Forall_app. split; [done|]. apply (bind_from _ P); [apply dropped_from|].
    by apply retire_queued_from.
  - by apply retire_superseded_from.
  - apply Forall_app. split; [done|]. apply (bind_from _ P); [apply dropped_from|].
    by apply waiting_from.
Qed.

Lemma complete_task_keeps `{TH : TreeHash} i reply s :
  pool_all P s → pool_all P (complete_task i reply s).
Proof.
  intros Hs. unfold complete_task. destruct (sm_in_flight s !! i) as [t|] eqn:E; [|done].
  pose proof (Forall_lookup_1 _ _ _ _ (all_tasks _ _ Hs) E) as Ht.
  destruct Hs. split; cbn; try done.
  - by apply Forall_delete.
  - apply Forall_app. split; [done|]. repeat constructor. by apply task_done_from.
Qed.

Lemma sync_poll_keeps id reported s : pool_all P s → pool_all P (sync_poll id reported s).
Proof.
  intros []. split; cbn; try done. apply Forall_app. split; [done|]. by repeat constructor.
Qed.

Lemma simulators_new_all configs : pool_all P (simulators_new configs).
Proof. split; cbn; constructor || done. Qed.
End pool_all.

(** A stronger fact about requests is a stronger fact about the pool. *)
Lemma pool_all_mono (P Q : ValidationRequest → Prop) s :
  (∀ q, P q → Q q) → pool_all P s → pool_all Q s.
Proof.
  intros HPQ. assert (∀ r, sim_result_from P r → sim_result_from Q r) as Hr.
  { intros [? [i|]|? ?]; cbn; [|done..]. intros [H1 H2]. split; [done|].
    intros b Hb. destruct (H2 b Hb) as (q & ? & ?). eauto. }
  intros [H1 H2 H3 H4 H5 H6 H7]. unfold queue_from in *.
  split; try (eapply Forall_impl; [eassumption|]; cbn; auto).
  - eapply map_Forall_impl; [exact H4|]. intros h b Hb. cbn in *. eapply Forall_impl; eauto.
  - intros []; cbn; auto.
  - intros []; cbn; auto.
  - intros d. unfold done_from. auto.
Qed.
