(* ===== verification/LocalCache.v ===== *)
(** * The relay's shared caches

    [common/src/local_cache.rs]: builder standing, the derived view of the
    shared collateral pools, duties and registrations, merged blocks and the
    switches the admin API toggles. Each method locks the map it touches, so a
    method is one step on the state. *)

From S2P Require Import Prelude Types Submission ApiError Simulators.

(** ** Registrations and preferences *)

Inductive Filtering := Global | Regional.
#[export] Instance Filtering_eq_dec : EqDecision Filtering.
Proof. solve_decision. Defined.
Definition is_regional (f : Filtering) : bool :=
  match f with Regional => true | Global => false end.

Record ValidatorPreferences := mkValidatorPreferences {
  vp_filtering : Filtering;
  vp_trusted_builders : option (list string);
  vp_header_delay : bool;
  vp_delay_ms : option u64;
  vp_disable_inclusion_lists : bool;
  vp_disable_optimistic : bool;
  vp_api_key : option Uuid
}.
Definition preferences_default_values : ValidatorPreferences :=
  mkValidatorPreferences Global None true None false false None.

Record ValidatorRegistrationData := mkValidatorRegistrationData {
  rg_fee_recipient : Address;
  rg_gas_limit : u64;
  rg_timestamp : u64;
  rg_pubkey : Pubkey
}.
Record SignedValidatorRegistration := mkSignedValidatorRegistration {
  svr_message : ValidatorRegistrationData;
  svr_signature : Z
}.
Record ValidatorRegistrationInfo := mkValidatorRegistrationInfo {
  ri_registration : SignedValidatorRegistration;
  ri_preferences : ValidatorPreferences
}.
Record SignedValidatorRegistrationEntry := mkSignedValidatorRegistrationEntry {
  re_registration_info : ValidatorRegistrationInfo;
  re_inserted_at : u64;
  re_pool_name : option string;
  re_user_agent : option string
}.

Definition ri_pubkey (i : ValidatorRegistrationInfo) : Pubkey :=
  rg_pubkey (svr_message (ri_registration i)).

(** [SignedValidatorRegistrationEntry::new]; [now] is the clock. *)
Definition registration_entry_new (now : u64) (info : ValidatorRegistrationInfo)
    (user_agent : option string) : SignedValidatorRegistrationEntry :=
  mkSignedValidatorRegistrationEntry info now None user_agent.

(** A proposer duty as builders query it. *)
Record BuilderGetValidatorsResponseEntry := mkDutyEntry {
  de_slot : u64;
  de_validator_index : u64;
  de_entry : ValidatorRegistrationInfo
}.

Record ProposerDuty := mkProposerDuty {
  du_pubkey : Pubkey;
  du_validator_index : u64;
  du_slot : u64
}.

Inductive RegistrationUpdate := Required | Unchanged | Rejected.
#[export] Instance RegistrationUpdate_eq_dec : EqDecision RegistrationUpdate.
Proof. solve_decision. Defined.

(** ** Builders *)

Record BuilderInfo := mkBuilderInfo {
  bf_collateral : U256;
  bf_is_optimistic : bool;
  bf_is_optimistic_for_regional_filtering : bool;
  bf_builder_id : option string;
  bf_builder_ids : option (list string);
  bf_api_key : option string;
  bf_skip_sigverify : bool;
  bf_tcp_submissions : bool;
  bf_top_bid_feed : bool
}.
#[export] Instance eta_BuilderInfo : Eta BuilderInfo := λ r,
  mkBuilderInfo (bf_collateral r) (bf_is_optimistic r)
    (bf_is_optimistic_for_regional_filtering r) (bf_builder_id r) (bf_builder_ids r)
    (bf_api_key r) (bf_skip_sigverify r) (bf_tcp_submissions r) (bf_top_bid_feed r).
Definition builder_info_default : BuilderInfo :=
  mkBuilderInfo 0 false false None None None false false false.

Definition can_process_regional_slot_optimistically (i : BuilderInfo) : bool :=
  bf_is_optimistic i && bf_is_optimistic_for_regional_filtering i.

Record BuilderConfig := mkBuilderConfig {
  bg_pub_key : Pubkey;
  bg_builder_info : BuilderInfo
}.

(** ** Shared collateral *)

Inductive PromotionMode := Observe | Follow | Share.
#[export] Instance PromotionMode_eq_dec : EqDecision PromotionMode.
Proof. solve_decision. Defined.
Definition applies (m : PromotionMode) : bool :=
  match m with Follow | Share => true | Observe => false end.

Record PoolBinding := mkPoolBinding { pb_pool : u32; pb_reported : bool }.
Record PoolView := mkPoolView {
  pv_collateral_id : Bytes;
  pv_available : U256;
  pv_promoted : bool
}.
Record PoolStatus := mkPoolStatus {
  pt_collateral_id : Bytes;
  pt_available : U256;
  pt_is_optimistic : bool
}.

(** ** Inclusion lists and merged blocks *)

Record SlotCoordinate := mkSlotCoordinate {
  sk_slot : u64;
  sk_proposer : Pubkey;
  sk_parent_hash : B256
}.
#[export] Instance SlotCoordinate_eq_dec : EqDecision SlotCoordinate.
Proof. solve_decision. Defined.

Record InclusionListWithKey := mkInclusionListWithKey {
  ik_key : SlotCoordinate;
  ik_inclusion_list : InclusionListWithMetadata
}.

(** The record of a merged block; the unmerged transactions and the builder of
    each transaction, which only the stored record shows, are left out. *)
Record MergedBlock := mkMergedBlock {
  mb_slot : u64;
  mb_block_number : u64;
  mb_original_block_hash : B256;
  mb_block_hash : B256;
  mb_original_value : U256;
  mb_proposer_value : U256;
  mb_total_merged_value : U256;
  mb_base_builder_revenue : U256;
  mb_relay_revenue : U256;
  mb_original_tx_count : Z;
  mb_merged_tx_count : Z;
  mb_original_blob_count : Z;
  mb_merged_blob_count : Z;
  mb_original_gas_used : u64;
  mb_merged_gas_used : u64;
  mb_builder_inclusions : gmap Address BuilderInclusionResult;
  mb_trace : MergedBlockTrace
}.
#[export] Instance eta_MergedBlock : Eta MergedBlock := λ r,
  mkMergedBlock (mb_slot r) (mb_block_number r) (mb_original_block_hash r) (mb_block_hash r)
    (mb_original_value r) (mb_proposer_value r) (mb_total_merged_value r)
    (mb_base_builder_revenue r) (mb_relay_revenue r) (mb_original_tx_count r)
    (mb_merged_tx_count r) (mb_original_blob_count r) (mb_merged_blob_count r) (mb_original_gas_used r)
    (mb_merged_gas_used r) (mb_builder_inclusions r) (mb_trace r).

(** ** Proposer keys

    Decompression of a key into a point of the curve's subgroup is the BLS
    library's; [decode_pubkey] also rejects the point at infinity. *)
Class BlsPoints := {
  G1Point : Type;
  uncompress_in_g1 : Pubkey → option G1Point;
  is_infinity : G1Point → bool
}.

Section cache.
Context `{BP : BlsPoints}.

Definition decode_pubkey_point (pubkey : Pubkey) : option G1Point :=
  p ← uncompress_in_g1 pubkey; if is_infinity p then None else Some p.

Definition decode_pubkeys (pubkeys : list Pubkey) : list (option G1Point) :=
  decode_pubkey_point <$> pubkeys.

Definition decode_pubkey (pubkey : Pubkey) : Result G1Point SigError :=
  match decode_pubkeys [pubkey] with
  | [Some p] => Ok p
  | _ => Err InvalidBlsPubkeyBytes
  end.

(** ** State *)

Record LocalCache := mkLocalCache {
  lc_inclusion_list : option InclusionListWithKey;
  lc_builder_info : gmap Pubkey BuilderInfo;
  lc_api_keys : gmap string (list BuilderConfig);
  lc_pool_binding : gmap Pubkey PoolBinding;
  lc_pool_view : gmap u32 PoolView;
  lc_promotion_mode : PromotionMode;
  lc_primev_proposers : gset Pubkey;
  lc_kill_switch : bool;
  lc_serve_merged_headers : bool;
  lc_proposer_duties : list BuilderGetValidatorsResponseEntry;
  lc_proposer_schedule : list (ProposerDuty * option G1Point);
  lc_merged_blocks : gmap B256 MergedBlock;
  lc_validator_registrations : gmap Pubkey SignedValidatorRegistrationEntry;
  lc_pending_registrations : gset Pubkey;
  lc_known_validators : gset Pubkey;
  lc_adjustments_enabled : bool;
  lc_adjustments_failsafe_trigger : bool;
  lc_submission_versions : gmap Pubkey (u64 * SubmissionVersion)
}.
#[global] Instance eta_LocalCache : Eta LocalCache := λ r,
  mkLocalCache (lc_inclusion_list r) (lc_builder_info r) (lc_api_keys r) (lc_pool_binding r)
    (lc_pool_view r) (lc_promotion_mode r) (lc_primev_proposers r) (lc_kill_switch r)
    (lc_serve_merged_headers r) (lc_proposer_duties r) (lc_proposer_schedule r)
    (lc_merged_blocks r) (lc_validator_registrations r) (lc_pending_registrations r)
    (lc_known_validators r) (lc_adjustments_enabled r) (lc_adjustments_failsafe_trigger r)
    (lc_submission_versions r).

Definition local_cache_new : LocalCache :=
  mkLocalCache None ∅ ∅ ∅ ∅ Observe ∅ false true [] [] ∅ ∅ ∅ ∅ false false ∅.

(** ** Operations *)

Definition check_submission_version (c : LocalCache) (builder : Pubkey) (slot : u64)
    (this : SubmissionVersion) : Result unit BlockValidationError :=
  match lc_submission_versions c !! builder with
  | Some (s, seen) =>
      if (s =? slot) && version_ge seen this then Err (OutOfSequence seen this) else Ok tt
  | None => Ok tt
  end.

Definition pool_status (c : LocalCache) (builder : Pubkey) : option PoolStatus :=
  binding ← lc_pool_binding c !! builder;
  view ← lc_pool_view c !! pb_pool binding;
  Some (mkPoolStatus (pv_collateral_id view) (pv_available view)
          (pv_promoted view && negb (pb_reported binding))).

Definition get_builder_info (c : LocalCache) (builder : Pubkey) : option BuilderInfo :=
  info ← lc_builder_info c !! builder;
  if negb (applies (lc_promotion_mode c)) then Some info
  else
    match (binding ← lc_pool_binding c !! builder;
           view ← lc_pool_view c !! pb_pool binding; Some (binding, view)) with
    | Some (binding, view) =>
        Some (info <| bf_collateral := pv_available view |>
                   <| bf_is_optimistic := pv_promoted view && negb (pb_reported binding) |>)
    | None => Some (info <| bf_collateral := 0 |> <| bf_is_optimistic := false |>)
    end.

Definition set_promotion_mode (mode : PromotionMode) (c : LocalCache) : LocalCache :=
  c <| lc_promotion_mode := mode |>.

Definition update_pool_state (views : list (u32 * Bytes * U256 * bool))
    (bindings : list (Pubkey * u32 * bool)) (c : LocalCache) : LocalCache :=
  c <| lc_pool_view ::= λ m, foldl (λ m '(pool, collateral_id, available, promoted),
         <[pool := mkPoolView collateral_id available promoted]> m) m views |>
    <| lc_pool_binding ::= λ m, foldl (λ m '(pubkey, pool, reported),
         <[pubkey := mkPoolBinding pool reported]> m) m bindings |>.

Definition has_top_bid_feed (c : LocalCache) (api_key : string) : bool :=
  from_option (existsb (λ b, bf_top_bid_feed (bg_builder_info b))) false (lc_api_keys c !! api_key).

Definition can_skip_sigverify (c : LocalCache) (api_key : string) (pubkey : Pubkey) : bool :=
  from_option (existsb (λ b, (bg_pub_key b =? pubkey) && bf_skip_sigverify (bg_builder_info b)))
    false (lc_api_keys c !! api_key).

Definition demote_builder (builder : Pubkey) (c : LocalCache) : bool * LocalCache :=
  match lc_builder_info c !! builder with
  | None => (false, c)
  | Some info =>
      if negb (bf_is_optimistic info) then (false, c)
      else (true, c <| lc_builder_info ::= <[builder := info <| bf_is_optimistic := false |>]> |>)
  end.

Definition promote_builder (builder : Pubkey) (c : LocalCache) : bool * LocalCache :=
  match lc_builder_info c !! builder with
  | None => (false, c)
  | Some info =>
      if bf_is_optimistic info then (false, c)
      else (true, c <| lc_builder_info ::= <[builder := info <| bf_is_optimistic := true |>]> |>)
  end.

Definition remember_config (c : LocalCache) (b : BuilderConfig) : LocalCache :=
  let c := match bf_api_key (bg_builder_info b) with
    | Some api_key =>
        c <| lc_api_keys ::= λ m, <[api_key := default [] (m !! api_key) ++ [b]]> m |>
    | None => c
    end in
  c <| lc_builder_info ::= <[bg_pub_key b := bg_builder_info b]> |>.

Definition update_builder_infos (builder_infos : list BuilderConfig) (clear_api_cache : bool)
    (c : LocalCache) : LocalCache :=
  foldl remember_config (if clear_api_cache then c <| lc_api_keys := ∅ |> else c) builder_infos.

Definition update_primev_proposers (proposers : list Pubkey) (c : LocalCache) : LocalCache :=
  c <| lc_primev_proposers := list_to_set proposers |>.
Definition is_primev_proposer (c : LocalCache) (proposer : Pubkey) : bool :=
  bool_decide (proposer ∈ lc_primev_proposers c).

Definition kill_switch_enabled (c : LocalCache) : bool := lc_kill_switch c.
Definition enable_kill_switch (c : LocalCache) : LocalCache := c <| lc_kill_switch := true |>.
Definition disable_kill_switch (c : LocalCache) : LocalCache := c <| lc_kill_switch := false |>.
Definition merged_headers_enabled (c : LocalCache) : bool := lc_serve_merged_headers c.
Definition enable_merged_headers (c : LocalCache) : LocalCache :=
  c <| lc_serve_merged_headers := true |>.
Definition disable_merged_headers (c : LocalCache) : LocalCache :=
  c <| lc_serve_merged_headers := false |>.

Definition update_current_inclusion_list (list : InclusionListWithMetadata)
    (coordinate : SlotCoordinate) (c : LocalCache) : LocalCache :=
  c <| lc_inclusion_list := Some (mkInclusionListWithKey coordinate list) |>.

Definition update_proposer_duties (duties : list BuilderGetValidatorsResponseEntry)
    (c : LocalCache) : LocalCache := c <| lc_proposer_duties := duties |>.

Definition update_proposer_schedule (duties : list ProposerDuty) (c : LocalCache) : LocalCache :=
  c <| lc_proposer_schedule := zip duties (decode_pubkeys (du_pubkey <$> duties)) |>.

Definition proposer_pubkey (c : LocalCache) (slot : u64) : option Pubkey :=
  (λ e, du_pubkey e.1) <$> find (λ e, du_slot e.1 =? slot) (lc_proposer_schedule c).

Definition proposer_key (c : LocalCache) (slot : u64) (pubkey : Pubkey)
    : Result G1Point SigError :=
  match snd <$> find (λ e, (du_slot e.1 =? slot) && (du_pubkey e.1 =? pubkey))
                  (lc_proposer_schedule c) with
  | Some (Some key) => Ok key
  | Some None => Err InvalidBlsPubkeyBytes
  | None => decode_pubkey pubkey
  end.

Definition save_merged_block (b : MergedBlock) (c : LocalCache) : LocalCache :=
  c <| lc_merged_blocks ::= <[mb_block_hash b := b]> |>.

Definition set_merged_block_header_served (block_hash : B256) (time_ns : u64)
    (was_top_builder : bool) (c : LocalCache) : LocalCache :=
  c <| lc_merged_blocks ::= alter (λ b, b <| mb_trace ::= λ t,
         t <| mt_header_served_time_ns := Some time_ns |>
           <| mt_was_top_builder := Some was_top_builder |> |>) block_hash |>.

Definition set_merged_block_top_bid (block_hash : B256) (top_bid : U256) (c : LocalCache)
    : LocalCache :=
  c <| lc_merged_blocks ::= alter (λ b, b <| mb_trace ::= λ t,
         t <| mt_top_bid := Some top_bid |> |>) block_hash |>.

Definition get_merged_block (c : LocalCache) (block_hash : B256) : option MergedBlock :=
  lc_merged_blocks c !! block_hash.

Definition clear_merged_blocks (c : LocalCache) : LocalCache := c <| lc_merged_blocks := ∅ |>.

Definition VALIDATOR_REGISTRATION_UPDATE_INTERVAL : Z := 60 * 60.

(** The parameter is the API provider's [admit_registration] on the request's
    headers. *)
Definition registration_update (admit_registration : bool → SignedValidatorRegistrationEntry → bool)
    (c : LocalCache) (registration : SignedValidatorRegistration) (api_key : option Uuid)
    : RegistrationUpdate :=
  let new := svr_message registration in
  match lc_validator_registrations c !! rg_pubkey new with
  | None => Required
  | Some entry =>
      let existing := svr_message (ri_registration (re_registration_info entry)) in
      let fee_recipient_changed := negb (rg_fee_recipient existing =? rg_fee_recipient new) in
      let gas_limit_changed := negb (rg_gas_limit existing =? rg_gas_limit new) in
      if (rg_timestamp new <? rg_timestamp existing) ||
         ((rg_timestamp new =? rg_timestamp existing) &&
          (fee_recipient_changed || gas_limit_changed))
      then Unchanged
      else
        let update_needed :=
          (rg_timestamp existing
             <? sat_sub (rg_timestamp new) VALIDATOR_REGISTRATION_UPDATE_INTERVAL) ||
          fee_recipient_changed || gas_limit_changed ||
          negb (bool_decide (vp_api_key (ri_preferences (re_registration_info entry)) = api_key)) in
        if negb update_needed then Unchanged
        else if admit_registration (rg_timestamp existing <? rg_timestamp new) entry then Required
        else Rejected
  end.

Definition save_validator_registrations (now : u64) (entries : list ValidatorRegistrationInfo)
    (user_agent : option string) (c : LocalCache) : LocalCache :=
  foldl (λ c entry,
    c <| lc_pending_registrations ::= λ s, {[ri_pubkey entry]} ∪ s |>
      <| lc_validator_registrations ::=
           <[ri_pubkey entry := registration_entry_new now entry user_agent]> |>) c entries.

Definition get_validator_registrations_for_pub_keys (c : LocalCache) (pub_keys : list Pubkey)
    : list SignedValidatorRegistrationEntry :=
  omap (λ k, lc_validator_registrations c !! k) pub_keys.

(** ** Gross backing by builder id *)

Definition add_collateral (m : gmap string (list Pubkey * U256)) (e : Pubkey * BuilderInfo)
    : gmap string (list Pubkey * U256) :=
  match bf_builder_id e.2 with
  | None => m
  | Some id =>
      <[id := match m !! id with
              | Some (keys, wei) => (keys ++ [e.1], Z.max wei (bf_collateral e.2))
              | None => ([e.1], bf_collateral e.2)
              end]> m
  end.

Definition all_builder_local_collateral `{HO : HashOrder} (c : LocalCache)
    : gmap string (list Pubkey * U256) :=
  foldl add_collateral ∅ (hash_iter (lc_builder_info c)).

(** ** Registering validators

    [relay/src/api/proposer/register.rs]: the registrations to check are
    chosen against the cache, their signatures verified by the registration
    workers (awaited), then the valid ones saved. *)
Definition registrations_to_check (admit_registration : bool → SignedValidatorRegistrationEntry → bool)
    (c : LocalCache) (prefs : ValidatorPreferences) (regs : list SignedValidatorRegistration)
    : list SignedValidatorRegistration :=
  filter (λ reg, registration_update admit_registration c reg (vp_api_key prefs) = Required)
    (filter (λ reg, rg_pubkey (svr_message reg) ∈ lc_known_validators c) regs).

(** After the workers answered: [verify] is the signature check, [workers] says
    whether every batch reached a worker and was answered. *)
Definition finish_registration (verify : SignedValidatorRegistration → bool) (workers : bool)
    (now : u64) (prefs : ValidatorPreferences) (user_agent : option string)
    (to_check : list SignedValidatorRegistration) (c : LocalCache)
    : Result unit ProposerApiError * LocalCache :=
  if bool_decide (to_check = []) then (Ok tt, c)
  else if negb workers then (Err ProposerApi.InternalServerError, c)
  else
    let valid := filter (λ reg, verify reg = true) to_check in
    if bool_decide (valid = []) then (Err ProposerApi.NoValidatorsCouldBeRegistered, c)
    else (Ok tt, save_validator_registrations now
                   ((λ reg, mkValidatorRegistrationInfo reg prefs) <$> valid) user_agent c).

(** A request no other one interleaves with. *)
Definition register_validators (admit_registration : bool → SignedValidatorRegistrationEntry → bool)
    (verify : SignedValidatorRegistration → bool) (known_validators_loaded workers : bool)
    (now : u64) (prefs : ValidatorPreferences) (user_agent : option string)
    (regs : list SignedValidatorRegistration) (c : LocalCache)
    : Result unit ProposerApiError * LocalCache :=
  if bool_decide (regs = []) then (Err ProposerApi.EmptyRequest, c)
  else if negb known_validators_loaded then (Err ProposerApi.ServiceUnavailableError, c)
  else finish_registration verify workers now prefs user_agent (registrations_to_check admit_registration c prefs regs) c.
End cache.

(** ** Registrations never roll back *)

(** A later registration may replace an earlier one: a newer timestamp, or the
    same message. *)
Definition supersedes (new old : SignedValidatorRegistrationEntry) : Prop :=
  let n := svr_message (ri_registration (re_registration_info new)) in
  let o := svr_message (ri_registration (re_registration_info old)) in
  rg_timestamp o < rg_timestamp n ∨
  (rg_timestamp o = rg_timestamp n ∧ rg_fee_recipient o = rg_fee_recipient n ∧
   rg_gas_limit o = rg_gas_limit n ∧ rg_pubkey o = rg_pubkey n).

#[export] Instance supersedes_trans : Transitive supersedes.
Proof. intros x y z. unfold supersedes. intros [?|?] [?|?]; intuition (try lia; congruence). Qed.

Section registrations.
Context `{BP : BlsPoints}.
Implicit Types c : LocalCache.

(** Entries sit under the key they name. *)
Definition registrations_keyed c : Prop :=
  map_Forall (λ k e, ri_pubkey (re_registration_info e) = k) (lc_validator_registrations c).

Lemma required_supersedes admit_registration c reg api_key prefs now ua old :
  registrations_keyed c →
  registration_update admit_registration c reg api_key = Required →
  lc_validator_registrations c !! rg_pubkey (svr_message reg) = Some old →
  supersedes (registration_entry_new now (mkValidatorRegistrationInfo reg prefs) ua) old.
Proof.
  intros Hk. unfold registration_update. intros H Hold. rewrite Hold in H.
  specialize (Hk _ _ Hold). unfold ri_pubkey in Hk. unfold supersedes. cbn.
  set (o := svr_message _) in *. set (n := svr_message reg) in *.
  destruct (Z.ltb_spec (rg_timestamp n) (rg_timestamp o)); cbn in H; [done|].
  destruct (Z.eqb_spec (rg_timestamp n) (rg_timestamp o)); cbn in H; [|lia].
  destruct (Z.eqb_spec (rg_fee_recipient o) (rg_fee_recipient n)); [|done].
  destruct (Z.eqb_spec (rg_gas_limit o) (rg_gas_limit n)); [|done]. right. auto.
Qed.

(** With the default provider an equal timestamp changes nothing at all. *)
Lemma required_resigned c reg api_key old :
  registration_update (λ resigned _, resigned) c reg api_key = Required →
  lc_validator_registrations c !! rg_pubkey (svr_message reg) = Some old →
  rg_timestamp (svr_message (ri_registration (re_registration_info old)))
    < rg_timestamp (svr_message reg).
Proof.
  unfold registration_update. intros H Hold. rewrite Hold in H.
  destruct (_ || _) in H; [done|]. destruct (negb _) in H; [done|].
  destruct (Z.ltb_spec (rg_timestamp (svr_message (ri_registration (re_registration_info old))))
    (rg_timestamp (svr_message reg))); done.
Qed.

Lemma save_lookup now entries ua c k :
  NoDup (ri_pubkey <$> entries) →
  lc_validator_registrations (save_validator_registrations now entries ua c) !! k =
    match find (λ e, ri_pubkey e =? k) entries with
    | Some e => Some (registration_entry_new now e ua)
    | None => lc_validator_registrations c !! k
    end.
Proof.
  unfold save_validator_registrations. revert c.
  induction entries as [|e entries IH]; intros c Hnd; [done|]. cbn [fmap list_fmap] in Hnd.
  apply NoDup_cons in Hnd as [Hni Hnd]. cbn [foldl]. rewrite IH by done.
  rewrite find_cons. destruct (Z.eqb_spec (ri_pubkey e) k) as [<-|Hne].
  - assert (find (λ e0, ri_pubkey e0 =? ri_pubkey e) entries = None) as ->.
    { apply find_none. intros e' Hin. apply Z.eqb_neq. intros E. apply Hni.
      rewrite <- E. by apply list_elem_of_fmap_2. }
    cbn. by rewrite lookup_insert_eq.
  - destruct (find _ entries); [done|]. cbn. by rewrite lookup_insert_ne.
Qed.

Lemma filter_NoDup_fmap {A} (f : A → Z) (P : A → Prop) `{∀ x, Decision (P x)} l :
  NoDup (f <$> l) → NoDup (f <$> filter P l).
Proof.
  induction l as [|x l IH]; [done|]. cbn. rewrite NoDup_cons. intros [Hni Hnd].
  case_decide; [|auto]. cbn. apply NoDup_cons. split; [|auto].
  rewrite list_elem_of_fmap. intros (y & E & [_ Hy]%list_elem_of_filter). apply Hni.
  rewrite E. by apply list_elem_of_fmap_2.
Qed.

Abbreviation reg_key := (λ reg, rg_pubkey (svr_message reg)).

Lemma finish_lookup verify workers now prefs ua to_check c k r c' :
  NoDup (reg_key <$> to_check) → finish_registration verify workers now prefs ua to_check c = (r, c') →
  lc_validator_registrations c' !! k = lc_validator_registrations c !! k ∨
  ∃ reg, reg ∈ to_check ∧ verify reg = true ∧ reg_key reg = k ∧
    lc_validator_registrations c' !! k =
      Some (registration_entry_new now (mkValidatorRegistrationInfo reg prefs) ua).
Proof.
  intros Hnd. unfold finish_registration. case_bool_decide; [intros [= <- <-]; auto|].
  destruct workers; cbn; [|intros [= <- <-]; auto].
  case_bool_decide; [intros [= <- <-]; auto|]. intros [= <- <-].
  rewrite save_lookup.
  - destruct (find _ _) as [e|] eqn:E; [|auto]. right.
    apply find_some in E as [(reg & -> & [Hv Hin]%list_elem_of_filter)%list_elem_of_fmap Hk%Z.eqb_eq].
    by exists reg.
  - rewrite <- list_fmap_compose. by apply (filter_NoDup_fmap reg_key).
Qed.

End registrations.

(** ** Properties *)

Section properties.
Context `{BP : BlsPoints}.
Variable admit_registration : bool → SignedValidatorRegistrationEntry → bool.
Variable verify : SignedValidatorRegistration → bool.

Abbreviation reg_key := (λ reg, rg_pubkey (svr_message reg)).

(** A request whose signatures are being verified: its preferences, its client
    and the registrations it found to need an update. *)
Record InFlight := mkInFlight {
  fl_prefs : ValidatorPreferences;
  fl_user_agent : option string;
  fl_to_check : list SignedValidatorRegistration
}.

(** Requests and their interleaving: a request is compared with the cache when it
    starts and saved when its signatures are verified; requests in flight at the
    same time, and the registrations of one request, are for different validators.
    Other tasks change the rest of the cache. *)
Inductive reg_step : LocalCache * list InFlight → LocalCache * list InFlight → Prop :=
| reg_check c fl prefs ua regs :
    NoDup ((fl ≫= λ f, reg_key <$> fl_to_check f) ++ (reg_key <$> regs)) →
    reg_step (c, fl) (c, fl ++ [mkInFlight prefs ua (registrations_to_check admit_registration c prefs regs)])
| reg_finish c fl1 f fl2 workers now r c' :
    finish_registration verify workers now (fl_prefs f) (fl_user_agent f) (fl_to_check f) c = (r, c') →
    reg_step (c, fl1 ++ f :: fl2) (c', fl1 ++ fl2)
| reg_other c c' fl :
    lc_validator_registrations c' = lc_validator_registrations c → reg_step (c, fl) (c', fl).

(** A request that is alone is one of the code's atomic runs. *)
Lemma register_alone workers now prefs ua regs c r c' :
  NoDup (reg_key <$> regs) → regs ≠ [] →
  register_validators admit_registration verify true workers now prefs ua regs c = (r, c') → rtc reg_step (c, []) (c', []).
Proof.
  intros Hnd Hne E. unfold register_validators in E. rewrite bool_decide_false in E by done. cbn in E.
  eapply rtc_l; [by apply (reg_check c [] prefs ua regs)|]. eapply rtc_once.
  by apply (reg_finish c [] (mkInFlight prefs ua (registrations_to_check admit_registration c prefs regs)) [] workers now r c').
Qed.

(** What is in flight still needs its update. *)
Record flight_inv (c : LocalCache) (fl : list InFlight) : Prop := mk_flight_inv {
  fi_keyed : registrations_keyed c;
  fi_keys : NoDup (fl ≫= λ f, reg_key <$> fl_to_check f);
  fi_required : Forall (λ f, Forall (λ reg, registration_update admit_registration c reg (vp_api_key (fl_prefs f)) = Required) (fl_to_check f)) fl
}.

Lemma update_same c c' reg key :
  lc_validator_registrations c' !! reg_key reg = lc_validator_registrations c !! reg_key reg →
  registration_update admit_registration c' reg key = registration_update admit_registration c reg key.
Proof. cbn beta. unfold registration_update. by intros ->. Qed.

Lemma to_check_sublist c prefs regs : registrations_to_check admit_registration c prefs regs `sublist_of` regs.
Proof. unfold registrations_to_check. etrans; [apply sublist_filter|apply sublist_filter]. Qed.

(** What one request may do to an entry. *)
Definition replaces (new old : SignedValidatorRegistrationEntry) : Prop :=
  new = old ∨
  (supersedes new old ∧ verify (ri_registration (re_registration_info new)) = true ∧
   ((∀ resigned e, admit_registration resigned e = resigned) →
    rg_timestamp (svr_message (ri_registration (re_registration_info old)))
      < rg_timestamp (svr_message (ri_registration (re_registration_info new))))).

Lemma replaces_trans : Transitive replaces.
Proof.
  intros x y z [->|(H1 & H2 & H3)] [->|(H4 & H5 & H6)]; [by left|by right..|].
  right. split_and!; [by etrans|done|]. intros Ha. specialize (H3 Ha). specialize (H6 Ha). lia.
Qed.

Lemma flight_finish c fl1 f fl2 workers now r c' :
  flight_inv c (fl1 ++ f :: fl2) →
  finish_registration verify workers now (fl_prefs f) (fl_user_agent f) (fl_to_check f) c = (r, c') →
  flight_inv c' (fl1 ++ fl2) ∧
  ∀ k old, lc_validator_registrations c !! k = Some old →
    ∃ new, lc_validator_registrations c' !! k = Some new ∧ replaces new old.
Proof.
  intros [Hk Hnd Hreq] E. rewrite bind_app, bind_cons in Hnd.
  assert (NoDup (reg_key <$> fl_to_check f)) as Hf by (apply NoDup_app in Hnd as (_ & _ & Hnd); by apply NoDup_app in Hnd as (? & _)).
  rewrite Forall_app, Forall_cons in Hreq. destruct Hreq as (Hr1 & Hrf & Hr2). rewrite Forall_forall in Hrf.
  pose proof (λ k, finish_lookup _ _ _ _ _ _ _ k _ _ Hf E) as Hl. split; [split|].
  - intros k e He. destruct (Hl k) as [El|(reg & _ & _ & Hkey & El)]; rewrite El in He; [by apply Hk|by injection He as <-].
  - rewrite bind_app. apply NoDup_app in Hnd as (H1 & H2 & H3). apply NoDup_app in H3 as (_ & _ & H3).
    apply NoDup_app. split_and!; [done| |done]. intros x Hx Hx2. apply (H2 x Hx), elem_of_app. by right.
  - assert (∀ x, x ∈ (fl1 ++ fl2) ≫= (λ f, reg_key <$> fl_to_check f) → x ∉ reg_key <$> fl_to_check f) as Hdisj.
    { rewrite bind_app. intros x Hx Hxf. apply NoDup_app in Hnd as (_ & H2 & H3). apply NoDup_app in H3 as (_ & H3 & _).
      apply elem_of_app in Hx as [Hx|Hx]; [by apply (H2 x Hx), elem_of_app; left|by apply (H3 x Hxf)]. }
    apply Forall_forall. intros g Hg. assert (Forall (λ reg, registration_update admit_registration c reg (vp_api_key (fl_prefs g)) = Required) (fl_to_check g)) as Hrg.
    { pose proof (Forall_app_2 _ _ _ Hr1 Hr2) as Hall. rewrite Forall_forall in Hall. by apply Hall. }
    rewrite Forall_forall in Hrg. apply Forall_forall. intros reg Hreg. rewrite (update_same c c'); [by apply Hrg|].
    destruct (Hl (reg_key reg)) as [->|(reg' & Hin & _ & Hkey & _)]; [done|]. exfalso. apply (Hdisj (reg_key reg)).
    + apply list_elem_of_bind. exists g. split; [by apply (list_elem_of_fmap_2 reg_key)|done].
    + rewrite <- Hkey. by apply (list_elem_of_fmap_2 reg_key).
  - intros k old Hold. destruct (Hl k) as [El|(reg & Hin & Hv & Hkey & El)]; [exists old; rewrite El; split; [done|by left]|].
    eexists. split; [exact El|]. right. subst k. specialize (Hrf reg Hin). split_and!; [by eapply required_supersedes|done|].
    intros Ha. apply (required_resigned c reg (vp_api_key (fl_prefs f)) old); [|done].
    rewrite <- Hrf. unfold registration_update. case_match; [|done]. by rewrite Ha.
Qed.

Lemma reg_step_replaces x y :
  reg_step x y → flight_inv x.1 x.2 →
  flight_inv y.1 y.2 ∧
  ∀ k old, lc_validator_registrations x.1 !! k = Some old → ∃ new, lc_validator_registrations y.1 !! k = Some new ∧ replaces new old.
Proof.
  intros [c fl prefs ua regs Hnd|c fl1 f fl2 workers now r c' E|c c' fl E] HI; cbn [fst snd] in *.
  - split; [|intros k old Hold; exists old; split; [done|by left]]. destruct HI as [Hk H1 H2].
    pose proof (to_check_sublist c prefs regs) as Hsub. split; [done| |].
    + rewrite bind_app. cbn. rewrite app_nil_r. eapply sublist_NoDup; [exact Hnd|]. apply sublist_app; [done|]. by apply fmap_sublist.
    + apply Forall_app. split; [done|]. apply Forall_singleton. cbn. unfold registrations_to_check. apply Forall_forall.
      by intros reg [? _]%list_elem_of_filter.
  - by apply (flight_finish c fl1 f fl2 workers now r).
  - destruct HI as [Hk H1 H2]. split; [|intros k old Hold; exists old; rewrite E; split; [done|by left]]. split; [|done|].
    + intros k e. rewrite E. apply Hk.
    + eapply Forall_impl; [exact H2|]. intros f Hf. eapply Forall_impl; [exact Hf|]. intros reg Hr. cbn in *.
      rewrite (update_same c c'); [done|by rewrite E].
Qed.

(** C33: However requests interleave, as long as requests in flight at the same
    time, and the registrations of one request, are for different validators, a
    stored registration is only ever replaced by one with a valid signature whose
    timestamp is newer, or by the same message; with the default provider only by
    a strictly newer one. A replayed old registration has no effect. *)
Theorem registrations_never_roll_back c c' fl k old :
  rtc reg_step (c, []) (c', fl) → registrations_keyed c → lc_validator_registrations c !! k = Some old →
  ∃ new, lc_validator_registrations c' !! k = Some new ∧
    (new = old ∨
     (supersedes new old ∧ verify (ri_registration (re_registration_info new)) = true ∧
      ((∀ resigned e, admit_registration resigned e = resigned) →
       rg_timestamp (svr_message (ri_registration (re_registration_info old)))
         < rg_timestamp (svr_message (ri_registration (re_registration_info new)))))).
Proof.
  intros Hr Hk. assert (flight_inv c []) as HI by (split; [done|apply NoDup_nil_2|constructor]).
  assert (∀ x y, rtc reg_step x y → flight_inv x.1 x.2 → ∀ old, lc_validator_registrations x.1 !! k = Some old →
    ∃ new, lc_validator_registrations y.1 !! k = Some new ∧ replaces new old) as H.
  { clear. induction 1 as [x|x y z Hs _ IH]; intros HI old Hold; [exists old; split; [done|by left]|].
    destruct (reg_step_replaces x y Hs HI) as [HI1 H1]. destruct (H1 k old Hold) as (mid & Hmid & Hm).
    destruct (IH HI1 mid Hmid) as (new & Hnew & Hn). exists new. split; [done|]. exact (replaces_trans new mid old Hn Hm). }
  intros Hold. exact (H _ _ Hr HI old Hold).
Qed.
End properties.

(** ** Examples *)

Definition ex_points : BlsPoints := {|
  G1Point := Z; uncompress_in_g1 := λ k, Some k; is_infinity := λ p, p =? 0 |}.

Definition ex_registration (timestamp fee : Z) : SignedValidatorRegistration :=
  mkSignedValidatorRegistration (mkValidatorRegistrationData fee 30 timestamp 7) 0.
Definition ex_known : LocalCache (BP := ex_points) :=
  (local_cache_new (BP := ex_points)) <| lc_known_validators := {[7]} |>.
Definition ex_register (regs : list SignedValidatorRegistration)
    : LocalCache (BP := ex_points) → Result unit ProposerApiError * LocalCache (BP := ex_points) :=
  register_validators (BP := ex_points) (λ resigned _, resigned) (λ _, true) true true 99
    preferences_default_values None regs.
Definition stored_timestamp (c : LocalCache (BP := ex_points)) : option u64 :=
  (λ e, rg_timestamp (svr_message (ri_registration (re_registration_info e)))) <$>
    lc_validator_registrations c !! 7.

(** A newer registration is stored; an older one for the same validator is
    checked and verified while a request for another validator is in flight. *)
Lemma registrations_never_roll_back_witness :
  let other := mkSignedValidatorRegistration (mkValidatorRegistrationData 4 30 50 8) 0 in
  let c := (ex_register [ex_registration 30 4] ex_known).2 in
  let to_check regs := registrations_to_check (BP := ex_points) (λ resigned _, resigned) c preferences_default_values regs in
  let finish regs c := (finish_registration (BP := ex_points) (λ _, true) true 99 preferences_default_values None (to_check regs) c).2 in
  ∃ new, lc_validator_registrations (BP := ex_points) (finish [other] (finish [ex_registration 20 5] c)) !! 7 = Some new ∧
    rg_timestamp (svr_message (ri_registration (re_registration_info new))) = 30.
Proof.
  intros other c to_check finish.
  destruct (registrations_never_roll_back (BP := ex_points) (λ resigned _, resigned) (λ _, true) c
    (finish [other] (finish [ex_registration 20 5] c)) [] 7
    (registration_entry_new 99 (mkValidatorRegistrationInfo (ex_registration 30 4)
       preferences_default_values) None)) as (new & Hnew & _).
  - eapply rtc_l; [apply (reg_check _ _ c [] preferences_default_values None [ex_registration 20 5]), NoDup_singleton|].
    eapply rtc_l; [apply (reg_check _ _ c _ preferences_default_values None [other])|].
    { apply (bool_decide_eq_true_1 _). vm_compute. reflexivity. }
    eapply rtc_l; [apply (reg_finish _ _ c [] (mkInFlight _ _ _) [_] true 99 _ _ (surjective_pairing _))|].
    eapply rtc_once. apply (reg_finish _ _ _ [] (mkInFlight _ _ _) [] true 99 _ _ (surjective_pairing _)).
  - intros k e He. destruct (decide (k = 7)) as [->|Hne]; [vm_compute in He; by injection He as <-|].
    exfalso. assert (lc_validator_registrations c = {[7 := registration_entry_new 99
      (mkValidatorRegistrationInfo (ex_registration 30 4) preferences_default_values) None]}) as Ec by (vm_compute; reflexivity).
    rewrite Ec in He. apply lookup_singleton_Some in He as [<- _]. done.
  - vm_compute. reflexivity.
  - exists new. split; [exact Hnew|]. vm_compute in Hnew. by injection Hnew as <-.
Defined.

(** Two requests that interleave (the second is checked, verified and saved
    while the first waits for its signatures) leave the older registration in
    the cache; so does one request that names a validator twice. *)
Theorem interleaved_registration_rolls_back :
  let newer := ex_registration 30 4 in
  let older := ex_registration 20 5 in
  let checked := registrations_to_check (BP := ex_points) (λ resigned _, resigned) ex_known
    preferences_default_values [older] in
  let after_newer := (ex_register [newer] ex_known).2 in
  let after_older := (finish_registration (BP := ex_points) (λ _, true) true 99
    preferences_default_values None checked after_newer).2 in
  stored_timestamp after_newer = Some 30 ∧ stored_timestamp after_older = Some 20 ∧
  stored_timestamp (ex_register [newer; older] ex_known).2 = Some 20.
Proof. by vm_compute. Qed.
