(* ===== verification/Network.v ===== *)
(** * The relay network

    [relay/src/network]: the service that shares inclusion lists with the peer
    relays ([inclusion_lists/service.rs], [event_handlers.rs]) and the
    connection on which a peer introduces itself and sends messages
    ([message_handler.rs], [messages.rs]). *)

From S2P Require Import Prelude Types Submission ApiError LocalCache InclusionLists.

(** ** Messages and events *)

Record InclusionListMessageInfo := mkInclusionListMessageInfo {
  lm_slot : u64;
  lm_inclusion_list : InclusionList
}.

Inductive InclusionListMessage :=
| LocalMessage (info : InclusionListMessageInfo)
| SharedMessage (info : InclusionListMessageInfo).

(** [NetworkMessage] has one variant. *)
Inductive NetworkMessage := MInclusionList (m : InclusionListMessage).

(** A [oneshot::Sender] is named by a number; sending on it is an output. *)
Record InclusionListEventInfo := mkInclusionListEventInfo {
  le_slot : u64;
  le_inclusion_list : InclusionList;
  le_result_tx : Z
}.

Inductive InclusionListEvent :=
| LocalEvent (info : InclusionListEventInfo)
| SharedEvent (info : InclusionListEventInfo)
| FinalEvent (info : InclusionListEventInfo).

Inductive NetworkEvent :=
| PeerMessage (sender : Pubkey) (message : NetworkMessage)
| EInclusionList (event : InclusionListEvent).

(** What a handler does besides updating the service: an answer on a
    [result_tx], a broadcast to every connection, a task that sleeps and then
    sends an event back to the service. Durations are milliseconds. *)
Inductive NetworkOutput :=
| Answer (result_tx : Z) (result : option InclusionList)
| Broadcast (m : NetworkMessage)
| After (sleep_time : Z) (event : InclusionListEvent).

(** ** The inclusion-list service *)

Record MultiRelayInclusionListsService := mkInclusionListsService {
  cutoff_1 : Z;
  cutoff_2 : Z;
  last_slot : u64;
  local_ils : gmap Pubkey (u64 * InclusionList);
  shared_ils : gmap Pubkey (u64 * InclusionList)
}.
#[export] Instance eta_InclusionListsService : Eta MultiRelayInclusionListsService := λ r,
  mkInclusionListsService (cutoff_1 r) (cutoff_2 r) (last_slot r) (local_ils r) (shared_ils r).

Definition inclusion_lists_service_new (cutoff_1_ms cutoff_2_ms : Z) :
    MultiRelayInclusionListsService :=
  mkInclusionListsService cutoff_1_ms cutoff_2_ms 0 ∅ ∅.

Section service.
Context `{HO : HashOrder, ES : EthSpec, TD : TxDecoder, LR : ListRoot}.
Abbreviation Handler := (Comp MultiRelayInclusionListsService NetworkOutput unit).

(** [into_slot] is [chain_info.duration_into_slot] at the time of the call. *)
Definition handle_local_inclusion_list (into_slot : u64 → option Z)
    (event : InclusionListEventInfo) : Handler :=
  s ← get;
  if le_slot event <? last_slot s
  then emit [Answer (le_result_tx event) (Some (le_inclusion_list event))]
  else
    match into_slot (le_slot event) with
    | None => emit [Answer (le_result_tx event) (Some (le_inclusion_list event))]
    | Some duration_into_slot =>
        let sleep_time := sat_sub (cutoff_1 s) duration_into_slot in
        if sleep_time =? 0
        then emit [Answer (le_result_tx event) (Some (le_inclusion_list event))]
        else
          modify (λ s, s <| last_slot := le_slot event |>);;
          emit [Broadcast (MInclusionList (LocalMessage
                  (mkInclusionListMessageInfo (le_slot event) (le_inclusion_list event))))];;
          emit [After sleep_time (SharedEvent event)]
    end.

Definition handle_shared_inclusion_list (into_slot : u64 → option Z)
    (event : InclusionListEventInfo) : Handler :=
  s ← get;
  if le_slot event <? last_slot s
  then emit [Answer (le_result_tx event) (Some (le_inclusion_list event))]
  else
    let slot := le_slot event in
    let shared_il :=
      compute_shared_inclusion_list (local_ils s) slot (le_inclusion_list event) in
    modify (λ s, s <| local_ils := ∅ |>);;
    emit [Broadcast (MInclusionList (SharedMessage (mkInclusionListMessageInfo slot shared_il)))];;
    let duration_into_slot := into_slot slot in
    let sleep_time := sat_sub (cutoff_2 s) (default 0 duration_into_slot) in
    if sleep_time =? 0
    then emit [Answer (le_result_tx event) (Some shared_il)]
    else
      let settle_event := mkInclusionListEventInfo slot shared_il (le_result_tx event) in
      emit [After sleep_time (FinalEvent settle_event)].

Definition handle_final_inclusion_list (event : InclusionListEventInfo) : Handler :=
  s ← get;
  if le_slot event <? last_slot s
  then emit [Answer (le_result_tx event) (Some (le_inclusion_list event))]
  else
    match compute_final_inclusion_list (shared_ils s) (le_slot event) (le_inclusion_list event) with
    | None => panic
    | Some (final_il, drained) =>
        modify (λ s, s <| shared_ils := drained |>);;
        modify (λ s, s <| shared_ils := ∅ |>);;
        emit [Answer (le_result_tx event) (Some final_il)]
    end.

Definition handle (into_slot : u64 → option Z) (event : InclusionListEvent) : Handler :=
  match event with
  | LocalEvent info => handle_local_inclusion_list into_slot info
  | SharedEvent info => handle_shared_inclusion_list into_slot info
  | FinalEvent info => handle_final_inclusion_list info
  end.

Definition handle_peer_local_inclusion_list (sender : Pubkey)
    (il_msg : InclusionListMessageInfo) : Handler :=
  s ← get;
  if lm_slot il_msg <? last_slot s then mret tt
  else modify (λ s, s <| local_ils ::= insert sender (lm_slot il_msg, lm_inclusion_list il_msg) |>).

Definition handle_peer_shared_inclusion_list (sender : Pubkey)
    (il_msg : InclusionListMessageInfo) : Handler :=
  s ← get;
  if lm_slot il_msg <? last_slot s then mret tt
  else modify (λ s, s <| shared_ils ::= insert sender (lm_slot il_msg, lm_inclusion_list il_msg) |>).

Definition handle_peer_message (sender : Pubkey) (il_msg : InclusionListMessage) : Handler :=
  match il_msg with
  | LocalMessage info => handle_peer_local_inclusion_list sender info
  | SharedMessage info => handle_peer_shared_inclusion_list sender info
  end.

(** The body of [run_event_handling_loop]. *)
Definition handle_network_event (into_slot : u64 → option Z) (event : NetworkEvent) : Handler :=
  match event with
  | EInclusionList event => handle into_slot event
  | PeerMessage sender (MInclusionList il_msg) => handle_peer_message sender il_msg
  end.

(** The loop over the events of the channel, each with the clock at the time it
    is handled. *)
Fixpoint run_event_handling_loop (events : list ((u64 → option Z) * NetworkEvent)) : Handler :=
  match events with
  | [] => mret tt
  | (into_slot, event) :: rest =>
      handle_network_event into_slot event;; run_event_handling_loop rest
  end.

(** [RelayNetworkManager::try_share_inclusion_list]: the event it sends, unless
    the network is off or the channel is full. *)
Definition try_share_inclusion_list (is_enabled channel_full : bool) (slot : u64)
    (inclusion_list : InclusionList) (result_tx : Z) : option NetworkEvent :=
  if negb is_enabled then None
  else
    let event := EInclusionList (LocalEvent
      (mkInclusionListEventInfo slot inclusion_list result_tx)) in
    if channel_full then None else Some event.
End service.

(** ** Every list shared is answered once

    A node is the service with the tasks that sleep until a cutoff. *)

Definition event_info (e : InclusionListEvent) : InclusionListEventInfo :=
  match e with LocalEvent i | SharedEvent i | FinalEvent i => i end.

Definition event_result (e : InclusionListEvent) : Z := le_result_tx (event_info e).

(** The cutoffs an event has still to pass, plus one. *)
Definition event_weight (e : InclusionListEvent) : nat :=
  match e with LocalEvent _ => 3 | SharedEvent _ => 2 | FinalEvent _ => 1 end.

Definition answered (o : list NetworkOutput) : list Z :=
  omap (λ x, match x with Answer t _ => Some t | _ => None end) o.
Definition spawned (o : list NetworkOutput) : list InclusionListEvent :=
  omap (λ x, match x with After _ e => Some e | _ => None end) o.

Definition weight (tasks : list InclusionListEvent) : nat := sum_list (event_weight <$> tasks).

Record Node := mkNode {
  n_service : MultiRelayInclusionListsService;
  n_tasks : list InclusionListEvent
}.

(** What can happen at a node: a list is shared through the API, the [i]-th
    sleeping task wakes up, a message of a peer arrives. *)
Inductive NodeOp :=
| Share (into_slot : u64 → option Z) (info : InclusionListEventInfo)
| Wake (into_slot : u64 → option Z) (i : nat)
| Receive (sender : Pubkey) (message : NetworkMessage).

Section nodes.
Context `{HO : HashOrder, ES : EthSpec, TD : TxDecoder, LR : ListRoot}.
Implicit Types (n : Node) (s : MultiRelayInclusionListsService).

(** Handles an event and starts the tasks it spawns. *)
Definition node_event (into_slot : u64 → option Z) (e : NetworkEvent) n :
    option (Node * list NetworkOutput) :=
  match handle_network_event into_slot e (n_service n) with
  | Some (_, s, o) => Some (mkNode s (n_tasks n ++ spawned o), o)
  | None => None
  end.

Definition node_op (op : NodeOp) n : option (Node * list NetworkOutput) :=
  match op with
  | Share into_slot info => node_event into_slot (EInclusionList (LocalEvent info)) n
  | Wake into_slot i =>
      match n_tasks n !! i with
      | Some e =>
          node_event into_slot (EInclusionList e) (mkNode (n_service n) (delete i (n_tasks n)))
      | None => Some (n, [])
      end
  | Receive sender message => node_event (λ _, None) (PeerMessage sender message) n
  end.

Fixpoint node_run (ops : list NodeOp) n : option (Node * list NetworkOutput) :=
  match ops with
  | [] => Some (n, [])
  | op :: ops' =>
      r ← node_op op n;
      r' ← node_run ops' r.1;
      Some (r'.1, r.2 ++ r'.2)
  end.

Definition shares (ops : list NodeOp) : list Z :=
  omap (λ op, match op with Share _ info => Some (le_result_tx info) | _ => None end) ops.

(** The one answer or task an event leads to. *)
Lemma handle_step into_slot e s :
  wp (handle into_slot e) (λ _ _ o,
    answered o ++ (event_result <$> spawned o) = [event_result e] ∧
    (weight (spawned o) < event_weight e)%nat) s.
Proof.
  destruct e as [i|i|i]; simpl.
  - unfold handle_local_inclusion_list. wp_steps; unfold weight; simpl; split; try done; lia.
  - unfold handle_shared_inclusion_list. wp_steps; unfold weight; simpl; split; try done; lia.
  - unfold handle_final_inclusion_list. wp_step. wp_step. cbv beta. wp_step.
    + wp_steps. unfold weight. simpl. split; [done|lia].
    + destruct (final_chosen (shared_ils s) (le_slot i) (le_inclusion_list i)) as (final & -> & _).
      wp_steps. unfold weight. simpl. split; [done|lia].
Qed.

Lemma handle_peer_message_quiet sender m s :
  wp (handle_peer_message sender m) (λ _ _ o, o = []) s.
Proof.
  destruct m; simpl; unfold handle_peer_local_inclusion_list, handle_peer_shared_inclusion_list;
    by wp_steps.
Qed.


Definition waiting n : list Z := event_result <$> n_tasks n.

Lemma node_event_il into_slot e n :
  ∃ n' o, node_event into_slot (EInclusionList e) n = Some (n', o) ∧
    answered o ++ waiting n' ≡ₚ event_result e :: waiting n ∧
    (weight (n_tasks n') < event_weight e + weight (n_tasks n))%nat.
Proof.
  unfold node_event. pose proof (handle_step into_slot e (n_service n)) as H.
  unfold wp in H. simpl. destruct (handle _ _ _) as [[[u s'] o]|]; [|done].
  destruct H as [Ha Hw]. eexists _, _. split; [done|]. unfold waiting, weight. simpl.
  rewrite !fmap_app. split.
  - rewrite (Permutation_app_comm (event_result <$> n_tasks n)), app_assoc, Ha. done.
  - rewrite sum_list_with_app. unfold weight in Hw. lia.
Qed.

Lemma node_op_total op n :
  ∃ n' o, node_op op n = Some (n', o) ∧
    answered o ++ waiting n' ≡ₚ shares [op] ++ waiting n.
Proof.
  destruct op as [into info|into i|sender [m]]; simpl.
  - destruct (node_event_il into (LocalEvent info) n) as (n' & o & ? & Hp & _).
    exists n', o. done.
  - destruct (n_tasks n !! i) as [e|] eqn:Hi.
    + destruct (node_event_il into e (mkNode (n_service n) (delete i (n_tasks n))))
        as (n' & o & ? & Hp & _).
      exists n', o. split; [done|]. rewrite Hp. unfold waiting. simpl.
      rewrite <- fmap_cons. by rewrite <- (delete_Permutation (n_tasks n) i e Hi).
    + by exists n, [].
  - unfold node_event. simpl. pose proof (handle_peer_message_quiet sender m (n_service n)) as H.
    unfold wp in H. destruct (handle_peer_message _ _ _) as [[[u s'] o]|]; [|done]. subst o.
    eexists _, _. split; [done|]. unfold waiting. simpl. by rewrite app_nil_r.
Qed.

Lemma shares_cons op ops : shares (op :: ops) = shares [op] ++ shares ops.
Proof. by destruct op. Qed.

Lemma node_conserves ops n :
  ∃ n' o, node_run ops n = Some (n', o) ∧
    answered o ++ waiting n' ≡ₚ shares ops ++ waiting n.
Proof.
  revert n. induction ops as [|op ops IH]; intros n; [by exists n, []|].
  destruct (node_op_total op n) as (n1 & o1 & E1 & H1).
  destruct (IH n1) as (n2 & o2 & E2 & H2). exists n2, (o1 ++ o2).
  rewrite shares_cons. cbn [node_run]. rewrite E1. cbn [mbind option_bind fst snd].
  rewrite E2. split; [done|]. unfold answered at 1. rewrite omap_app, <- app_assoc.
  fold (answered o1) (answered o2). rewrite H2.
  rewrite (Permutation_app_comm (shares ops)), app_assoc, H1, <- !app_assoc.
  f_equiv. apply Permutation_app_comm.
Qed.


(** C24: Whatever a node is asked and whatever its peers send, handling
    it does not panic, and every inclusion list shared through the API is
    answered exactly once or still waits in exactly one sleeping task. *)
Theorem shared_lists_answered_once ops n :
  ∃ n' o, node_run ops n = Some (n', o) ∧
    answered o ++ waiting n' ≡ₚ shares ops ++ waiting n.
Proof. apply node_conserves. Qed.

(** A schedule that only wakes tasks that sleep. *)
Definition wakes op n : Prop :=
  match op with Wake _ i => (i < length (n_tasks n))%nat | _ => False end.
Fixpoint all_wake (ops : list NodeOp) n : Prop :=
  match ops with
  | [] => True
  | op :: ops' => wakes op n ∧ ∀ n' o, node_op op n = Some (n', o) → all_wake ops' n'
  end.

Lemma weight_delete tasks i e :
  tasks !! i = Some e → weight tasks = (event_weight e + weight (delete i tasks))%nat.
Proof.
  intros Hi. unfold weight. rewrite delete_take_drop.
  rewrite <- (take_drop_middle tasks i e Hi) at 1.
  rewrite !fmap_app, !sum_list_with_app, fmap_cons. cbn [sum_list_with]. unfold id. lia.
Qed.

Lemma wake_decreases op n n' o :
  wakes op n → node_op op n = Some (n', o) → (weight (n_tasks n') < weight (n_tasks n))%nat.
Proof.
  destruct op as [|into i|]; simpl; try done. intros [e Hi]%lookup_lt_is_Some_2. rewrite Hi.
  destruct (node_event_il into e (mkNode (n_service n) (delete i (n_tasks n))))
    as (n1 & o1 & E & _ & Hw).
  rewrite E. intros [= <- <-]. rewrite (weight_delete _ _ _ Hi). done.
Qed.

Lemma shares_wakes ops n n' o :
  all_wake ops n → node_run ops n = Some (n', o) → shares ops = [].
Proof.
  revert n n' o. induction ops as [|op ops IH]; intros n n' o; [done|].
  intros [Hw Hrest]. cbn [node_run]. intros (r & E & H)%bind_Some.
  apply bind_Some in H as (r' & E' & _). destruct r as [n1 o1], r' as [n2 o2].
  rewrite shares_cons, (IH n1 n2 o2); [by destruct op|by eapply Hrest|done].
Qed.

(** C25: Sharing ends: waking the sleeping tasks, in any order and
    at any times, takes at most as many steps as the tasks have cutoffs left,
    and once no task sleeps every list that waited has been answered once. *)
Theorem sharing_terminates ops n :
  all_wake ops n →
  ∃ n' o, node_run ops n = Some (n', o) ∧
    (length ops + weight (n_tasks n') ≤ weight (n_tasks n))%nat ∧
    (n_tasks n' = [] → answered o ≡ₚ waiting n).
Proof.
  intros Hall. destruct (node_conserves ops n) as (n' & o & E & Hp).
  exists n', o. split; [done|]. split.
  - clear Hp. revert n n' o Hall E. induction ops as [|op ops IH]; intros n n' o Hall E.
    { injection E as <- <-. simpl. lia. }
    destruct Hall as [Hw Hrest]. cbn [node_run] in E. apply bind_Some in E as ([n1 o1] & E1 & E).
    apply bind_Some in E as ([n2 o2] & E2 & [= <- <-]).
    pose proof (wake_decreases _ _ _ _ Hw E1). specialize (IH n1 n2 o2 (Hrest _ _ E1) E2).
    simpl. lia.
  - intros Hn. rewrite (shares_wakes _ _ _ _ Hall E) in Hp. unfold waiting in Hp at 1.
    rewrite Hn in Hp. simpl in Hp. by rewrite app_nil_r in Hp.
Qed.
End nodes.

(** ** Relays that hear each other agree *)

(** The lists a vote map holds for a slot. *)
Definition votes_in (slot : u64) (votes : gmap Pubkey (u64 * InclusionList)) :
    gmap Pubkey InclusionList :=
  omap (λ v, if v.1 =? slot then Some v.2 else None) votes.

Lemma lists_of_votes `{HO : HashOrder} slot votes :
  lists_of slot (hash_values votes) ≡ₚ (map_to_list (votes_in slot votes)).*2.
Proof.
  unfold lists_of. rewrite hash_values_perm. unfold votes_in.
  induction votes as [|k v m Hk IH] using map_ind; [by rewrite omap_empty, map_to_list_empty|].
  rewrite (map_to_list_insert m) by done. rewrite fmap_cons. simpl.
  destruct (v.1 =? slot) eqn:E.
  - rewrite (omap_insert_Some _ m k v v.2) by (by rewrite E).
    rewrite map_to_list_insert by (by rewrite lookup_omap, Hk). simpl. by rewrite IH.
  - rewrite omap_insert_None by (by rewrite E).
    rewrite delete_id; [done|]. by rewrite lookup_omap, Hk.
Qed.

(** The shared list of the relays that hold the lists [ls]: the greedy one. *)
Definition agreed `{TD : TxDecoder} (ls : list InclusionList) : InclusionList :=
  mkInclusionList
    (take_fitting INCLUSION_LIST_MAX_BYTES (ranking (HO := list_order) (txs_of ls))).

Section round.
Context `{HO : HashOrder, ES : EthSpec, TD : TxDecoder, LR : ListRoot}.
(** The relays with the list each starts from, the relay that is followed, the
    slot. *)
Context (relays : gmap Pubkey InclusionList) (own : Pubkey) (slot : u64).

Definition everyone : list InclusionList := (map_to_list relays).*2.

Hypothesis room : INCLUSION_LIST_MAX_BYTES ≤ max_transactions_per_payload.
Hypothesis same_bytes : canonical decode_tx (txs_of everyone).

(** A message of this round: a peer's own list, or the list agreed on. *)
Definition fair (op : NodeOp) : Prop :=
  match op with
  | Receive q (MInclusionList (LocalMessage i)) =>
      q ≠ own ∧ lm_slot i = slot ∧ relays !! q = Some (lm_inclusion_list i)
  | Receive q (MInclusionList (SharedMessage i)) =>
      q ≠ own ∧ lm_slot i = slot ∧ lm_inclusion_list i = agreed everyone
  | _ => False
  end.

Definition local_from (q : Pubkey) (op : NodeOp) : Prop :=
  match op with Receive q' (MInclusionList (LocalMessage _)) => q' = q | _ => False end.

(** The votes held for the slot are votes of this round. *)
Record round_ok (s : MultiRelayInclusionListsService) : Prop := {
  ro_slot : last_slot s ≤ slot;
  ro_local : ∀ q il, local_ils s !! q = Some (slot, il) → q ≠ own ∧ relays !! q = Some il;
  ro_shared : ∀ q il, shared_ils s !! q = Some (slot, il) → il = agreed everyone
}.

Definition told_local (s : MultiRelayInclusionListsService) (q : Pubkey) : Prop :=
  ∃ il, relays !! q = Some il ∧ local_ils s !! q = Some (slot, il).

Lemma peer_local_stored sender i s :
  last_slot s ≤ lm_slot i →
  handle_peer_local_inclusion_list sender i s =
    Some (tt, s <| local_ils ::= insert sender (lm_slot i, lm_inclusion_list i) |>, []).
Proof.
  intros H. unfold handle_peer_local_inclusion_list, mbind, comp_bind, get.
  by rewrite (proj2 (Z.ltb_ge _ _) H).
Qed.

Lemma peer_shared_stored sender i s :
  last_slot s ≤ lm_slot i →
  handle_peer_shared_inclusion_list sender i s =
    Some (tt, s <| shared_ils ::= insert sender (lm_slot i, lm_inclusion_list i) |>, []).
Proof.
  intros H. unfold handle_peer_shared_inclusion_list, mbind, comp_bind, get.
  by rewrite (proj2 (Z.ltb_ge _ _) H).
Qed.

Lemma receive_step op s ts :
  fair op → round_ok s →
  ∃ s', node_op op (mkNode s ts) = Some (mkNode s' ts, []) ∧ round_ok s' ∧
    cutoff_2 s' = cutoff_2 s ∧
    (∀ q, told_local s q ∨ local_from q op → told_local s' q).
Proof.
  intros Hf [Hs Hl Hsh].
  destruct op as [| |q [[i|i]]]; try done; destruct i as [sl il]; simpl in Hf;
    destruct Hf as (Hq & -> & Hil).
  all: unfold node_op, node_event, handle_network_event, handle_peer_message; cbn [n_service n_tasks].
  - rewrite peer_local_stored by done. cbn [spawned omap list_omap]. rewrite app_nil_r.
    eexists. split; [done|]. unfold told_local. cbn. split_and!.
    + split; cbn; [done| |done]. intros q' il' [[-> [= ->]]|[? ?]]%lookup_insert_Some; eauto.
    + done.
    + intros q' Hq'. destruct (decide (q = q')) as [<-|Hne].
      * exists il. by rewrite lookup_insert_eq.
      * rewrite lookup_insert_ne by done. by destruct Hq'.
  - rewrite peer_shared_stored by done. cbn [spawned omap list_omap]. rewrite app_nil_r.
    eexists. split; [done|]. unfold told_local. cbn. split_and!.
    + split; cbn; [done..|]. intros q' il' [[-> [= ->]]|[? ?]]%lookup_insert_Some; eauto.
    + done.
    + naive_solver.
Qed.


Lemma ranking_agrees (HO1 HO2 : HashOrder) all all' :
  canonical decode_tx all → all ≡ₚ all' → ranking (HO := HO1) all = ranking (HO := HO2) all'.
Proof.
  intros Hc Hp. unfold ranking. rewrite <- (tally_perm _ _ _ Hc Hp). f_equal.
  apply (sort_by_unique tx_order); [|by rewrite (@hash_iter_perm HO1), (@hash_iter_perm HO2)].
  intros x y Hx Hy He%tx_order_eq. by apply (hash_iter_key (HO := HO1) (foldl (tally decode_tx) ∅ all)).
Qed.

(** With every peer heard, the shared list is the one agreed on. *)
Lemma shared_is_agreed s il :
  round_ok s → relays !! own = Some il →
  (∀ q, q ≠ own → is_Some (relays !! q) → told_local s q) →
  compute_shared_inclusion_list (local_ils s) slot il = agreed everyone.
Proof.
  intros [_ Hl _] Hown Hall.
  assert (votes_in slot (local_ils s) = delete own relays) as Hv.
  { apply map_eq. intros q. unfold votes_in. rewrite lookup_omap.
    destruct (decide (q = own)) as [->|Hq].
    - rewrite lookup_delete_eq. destruct (local_ils s !! own) as [[sl l]|] eqn:E; [|done]. simpl.
      destruct (Z.eqb_spec sl slot) as [->|]; [|done]. by destruct (Hl _ _ E).
    - rewrite lookup_delete_ne by done. destruct (relays !! q) as [l|] eqn:Er.
      + destruct (Hall q Hq) as (l' & ? & E); [by eauto|]. rewrite E. simpl.
        rewrite Z.eqb_refl. congruence.
      + destruct (local_ils s !! q) as [[sl l]|] eqn:E; [|done]. simpl.
        destruct (Z.eqb_spec sl slot) as [->|]; [|done]. destruct (Hl _ _ E). congruence. }
  assert (lists_for (local_ils s) slot il ≡ₚ everyone) as Hp.
  { unfold lists_for, everyone. rewrite lists_of_votes, Hv.
    rewrite <- Permutation_cons_append.
    by rewrite <- (map_to_list_delete relays own il Hown). }
  unfold agreed. rewrite <- (ranking_agrees HO list_order _ _
    (canonical_perm _ _ _ (txs_of_perm _ _ (symmetry Hp)) same_bytes) (txs_of_perm _ _ Hp)).
  rewrite <- shared_is_greedy by done. by destruct (compute_shared_inclusion_list _ _ _).
Qed.

(** When everyone shares the same list, that list is final. *)
Lemma final_is_agreed s :
  round_ok s →
  compute_final_inclusion_list (shared_ils s) slot (agreed everyone) = Some (agreed everyone, ∅).
Proof.
  intros [_ _ Hsh].
  assert (∀ l, l ∈ lists_for (shared_ils s) slot (agreed everyone) → l = agreed everyone) as Heq.
  { intros l. unfold lists_for. rewrite elem_of_app, list_elem_of_singleton.
    intros [Hl|?]; [|done]. apply list_elem_of_omap in Hl as ([sl l'] & Hin & E). simpl in E.
    destruct (Z.eqb_spec sl slot) as [->|]; [|done]. injection E as ->.
    apply elem_of_hash_values in Hin as [q Hq]. eauto. }
  destruct (final_chosen (shared_ils s) slot (agreed everyone)) as (final & E & Hin).
  by rewrite E, (Heq final Hin).
Qed.


Abbreviation info il tx := (mkInclusionListEventInfo slot il tx).

Lemma share_starts c d s il tx :
  last_slot s ≤ slot → c slot = Some d → d < cutoff_1 s →
  ∃ t, node_op (Share c (info il tx)) (mkNode s []) =
    Some (mkNode (s <| last_slot := slot |>) [SharedEvent (info il tx)],
          [Broadcast (MInclusionList (LocalMessage (mkInclusionListMessageInfo slot il)));
           After t (SharedEvent (info il tx))]).
Proof.
  intros Hs Hc Hd. eexists. unfold node_op, node_event. cbn [handle_network_event handle].
  unfold handle_local_inclusion_list, mbind, comp_bind, get. cbn [le_slot n_service].
  rewrite (proj2 (Z.ltb_ge _ _) Hs), Hc, (proj2 (Z.eqb_neq _ 0)); [reflexivity|].
  unfold sat_sub. lia.
Qed.

Lemma wake_shares c s il tx :
  last_slot s ≤ slot →
  let shared := compute_shared_inclusion_list (local_ils s) slot il in
  ∃ o, node_op (Wake c 0) (mkNode s [SharedEvent (info il tx)]) =
    Some (mkNode (s <| local_ils := ∅ |>) (if sat_sub (cutoff_2 s) (default 0 (c slot)) =? 0 then [] else [FinalEvent (info shared tx)]),
          Broadcast (MInclusionList (SharedMessage (mkInclusionListMessageInfo slot shared))) :: o) ∧
    if sat_sub (cutoff_2 s) (default 0 (c slot)) =? 0 then o = [Answer tx (Some shared)]
    else ∃ t, o = [After t (FinalEvent (info shared tx))].
Proof.
  intros Hs shared. unfold node_op, node_event. cbn [n_tasks lookup list_lookup].
  cbn [handle_network_event handle].
  unfold handle_shared_inclusion_list, mbind, comp_bind, get. cbn [le_slot n_service].
  rewrite (proj2 (Z.ltb_ge _ _) Hs). unfold modify, emit.
  destruct (sat_sub (cutoff_2 s) (default 0 (c slot)) =? 0); eexists; (split; [reflexivity|]); [done|by eexists].
Qed.

Lemma wake_settles c s il tx final m :
  last_slot s ≤ slot → compute_final_inclusion_list (shared_ils s) slot il = Some (final, m) →
  node_op (Wake c 0) (mkNode s [FinalEvent (info il tx)]) =
    Some (mkNode (s <| shared_ils := ∅ |>) [], [Answer tx (Some final)]).
Proof.
  intros Hs Hf. unfold node_op, node_event. cbn [n_tasks lookup list_lookup].
  cbn [handle_network_event handle].
  unfold handle_final_inclusion_list, mbind, comp_bind, get. cbn [le_slot n_service].
  rewrite (proj2 (Z.ltb_ge _ _) Hs). cbn [le_inclusion_list]. rewrite Hf. reflexivity.
Qed.
End round.

Lemma sharing_terminates_witness :
  ∃ n' o,
    node_run (HO := list_order) (ES := mainnet) (TD := ex_decoder)
      (LR := λ il, total (il_txs il)) [Wake (λ _, Some 9000) 0]
      (mkNode (inclusion_lists_service_new 2000 4000)
         [SharedEvent (mkInclusionListEventInfo 5 (mkInclusionList []) 77)]) = Some (n', o) ∧
    (1 + weight (n_tasks n') ≤ 2)%nat.
Proof.
  destruct (sharing_terminates (HO := list_order) (ES := mainnet) (TD := ex_decoder)
    (LR := λ il, total (il_txs il)) [Wake (λ _, Some 9000) 0]
    (mkNode (inclusion_lists_service_new 2000 4000)
       [SharedEvent (mkInclusionListEventInfo 5 (mkInclusionList []) 77)]))
    as (n' & o & E & Hw & _).
  - split; [simpl; lia|done].
  - exists n', o. split; [exact E|exact Hw].
Defined.

(** Another order in which a hash map may iterate. *)
#[program] Definition reverse_order : HashOrder :=
  {| hash_iter := λ K V _ _ m, reverse (map_to_list m) |}.
Next Obligation. intros K V ? ? m. apply reverse_Permutation. Qed.

(** Where two byte strings decode to one transaction, the hash order
    decides which of them a relay lists, so that relays which heard the same
    lists broadcast different ones. Decoding reads a transaction off the front
    of the bytes; what follows it is not looked at. *)
Theorem trailing_bytes_split_relays :
  let votes : gmap Pubkey (u64 * InclusionList) :=
    {[ 1 := (5, mkInclusionList [[10; 0]]); 2 := (5, mkInclusionList [[10; 1]]) ]} in
  compute_shared_inclusion_list (HO := list_order) (ES := mainnet) (TD := ex_decoder)
    votes 5 (mkInclusionList []) ≠
  compute_shared_inclusion_list (HO := reverse_order) (ES := mainnet) (TD := ex_decoder)
    votes 5 (mkInclusionList []).
Proof. vm_compute. discriminate. Qed.
