(* ===== verification/RelayRounds.v ===== *)
(** * A round of inclusion lists among relays

    Several relays run the inclusion-list service of
    [crates/relay/src/network/inclusion_lists] for one slot, each with its own
    hash order, and hear what the others broadcast, in any order and at any time. *)

From S2P Require Import Prelude Types Submission InclusionLists Network.

Section rounds.
Context `{ES : EthSpec, TD : TxDecoder, LR : ListRoot}.
(** The relays with the list each starts from, the hash order of each, the slot. *)
Context (relays : gmap Pubkey InclusionList) (order : Pubkey → HashOrder) (slot : u64).

Abbreviation op_of q := (node_op (HO := order q)) (only parsing).
Abbreviation shared_message := (MInclusionList (SharedMessage (mkInclusionListMessageInfo slot (agreed (everyone relays))))) (only parsing).
Abbreviation local_message il := (MInclusionList (LocalMessage (mkInclusionListMessageInfo slot il))) (only parsing).

(** A relay that starts the round: it holds no vote for the slot yet. *)
Definition fresh (n : Node) : Prop :=
  n_tasks n = [] ∧ last_slot (n_service n) ≤ slot ∧
  (∀ q il, local_ils (n_service n) !! q ≠ Some (slot, il)) ∧ (∀ q il, shared_ils (n_service n) !! q ≠ Some (slot, il)).

(** Relay [q] has heard the list of [p]. *)
Definition heard (hist : list (Pubkey * NodeOp)) (q p : Pubkey) : Prop :=
  ∃ m, (q, Receive p (MInclusionList (LocalMessage m))) ∈ hist.

(** What may happen next at relay [q]: it shares its own list, once and before
    the first cutoff; it receives what another relay has broadcast; one of its
    sleeping tasks wakes, the one of the first cutoff after the lists of all other
    relays were heard. *)
Definition may_happen (hist : list (Pubkey * NodeOp)) (outs : list (Pubkey * NetworkOutput)) (q : Pubkey) (n : Node)
    (op : NodeOp) : Prop :=
  match op with
  | Share c e =>
      le_slot e = slot ∧ relays !! q = Some (le_inclusion_list e) ∧ (∀ c' e', (q, Share c' e') ∉ hist) ∧
      ∃ d, c slot = Some d ∧ d < cutoff_1 (n_service n)
  | Receive p m => p ≠ q ∧ (p, Broadcast m) ∈ outs
  | Wake _ i => ∀ e, n_tasks n !! i = Some (SharedEvent e) → ∀ p, p ≠ q → is_Some (relays !! p) → heard hist q p
  end.

(** The rounds of the relays: what was done where, the relays, what they put out. *)
Inductive round_run : list (Pubkey * NodeOp) → gmap Pubkey Node → list (Pubkey * NetworkOutput) → Prop :=
| round_start nodes : dom nodes = dom relays → map_Forall (λ _, fresh) nodes → round_run [] nodes []
| round_step hist nodes outs q n op n' o :
    round_run hist nodes outs → nodes !! q = Some n → may_happen hist outs q n op → op_of q op n = Some (n', o) →
    round_run (hist ++ [(q, op)]) (<[q := n']> nodes) (outs ++ (pair q <$> o)).

Hypothesis room : INCLUSION_LIST_MAX_BYTES ≤ max_transactions_per_payload.
Hypothesis same_bytes : canonical decode_tx (txs_of (everyone relays)).

(** What a relay has put out: its own list, the agreed one, the agreed answer. *)
Definition output_ok (q : Pubkey) (o : NetworkOutput) : Prop :=
  match o with
  | Answer _ r => r = Some (agreed (everyone relays))
  | Broadcast (MInclusionList (LocalMessage i)) => lm_slot i = slot ∧ relays !! q = Some (lm_inclusion_list i)
  | Broadcast (MInclusionList (SharedMessage i)) => lm_slot i = slot ∧ lm_inclusion_list i = agreed (everyone relays)
  | After _ _ => True
  end.

Definition shared_by (hist : list (Pubkey * NodeOp)) (q : Pubkey) : Prop := ∃ c e, (q, Share c e) ∈ hist.

Abbreviation info il tx := (mkInclusionListEventInfo slot il tx) (only parsing).

(** Where a relay is in the round: before its share, waiting for the first or the
    second cutoff, or done. *)
Definition phase (hist : list (Pubkey * NodeOp)) (outs : list (Pubkey * NetworkOutput)) (q : Pubkey) (n : Node) : Prop :=
  match n_tasks n with
  | [] => (¬ shared_by hist q ∧ ∀ p, heard hist q p → told_local relays slot (n_service n) p) ∨
          (shared_by hist q ∧ ∃ tx, (q, Answer tx (Some (agreed (everyone relays)))) ∈ outs)
  | [SharedEvent e] => shared_by hist q ∧ (∃ il tx, e = info il tx ∧ relays !! q = Some il) ∧
      ∀ p, heard hist q p → told_local relays slot (n_service n) p
  | [FinalEvent e] => shared_by hist q ∧ ∃ tx, e = info (agreed (everyone relays)) tx
  | _ => False
  end.

Definition relay_ok (hist : list (Pubkey * NodeOp)) (outs : list (Pubkey * NetworkOutput)) (q : Pubkey) (n : Node) : Prop :=
  round_ok relays q slot (n_service n) ∧ phase hist outs q n.

Definition round_inv (hist : list (Pubkey * NodeOp)) (nodes : gmap Pubkey Node) (outs : list (Pubkey * NetworkOutput)) : Prop :=
  dom nodes = dom relays ∧ map_Forall (relay_ok hist outs) nodes ∧ Forall (λ x, output_ok x.1 x.2) outs.

Lemma heard_snoc hist q q' op p :
  heard (hist ++ [(q', op)]) q p ↔ heard hist q p ∨ q = q' ∧ local_from p op.
Proof.
  unfold heard, local_from. setoid_rewrite elem_of_app. setoid_rewrite list_elem_of_singleton. split.
  - intros [m [Hm|[= -> <-]]]; [by left; exists m|by right].
  - intros [[m Hm]|[-> Hop]]; [by exists m; left|]. destruct op as [| |p' [[m|m]]]; try done. subst p'. by exists m; right.
Qed.

Lemma shared_by_snoc hist q q' op :
  shared_by (hist ++ [(q', op)]) q ↔ shared_by hist q ∨ q = q' ∧ (∃ c e, op = Share c e).
Proof. unfold shared_by. setoid_rewrite elem_of_app. setoid_rewrite list_elem_of_singleton. naive_solver. Qed.

(** Another relay's step leaves a relay where it is. *)
Lemma phase_other hist outs q q' op o n : q ≠ q' → phase hist outs q n → phase (hist ++ [(q', op)]) (outs ++ o) q n.
Proof.
  intros Hne. unfold phase.
  assert (shared_by (hist ++ [(q', op)]) q ↔ shared_by hist q) as Hs by (rewrite shared_by_snoc; naive_solver).
  assert (∀ p, heard (hist ++ [(q', op)]) q p ↔ heard hist q p) as Hh by (intros p; rewrite heard_snoc; naive_solver).
  destruct (n_tasks n) as [|[e|e|e] [|? ?]]; rewrite ?Hs; try setoid_rewrite Hh; try done.
  intros [?|[? (tx & ?)]]; [by left|]. right. split; [done|]. exists tx. set_solver.
Qed.

(** What one step of a relay does. *)
Definition step_ok (hist : list (Pubkey * NodeOp)) (outs : list (Pubkey * NetworkOutput)) (q : Pubkey) (n : Node) (op : NodeOp) : Prop :=
  ∃ n' o, op_of q op n = Some (n', o) ∧ relay_ok (hist ++ [(q, op)]) (outs ++ (pair q <$> o)) q n' ∧ Forall (output_ok q) o.
Lemma step_share hist outs q n c e :
  relay_ok hist outs q n → may_happen hist outs q n (Share c e) → step_ok hist outs q n (Share c e).
Proof.
  destruct n as [s ts]. intros [Hok Hp] (Hsl & Hil & Hnew & d & Hc & Hd). destruct e as [sl il tx]. cbn in Hsl, Hil, Hd. subst sl.
  assert (¬ shared_by hist q) as Hns by (intros (c' & e' & Hin); by apply (Hnew c' e')).
  unfold phase in Hp. destruct ts as [|[e|e|e] [|? ?]]; cbn [n_tasks] in Hp; try done; [|by destruct Hp..].
  destruct Hp as [[_ Hh]|[? _]]; [|done].
  destruct (share_starts (HO := order q) slot c d s il tx (ro_slot _ _ _ _ Hok) Hc Hd) as [t E].
  eexists _, _. split; [exact E|]. split; [split|].
  - destruct Hok as [H1 H2 H3]. split; cbn; [lia|done..].
  - unfold phase. cbn [n_tasks n_service]. split; [apply shared_by_snoc; right; split; [done|by eexists _, _]|].
    split; [by exists il, tx|]. intros p [Hp|[_ []]]%heard_snoc. by apply Hh.
  - repeat constructor; done.
Qed.

Lemma step_receive hist outs q n p m :
  Forall (λ x, output_ok x.1 x.2) outs →
  relay_ok hist outs q n → may_happen hist outs q n (Receive p m) → step_ok hist outs q n (Receive p m).
Proof.
  intros Houts. destruct n as [s ts]. intros [Hok Hp] (Hne & Hin).
  assert (fair relays q slot (Receive p m)) as Hf.
  { rewrite Forall_forall in Houts. specialize (Houts _ Hin). destruct m as [[i|i]]; cbn in *; by destruct Houts. }
  destruct (receive_step (HO := order q) relays q slot (Receive p m) s ts Hf Hok) as (s' & E & Hok' & _ & Htold).
  eexists _, _. split; [exact E|]. split; [split; [done|]|done]. cbn [fmap list_fmap]. rewrite app_nil_r.
  assert (shared_by (hist ++ [(q, Receive p m)]) q ↔ shared_by hist q) as Hs.
  { rewrite shared_by_snoc. naive_solver. }
  assert (∀ p', (∀ p', heard hist q p' → told_local relays slot s p') → heard (hist ++ [(q, Receive p m)]) q p' → told_local relays slot s' p') as Hh.
  { intros p' Hall [Hp'|[_ Hp']]%heard_snoc; apply Htold; [left; by apply Hall|by right]. }
  unfold phase in *. cbn [n_tasks n_service] in *. destruct ts as [|[e|e|e] [|? ?]]; rewrite ?Hs; try done.
  - destruct Hp as [[? Hall]|?]; [left|by right]. split; [done|]. intros p' Hp'. by apply Hh.
  - destruct Hp as (? & ? & Hall). split_and!; [done..|]. intros p' Hp'. by apply Hh.
Qed.

Lemma step_wake hist outs q n c i :
  relay_ok hist outs q n → may_happen hist outs q n (Wake c i) → step_ok hist outs q n (Wake c i).
Proof.
  destruct n as [s ts]. intros [Hok Hp] Hmay.
  assert (shared_by (hist ++ [(q, Wake c i)]) q ↔ shared_by hist q) as Hs by (rewrite shared_by_snoc; naive_solver).
  assert (∀ p, heard (hist ++ [(q, Wake c i)]) q p ↔ heard hist q p) as Hh.
  { intros p. rewrite heard_snoc. split; [by intros [?|[_ []]]|by left]. }
  destruct (ts !! i) as [e|] eqn:Hi.
  2:{ exists (mkNode s ts), []. cbn [node_op n_tasks]. rewrite Hi. split; [done|]. split; [split; [done|]|done].
      cbn [fmap list_fmap]. rewrite app_nil_r. unfold phase in *. cbn [n_tasks n_service] in *.
      destruct ts as [|[e|e|e] [|? ?]]; rewrite ?Hs; try setoid_rewrite Hh; done. }
  unfold phase in Hp. cbn [n_tasks n_service] in Hp.
  destruct ts as [|e' [|? ?]]; [done| |by destruct e'].
  assert (i = 0%nat ∧ e' = e) as [-> ->] by (destruct i; cbn in Hi; [by simplify_eq|done]). destruct e as [e|e|e]; [done| |].
  - destruct Hp as (Hsh & (il & tx & -> & Hil) & Hall). cbn [may_happen n_tasks lookup list_lookup] in Hmay.
    assert (compute_shared_inclusion_list (HO := order q) (local_ils s) slot il = agreed (everyone relays)) as Heq.
    { apply (shared_is_agreed (HO := order q) relays q slot room same_bytes); [done..|]. intros p Hne Hp. apply Hall.
      by apply (Hmay (info il tx)). }
    destruct (wake_shares (HO := order q) slot c s il tx (ro_slot _ _ _ _ Hok)) as (o & E & Ho). rewrite Heq in E, Ho.
    eexists _, _. split; [exact E|]. split; [split|].
    + destruct Hok as [H1 H2 H3]. split; cbn; [done| |done]. intros p l. by rewrite lookup_empty.
    + unfold phase. cbn [n_tasks n_service]. destruct (_ =? 0); rewrite Hs; [|by split; [|eexists]].
      right. split; [done|]. exists tx. subst o. set_solver.
    + constructor; [done|]. destruct (_ =? 0); [by subst o; repeat constructor|]. destruct Ho as [t ->]. by repeat constructor.
  - destruct Hp as (Hsh & tx & ->).
    pose proof (wake_settles (HO := order q) slot c s (agreed (everyone relays)) tx _ _ (ro_slot _ _ _ _ Hok)
      (final_is_agreed (HO := order q) relays q slot s Hok)) as E.
    eexists _, _. split; [exact E|]. split; [split|by repeat constructor].
    + destruct Hok as [H1 H2 H3]. split; cbn; [done..|]. intros p l. by rewrite lookup_empty.
    + unfold phase. cbn [n_tasks]. rewrite Hs. right. split; [done|]. exists tx. set_solver.
Qed.

Lemma step_any hist nodes outs q n op :
  round_inv hist nodes outs → nodes !! q = Some n → may_happen hist outs q n op → step_ok hist outs q n op.
Proof.
  intros (_ & Hall & Houts) Hn Hmay. specialize (Hall q n Hn). destruct op; [by apply step_share|by apply step_wake|by apply step_receive].
Qed.

Lemma round_run_inv hist nodes outs : round_run hist nodes outs → round_inv hist nodes outs.
Proof.
  induction 1 as [nodes Hdom Hfresh|hist nodes outs q n op n' o _ IH Hn Hmay Hop].
  - split_and!; [done| |done]. intros q n Hn. destruct (Hfresh q n Hn) as (Ht & Hl & H1 & H2). split.
    + split; [done|intros p il Hp; by destruct (H1 p il)|intros p il Hp; by destruct (H2 p il)].
    + unfold phase. rewrite Ht. left. split; [by intros (? & ? & ?%elem_of_nil)|by intros p (? & ?%elem_of_nil)].
  - pose proof (step_any _ _ _ _ _ _ IH Hn Hmay) as (n1 & o1 & E & Hok & Ho). rewrite Hop in E. injection E as <- <-.
    destruct IH as (Hdom & Hall & Houts). split_and!.
    + rewrite dom_insert_L, <- Hdom. apply elem_of_dom_2 in Hn. set_solver.
    + intros q' m [[<- <-]|[Hne Hm]]%lookup_insert_Some; [done|]. destruct (Hall q' m Hm). split; [done|].
      by apply phase_other.
    + apply Forall_app. split; [done|]. apply Forall_fmap. done.
Qed.

(** C26: Relays that hear each other agree. In any round in which the lists the
    relays start from encode a transaction in one way only, every relay shares its
    list before its first cutoff and passes that cutoff after it heard the lists of
    all other relays, where the size of a list is within that of a payload: whatever
    the order of the messages, the hash order of each relay's maps and the votes it
    holds for other slots, nothing panics, every relay broadcasts as shared list,
    and answers with, the one greedy list of all the lists, and a relay that shared
    its list and has no task left has answered. *)
Theorem relays_agree hist nodes outs :
  round_run hist nodes outs →
  (∀ q i, (q, Broadcast (MInclusionList (SharedMessage i))) ∈ outs → i = mkInclusionListMessageInfo slot (agreed (everyone relays))) ∧
  (∀ q tx r, (q, Answer tx r) ∈ outs → r = Some (agreed (everyone relays))) ∧
  (∀ q n op, nodes !! q = Some n → may_happen hist outs q n op → is_Some (op_of q op n)) ∧
  ∀ q n c e, nodes !! q = Some n → (q, Share c e) ∈ hist → n_tasks n = [] →
    ∃ tx, (q, Answer tx (Some (agreed (everyone relays)))) ∈ outs.
Proof.
  intros Hrun%round_run_inv. pose proof Hrun as (_ & Hall & Houts). rewrite Forall_forall in Houts. split_and!.
  - intros q [sl il] Hin. destruct (Houts _ Hin) as [H1 H2]. cbn in *. by subst.
  - intros q tx r Hin. exact (Houts _ Hin).
  - intros q n op Hn Hmay. destruct (step_any _ _ _ _ _ _ Hrun Hn Hmay) as (n' & o & E & _). by rewrite E.
  - intros q n c e Hn Hin Ht. destruct (Hall q n Hn) as [_ Hp]. unfold phase in Hp. rewrite Ht in Hp.
    destruct Hp as [[[] _]|[_ ?]]; [by exists c, e|done].
Qed.
End rounds.

(** ** Rounds as runs *)
#[export] Instance InclusionListMessageInfo_eq_dec : EqDecision InclusionListMessageInfo.
Proof. solve_decision. Defined.
#[export] Instance InclusionListMessage_eq_dec : EqDecision InclusionListMessage.
Proof. solve_decision. Defined.

Section exec.
Context `{ES : EthSpec, TD : TxDecoder, LR : ListRoot}.
Context (relays : gmap Pubkey InclusionList) (order : Pubkey → HashOrder) (slot : u64).

Definition is_share (q : Pubkey) (x : Pubkey * NodeOp) : bool :=
  (x.1 =? q) && match x.2 with Share _ _ => true | _ => false end.
Definition is_heard (q p : Pubkey) (x : Pubkey * NodeOp) : bool :=
  (x.1 =? q) && match x.2 with Receive p' (MInclusionList (LocalMessage _)) => p' =? p | _ => false end.
Definition is_broadcast (p : Pubkey) (m : InclusionListMessage) (x : Pubkey * NetworkOutput) : bool :=
  (x.1 =? p) && match x.2 with Broadcast (MInclusionList m') => bool_decide (m' = m) | _ => false end.

(** [may_happen] decided. *)
Definition may_happen_b (hist : list (Pubkey * NodeOp)) (outs : list (Pubkey * NetworkOutput)) (q : Pubkey) (n : Node)
    (op : NodeOp) : bool :=
  match op with
  | Share c e =>
      (le_slot e =? slot) && bool_decide (relays !! q = Some (le_inclusion_list e)) && negb (existsb (is_share q) hist) &&
      match c slot with Some d => d <? cutoff_1 (n_service n) | None => false end
  | Receive p (MInclusionList m) => negb (p =? q) && existsb (is_broadcast p m) outs
  | Wake _ i =>
      match n_tasks n !! i with
      | Some (SharedEvent _) => forallb (λ x, (x.1 =? q) || existsb (is_heard q x.1) hist) (map_to_list relays)
      | _ => true
      end
  end.

Lemma may_happen_b_sound hist outs q n op : may_happen_b hist outs q n op = true → may_happen relays slot hist outs q n op.
Proof.
  destruct op as [c e|c i|p [m]]; cbn.
  - rewrite !andb_true_iff, negb_true_iff, Z.eqb_eq, bool_decide_eq_true. intros [[[H1 H2] H3] H4].
    destruct (c slot) as [d|]; [|done]. split_and!; [done..| |exists d; split; [done|lia]].
    intros c' e' Hin. rewrite <- not_true_iff_false, existsb_exists in H3. apply H3. exists (q, Share c' e').
    rewrite <- list_elem_of_In. split; [done|]. unfold is_share. cbn. by rewrite Z.eqb_refl.
  - intros H e Hi p Hne [l Hl]. rewrite Hi in H. rewrite forallb_forall in H.
    specialize (H (p, l)). rewrite <- list_elem_of_In, elem_of_map_to_list in H. specialize (H Hl). cbn in H.
    rewrite (proj2 (Z.eqb_neq _ _) Hne) in H. cbn in H. apply existsb_exists in H as ([q' op] & Hin & Hh).
    unfold is_heard in Hh. cbn in Hh. apply andb_true_iff in Hh as [->%Z.eqb_eq Hh]. rewrite <- list_elem_of_In in Hin.
    destruct op as [| |p' [[m|m]]]; try done. apply Z.eqb_eq in Hh as ->. by exists m.
  - rewrite andb_true_iff, negb_true_iff, Z.eqb_neq, existsb_exists. intros [Hne ([p' o] & Hin & Hb)]. split; [done|].
    unfold is_broadcast in Hb. cbn in Hb. apply andb_true_iff in Hb as [->%Z.eqb_eq Hb]. rewrite <- list_elem_of_In in Hin.
    destruct o as [|[m']|]; try done. apply bool_decide_eq_true in Hb as ->. done.
Qed.

Fixpoint play (ops : list (Pubkey * NodeOp)) (hist : list (Pubkey * NodeOp)) (nodes : gmap Pubkey Node)
    (outs : list (Pubkey * NetworkOutput)) : option (gmap Pubkey Node * list (Pubkey * NetworkOutput)) :=
  match ops with
  | [] => Some (nodes, outs)
  | (q, op) :: ops =>
      n ← nodes !! q;
      if may_happen_b hist outs q n op then
        '(n', o) ← node_op (HO := order q) op n;
        play ops (hist ++ [(q, op)]) (<[q := n']> nodes) (outs ++ (pair q <$> o))
      else None
  end.

Lemma play_run ops : ∀ hist nodes outs nodes' outs',
  round_run relays order slot hist nodes outs → play ops hist nodes outs = Some (nodes', outs') →
  round_run relays order slot (hist ++ ops) nodes' outs'.
Proof.
  induction ops as [|[q op] ops IH]; intros hist nodes outs nodes' outs' Hrun; cbn [play].
  { intros [= <- <-]. by rewrite app_nil_r. }
  intros (n & Hn & H)%bind_Some. destruct (may_happen_b hist outs q n op) eqn:Hm; [|done].
  apply bind_Some in H as ([n' o] & Hop & H). rewrite (app_assoc hist [(q, op)] ops : hist ++ (q, op) :: ops = _).
  eapply IH; [|exact H]. eapply round_step; [done..|by apply may_happen_b_sound|done].
Qed.
End exec.

(** ** Example *)

(** Two relays, one transaction each and one of both. *)
Abbreviation ex_relays :=
  {[ 1 := mkInclusionList [[10; 0]; [30]]; 2 := mkInclusionList [[20; 0; 0]; [30]] ]}.

Lemma ex_relays_canonical :
  canonical (decode_tx (TxDecoder := ex_decoder)) (txs_of (everyone ex_relays)).
Proof.
  assert (Forall (λ a, Forall (λ b, head a = head b → a = b) (txs_of (everyone ex_relays)))
    (txs_of (everyone ex_relays))) as H.
  { vm_compute. repeat constructor; discriminate || reflexivity. }
  intros a b Ha Hb _ E. rewrite Forall_forall in H. specialize (H a Ha).
  rewrite Forall_forall in H. by apply H.
Qed.

Abbreviation ex_order := (λ q : Pubkey, if q =? 1 then list_order else reverse_order).
Definition ex_local (il : InclusionList) : NetworkMessage := MInclusionList (LocalMessage (mkInclusionListMessageInfo 5 il)).
Definition ex_shared : NetworkMessage := MInclusionList (SharedMessage (mkInclusionListMessageInfo 5
  (agreed (TD := ex_decoder) (everyone ex_relays)))).

(** Both relays share, hear each other's lists, pass the first cutoff, hear each
    other's shared lists and settle. *)
Definition ex_round : list (Pubkey * NodeOp) :=
  let il1 := mkInclusionList [[10; 0]; [30]] in
  let il2 := mkInclusionList [[20; 0; 0]; [30]] in
  [(1, Share (λ _, Some 100) (mkInclusionListEventInfo 5 il1 77)); (2, Share (λ _, Some 200) (mkInclusionListEventInfo 5 il2 78));
   (1, Receive 2 (ex_local il2)); (2, Receive 1 (ex_local il1)); (1, Wake (λ _, Some 2000) 0); (2, Receive 1 ex_shared);
   (2, Wake (λ _, Some 2100) 0); (1, Receive 2 ex_shared); (1, Wake (λ _, Some 4000) 0); (2, Wake (λ _, Some 4100) 0)].

Abbreviation ex_nodes := (let n := mkNode (inclusion_lists_service_new 2000 4000) [] in {[1 := n; 2 := n]} : gmap Pubkey Node).

Lemma relays_agree_witness :
  agreed (TD := ex_decoder) (everyone ex_relays) = mkInclusionList [[30]; [20; 0; 0]; [10; 0]] ∧
  ∃ nodes outs,
    play (ES := mainnet) (TD := ex_decoder) (LR := λ il, total (il_txs il)) ex_relays ex_order 5 ex_round [] ex_nodes [] = Some (nodes, outs) ∧
    (∃ tx, (1, Answer tx (Some (agreed (TD := ex_decoder) (everyone ex_relays)))) ∈ outs) ∧
    ∃ tx, (2, Answer tx (Some (agreed (TD := ex_decoder) (everyone ex_relays)))) ∈ outs.
Proof.
  split; [vm_compute; reflexivity|].
  destruct (play (ES := mainnet) (TD := ex_decoder) (LR := λ il, total (il_txs il)) ex_relays ex_order 5 ex_round [] ex_nodes [])
    as [[nodes outs]|] eqn:E; [|vm_compute in E; discriminate].
  assert (round_run (ES := mainnet) (TD := ex_decoder) (LR := λ il, total (il_txs il)) ex_relays ex_order 5 [] ex_nodes []) as H0.
  { apply round_start; [vm_compute; reflexivity|]. intros q n Hn.
    assert (n = mkNode (inclusion_lists_service_new 2000 4000) []) as ->.
    { apply lookup_insert_Some in Hn as [[_ <-]|[_ Hn]]; [reflexivity|]. by apply lookup_singleton_Some in Hn as [_ <-]. }
    split_and!; [done|done|intros p il; cbn; by rewrite lookup_empty..]. }
  destruct (relays_agree (ES := mainnet) (TD := ex_decoder) (LR := λ il, total (il_txs il)) ex_relays ex_order 5 ltac:(done) ex_relays_canonical
    _ _ _ (play_run ex_relays ex_order 5 ex_round [] _ [] nodes outs H0 E)) as (_ & _ & _ & Hdone).
  exists nodes, outs. split; [reflexivity|].
  assert (n_tasks <$> nodes !! 1 = Some [] ∧ n_tasks <$> nodes !! 2 = Some []) as [H1 H2].
  { vm_compute in E. injection E as <- _. split; reflexivity. }
  apply fmap_Some in H1 as (n1 & Hn1 & Ht1), H2 as (n2 & Hn2 & Ht2). split.
  - by apply (Hdone 1 n1 (λ _, Some 100) (mkInclusionListEventInfo 5 (mkInclusionList [[10; 0]; [30]]) 77)); [|left|].
  - by apply (Hdone 2 n2 (λ _, Some 200) (mkInclusionListEventInfo 5 (mkInclusionList [[20; 0; 0]; [30]]) 78)); [|right; left|].
Defined.
