(* ===== verification/PeerConnection.v ===== *)
(** * Connections between relays

    [relay/src/network/message_handler.rs] and [messages.rs]: the Hello message
    with which a relay introduces itself, its verification, and the loop that
    serves one web socket until it fails; with the signature check of
    [types/src/gloas.rs]. *)

From S2P Require Import Prelude Types Submission ApiError LocalCache InclusionLists Network.

(** ** Signatures *)

(** The pairing library: points of G2, hashing to the curve and the product of
    two pairings. *)
Class BlsPairing `{BP : BlsPoints} := {
  G2Point : Type;
  uncompress_in_g2 : Z → option G2Point;
  hash_to_curve : B256 → G2Point;
  negative_generator : G1Point;
  two_pairs_are_one : G1Point * G2Point → G1Point * G2Point → bool
}.

Section signatures.
Context `{BP : BlsPoints, PR : !BlsPairing}.

Definition bls_verify_point (pubkey : G1Point) (signature : G2Point) (root : B256) :
    Result unit SigError :=
  let hash := hash_to_curve root in
  if two_pairs_are_one (negative_generator, signature) (pubkey, hash)
  then Ok tt else Err InvalidBlsSignature.

Definition decode_signature (signature : Z) : Result G2Point SigError :=
  match uncompress_in_g2 signature with
  | Some sig => Ok sig
  | None => Err InvalidBlsSignatureBytes
  end.

Definition bls_verify (pubkey : Pubkey) (signature : Z) (root : B256) : Result unit SigError :=
  let? signature := decode_signature signature in
  let? point := decode_pubkey pubkey in
  bls_verify_point point signature root.
End signatures.

(** ** Messages *)

Inductive NetworkMessageType := TInclusionList | TUnknown.
#[export] Instance NetworkMessageType_eq_dec : EqDecision NetworkMessageType.
Proof. solve_decision. Defined.

Definition type_supports_message (t : NetworkMessageType) (m : NetworkMessage) : bool :=
  match t, m with
  | TInclusionList, MInclusionList _ => true
  | TUnknown, _ => false
  end.

(** The derived order: the variants in the order of declaration. *)
Definition type_index (t : NetworkMessageType) : Z :=
  match t with TInclusionList => 0 | TUnknown => 1 end.

(** [Vec::dedup]: of consecutive equal elements the first stays. *)
Fixpoint dedup {A} `{EqDecision A} (l : list A) : list A :=
  match l with
  | [] => []
  | x :: l' =>
      match dedup l' with
      | [] => [x]
      | y :: r => if decide (x = y) then y :: r else x :: y :: r
      end
  end.

Record HelloMessage := mkHelloMessage {
  h_pubkey : Pubkey;
  h_valid_until : u64;
  h_signature : Z;
  h_supported_message_types : list NetworkMessageType
}.
#[export] Instance eta_HelloMessage : Eta HelloMessage := λ r,
  mkHelloMessage (h_pubkey r) (h_valid_until r) (h_signature r) (h_supported_message_types r).

Inductive RawNetworkMessage := Hello (m : HelloMessage) | Other (m : NetworkMessage).

Inductive MessageAuthenticationError :=
| MessageTooFarInFuture | ExpiredMessage | CouldNotDeserializeSignature
| InvalidSignature | CouldNotDeserializePubkey.

Definition VALID_DURATION_MS : u64 := 5 * 1000.

(** The relay's own key and its signing function. *)
Class RelaySigningContext := {
  own_pubkey : Pubkey;
  sign : B256 → Z
}.

(** [MessageToSign::signing_root] under the relay domain. *)
Class HelloRoot := hello_signing_root : Pubkey → u64 → B256.

Section hello.
Context `{BP : BlsPoints, PR : !BlsPairing, SC : RelaySigningContext, HR : HelloRoot}.

Definition hello_new (utcnow_ms : u64) : HelloMessage :=
  let valid_until := utcnow_ms + VALID_DURATION_MS in
  mkHelloMessage own_pubkey valid_until (sign (hello_signing_root own_pubkey valid_until)) [].

Definition with_supported_message_types (types : list NetworkMessageType) (m : HelloMessage) :
    HelloMessage :=
  m <| h_supported_message_types := types |>.

Definition into_supported_message_types (m : HelloMessage) : list NetworkMessageType :=
  let smt := h_supported_message_types m in
  let smt := sort_by (λ x y, Z.compare (type_index x) (type_index y)) smt in
  let smt := dedup smt in
  filter (λ t, t ≠ TUnknown) smt.

Definition verify_signature (now : u64) (m : HelloMessage) :
    Result unit MessageAuthenticationError :=
  if h_valid_until m <? now then Err ExpiredMessage
  else if now + 2 * VALID_DURATION_MS <? h_valid_until m then Err MessageTooFarInFuture
  else
    result_map_err
      (λ err, match err with
              | InvalidBlsPubkeyBytes => CouldNotDeserializePubkey
              | InvalidBlsSignatureBytes => CouldNotDeserializeSignature
              | InvalidBlsSignature => InvalidSignature
              end)
      (bls_verify (h_pubkey m) (h_signature m)
         (hello_signing_root (h_pubkey m) (h_valid_until m))).
End hello.

(** ** One connection *)

Record PeerInfo := mkPeerInfo {
  pi_pubkey : Pubkey;
  pi_supported_message_types : list NetworkMessageType
}.

Definition peer_info_new (pubkey : Pubkey) : PeerInfo := mkPeerInfo pubkey [].

Definition supports_message (p : PeerInfo) (m : NetworkMessage) : bool :=
  existsb (λ t, type_supports_message t m) (pi_supported_message_types p).

Definition peer_supports_message_type (p : option PeerInfo) (m : NetworkMessage) : bool :=
  match p with None => false | Some p => supports_message p m end.

Inductive WsConnectionError :=
| SendError | RecvError | DecodingError | NoHello
| UnexpectedPubkey (got expected : Pubkey)
| ReceivedOwnPubkey
| UnknownPeer (pubkey : Pubkey)
| MessageAuthentication (e : MessageAuthenticationError)
| ChannelClosed.

(** What a connection emits: a message on the socket, an event for the service. *)
Inductive ConnectionOutput := ToPeer (m : RawNetworkMessage) | ToService (e : NetworkEvent).

(** What wakes the [select!]: the broadcast channel ([None] once it is closed or
    lagged) with the outcome of the send it may lead to, and the socket: closed,
    failed, an undecodable message, or a message with the time it is handled at
    and whether the service still receives. *)
Inductive ConnectionInput :=
| FromBroadcast (res : option NetworkMessage) (send_ok : bool)
| SocketClosed
| SocketFailed
| SocketGarbage
| FromSocket (m : RawNetworkMessage) (now : u64) (channel_open : bool).

Section connection.
Context `{BP : BlsPoints, PR : !BlsPairing, SC : RelaySigningContext, HR : HelloRoot}.
(** The public keys of [network_config.peers]. *)
Context (peers : list Pubkey).

Definition handle_raw_message (now : u64) (channel_open : bool) (message : RawNetworkMessage)
    : Comp (option PeerInfo) ConnectionOutput (Result unit WsConnectionError) :=
  match message with
  | Hello hello_msg =>
      let pubkey := h_pubkey hello_msg in
      if pubkey =? own_pubkey then mret (Err ReceivedOwnPubkey)
      else
        let known_peer := existsb (λ p, p =? pubkey) peers in
        if negb known_peer then mret (Err (UnknownPeer pubkey))
        else
          match verify_signature now hello_msg with
          | Err e => mret (Err (MessageAuthentication e))
          | Ok _ =>
              let supported := into_supported_message_types hello_msg in
              opt_peer_info ← get;
              match opt_peer_info with
              | None => modify (λ _, Some (mkPeerInfo pubkey supported));; mret (Ok tt)
              | Some peer_info =>
                  if negb (pi_pubkey peer_info =? pubkey)
                  then mret (Err (UnexpectedPubkey pubkey (pi_pubkey peer_info)))
                  else modify (λ _, Some (mkPeerInfo (pi_pubkey peer_info) supported));;
                       mret (Ok tt)
              end
          end
  | Other message =>
      opt_peer_info ← get;
      match opt_peer_info with
      | None => mret (Err NoHello)
      | Some peer_info =>
          if channel_open
          then emit [ToService (PeerMessage (pi_pubkey peer_info) message)];; mret (Ok tt)
          else mret (Err ChannelClosed)
      end
  end.

(** One turn of the loop: [None] to go on, or what the connection returns. *)
Definition connection_turn (input : ConnectionInput)
    : Comp (option PeerInfo) ConnectionOutput (option (Result unit WsConnectionError)) :=
  match input with
  | FromBroadcast None _ => mret (Some (Ok tt))
  | FromBroadcast (Some msg) send_ok =>
      peer_info ← get;
      if peer_supports_message_type peer_info msg
      then if send_ok then emit [ToPeer (Other msg)];; mret None else mret (Some (Err SendError))
      else mret None
  | SocketClosed => mret (Some (Ok tt))
  | SocketFailed => mret (Some (Err RecvError))
  | SocketGarbage => mret (Some (Err DecodingError))
  | FromSocket message now channel_open =>
      r ← handle_raw_message now channel_open message;
      match r with Ok _ => mret None | Err e => mret (Some (Err e)) end
  end.

(** The loop; [None] means it still waits for input. *)
Fixpoint connection_loop (inputs : list ConnectionInput)
    : Comp (option PeerInfo) ConnectionOutput (option (Result unit WsConnectionError)) :=
  match inputs with
  | [] => mret None
  | input :: rest =>
      r ← connection_turn input;
      match r with None => connection_loop rest | Some r => mret (Some r) end
  end.

(** [handle_ws_connection], from the public key [connect_to_peer] passes or the
    [None] of [on_peer_connection]. *)
Definition handle_ws_connection (now : u64) (hello_ok : bool) (peer_pubkey : option Pubkey)
    (inputs : list ConnectionInput)
    : option (option (Result unit WsConnectionError) * list ConnectionOutput) :=
  let hello_message := with_supported_message_types [TInclusionList] (hello_new now) in
  if negb hello_ok then Some (Some (Err SendError), [])
  else
    match connection_loop inputs (peer_info_new <$> peer_pubkey) with
    | Some (r, _, o) => Some (r, ToPeer (Hello hello_message) :: o)
    | None => None
    end.


(** ** Authentication *)

(** A Hello of [q], a configured peer, was received and verified. *)
Definition vouched (inputs : list ConnectionInput) (q : Pubkey) : Prop :=
  ∃ h now open,
    FromSocket (Hello h) now open ∈ inputs ∧ h_pubkey h = q ∧ q ∈ peers ∧ q ≠ own_pubkey ∧
    verify_signature now h = Ok tt.

Definition key_of (p : option PeerInfo) : option Pubkey := pi_pubkey <$> p.

Lemma vouched_mono i k q : (∀ x, x ∈ i → x ∈ k) → vouched i q → vouched k q.
Proof. intros H (h & t & b & Hin & ?). exists h, t, b. auto. Qed.

Lemma connection_turn_spec i p :
  wp (connection_turn i) (λ _ p' o,
    (∀ q, key_of p = Some q → key_of p' = Some q) ∧
    (∀ q, key_of p' = Some q → key_of p = Some q ∨ vouched [i] q) ∧
    (∀ e, ToService e ∈ o → ∃ q m, e = PeerMessage q m ∧ key_of p = Some q)) p.
Proof.
  destruct i as [[msg|] ok| | | |[h|msg] now open]; simpl.
  1-5: wp_steps; split_and!; set_solver.
  - unfold handle_raw_message. wp_step. wp_step; [wp_steps; split_and!; set_solver|].
    wp_step; [wp_steps; split_and!; set_solver|].
    wp_step; [|wp_steps; split_and!; set_solver].
    wp_step. wp_step. cbv beta. destruct p as [p|].
    + wp_step; [wp_steps; split_and!; set_solver|].
      wp_steps. cbn. split_and!; [set_solver..|]. set_solver.
    + wp_steps. cbn. split_and!; [done| |set_solver]. intros q [= <-]. right.
      exists h, now, open. split_and!.
      * set_solver.
      * done.
      * apply negb_false_iff, existsb_elem in Heqb0 as (x & Hx & ->%Z.eqb_eq). done.
      * by apply Z.eqb_neq.
      * by destruct a.
  - unfold handle_raw_message. wp_steps; split_and!; set_solver.
Qed.


Lemma connection_loop_spec inputs p :
  wp (connection_loop inputs) (λ _ p' o,
    (∀ q, key_of p = Some q → key_of p' = Some q) ∧
    (∀ q, key_of p' = Some q → key_of p = Some q ∨ vouched inputs q) ∧
    (∀ e, ToService e ∈ o → ∃ q m, e = PeerMessage q m ∧ key_of p' = Some q)) p.
Proof.
  revert p. induction inputs as [|i inputs IH]; intros p; simpl.
  { wp_steps. split_and!; set_solver. }
  wp_step. eapply wp_mono; [apply connection_turn_spec|].
  intros [r|] p1 o1 (Hk & Hv & Ho).
  - wp_steps. split_and!; [done| |].
    + intros q Hq. destruct (Hv q Hq) as [?|?]; [by left|right].
      eapply vouched_mono; [|done]. set_solver.
    + intros e He. rewrite app_nil_r in He. destruct (Ho e He) as (q & m & ? & ?). eauto 10.
  - eapply wp_mono; [apply IH|]. intros r p2 o2 (Hk' & Hv' & Ho'). split_and!.
    + auto.
    + intros q [Hq|?]%Hv'; [destruct (Hv q Hq) as [?|?]; [by left|right]|right];
        (eapply vouched_mono; [|done]; set_solver).
    + intros e [He|He]%elem_of_app; [|auto]. destruct (Ho e He) as (q & m & ? & ?). eauto 10.
Qed.

(** C36: A connection a peer opens forwards nothing to the service before the
    peer has introduced itself: every message forwarded is attributed to one
    and the same sender, a configured peer other than this relay, of which a
    Hello with a verified signature was received on this connection. *)
Theorem inbound_peers_authenticated now hello_ok inputs :
  ∃ r o, handle_ws_connection now hello_ok None inputs = Some (r, o) ∧
    ((∀ e, ToService e ∉ o) ∨
     ∃ q, vouched inputs q ∧ ∀ e, ToService e ∈ o → ∃ m, e = PeerMessage q m).
Proof.
  unfold handle_ws_connection. destruct hello_ok; simpl; [|eexists _, _; split; [done|set_solver]].
  pose proof (connection_loop_spec inputs None) as H. unfold wp in H.
  destruct (connection_loop inputs None) as [[[r p'] o]|]; [|done].
  destruct H as (_ & Hv & Ho). eexists _, _. split; [done|].
  destruct (key_of p') as [q|] eqn:Hq.
  - right. exists q. split; [by destruct (Hv q eq_refl)|].
    intros e [[=]|He]%elem_of_cons. destruct (Ho e He) as (q' & m & -> & [= ->]). eauto.
  - left. intros e [[=]|He]%elem_of_cons. destruct (Ho e He) as (q' & m & _ & [=]).
Qed.


(** On a connection this relay opens, the configured public key stands for
    the peer before it has introduced itself: whoever answers at the
    configured address can send messages without any Hello, and they are
    forwarded as messages of that peer. *)
Theorem outbound_peer_needs_no_hello now pubkey m t :
  handle_ws_connection now true (Some pubkey) [FromSocket (Other m) t true] =
    Some (None, [ToPeer (Hello (with_supported_message_types [TInclusionList] (hello_new now)));
                 ToService (PeerMessage pubkey m)]).
Proof. reflexivity. Qed.
End connection.

(** ** Introductions *)

Section introductions.
Context `{BP : BlsPoints, PR : !BlsPairing, HR : HelloRoot}.

(** A relay's Hello introduces it: where its signatures verify under its
    key, another relay that knows the key accepts the Hello exactly while the
    receiver's clock is within five seconds of the sender's at the time of
    sending, and from then on sends it inclusion lists. Nothing in the Hello
    names the receiver. *)
Theorem hello_round_trip (sender receiver : RelaySigningContext) (peers : list Pubkey) t now :
  let q := own_pubkey (RelaySigningContext := sender) in
  (∀ root, bls_verify q (sign (RelaySigningContext := sender) root) root = Ok tt) →
  q ∈ peers → q ≠ own_pubkey (RelaySigningContext := receiver) →
  handle_raw_message (SC := receiver) peers now true
    (Hello (with_supported_message_types [TInclusionList] (hello_new (SC := sender) t))) None =
      Some (Ok tt, Some (mkPeerInfo q [TInclusionList]), []) ↔
  t - VALID_DURATION_MS ≤ now ≤ t + VALID_DURATION_MS.
Proof.
  intros q Hsig Hin Hne.
  set (h := with_supported_message_types [TInclusionList] (hello_new (SC := sender) t)).
  assert (h_pubkey h = q) as Hk by reflexivity.
  assert (h_valid_until h = t + VALID_DURATION_MS) as Hv by reflexivity.
  assert (h_signature h = sign (RelaySigningContext := sender)
    (hello_signing_root q (t + VALID_DURATION_MS))) as Hs by reflexivity.
  assert (into_supported_message_types h = [TInclusionList]) as Ht by reflexivity.
  unfold handle_raw_message. cbv zeta. rewrite Hk, (proj2 (Z.eqb_neq _ _) Hne), Ht.
  rewrite (proj2 (existsb_elem (λ p, p =? q) peers)) by (exists q; by rewrite Z.eqb_refl).
  unfold verify_signature. rewrite Hk, Hv, Hs, Hsig. cbn [negb].
  destruct (Z.ltb_spec (t + VALID_DURATION_MS) now); [split; [done|lia]|].
  destruct (Z.ltb_spec (now + 2 * VALID_DURATION_MS) (t + VALID_DURATION_MS));
    unfold VALID_DURATION_MS in *; (split; [done || lia|]); [lia|]. intros _. reflexivity.
Qed.
End introductions.

(** Points are numbers, and a signature of a root is the root. *)
Definition ex_pairing : BlsPairing (BP := ex_points) :=
  Build_BlsPairing ex_points Z Some (λ root, root) 1
    (λ a b, a.2 =? b.2).

Abbreviation ex_relay key := (Build_RelaySigningContext key (λ root, root)).

Lemma hello_round_trip_witness :
  handle_raw_message (BP := ex_points) (PR := ex_pairing) (SC := ex_relay 2)
    (HR := λ q t, q + t) [1] 9000 true
    (Hello (with_supported_message_types [TInclusionList]
       (hello_new (SC := ex_relay 1) (HR := λ q t, q + t) 7000))) None =
  Some (Ok tt, Some (mkPeerInfo 1 [TInclusionList]), []).
Proof.
  apply (hello_round_trip (BP := ex_points) (PR := ex_pairing) (HR := λ q t, q + t)
           (ex_relay 1) (ex_relay 2) [1] 7000 9000).
  - intros root. unfold bls_verify. cbn. unfold bls_verify_point. cbn. by rewrite Z.eqb_refl.
  - by left.
  - done.
  - vm_compute. split; discriminate.
Defined.
