(* ===== verification/PoolState.v ===== *)
(** * Shared collateral pools

    [operator/src/pool.rs] (the replicated pool state), the messages of
    [types/src/operator.rs] and the two places of [operator/src/pubsub.rs]
    that apply a message and refresh the relay's derived view. *)

From S2P Require Import Prelude Types Submission LocalCache.

Abbreviation CollateralId := Bytes (only parsing).
Abbreviation OperatorGroup := Bytes (only parsing).

(** ** Messages *)

Record Demotion := mkDemotion {
  dm_ts_ms : u64;
  dm_slot : u64;
  dm_collateral_id : CollateralId;
  dm_builder_pubkey : Pubkey;
  dm_block_hash : B256;
  dm_bid_value_wei : Z;
  dm_reason_msg : Bytes
}.
Record Promotion := mkPromotion {
  pm_ts_ms : u64;
  pm_slot : u64;
  pm_collateral_id : CollateralId;
  pm_builder_pubkey : Pubkey
}.
Record BuilderCollateral := mkBuilderCollateral {
  bc_ts_ms : u64;
  bc_slot : u64;
  bc_collateral_id : CollateralId;
  bc_collateral_wei : Z;
  bc_operator_group : option OperatorGroup
}.
Record CollateralMembership := mkCollateralMembership {
  cm_ts_ms : u64;
  cm_collateral_id : CollateralId;
  cm_builder_pubkeys : list Pubkey
}.

(** A payload message only carries its content past the pool state; its slot
    and block hash are what the deduplication reads. *)
Inductive OperatorMessage :=
| MDemotion (d : Demotion)
| MPromotion (p : Promotion)
| MCollateral (c : BuilderCollateral)
| MPayload (slot : u64) (block_hash : B256)
| MMembership (m : CollateralMembership).

Inductive PoolError :=
| BindingConflict (pubkey : Pubkey) (existing proposed : CollateralId)
| UnknownPool (collateral_id : CollateralId)
| EmptyPoolId
| Capacity.

Definition MAX_REPORTS_PER_POOL : Z := 1024.
Definition MAX_UNBOUND_POOLS : Z := 256.

(** ** One pool *)

Abbreviation ReportKey := (Pubkey * u64 * B256)%type (only parsing).

Record Pool := mkPool {
  po_index : u32;
  po_members : list Pubkey;
  po_seen_ts : u64;
  po_collateral : gmap OperatorGroup (Z * u64);
  po_promotion : option Promotion;
  po_reports : gmap ReportKey Demotion;
  po_slot_max : gmap u64 Z;
  po_reserved : U256
}.
#[export] Instance eta_Pool : Eta Pool := λ r,
  mkPool (po_index r) (po_members r) (po_seen_ts r) (po_collateral r) (po_promotion r)
    (po_reports r) (po_slot_max r) (po_reserved r).

(** [Pool { index, ..Pool::default() }]. *)
Definition pool_default (index : u32) : Pool := mkPool index [] 0 ∅ None ∅ ∅ 0.

Definition retains (p : Pool) (ts_ms : u64) : bool :=
  match po_promotion p with None => true | Some pm => pm_ts_ms pm <=? ts_ms end.

Section pools.
Context `{HO : HashOrder}.

(** One step of the loop over the reports. *)
Definition raise_slot_max (m : gmap u64 Z) (r : Demotion) : gmap u64 Z :=
  <[dm_slot r := Z.max (default 0 (m !! dm_slot r)) (dm_bid_value_wei r)]> m.

(** The sum of at most [MAX_REPORTS_PER_POOL] 128-bit values fits the [U256]. *)
Definition recompute_reservations (p : Pool) : Pool :=
  let slot_max := foldl raise_slot_max ∅ (hash_values (po_reports p)) in
  p <| po_slot_max := slot_max |> <| po_reserved := sumZ (hash_values slot_max) |>.

Definition report_key (d : Demotion) : ReportKey :=
  (dm_builder_pubkey d, dm_slot d, dm_block_hash d).

Definition insert_report (p : Pool) (d : Demotion) : bool * Pool :=
  match po_reports p !! report_key d with
  | Some existing =>
      if dm_bid_value_wei d <=? dm_bid_value_wei existing then (false, p)
      else (true, recompute_reservations (p <| po_reports ::= <[report_key d := d]> |>))
  | None => (true, recompute_reservations (p <| po_reports ::= <[report_key d := d]> |>))
  end.

(** ** The state *)

Record PoolState := mkPoolState {
  pl_local_group : OperatorGroup;
  pl_mode : PromotionMode;
  pl_binding : gmap Pubkey CollateralId;
  pl_pools : gmap CollateralId Pool
}.
#[global] Instance eta_PoolState : Eta PoolState := λ r,
  mkPoolState (pl_local_group r) (pl_mode r) (pl_binding r) (pl_pools r).

Definition pool_state_new (local_group : OperatorGroup) (mode : PromotionMode) : PoolState :=
  mkPoolState local_group mode ∅ ∅.

(** [self.pools.len() as u32]. *)
Definition next_index (s : PoolState) : u32 := Z.of_nat (size (pl_pools s)) mod u32_modulus.

(** [pool_mut]: the pool under the id, created when absent. *)
Definition pool_or_new (s : PoolState) (id : CollateralId) : Pool :=
  default (pool_default (next_index s)) (pl_pools s !! id).
Definition put_pool (id : CollateralId) (p : Pool) (s : PoolState) : PoolState :=
  s <| pl_pools ::= <[id := p]> |>.

Definition bind (s : PoolState) (pubkey : Pubkey) (id : CollateralId)
    : Result bool PoolError * PoolState :=
  match pl_binding s !! pubkey with
  | Some existing =>
      if bool_decide (existing = id) then (Ok false, s)
      else (Err (BindingConflict pubkey existing id), s)
  | None =>
      let s := s <| pl_binding ::= <[pubkey := id]> |> in
      (Ok true, put_pool id ((pool_or_new s id) <| po_members ::= λ l, l ++ [pubkey] |>) s)
  end.

(** The validation loop: the first pubkey bound elsewhere. *)
Fixpoint membership_conflict (s : PoolState) (id : CollateralId) (keys : list Pubkey)
    : option PoolError :=
  match keys with
  | [] => None
  | k :: rest =>
      match pl_binding s !! k with
      | Some existing =>
          if bool_decide (existing = id) then membership_conflict s id rest
          else Some (BindingConflict k existing id)
      | None => membership_conflict s id rest
      end
  end.

Fixpoint bind_all (s : PoolState) (id : CollateralId) (keys : list Pubkey) (changed : bool)
    : Result bool PoolError * PoolState :=
  match keys with
  | [] => (Ok changed, s)
  | k :: rest =>
      match bind s k id with
      | (Ok b, s') => bind_all s' id rest (changed || b)
      | (Err e, s') => (Err e, s')
      end
  end.

Definition apply_membership (m : CollateralMembership) (s : PoolState)
    : Result bool PoolError * PoolState :=
  let id := cm_collateral_id m in
  match membership_conflict s id (cm_builder_pubkeys m) with
  | Some e => (Err e, s)
  | None =>
      match bind_all s id (cm_builder_pubkeys m) false with
      | (Ok changed, s') =>
          (Ok changed,
           put_pool id ((pool_or_new s' id) <| po_seen_ts ::= λ t, Z.max t (cm_ts_ms m) |>) s')
      | (Err e, s') => (Err e, s')
      end
  end.

Definition membership (s : PoolState) (id : CollateralId) : option CollateralMembership :=
  p ← pl_pools s !! id;
  if bool_decide (po_members p = []) then None
  else Some (mkCollateralMembership (po_seen_ts p) id (po_members p)).

Definition apply_collateral (group : OperatorGroup) (c : BuilderCollateral) (s : PoolState)
    : Result bool PoolError * PoolState :=
  let id := bc_collateral_id c in
  match pl_pools s !! id with
  | Some p =>
      if bool_decide (po_members p = []) then (Err (UnknownPool id), s)
      else
        let set := put_pool id
          (p <| po_collateral ::= <[group := (bc_collateral_wei c, bc_ts_ms c)]> |>) s in
        match po_collateral p !! group with
        | Some (_, ts_ms) => if bc_ts_ms c <=? ts_ms then (Ok false, s) else (Ok true, set)
        | None => (Ok true, set)
        end
  | None => (Err (UnknownPool id), s)
  end.

(** The checks [apply_promotion] and [apply_demotion] share. *)
Definition check_pool_id (s : PoolState) (pubkey : Pubkey) (id : CollateralId)
    : Result unit PoolError :=
  require (negb (bool_decide (id = []))) EmptyPoolId &&?
  match pl_binding s !! pubkey with
  | Some existing => require (bool_decide (existing = id)) (BindingConflict pubkey existing id)
  | None => Ok tt
  end &&?
  require (negb ((MAX_UNBOUND_POOLS <=? Z.of_nat (size (pl_pools s))) &&
                 negb (bool_decide (is_Some (pl_pools s !! id))))) Capacity.

Definition apply_promotion (pm : Promotion) (s : PoolState) : Result bool PoolError * PoolState :=
  let id := pm_collateral_id pm in
  match check_pool_id s (pm_builder_pubkey pm) id with
  | Err e => (Err e, s)
  | Ok _ =>
      let p := pool_or_new s id in
      if match po_promotion p with Some q => pm_ts_ms pm <=? pm_ts_ms q | None => false end
      then (Ok false, put_pool id p s)
      else
        let p := p <| po_promotion := Some pm |>
                   <| po_reports ::= filter (λ kv, pm_ts_ms pm ≤ dm_ts_ms kv.2) |> in
        (Ok true, put_pool id (recompute_reservations p) s)
  end.

Definition apply_demotion (d : Demotion) (s : PoolState) : Result bool PoolError * PoolState :=
  let id := dm_collateral_id d in
  match check_pool_id s (dm_builder_pubkey d) id with
  | Err e => (Err e, s)
  | Ok _ =>
      let p := pool_or_new s id in
      if negb (retains p (dm_ts_ms d)) then (Ok false, put_pool id p s)
      else if MAX_REPORTS_PER_POOL <=? Z.of_nat (size (po_reports p)) then
        (Err Capacity, put_pool id p s)
      else
        let '(changed, p) := insert_report p d in
        (Ok changed, put_pool id p s)
  end.

(** ** Derived values *)

Definition gross (s : PoolState) (id : CollateralId) : U256 :=
  match pl_pools s !! id with
  | None => 0
  | Some p =>
      match pl_mode s with
      | Share => sumZ (fst <$> hash_values (po_collateral p))
      | Observe | Follow => from_option fst 0 (po_collateral p !! pl_local_group s)
      end
  end.

Definition reserved (s : PoolState) (id : CollateralId) : U256 :=
  from_option po_reserved 0 (pl_pools s !! id).

Definition available (s : PoolState) (id : CollateralId) : U256 :=
  sat_sub (gross s id) (reserved s id).

Definition has_report (p : Pool) (pubkey : Pubkey) : bool :=
  existsb (λ k : ReportKey, k.1.1 =? pubkey) (hash_keys (po_reports p)).

Definition is_optimistic (s : PoolState) (pubkey : Pubkey) : bool :=
  match pl_binding s !! pubkey with
  | None => false
  | Some id =>
      match pl_pools s !! id with
      | None => false
      | Some p => bool_decide (is_Some (po_promotion p)) && negb (has_report p pubkey)
      end
  end.

Definition pool_records (s : PoolState) : list (u32 * CollateralId * U256 * bool) :=
  (λ '(id, p), (po_index p, id, available s id, bool_decide (is_Some (po_promotion p)))) <$>
    hash_iter (pl_pools s).

Definition key_records (s : PoolState) : list (Pubkey * u32 * bool) :=
  hash_values (pl_pools s) ≫= λ p, (λ k, (k, po_index p, has_report p k)) <$> po_members p.

Definition replay (s : PoolState) : list OperatorMessage :=
  omap (λ id, MMembership <$> membership s id) (hash_keys (pl_pools s)) ++
  omap (λ '(id, p), (λ '(wei, ts), MCollateral (mkBuilderCollateral ts 0 id wei
      (Some (pl_local_group s)))) <$> po_collateral p !! pl_local_group s)
    (hash_iter (pl_pools s)) ++
  omap (λ p, MPromotion <$> po_promotion p) (hash_values (pl_pools s)) ++
  (hash_values (pl_pools s) ≫= λ p, MDemotion <$> hash_values (po_reports p)).

(** ** The operator task

    [pubsub.rs]: a message of this relay is applied under the local group, one
    of a peer under the group it names or the peer is configured with. The
    derived view is rewritten when the state changed and pool state gates
    admission. Sending and forwarding are left out. *)
Definition apply_message (group : OperatorGroup) (m : OperatorMessage) (s : PoolState)
    : Result bool PoolError * PoolState :=
  match m with
  | MPayload _ _ => (Ok true, s)
  | MDemotion d => apply_demotion d s
  | MPromotion p => apply_promotion p s
  | MCollateral c => apply_collateral group c s
  | MMembership m => apply_membership m s
  end.

(** The group of a peer's collateral message; [None] rejects the message. *)
Definition resolve_group (configured : option OperatorGroup) (m : OperatorMessage)
    : option OperatorGroup :=
  match m with
  | MCollateral c =>
      match bc_operator_group c, configured with
      | Some msg_group, Some cfg => if bool_decide (msg_group = cfg) then Some msg_group else None
      | Some msg_group, None => Some msg_group
      | None, Some cfg => Some cfg
      | None, None => None
      end
  | _ => Some []
  end.

Definition changed (r : Result bool PoolError) : bool :=
  match r with
  | Ok b => b
  | Err EmptyPoolId => true
  | Err _ => false
  end.
End pools.

Section operator.
Context `{HO : HashOrder} `{BP : BlsPoints}.

Record Operator := mkOperator {
  op_pool : PoolState;
  op_cache : LocalCache
}.

Definition refresh_view (transmit : bool) (o : Operator) : Operator :=
  if transmit && applies (pl_mode (op_pool o))
  then mkOperator (op_pool o)
         (update_pool_state (pool_records (op_pool o)) (key_records (op_pool o)) (op_cache o))
  else o.

(** [transmit_payload] is the payload cache's verdict on a payload message. *)
Definition on_outgoing (transmit_payload : bool) (m : OperatorMessage) (o : Operator) : Operator :=
  let '(r, pool) := apply_message (pl_local_group (op_pool o)) m (op_pool o) in
  let transmit := match m with MPayload _ _ => transmit_payload | _ => changed r end in
  refresh_view transmit (mkOperator pool (op_cache o)).

Definition on_incoming (configured : option OperatorGroup) (m : OperatorMessage) (o : Operator)
    : Operator :=
  match resolve_group configured m with
  | None => o
  | Some group =>
      let '(r, pool) := apply_message group m (op_pool o) in
      refresh_view (changed r) (mkOperator pool (op_cache o))
  end.
End operator.

(** ** Invariant *)

(** [v] is the highest bid value reported for [slot]. *)
Definition slot_peak (reports : gmap ReportKey Demotion) (slot : u64) (v : Z) : Prop :=
  (∃ k d, reports !! k = Some d ∧ dm_slot d = slot ∧ dm_bid_value_wei d = v) ∧
  ∀ k d, reports !! k = Some d → dm_slot d = slot → dm_bid_value_wei d ≤ v.

Record report_ok (id : CollateralId) (p : Pool) (k : ReportKey) (d : Demotion) : Prop := {
  rep_key : report_key d = k;
  rep_pool : dm_collateral_id d = id;
  rep_value : 0 ≤ dm_bid_value_wei d;
  rep_retained : retains p (dm_ts_ms d) = true
}.

Record pool_inv (id : CollateralId) (p : Pool) : Prop := {
  pi_reports : map_Forall (report_ok id p) (po_reports p);
  pi_bound : Z.of_nat (size (po_reports p)) ≤ MAX_REPORTS_PER_POOL;
  pi_slot_max : ∀ slot v, po_slot_max p !! slot = Some v ↔ slot_peak (po_reports p) slot v;
  pi_reserved : po_reserved p = map_sum (λ v, v) (po_slot_max p);
  pi_promotion : ∀ pm, po_promotion p = Some pm → pm_collateral_id pm = id;
  pi_named : po_promotion p ≠ None ∨ po_reports p ≠ ∅ → id ≠ [];
  pi_backed : po_members p = [] → po_collateral p = ∅;
  pi_seen : 0 ≤ po_seen_ts p
}.

Record state_ok (s : PoolState) : Prop := {
  st_pools : map_Forall pool_inv (pl_pools s);
  st_members : ∀ id p k, pl_pools s !! id = Some p →
    k ∈ po_members p ↔ pl_binding s !! k = Some id;
  st_nodup : map_Forall (λ _ p, NoDup (po_members p)) (pl_pools s);
  st_bound : ∀ k id, pl_binding s !! k = Some id → is_Some (pl_pools s !! id);
  st_index : Z.of_nat (size (pl_pools s)) ≤ u32_modulus →
    map_Forall (λ _ p, 0 ≤ po_index p < Z.of_nat (size (pl_pools s))) (pl_pools s) ∧
    ∀ id id' p p', pl_pools s !! id = Some p → pl_pools s !! id' = Some p' →
      po_index p = po_index p' → id = id'
}.

(** The loop over the reports computes the peak of each slot, in any order. *)
Lemma raise_slot_max_spec (ds : list Demotion) :
  Forall (λ d, 0 ≤ dm_bid_value_wei d) ds →
  ∀ slot v, foldl raise_slot_max ∅ ds !! slot = Some v ↔
    (∃ d, d ∈ ds ∧ dm_slot d = slot ∧ dm_bid_value_wei d = v) ∧
    ∀ d, d ∈ ds → dm_slot d = slot → dm_bid_value_wei d ≤ v.
Proof.
  induction ds as [|d ds IH] using rev_ind; intros Hpos slot v.
  - cbn. rewrite lookup_empty. split; [done|]. intros [(d & []%elem_of_nil & _) _].
  - apply Forall_app in Hpos as [Hpos Hd]. apply Forall_cons in Hd as [Hd _].
    specialize (IH Hpos). rewrite foldl_app. cbn [foldl]. unfold raise_slot_max at 1.
    set (m := foldl raise_slot_max ∅ ds) in *.
    destruct (decide (dm_slot d = slot)) as [<-|Hne].
    2: { rewrite lookup_insert_ne, IH by done. setoid_rewrite elem_of_app.
         setoid_rewrite list_elem_of_singleton. naive_solver. }
    rewrite lookup_insert_eq. setoid_rewrite elem_of_app. setoid_rewrite list_elem_of_singleton.
    destruct (m !! dm_slot d) as [w|] eqn:Em; cbn.
    + apply IH in Em as [(d0 & Hin & Hs & Hw) Hmax]. split.
      * intros [= <-]. split; [|intros d1 [H1| ->] Hs1; [specialize (Hmax d1 H1 Hs1)|]; lia].
        destruct (Z.max_spec w (dm_bid_value_wei d)) as [[_ ->]|[_ ->]]; [exists d|exists d0]; auto.
      * intros [(d1 & [H1| ->] & Hs1 & <-) Hall]; f_equal.
        -- specialize (Hmax d1 H1 Hs1). pose proof (Hall d (or_intror eq_refl) eq_refl).
           pose proof (Hall d0 (or_introl Hin) Hs). lia.
        -- pose proof (Hall d0 (or_introl Hin) Hs). lia.
    + assert (∀ d1, d1 ∈ ds → dm_slot d1 ≠ dm_slot d) as Hnone.
      { intros d1 H1 Hs1. assert (∃ w, m !! dm_slot d = Some w) as [w Hw]; [|congruence].
        destruct (max_by (λ x y, Z.compare (dm_bid_value_wei x) (dm_bid_value_wei y))
          (filter (λ d', dm_slot d' = dm_slot d) ds)) as [b|] eqn:Eb.
        - exists (dm_bid_value_wei b). apply IH. pose proof (max_by_elem _ _ _ Eb) as Hb.
          apply list_elem_of_filter in Hb as [? ?]. split; [by exists b|]. intros d2 H2 Hs2.
          apply Z.compare_le_iff. eapply (max_by_ge _ _ _ d2 Eb). by apply list_elem_of_filter.
        - apply max_by_none in Eb. assert (d1 ∈ filter (λ d', dm_slot d' = dm_slot d) ds) as Hf
            by (by apply list_elem_of_filter). rewrite Eb in Hf. by apply elem_of_nil in Hf. }
      rewrite Z.max_r by done. split.
      * intros [= <-]. split; [by exists d; auto|]. intros d1 [H1| ->] Hs1; [|lia].
        by apply Hnone in H1.
      * intros [(d1 & [H1| ->] & Hs1 & <-) _]; [by apply Hnone in H1|done].
Qed.

Section invariants.
Context `{HO : HashOrder}.
Implicit Types (s : PoolState) (p : Pool).

(** After [recompute_reservations] the sums describe the reports. *)
Lemma recompute_spec p :
  map_Forall (λ _ d, 0 ≤ dm_bid_value_wei d) (po_reports p) →
  (∀ slot v, po_slot_max (recompute_reservations p) !! slot = Some v ↔
     slot_peak (po_reports p) slot v) ∧
  po_reserved (recompute_reservations p) =
    map_sum (λ v, v) (po_slot_max (recompute_reservations p)).
Proof.
  intros Hpos. split.
  - intros slot v. cbn. rewrite raise_slot_max_spec.
    + unfold slot_peak. setoid_rewrite elem_of_hash_values. naive_solver.
    + apply Forall_forall. intros d [k Hk]%elem_of_hash_values. by eapply Hpos.
  - cbn. rewrite <- (map_sum_hash (λ v : Z, v)). f_equal. symmetry. apply list_fmap_id.
Qed.

Lemma recompute_inv id p :
  map_Forall (report_ok id p) (po_reports p) →
  Z.of_nat (size (po_reports p)) ≤ MAX_REPORTS_PER_POOL →
  (∀ pm, po_promotion p = Some pm → pm_collateral_id pm = id) → id ≠ [] →
  (po_members p = [] → po_collateral p = ∅) → 0 ≤ po_seen_ts p →
  pool_inv id (recompute_reservations p).
Proof.
  intros Hr Hb Hp Hid Hbk Hts. destruct (recompute_spec p) as [Hs Hsum].
  { intros k d Hd. apply (rep_value id p k d), (Hr k d Hd). }
  split; [|exact Hb|exact Hs|exact Hsum|exact Hp|done..].
  intros k d Hd. by destruct (Hr k d Hd).
Qed.

Lemma pool_default_inv id i : pool_inv id (pool_default i).
Proof.
  split; cbn; try done.
  - intros slot v. rewrite lookup_empty. split; [done|]. intros [(k & d & Hk & _) _].
    by rewrite lookup_empty in Hk.
  - intros [?|?]; done.
Qed.

Lemma pool_or_new_inv s id : state_ok s → pool_inv id (pool_or_new s id).
Proof.
  intros Hok. unfold pool_or_new. destruct (pl_pools s !! id) as [p|] eqn:E; cbn.
  - by apply (st_pools s Hok).
  - apply pool_default_inv.
Qed.

(** The index of a new pool is free, as long as indices do not wrap. *)
Lemma put_pool_index s id p :
  state_ok s → po_index p = po_index (pool_or_new s id) →
  let s' := put_pool id p s in
  Z.of_nat (size (pl_pools s')) ≤ u32_modulus →
  map_Forall (λ _ p, 0 ≤ po_index p < Z.of_nat (size (pl_pools s'))) (pl_pools s') ∧
  ∀ id1 id2 p1 p2, pl_pools s' !! id1 = Some p1 → pl_pools s' !! id2 = Some p2 →
    po_index p1 = po_index p2 → id1 = id2.
Proof.
  intros Hok Hi s' Hsize. unfold pool_or_new in Hi.
  assert (Z.of_nat (size (pl_pools s)) ≤ Z.of_nat (size (pl_pools s'))) as Hle.
  { subst s'. cbn. destruct (pl_pools s !! id) eqn:E;
      [rewrite map_size_insert_Some by done|rewrite map_size_insert_None by done]; lia. }
  destruct (st_index s Hok) as [Hlt Hinj]; [lia|].
  assert (0 ≤ po_index p < Z.of_nat (size (pl_pools s')) ∧
    ∀ id1 p1, pl_pools s !! id1 = Some p1 → po_index p1 = po_index p → id1 = id) as [Hp Hfresh].
  { subst s'. cbn in *. destruct (pl_pools s !! id) as [p0|] eqn:E; cbn in Hi.
    - specialize (Hlt _ _ E) as Hl. split; [cbn in Hl; lia|]. intros id1 p1 H1 He.
      apply (Hinj id1 id p1 p0); [done..|congruence].
    - rewrite map_size_insert_None in * by done. unfold next_index in Hi.
      rewrite Z.mod_small in Hi by lia. split; [lia|]. intros id1 p1 H1 He.
      specialize (Hlt _ _ H1). cbn in Hlt. lia. }
  split.
  - apply map_Forall_insert_2; [exact Hp|]. intros id1 p1 H1. specialize (Hlt _ _ H1). cbn in *. lia.
  - intros id1 id2 p1 p2 H1 H2 He. subst s'. cbn in H1, H2.
    apply lookup_insert_Some in H1 as [[<- <-]|[? H1]].
    all: apply lookup_insert_Some in H2 as [[<- <-]|[? H2]].
    + done.
    + symmetry. by eapply Hfresh.
    + by eapply Hfresh.
    + by eapply Hinj.
Qed.

(** Rewriting a pool without touching its members keeps the state in order. *)
Lemma put_pool_ok s id p :
  state_ok s → pool_inv id p → po_index p = po_index (pool_or_new s id) →
  po_members p = po_members (pool_or_new s id) → state_ok (put_pool id p s).
Proof.
  intros Hok Hp Hi Hm. pose proof (put_pool_index s id p Hok Hi) as Hix.
  destruct Hok as [H1 H2 H3 H4 _]. split; [| | | |exact Hix].
  - by apply map_Forall_insert_2.
  - intros id' p' k. cbn. intros [[<- <-]|[? E]]%lookup_insert_Some; [|by apply H2].
    rewrite Hm. unfold pool_or_new. destruct (pl_pools s !! id) as [p0|] eqn:E0; cbn.
    + by apply H2.
    + split; [by intros []%elem_of_nil|]. intros Hb. apply H4 in Hb. rewrite E0 in Hb. by destruct Hb.
  - apply map_Forall_insert_2; [|done]. rewrite Hm. unfold pool_or_new.
    destruct (pl_pools s !! id) as [p0|] eqn:E0; cbn; [by apply (H3 id)|constructor].
  - intros k id' Hb. cbn. rewrite lookup_insert_is_Some'. right. by eapply H4.
Qed.

Lemma bind_new_ok s k id :
  state_ok s → pl_binding s !! k = None → state_ok (bind s k id).2.
Proof.
  intros Hok Hk. unfold bind. rewrite Hk. cbn [snd].
  set (s1 := s <| pl_binding ::= _ |>). set (p := (pool_or_new s1 id) <| po_members ::= _ |>).
  assert (pool_or_new s1 id = pool_or_new s id) as Ep by done.
  assert (pool_inv id p) as Hp.
  { destruct (pool_or_new_inv s id Hok). subst p. rewrite Ep. split; try done.
    - intros k' d Hd. by destruct (pi_reports0 k' d Hd).
    - cbn. by intros []%app_nil. }
  pose proof (put_pool_index s id p Hok eq_refl) as Hix.
  assert (∀ k', k' ∈ po_members (pool_or_new s id) ↔ pl_binding s !! k' = Some id) as Hmem.
  { intros k'. unfold pool_or_new. destruct (pl_pools s !! id) as [p0|] eqn:E0; cbn.
    - by apply (st_members s Hok).
    - split; [by intros []%elem_of_nil|]. intros Hb. apply (st_bound s Hok) in Hb.
      rewrite E0 in Hb. by destruct Hb. }
  split; [| | | |exact Hix].
  - apply map_Forall_insert_2; [done|]. apply (st_pools s Hok).
  - intros id' p' k'. cbn. intros [[<- <-]|[Hne E]]%lookup_insert_Some; cbn.
    + rewrite elem_of_app, list_elem_of_singleton. change (pool_or_new s1 id) with (pool_or_new s id).
      rewrite Hmem, lookup_insert_Some. split; [|by intros [[-> _]|[_ ?]]; auto].
      intros [Hb| ->]; [|by left]. right. split; [|done]. intros ->. congruence.
    + rewrite (st_members s Hok id' p' k' E), lookup_insert_Some. split.
      * intros Hb. right. split; [|done]. intros ->. congruence.
      * by intros [[_ ->]|[_ ?]].
  - apply map_Forall_insert_2; [|apply (st_nodup s Hok)]. cbn.
    change (pool_or_new s1 id) with (pool_or_new s id). apply NoDup_app. split_and!.
    + unfold pool_or_new. destruct (pl_pools s !! id) as [p0|] eqn:E0; cbn; [|constructor].
      by apply (st_nodup s Hok id).
    + intros k' Hin ->%list_elem_of_singleton. apply Hmem in Hin. congruence.
    + apply NoDup_singleton.
  - intros k' id'. cbn. rewrite lookup_insert_is_Some', lookup_insert_Some.
    intros [[_ <-]|[_ Hb]]; [by left|]. right. by apply (st_bound s Hok k').
Qed.

(** *** Growth *)

(** Bindings are permanent, pools are never dropped or renumbered, and member
    sets only grow at the end. *)
Record extends (s s' : PoolState) : Prop := {
  ext_binding : pl_binding s ⊆ pl_binding s';
  ext_pools : ∀ id p, pl_pools s !! id = Some p → ∃ p', pl_pools s' !! id = Some p' ∧
    po_index p' = po_index p ∧ po_members p `prefix_of` po_members p';
  ext_config : pl_local_group s' = pl_local_group s ∧ pl_mode s' = pl_mode s
}.

#[global] Instance extends_preorder : PreOrder extends.
Proof.
  split.
  - intros s. split; [done| |done]. intros id p Hp. by exists p.
  - intros s1 s2 s3 [B1 P1 [C1 C1']] [B2 P2 [C2 C2']]. split; [by etrans| |split; congruence].
    intros id p Hp. destruct (P1 id p Hp) as (p2 & Hp2 & I1 & M1).
    destruct (P2 id p2 Hp2) as (p3 & Hp3 & I2 & M2). exists p3.
    split_and!; [done|congruence|by etrans].
Qed.

Lemma put_pool_extends s id p :
  po_index p = po_index (pool_or_new s id) →
  po_members (pool_or_new s id) `prefix_of` po_members p → extends s (put_pool id p s).
Proof.
  intros Hi Hm. split; [done| |done]. intros id' p' Hp'. cbn.
  destruct (decide (id' = id)) as [->|Hne].
  - exists p. rewrite lookup_insert_eq. unfold pool_or_new in *. rewrite Hp' in *. auto.
  - exists p'. by rewrite lookup_insert_ne.
Qed.

Lemma bind_extends s k id : pl_binding s !! k = None → extends s (bind s k id).2.
Proof.
  intros Hk. unfold bind. rewrite Hk. cbn [snd].
  set (s1 := s <| pl_binding ::= _ |>).
  assert (extends s s1) as H1.
  { split; [by apply insert_subseteq| |done]. intros id' p' Hp'. by exists p'. }
  etrans; [exact H1|]. apply put_pool_extends; [done|]. cbn. by apply prefix_app_r.
Qed.

(** After the validation loop no [bind] of the set fails. *)
Lemma bind_all_spec id keys :
  ∀ s changed, state_ok s → membership_conflict s id keys = None →
  ∃ b s', bind_all s id keys changed = (Ok b, s') ∧ state_ok s' ∧ extends s s' ∧
    (∀ k, pl_binding s' !! k =
       if decide (k ∈ keys ∧ pl_binding s !! k = None) then Some id else pl_binding s !! k) ∧
    (b = false → changed = false ∧ s' = s).
Proof.
  induction keys as [|k keys IH]; intros s ch Hok Hc; cbn in *.
  - exists ch, s. split_and!; [done|done|done| |by intros ->]. intros k.
    rewrite decide_False; [done|]. by intros [[]%elem_of_nil _].
  - destruct (pl_binding s !! k) as [e|] eqn:Ek.
    + case_bool_decide as He; [|done]. subst e. unfold bind. rewrite Ek, bool_decide_true by done.
      destruct (IH s (ch || false) Hok Hc) as (b & s' & -> & Hok' & Hext & Hb & Hf).
      exists b, s'. rewrite orb_false_r in Hf. split_and!; [done..| |done].
      intros k'. rewrite Hb. repeat case_decide; rewrite ?elem_of_cons in *; naive_solver congruence.
    + pose proof (bind_new_ok s k id Hok Ek) as Hok1. pose proof (bind_extends s k id Ek) as Hext1.
      assert (bind s k id = (Ok true, (bind s k id).2)) as -> by (unfold bind; by rewrite Ek).
      assert (pl_binding (bind s k id).2 = <[k := id]> (pl_binding s)) as Eb
        by (unfold bind; by rewrite Ek).
      set (s1 := (bind s k id).2) in *.
      assert (membership_conflict s1 id keys = None) as Hc1.
      { clear IH. revert Hc. induction keys as [|k2 keys IH2]; cbn; [done|]. rewrite Eb.
        destruct (decide (k2 = k)) as [->|Hne].
        - rewrite lookup_insert_eq, Ek, bool_decide_true by done. done.
        - rewrite lookup_insert_ne by done. destruct (pl_binding s !! k2); [|done].
          case_bool_decide; done. }
      destruct (IH s1 (ch || true) Hok1 Hc1) as (b & s' & -> & Hok' & Hext & Hb & Hf).
      exists b, s'. split_and!; [done|done|by etrans| |].
      * intros k'. rewrite Hb, Eb, lookup_insert.
        repeat case_decide; rewrite ?elem_of_cons in *; naive_solver congruence.
      * intros ->. destruct (Hf eq_refl) as [Hff _]. by rewrite orb_true_r in Hff.
Qed.

Lemma membership_conflict_some s id keys e :
  membership_conflict s id keys = Some e →
  ∃ k id', k ∈ keys ∧ pl_binding s !! k = Some id' ∧ id' ≠ id ∧ e = BindingConflict k id' id.
Proof.
  induction keys as [|k keys IH]; cbn; [done|]. destruct (pl_binding s !! k) as [id'|] eqn:Ek.
  - case_bool_decide as Hid.
    + intros (k2 & id2 & ? & ?)%IH. exists k2, id2. split; [by right|done].
    + intros [= <-]. exists k, id'. split_and!; [by left|done..].
  - intros (k2 & id2 & ? & ?)%IH. exists k2, id2. split; [by right|done].
Qed.

Lemma membership_conflict_none s id keys k :
  membership_conflict s id keys = None → k ∈ keys →
  pl_binding s !! k = None ∨ pl_binding s !! k = Some id.
Proof.
  induction keys as [|k' keys IH]; cbn; [by intros _ ?%elem_of_nil|].
  rewrite elem_of_cons. destruct (pl_binding s !! k') as [id'|] eqn:Ek.
  - case_bool_decide as Hid; [|done]. subst id'. intros H [-> |?]; auto.
  - intros H [-> |?]; auto.
Qed.

(** *** Every message *)

(** Nothing the derived view shows has changed. *)
Definition same_view (s s' : PoolState) : Prop :=
  pl_binding s' = pl_binding s ∧ pl_local_group s' = pl_local_group s ∧ pl_mode s' = pl_mode s ∧
  ∀ id p, pl_pools s !! id = Some p → ∃ ts, pl_pools s' !! id = Some (p <| po_seen_ts := ts |>).

Record applied (s : PoolState) (r : Result bool PoolError) (s' : PoolState) : Prop := {
  app_ok : state_ok s';
  app_extends : extends s s';
  app_quiet : changed r = false → same_view s s'
}.

Lemma same_view_refl s : same_view s s.
Proof.
  split_and!; [done..|]. intros id p Hp. exists (po_seen_ts p). rewrite Hp. by destruct p.
Qed.

Lemma applied_refl s r : state_ok s → applied s r s.
Proof. intros Hok. split; [done|done|]. intros _. apply same_view_refl. Qed.

(** Writing back the pool that was there. *)
Lemma put_same s id p : pl_pools s !! id = Some p → put_pool id p s = s.
Proof.
  intros Hp. destruct s as [g m b ps]. cbn in Hp. unfold put_pool, update_field. cbn.
  f_equal. by apply insert_id.
Qed.

Lemma applied_put s r id p :
  state_ok s → pool_inv id p → po_index p = po_index (pool_or_new s id) →
  po_members p = po_members (pool_or_new s id) → changed r = true →
  applied s r (put_pool id p s).
Proof.
  intros Hok Hp Hi Hm Hr. split; [by apply put_pool_ok| |congruence].
  apply put_pool_extends; [done|]. by rewrite Hm.
Qed.

Lemma apply_membership_ok m s :
  state_ok s → applied s (apply_membership m s).1 (apply_membership m s).2.
Proof.
  intros Hok. unfold apply_membership.
  destruct (membership_conflict s _ _) as [e|] eqn:Hc; [by apply applied_refl|].
  destruct (bind_all_spec (cm_collateral_id m) (cm_builder_pubkeys m) s false Hok Hc)
    as (b & s' & -> & Hok' & Hext & _ & Hf). cbn [fst snd].
  set (id := cm_collateral_id m). set (p := (pool_or_new s' id) <| po_seen_ts ::= _ |>).
  assert (pool_inv id p) as Hp.
  { destruct (pool_or_new_inv s' id Hok'). subst p. split; try done.
    - intros k d Hd. by destruct (pi_reports0 k d Hd).
    - cbn. lia. }
  split.
  - by apply put_pool_ok.
  - etrans; [exact Hext|]. by apply put_pool_extends.
  - cbn. intros ->. destruct (Hf eq_refl) as [_ ->]. split_and!; [done..|].
    intros id' p' Hp'. cbn. destruct (decide (id' = id)) as [->|Hne].
    + rewrite lookup_insert_eq. subst p. unfold pool_or_new. rewrite Hp'. cbn. eauto.
    + rewrite lookup_insert_ne by done. exists (po_seen_ts p'). rewrite Hp'. by destruct p'.
Qed.

Lemma apply_collateral_ok g c s :
  state_ok s → applied s (apply_collateral g c s).1 (apply_collateral g c s).2.
Proof.
  intros Hok. unfold apply_collateral. set (id := bc_collateral_id c).
  destruct (pl_pools s !! id) as [p|] eqn:Ep; [|by apply applied_refl].
  case_bool_decide; [by apply applied_refl|].
  set (p' := p <| po_collateral ::= _ |>).
  assert (applied s (Ok true) (put_pool id p' s)) as Hset.
  { apply applied_put; [done| |unfold pool_or_new; by rewrite Ep..|done].
    destruct (st_pools s Hok id p Ep). subst p'. split; try done.
    intros k d Hd. by destruct (pi_reports0 k d Hd). }
  destruct (po_collateral p !! g) as [[w ts]|]; [|exact Hset].
  destruct (bc_ts_ms c <=? ts); [by apply applied_refl|exact Hset].
Qed.

Lemma check_pool_id_ok s k id :
  check_pool_id s k id = Ok tt → id ≠ [] ∧ (∀ id', pl_binding s !! k = Some id' → id' = id).
Proof.
  unfold check_pool_id. rewrite result_bind_ok. intros ([] & H1%require_ok & H).
  apply negb_true_iff, bool_decide_eq_false in H1. split; [done|].
  apply result_bind_ok in H as ([] & H & _). intros id' E. rewrite E in H.
  by apply require_ok, bool_decide_eq_true in H.
Qed.

Lemma apply_promotion_ok pm s :
  state_ok s → applied s (apply_promotion pm s).1 (apply_promotion pm s).2.
Proof.
  intros Hok. unfold apply_promotion. set (id := pm_collateral_id pm).
  destruct (check_pool_id s _ id) as [[]|e] eqn:Ec; [|by apply applied_refl].
  apply check_pool_id_ok in Ec as [Hid _].
  pose proof (pool_or_new_inv s id Hok) as Hp. set (p := pool_or_new s id) in *.
  destruct (match po_promotion p with Some q => _ | None => _ end) eqn:Et.
  - destruct (po_promotion p) as [q|] eqn:Eq; [|done].
    subst p. unfold pool_or_new in *. destruct (pl_pools s !! id) as [p0|] eqn:E0; [|done].
    cbn. rewrite put_same by done. by apply applied_refl.
  - apply applied_put; [done| |done..|done]. destruct Hp.
    apply recompute_inv; [| | |done..].
    + intros k d [Hd Hts]%map_lookup_filter_Some. cbn in Hts. destruct (pi_reports0 k d Hd).
      split; [done..|]. unfold retains. cbn. by apply Z.leb_le.
    + cbn. etrans; [|exact pi_bound0]. apply Nat2Z.inj_le, map_size_filter.
    + intros q [= <-]. done.
Qed.

Lemma apply_demotion_ok d s :
  state_ok s → 0 ≤ dm_bid_value_wei d →
  applied s (apply_demotion d s).1 (apply_demotion d s).2.
Proof.
  intros Hok Hv. unfold apply_demotion. set (id := dm_collateral_id d).
  destruct (check_pool_id s _ id) as [[]|e] eqn:Ec; [|by apply applied_refl].
  apply check_pool_id_ok in Ec as [Hid _].
  pose proof (pool_or_new_inv s id Hok) as Hp. set (p := pool_or_new s id) in *.
  assert ((po_promotion p ≠ None ∨ po_reports p ≠ ∅) → put_pool id p s = s) as Hsame.
  { subst p. unfold pool_or_new. destruct (pl_pools s !! id) eqn:E0; cbn; [|by intros [?|?]].
    intros _. by apply put_same. }
  destruct (retains p (dm_ts_ms d)) eqn:Er; cbn [negb].
  2: { unfold retains in Er. destruct (po_promotion p); [|done].
       cbn. rewrite Hsame by (by left). by apply applied_refl. }
  destruct (Z.leb_spec MAX_REPORTS_PER_POOL (Z.of_nat (size (po_reports p)))) as [Hfull|Hroom].
  { cbn. rewrite Hsame; [by apply applied_refl|]. right. intros E.
    rewrite E, map_size_empty in Hfull. done. }
  assert (applied s (Ok true) (put_pool id
    (recompute_reservations (p <| po_reports ::= <[report_key d := d]> |>)) s)) as Hset.
  { apply applied_put; [done| |done..|done]. destruct Hp. apply recompute_inv; [| | |done..].
    - apply map_Forall_insert_2; [by split|]. intros k d' Hd'. by destruct (pi_reports0 k d' Hd').
    - cbn. rewrite map_size_insert. unfold MAX_REPORTS_PER_POOL in *. case_match; cbn; lia.
    - exact pi_promotion0. }
  unfold insert_report. destruct (po_reports p !! report_key d) as [e|] eqn:Ee; [|exact Hset].
  destruct (dm_bid_value_wei d <=? dm_bid_value_wei e); [|exact Hset].
  cbn. rewrite Hsame; [by apply applied_refl|]. right. intros E. rewrite E in Ee. done.
Qed.

Definition message_ok (m : OperatorMessage) : Prop :=
  match m with MDemotion d => 0 ≤ dm_bid_value_wei d | _ => True end.

Lemma apply_message_ok g m s :
  state_ok s → message_ok m → applied s (apply_message g m s).1 (apply_message g m s).2.
Proof.
  intros Hok Hm. destruct m; cbn.
  - by apply apply_demotion_ok.
  - by apply apply_promotion_ok.
  - by apply apply_collateral_ok.
  - by apply applied_refl.
  - by apply apply_membership_ok.
Qed.

Lemma pool_state_new_ok g mode : state_ok (pool_state_new g mode).
Proof. split; cbn; done. Qed.

(** *** Histories *)

Definition run_messages (ms : list (OperatorGroup * OperatorMessage)) (s : PoolState)
    : PoolState :=
  foldl (λ s gm, (apply_message gm.1 gm.2 s).2) s ms.

Lemma run_messages_ok ms s :
  state_ok s → Forall (λ gm, message_ok gm.2) ms →
  state_ok (run_messages ms s) ∧ extends s (run_messages ms s).
Proof.
  intros Hok Hms. revert s Hok. induction Hms as [|[g m] ms Hm Hms IH]; intros s Hok; [done|].
  cbn. destruct (apply_message_ok g m s Hok Hm) as [Hok1 Hext _].
  destruct (IH _ Hok1) as [? ?]. split; [done|by etrans].
Qed.

Lemma run_new_ok ms g mode :
  Forall (λ gm, message_ok gm.2) ms → state_ok (run_messages ms (pool_state_new g mode)).
Proof. intros Hms. apply run_messages_ok; [apply pool_state_new_ok|done]. Qed.

(** The same reports give the same derived values. *)
Lemma same_view_available s s' id p :
  same_view s s' → pl_pools s !! id = Some p → available s' id = available s id.
Proof.
  intros (_ & Hg & Hm & Hp) E. destruct (Hp id p E) as [ts E'].
  unfold available, gross, reserved. by rewrite E, E', Hg, Hm.
Qed.
End invariants.

(** *** The derived view *)

Lemma foldl_ext {A B} (f g : A → B → A) l a :
  (∀ a b, f a b = g a b) → foldl f a l = foldl g a l.
Proof. intros Hfg. revert a. induction l as [|b l IH]; intros a; [done|]. cbn. by rewrite Hfg. Qed.

Lemma foldl_insert_agree `{Countable K} {A V} (f : A → K) (g : A → V) l (m : gmap K V) k v :
  (∀ x, x ∈ l → f x = k → g x = v) → (∃ x, x ∈ l ∧ f x = k) →
  foldl (λ m x, <[f x := g x]> m) m l !! k = Some v.
Proof.
  intros Hall Hex. induction l as [|x l IH] using rev_ind.
  - by destruct Hex as (x & []%elem_of_nil & _).
  - rewrite foldl_app. cbn. destruct (decide (f x = k)) as [E|Hne].
    + rewrite <- E, lookup_insert_eq. f_equal. apply Hall; [|done]. set_solver.
    + rewrite lookup_insert_ne by done. apply IH; [set_solver|].
      destruct Hex as (y & [Hy|Hy%list_elem_of_singleton]%elem_of_app & Hk); [by exists y|congruence].
Qed.

Lemma foldl_insert_other `{Countable K} {A V} (f : A → K) (g : A → V) l (m : gmap K V) k :
  (∀ x, x ∈ l → f x ≠ k) → foldl (λ m x, <[f x := g x]> m) m l !! k = m !! k.
Proof.
  induction l as [|x l IH] using rev_ind; intros Hall; [done|].
  rewrite foldl_app. cbn. rewrite lookup_insert_ne by (apply Hall; set_solver).
  apply IH. set_solver.
Qed.

Section view.
Context `{HO : HashOrder} `{BP : BlsPoints}.
Implicit Types (o : Operator).

(** What the cache holds for a pubkey is what the pool state says of it. *)
Definition view_of (s : PoolState) (c : LocalCache) (k : Pubkey) : Prop :=
  match pl_binding s !! k with
  | None => lc_pool_binding c !! k = None
  | Some id => ∃ p, pl_pools s !! id = Some p ∧
      lc_pool_binding c !! k = Some (mkPoolBinding (po_index p) (has_report p k)) ∧
      lc_pool_view c !! po_index p =
        Some (mkPoolView id (available s id) (bool_decide (is_Some (po_promotion p))))
  end.

Lemma refreshed_view s c k :
  state_ok s → Z.of_nat (size (pl_pools s)) ≤ u32_modulus →
  (pl_binding s !! k = None → lc_pool_binding c !! k = None) →
  view_of s (update_pool_state (pool_records s) (key_records s) c) k.
Proof.
  intros Hok Hsize Hnone. destruct (st_index s Hok Hsize) as [_ Hinj]. unfold view_of.
  assert (∀ k' i b, (k', i, b) ∈ key_records s ↔ ∃ id p, pl_pools s !! id = Some p ∧
    k' ∈ po_members p ∧ i = po_index p ∧ b = has_report p k') as Hkeys.
  { intros k' i b. unfold key_records. rewrite list_elem_of_bind.
    setoid_rewrite elem_of_hash_values. setoid_rewrite list_elem_of_fmap. naive_solver. }
  destruct (pl_binding s !! k) as [id|] eqn:Eb.
  - destruct (st_bound s Hok k id Eb) as [p Ep]. exists p. split_and!; [done| |].
    + cbn. rewrite (foldl_ext _ (λ m x, <[x.1.1 := mkPoolBinding x.1.2 x.2]> m))
        by (by intros ? [[? ?] ?]).
      apply foldl_insert_agree.
      * intros [[k' i] b] (id' & p' & Ep' & Hin & -> & ->)%Hkeys. cbn. intros ->.
        apply (st_members s Hok id' p' k Ep') in Hin. simplify_eq. done.
      * exists (k, po_index p, has_report p k). split; [|done]. apply Hkeys.
        exists id, p. split_and!; [done| |done..]. by apply (st_members s Hok id p k Ep).
    + cbn. rewrite (foldl_ext _ (λ m x, <[x.1.1.1 := mkPoolView x.1.1.2 x.1.2 x.2]> m))
        by (by intros ? [[[? ?] ?] ?]).
      apply foldl_insert_agree.
      * intros x ([id' p'] & -> & Hin%elem_of_hash_iter)%list_elem_of_fmap. cbn. intros Hi.
        assert (id' = id) as -> by (by eapply Hinj). by simplify_eq.
      * exists (po_index p, id, available s id, bool_decide (is_Some (po_promotion p))).
        split; [|done]. apply list_elem_of_fmap. exists (id, p). by rewrite elem_of_hash_iter.
  - cbn. rewrite (foldl_ext _ (λ m x, <[x.1.1 := mkPoolBinding x.1.2 x.2]> m))
      by (by intros ? [[? ?] ?]).
    rewrite foldl_insert_other; [auto|].
    intros [[k' i] b] (id' & p' & Ep' & Hin & _)%Hkeys. cbn. intros ->.
    apply (st_members s Hok id' p' k Ep') in Hin. congruence.
Qed.
Lemma same_view_view s s' c k : same_view s s' → view_of s c k → view_of s' c k.
Proof.
  intros Hv. pose proof Hv as (Hb & _ & _ & Hp). unfold view_of. rewrite Hb.
  destruct (pl_binding s !! k) as [id|]; [|done]. intros (p & Ep & H1 & H2).
  destruct (Hp id p Ep) as [ts Ep']. eexists. split; [exact Ep'|].
  by rewrite (same_view_available s s' id p Hv Ep).
Qed.

Lemma extends_size s s' : extends s s' → (size (pl_pools s) ≤ size (pl_pools s'))%nat.
Proof.
  intros He. rewrite <- !(size_dom (D := gset CollateralId)). apply subseteq_size.
  intros id [p Hp]%elem_of_dom. destruct (ext_pools s s' He id p Hp) as (p' & Hp' & _).
  by apply elem_of_dom; exists p'.
Qed.

(** *** Histories of the operator task *)

Inductive OperatorOp :=
| Outgoing (transmit_payload : bool) (m : OperatorMessage)
| Incoming (configured : option OperatorGroup) (m : OperatorMessage)
| LocalDemotion (k : Pubkey)
| LocalPromotion (k : Pubkey)
| BuilderInfos (infos : list BuilderConfig) (clear : bool).

Definition operator_step (o : Operator) (op : OperatorOp) : Operator :=
  match op with
  | Outgoing b m => on_outgoing b m o
  | Incoming g m => on_incoming g m o
  | LocalDemotion k => mkOperator (op_pool o) (demote_builder k (op_cache o)).2
  | LocalPromotion k => mkOperator (op_pool o) (promote_builder k (op_cache o)).2
  | BuilderInfos infos clear => mkOperator (op_pool o) (update_builder_infos infos clear (op_cache o))
  end.

Definition operator_op_ok (op : OperatorOp) : Prop :=
  match op with Outgoing _ m | Incoming _ m => message_ok m | _ => True end.

Definition operator_start (group : OperatorGroup) (mode : PromotionMode) : Operator :=
  mkOperator (pool_state_new group mode) (set_promotion_mode mode local_cache_new).
Definition operator_run (o : Operator) (ops : list OperatorOp) : Operator :=
  foldl operator_step o ops.

(** Nothing but the operator task writes the derived view. *)
Definition same_pool_view (c c' : LocalCache) : Prop :=
  lc_pool_binding c' = lc_pool_binding c ∧ lc_pool_view c' = lc_pool_view c ∧
  lc_promotion_mode c' = lc_promotion_mode c.

Lemma update_builder_infos_view infos clear c :
  same_pool_view c (update_builder_infos infos clear c).
Proof.
  unfold update_builder_infos.
  assert (same_pool_view c (if clear then c <| lc_api_keys := ∅ |> else c)) as H0
    by (by destruct clear).
  revert H0. generalize (if clear then c <| lc_api_keys := ∅ |> else c).
  induction infos as [|b infos IH]; intros c1 H0; [done|]. cbn. apply IH.
  destruct H0 as (? & ? & ?). unfold remember_config, same_pool_view.
  by destruct (bf_api_key (bg_builder_info b)).
Qed.

Record operator_inv (mode : PromotionMode) (o : Operator) : Prop := {
  oi_ok : state_ok (op_pool o);
  oi_mode : pl_mode (op_pool o) = mode ∧ lc_promotion_mode (op_cache o) = mode;
  oi_view : Z.of_nat (size (pl_pools (op_pool o))) ≤ u32_modulus →
    ∀ k, view_of (op_pool o) (op_cache o) k
}.

Lemma operator_cache_step mode o c :
  operator_inv mode o → same_pool_view (op_cache o) c →
  operator_inv mode (mkOperator (op_pool o) c).
Proof.
  intros [H1 [H2 H3] H4] (E1 & E2 & E3). split; [done|by rewrite <- E3 in H3|].
  intros Hs k. specialize (H4 Hs k). unfold view_of in *. cbn. by rewrite E1, E2.
Qed.

Lemma operator_message_step mode o g m r pool transmit :
  applies mode = true → operator_inv mode o → message_ok m →
  apply_message g m (op_pool o) = (r, pool) →
  (transmit = false → match m with MPayload _ _ => True | _ => changed r = false end) →
  operator_inv mode (refresh_view transmit (mkOperator pool (op_cache o))).
Proof.
  intros Ha [H1 [H2 H3] H4] Hm E Ht.
  destruct (apply_message_ok g m (op_pool o) H1 Hm) as [Hok Hext Hq]. rewrite E in *. cbn in *.
  destruct (ext_config _ _ Hext) as [_ Hmode]. pose proof (extends_size _ _ Hext) as Hsize.
  unfold refresh_view. cbn. rewrite Hmode, H2, Ha, andb_true_r. destruct transmit.
  - split; cbn; [done|split; [congruence|done]|]. intros Hs k. apply refreshed_view; [done..|].
    intros Hk. specialize (H4 ltac:(lia) k). unfold view_of in H4.
    destruct (pl_binding (op_pool o) !! k) as [id|] eqn:Eb; [|done].
    apply (lookup_weaken _ (pl_binding pool)) in Eb; [congruence|apply (ext_binding _ _ Hext)].
  - split; cbn; [done|split; [congruence|done]|]. intros Hs k.
    apply (same_view_view (op_pool o)); [|apply H4; lia].
    destruct m; try (apply Hq, Ht; done). injection E as <- <-. apply same_view_refl.
Qed.

Lemma operator_step_inv mode o op :
  applies mode = true → operator_inv mode o → operator_op_ok op →
  operator_inv mode (operator_step o op).
Proof.
  intros Ha Hinv Hop. destruct op as [b m|g m|k|k|infos clear]; cbn in *.
  - unfold on_outgoing. destruct (apply_message _ m (op_pool o)) as [r pool] eqn:E.
    eapply operator_message_step; [done..|exact E|]. by destruct m.
  - unfold on_incoming. destruct (resolve_group g m) as [g'|]; [|done].
    destruct (apply_message g' m (op_pool o)) as [r pool] eqn:E.
    eapply operator_message_step; [done..|exact E|]. by destruct m.
  - apply operator_cache_step; [done|]. unfold demote_builder. by repeat case_match.
  - apply operator_cache_step; [done|]. unfold promote_builder. by repeat case_match.
  - apply operator_cache_step; [done|]. apply update_builder_infos_view.
Qed.

Lemma operator_run_inv mode group ops :
  applies mode = true → Forall operator_op_ok ops →
  operator_inv mode (operator_run (operator_start group mode) ops).
Proof.
  intros Ha Hops. assert (operator_inv mode (operator_start group mode)) as H0.
  { split; [apply pool_state_new_ok|done|]. intros _ k. by unfold view_of. }
  revert H0. unfold operator_run. generalize (operator_start group mode).
  induction Hops as [|op ops Hop Hops IH]; intros o H0; [done|]. cbn. apply IH.
  by apply operator_step_inv.
Qed.
End view.

(** ** Properties *)

Section properties.
Context `{HO : HashOrder} `{BP : BlsPoints}.

(** C29: Once pool state gates admission, what the submission path reads of a
    builder is what the pool state says, after any history of messages sent
    and received and of local status changes: the collateral is the gross
    backing of its pool net of reservations, it is optimistic exactly when its
    pool is promoted and holds no report against it, and a builder bound to no
    pool has no collateral and is not optimistic. *)
Theorem admission_follows_pool_state group mode ops k info :
  let o := operator_run (operator_start group mode) ops in
  applies mode = true → Forall operator_op_ok ops →
  Z.of_nat (size (pl_pools (op_pool o))) ≤ u32_modulus →
  lc_builder_info (op_cache o) !! k = Some info →
  get_builder_info (op_cache o) k = Some (info
    <| bf_collateral := from_option (available (op_pool o)) 0 (pl_binding (op_pool o) !! k) |>
    <| bf_is_optimistic := is_optimistic (op_pool o) k |>).
Proof.
  intros o Ha Hops Hsize Hinfo. destruct (operator_run_inv mode group ops Ha Hops) as [Hok [_ Hm] Hv].
  fold o in Hok, Hm, Hv. specialize (Hv Hsize k). unfold get_builder_info, view_of, is_optimistic in *.
  rewrite Hinfo. cbn. rewrite Hm, Ha. cbn.
  destruct (pl_binding (op_pool o) !! k) as [id|]; cbn.
  - destruct Hv as (p & Ep & -> & Hview). cbn. by rewrite Hview, Ep.
  - by rewrite Hv.
Qed.

(** After any history of messages, the reservation of a pool is the sum
    over slots of the highest bid value reported for the slot; every retained
    report is at least as recent as the pool's promotion, is charged to the
    pool it names, and there are at most [MAX_REPORTS_PER_POOL] of them. *)
Theorem reservations_exact ms group mode id p :
  let s := run_messages ms (pool_state_new group mode) in
  Forall (λ gm, message_ok gm.2) ms → pl_pools s !! id = Some p →
  reserved s id = map_sum (λ v, v) (po_slot_max p) ∧
  (∀ slot v, po_slot_max p !! slot = Some v ↔ slot_peak (po_reports p) slot v) ∧
  (∀ k d, po_reports p !! k = Some d → report_key d = k ∧ dm_collateral_id d = id ∧
     ∀ pm, po_promotion p = Some pm → pm_ts_ms pm ≤ dm_ts_ms d) ∧
  Z.of_nat (size (po_reports p)) ≤ MAX_REPORTS_PER_POOL.
Proof.
  intros s Hms Hp. pose proof (run_new_ok ms group mode Hms) as Hok. fold s in Hok.
  destruct (st_pools s Hok id p Hp) as [Hr Hb Hs Hsum _ _ _ _]. split_and!; [|done| |done].
  - unfold reserved. by rewrite Hp.
  - intros k d Hd. destruct (Hr k d Hd) as [H1 H2 _ H3]. split_and!; [done..|].
    intros pm Hpm. unfold retains in H3. rewrite Hpm in H3. by apply Z.leb_le.
Qed.

(** A binding is permanent: whatever messages follow, a bound pubkey stays
    bound to the same pool, no pool is dropped or renumbered, member sets only
    grow, and the members of a pool are exactly the pubkeys bound to it. *)
Theorem bindings_permanent ms ms' group mode :
  let s := run_messages ms (pool_state_new group mode) in
  let s' := run_messages ms' s in
  Forall (λ gm, message_ok gm.2) (ms ++ ms') →
  (∀ k id, pl_binding s !! k = Some id → pl_binding s' !! k = Some id) ∧
  (∀ id p, pl_pools s !! id = Some p → ∃ p', pl_pools s' !! id = Some p' ∧
     po_index p' = po_index p ∧ po_members p `prefix_of` po_members p') ∧
  (∀ id p k, pl_pools s' !! id = Some p → k ∈ po_members p ↔ pl_binding s' !! k = Some id).
Proof.
  intros s s' [Hms Hms']%Forall_app. pose proof (run_new_ok ms group mode Hms) as Hok.
  destruct (run_messages_ok ms' s Hok Hms') as [Hok' Hext]. fold s' in Hok', Hext. split_and!.
  - intros k id Hk. eapply lookup_weaken; [exact Hk|apply (ext_binding _ _ Hext)].
  - apply (ext_pools _ _ Hext).
  - apply (st_members s' Hok').
Qed.

(** A member set is applied whole or not at all: it is refused, leaving the
    state as it was, exactly when one of its pubkeys is bound to another pool;
    otherwise every pubkey of the set ends up bound to the pool and no other
    binding changes. *)
Theorem membership_all_or_nothing ms group mode m :
  let s := run_messages ms (pool_state_new group mode) in
  Forall (λ gm, message_ok gm.2) ms →
  match apply_membership m s with
  | (Err e, s') =>
      s' = s ∧ ∃ k id, k ∈ cm_builder_pubkeys m ∧ pl_binding s !! k = Some id ∧
        id ≠ cm_collateral_id m ∧ e = BindingConflict k id (cm_collateral_id m)
  | (Ok _, s') => ∀ k,
      pl_binding s' !! k = if decide (k ∈ cm_builder_pubkeys m)
                           then Some (cm_collateral_id m) else pl_binding s !! k
  end.
Proof.
  intros s Hms. pose proof (run_new_ok ms group mode Hms) as Hok. fold s in Hok.
  unfold apply_membership. destruct (membership_conflict s _ _) as [e|] eqn:Hc.
  - split; [done|]. by apply membership_conflict_some.
  - destruct (bind_all_spec (cm_collateral_id m) (cm_builder_pubkeys m) s false Hok Hc)
      as (b & s' & -> & _ & _ & Hb & _). cbn. intros k. rewrite Hb.
    pose proof (membership_conflict_none s _ _ k Hc) as Hk. destruct (pl_binding s !! k) as [id|];
      repeat case_decide; naive_solver.
Qed.
End properties.

(** ** Examples *)

Definition ex_demotion (ts value : Z) : Demotion := mkDemotion ts 5 [65] 1 1010 value [].
Definition ex_run (ms : list OperatorMessage) : PoolState :=
  run_messages (HO := list_order) ((λ m, ([103], m)) <$> ms) (pool_state_new [103] Follow).
Definition ex_member : OperatorMessage := MMembership (mkCollateralMembership 1 [65] [1]).
Definition ex_backing : OperatorMessage :=
  MCollateral (mkBuilderCollateral 1 0 [65] 100 (Some [103])).
Definition ex_promote (ts : Z) : OperatorMessage := MPromotion (mkPromotion ts 0 [65] 1).

(** The state depends on the order messages arrive in. Two reports of the
    same block by different operators: whether the builder is optimistic after
    a promotion between them depends on which report came first. A report for
    a pool whose pubkey is later bound to another pool stays charged there,
    while the same report arriving after the binding is refused. *)
Theorem report_order_matters :
  let earlier := MDemotion (ex_demotion 10 7) in
  let later := MDemotion (ex_demotion 20 7) in
  let elsewhere := MMembership (mkCollateralMembership 1 [66] [1]) in
  is_optimistic (HO := list_order) (ex_run [ex_member; earlier; later; ex_promote 15]) 1 = true ∧
  is_optimistic (HO := list_order) (ex_run [ex_member; later; earlier; ex_promote 15]) 1 = false ∧
  reserved (ex_run [earlier; elsewhere]) [65] = 7 ∧
  reserved (ex_run [elsewhere; earlier]) [65] = 0.
Proof. by vm_compute. Qed.

Definition ex_operator_ops : list OperatorOp :=
  [BuilderInfos [mkBuilderConfig 1 builder_info_default] true;
   Outgoing true ex_member; Outgoing true ex_backing; Outgoing true (ex_promote 5);
   Incoming None (MDemotion (mkDemotion 6 5 [65] 2 1010 7 []))].
Definition ex_operator : Operator (BP := ex_points) :=
  operator_run (HO := list_order) (BP := ex_points) (operator_start (BP := ex_points) [103] Follow)
    ex_operator_ops.

Lemma admission_follows_pool_state_witness :
  get_builder_info (op_cache ex_operator) 1 = Some (builder_info_default
    <| bf_collateral := 93 |> <| bf_is_optimistic := true |>).
Proof.
  etrans.
  - apply (admission_follows_pool_state (HO := list_order) (BP := ex_points) [103] Follow
      ex_operator_ops 1 builder_info_default).
    + reflexivity.
    + repeat constructor; cbn; lia.
    + vm_compute. discriminate.
    + reflexivity.
  - reflexivity.
Defined.

Lemma reservations_exact_witness :
  ∃ p, pl_pools (ex_run [ex_member; MDemotion (ex_demotion 10 7);
      MDemotion (mkDemotion 11 5 [65] 1 1011 9 [])]) !! [65] = Some p ∧
    map_sum (λ v, v) (po_slot_max p) = 9.
Proof.
  destruct (pl_pools (ex_run [ex_member; MDemotion (ex_demotion 10 7);
    MDemotion (mkDemotion 11 5 [65] 1 1011 9 [])]) !! [65]) as [p|] eqn:E; [|by vm_compute in E].
  exists p. split; [done|].
  destruct (reservations_exact (HO := list_order)
    ((λ m, ([103], m)) <$> [ex_member; MDemotion (ex_demotion 10 7);
       MDemotion (mkDemotion 11 5 [65] 1 1011 9 [])]) [103] Follow [65] p) as [H _].
  - repeat constructor; cbn; lia.
  - exact E.
  - rewrite <- H. reflexivity.
Defined.

Lemma bindings_permanent_witness :
  pl_binding (ex_run [ex_member; MMembership (mkCollateralMembership 2 [66] [1])]) !! 1 = Some [65].
Proof.
  apply (bindings_permanent (HO := list_order) [([103], ex_member)]
    [([103], MMembership (mkCollateralMembership 2 [66] [1]))] [103] Follow).
  - repeat constructor.
  - reflexivity.
Defined.

Lemma membership_all_or_nothing_witness :
  pl_binding (apply_membership (mkCollateralMembership 2 [66] [1; 2]) (ex_run [ex_member])).2 !! 2
    = None.
Proof.
  pose proof (membership_all_or_nothing (HO := list_order) [([103], ex_member)] [103] Follow
    (mkCollateralMembership 2 [66] [1; 2]) ltac:(repeat constructor)) as H.
  change (run_messages _ _) with (ex_run [ex_member]) in H.
  destruct (apply_membership _ _) as [[b|e] s'] eqn:E; [by vm_compute in E|].
  destruct H as [-> _]. reflexivity.
Defined.
