(* ===== verification/Replay.v ===== *)
(** * Replaying the pool state

    [PoolState::replay] of [operator/src/pool.rs]: what a newly subscribed
    peer holds after it applied the messages of a replay. *)

From S2P Require Import Prelude Types Submission LocalCache PoolState.

(** ** What the peer should hold

    The pools of the sender, with the sender's own contribution as the only
    collateral. Pools are compared up to their local index. *)
Section replica.
Context `{HO : HashOrder}.
Implicit Types (p : Pool) (s t : PoolState).

Definition strip (p : Pool) : Pool := p <| po_index := 0 |>.

(** After the member sets, the collateral, the promotions and the reports. *)
Definition replica1 (p : Pool) : option Pool :=
  if decide (po_members p = []) then None
  else Some (mkPool 0 (po_members p) (po_seen_ts p) ∅ None ∅ ∅ 0).

Definition local_collateral (g : OperatorGroup) (p : Pool) : gmap OperatorGroup (Z * u64) :=
  match po_collateral p !! g with Some c => {[g := c]} | None => ∅ end.

Definition replica2 (g : OperatorGroup) (p : Pool) : option Pool :=
  (λ q, q <| po_collateral := local_collateral g p |>) <$> replica1 p.

Definition replica3 (g : OperatorGroup) (p : Pool) : option Pool :=
  match po_promotion p with
  | None => replica2 g p
  | Some pm => Some ((default (pool_default 0) (replica2 g p)) <| po_promotion := Some pm |>)
  end.

Definition replica4 (g : OperatorGroup) (p : Pool) : option Pool :=
  if decide (po_reports p = ∅) then replica3 g p
  else Some (recompute_reservations
               ((default (pool_default 0) (replica3 g p)) <| po_reports := po_reports p |>)).

(** ** Exact effect of the messages of a replay *)

Lemma bind_all_exact id keys : ∀ t b,
  NoDup keys → (∀ k, k ∈ keys → pl_binding t !! k = None) →
  ∃ b', bind_all t id keys b = (Ok b', mkPoolState (pl_local_group t) (pl_mode t)
    (foldl (λ m k, <[k := id]> m) (pl_binding t) keys)
    (match keys with
     | [] => pl_pools t
     | _ => <[id := (pool_or_new t id) <| po_members ::= λ l, l ++ keys |>]> (pl_pools t)
     end)).
Proof.
  induction keys as [|k keys IH]; intros t b Hnd Hun; cbn.
  - exists b. by destruct t.
  - apply NoDup_cons in Hnd as [Hk Hnd]. unfold bind. rewrite (Hun k) by (by left).
    set (t1 := put_pool _ _ _). destruct (IH t1 (b || true) Hnd) as [b' ->].
    { intros k' Hk'. subst t1. cbn. rewrite lookup_insert_ne by (intros ->; done).
      apply Hun. by right. }
    exists b'. f_equal. f_equal. destruct keys as [|k2 keys]; [done|].
    subst t1. unfold pool_or_new. cbn. rewrite lookup_insert_eq, insert_insert_eq. cbn.
    unfold update_field. cbn. by rewrite <- app_assoc.
Qed.

Lemma unbound_no_conflict t id keys :
  (∀ k, k ∈ keys → pl_binding t !! k = None) → membership_conflict t id keys = None.
Proof.
  induction keys as [|k keys IH]; intros Hun; [done|]. cbn. rewrite (Hun k) by (by left).
  apply IH. intros k' Hk'. apply Hun. by right.
Qed.

Lemma foldl_bind_lookup id keys (m : gmap Pubkey CollateralId) k :
  foldl (λ m k, <[k := id]> m) m keys !! k = if decide (k ∈ keys) then Some id else m !! k.
Proof.
  revert m. induction keys as [|k' keys IH]; intros m; cbn.
  - by rewrite decide_False by (by intros ?%elem_of_nil).
  - rewrite IH. destruct (decide (k ∈ keys)), (decide (k ∈ k' :: keys)) as [Hin|Hin]; try done.
    + set_solver.
    + apply elem_of_cons in Hin as [->|?]; [|done]. by rewrite lookup_insert_eq.
    + rewrite lookup_insert_ne; [done|]. set_solver.
Qed.

(** The part of the peer's state the pools do not show. *)
Record replica_inv (s t : PoolState) : Prop := {
  ri_binding : ∀ k, pl_binding t !! k =
    (id ← pl_binding s !! k; if decide (is_Some (pl_pools t !! id)) then Some id else None);
  ri_dom : ∀ id, is_Some (pl_pools t !! id) → is_Some (pl_pools s !! id)
}.

(** A pool is never missing for lack of room, and its reports are accepted. *)
Definition replayable (s : PoolState) : Prop :=
  Z.of_nat (size (pl_pools s)) ≤ MAX_UNBOUND_POOLS ∧
  (∀ id p pm id', pl_pools s !! id = Some p → po_promotion p = Some pm →
     pl_binding s !! pm_builder_pubkey pm = Some id' → id' = id) ∧
  (∀ id p k d id', pl_pools s !! id = Some p → po_reports p !! k = Some d →
     pl_binding s !! dm_builder_pubkey d = Some id' → id' = id).

Lemma replica_room s t id :
  Z.of_nat (size (pl_pools s)) ≤ MAX_UNBOUND_POOLS → replica_inv s t → is_Some (pl_pools s !! id) →
  (MAX_UNBOUND_POOLS <=? Z.of_nat (size (pl_pools t))) &&
    negb (bool_decide (is_Some (pl_pools t !! id))) = false.
Proof.
  intros Hs [_ Hd] Hid. case_bool_decide as Ht; [by rewrite andb_false_r|].
  rewrite andb_true_r. apply Z.leb_gt.
  assert (size (pl_pools t) < size (pl_pools s))%nat; [|lia].
  rewrite <- !(size_dom (D := gset CollateralId)). apply subset_size. split.
  - intros i Hi%elem_of_dom. by apply elem_of_dom, Hd.
  - intros Hsub. apply Ht, elem_of_dom, Hsub. by apply elem_of_dom.
Qed.

Lemma replica_check s t id pubkey :
  Z.of_nat (size (pl_pools s)) ≤ MAX_UNBOUND_POOLS → replica_inv s t → is_Some (pl_pools s !! id) →
  id ≠ [] → (∀ id', pl_binding s !! pubkey = Some id' → id' = id) →
  check_pool_id t pubkey id = Ok tt.
Proof.
  intros Hs Hinv Hid Hne Hagree. unfold check_pool_id.
  rewrite bool_decide_false by done. cbn. rewrite (replica_room s t id) by done.
  rewrite (ri_binding s t Hinv). destruct (pl_binding s !! pubkey) as [id'|]; cbn; [|done].
  rewrite (Hagree id' eq_refl). case_decide; cbn; [|done]. by rewrite bool_decide_true.
Qed.

Section sender.
Variable s : PoolState.
Hypothesis Hok : state_ok s.
Hypothesis Hrep : replayable s.

Abbreviation g := (pl_local_group s).

Definition deliver (ms : list OperatorMessage) (t : PoolState) : PoolState :=
  run_messages ((λ m, (g, m)) <$> ms) t.

Lemma deliver_app ms ms' t : deliver (ms ++ ms') t = deliver ms' (deliver ms t).
Proof. unfold deliver, run_messages. by rewrite fmap_app, foldl_app. Qed.

Lemma put_replica t id p q :
  replica_inv s t → pl_pools s !! id = Some p →
  is_Some (pl_pools t !! id) ∨ po_members p = [] → replica_inv s (put_pool id q t).
Proof.
  intros [Hb Hd] Hp Hor. split.
  - intros k. cbn. rewrite Hb. destruct (pl_binding s !! k) as [id'|] eqn:Ek; cbn; [|done].
    destruct (decide (id' = id)) as [->|Hne].
    + rewrite lookup_insert_eq. destruct Hor as [Ht|Hm].
      * by rewrite !decide_True by done.
      * apply (st_members s Hok id p k Hp) in Ek. rewrite Hm in Ek. by apply elem_of_nil in Ek.
    + by rewrite lookup_insert_ne.
  - intros id'. cbn. rewrite lookup_insert_is_Some'. intros [<-|?]; [by exists p|auto].
Qed.

(** One stage: the messages of each pool take its replica from [f] to [h]. *)
Definition stage_step (f h : Pool → option Pool) (ms : CollateralId → Pool → list OperatorMessage)
    : Prop :=
  ∀ t id p, pl_pools s !! id = Some p → replica_inv s t → strip <$> pl_pools t !! id = f p →
    let t' := deliver (ms id p) t in
    replica_inv s t' ∧ strip <$> pl_pools t' !! id = h p ∧
    ∀ id', id' ≠ id → pl_pools t' !! id' = pl_pools t !! id'.

Lemma stage_run f h ms t :
  stage_step f h ms → replica_inv s t →
  (∀ id, strip <$> pl_pools t !! id = pl_pools s !! id ≫= f) →
  let t' := deliver (hash_iter (pl_pools s) ≫= λ e, ms e.1 e.2) t in
  replica_inv s t' ∧ ∀ id, strip <$> pl_pools t' !! id = pl_pools s !! id ≫= h.
Proof.
  intros Hstep Hinv Hf.
  assert (∀ l t, NoDup l.*1 → (∀ e, e ∈ l → pl_pools s !! e.1 = Some e.2) → replica_inv s t →
    (∀ e, e ∈ l → strip <$> pl_pools t !! e.1 = f e.2) →
    let t' := deliver (l ≫= λ e, ms e.1 e.2) t in
    replica_inv s t' ∧ (∀ e, e ∈ l → strip <$> pl_pools t' !! e.1 = h e.2) ∧
    (∀ id, id ∉ l.*1 → pl_pools t' !! id = pl_pools t !! id)) as Hl.
  { induction l as [|[id p] l IH]; intros t0 Hnd Hs Hinv0 Hf0; [split_and!; set_solver|].
    apply NoDup_cons in Hnd as [Hni Hnd]. cbn [mbind list_bind]. rewrite deliver_app.
    destruct (Hstep t0 id p) as (H1 & H2 & H3); [apply (Hs (id, p)); by left|done| |].
    { apply (Hf0 (id, p)). by left. }
    cbn [fst snd] in *. set (t1 := deliver (ms id p) t0) in *.
    destruct (IH t1 Hnd) as (I1 & I2 & I3); [intros e He; apply Hs; by right|done| |].
    { intros e He. rewrite H3; [apply Hf0; by right|]. intros <-. apply Hni.
      by apply list_elem_of_fmap_2. }
    fold (mbind (M := list) (λ e, ms e.1 e.2) l). split_and!; [done| |].
    - intros e [->|He]%elem_of_cons; [|auto]. cbn. by rewrite I3.
    - intros id' Hid'. cbn in Hid'. apply not_elem_of_cons in Hid' as [? ?]. by rewrite I3, H3. }
  destruct (Hl (hash_iter (pl_pools s)) t) as (H1 & H2 & H3); [| |done| |].
  - rewrite hash_iter_perm. apply NoDup_fst_map_to_list.
  - intros [id p]. apply elem_of_hash_iter.
  - intros [id p] He%elem_of_hash_iter. cbn. by rewrite Hf, He.
  - split; [done|]. intros id. destruct (pl_pools s !! id) as [p|] eqn:Ep; cbn.
    + apply (H2 (id, p)). by apply elem_of_hash_iter.
    + rewrite H3, Hf, Ep; [done|].
      intros ([i p] & -> & Hin%elem_of_hash_iter)%list_elem_of_fmap. cbn in Ep. congruence.
Qed.

(** *** The four stages *)

Lemma stage_membership :
  stage_step (λ _, None) replica1 (λ id p, option_list (MMembership <$> membership s id)).
Proof.
  intros t id p Hp Hinv Hf. apply fmap_None in Hf. unfold membership, replica1. rewrite Hp. cbn.
  case_bool_decide as Hm; case_decide; try done; cbn.
  { split_and!; [done|by rewrite Hf|done]. }
  assert (∀ k, k ∈ po_members p → pl_binding t !! k = None) as Hun.
  { intros k Hk%(st_members s Hok id p k Hp). rewrite (ri_binding s t Hinv), Hk. cbn.
    rewrite decide_False; [done|]. rewrite Hf. by intros [? ?]. }
  set (m := mkCollateralMembership _ _ _).
  pose proof (unbound_no_conflict t id (po_members p) Hun) as Hc.
  destruct (bind_all_exact id (po_members p) t false (st_nodup s Hok id p Hp) Hun) as [b' Eb].
  unfold apply_membership. cbn [cm_collateral_id cm_builder_pubkeys m]. rewrite Hc, Eb. cbn [snd].
  destruct (po_members p) as [|k0 l] eqn:El; [done|]. rewrite <- El in *. clear Hc Eb.
  split_and!.
  - split; cbn.
    + intros k. rewrite foldl_bind_lookup, (ri_binding s t Hinv).
      case_decide as Hk; cbn.
      * apply (st_members s Hok id p k Hp) in Hk. rewrite Hk. cbn.
        by rewrite lookup_insert_eq, decide_True.
      * destruct (pl_binding s !! k) as [id'|] eqn:Ek; cbn; [|done].
        destruct (decide (id' = id)) as [->|Hne].
        -- by apply (st_members s Hok id p k Hp) in Ek.
        -- by rewrite !lookup_insert_ne.
    + intros id'. rewrite !lookup_insert_is_Some'. intros [<-|[<-|?]]; [by exists p..|].
      by apply (ri_dom s t Hinv).
  - cbn. rewrite lookup_insert_eq. cbn. unfold pool_or_new. cbn. rewrite lookup_insert_eq. cbn.
    rewrite Hf. cbn. unfold strip, update_field. cbn.
    rewrite Z.max_r by (apply (pi_seen _ _ (st_pools s Hok id p Hp))). done.
  - intros id' Hne. cbn. by rewrite !lookup_insert_ne.
Qed.

Lemma stage_collateral :
  stage_step replica1 (replica2 g) (λ id p,
    option_list ((λ '(wei, ts), MCollateral (mkBuilderCollateral ts 0 id wei (Some g))) <$>
      po_collateral p !! g)).
Proof.
  intros t id p Hp Hinv Hf. unfold replica2, local_collateral.
  destruct (po_collateral p !! g) as [[wei ts]|] eqn:Ec; cbn.
  - assert (po_members p ≠ []) as Hm.
    { intros Hm. apply (pi_backed _ _ (st_pools s Hok id p Hp)) in Hm. by rewrite Hm in Ec. }
    unfold replica1 in *. rewrite decide_False in * by done.
    apply fmap_Some in Hf as (q & Hq & Hstrip). destruct q as [i ms se co pr re sm rs].
    unfold strip, update_field in Hstrip. cbn in Hstrip. injection Hstrip as <- <- <- <- <- <- <-.
    unfold apply_collateral. cbn. rewrite Hq. cbn. rewrite bool_decide_false by done.
    rewrite (lookup_empty (M := gmap OperatorGroup) (A := Z * u64)). cbn.
    split_and!.
    + apply (put_replica t id p); [done..|]. left. by rewrite Hq.
    + cbn. by rewrite lookup_insert_eq.
    + intros id' Hne. cbn. by rewrite lookup_insert_ne.
  - split_and!; [done| |done]. rewrite Hf. unfold replica1. by case_decide.
Qed.

(** The pool a promotion or a report of [id] meets at the peer. *)
Lemma replica_pool f t id p :
  strip <$> pl_pools t !! id = f p → strip (pool_or_new t id) = default (pool_default 0) (f p).
Proof. intros <-. unfold pool_or_new. by destruct (pl_pools t !! id). Qed.

Lemma replica_members t id p :
  replica_inv s t → pl_pools s !! id = Some p → strip <$> pl_pools t !! id = replica2 g p →
  is_Some (pl_pools t !! id) ∨ po_members p = [].
Proof.
  intros _ Hp Hf. unfold replica2, replica1 in Hf. case_decide; [by right|]. left.
  apply fmap_Some in Hf as (q & -> & _). eauto.
Qed.

Lemma replica2_fresh p : 
  let q := default (pool_default 0) (replica2 g p) in
  po_promotion q = None ∧ po_reports q = ∅ ∧ po_slot_max q = ∅ ∧ po_reserved q = 0.
Proof. unfold replica2, replica1. by case_decide. Qed.

Lemma recompute_empty p : po_reports p = ∅ → po_slot_max p = ∅ → po_reserved p = 0 →
  recompute_reservations p = p.
Proof.
  destruct p as [i ms se co pr re sm rs]. cbn. intros -> -> ->.
  unfold recompute_reservations, update_field. cbn.
  rewrite !hash_values_empty. cbn. by rewrite !hash_values_empty.
Qed.

Lemma stage_promotion :
  stage_step (replica2 g) (replica3 g) (λ id p, option_list (MPromotion <$> po_promotion p)).
Proof.
  intros t id p Hp Hinv Hf. pose proof (replica_members t id p Hinv Hp Hf) as Hmem.
  pose proof (replica_pool (replica2 g) t id p Hf) as Hq.
  destruct (replica2_fresh p) as (F1 & F2 & F3 & F4). rewrite <- Hq in F1, F2, F3, F4.
  unfold replica3. destruct (po_promotion p) as [pm|] eqn:Epm; cbn; [|done].
  pose proof (st_pools s Hok id p Hp) as Hpi. destruct Hrep as (Hsz & Hpm & _).
  pose proof (pi_promotion _ _ Hpi pm Epm) as Hid. unfold apply_promotion. rewrite Hid.
  rewrite (replica_check s t id) by (eauto; apply (pi_named _ _ Hpi); left; congruence).
  set (q := pool_or_new t id) in *. assert (po_promotion q = None) as -> by exact F1.
  assert (filter (λ kv : ReportKey * Demotion, pm_ts_ms pm ≤ dm_ts_ms kv.2) (po_reports q) = ∅) as Hfl.
  { assert (po_reports q = ∅) as -> by exact F2. apply map_filter_empty. }
  split_and!.
  - by apply (put_replica t id p).
  - cbn. rewrite lookup_insert_eq. cbn [fmap option_fmap option_map]. f_equal. rewrite <- Hq.
    rewrite recompute_empty; [|exact Hfl|exact F3|exact F4]. unfold strip, update_field. cbn.
    rewrite Hfl. by rewrite <- (F2 : po_reports q = ∅).
  - intros id' Hne. cbn. by rewrite lookup_insert_ne.
Qed.

Abbreviation add_reports := (foldl (λ (m : gmap ReportKey Demotion) e, <[e.1 := e.2]> m)).

Lemma reports_complete (m : gmap ReportKey Demotion) : add_reports ∅ (hash_iter m) = m.
Proof.
  apply map_eq. intros k. destruct (m !! k) as [d|] eqn:Ek.
  - apply foldl_insert_agree.
    + intros [k' d'] Hin%elem_of_hash_iter. cbn. intros ->. congruence.
    + exists (k, d). by rewrite elem_of_hash_iter.
  - rewrite foldl_insert_other; [done|]. intros [k' d'] Hin%elem_of_hash_iter. cbn. congruence.
Qed.

Lemma promotion_replica p :
  po_promotion (default (pool_default 0) (replica3 g p)) = po_promotion p.
Proof.
  unfold replica3. destruct (po_promotion p) eqn:E; [done|]. apply (replica2_fresh p).
Qed.

(** Reports still to come leave room for them. *)
Lemma reports_room (id : CollateralId) p (R : gmap ReportKey Demotion) (k : ReportKey) :
  pool_inv id p → R ⊆ po_reports p → is_Some (po_reports p !! k) → R !! k = None →
  Z.of_nat (size R) < MAX_REPORTS_PER_POOL.
Proof.
  intros Hpi Hsub Hk HR. pose proof (pi_bound _ _ Hpi).
  assert (size R < size (po_reports p))%nat; [|lia].
  rewrite <- !(size_dom (D := gset ReportKey)). apply subset_size. split.
  - by apply subseteq_dom.
  - intros Hd. apply elem_of_dom in Hk. apply Hd, elem_of_dom in Hk. rewrite HR in Hk. by destruct Hk.
Qed.

Lemma deliver_report t (id : CollateralId) p (R : gmap ReportKey Demotion) (k : ReportKey) (d : Demotion) :
  let base := default (pool_default 0) (replica3 g p) in
  pl_pools s !! id = Some p → replica_inv s t → is_Some (pl_pools t !! id) ∨ po_members p = [] →
  strip (pool_or_new t id) = recompute_reservations (base <| po_reports := R |>) →
  R ⊆ po_reports p → po_reports p !! k = Some d → R !! k = None →
  let t' := deliver [MDemotion d] t in
  replica_inv s t' ∧
  strip <$> pl_pools t' !! id =
    Some (recompute_reservations (base <| po_reports := <[k := d]> R |>)) ∧
  ∀ id', id' ≠ id → pl_pools t' !! id' = pl_pools t !! id'.
Proof.
  intros base Hp Hinv Hmem Hq HR Hd HRk. pose proof (st_pools s Hok id p Hp) as Hpi.
  destruct Hrep as (Hsz & _ & Hag). destruct (pi_reports _ _ Hpi k d Hd) as [Hkey Hid _ Hret].
  assert (id ≠ []) as Hne by (apply (pi_named _ _ Hpi); right; intros E; by rewrite E in Hd).
  unfold deliver. cbn. unfold apply_demotion. rewrite Hid, (replica_check s t id) by eauto.
  set (q := pool_or_new t id) in *.
  assert (po_promotion q = po_promotion p) as Eprom.
  { change (po_promotion (strip q) = po_promotion p). rewrite Hq. apply promotion_replica. }
  assert (po_reports q = R) as Ereps by (change (po_reports (strip q) = R); by rewrite Hq).
  assert (retains q (dm_ts_ms d) = true) as Hret' by (revert Hret; unfold retains; by rewrite Eprom).
  rewrite Hret'. cbn [negb]. rewrite Ereps.
  pose proof (reports_room id p R k Hpi HR ltac:(eauto) HRk) as Hroom.
  rewrite (proj2 (Z.leb_gt _ _) Hroom). unfold insert_report. rewrite Ereps, Hkey, HRk. cbn [snd].
  split_and!.
  - by apply (put_replica t id p).
  - cbn. rewrite lookup_insert_eq. cbn [fmap option_fmap option_map]. f_equal.
    change (recompute_reservations ((strip q) <| po_reports ::= <[k := d]> |>) =
      recompute_reservations (base <| po_reports := <[k := d]> R |>)).
    rewrite Hq. unfold recompute_reservations, update_field. done.
  - intros id' Hne'. cbn. by rewrite lookup_insert_ne.
Qed.

Lemma deliver_reports (id : CollateralId) p (l : list (ReportKey * Demotion)) : ∀ t (R : gmap ReportKey Demotion),
  let base := default (pool_default 0) (replica3 g p) in
  pl_pools s !! id = Some p → replica_inv s t → is_Some (pl_pools t !! id) ∨ po_members p = [] →
  strip (pool_or_new t id) = recompute_reservations (base <| po_reports := R |>) →
  R ⊆ po_reports p → NoDup l.*1 → (∀ k d, (k, d) ∈ l → po_reports p !! k = Some d ∧ R !! k = None) →
  let t' := deliver (MDemotion <$> l.*2) t in
  replica_inv s t' ∧
  strip (pool_or_new t' id) = recompute_reservations (base <| po_reports := add_reports R l |>) ∧
  (l ≠ [] ∨ is_Some (pl_pools t !! id) → is_Some (pl_pools t' !! id)) ∧
  ∀ id', id' ≠ id → pl_pools t' !! id' = pl_pools t !! id'.
Proof.
  induction l as [|[k d] l IH]; intros t R base Hp Hinv Hmem Hq HR Hnd Hl; cbn [fmap list_fmap].
  - split_and!; [done..| |done]. by intros [?|?].
  - apply NoDup_cons in Hnd as [Hni Hnd]. destruct (Hl k d ltac:(by left)) as [Hd HRk].
    change (deliver _ t) with (deliver (MDemotion <$> l.*2) (deliver [MDemotion d] t)).
    destruct (deliver_report t id p R k d Hp Hinv Hmem Hq HR Hd HRk) as (H1 & H2 & H3).
    set (t1 := deliver [MDemotion d] t) in *.
    apply fmap_Some in H2 as (q1 & Eq1 & Hq1).
    destruct (IH t1 (<[k := d]> R)) as (I1 & I2 & I3 & I4); [done|done|left; by rewrite Eq1| | |done| |].
    + unfold pool_or_new. rewrite Eq1. cbn. done.
    + by apply insert_subseteq_l.
    + intros k' d' Hin. destruct (Hl k' d' ltac:(by right)) as [Hd' HR']. split; [done|].
      rewrite lookup_insert_ne; [done|]. intros ->. apply Hni. by apply (list_elem_of_fmap_2 fst _ (k', d')).
    + split_and!; [done|done| |]; cbn [fst snd].
      * intros _. apply I3. right. by rewrite Eq1.
      * intros id' Hne. by rewrite I4, H3.
Qed.

Lemma stage_reports :
  stage_step (replica3 g) (replica4 g) (λ id p, MDemotion <$> hash_values (po_reports p)).
Proof.
  intros t id p Hp Hinv Hf.
  assert (is_Some (pl_pools t !! id) ∨ po_members p = []) as Hmem.
  { unfold replica3, replica2, replica1 in Hf. destruct (decide (po_members p = [])); [by right|].
    left. destruct (po_promotion p); apply fmap_Some in Hf as (q & -> & _); eauto. }
  pose proof (replica_pool (replica3 g) t id p Hf) as Hq.
  assert (let b := default (pool_default 0) (replica3 g p) in
    po_reports b = ∅ ∧ po_slot_max b = ∅ ∧ po_reserved b = 0) as (B1 & B2 & B3).
  { unfold replica3. destruct (replica2_fresh p) as (_ & ? & ? & ?). by destruct (po_promotion p). }
  set (base := default (pool_default 0) (replica3 g p)) in *.
  assert (strip (pool_or_new t id) = recompute_reservations (base <| po_reports := ∅ |>)) as Hq0.
  { rewrite Hq, recompute_empty by done. rewrite <- B1. by destruct base. }
  destruct (deliver_reports id p (hash_iter (po_reports p)) t ∅) as (I1 & I2 & I3 & I4); try done.
  - apply map_empty_subseteq.
  - rewrite hash_iter_perm. apply NoDup_fst_map_to_list.
  - intros k d Hin%elem_of_hash_iter. split; [done|]. apply lookup_empty.
  - fold base in I2. rewrite reports_complete in I2. split_and!; [done| |done].
    unfold replica4. fold base. case_decide as Hre.
    + change (hash_values (po_reports p)) with (hash_iter (po_reports p)).*2.
      rewrite Hre, (hash_values_empty : (hash_iter (∅ : gmap ReportKey Demotion)).*2 = []). exact Hf.
    + destruct I3 as [q Eq].
      { left. intros E. apply Hre, hash_values_nil. unfold hash_values. by rewrite E. }
      fold (hash_values (po_reports p)) in Eq, I2. unfold pool_or_new in I2. rewrite Eq in *. cbn in *.
      by rewrite I2.
Qed.

(** *** The whole replay *)

Lemma omap_bind {A B} (f : A → option B) l : omap f l = l ≫= λ x, option_list (f x).
Proof. induction l as [|x l IH]; [done|]. cbn. rewrite IH. by destruct (f x). Qed.

Lemma bind_fmap {A B C} (f : A → B) (h : B → list C) l : (f <$> l) ≫= h = l ≫= λ x, h (f x).
Proof. induction l as [|x l IH]; [done|]. cbn. by f_equal. Qed.

Lemma bind_ext {A B} (f h : A → list B) l : (∀ x, f x = h x) → l ≫= f = l ≫= h.
Proof. intros E. induction l as [|x l IH]; [done|]. cbn. by rewrite E, IH. Qed.

Lemma replay_stages t :
  deliver (replay s) t =
    deliver (hash_iter (pl_pools s) ≫= λ e, MDemotion <$> hash_values (po_reports e.2))
   (deliver (hash_iter (pl_pools s) ≫= λ e, option_list (MPromotion <$> po_promotion e.2))
   (deliver (hash_iter (pl_pools s) ≫= λ e, option_list ((λ '(wei, ts),
       MCollateral (mkBuilderCollateral ts 0 e.1 wei (Some g))) <$> po_collateral e.2 !! g))
   (deliver (hash_iter (pl_pools s) ≫= λ e, option_list (MMembership <$> membership s e.1)) t))).
Proof.
  unfold replay. rewrite !deliver_app, !omap_bind. unfold hash_keys, hash_values.
  rewrite !bind_fmap. f_equal. f_equal. f_equal. apply bind_ext. by intros [id p].
Qed.

Lemma replay_replica g' mode' :
  let t := deliver (replay s) (pool_state_new g' mode') in
  replica_inv s t ∧ ∀ id, strip <$> pl_pools t !! id = pl_pools s !! id ≫= replica4 g.
Proof.
  cbv zeta. rewrite replay_stages.
  assert (replica_inv s (pool_state_new g' mode')) as H0.
  { split; cbn.
    - intros k. destruct (pl_binding s !! k); cbn; [|done]. by rewrite decide_False by (by intros [? ?]).
    - by intros id [? ?]. }
  destruct (stage_run _ _ _ _ stage_membership H0) as [H1 P1].
  { intros id. cbn. by destruct (pl_pools s !! id). }
  destruct (stage_run _ _ _ _ stage_collateral H1 P1) as [H2 P2].
  destruct (stage_run _ _ _ _ stage_promotion H2 P2) as [H3 P3].
  exact (stage_run _ _ _ _ stage_reports H3 P3).
Qed.

(** The reservations follow from the reports. *)
Lemma reservations_unique id p q :
  pool_inv id p → po_reports q = po_reports p →
  po_reserved (recompute_reservations q) = po_reserved p.
Proof.
  intros Hpi E. destruct (recompute_spec q) as [Hs ->].
  { rewrite E. intros k d Hd. by destruct (pi_reports _ _ Hpi k d Hd). }
  rewrite (pi_reserved _ _ Hpi). f_equal. apply map_eq. intros slot. apply option_eq. intros v.
  by rewrite Hs, (pi_slot_max _ _ Hpi), E.
Qed.

Lemma replica4_fields id p :
  pool_inv id p → po_members p ≠ [] ∨ po_promotion p ≠ None ∨ po_reports p ≠ ∅ →
  ∃ q, replica4 g p = Some q ∧ po_members q = po_members p ∧ po_promotion q = po_promotion p ∧
    po_reports q = po_reports p ∧ po_reserved q = po_reserved p ∧
    po_collateral q !! g = po_collateral p !! g.
Proof.
  intros Hpi Hor.
  assert (let b := default (pool_default 0) (replica3 g p) in po_members b = po_members p ∧
    po_promotion b = po_promotion p ∧ po_collateral b !! g = po_collateral p !! g ∧
    po_reports b = ∅ ∧ po_slot_max b = ∅ ∧ po_reserved b = 0) as (B1 & B2 & B3 & B4 & B5 & B6).
  { cbv zeta. rewrite promotion_replica. unfold replica3, replica2, replica1, local_collateral.
    pose proof (pi_backed _ _ Hpi). destruct (decide (po_members p = [])) as [Hm|Hm].
    - rewrite Hm, (H Hm). by destruct (po_promotion p).
    - destruct (po_collateral p !! g) eqn:Ec; destruct (po_promotion p); cbn;
        by rewrite ?lookup_singleton_eq, ?lookup_empty. }
  set (b := default (pool_default 0) (replica3 g p)) in *. unfold replica4. case_decide as Hr.
  - assert (replica3 g p = Some b) as Hb.
    { subst b. unfold replica3, replica2, replica1 in *. destruct (po_promotion p); [done|].
      case_decide; [|done]. destruct Hor as [?|[?|?]]; done. }
    exists b. rewrite B4, B6, Hr. split_and!; [done..| |done].
    rewrite <- (reservations_unique id p b Hpi) by congruence. by rewrite recompute_empty.
  - eexists. split_and!; [done..| |exact B3]. by apply (reservations_unique id p).
Qed.
End sender.
End replica.

(** ** Properties *)

Section properties.
Context `{HO : HashOrder}.

Lemma has_report_ext (p q : Pool) k : po_reports p = po_reports q → has_report p k = has_report q k.
Proof. unfold has_report. by intros ->. Qed.

(** C28: A peer that starts empty and applies a replay holds the sender's
    bindings and, for every pool with members, a promotion or a report, the
    same members, promotion, reports, reservation and contribution of the
    sender's own group; every builder has the same standing at both. This needs room for
    the sender's pools, at most 256, and reports and promotions that name pubkeys
    of their own pool or unbound ones. *)
Theorem replay_restores ms group mode group' mode' :
  let s := run_messages ms (pool_state_new group mode) in
  let t := run_messages ((λ m, (group, m)) <$> replay s) (pool_state_new group' mode') in
  Forall (λ gm, message_ok gm.2) ms → replayable s →
  pl_binding t = pl_binding s ∧
  (∀ id p, pl_pools s !! id = Some p →
     po_members p ≠ [] ∨ po_promotion p ≠ None ∨ po_reports p ≠ ∅ →
     ∃ q, pl_pools t !! id = Some q ∧ po_members q = po_members p ∧
       po_promotion q = po_promotion p ∧ po_reports q = po_reports p ∧
       po_reserved q = po_reserved p ∧ po_collateral q !! group = po_collateral p !! group) ∧
  ∀ k, is_optimistic t k = is_optimistic s k.
Proof.
  intros s t Hms Hrep.
  destruct (run_messages_ok ms (pool_state_new group mode) (pool_state_new_ok _ _) Hms) as [Hok Hext].
  fold s in Hok, Hext. destruct (ext_config _ _ Hext) as [Hg _]. cbn in Hg.
  destruct (replay_replica s Hok Hrep group' mode') as [Hinv Hpools].
  unfold deliver in Hinv, Hpools. rewrite Hg in Hinv, Hpools. fold t in Hinv, Hpools.
  assert (∀ id p, pl_pools s !! id = Some p →
     po_members p ≠ [] ∨ po_promotion p ≠ None ∨ po_reports p ≠ ∅ →
     ∃ q, pl_pools t !! id = Some q ∧ po_members q = po_members p ∧
       po_promotion q = po_promotion p ∧ po_reports q = po_reports p ∧
       po_reserved q = po_reserved p ∧ po_collateral q !! group = po_collateral p !! group) as Hq.
  { intros id p Hp Hor. specialize (Hpools id). rewrite Hp in Hpools. cbn in Hpools.
    destruct (replica4_fields s id p (st_pools s Hok id p Hp) Hor) as (q & Eq & F).
    rewrite Hg in Eq, F. rewrite Eq in Hpools. apply fmap_Some in Hpools as (q' & Hq' & ->).
    by exists q'. }
  assert (∀ k, pl_binding t !! k = pl_binding s !! k) as Hb.
  { intros k. rewrite (ri_binding s t Hinv). destruct (pl_binding s !! k) as [id|] eqn:Ek; [|done].
    cbn. destruct (st_bound s Hok k id Ek) as [p Hp]. rewrite decide_True; [done|].
    destruct (Hq id p Hp) as (q & -> & _); [|done].
    left. apply (st_members s Hok id p k Hp) in Ek. intros E. rewrite E in Ek. by apply elem_of_nil in Ek. }
  split_and!; [by apply map_eq|done|].
  intros k. unfold is_optimistic. rewrite Hb. destruct (pl_binding s !! k) as [id|] eqn:Ek; [|done].
  destruct (st_bound s Hok k id Ek) as [p Hp]. destruct (Hq id p Hp) as (q & -> & _ & Epm & Er & _).
  { left. apply (st_members s Hok id p k Hp) in Ek. intros E. rewrite E in Ek. by apply elem_of_nil in Ek. }
  by rewrite Hp, Epm, (has_report_ext q p k Er).
Qed.
End properties.

Definition ex_messages : list (OperatorGroup * OperatorMessage) :=
  (λ m, ([103], m)) <$> [ex_member; ex_backing; ex_promote 5; MDemotion (ex_demotion 10 7)].

Lemma replay_restores_witness :
  let s := run_messages (HO := list_order) ex_messages (pool_state_new [103] Follow) in
  let t := run_messages (HO := list_order) ((λ m, ([103], m)) <$> replay (HO := list_order) s)
    (pool_state_new [104] Follow) in
  is_optimistic (HO := list_order) t 1 = false ∧
  is_optimistic (HO := list_order) t 1 = is_optimistic (HO := list_order) s 1.
Proof.
  intros s t. split; [reflexivity|].
  apply (replay_restores (HO := list_order) ex_messages [103] Follow [104] Follow).
  - repeat constructor; cbn; lia.
  - split_and!.
    + vm_compute. discriminate.
    + intros id p pm id' Hp Hpm Hb.
      assert (pl_pools s = {[ [65] := default (pool_default 0) (pl_pools s !! [65]) ]}) as E
        by reflexivity.
      fold s in Hp. rewrite E in Hp. apply lookup_singleton_Some in Hp as [<- <-].
      vm_compute in Hpm. injection Hpm as <-. vm_compute in Hb. by injection Hb as <-.
    + intros id p k d id' Hp Hd Hb.
      assert (pl_pools s = {[ [65] := default (pool_default 0) (pl_pools s !! [65]) ]}) as E
        by reflexivity.
      fold s in Hp. rewrite E in Hp. apply lookup_singleton_Some in Hp as [<- <-].
      assert (pl_binding s = {[ 1 := [65] ]}) as Eb by reflexivity.
      fold s in Hb. rewrite Eb in Hb. by apply lookup_singleton_Some in Hb as [_ <-].
Defined.
