(* ===== verification/Payload.v ===== *)
(** * Payloads and slot data

    [relay/src/auctioneer/types.rs]: the submission the decoder hands over,
    the payload kept for a block until the proposer asks for it, and what the
    auction of a slot is about. *)

From S2P Require Import Prelude Types Submission SimError ApiError BidSorter Simulators LocalCache.

(** ** Payload attributes

    [common/src/slot_info.rs] and [beacon/types/chain.rs]; the suggested fee
    recipient is not read. *)

Record PayloadAttributes := mkPayloadAttributes {
  pa_timestamp : u64;
  pa_prev_randao : B256;
  pa_withdrawals : list Withdrawal;
  pa_parent_beacon_block_root : option B256
}.

Record PayloadAttributesUpdate := mkPayloadAttributesUpdate {
  pu_slot : u64;
  pu_parent_hash : B256;
  pu_withdrawals_root : B256;
  pu_payload_attributes : PayloadAttributes
}.

Definition parent_root (u : PayloadAttributesUpdate) : B256 :=
  default 0 (pa_parent_beacon_block_root (pu_payload_attributes u)).
Definition attributes_fork (u : PayloadAttributesUpdate) : ForkKey :=
  mkForkKey (pu_parent_hash u) (parent_root u).

(** ** Submissions *)

(** The adjustment data is only handed to the bid adjustor; the merging data is
    the block merging tile's and left out. Of the decoder's parameters the
    fork it decoded with is kept. *)
Record SubmissionData := mkSubmissionData {
  su_submission_id : Uuid;
  su_submission_ref : SubmissionRef;
  su_submission : Submission;
  su_bid_adjustment_data : option Bytes;
  su_version : SubmissionVersion;
  su_withdrawals_root : option B256;
  su_trace : SubmissionTrace;
  su_fork_name : ForkName;
  su_is_pessimistic : bool
}.

(** [Bid::from_submission_data]. *)
Definition from_submission_data (s : SubmissionData) (parent_root : B256) : Bid :=
  let trace := bid_trace (su_submission s) in {|
  bid_version := su_version s;
  bid_value := bt_value trace;
  bid_slot := bt_slot trace;
  bid_block_hash := bt_block_hash trace;
  bid_builder_pubkey := bt_builder_pubkey trace;
  bid_block_number := block_number (su_submission s);
  bid_parent_hash := bt_parent_hash trace;
  bid_parent_root := parent_root;
  bid_fee_recipient := fee_recipient (su_submission s)
|}.

(** ** Payloads *)

Record PayloadBidData := mkPayloadBidData {
  pd_withdrawals_root : B256;
  pd_tx_root : option B256;
  pd_execution_requests : Bytes;
  pd_value : U256;
  pd_builder_pubkey : Pubkey
}.

Record GossipPayload := mkGossipPayload {
  gp_payload_and_blobs : PayloadAndBlobs;
  gp_bid_data : PayloadBidData
}.

Record SubmissionPayload := mkSubmissionPayload {
  sp_signed_bid_submission : SignedBidSubmissionFulu;
  sp_withdrawals_root : B256;
  sp_tx_root : option B256;
  sp_bid_adjustment_data : option Bytes;
  sp_is_adjusted : bool;
  sp_submission_version : SubmissionVersion;
  sp_submission_trace : SubmissionTrace;
  sp_parent_beacon_block_root : option B256
}.

Inductive PayloadEntry :=
| PSubmission (s : SubmissionPayload)
| PGossip (g : GossipPayload).

Definition new_submission (signed_bid_submission : SignedBidSubmissionFulu)
    (withdrawals_root : B256) (tx_root : option B256) (bid_adjustment_data : option Bytes)
    (submission_version : SubmissionVersion) (submission_trace : SubmissionTrace)
    (parent_beacon_block_root : option B256) : PayloadEntry :=
  PSubmission (mkSubmissionPayload signed_bid_submission withdrawals_root tx_root
    bid_adjustment_data false submission_version submission_trace parent_beacon_block_root).

Definition new_gossip (payload_and_blobs : PayloadAndBlobs) (bid_data : PayloadBidData)
    : PayloadEntry := PGossip (mkGossipPayload payload_and_blobs bid_data).

Definition is_adjusted (e : PayloadEntry) : bool :=
  match e with PSubmission s => sp_is_adjusted s | PGossip _ => false end.

Definition is_adjustable (e : PayloadEntry) : bool :=
  match e with
  | PSubmission s => bool_decide (is_Some (sp_bid_adjustment_data s))
  | PGossip _ => false
  end.

(** [PayloadEntry::has_bid_trace]. *)
Definition entry_has_bid_trace (e : PayloadEntry) (t : BidTrace) : bool :=
  match e with
  | PSubmission s => bool_decide (sf_message (sp_signed_bid_submission s) = t)
  | PGossip g =>
      (pd_value (gp_bid_data g) =? bt_value t) &&
      (pd_builder_pubkey (gp_bid_data g) =? bt_builder_pubkey t)
  end.

Definition receive_ns (e : PayloadEntry) : option u64 :=
  match e with
  | PSubmission s => Some (tr_receive_ns (sp_submission_trace s))
  | PGossip _ => None
  end.

Definition entry_value (e : PayloadEntry) : U256 :=
  match e with
  | PSubmission s => bt_value (sf_message (sp_signed_bid_submission s))
  | PGossip g => pd_value (gp_bid_data g)
  end.

Definition payload_and_blobs (e : PayloadEntry) : PayloadAndBlobs :=
  match e with
  | PSubmission s => mkPayloadAndBlobs (sf_execution_payload (sp_signed_bid_submission s))
                       (sf_blobs_bundle (sp_signed_bid_submission s))
  | PGossip g => gp_payload_and_blobs g
  end.

(** [bid_data_ref().to_owned()]. *)
Definition bid_data (e : PayloadEntry) : PayloadBidData :=
  match e with
  | PSubmission s =>
      mkPayloadBidData (sp_withdrawals_root s) (sp_tx_root s)
        (sf_execution_requests (sp_signed_bid_submission s))
        (bt_value (sf_message (sp_signed_bid_submission s)))
        (bt_builder_pubkey (sf_message (sp_signed_bid_submission s)))
  | PGossip g => gp_bid_data g
  end.

Definition execution_payload (e : PayloadEntry) : ExecutionPayload :=
  match e with
  | PSubmission s => sf_execution_payload (sp_signed_bid_submission s)
  | PGossip g => pab_execution_payload (gp_payload_and_blobs g)
  end.

Definition entry_parent_hash (e : PayloadEntry) : B256 := ep_parent_hash (execution_payload e).
Definition entry_block_hash (e : PayloadEntry) : B256 := ep_block_hash (execution_payload e).

(** The bid a header request is answered with. *)
Record BuilderBid := mkBuilderBid {
  hb_header : ExecutionPayloadHeader;
  hb_blob_kzg_commitments : list Z;
  hb_execution_requests : Bytes;
  hb_value : U256;
  hb_pubkey : Pubkey
}.

Section headers.
Context `{TH : TreeHash}.

Definition into_builder_bid_slow (e : PayloadEntry) : BuilderBid :=
  let '(withdrawals_root, tx_root, requests, commitments) :=
    match e with
    | PSubmission s =>
        (Some (sp_withdrawals_root s), sp_tx_root s,
         sf_execution_requests (sp_signed_bid_submission s),
         bb_commitments (sf_blobs_bundle (sp_signed_bid_submission s)))
    | PGossip g =>
        (None, None, pd_execution_requests (gp_bid_data g),
         bb_commitments (pab_blobs_bundle (gp_payload_and_blobs g)))
    end in
  mkBuilderBid (to_header (execution_payload e) withdrawals_root tx_root) commitments requests
    (entry_value e) 0.

(** ** Gloas payloads

    The unsigned bid of [gloas.rs], by the fields its bytes hold. *)
Record ExecutionPayloadBid := mkExecutionPayloadBid {
  xb_parent_block_hash : B256;
  xb_parent_block_root : B256;
  xb_block_hash : B256;
  xb_prev_randao : B256;
  xb_fee_recipient : Address;
  xb_gas_limit : u64;
  xb_builder_index : u64;
  xb_slot : u64;
  xb_value : u64;
  xb_execution_payment : u64;
  xb_execution_requests_root : B256;
  xb_blob_kzg_commitments : Bytes
}.

Definition unsigned_bid (s : GloasBidSubmission) (fee_recipient : Address)
    (execution_payment : u64) : ExecutionPayloadBid := {|
  xb_parent_block_hash := gs_parent_hash s;
  xb_parent_block_root := gt_parent_block_root (gs_message s);
  xb_block_hash := gs_block_hash s;
  xb_prev_randao := gs_prev_randao s;
  xb_fee_recipient := fee_recipient;
  xb_gas_limit := gs_gas_limit s;
  xb_builder_index := 0;
  xb_slot := gs_slot_number s;
  xb_value := 0;
  xb_execution_payment := execution_payment;
  xb_execution_requests_root := requests_root (gs_execution_requests s);
  xb_blob_kzg_commitments := gs_commitments s
|}.

Record GloasPayload := mkGloasPayload {
  gl_submission : GloasBidSubmission;
  gl_bid : ExecutionPayloadBid
}.

Definition WEI_PER_GWEI : Z := 1000000000.

Definition gloas_payload_new (s : GloasBidSubmission) (fee_recipient : Address) : GloasPayload :=
  let execution_payment :=
    Z.min (bt_value (gt_trace (gs_message s)) / WEI_PER_GWEI) u64_max in
  mkGloasPayload s (unsigned_bid s fee_recipient execution_payment).
End headers.
#[export] Instance eta_ExecutionPayloadBid : Eta ExecutionPayloadBid := λ r,
  mkExecutionPayloadBid (xb_parent_block_hash r) (xb_parent_block_root r) (xb_block_hash r)
    (xb_prev_randao r) (xb_fee_recipient r) (xb_gas_limit r) (xb_builder_index r) (xb_slot r)
    (xb_value r) (xb_execution_payment r) (xb_execution_requests_root r)
    (xb_blob_kzg_commitments r).

(** [GloasPayload::has_bid_trace]. *)
Definition gloas_has_bid_trace (g : GloasPayload) (t : BidTrace) : bool :=
  bool_decide (gt_trace (gs_message (gl_submission g)) = t).

(** ** Slot data *)

Record SlotData := mkSlotData {
  sl_bid_slot : u64;
  sl_registration_data : BuilderGetValidatorsResponseEntry;
  sl_payload_attributes_map : gmap ForkKey PayloadAttributesUpdate;
  sl_current_fork : ForkName;
  sl_il : option InclusionListWithMetadata
}.
#[export] Instance eta_SlotData : Eta SlotData := λ r,
  mkSlotData (sl_bid_slot r) (sl_registration_data r) (sl_payload_attributes_map r)
    (sl_current_fork r) (sl_il r).

(** [registration_data.entry.registration.message] and
    [registration_data.entry.preferences]. *)
Definition sl_registration (d : SlotData) : ValidatorRegistrationData :=
  svr_message (ri_registration (de_entry (sl_registration_data d))).
Definition sl_preferences (d : SlotData) : ValidatorPreferences :=
  ri_preferences (de_entry (sl_registration_data d)).

(** [SlotData::proposer_pubkey]. *)
Definition slot_proposer (d : SlotData) : Pubkey := rg_pubkey (sl_registration d).

Section slot_data.
Context `{HO : HashOrder}.

Definition fork_for_parent_hash (d : SlotData) (parent_hash : B256) : option ForkKey :=
  find (λ k, fk_parent_hash k =? parent_hash) (hash_keys (sl_payload_attributes_map d)).

Definition attrs_for_submission (d : SlotData) (parent_hash prev_randao : B256)
    : option PayloadAttributesUpdate :=
  let candidates := List.filter (λ a, pu_parent_hash a =? parent_hash)
                      (hash_values (sl_payload_attributes_map d)) in
  let same_randao a := pa_prev_randao (pu_payload_attributes a) =? prev_randao in
  match candidates with
  | [] => None
  | first :: rest =>
      if same_randao first then Some first
      else match find same_randao rest with Some a => Some a | None => Some first end
  end.

Lemma fork_for_parent_hash_some d h k :
  fork_for_parent_hash d h = Some k →
  fk_parent_hash k = h ∧ is_Some (sl_payload_attributes_map d !! k).
Proof.
  intros [Hin%elem_of_hash_keys Hk%Z.eqb_eq]%find_some. done.
Qed.

(** The attributes chosen are the slot's, for the parent asked, and agree on
    the randao mix when any of that parent do. *)
Lemma attrs_for_submission_some d h r a :
  attrs_for_submission d h r = Some a →
  (∃ k, sl_payload_attributes_map d !! k = Some a) ∧ pu_parent_hash a = h.
Proof.
  unfold attrs_for_submission. set (l := List.filter _ _).
  assert (∀ x, x ∈ l → (∃ k, sl_payload_attributes_map d !! k = Some x) ∧ pu_parent_hash x = h) as H.
  { intros x. subst l. rewrite list_elem_of_In, filter_In, <- list_elem_of_In, elem_of_hash_values.
    by intros [Hk ?%Z.eqb_eq]. }
  destruct l as [|x l]; [done|]. case_match; [intros [= <-]; apply H; by left|].
  destruct (find _ l) as [y|] eqn:E; intros [= <-]; apply H; [|by left].
  right. by apply find_some in E as [? _].
Qed.
End slot_data.
