(* ===== verification/BlockMerger.v ===== *)
(** * Merged blocks

    [relay/src/auctioneer/block_merger.rs]: the merged blocks of a slot, kept
    by the coinbase of the block each was built on, and the decision to serve
    one in place of the top bid. The cache it holds is the relay's shared one,
    so it is passed in and out. *)

From S2P Require Import Prelude Types Submission ApiError BidSorter Simulators LocalCache Payload.

(** ** Configuration *)

Record BlockMergingConfig := mkBlockMergingConfig {
  mc_is_enabled : bool;
  mc_max_merged_bid_age_ms : u64;
  mc_max_merged_bid_age_ms_by_builder : gmap string u64;
  mc_mark_all_txs_mergeable : bool;
  mc_serve_merged_headers : bool;
  mc_serve_merged_headers_allowlist : gset Pubkey;
  mc_merge_data_denylist : gset Pubkey
}.

(** [BlockMergingConfig::validate]. *)
Definition merging_config_valid (c : BlockMergingConfig) : bool :=
  negb (mc_mark_all_txs_mergeable c) || negb (mc_serve_merged_headers c).

Definition max_merged_bid_age_ms_for (c : BlockMergingConfig) (builder_id : option string) : u64 :=
  default (mc_max_merged_bid_age_ms c)
    (builder_id ≫= λ id, mc_max_merged_bid_age_ms_by_builder c !! id).

Definition is_merge_data_denied (c : BlockMergingConfig) (builder : Pubkey) : bool :=
  bool_decide (builder ∈ mc_merge_data_denylist c).

(** ** State *)

Record BestMergedBlock := mkBestMergedBlock {
  bm_base_block_receive_ns : u64;
  bm_max_merged_bid_age_ms : u64;
  bm_bid : PayloadEntry
}.

Record BlockMerger := mkBlockMerger {
  bk_curr_bid_slot : u64;
  bk_best_merged_blocks : gmap Address BestMergedBlock;
  bk_flagged_payment_tx_only_blocks : gset B256
}.
#[export] Instance eta_BlockMerger : Eta BlockMerger := λ r,
  mkBlockMerger (bk_curr_bid_slot r) (bk_best_merged_blocks r)
    (bk_flagged_payment_tx_only_blocks r).

Definition block_merger_new (curr_bid_slot : u64) : BlockMerger :=
  mkBlockMerger curr_bid_slot ∅ ∅.

Definition merger_on_new_slot (bid_slot : u64) (_ : BlockMerger) : BlockMerger :=
  mkBlockMerger bid_slot ∅ ∅.

Inductive PayloadMergingError := MergedPayloadNotValuable (original merged : U256).

(** ** Decisions *)

(** Saturating subtraction on unsigned integers. *)
Definition saturating_sub (x y : Z) : Z := Z.max 0 (x - y).

Definition merged_bid_higher (merged_bid original_bid : PayloadEntry)
    (base_block_receive_ns original_bid_receive_ns max_merged_bid_age_ms : u64) : bool :=
  let base_lag_ms := saturating_sub original_bid_receive_ns base_block_receive_ns / 1000000 in
  if entry_value merged_bid <=? entry_value original_bid then false
  else negb (max_merged_bid_age_ms <? base_lag_ms).

Definition log_if_only_payment_tx_changed (original_txs merged_txs : list Bytes) : bool :=
  match length original_txs with
  | O => false
  | S payment_tx_index =>
      if Nat.leb (length merged_txs) payment_tx_index then false
      else
        bool_decide (take payment_tx_index original_txs = take payment_tx_index merged_txs) &&
        bool_decide (original_txs !! payment_tx_index ≠ merged_txs !! payment_tx_index)
  end.

Section merger.
Context `{HO : HashOrder} `{TH : TreeHash} `{BP : BlsPoints}.

Definition overall_best_merged_block_hash (m : BlockMerger) : option B256 :=
  (λ b, entry_block_hash (bm_bid b)) <$>
    max_by (λ x y, Z.compare (entry_value (bm_bid x)) (entry_value (bm_bid y)))
      (hash_values (bk_best_merged_blocks m)).

(** The bookkeeping of a header served to mev-boost. *)
Definition note_header_served (now_ns : u64) (bid : PayloadEntry) (m : BlockMerger)
    (c : LocalCache) : LocalCache :=
  let overall_best := overall_best_merged_block_hash m in
  let is_top_builder := bool_decide (overall_best = Some (entry_block_hash bid)) in
  let c1 := set_merged_block_header_served (entry_block_hash bid) now_ns is_top_builder c in
  match overall_best with
  | Some h => if h =? entry_block_hash bid then c1
              else set_merged_block_header_served h now_ns false c1
  | None => c1
  end.

(** [BlockMerger::get_header]. *)
Definition merged_header (cfg : BlockMergingConfig) (now_ns : u64) (original_bid : PayloadEntry)
    (is_mev_boost : bool) (m : BlockMerger) (c : LocalCache)
    : option PayloadEntry * BlockMerger * LocalCache :=
  match bk_best_merged_blocks m !! ep_fee_recipient (execution_payload original_bid) with
  | None => (None, m, c)
  | Some entry =>
      let bid := bm_bid entry in
      let c1 := if is_mev_boost
                then set_merged_block_top_bid (entry_block_hash bid) (entry_value original_bid) c
                else c in
      match receive_ns original_bid with
      | None => (None, m, c1)
      | Some original_bid_receive_ns =>
          if negb (merged_bid_higher bid original_bid (bm_base_block_receive_ns entry)
                     original_bid_receive_ns (bm_max_merged_bid_age_ms entry))
          then
            if log_if_only_payment_tx_changed
                 (ep_transactions (execution_payload original_bid))
                 (ep_transactions (execution_payload bid))
            then (None, m <| bk_flagged_payment_tx_only_blocks ::=
                             λ s, {[entry_block_hash original_bid]} ∪ s |>, c1)
            else (None, m, c1)
          else if negb (entry_parent_hash bid =? entry_parent_hash original_bid)
          then (None, m, c1)
          else
            let c2 := if is_mev_boost then note_header_served now_ns bid m c1 else c1 in
            let allowlisted := bool_decide
              (pd_builder_pubkey (bid_data bid) ∈ mc_serve_merged_headers_allowlist cfg) in
            if negb allowlisted && negb (merged_headers_enabled c2) then (None, m, c2)
            else if ep_state_root (execution_payload bid) =? 0 then (None, m, c2)
            else (Some bid, m, c2)
      end
  end.

(** [response.builder_inclusions.values().fold(..)] on wrapping [U256]. *)
Definition total_merged_value (inclusions : gmap Address BuilderInclusionResult) : U256 :=
  foldl (λ acc i, (acc + in_contribution i) mod 2 ^ 256) 0 (hash_values inclusions).

Definition merged_block_record (bid_slot now_ns : u64) (r : BlockMergeResponse)
    (original : PayloadAndBlobs) (original_value : U256) : MergedBlock := {|
  mb_slot := bid_slot;
  mb_block_number := ep_block_number (mr_execution_payload r);
  mb_original_block_hash := mr_base_block_hash r;
  mb_block_hash := ep_block_hash (mr_execution_payload r);
  mb_original_value := original_value;
  mb_proposer_value := mr_proposer_value r;
  mb_total_merged_value := total_merged_value (mr_builder_inclusions r);
  mb_base_builder_revenue := mr_base_builder_revenue r;
  mb_relay_revenue := mr_relay_revenue r;
  mb_original_tx_count := len (ep_transactions (pab_execution_payload original));
  mb_merged_tx_count := len (ep_transactions (mr_execution_payload r));
  mb_original_blob_count := len (bb_blobs (pab_blobs_bundle original));
  mb_merged_blob_count := len (bb_blobs (mr_blobs_bundle r));
  mb_original_gas_used := ep_gas_used (pab_execution_payload original);
  mb_merged_gas_used := ep_gas_used (mr_execution_payload r);
  mb_builder_inclusions := mr_builder_inclusions r;
  mb_trace := (mr_trace r) <| mt_finalize_time_ns := now_ns |>
|}.

(** The entry of a merged block, as header and payload requests see it. *)
Definition merged_entry (r : BlockMergeResponse) (builder_pubkey : Pubkey) : PayloadEntry :=
  new_gossip (mkPayloadAndBlobs (mr_execution_payload r) (mr_blobs_bundle r))
    (mkPayloadBidData (withdrawals_root (ep_withdrawals (mr_execution_payload r))) None
       (mr_execution_requests r) (mr_proposer_value r) builder_pubkey).

Definition prepare_merged_payload_for_storage (cfg : BlockMergingConfig) (now_ns : u64)
    (r : BlockMergeResponse) (original : PayloadAndBlobs) (original_value : U256)
    (builder_pubkey : Pubkey) (base_block_receive_ns : u64) (m : BlockMerger) (c : LocalCache)
    : Result PayloadEntry PayloadMergingError * BlockMerger * LocalCache :=
  if mr_proposer_value r <=? original_value
  then (Err (MergedPayloadNotValuable original_value (mr_proposer_value r)), m, c)
  else
    let m1 := m <| bk_flagged_payment_tx_only_blocks ::=
                   λ s, s ∖ {[ep_block_hash (pab_execution_payload original)]} |> in
    let c1 := save_merged_block
                (merged_block_record (bk_curr_bid_slot m) now_ns r original original_value) c in
    let bid := merged_entry r builder_pubkey in
    let builder_id := get_builder_info c1 builder_pubkey ≫= bf_builder_id in
    let best := mkBestMergedBlock base_block_receive_ns
                  (max_merged_bid_age_ms_for cfg builder_id) bid in
    (Ok bid,
     m1 <| bk_best_merged_blocks ::=
           <[ep_fee_recipient (pab_execution_payload original) := best]> |>,
     c1).

(** The part of [Context::handle_merge_response] after the base block of the
    merge was found in the store. *)
Definition merge_into (cfg : BlockMergingConfig) (now_ns : u64) (base : PayloadEntry)
    (r : BlockMergeResponse) (m : BlockMerger) (c : LocalCache)
    : option PayloadEntry * BlockMerger * LocalCache :=
  match receive_ns base with
  | None => (None, m, c)
  | Some base_block_receive_ns =>
      match prepare_merged_payload_for_storage cfg now_ns r (payload_and_blobs base)
              (entry_value base) (pd_builder_pubkey (bid_data base)) base_block_receive_ns m c with
      | (Ok payload, m', c') => (Some payload, m', c')
      | (Err _, m', c') => (None, m', c')
      end
  end.
End merger.

(** ** What is served *)

(** The merged bid stands in for the top bid: it pays strictly more, for the
    same parent, on a base of the same coinbase that is recent enough, and
    may be served. *)
Definition may_replace (cfg : BlockMergingConfig) (enabled : bool) (original_bid : PayloadEntry)
    (b : BestMergedBlock) : Prop :=
  ∃ received, receive_ns original_bid = Some received ∧
    entry_value original_bid < entry_value (bm_bid b) ∧
    (received - bm_base_block_receive_ns b) / 1000000 ≤ bm_max_merged_bid_age_ms b ∧
    entry_parent_hash (bm_bid b) = entry_parent_hash original_bid ∧
    (enabled = true ∨
     pd_builder_pubkey (bid_data (bm_bid b)) ∈ mc_serve_merged_headers_allowlist cfg) ∧
    ep_state_root (execution_payload (bm_bid b)) ≠ 0.

Lemma merged_bid_higher_spec bid original base received age :
  0 ≤ age →
  merged_bid_higher bid original base received age = true ↔
  entry_value original < entry_value bid ∧ (received - base) / 1000000 ≤ age.
Proof.
  intros Hage. unfold merged_bid_higher, saturating_sub.
  assert (Z.max 0 (received - base) / 1000000 ≤ age ↔ (received - base) / 1000000 ≤ age) as Hlag.
  { destruct (Z.max_spec 0 (received - base)) as [[_ ->]|[Hneg ->]]; [done|].
    rewrite Z.div_0_l by lia. split; [|lia]. intros _.
    etrans; [apply (Z.div_le_mono _ 0 1000000); lia|]. done. }
  rewrite <- Hlag. destruct (Z.leb_spec (entry_value bid) (entry_value original)).
  - split; [done|lia].
  - rewrite negb_true_iff, Z.ltb_ge. intuition lia.
Qed.

Section serving.
Context `{HO : HashOrder} `{TH : TreeHash} `{BP : BlsPoints}.

Lemma enabled_top_bid h v c :
  merged_headers_enabled (set_merged_block_top_bid h v c) = merged_headers_enabled c.
Proof. unfold set_merged_block_top_bid, merged_headers_enabled. by repeat case_match. Qed.

Lemma enabled_served h t b c :
  merged_headers_enabled (set_merged_block_header_served h t b c) = merged_headers_enabled c.
Proof. unfold set_merged_block_header_served, merged_headers_enabled. by repeat case_match. Qed.

Lemma enabled_note t bid m c :
  merged_headers_enabled (note_header_served t bid m c) = merged_headers_enabled c.
Proof. unfold note_header_served. repeat case_match; by rewrite ?enabled_served. Qed.

Lemma merged_header_spec cfg now original mev m c e :
  map_Forall (λ _ b, 0 ≤ bm_max_merged_bid_age_ms b) (bk_best_merged_blocks m) →
  (merged_header cfg now original mev m c).1.1 = Some e ↔
  ∃ b, bk_best_merged_blocks m !! ep_fee_recipient (execution_payload original) = Some b ∧
    may_replace cfg (merged_headers_enabled c) original b ∧ e = bm_bid b.
Proof.
  intros Hage. unfold merged_header, may_replace.
  destruct (bk_best_merged_blocks m !! _) as [b|] eqn:Eb; [|by split; [|intros (b & [=] & _)]].
  destruct (receive_ns original) as [received|]; [|split; [done|intros (? & _ & (? & [=] & _) & _)]].
  set (c1 := if mev then _ else _). set (c2 := if mev then note_header_served _ _ _ _ else _).
  assert (merged_headers_enabled c2 = merged_headers_enabled c) as Hen.
  { subst c2 c1. by destruct mev; rewrite ?enabled_note, ?enabled_top_bid. }
  rewrite Hen. pose proof (merged_bid_higher_spec (bm_bid b) original (bm_base_block_receive_ns b)
    received _ (Hage _ _ Eb)) as Hhigh.
  destruct (merged_bid_higher _ _ _ _ _); cbn [negb].
  - destruct Hhigh as [Hhigh _]. specialize (Hhigh eq_refl).
    destruct (Z.eqb_spec (entry_parent_hash (bm_bid b)) (entry_parent_hash original)) as [Hp|Hp];
      cbn [negb]; [|split; [done|intros (? & [= <-] & (? & _ & _ & _ & ? & _) & _); done]].
    case_bool_decide as Hal; destruct (merged_headers_enabled c); cbn [negb andb];
      destruct (Z.eqb_spec (ep_state_root (execution_payload (bm_bid b))) 0) as [Hr|Hr];
      cbn [fst];
      first [ split; [done|intros (? & [= <-] & (? & [= <-] & _ & _ & _ & Hor & ?) & _); tauto]
            | split; [done|intros (? & [= <-] & (? & [= <-] & _ & _ & _ & [?|?] & ?) & _); done]
            | split; [intros [= <-]; exists b; split_and!; [done| |done]; exists received;
                      split_and!; tauto
                     |by intros (? & [= <-] & _ & ->)] ].
  - destruct (log_if_only_payment_tx_changed _ _); cbn [fst];
      (split; [done|]); intros (? & [= <-] & (? & [= <-] & ? & ? & _) & _);
      destruct Hhigh as [_ Hhigh]; exfalso; discriminate Hhigh; split; done.
Qed.
End serving.

(** ** Histories *)

Inductive MergerOp :=
| MergeStored (now_ns : u64) (base : PayloadEntry) (r : BlockMergeResponse)
| MergeHeader (now_ns : u64) (original : PayloadEntry) (is_mev_boost : bool)
| MergeSlot (bid_slot : u64)
| MergeServing (enabled : bool).

Definition config_ages (cfg : BlockMergingConfig) : Prop :=
  0 ≤ mc_max_merged_bid_age_ms cfg ∧
  map_Forall (λ _ age, 0 ≤ age) (mc_max_merged_bid_age_ms_by_builder cfg).

(** Where an entry comes from: a merge the proposer gains by, on a base block
    with the coinbase it is kept under. *)
Definition merge_origin `{TH : TreeHash} (stored : PayloadEntry → BlockMergeResponse → Prop)
    (coinbase : Address) (b : BestMergedBlock) : Prop :=
  0 ≤ bm_max_merged_bid_age_ms b ∧
  ∃ base r, stored base r ∧ ep_fee_recipient (execution_payload base) = coinbase ∧
    receive_ns base = Some (bm_base_block_receive_ns b) ∧
    bm_bid b = merged_entry r (pd_builder_pubkey (bid_data base)) ∧
    entry_value base < entry_value (bm_bid b).

(** The merges handed over since the last new slot. *)
Definition since_step (acc : list (PayloadEntry * BlockMergeResponse)) (op : MergerOp)
    : list (PayloadEntry * BlockMergeResponse) :=
  match op with
  | MergeStored _ base r => acc ++ [(base, r)]
  | MergeSlot _ => []
  | _ => acc
  end.
Definition stored_since : list MergerOp → list (PayloadEntry * BlockMergeResponse) :=
  foldl since_step [].

Section histories.
Context `{HO : HashOrder} `{TH : TreeHash} `{BP : BlsPoints}.
Variable cfg : BlockMergingConfig.
Hypothesis cfg_ages : config_ages cfg.

Definition merger_step (s : BlockMerger * LocalCache) (op : MergerOp) : BlockMerger * LocalCache :=
  let '(m, c) := s in
  match op with
  | MergeStored now_ns base r => let '(_, m', c') := merge_into cfg now_ns base r m c in (m', c')
  | MergeHeader now_ns original mev =>
      let '(_, m', c') := merged_header cfg now_ns original mev m c in (m', c')
  | MergeSlot bid_slot => (merger_on_new_slot bid_slot m, c)
  | MergeServing enabled =>
      (m, if enabled then enable_merged_headers c else disable_merged_headers c)
  end.

Definition merger_run (ops : list MergerOp) (c : LocalCache) : BlockMerger * LocalCache :=
  foldl merger_step (block_merger_new 0, c) ops.

Lemma age_for_nonneg id : 0 ≤ max_merged_bid_age_ms_for cfg id.
Proof.
  destruct cfg_ages as [H1 H2]. unfold max_merged_bid_age_ms_for.
  destruct (id ≫= _) as [age|] eqn:E; [|done]. cbn.
  apply bind_Some in E as (i & _ & E). exact (H2 _ _ E).
Qed.

Lemma merged_header_keeps now original mev m c :
  bk_best_merged_blocks (merged_header cfg now original mev m c).1.2 = bk_best_merged_blocks m.
Proof. unfold merged_header. by repeat case_match. Qed.

Lemma execution_payload_pab e : pab_execution_payload (payload_and_blobs e) = execution_payload e.
Proof. by destruct e. Qed.

Lemma merge_into_keeps now base r m c (stored : PayloadEntry → BlockMergeResponse → Prop) :
  stored base r →
  map_Forall (merge_origin stored) (bk_best_merged_blocks m) →
  map_Forall (merge_origin stored) (bk_best_merged_blocks (merge_into cfg now base r m c).1.2).
Proof.
  intros Hst Hm. unfold merge_into. destruct (receive_ns base) as [ns|] eqn:Ens; [|done].
  unfold prepare_merged_payload_for_storage. destruct (Z.leb_spec (mr_proposer_value r) (entry_value base));
    [done|]. cbn. rewrite execution_payload_pab. apply map_Forall_insert_2; [|done].
  split; [apply age_for_nonneg|]. by exists base, r.
Qed.

Lemma merge_origin_mono (P Q : PayloadEntry → BlockMergeResponse → Prop) a b :
  (∀ base r, P base r → Q base r) → merge_origin P a b → merge_origin Q a b.
Proof. intros H [? (base & r & ? & ?)]. split; [done|]. exists base, r. auto. Qed.

Lemma merger_run_origin ops c :
  map_Forall (merge_origin (λ base r, (base, r) ∈ stored_since ops))
    (bk_best_merged_blocks (merger_run ops c).1).
Proof.
  unfold merger_run, stored_since. induction ops as [|op ops IH] using rev_ind; [done|].
  rewrite !foldl_snoc. destruct (foldl merger_step _ ops) as [m c1]. cbn [fst] in IH.
  set (since := foldl since_step [] ops) in *.
  destruct op as [now base r|now original mev|slot|en]; cbn [merger_step since_step].
  - pose proof (merge_into_keeps now base r m c1 (λ base' r', (base', r') ∈ since ++ [(base, r)]))
      as Hk. destruct (merge_into _ _ _ _ _ _) as [[opt m2] c2]. apply Hk.
    + apply elem_of_app. right. by left.
    + eapply map_Forall_impl; [exact IH|]. intros coinbase best. apply merge_origin_mono.
      intros. apply elem_of_app. by left.
  - pose proof (merged_header_keeps now original mev m c1) as Hk.
    destruct (merged_header _ _ _ _ _ _) as [[? ?] ?]. cbn in Hk |- *. by rewrite Hk.
  - done.
  - done.
Qed.

(** Over any history of merges, header requests, new slots and switches of
    the serving toggle, a merged block is served exactly when the latest merge
    for the coinbase of the top bid may replace it; it then is the merge, handed
    over in this slot, of a base block with that coinbase, and pays the proposer
    strictly more than both its base block and the top bid. *)
Theorem merged_header_sound ops c now original mev e :
  let s := merger_run ops c in
  ((merged_header cfg now original mev s.1 s.2).1.1 = Some e ↔
   ∃ b, bk_best_merged_blocks s.1 !! ep_fee_recipient (execution_payload original) = Some b ∧
     may_replace cfg (merged_headers_enabled s.2) original b ∧ e = bm_bid b) ∧
  ((merged_header cfg now original mev s.1 s.2).1.1 = Some e →
   ∃ base r, (base, r) ∈ stored_since ops ∧
     e = merged_entry r (pd_builder_pubkey (bid_data base)) ∧
     ep_fee_recipient (execution_payload base) = ep_fee_recipient (execution_payload original) ∧
     entry_value base < entry_value e ∧ entry_value original < entry_value e ∧
     entry_parent_hash e = entry_parent_hash original).
Proof.
  intros s. pose proof (merger_run_origin ops c) as Ho.
  assert (map_Forall (λ _ b, 0 ≤ bm_max_merged_bid_age_ms b) (bk_best_merged_blocks s.1)) as Hage.
  { eapply map_Forall_impl; [exact Ho|]. by intros a b [? _]. }
  pose proof (merged_header_spec cfg now original mev s.1 s.2 e Hage) as Hspec. split; [exact Hspec|].
  intros (b & Hb & (received & _ & Hv & _ & Hp & _) & ->)%Hspec.
  destruct (Ho _ _ Hb) as [_ (base & r & Hin & Hc & _ & He & Hval)].
  exists base, r. by rewrite <- He.
Qed.
End histories.

(** ** Examples *)

Definition ex_merge_config : BlockMergingConfig := mkBlockMergingConfig true 50 ∅ false true ∅ ∅.

(** The entry of an example submission received at [ns]. *)
Definition ex_entry (ns : u64) (value : U256) (txs : list Bytes) : PayloadEntry :=
  new_submission (mkSignedBidSubmissionFulu (ex_trace <| bt_value := value |>) (ex_payload txs [])
    (mkBlobsBundle [] [] []) [] 0) 0 None None (mkSubmissionVersion ns None)
    (mkSubmissionTrace ns ns ns) None.

Definition ex_merge_response (value : U256) : BlockMergeResponse :=
  mkBlockMergeResponse 1010 ((ex_payload [ex_tx 1; ex_tx 2] []) <| ep_state_root := 9 |>) []
    (mkBlobsBundle [] [] []) value 3 2 ∅ 0 (mkMergedBlockTrace 0 0 0 0 None None None).

Definition ex_merges : list MergerOp :=
  [MergeSlot 5; MergeStored 70 (ex_entry 60 10 [ex_tx 1]) (ex_merge_response 15)].
Definition ex_merged_state : BlockMerger * LocalCache (BP := ex_points) :=
  merger_run (HO := list_order) (TH := ex_roots) (BP := ex_points) ex_merge_config ex_merges
    ((local_cache_new (BP := ex_points)) <| lc_serve_merged_headers := true |>).

Lemma merged_header_sound_witness :
  ∃ base r, (base, r) ∈ stored_since ex_merges ∧ entry_value base < 15 ∧
    (merged_header (HO := list_order) (BP := ex_points) ex_merge_config 80
       (ex_entry 75 12 [ex_tx 1]) true ex_merged_state.1 ex_merged_state.2).1.1
    = Some (merged_entry (TH := ex_roots) r (pd_builder_pubkey (bid_data base))).
Proof.
  set (e := merged_entry (TH := ex_roots) (ex_merge_response 15) 1).
  destruct (merged_header_sound (HO := list_order) (TH := ex_roots) (BP := ex_points)
    ex_merge_config ltac:(split; [by vm_compute|apply map_Forall_empty]) ex_merges
    ((local_cache_new (BP := ex_points)) <| lc_serve_merged_headers := true |>)
    80 (ex_entry 75 12 [ex_tx 1]) true e) as [_ H].
  destruct H as (base & r & Hin & He & _ & Hv & _); [by vm_compute|].
  exists base, r. split_and!; [done|done|]. rewrite <- He. by vm_compute.
Defined.
