(* ===== verification/Context.v ===== *)
(** * The auctioneer's context

    [relay/src/auctioneer/context.rs], [validation.rs], [submit_block.rs],
    [get_header.rs], [get_execution_payload_bid.rs], [get_payload.rs],
    [builder_identity.rs] and [gloas_payload.rs]: what the auctioneer holds and
    the handlers its state machine calls. A handler is a computation on the
    context; its outputs are the messages it produces, the answers it sends
    and the writes it hands to the database. *)

From Stdlib Require Import Ascii String.
From S2P Require Import Prelude Types Submission Hydration SlotStores SimError ApiError BidSorter.
From S2P Require Import Simulators LocalCache PoolState Payload BlockMerger.

(** ** Interfaces *)

(** [trait BidAdjustor]. The strategy's name labels a metric and is left out. *)
Class BidAdjustor := {
  Adjustor : Type;
  try_apply_adjustments : Adjustor → PayloadEntry → SlotData → bool →
    option (PayloadEntry * ValidationRequest * bool);
  adjustor_on_new_slot : u64 → Adjustor → Adjustor
}.

(** [DefaultBidAdjustor]. *)
Definition DefaultBidAdjustor : BidAdjustor := {|
  Adjustor := unit;
  try_apply_adjustments := λ _ _ _ _, None;
  adjustor_on_new_slot := λ _ a, a
|}.

(** What the handlers take from their surroundings: the fork schedule of the
    chain, whether the relay runs in local dev mode, whether a request still
    waits for its result ([future_results.get]), whether the operators are
    connected, the [Display] text of a simulation error and the signature of
    the relay's builder key. *)
Class RelayEnv := {
  fork_at_slot : u64 → ForkName;
  is_local_dev : bool;
  future_open : Z → bool;
  operator_connected : bool;
  sim_error_text : BlockSimError → string;
  builder_sign : ExecutionPayloadBid → Z
}.

(** The readings of clocks and chain parameters during a step. *)
Record Clock := mkClock {
  ck_ns : u64;
  ck_ms : u64;
  ck_instant : Z;
  ck_fork_ns : ForkKey → u64;
  ck_max_blobs_per_block : Z;
  ck_uuid : Uuid
}.

(** ** Requests *)

(** A [oneshot::Sender], by the request that waits on it. *)
Abbreviation Sender := Z (only parsing).

Record GetHeaderParams := mkGetHeaderParams {
  gh_slot : u64;
  gh_parent_hash : B256;
  gh_pubkey : Pubkey
}.

Record GetExecutionPayloadBidParams := mkGetExecutionPayloadBidParams {
  xp_slot : u64;
  xp_parent_hash : B256;
  xp_parent_root : B256;
  xp_proposer_pubkey : Pubkey
}.

Record BroadcastPayloadParams := mkBroadcastPayloadParams {
  bp_execution_payload : PayloadAndBlobs;
  bp_slot : u64;
  bp_proposer_pub_key : Pubkey;
  bp_bid_data : PayloadBidData
}.

(** Of the timestamps of a payload request the handlers set one. *)
Record GetPayloadTrace := mkGetPayloadTrace {
  gt_receive : u64;
  gt_proposer_index_validated : u64
}.
#[export] Instance eta_GetPayloadTrace : Eta GetPayloadTrace := λ r,
  mkGetPayloadTrace (gt_receive r) (gt_proposer_index_validated r).

(** The consensus client's [SignedBlindedBeaconBlock], by the fields the code
    reads; [bl_body] stands for the parts of the body that are copied over. *)
Record SignedBlindedBeaconBlock := mkSignedBlindedBeaconBlock {
  bl_fork : ForkName;
  bl_slot : u64;
  bl_proposer_index : u64;
  bl_parent_root : B256;
  bl_state_root : B256;
  bl_body : Bytes;
  bl_execution_payload_header : ExecutionPayloadHeader;
  bl_blob_kzg_commitments : list Z;
  bl_signature : Z
}.

Record SignedBeaconBlock := mkSignedBeaconBlock {
  sk_slot : u64;
  sk_proposer_index : u64;
  sk_parent_root : B256;
  sk_state_root : B256;
  sk_body : Bytes;
  sk_execution_payload : ExecutionPayload;
  sk_blob_kzg_commitments : list Z;
  sk_signature : Z
}.

Record VersionedSignedProposal := mkVersionedSignedProposal {
  vp_signed_block : SignedBeaconBlock;
  vp_kzg_proofs : list Z;
  vp_blobs : list Z
}.

Record GetPayloadResponse := mkGetPayloadResponse {
  pr_version : ForkName;
  pr_data : PayloadAndBlobs
}.

Record GetPayloadResultData := mkGetPayloadResultData {
  pl_to_proposer : GetPayloadResponse;
  pl_to_publish : VersionedSignedProposal;
  pl_trace : GetPayloadTrace;
  pl_fork : ForkName;
  pl_bid : PayloadBidData
}.

Record PendingPayload := mkPendingPayload {
  pp_block_hash : B256;
  pp_blinded : SignedBlindedBeaconBlock;
  pp_trace : GetPayloadTrace;
  pp_res_tx : Sender
}.

Record SignedExecutionPayloadBid := mkSignedExecutionPayloadBid {
  xs_message : ExecutionPayloadBid;
  xs_signature : Z
}.

(** ** Outputs *)

Inductive DbCommand :=
| DbStoreBlockSubmission (s : SignedBidSubmission) (trace : SubmissionTrace)
    (version : OptimisticVersion) (is_adjusted : bool) (live_ts : option u64)
| DbUpdateBlockSubmissionLiveTs (slot : u64) (block_hash : B256) (live_ts : u64)
| DbSaveMergedBlocks (blocks : list MergedBlock)
| DbDisableAdjustments (block_hash : B256)
| DbDemoteBuilder (slot : u64) (builder : Pubkey) (block_hash : B256) (collateral_id : string)
    (bid_value_wei : U256) (reason : string).

Inductive Output :=
| OSubmissionResult (submission_id : Uuid) (r : SubmissionRef) (result : Result unit BuilderApiError)
| OHeader (tx : Sender) (result : Result PayloadEntry ProposerApiError)
| OExecutionPayloadBid (tx : Sender) (result : Result SignedExecutionPayloadBid ProposerApiError)
| OPayload (tx : Sender) (result : Result GetPayloadResultData ProposerApiError)
| OPreferences (tx : Sender) (result : Result unit ProposerApiError)
| OTopBid (u : TopBidUpdate)
| OBidUpdate (submission_id : Uuid) (block_hash : B256)
| OSimStarted (s : SimStarted)
| OSimDrops (d : SimPreviousSlotDrops)
| ODb (c : DbCommand)
| OOperator (d : Demotion)
| ODemotionAlert (builder : Pubkey) (builder_id : string) (block_hash : B256) (reason : string)
| OMergingAlert (block_hash : B256)
| OReveal (r : Reveal GloasPayload)
| OClearInflightPayloads
| OClearDecoded.

(** ** State *)

(** [Context] with the [SlotContext] it dereferences to. *)
Record AuctioneerContext `{BP : BlsPoints} `{BA : BidAdjustor} := mkAuctioneerContext {
  cx_cache : LocalCache;
  cx_unknown_builder_info : BuilderInfo;
  cx_bid_slot : u64;
  cx_pending_payload : option PendingPayload;
  cx_bid_sorter : BidSorter;
  cx_hydration_cache : HydrationCache;
  cx_payloads : gmap B256 PayloadEntry;
  cx_gloas_payloads : PayloadStore GloasPayload;
  cx_block_merger : BlockMerger;
  cx_bid_adjustor : Adjustor;
  cx_completed_dry_run : bool;
  cx_sims : Simulators;
  cx_block_merging_enabled : bool;
  cx_failsafe_triggered : bool;
  cx_builder_preferences : BuilderPreferencesStore;
  cx_builder_index : option u64;
  cx_seen_blocks : SeenBlocks
}.
#[export] Instance eta_AuctioneerContext `{BP : BlsPoints} `{BA : BidAdjustor}
    : Eta AuctioneerContext := λ r,
  mkAuctioneerContext _ _ (cx_cache r) (cx_unknown_builder_info r) (cx_bid_slot r)
    (cx_pending_payload r) (cx_bid_sorter r) (cx_hydration_cache r) (cx_payloads r)
    (cx_gloas_payloads r) (cx_block_merger r) (cx_bid_adjustor r) (cx_completed_dry_run r)
    (cx_sims r) (cx_block_merging_enabled r) (cx_failsafe_triggered r)
    (cx_builder_preferences r) (cx_builder_index r) (cx_seen_blocks r).

Section context.
Context `{HO : HashOrder} `{FX : FxHasher} `{ES : EthSpec} `{TH : TreeHash} `{BP : BlsPoints}
  `{BA : BidAdjustor} `{RE : RelayEnv}.
Variable merging_config : BlockMergingConfig.

Abbreviation Auc := (Comp AuctioneerContext Output) (only parsing).

(** [Context::new]; the builder identity has no index before the beacon chain
    reports one. *)
Definition context_new (sims : Simulators) (block_merging_enabled failsafe_triggered : bool)
    (bid_sorter : BidSorter) (cache : LocalCache) (bid_adjustor : Adjustor)
    : AuctioneerContext := {|
  cx_cache := cache;
  cx_unknown_builder_info :=
    mkBuilderInfo (if is_local_dev then 2 ^ 256 - 1 else 0) is_local_dev is_local_dev None None
      (bf_api_key builder_info_default) (bf_skip_sigverify builder_info_default)
      (bf_tcp_submissions builder_info_default) (bf_top_bid_feed builder_info_default);
  cx_bid_slot := 0;
  cx_pending_payload := None;
  cx_bid_sorter := bid_sorter;
  cx_hydration_cache := hydration_cache_new;
  cx_payloads := ∅;
  cx_gloas_payloads := payload_store_new;
  cx_block_merger := block_merger_new 0;
  cx_bid_adjustor := bid_adjustor;
  cx_completed_dry_run := false;
  cx_sims := sims;
  cx_block_merging_enabled := block_merging_enabled;
  cx_failsafe_triggered := failsafe_triggered;
  cx_builder_preferences := preferences_default;
  cx_builder_index := None;
  cx_seen_blocks := seen_blocks_default
|}.

Definition builder_info (c : AuctioneerContext) (builder : Pubkey) : BuilderInfo :=
  default (cx_unknown_builder_info c) (get_builder_info (cx_cache c) builder).

(** *** Components *)

Definition on_sorter {A} (m : Comp BidSorter TopBidUpdate A) : Auc A :=
  zoom cx_bid_sorter (λ s c, c <| cx_bid_sorter := s |>) OTopBid m.
Definition on_sims {A} (m : Comp Simulators SimStarted A) : Auc A :=
  zoom cx_sims (λ s c, c <| cx_sims := s |>) OSimStarted m.

Definition send_submission_result (submission_id : Uuid) (sub_ref : SubmissionRef)
    (result : Result unit BuilderApiError) : Auc unit :=
  match ref_kind sub_ref with
  | RefHttp => if future_open (ref_id sub_ref)
               then emit [OSubmissionResult submission_id sub_ref result] else mret tt
  | RefTcp => emit [OSubmissionResult submission_id sub_ref result]
  | RefInternal => mret tt
  end.

(** *** Demotions *)

(** [String::into_bytes]. *)
Definition into_bytes (s : string) : Bytes := (λ c, Z.of_N (N_of_ascii c)) <$> list_ascii_of_string s.

Definition handle_builder_demotion (now : Clock) (slot : u64) (builder_pubkey : Pubkey)
    (block_hash : B256) (bid_value_wei : U256) (reason : string) : Auc unit :=
  demoted ← gets (λ c, (demote_builder builder_pubkey (cx_cache c)).1);
  if demoted : bool then
    modify (λ c, c <| cx_cache ::= λ l, (demote_builder builder_pubkey l).2 |>);;
    builder_id ← gets (λ c, get_builder_info (cx_cache c) builder_pubkey ≫= bf_builder_id);
    let collateral_id := default "" builder_id in
    emit (if operator_connected
          then [OOperator (mkDemotion (ck_ms now) slot (into_bytes collateral_id) builder_pubkey
                  block_hash (Z.min bid_value_wei (2 ^ 128 - 1)) (into_bytes reason))]
          else []);;
    emit [ODb (DbDemoteBuilder slot builder_pubkey block_hash collateral_id bid_value_wei reason);
          ODemotionAlert builder_pubkey collateral_id block_hash reason]
  else mret tt.

(** *** Simulation results *)

Definition handle_simulation_result (now : Clock) (result : option SimulationResultInner)
    (already_sent : bool) : Auc unit :=
  match result with
  | None => mret tt
  | Some result =>
      (match si_bid result with
       | None => mret tt
       | Some bid =>
           is_adjusted ← gets (λ c, from_option is_adjusted false
                                      (cx_payloads c !! bid_block_hash bid));
           match si_result result with
           | Err err =>
               if is_demotable err then
                 if is_adjusted : bool then
                   enabled ← gets (λ c, lc_adjustments_enabled (cx_cache c));
                   if negb enabled then mret tt
                   else
                     modify (λ c, c <| cx_cache ::= λ l, l <| lc_adjustments_enabled := false |> |>);;
                     emit [ODb (DbDisableAdjustments (bid_block_hash bid))]
                 else
                   handle_builder_demotion now (bid_slot bid) (bid_builder_pubkey bid)
                     (bid_block_hash bid) (bid_value bid) (sim_error_text err)
               else mret tt
           | Ok _ => mret tt
           end
       end);;
      if negb already_sent && negb (version_is_optimistic (si_optimistic_version result))
      then send_submission_result (si_submission_id result) (si_submission_ref result)
             (Err BuilderApi.SimOnNextSlot)
      else mret tt
  end.

(** The alert is posted when a webhook is configured. *)
Definition on_merged_sim_result (inner : MergedSimulationResultInner) : Auc unit :=
  match mi_result inner with
  | Ok _ => mret tt
  | Err err =>
      if negb (is_merge_builder_fault err) then mret tt
      else
        modify (λ c, c <| cx_block_merging_enabled := false |>);;
        emit [OMergingAlert (mi_block_hash inner)]
  end.

(** *** New slots *)

Definition on_new_slot (bid_slot : u64) : Auc unit :=
  modify (λ c, c <| cx_bid_slot := bid_slot |>);;
  pending ← gets cx_pending_payload;
  modify (λ c, c <| cx_pending_payload := None |>);;
  (match pending with
   | Some p => emit [OPayload (pp_res_tx p) (Err ProposerApi.NoExecutionPayloadFound)]
   | None => mret tt
   end);;
  modify (λ c, c <| cx_completed_dry_run := false |>);;
  on_sorter (process_slot bid_slot);;
  modify (λ c, c <| cx_cache ::= λ l, l <| lc_submission_versions := ∅ |> |>);;
  modify (λ c, c <| cx_hydration_cache ::= clear |>);;
  drops ← on_sims (pool_on_new_slot bid_slot);
  (match drops with Some d => emit [OSimDrops d] | None => mret tt end);;
  merged_blocks ← gets (λ c, hash_values (lc_merged_blocks (cx_cache c)));
  (if bool_decide (merged_blocks = []) then mret tt
   else emit [ODb (DbSaveMergedBlocks merged_blocks)];;
        modify (λ c, c <| cx_cache ::= clear_merged_blocks |>));;
  modify (λ c, c <| cx_block_merger ::= merger_on_new_slot bid_slot |>);;
  modify (λ c, c <| cx_bid_adjustor ::= adjustor_on_new_slot bid_slot |>);;
  modify (λ c, c <| cx_builder_preferences ::= preferences_on_new_slot bid_slot |>);;
  emit [OClearInflightPayloads; OClearDecoded];;
  modify (λ c,
    if negb (bool_decide (cx_payloads c = ∅)) || negb (store_is_empty (cx_gloas_payloads c))
    then c <| cx_payloads := ∅ |> <| cx_gloas_payloads ::= λ s, (rotate s).2 |>
    else c).

(** *** Merged blocks *)

Definition handle_merge_response (now : Clock) (r : BlockMergeResponse) : Auc unit :=
  original ← gets (λ c, cx_payloads c !! mr_base_block_hash r);
  match original with
  | None => mret tt
  | Some original =>
      merged ← gets (λ c, merge_into merging_config (ck_ns now) original r (cx_block_merger c)
                            (cx_cache c));
      let '(payload, merger, cache) := merged in
      modify (λ c, c <| cx_block_merger := merger |> <| cx_cache := cache |>);;
      match payload with
      | None => mret tt
      | Some payload =>
          modify (λ c, c <| cx_payloads ::=
                           <[ep_block_hash (mr_execution_payload r) := payload]> |>)
      end
  end.

Definition merged_validation_request (now : Clock) (r : BlockMergeResponse) (d : SlotData)
    : option MergedValidationRequest :=
  attrs ← attrs_for_submission d (ep_parent_hash (mr_execution_payload r))
            (ep_prev_randao (mr_execution_payload r));
  Some {|
    mv_submission_id := ck_uuid now;
    mv_base_block_hash := mr_base_block_hash r;
    mv_slot := sl_bid_slot d;
    mv_parent_beacon_block_root := parent_root attrs;
    mv_proposer_fee_recipient := rg_fee_recipient (sl_registration d);
    mv_registered_gas_limit := rg_gas_limit (sl_registration d);
    mv_apply_blacklist := is_regional (vp_filtering (sl_preferences d));
    mv_inclusion_list := default [] (sl_il d);
    mv_receive_ns := ck_ns now
  |}.

(** *** Validation *)

Definition check_if_trusted_builder (info : BuilderInfo) (d : SlotData)
    : Result unit BlockValidationError :=
  match vp_trusted_builders (sl_preferences d) with
  | Some trusted_builders =>
      if bool_decide (trusted_builders = []) then Ok tt
      else
        let builder_ids := option_list (bf_builder_id info) ++ default [] (bf_builder_ids info) in
        if existsb (λ id, bool_decide (id ∈ trusted_builders)) builder_ids then Ok tt
        else Err (BuilderNotInProposersTrustedList trusted_builders)
  | None => Ok tt
  end.

Definition check_submission_fork (decoded slot_fork : ForkName) : Result unit BlockValidationError :=
  require (bool_decide (decoded = slot_fork)) (InvalidPayloadType slot_fork).

Definition validate_submission_data (payload : Submission) (decoded_fork : ForkName)
    (withdrawals_root : option B256) (d : SlotData) (attrs : PayloadAttributesUpdate)
    : Result unit BlockValidationError :=
  let registration := sl_registration d in
  let expected := pu_payload_attributes attrs in
  check_submission_fork decoded_fork (sl_current_fork d) &&?
  submission_validate payload &&?
  require (pa_timestamp expected =? timestamp payload)
    (IncorrectTimestamp (timestamp payload) (pa_timestamp expected)) &&?
  require (is_local_dev || (rg_fee_recipient registration =? proposer_fee_recipient payload))
    (FeeRecipientMismatch (proposer_fee_recipient payload) (rg_fee_recipient registration)) &&?
  require (rg_pubkey registration =? bt_proposer_pubkey (bid_trace payload))
    (ProposerPublicKeyMismatch (bt_proposer_pubkey (bid_trace payload)) (rg_pubkey registration)) &&?
  require (prev_randao payload =? pa_prev_randao expected)
    (PrevRandaoMismatch (prev_randao payload) (pa_prev_randao expected)) &&?
  require (bool_decide (withdrawals_root = Some (pu_withdrawals_root attrs)))
    (WithdrawalsRootMismatch (default 0 withdrawals_root) (pu_withdrawals_root attrs)).

(** Whether another bid is stored under the block hash of the submission. *)
Definition trace_mismatch (c : AuctioneerContext) (submission : Submission) : bool :=
  let t := bid_trace submission in
  match submission with
  | Full (SGloas _) =>
      from_option (λ stored, negb (gloas_has_bid_trace stored t)) false
        (get_for_reveal (bt_block_hash t) (cx_gloas_payloads c))
  | _ =>
      from_option (λ stored, negb (entry_has_bid_trace stored t)) false
        (cx_payloads c !! bt_block_hash t)
  end.

Definition submission_attributes (submission : Submission) (d : SlotData)
    : option PayloadAttributesUpdate :=
  match submission with
  | Full (SGloas gloas) =>
      sl_payload_attributes_map d !!
        mkForkKey (parent_hash submission) (gt_parent_block_root (gs_message gloas))
  | _ => attrs_for_submission d (parent_hash submission) (prev_randao submission)
  end.

(** The checks of [validate_submission] up to the submission version: the
    attributes and the withdrawals root the rest is checked with. *)
Definition validate_against_slot (c : AuctioneerContext) (now : Clock) (s : SubmissionData)
    (d : SlotData) : Result (PayloadAttributesUpdate * option B256) BlockValidationError :=
  let submission := su_submission s in
  if negb (submission_slot submission =? cx_bid_slot c)
  then Err (SubmissionForWrongSlot (cx_bid_slot c) (submission_slot submission))
  else if trace_mismatch c submission
  then Err (BidTraceMismatch (bt_block_hash (bid_trace submission)))
  else
    match submission_attributes submission d with
    | None => Err (UknnownParentHash (parent_hash submission)
                     (fk_parent_hash <$> hash_keys (sl_payload_attributes_map d)))
    | Some attrs =>
        match submission with
        | Dehydrated dehydrated =>
            if negb (can_hydrate (cx_hydration_cache c) dehydrated (ck_max_blobs_per_block now))
            then Err CannotHydrate
            else Ok (attrs, match su_withdrawals_root s with
                            | Some root => Some root
                            | None => cached_withdrawals_root (cx_hydration_cache c) dehydrated
                            end)
        | Full _ => Ok (attrs, su_withdrawals_root s)
        end
    end.

Definition validate_submission (now : Clock) (s : SubmissionData) (info : BuilderInfo)
    (d : SlotData) : Auc (Result PayloadAttributesUpdate BlockValidationError) :=
  c ← get;
  let submission := su_submission s in
  match validate_against_slot c now s d with
  | Err e => mret (Err e)
  | Ok (attrs, withdrawals_root) =>
      match check_submission_version (cx_cache c) (builder_pubkey submission) (cx_bid_slot c)
              (su_version s) with
      | Err e => mret (Err e)
      | Ok _ =>
          modify (λ c, c <| cx_cache ::= λ l, l <| lc_submission_versions ::=
                    <[builder_pubkey submission := (cx_bid_slot c, su_version s)]> |> |>);;
          mret (let? _ := validate_submission_data submission (su_fork_name s) withdrawals_root d
                            attrs in
                let? _ := check_if_trusted_builder info d in
                Ok attrs)
      end
  end.

(** *** Submissions *)

Definition sim_priority (is_top_bid is_optimistic : bool) : SimPriority :=
  if is_top_bid then Top else if is_optimistic then Sample else Low.

Definition should_process_optimistically (is_pessimistic : bool) (value : U256)
    (info : BuilderInfo) (d : SlotData) : bool :=
  negb is_pessimistic &&
  negb (vp_disable_optimistic (sl_preferences d)) &&
  bf_is_optimistic info &&
  (value <=? bf_collateral info) &&
  (negb (is_regional (vp_filtering (sl_preferences d))) ||
   can_process_regional_slot_optimistically info).

(** [Context::hydrate]. *)
Definition hydrate_submission (now : Clock) (submission : Submission)
    : Auc (Result (SignedBidSubmission * option B256) BuilderApiError) :=
  match submission with
  | Full full => mret (Ok (full, None))
  | Dehydrated dehydrated =>
      let max_blobs_per_block := ck_max_blobs_per_block now in
      hydrated ← gets (λ c, hydrate (cx_hydration_cache c) dehydrated max_blobs_per_block);
      match hydrated with
      | None => panic
      | Some (result, cache) =>
          modify (λ c, c <| cx_hydration_cache := cache |>);;
          mret (match result with
                | Err e => Err (BuilderApi.HydrationFailed e)
                | Ok data =>
                    match validate_payload_ssz_lengths (hd_submission data) max_blobs_per_block with
                    | Err e => Err (BuilderApi.BidValidation e)
                    | Ok _ => Ok (SFulu (hd_submission data), hd_tx_root data)
                    end
                end)
      end
  end.

Definition record_submission (now : Clock) (submission : SignedBidSubmission)
    (trace : SubmissionTrace) (is_optimistic is_adjusted : bool) (submission_id : Uuid) : Auc unit :=
  let opt_version := if is_optimistic then V1 else NotOptimistic in
  (if is_optimistic
   then emit [OBidUpdate submission_id (bt_block_hash (signed_bid_trace submission))]
   else mret tt);;
  emit [ODb (DbStoreBlockSubmission submission trace opt_version is_adjusted
               (if is_optimistic then Some (ck_ns now) else None))].

Definition store_data (now : Clock) (entry : PayloadEntry) (is_optimistic : bool)
    (submission_id : Uuid) : Auc unit :=
  (match entry with
   | PSubmission s =>
       record_submission now (SFulu (sp_signed_bid_submission s)) (sp_submission_trace s)
         is_optimistic (is_adjusted entry) submission_id
   | PGossip _ => mret tt
   end);;
  modify (λ c, c <| cx_payloads ::= <[entry_block_hash entry := entry]> |>).

Definition send_to_sim (now : Clock) (req : ValidationRequest) (fast_track : bool) : Auc unit :=
  started ← on_sims (dispatch (ck_instant now) req fast_track);
  match started with Some s => emit [OSimStarted s] | None => mret tt end.

Definition try_adjustments_dry_run (now : Clock) (entry : PayloadEntry) (d : SlotData) : Auc unit :=
  c ← get;
  if negb (cx_completed_dry_run c) && is_adjustable entry && lc_adjustments_enabled (cx_cache c)
  then
    match try_apply_adjustments (cx_bid_adjustor c) entry d true with
    | Some (adjusted_block, sim_request, _) =>
        modify (λ c, c <| cx_completed_dry_run := true |>);;
        store_data now adjusted_block (vr_is_optimistic sim_request) (vr_submission_id sim_request);;
        send_to_sim now sim_request true
    | None => mret tt
    end
  else mret tt.

(** Sorting: whether the bid was taken optimistically, and whether it is, or
    would be, the top bid. *)
Definition sort_submission (now : Clock) (s : SubmissionData) (info : BuilderInfo) (d : SlotData)
    (attrs : PayloadAttributesUpdate) : Auc (bool * bool) :=
  let bid := from_submission_data s (parent_root attrs) in
  c ← get;
  if sm_accept_optimistic (cx_sims c) && negb (cx_failsafe_triggered c) &&
     should_process_optimistically (su_is_pessimistic s) (bid_value bid) info d
  then
    is_top_bid ← on_sorter (sort (ck_ns now) bid);
    mret (true, is_top_bid)
  else
    mret (false, match top_bid_value (attributes_fork attrs) (cx_bid_sorter c) with
                 | Some top => top <? bid_value bid
                 | None => true
                 end).

(** The request for the simulators. *)
Definition validation_request (s : SubmissionData) (d : SlotData) (attrs : PayloadAttributesUpdate)
    (submission : SignedBidSubmission) (tx_root : option B256) (is_optimistic is_top_bid : bool)
    : ValidationRequest := {|
  vr_submission_id := su_submission_id s;
  vr_priority := sim_priority is_top_bid is_optimistic;
  vr_is_top_bid := is_top_bid;
  vr_is_optimistic := is_optimistic;
  vr_apply_blacklist := is_regional (vp_filtering (sl_preferences d));
  vr_registered_gas_limit := rg_gas_limit (sl_registration d);
  vr_parent_beacon_block_root := parent_root attrs;
  vr_inclusion_list := default [] (sl_il d);
  vr_submission := submission;
  vr_tx_root := tx_root;
  vr_version := su_version s;
  vr_trace := su_trace s;
  vr_receive_ns := tr_receive_ns (su_trace s);
  vr_submission_ref := su_submission_ref s
|}.

(** Keeping the payload of a submission sent to the simulators. *)
Definition store_submission (now : Clock) (s : SubmissionData) (d : SlotData)
    (attrs : PayloadAttributesUpdate) (submission : SignedBidSubmission) (tx_root : option B256)
    (is_optimistic : bool) : Auc unit :=
  match submission with
  | SFulu submission =>
      let entry := new_submission submission (pu_withdrawals_root attrs) tx_root
        (su_bid_adjustment_data s) (su_version s) (su_trace s)
        (pa_parent_beacon_block_root (pu_payload_attributes attrs)) in
      try_adjustments_dry_run now entry d;;
      store_data now entry is_optimistic (su_submission_id s)
  | SGloas submission =>
      let entry := gloas_payload_new submission (rg_fee_recipient (sl_registration d)) in
      record_submission now (SGloas submission) (su_trace s) is_optimistic false
        (su_submission_id s);;
      modify (λ c, c <| cx_gloas_payloads ::=
                        insert_payload (bt_block_hash (gt_trace (gs_message submission))) entry |>)
  end.

(** A validated submission. *)
Definition process_submission (now : Clock) (s : SubmissionData) (info : BuilderInfo)
    (d : SlotData) (attrs : PayloadAttributesUpdate) : Auc unit :=
  sorted ← sort_submission now s info d attrs;
  let '(is_optimistic, is_top_bid) := sorted in
  hydrated ← hydrate_submission now (su_submission s);
  match hydrated with
  | Err _ => send_submission_result (su_submission_id s) (su_submission_ref s)
               (Err BuilderApi.InternalError)
  | Ok (submission, tx_root) =>
      (if is_optimistic : bool
       then send_submission_result (su_submission_id s) (su_submission_ref s) (Ok tt)
       else mret tt);;
      send_to_sim now (validation_request s d attrs submission tx_root is_optimistic is_top_bid)
        false;;
      store_submission now s d attrs submission tx_root is_optimistic
  end.

Definition handle_submission (now : Clock) (s : SubmissionData) (d : SlotData) : Auc unit :=
  info ← gets (λ c, builder_info c (builder_pubkey (su_submission s)));
  validated ← validate_submission now s info d;
  match validated with
  | Err e =>
      (match su_submission s with
       | Dehydrated dehydrated =>
           modify (λ c, c <| cx_hydration_cache ::= λ h, feed h dehydrated |>)
       | Full _ => mret tt
       end);;
      send_submission_result (su_submission_id s) (su_submission_ref s)
        (Err (BuilderApi.BidValidation e))
  | Ok attrs => process_submission now s info d attrs
  end.

(** [sort_simulation_result]: whether the builder was answered. *)
Definition sort_simulation_result (now : Clock) (result : option SimulationResultInner)
    : Auc bool :=
  match result with
  | None => mret false
  | Some result =>
      let need_send_result := negb (version_is_optimistic (si_optimistic_version result)) in
      let send res :=
        if need_send_result
        then send_submission_result (si_submission_id result) (si_submission_ref result) res
        else mret tt in
      (match si_result result with
       | Err err =>
           if is_demotable err then
             (match si_bid result with
              | Some bid => on_sorter (demote (ck_fork_ns now) (bid_builder_pubkey bid))
              | None => mret tt
              end);;
             send (Err (BuilderApi.BlockSimulation err))
           else send (Err BuilderApi.InternalError)
       | Ok _ =>
           match si_bid result with
           | None => panic
           | Some bid =>
               on_sorter (sort (ck_ns now) bid);;
               if need_send_result then
                 emit [OBidUpdate (si_submission_id result) (bid_block_hash bid);
                       ODb (DbUpdateBlockSubmissionLiveTs (bid_slot bid) (bid_block_hash bid)
                              (ck_ns now))];;
                 send (Ok tt)
               else mret tt
           end
       end);;
      mret need_send_result
  end.

(** *** Headers *)

(** The bid adjustor's part of [Context::get_header]. *)
Definition adjusted_header (now : Clock) (original_bid : PayloadEntry) (d : SlotData)
    : Auc PayloadEntry :=
  c ← get;
  if lc_adjustments_enabled (cx_cache c) then
    match try_apply_adjustments (cx_bid_adjustor c) original_bid d false with
    | Some (adjusted_bid, sim_request, is_adjustable_slot) =>
        store_data now adjusted_bid (vr_is_optimistic sim_request) (vr_submission_id sim_request);;
        send_to_sim now sim_request true;;
        mret (if is_adjustable_slot : bool then adjusted_bid else original_bid)
    | None => mret original_bid
    end
  else mret original_bid.

(** [Context::get_header]. *)
Definition context_get_header (now : Clock) (parent_hash : B256) (d : SlotData)
    (is_mev_boost : bool) : Auc (Result PayloadEntry ProposerApiError) :=
  c ← get;
  match fork ← fork_for_parent_hash d parent_hash; get_header fork (cx_bid_sorter c) with
  | None => mret (Err ProposerApi.NoBidPrepared)
  | Some best_block_hash =>
      match cx_payloads c !! best_block_hash with
      | None => mret (Err ProposerApi.NoBidPrepared)
      | Some original_bid =>
          let '(merged_bid, merger, cache) :=
            merged_header merging_config (ck_ns now) original_bid is_mev_boost
              (cx_block_merger c) (cx_cache c) in
          modify (λ c, c <| cx_block_merger := merger |> <| cx_cache := cache |>);;
          match merged_bid with
          | Some merged_bid => mret (Ok merged_bid)
          | None => bid ← adjusted_header now original_bid d; mret (Ok bid)
          end
      end
  end.

Definition handle_get_header (now : Clock) (params : GetHeaderParams) (d : SlotData)
    (res_tx : Sender) (is_mev_boost : bool) : Auc unit :=
  slot ← gets cx_bid_slot;
  assert_that (gh_slot params =? slot);;
  result ← context_get_header now (gh_parent_hash params) d is_mev_boost;
  emit [OHeader res_tx result].

(** *** Gloas bids *)

Definition check_execution_payload_bid_liveness (params : GetExecutionPayloadBidParams)
    (d : SlotData) : Result ForkKey ProposerApiError :=
  let fork := mkForkKey (xp_parent_hash params) (xp_parent_root params) in
  require (xp_slot params =? sl_bid_slot d)
    (ProposerApi.BidRequestSlotMismatch (sl_bid_slot d) (xp_slot params)) &&?
  require (xp_proposer_pubkey params =? slot_proposer d)
    (ProposerApi.UnexpectedProposerPubkey (slot_proposer d) (xp_proposer_pubkey params)) &&?
  require (bool_decide (is_Some (sl_payload_attributes_map d !! fork))) ProposerApi.NoBidPrepared &&?
  Ok fork.

(** [GloasBuilderIdentity::sign_bid]. *)
Definition sign_bid (builder_index : option u64) (bid : ExecutionPayloadBid)
    : Result SignedExecutionPayloadBid ProposerApiError :=
  match builder_index with
  | None => Err ProposerApi.NoBidPrepared
  | Some index =>
      let message := bid <| xb_builder_index := index |> in
      Ok (mkSignedExecutionPayloadBid message (builder_sign message))
  end.

Definition handle_get_execution_payload_bid (params : GetExecutionPayloadBidParams)
    (d : SlotData) (res_tx : Sender) : Auc unit :=
  c ← get;
  emit [OExecutionPayloadBid res_tx
    (let? fork := check_execution_payload_bid_liveness params d in
     match get_header fork (cx_bid_sorter c) with
     | None => Err ProposerApi.NoBidPrepared
     | Some best_block_hash =>
         match get_payload best_block_hash (cx_gloas_payloads c) with
         | None => Err ProposerApi.NoBidPrepared
         | Some entry => sign_bid (cx_builder_index c) (gl_bid entry)
         end
     end)].

(** *** Payloads *)

Definition handle_gossip_payload (payload : BroadcastPayloadParams) (d : SlotData) : Auc unit :=
  slot ← gets cx_bid_slot;
  if negb (slot =? bp_slot payload) then mret tt
  else if negb (slot_proposer d =? bp_proposer_pub_key payload) then mret tt
  else
    let block_hash := ep_block_hash (pab_execution_payload (bp_execution_payload payload)) in
    let entry := new_gossip (bp_execution_payload payload) (bp_bid_data payload) in
    modify (λ c, c <| cx_payloads ::=
      λ m, match m !! block_hash with Some _ => m | None => <[block_hash := entry]> m end |>).

(** [VariableList::new] on a list of length [n]. *)
Definition variable_list (n max : Z) : Result unit SszError := require (n <=? max) (OutOfBounds n max).

(** [to_lighthouse_fulu_header] and [to_lighthouse_fulu_payload]: the same
    fields in the consensus client's types, whose lists are bounded. *)
Definition to_lighthouse_fulu_header (h : ExecutionPayloadHeader)
    : Result ExecutionPayloadHeader SszError :=
  variable_list (len (eh_extra_data h)) max_extra_data_bytes &&? Ok h.

Fixpoint convert_transactions (txs : list Bytes) : Result unit SszError :=
  match txs with
  | [] => Ok tt
  | tx :: rest => variable_list (len tx) max_bytes_per_transaction &&? convert_transactions rest
  end.
Definition to_lighthouse_fulu_payload (p : ExecutionPayload) : Result ExecutionPayload SszError :=
  variable_list (len (ep_extra_data p)) max_extra_data_bytes &&?
  convert_transactions (ep_transactions p) &&?
  variable_list (len (ep_transactions p)) max_transactions_per_payload &&? Ok p.

Definition validate_proposal_coordinate (bid_slot : u64) (blinded : SignedBlindedBeaconBlock)
    (d : SlotData) : Result unit ProposerApiError :=
  let slot_duty := sl_registration_data d in
  require (de_validator_index slot_duty =? bl_proposer_index blinded)
    (ProposerApi.UnexpectedProposerIndex (de_validator_index slot_duty)
       (bl_proposer_index blinded)) &&?
  require (bid_slot =? de_slot slot_duty)
    (ProposerApi.InternalSlotMismatchesWithSlotDuty bid_slot (de_slot slot_duty)) &&?
  require (de_slot slot_duty =? bl_slot blinded)
    (ProposerApi.InvalidBlindedBlockSlot (de_slot slot_duty) (bl_slot blinded)).

Definition unblind (blinded : SignedBlindedBeaconBlock) (local : PayloadAndBlobs) (d : SlotData)
    : Result (GetPayloadResponse * VersionedSignedProposal) ProposerApiError :=
  let payload := pab_execution_payload local in
  let bundle := pab_blobs_bundle local in
  match bl_fork blinded with
  | Fulu =>
      let? header := result_map_err ProposerApi.SszError
        (to_lighthouse_fulu_header (to_header payload None None)) in
      if negb (bool_decide (header = bl_execution_payload_header blinded))
      then Err ProposerApi.BlindedBlockAndPayloadHeaderMismatch
      else if negb (bool_decide (bb_commitments bundle = bl_blob_kzg_commitments blinded))
      then Err ProposerApi.BlobKzgCommitmentsMismatch
      else if negb (len (bl_blob_kzg_commitments blinded) =? len (bb_blobs bundle))
      then Err ProposerApi.BlindedBlobsBundleLengthMismatch
      else
        let? execution_payload := result_map_err ProposerApi.SszError
          (to_lighthouse_fulu_payload payload) in
        let signed_block := mkSignedBeaconBlock (bl_slot blinded) (bl_proposer_index blinded)
          (bl_parent_root blinded) (bl_state_root blinded) (bl_body blinded) execution_payload
          (bl_blob_kzg_commitments blinded) (bl_signature blinded) in
        Ok (mkGetPayloadResponse (sl_current_fork d) local,
            mkVersionedSignedProposal signed_block (bb_proofs bundle) (bb_blobs bundle))
  | _ => Err ProposerApi.UnsupportedBeaconChainVersion
  end.

(** [Context::get_payload]. *)
Definition context_get_payload (now : Clock) (bid_slot : u64) (blinded : SignedBlindedBeaconBlock)
    (local : PayloadAndBlobs) (trace : GetPayloadTrace) (d : SlotData)
    : Result (GetPayloadResponse * VersionedSignedProposal * GetPayloadTrace) ProposerApiError :=
  validate_proposal_coordinate bid_slot blinded d &&?
  if negb (bool_decide (bl_fork blinded = sl_current_fork d))
  then Err ProposerApi.UnsupportedBeaconChainVersion
  else
    let? r := unblind blinded local d in
    Ok (r.1, r.2, trace <| gt_proposer_index_validated := ck_ns now |>).

(** The block hash of the block to broadcast, if the payload is delivered. *)
Definition handle_get_payload (now : Clock) (local : PayloadEntry)
    (blinded : SignedBlindedBeaconBlock) (trace : GetPayloadTrace) (res_tx : Sender) (d : SlotData)
    : Auc (option B256) :=
  bid_slot ← gets cx_bid_slot;
  match context_get_payload now bid_slot blinded (payload_and_blobs local) trace d with
  | Ok (to_proposer, to_publish, trace) =>
      emit [OPayload res_tx (Ok (mkGetPayloadResultData to_proposer to_publish trace
              (sl_current_fork d) (bid_data local)))];;
      mret (Some (ep_block_hash (pab_execution_payload (pr_data to_proposer))))
  | Err e => emit [OPayload res_tx (Err e)];; mret None
  end.

Definition maybe_try_unblind (now : Clock) (d : SlotData) : Auc (option B256) :=
  c ← get;
  match cx_pending_payload c with
  | None => mret None
  | Some pending =>
      match cx_payloads c !! pp_block_hash pending with
      | Some local =>
          modify (λ c, c <| cx_pending_payload := None |>);;
          handle_get_payload now local (pp_blinded pending) (pp_trace pending) (pp_res_tx pending) d
      | None => mret None
      end
  end.

(** *** Gloas blocks *)

Definition handle_gloas_block (slot : u64) (seen : SeenBlock) : Auc unit :=
  modify (λ c, c <| cx_seen_blocks ::= λ s, (record slot seen s).2 |>).

Definition handle_attestation_deadline (slot : u64) (head_root : B256) : Auc unit :=
  c ← get;
  let '(reveal, seen) := attestation_deadline (cx_builder_index c) (cx_gloas_payloads c) slot
    head_root (cx_seen_blocks c) in
  modify (λ c, c <| cx_seen_blocks := seen |>);;
  match reveal with Some r => emit [OReveal r] | None => mret tt end.
End context.
