(* ===== verification/Auctioneer.v ===== *)
(** * The auctioneer

    [relay/src/auctioneer/mod.rs]: the state machine that turns slot data,
    submissions, simulation results and proposer requests into calls of the
    handlers of [Context.v], and the events of its loop. *)

From Stdlib Require Import String.
From S2P Require Import Prelude Types Submission Hydration SlotStores SimError ApiError BidSorter.
From S2P Require Import Simulators LocalCache Payload BlockMerger Context.

(** ** States and events *)

Inductive State :=
| SSlot (bid_slot : u64) (registration_data : option BuilderGetValidatorsResponseEntry)
    (payload_attributes_map : gmap ForkKey PayloadAttributesUpdate)
    (il : option InclusionListWithMetadata)
| SSorting (slot_data : SlotData)
| SBroadcasting (slot_data : SlotData) (block_hash : B256).

Definition state_default : State := SSlot 0 None ∅ None.

(** [State::bid_slot]. *)
Definition state_bid_slot (s : State) : u64 :=
  match s with
  | SSlot bid_slot _ _ _ => bid_slot
  | SSorting d => sl_bid_slot d
  | SBroadcasting d _ => sl_bid_slot d
  end.

Inductive Event :=
| ESlotData (bid_slot : u64) (registration_data : option BuilderGetValidatorsResponseEntry)
    (payload_attributes : list PayloadAttributesUpdate) (il : option InclusionListWithMetadata)
| ESubmission (submission_data : SubmissionData)
| EGetHeader (params : GetHeaderParams) (res_tx : Sender) (is_mev_boost : bool)
| EGetExecutionPayloadBid (params : GetExecutionPayloadBidParams) (res_tx : Sender)
| ESubmitBuilderPreferences (proposer_pubkey : Pubkey) (slot max_execution_payment : u64)
    (res_tx : Sender)
| EGloasBlock (slot : u64) (seen : SeenBlock)
| EAttestationDeadline (slot : u64) (head_root : B256)
| EGetPayload (block_hash : B256) (blinded : SignedBlindedBeaconBlock) (trace : GetPayloadTrace)
    (res_tx : Sender)
| EGossipPayload (payload : BroadcastPayloadParams)
| ESimResult (result : option SimulationResultInner)
| EMergeResult (result : Result BlockMergeResponse BlockSimError)
| EBuilderDemotion (slot : u64) (builder_pubkey : Pubkey) (block_hash : B256)
    (bid_value_wei : U256) (reason : string).

Section auctioneer.
Context `{HO : HashOrder} `{FX : FxHasher} `{ES : EthSpec} `{TH : TreeHash} `{BP : BlsPoints}
  `{BA : BidAdjustor} `{RE : RelayEnv}.
Variable merging_config : BlockMergingConfig.

Abbreviation Auc := (Comp AuctioneerContext Output) (only parsing).

(** ** Transitions *)

Definition process_slot_data (bid_slot : u64)
    (payload_attributes_map : gmap ForkKey PayloadAttributesUpdate)
    (registration_data : option BuilderGetValidatorsResponseEntry)
    (payload_attributes : list PayloadAttributesUpdate) (il : option InclusionListWithMetadata)
    : State :=
  let attributes :=
    foldl (λ m u, <[attributes_fork u := u]> m) payload_attributes_map payload_attributes in
  match registration_data with
  | Some registration =>
      if bool_decide (attributes = ∅) then SSlot bid_slot (Some registration) attributes il
      else SSorting (mkSlotData bid_slot registration attributes (fork_at_slot bid_slot) il)
  | None => SSlot bid_slot None attributes il
  end.

Definition maybe_start_broadcasting (now : Clock) (d : SlotData) : Auc State :=
  unblinded ← maybe_try_unblind now d;
  mret (match unblinded with Some block_hash => SBroadcasting d block_hash | None => SSorting d end).

(** A slot ends: [on_new_slot], then the data of the new one. *)
Definition start_slot (bid_slot : u64)
    (registration_data : option BuilderGetValidatorsResponseEntry)
    (payload_attributes : list PayloadAttributesUpdate) (il : option InclusionListWithMetadata)
    : Auc State :=
  on_new_slot bid_slot;;
  mret (process_slot_data bid_slot ∅ registration_data payload_attributes il).

(** [Event::SlotData] in each state. *)
Definition on_slot_data (st : State) (bid_slot : u64)
    (registration_data : option BuilderGetValidatorsResponseEntry)
    (payload_attributes : list PayloadAttributesUpdate) (il : option InclusionListWithMetadata)
    : Auc State :=
  match st with
  | SSlot curr_slot curr_reg attributes curr_il =>
      match Z.compare bid_slot curr_slot with
      | Lt => mret st
      | Eq =>
          let registration :=
            match curr_reg with Some r => Some r | None => registration_data end in
          let il := match curr_il with Some l => Some l | None => il end in
          mret (process_slot_data bid_slot attributes registration payload_attributes il)
      | Gt => start_slot bid_slot registration_data payload_attributes il
      end
  | SSorting d =>
      match Z.compare bid_slot (sl_bid_slot d) with
      | Lt => mret st
      | Eq =>
          let new_forks := List.filter (λ u,
            negb (bool_decide (is_Some (sl_payload_attributes_map d !! attributes_fork u))))
            payload_attributes in
          if negb (bool_decide (length new_forks = 0%nat)) then
            mret (SSorting (d <| sl_payload_attributes_map ::=
              λ m, foldl (λ m u, <[attributes_fork u := u]> m) m new_forks |>))
          else
            match sl_il d, il with
            | None, Some _ => mret (SSorting (d <| sl_il := il |>))
            | _, _ => mret st
            end
      | Gt => start_slot bid_slot registration_data payload_attributes il
      end
  | SBroadcasting d _ =>
      match Z.compare bid_slot (sl_bid_slot d) with
      | Lt | Eq => mret st
      | Gt => start_slot bid_slot registration_data payload_attributes il
      end
  end.

Definition on_submission (now : Clock) (st : State) (s : SubmissionData) : Auc State :=
  match st with
  | SSorting d =>
      handle_submission now s d;;
      maybe_start_broadcasting now d
  | SBroadcasting d _ =>
      send_submission_result (su_submission_id s) (su_submission_ref s)
        (Err (BuilderApi.DeliveringPayload (submission_slot (su_submission s)) (sl_bid_slot d)));;
      mret st
  | SSlot bid_slot _ _ _ =>
      send_submission_result (su_submission_id s) (su_submission_ref s)
        (Err (if submission_slot (su_submission s) =? bid_slot
              then BuilderApi.ProposerDutyNotFound
              else BuilderApi.BidValidation
                     (SubmissionForWrongSlot bid_slot (submission_slot (su_submission s)))));;
      mret st
  end.

(** The answer to a request made while no bids are sorted. *)
Definition not_sorting (slot bid_slot : u64) : ProposerApiError :=
  if slot =? bid_slot then ProposerApi.NoBidPrepared
  else ProposerApi.RequestWrongSlot slot bid_slot.

Definition on_get_header (now : Clock) (st : State) (params : GetHeaderParams) (res_tx : Sender)
    (is_mev_boost : bool) : Auc State :=
  (match st with
   | SSorting d =>
       if negb (sl_bid_slot d =? gh_slot params)
       then emit [OHeader res_tx
                    (Err (ProposerApi.RequestWrongSlot (gh_slot params) (sl_bid_slot d)))]
       else if bool_decide (fork_for_parent_hash d (gh_parent_hash params) = None)
       then emit [OHeader res_tx (Err ProposerApi.NoBidPrepared)]
       else if negb (slot_proposer d =? gh_pubkey params)
       then emit [OHeader res_tx (Err ProposerApi.NoBidPrepared)]
       else handle_get_header merging_config now params d res_tx is_mev_boost
   | SBroadcasting _ _ => emit [OHeader res_tx (Err ProposerApi.DeliveringPayload)]
   | SSlot bid_slot _ _ _ => emit [OHeader res_tx (Err (not_sorting (gh_slot params) bid_slot))]
   end);;
  mret st.

Definition on_get_execution_payload_bid (st : State) (params : GetExecutionPayloadBidParams)
    (res_tx : Sender) : Auc State :=
  (match st with
   | SSorting d =>
       if negb (sl_bid_slot d =? xp_slot params)
       then emit [OExecutionPayloadBid res_tx
                    (Err (ProposerApi.RequestWrongSlot (xp_slot params) (sl_bid_slot d)))]
       else handle_get_execution_payload_bid params d res_tx
   | SBroadcasting _ _ => emit [OExecutionPayloadBid res_tx (Err ProposerApi.DeliveringPayload)]
   | SSlot bid_slot _ _ _ =>
       emit [OExecutionPayloadBid res_tx (Err (not_sorting (xp_slot params) bid_slot))]
   end);;
  mret st.

Definition on_get_payload (now : Clock) (st : State) (block_hash : B256)
    (blinded : SignedBlindedBeaconBlock) (trace : GetPayloadTrace) (res_tx : Sender) : Auc State :=
  match st with
  | SSorting d =>
      c ← get;
      match cx_payloads c !! block_hash with
      | Some local =>
          delivered ← handle_get_payload now local blinded trace res_tx d;
          mret (match delivered with Some h => SBroadcasting d h | None => st end)
      | None =>
          match cx_pending_payload c with
          | None =>
              modify (λ c, c <| cx_pending_payload :=
                               Some (mkPendingPayload block_hash blinded trace res_tx) |>);;
              mret st
          | Some _ =>
              emit [OPayload res_tx (Err ProposerApi.GetPayloadAlreadyReceived)];;
              mret st
          end
      end
  | SBroadcasting d broadcasting =>
      emit [OPayload res_tx
        (Err (if (sl_bid_slot d =? bl_slot blinded) && (broadcasting =? block_hash)
              then ProposerApi.DeliveringPayload else ProposerApi.GetPayloadAlreadyReceived))];;
      mret st
  | SSlot bid_slot _ _ _ =>
      emit [OPayload res_tx
        (Err (if saturating_sub bid_slot 1 =? bl_slot blinded
              then ProposerApi.RequestForPastSlot (bl_slot blinded) (bl_slot blinded)
              else ProposerApi.ProposerNotRegistered))];;
      mret st
  end.

Definition on_sim_result (now : Clock) (st : State) (result : option SimulationResultInner)
    : Auc State :=
  already_sent ← match st with
                 | SSorting d =>
                     let current := match result with
                                    | Some r => from_option (λ b, bid_slot b =? sl_bid_slot d) false
                                                  (si_bid r)
                                    | None => false
                                    end in
                     if current then sort_simulation_result now result else mret false
                 | _ => mret false
                 end;
  handle_simulation_result now result already_sent;;
  mret st.

Definition on_merge_result (now : Clock) (st : State) (result : Result BlockMergeResponse BlockSimError)
    : Auc State :=
  match st, result with
  | SSorting d, Ok response =>
      handle_merge_response merging_config now response;;
      match merged_validation_request now response d with
      | Some req =>
          started ← on_sims (dispatch_merged (ck_instant now) req response);
          (match started with Some s => emit [OSimStarted s] | None => mret tt end);;
          mret st
      | None => mret st
      end
  | _, _ => mret st
  end.

Definition on_submit_builder_preferences (st : State) (proposer_pubkey : Pubkey)
    (slot max_execution_payment : u64) (res_tx : Sender) : Auc State :=
  let bid_slot := state_bid_slot st in
  (if slot <? bid_slot
   then emit [OPreferences res_tx (Err (ProposerApi.RequestForPastSlot slot bid_slot))]
   else modify (λ c, c <| cx_builder_preferences ::=
                         store_preference proposer_pubkey slot max_execution_payment |>);;
        emit [OPreferences res_tx (Ok tt)]);;
  mret st.

(** [State::_step]: the state after the event. *)
Definition step (now : Clock) (st : State) (e : Event) : Auc State :=
  match e with
  | ESlotData bid_slot registration_data payload_attributes il =>
      on_slot_data st bid_slot registration_data payload_attributes il
  | ESubmission s => on_submission now st s
  | EGetHeader params res_tx is_mev_boost => on_get_header now st params res_tx is_mev_boost
  | EGetExecutionPayloadBid params res_tx => on_get_execution_payload_bid st params res_tx
  | ESubmitBuilderPreferences proposer slot payment res_tx =>
      on_submit_builder_preferences st proposer slot payment res_tx
  | EGloasBlock slot seen => handle_gloas_block slot seen;; mret st
  | EAttestationDeadline slot head_root => handle_attestation_deadline slot head_root;; mret st
  | EGetPayload block_hash blinded trace res_tx =>
      on_get_payload now st block_hash blinded trace res_tx
  | EGossipPayload payload =>
      match st with
      | SSorting d => handle_gossip_payload payload d;; maybe_start_broadcasting now d
      | _ => mret st
      end
  | ESimResult result => on_sim_result now st result
  | EMergeResult result => on_merge_result now st result
  | EBuilderDemotion slot builder block_hash value reason =>
      handle_builder_demotion now slot builder block_hash value reason;; mret st
  end.

(** One turn of the loop over [sims.next_done] in [loop_body]: the state, and
    whether there was a result. [SimUpdate] telemetry of a finished simulation
    is left out; the simulations a turn starts are outputs of the pool. *)
Definition poll_sims (now : Clock) (clock : nat → Z) (st : State) : Auc (State * bool) :=
  finished ← on_sims (next_done clock);
  match finished with
  | None => mret (st, false)
  | Some d =>
      match sd_result d with
      | Validate _ result => st' ← step now st (ESimResult result); mret (st', true)
      | ValidateMerged _ (Some inner) => on_merged_sim_result inner;; mret (st, true)
      | ValidateMerged _ None => mret (st, true)
      end
  end.
End auctioneer.
