(* ===== verification/Duties.v ===== *)
(** * Slots, duties and preferences of the housekeeper

    [relay/src/housekeeper]: [chain_head.rs], [payload_attrs.rs], [duties.rs],
    [proposer_prefs.rs], [primev_service.rs], [inclusion_list_service.rs], and
    the slot information the API reads ([common/src/slot_info.rs]). The tile
    that drives them is in [Housekeeper]. *)

From S2P Require Import Prelude Types Submission InclusionLists LocalCache Payload PeerConnection Context.

(** ** Chain parameters

    [common/src/chain_info.rs]. [start_of] is the slot clock's; times are in
    nanoseconds. [Slot] and [Epoch] saturate. *)
Class ChainInfo := {
  start_of : u64 → option Z;
  slots_per_epoch : u64;
  genesis_time_in_secs : u64;
  slot_duration : Z
}.

Definition succ_slot (s : u64) : u64 := Z.min u64_max (s + 1).

(** One reading of the clocks: [Instant::now], [utcnow_dur] and
    [ChainInfo::current_slot]. *)
Record Now := mkNow { now_instant : Z; now_utc : Z; now_slot : u64 }.

Definition SECOND : Z := 1000000000.
Definition CUTOFF_TIME : Z := 4 * SECOND.
Definition IL_CUTOFF : Z := 6 * SECOND.
Definition IL_RETRY_INTERVAL : Z := 100000000.

Inductive ChainHeadState := HeadPending | HeadSent.
#[export] Instance ChainHeadState_eq_dec : EqDecision ChainHeadState.
Proof. solve_decision. Defined.

Record ChainHead := mkChainHead {
  ch_slot : u64;
  ch_block : option B256;
  ch_state : ChainHeadState;
  ch_next_deadline : Z;
  ch_payload_attributes_done : bool;
  ch_duties_done : bool;
  ch_inclusion_list_done : bool;
  ch_sent_was_complete : bool
}.
#[export] Instance eta_ChainHead : Eta ChainHead := λ r,
  mkChainHead (ch_slot r) (ch_block r) (ch_state r) (ch_next_deadline r)
    (ch_payload_attributes_done r) (ch_duties_done r) (ch_inclusion_list_done r)
    (ch_sent_was_complete r).

(** [HeadEventData]; the state root is not read. *)
Record HeadEventData := mkHeadEventData { hv_slot : u64; hv_block : B256 }.

Section chain_head.
Context `{CI : ChainInfo}.

Definition epoch_of (slot : u64) : u64 := slot / slots_per_epoch.
Definition epoch_start_slot (epoch : u64) : u64 := Z.min u64_max (epoch * slots_per_epoch).

Definition seconds_per_slot : u64 := slot_duration / SECOND.
Definition chain_slot_start (slot : u64) : Z :=
  (genesis_time_in_secs + slot * seconds_per_slot) * SECOND.
Definition ATTESTATION_DUE_BPS_GLOAS : Z := 2500.
Definition gloas_attestation_due (slot : u64) : Z :=
  chain_slot_start slot + slot_duration * ATTESTATION_DUE_BPS_GLOAS / 10000.

Definition slot_cutoff_timeout (utc : Z) (head : u64) : Z :=
  match start_of (succ_slot head) with
  | Some t => sat_sub t utc + CUTOFF_TIME
  | None => CUTOFF_TIME
  end.

Definition chain_head_new (now : Now) : ChainHead :=
  mkChainHead (now_slot now) None HeadPending
    (now_instant now + slot_cutoff_timeout (now_utc now) (sat_sub (now_slot now) 1))
    false false false false.

Definition all_done (c : ChainHead) : bool :=
  ch_duties_done c && ch_payload_attributes_done c && ch_inclusion_list_done c.

Definition is_ready (now : Now) (c : ChainHead) : bool :=
  match ch_state c with
  | HeadPending =>
      (ch_next_deadline c <=? now_instant now) ||
      (bool_decide (is_Some (ch_block c)) && all_done c)
  | HeadSent => negb (ch_sent_was_complete c) && all_done c
  end.

Definition is_new_slot (now : Now) (c : ChainHead) : bool * ChainHead :=
  if ch_slot c <? now_slot now then
    (true, mkChainHead (now_slot now) None HeadPending
             (now_instant now + slot_cutoff_timeout (now_utc now) (ch_slot c))
             false false false false)
  else (false, c).

Definition already_seen (new_slot : u64) (c : ChainHead) : bool := new_slot <=? ch_slot c.

Definition chain_head_update (now : Now) (ev : HeadEventData) (c : ChainHead) : bool * ChainHead :=
  if already_seen (hv_slot ev) c then
    (false, if bool_decide (ch_state c ≠ HeadSent) then c <| ch_block := Some (hv_block ev) |> else c)
  else
    (true, mkChainHead (hv_slot ev) (Some (hv_block ev)) HeadPending
             (now_instant now + slot_cutoff_timeout (now_utc now) (sat_sub (hv_slot ev) 1))
             false false false false).
End chain_head.

Definition mark_duties_done (c : ChainHead) : ChainHead := c <| ch_duties_done := true |>.
Definition mark_duties_changed (c : ChainHead) : ChainHead := c <| ch_sent_was_complete := false |>.
Definition mark_payload_attrs_done (c : ChainHead) : ChainHead :=
  c <| ch_payload_attributes_done := true |> <| ch_sent_was_complete := false |>.
Definition mark_il_done (c : ChainHead) : ChainHead := c <| ch_inclusion_list_done := true |>.
Definition chain_head_sent (c : ChainHead) : ChainHead :=
  c <| ch_state := HeadSent |> <| ch_sent_was_complete := all_done c |>.

(** ** Payload attributes *)

(** [PayloadAttributesEventData]; the proposer index and the parent's number
    and root are not read. *)
Record PayloadAttributesEvent := mkPayloadAttributesEvent {
  pe_proposal_slot : u64;
  pe_parent_block_hash : B256;
  pe_payload_attributes : PayloadAttributes
}.

Abbreviation KnownAttributes := (gmap (ForkKey * u64) PayloadAttributesUpdate) (only parsing).

Section payload_attributes.
Context `{TH : TreeHash}.

Definition event_update (event : PayloadAttributesEvent) : PayloadAttributesUpdate :=
  mkPayloadAttributesUpdate (pe_proposal_slot event) (pe_parent_block_hash event)
    (withdrawals_root (pa_withdrawals (pe_payload_attributes event))) (pe_payload_attributes event).
Definition event_fork (event : PayloadAttributesEvent) : ForkKey :=
  mkForkKey (pe_parent_block_hash event)
    (default 0 (pa_parent_beacon_block_root (pe_payload_attributes event))).

Definition process_payload_attributes (event : PayloadAttributesEvent)
    (s : ChainHead * KnownAttributes) : ChainHead * KnownAttributes :=
  let '(chain_head, known) := s in
  if pe_proposal_slot event <=? ch_slot chain_head then s
  else
    let key := (event_fork event, pe_proposal_slot event) in
    if bool_decide (is_Some (known !! key)) then s
    else
      let known := filter (λ e, ch_slot chain_head ≤ pu_slot e.2) known in
      let update := event_update event in
      let is_bid_slot := pu_slot update =? succ_slot (ch_slot chain_head) in
      (if is_bid_slot then mark_payload_attrs_done chain_head else chain_head,
       <[key := update]> known).
End payload_attributes.

(** ** Sorting by a key

    [slice::sort_by_key] is stable. *)
Section sort_by_key.
Context {A : Type} (key : A → Z).

Fixpoint insert_by_key (x : A) (l : list A) : list A :=
  match l with
  | [] => [x]
  | y :: l' => if key x <=? key y then x :: l else y :: insert_by_key x l'
  end.
Definition sort_by_key (l : list A) : list A := foldr insert_by_key [] l.

Lemma insert_by_key_perm x l : insert_by_key x l ≡ₚ x :: l.
Proof.
  induction l as [|y l IH]; simpl; [done|]. destruct (key x <=? key y); [done|].
  rewrite IH. constructor.
Qed.
Lemma sort_by_key_perm l : sort_by_key l ≡ₚ l.
Proof. induction l as [|x l IH]; simpl; [done|]. by rewrite insert_by_key_perm, IH. Qed.

Lemma insert_by_key_sorted x l :
  StronglySorted (λ a b, key a ≤ key b) l → StronglySorted (λ a b, key a ≤ key b) (insert_by_key x l).
Proof.
  induction 1 as [|y l Hs IH Hall]; simpl; [by repeat constructor|].
  destruct (Z.leb_spec (key x) (key y)).
  - constructor; [by constructor|]. constructor; [done|]. eapply Forall_impl; [done|].
    intros z Hz. simpl in *. lia.
  - constructor; [done|]. rewrite insert_by_key_perm. constructor; [lia|done].
Qed.
Lemma sort_by_key_sorted l : StronglySorted (λ a b, key a ≤ key b) (sort_by_key l).
Proof. induction l; simpl; [constructor|]. by apply insert_by_key_sorted. Qed.
End sort_by_key.

(** ** Proposer duties *)

Record DutiesUpdate := mkDutiesUpdate {
  dt_duties : list ProposerDuty;
  dt_dependent_root : option B256;
  dt_has_next_epoch : bool
}.

(** A request to a beacon node, by what it asks. *)
Inductive Request :=
| GetDuties (client : nat) (epoch : u64)
| GetBlock (client : nat) (root : B256)
| GetValidators (client : nat)
| GetSyncing (client : nat)
| PostBuilders (client : nat)
| PostInclusionList
| PostPrimevBuilders
| PostPrimevValidators (keys : list Pubkey).

Inductive Poll (A : Type) := PollPending | PollReady (a : A).
#[global] Arguments PollPending {A}.
#[global] Arguments PollReady {A} a.

(** [next] is the request for the next epoch, by its node and epoch. *)
Inductive DutiesFetchState :=
| FetchCurrent (next : nat * u64)
| FetchNext (current : list ProposerDuty) (dependent_root : option B256)
| FetchDone.

(** What a poll of the duties fetch meets: the answer for the current epoch,
    its duties and dependent root, whether the next request can be sent, and
    the answer for the next epoch. An error is [None]. *)
Record DutiesPoll := mkDutiesPoll {
  dp_current : Poll (option (list ProposerDuty * option B256));
  dp_send : bool;
  dp_next : Poll (option (list ProposerDuty))
}.

(** The second turn of the loop in [DutiesFetchState::poll]. *)
Definition poll_next (i : DutiesPoll) (current : list ProposerDuty) (root : option B256)
    : Poll (option DutiesUpdate) * DutiesFetchState :=
  match dp_next i with
  | PollPending => (PollPending, FetchNext current root)
  | PollReady None => (PollReady (Some (mkDutiesUpdate current root false)), FetchDone)
  | PollReady (Some next) =>
      (PollReady (Some (mkDutiesUpdate (current ++ next) root true)), FetchDone)
  end.

(** [DutiesFetchState::poll], with the request it sends; [None] is the panic. *)
Definition duties_poll (i : DutiesPoll) (s : DutiesFetchState)
    : option (Poll (option DutiesUpdate) * DutiesFetchState * list Request) :=
  match s with
  | FetchCurrent next =>
      match dp_current i with
      | PollPending => Some (PollPending, s, [])
      | PollReady None => Some (PollReady None, FetchDone, [])
      | PollReady (Some (duties, root)) =>
          if dp_send i
          then Some (poll_next i duties root, [GetDuties next.1 next.2])
          else Some (PollReady (Some (mkDutiesUpdate duties root false)), FetchDone, [])
      end
  | FetchNext current root => Some (poll_next i current root, [])
  | FetchDone => None
  end.

Definition merge_partial_duties (update : DutiesUpdate) (known : list ProposerDuty)
    (first_uncovered_slot : u64) : list ProposerDuty :=
  if dt_has_next_epoch update then dt_duties update
  else
    let duties := dt_duties update in
    let covered : gset u64 := list_to_set (du_slot <$> duties) in
    sort_by_key du_slot (duties ++ List.filter (λ d,
      (first_uncovered_slot <=? du_slot d) && negb (bool_decide (du_slot d ∈ covered))) known).

(** [RequestedRegistrations]. *)
Record RequestedRegistrations := mkRequestedRegistrations {
  rr_epoch : u64;
  rr_keys : gset Pubkey
}.
Definition requested_default : RequestedRegistrations := mkRequestedRegistrations 0 ∅.

Fixpoint insert_new (keys : list Pubkey) (seen : gset Pubkey) : list Pubkey * gset Pubkey :=
  match keys with
  | [] => ([], seen)
  | key :: keys' =>
      let '(rest, seen') := insert_new keys' ({[key]} ∪ seen) in
      (if bool_decide (key ∈ seen) then rest else key :: rest, seen')
  end.

Definition take_new (epoch : u64) (keys : list Pubkey) (r : RequestedRegistrations)
    : list Pubkey * RequestedRegistrations :=
  let seen := if epoch =? rr_epoch r then rr_keys r else ∅ in
  let '(new, seen') := insert_new keys seen in
  (new, mkRequestedRegistrations epoch seen').

(** What the housekeeper asks of the database thread. *)
Inductive HousekeeperDb :=
| DbFetchRegistrations (keys : list Pubkey)
| DbSetProposerDuties (duties : list BuilderGetValidatorsResponseEntry)
| DbStoreBuildersInfo (configs : list BuilderConfig)
| DbSaveInclusionList (il : InclusionListWithMetadata) (slot : u64) (parent_hash : B256)
    (proposer : Pubkey)
| DbSetKnownValidators (validators : list Pubkey).

Definition registration_default : SignedValidatorRegistration :=
  mkSignedValidatorRegistration (mkValidatorRegistrationData 0 0 0 0) 0.

Definition local_dev_registration_info (duty : ProposerDuty) : ValidatorRegistrationInfo :=
  mkValidatorRegistrationInfo
    (mkSignedValidatorRegistration
       (mkValidatorRegistrationData 0 60000000 0 (du_pubkey duty)) 0)
    preferences_default_values.

Section duties.
Context `{RE : RelayEnv} `{BP : BlsPoints}.

Definition build_formatted_duties (proposer_duties : list ProposerDuty)
    (registrations : gmap Pubkey SignedValidatorRegistrationEntry)
    : list BuilderGetValidatorsResponseEntry :=
  omap (λ duty,
    entry ← match registrations !! du_pubkey duty with
            | Some reg => Some (re_registration_info reg)
            | None => if is_local_dev then Some (local_dev_registration_info duty) else None
            end;
    Some (mkDutyEntry (du_slot duty) (du_validator_index duty) entry)) proposer_duties.

Definition by_public_key (l : list SignedValidatorRegistrationEntry)
    : gmap Pubkey SignedValidatorRegistrationEntry :=
  foldl (λ m e, <[ri_pubkey (re_registration_info e) := e]> m) ∅ l.

Definition process_duties (proposer_duties : list ProposerDuty) (epoch : u64)
    (cache : LocalCache) (requested : RequestedRegistrations)
    : LocalCache * RequestedRegistrations * list HousekeeperDb :=
  let pubkeys := du_pubkey <$> proposer_duties in
  let registrations := by_public_key (get_validator_registrations_for_pub_keys cache pubkeys) in
  let '(missing, requested') := take_new epoch
    (List.filter (λ key, negb (bool_decide (is_Some (registrations !! key)))) pubkeys) requested in
  let formatted := build_formatted_duties proposer_duties registrations in
  (update_proposer_duties formatted cache, requested',
   (if bool_decide (missing = []) then [] else [DbFetchRegistrations missing]) ++
   [DbSetProposerDuties formatted]).
End duties.

(** ** Gossiped preferences *)

Record ProposerPreferences := mkProposerPreferences {
  pf_dependent_root : B256;
  pf_proposal_slot : u64;
  pf_validator_index : u64;
  pf_fee_recipient : Address;
  pf_target_gas_limit : u64
}.
Record SignedProposerPreferences := mkSignedProposerPreferences {
  sp_message : ProposerPreferences;
  sp_signature : Z
}.
Record Gossiped := mkGossiped {
  go_signed : SignedProposerPreferences;
  go_verified : option bool
}.

(** [ProposerPreferencesStore]. *)
Abbreviation PreferencesStore := (gmap u64 Gossiped) (only parsing).

(** [message.signing_root(chain_info.domain_at(ProposerPreferences, slot))]. *)
Class PreferencesRoot := preferences_signing_root : ProposerPreferences → B256.

Definition prefs_process (head : u64) (signed : SignedProposerPreferences)
    (store : PreferencesStore) : PreferencesStore :=
  let slot := pf_proposal_slot (sp_message signed) in
  if slot <=? head then store else <[slot := mkGossiped signed None]> store.

Definition prefs_get (store : PreferencesStore) (slot : u64) : option ProposerPreferences :=
  (λ g, sp_message (go_signed g)) <$> store !! slot.

Definition prefs_on_new_slot (bid_slot : u64) (store : PreferencesStore) : PreferencesStore :=
  filter (λ e, bid_slot ≤ e.1) store.

Section preferences.
Context `{HO : HashOrder} `{BP : BlsPoints, PR : !BlsPairing, FR : PreferencesRoot}.

Definition preferences_verify (signed : SignedProposerPreferences) (pubkey : Pubkey) : bool :=
  match bls_verify pubkey (sp_signature signed) (preferences_signing_root (sp_message signed)) with
  | Ok _ => true
  | Err _ => false
  end.

Definition for_duty (duty : ProposerDuty) (store : PreferencesStore)
    : option ProposerPreferences * PreferencesStore :=
  match store !! du_slot duty with
  | None => (None, store)
  | Some gossiped =>
      let prefs := sp_message (go_signed gossiped) in
      if negb (pf_validator_index prefs =? du_validator_index duty) ||
         negb (pf_proposal_slot prefs =? du_slot duty)
      then (None, store)
      else
        let verified := match go_verified gossiped with
          | Some v => v
          | None => preferences_verify (go_signed gossiped) (du_pubkey duty)
          end in
        (if verified then Some prefs else None,
         <[du_slot duty := mkGossiped (go_signed gossiped) (Some verified)]> store)
  end.

Definition synthesize_registration (duty : ProposerDuty) (prefs : ProposerPreferences)
    (defaults : ValidatorPreferences) : BuilderGetValidatorsResponseEntry :=
  mkDutyEntry (du_slot duty) (du_validator_index duty)
    (mkValidatorRegistrationInfo
       (mkSignedValidatorRegistration
          (mkValidatorRegistrationData (pf_fee_recipient prefs) (pf_target_gas_limit prefs) 0
             (du_pubkey duty)) 0)
       defaults).

Fixpoint synthesize_duty_feed (beacon_duties : list ProposerDuty) (from_slot : u64)
    (defaults : ValidatorPreferences) (store : PreferencesStore)
    : list BuilderGetValidatorsResponseEntry * PreferencesStore :=
  match beacon_duties with
  | [] => ([], store)
  | duty :: rest =>
      if from_slot <=? du_slot duty then
        let '(prefs, store) := for_duty duty store in
        let '(entries, store) := synthesize_duty_feed rest from_slot defaults store in
        (match prefs with
         | Some p => synthesize_registration duty p defaults :: entries
         | None => entries
         end, store)
      else synthesize_duty_feed rest from_slot defaults store
  end.

(** A default signature is all zero bytes. *)
Definition is_registered (entry : BuilderGetValidatorsResponseEntry) : bool :=
  negb (svr_signature (ri_registration (de_entry entry)) =? 0).

Definition merge_duty_feed (existing synthesized : list BuilderGetValidatorsResponseEntry)
    : list BuilderGetValidatorsResponseEntry :=
  let refreshed : gmap u64 BuilderGetValidatorsResponseEntry :=
    foldl (λ m e, <[de_slot e := e]> m) ∅ synthesized in
  let feed := (λ entry,
    match refreshed !! de_slot entry with
    | Some fresh => if negb (is_registered entry) then fresh else entry
    | None => entry
    end) <$> existing in
  let known : gset u64 := list_to_set (de_slot <$> feed) in
  sort_by_key de_slot
    (feed ++ List.filter (λ entry, negb (bool_decide (de_slot entry ∈ known)))
               (hash_values refreshed)).
End preferences.

(** ** Primev *)

Definition PRIMEV_BUILDER_ID : string := "PrimevBuilder".

Record OptInStatus := mkOptInStatus {
  oi_vanilla : bool;
  oi_avs : bool;
  oi_middleware : bool
}.

Definition extract_opted_in (statuses : list OptInStatus) (duties : list ProposerDuty)
    : list Pubkey :=
  omap (λ '(status, duty),
    if oi_vanilla status || oi_avs status || oi_middleware status
    then Some (du_pubkey duty) else None) (zip statuses duties).

Definition has_id (id : string) (ids : list string) : bool := existsb (String.eqb id) ids.

Section primev.
Context `{BP : BlsPoints}.

Definition primev_builder_config (local_cache : LocalCache) (builder_pubkey : Pubkey)
    : option BuilderConfig :=
  match lc_builder_info local_cache !! builder_pubkey with
  | Some info =>
      if bool_decide (bf_builder_id info = Some PRIMEV_BUILDER_ID) ||
         from_option (has_id PRIMEV_BUILDER_ID) false (bf_builder_ids info)
      then None
      else
        let builder_ids := match bf_builder_ids info with
          | Some ids => if has_id PRIMEV_BUILDER_ID ids then ids else ids ++ [PRIMEV_BUILDER_ID]
          | None => [PRIMEV_BUILDER_ID]
          end in
        Some (mkBuilderConfig builder_pubkey
          (builder_info_default
             <| bf_collateral := bf_collateral info |>
             <| bf_is_optimistic := bf_is_optimistic info |>
             <| bf_is_optimistic_for_regional_filtering :=
                  bf_is_optimistic_for_regional_filtering info |>
             <| bf_builder_id := bf_builder_id info |>
             <| bf_builder_ids := Some builder_ids |>))
  | None =>
      Some (mkBuilderConfig builder_pubkey
        (builder_info_default
           <| bf_builder_id := Some PRIMEV_BUILDER_ID |>
           <| bf_builder_ids := Some [PRIMEV_BUILDER_ID] |>))
  end.

Definition build_primev_builder_configs (primev_builders : list Pubkey) (local_cache : LocalCache)
    : list BuilderConfig := omap (primev_builder_config local_cache) primev_builders.

(** The duties as [send_slot_event] publishes them. *)
Definition trust_primev (local_cache : LocalCache) (duty : BuilderGetValidatorsResponseEntry)
    : BuilderGetValidatorsResponseEntry :=
  let info := de_entry duty in
  if is_primev_proposer local_cache (ri_pubkey info) then
    let prefs := ri_preferences info in
    let tb := default [] (vp_trusted_builders prefs) in
    let tb := if has_id PRIMEV_BUILDER_ID tb then tb else tb ++ [PRIMEV_BUILDER_ID] in
    mkDutyEntry (de_slot duty) (de_validator_index duty)
      (mkValidatorRegistrationInfo (ri_registration info)
         (mkValidatorPreferences (vp_filtering prefs) (Some tb) (vp_header_delay prefs)
            (vp_delay_ms prefs) (vp_disable_inclusion_lists prefs) (vp_disable_optimistic prefs)
            (vp_api_key prefs)))
  else duty.
End primev.

(** ** Fetching the inclusion list *)

Record IlFetchState := mkIlFetchState {
  if_deadline : Z;
  if_retry_at : option Z
}.

(** What a poll meets: three readings of the clock, whether a retry can be
    sent, and the answer, where an error is [None]. *)
Record IlPoll := mkIlPoll {
  ip_now_retry : Z;
  ip_send : bool;
  ip_now_deadline : Z;
  ip_answer : Poll (option (list Bytes));
  ip_now_failed : Z
}.

Section inclusion_list.
Context `{ES : EthSpec}.

Definition il_wait (i : IlPoll) (s : IlFetchState) : Poll (option InclusionList) * IlFetchState :=
  if if_deadline s <=? ip_now_deadline i then (PollReady None, s)
  else
    match ip_answer i with
    | PollPending => (PollPending, s)
    | PollReady (Some txs) =>
        (PollReady (Some (mkInclusionList (take (Z.to_nat max_transactions_per_payload) txs))), s)
    | PollReady None =>
        (PollPending, mkIlFetchState (if_deadline s) (Some (ip_now_failed i + IL_RETRY_INTERVAL)))
    end.

(** [IlFetchState::poll], with the request it sends. *)
Definition il_poll (i : IlPoll) (s : IlFetchState)
    : Poll (option InclusionList) * IlFetchState * list Request :=
  match if_retry_at s with
  | Some retry_at =>
      if ip_now_retry i <? retry_at then (PollPending, s, [])
      else if ip_send i
      then (il_wait i (mkIlFetchState (if_deadline s) None), [PostInclusionList])
      else (PollPending,
            mkIlFetchState (if_deadline s) (Some (ip_now_failed i + IL_RETRY_INTERVAL)), [])
  | None => (il_wait i s, [])
  end.
End inclusion_list.

(** ** Slot information for the API

    [common/src/slot_info.rs]. The duties are kept as served, before they are
    written as JSON. *)
Record CurrentSlotInfo := mkCurrentSlotInfo {
  ci_slot : u64;
  ci_next_duty : option BuilderGetValidatorsResponseEntry;
  ci_proposer_duties : option (list BuilderGetValidatorsResponseEntry);
  ci_payload_attributes : gmap (B256 * u64) PayloadAttributesUpdate
}.
#[export] Instance eta_CurrentSlotInfo : Eta CurrentSlotInfo := λ r,
  mkCurrentSlotInfo (ci_slot r) (ci_next_duty r) (ci_proposer_duties r) (ci_payload_attributes r).
Definition current_slot_info_new : CurrentSlotInfo := mkCurrentSlotInfo 0 None None ∅.

Record SlotDuties := mkSlotDuties {
  sd_slot : u64;
  sd_next_duty : option BuilderGetValidatorsResponseEntry;
  sd_new_duties : option (list BuilderGetValidatorsResponseEntry)
}.

Definition handle_new_slot (update : SlotDuties) (i : CurrentSlotInfo) : CurrentSlotInfo :=
  let i := i <| ci_slot := sd_slot update |> <| ci_next_duty := sd_next_duty update |> in
  match sd_new_duties update with
  | Some new_duties => i <| ci_proposer_duties := Some new_duties |>
  | None => i
  end.

Definition handle_new_payload_attributes (i : CurrentSlotInfo) (a : PayloadAttributesUpdate)
    : CurrentSlotInfo :=
  if pu_slot a <=? ci_slot i then i
  else
    let key := (pu_parent_hash a, pu_slot a) in
    if bool_decide (is_Some (ci_payload_attributes i !! key)) then i
    else i <| ci_payload_attributes ::=
      λ m, <[key := a]> (filter (λ e, ci_slot i ≤ pu_slot e.2) m) |>.
