(* ===== verification/Housekeeper.v ===== *)
(** * The housekeeper tile

    [relay/src/housekeeper/tile.rs]: the loop that follows the beacon chain and
    tells the auctioneer about slots, payload attributes, inclusion lists, head
    blocks and attestation deadlines. One call of [loop_body] is a step whose
    input [Turn] holds what the clocks, event streams, pending responses and
    channels give during the call. Statistics and metrics are left out. *)

From S2P Require Import Prelude Types Submission SlotStores InclusionLists LocalCache Network Payload PeerConnection Context Auctioneer Duties.

Definition KNOWN_VALIDATORS_REFRESH_INTERVAL : Z := 10 * 60 * SECOND.
Definition SYNC_STATUS_CHECK_INTERVAL : Z := 4 * SECOND.
Definition SYNC_STATUS_REQUEST_TIMEOUT : Z := 2 * SECOND.
Definition BUILDER_INDEX_RETRY_INTERVAL : Z := SECOND.
Definition BUILDER_INDEX_MISSING_RETRY_INTERVAL : Z := 60 * SECOND.

Record SlotUpdate := mkSlotUpdate {
  su_bid_slot : u64;
  su_registration_data : option BuilderGetValidatorsResponseEntry;
  su_payload_attributes : list PayloadAttributesUpdate;
  su_il : option InclusionListWithMetadata
}.

Inductive BuilderStatus := BuilderPending | BuilderActive | BuilderExited.
#[export] Instance BuilderStatus_eq_dec : EqDecision BuilderStatus.
Proof. solve_decision. Defined.
Record BuilderSummary := mkBuilderSummary { bs_index : u64; bs_status : BuilderStatus }.

(** What the tile sends: requests to nodes and the database, slot updates on
    the spine, events to the auctioneer and lists to the relay network. *)
Inductive HkOutput :=
| HkRequest (r : Request)
| HkDb (d : HousekeeperDb)
| HkSlotUpdate (u : SlotUpdate)
| HkEvent (e : Event)
| HkShare (e : NetworkEvent).

(** The configuration: the number of beacon nodes, and which services are on. *)
Class HousekeeperConfig := {
  beacon_clients : nat;
  primev_enabled : bool;
  il_enabled : bool;
  network_enabled : bool;
  is_registration_instance : bool;
  configured_preferences : ValidatorPreferences
}.

(** A request in flight is kept where the tile reads something of it back: its
    index and start, the root of its block, the duties it asks about.
    [hk_best_index] is the [best_index] of the [MultiBeaconClient] and
    [hk_builder_index] that of the [GloasBuilderIdentity]. *)
Record Housekeeper `{BP : BlsPoints} := mkHousekeeper {
  hk_chain_head : ChainHead;
  hk_proposer_prefs : PreferencesStore;
  hk_local_cache : LocalCache;
  hk_slot_info : CurrentSlotInfo;
  hk_known : KnownAttributes;
  hk_duties : list ProposerDuty;
  hk_requested : RequestedRegistrations;
  hk_last_dependent_root : option B256;
  hk_duties_fetch_attempt : nat;
  hk_duties_fetch : option DutiesFetchState;
  hk_primev_builders_fetch : bool;
  hk_primev_validators_fetch : option (list ProposerDuty);
  hk_il_fetch : option IlFetchState;
  hk_pending_il : option InclusionListWithMetadata;
  hk_il_consensus_rx : option Z;
  hk_known_validators_fetch : bool;
  hk_known_validators_next_refresh : option Z;
  hk_sync_check_pending : list (nat * Z);
  hk_sync_check_next : Z;
  hk_sync_best : option (nat * u64);
  hk_best_index : nat;
  hk_builder_index : option u64;
  hk_builder_index_fetch : bool;
  hk_builder_index_next : Z;
  hk_builder_status : option BuilderStatus;
  hk_head_block_fetches : list B256;
  hk_head : u64 * B256;
  hk_deadline_slot : u64
}.
#[export] Instance eta_Housekeeper `{BP : BlsPoints} : Eta Housekeeper := λ r,
  mkHousekeeper BP (hk_chain_head r) (hk_proposer_prefs r) (hk_local_cache r) (hk_slot_info r)
    (hk_known r) (hk_duties r) (hk_requested r) (hk_last_dependent_root r)
    (hk_duties_fetch_attempt r) (hk_duties_fetch r) (hk_primev_builders_fetch r)
    (hk_primev_validators_fetch r) (hk_il_fetch r) (hk_pending_il r) (hk_il_consensus_rx r)
    (hk_known_validators_fetch r) (hk_known_validators_next_refresh r) (hk_sync_check_pending r)
    (hk_sync_check_next r) (hk_sync_best r) (hk_best_index r) (hk_builder_index r)
    (hk_builder_index_fetch r) (hk_builder_index_next r) (hk_builder_status r)
    (hk_head_block_fetches r) (hk_head r) (hk_deadline_slot r).

(** ** Inputs of a turn *)

(** What [on_new_slot] meets: whether the duties and inclusion-list requests
    can be sent, [Instant::now] and the time into the slot. *)
Record Fetches := mkFetches {
  fe_duties : bool;
  fe_il : bool;
  fe_now : Z;
  fe_into_slot : option Z
}.

(** One head stream: an event, [None] when it does not parse, the clocks and
    whether the block can be requested. *)
Record HeadPoll := mkHeadPoll {
  hp_event : Poll (option HeadEventData);
  hp_now : Now;
  hp_send : bool
}.

(** The fields of a [GloasBlock] that [SeenBlock::new] reads. *)
Record GloasBlockView := mkGloasBlockView {
  gv_slot : u64;
  gv_parent_root : B256;
  gv_bid_builder_index : u64;
  gv_bid_block_hash : B256
}.

Inductive TryRecv (A : Type) := RecvEmpty | RecvClosed | RecvValue (a : A).
#[global] Arguments RecvEmpty {A}.
#[global] Arguments RecvClosed {A}.
#[global] Arguments RecvValue {A} a.

(** [Instant::now] at the steps of the loop that keep timers; readings of one
    step are taken to be equal. *)
Inductive Reading := AtValidators | AtSyncPoll | AtSyncStart | AtBuilderAnswer | AtBuilderStart.

Record Turn := mkTurn {
  tn_now : Now;
  tn_instant : Reading → Z;
  tn_clock_fetches : Fetches;
  tn_head : nat → HeadPoll;
  tn_sse_fetches : Fetches;
  tn_prefs : nat → Poll (option SignedProposerPreferences);
  tn_attributes : nat → Poll (option PayloadAttributesEvent);
  tn_duties : DutiesPoll;
  tn_duties_retry : bool;
  tn_primev_sent : bool * bool;
  tn_primev_builders : Poll (list Pubkey);
  tn_primev_validators : Poll (option (list OptInStatus));
  tn_il : IlPoll;
  tn_network_full : bool;
  tn_result_tx : Z;
  tn_validators : Poll (option (list Pubkey));
  tn_validators_send : bool;
  tn_sync : nat → Poll (option u64);
  tn_sync_send : nat → bool;
  tn_blocks : nat → Poll (option GloasBlockView);
  tn_auctioneer_full : nat → bool;
  tn_deadline_now : Now;
  tn_deadline_full : bool;
  tn_builder : Poll (option (option BuilderSummary));
  tn_builder_send : bool;
  tn_consensus : TryRecv (option InclusionList);
  tn_ready_now : Now
}.

Section housekeeper.
Context `{HO : HashOrder} `{ES : EthSpec} `{TD : TxDecoder} `{TH : TreeHash} `{RE : RelayEnv}
  `{BP : BlsPoints, PR : !BlsPairing, FR : PreferencesRoot} `{CI : ChainInfo}
  `{HC : HousekeeperConfig}.

Abbreviation Hk := (Comp Housekeeper HkOutput) (only parsing).

Definition on_head (f : ChainHead → ChainHead) : Hk unit :=
  modify (λ h, h <| hk_chain_head ::= f |>).

(** [MultiBeaconClient::beacon_clients_by_last_response], by index; slicing
    past the end panics. *)
Definition clients_by_last_response : Hk (list nat) :=
  start ← gets hk_best_index;
  if (start <=? beacon_clients)%nat
  then mret (seq start (beacon_clients - start) ++ seq 0 start)
  else panic.

Definition head_epoch (h : Housekeeper) : u64 := epoch_of (ch_slot (hk_chain_head h)).

(** [DutiesFetchState::new]; [send] is whether the URLs and the request are good. *)
Definition fetch_duties (send : bool) : Hk unit :=
  clients ← clients_by_last_response;
  h ← get;
  match clients !! hk_duties_fetch_attempt h with
  | Some c =>
      if send then
        emit [HkRequest (GetDuties c (head_epoch h))];;
        modify (λ h', h' <| hk_duties_fetch := Some (FetchCurrent (c, head_epoch h + 1)) |>)
      else modify (λ h', h' <| hk_duties_fetch := None |>)
  | None => modify (λ h', h' <| hk_duties_fetch := None |>)
  end.

Definition first_uncovered_slot (h : Housekeeper) : u64 :=
  epoch_start_slot (Z.min u64_max (head_epoch h + 1)).

Definition refresh_gloas_duty_feed : Hk unit :=
  h ← get;
  let from_slot := succ_slot (ch_slot (hk_chain_head h)) in
  if negb (bool_decide (fork_at_slot from_slot = Gloas)) then mret tt
  else
    let '(synthesized, prefs) := synthesize_duty_feed (hk_duties h) from_slot
                                   configured_preferences (hk_proposer_prefs h) in
    modify (λ h, h <| hk_proposer_prefs := prefs |>);;
    if bool_decide (synthesized = []) then mret tt
    else
      let feed := merge_duty_feed (lc_proposer_duties (hk_local_cache h)) synthesized in
      modify (λ h, h <| hk_local_cache ::= update_proposer_duties feed |>).

Definition maybe_fetch_primev (sent : bool * bool) : Hk unit :=
  if primev_enabled then
    duties ← gets hk_duties;
    (if sent.1 then emit [HkRequest PostPrimevBuilders] else mret tt);;
    modify (λ h, h <| hk_primev_builders_fetch := sent.1 |>);;
    if negb (bool_decide (duties = [])) && sent.2 then
      emit [HkRequest (PostPrimevValidators (du_pubkey <$> duties))];;
      modify (λ h, h <| hk_primev_validators_fetch := Some duties |>)
    else modify (λ h, h <| hk_primev_validators_fetch := None |>)
  else mret tt.

Definition maybe_fetch_il (f : Fetches) : Hk unit :=
  modify (λ h, h <| hk_pending_il := None |> <| hk_il_consensus_rx := None |>);;
  if il_enabled then
    let timeout := sat_sub IL_CUTOFF (default 0 (fe_into_slot f)) in
    if fe_il f then
      emit [HkRequest PostInclusionList];;
      modify (λ h, h <| hk_il_fetch := Some (mkIlFetchState (fe_now f + timeout) None) |>)
    else modify (λ h, h <| hk_il_fetch := None |>)
  else on_head mark_il_done.

Definition hk_on_new_slot (f : Fetches) : Hk unit :=
  slot ← gets (λ h, ch_slot (hk_chain_head h));
  let bid_slot := succ_slot slot in
  modify (λ h, h <| hk_duties_fetch_attempt := 0%nat |>);;
  modify (λ h, h <| hk_proposer_prefs ::= prefs_on_new_slot bid_slot |>);;
  refresh_gloas_duty_feed;;
  fetch_duties (fe_duties f);;
  maybe_fetch_il f;;
  h ← get;
  (if existsb (λ d, du_slot d =? bid_slot) (hk_duties h)
   then on_head mark_duties_done else mret tt);;
  if existsb (λ e, e.1.2 =? bid_slot) (hash_iter (hk_known h))
  then on_head mark_payload_attrs_done else mret tt.

(** ** The steps of [loop_body] *)

Definition check_clock (t : Turn) : Hk unit :=
  h ← get;
  let '(is_new, head) := is_new_slot (tn_now t) (hk_chain_head h) in
  modify (λ h, h <| hk_chain_head := head |>);;
  if is_new then hk_on_new_slot (tn_clock_fetches t) else mret tt.

(** One event of the head stream of node [idx]; whether it starts a new slot. *)
Definition handle_head_event (idx : nat) (i : HeadPoll) (data : HeadEventData) : Hk bool :=
  h ← get;
  (if negb (hv_block data =? (hk_head h).2) && (hv_slot data =? now_slot (hp_now i)) &&
      bool_decide (fork_at_slot (hv_slot data) = Gloas) && hp_send i
   then emit [HkRequest (GetBlock idx (hv_block data))];;
        modify (λ h, h <| hk_head_block_fetches ::= λ l, l ++ [hv_block data] |>)
   else mret tt);;
  (if (hk_head h).1 <=? hv_slot data
   then modify (λ h, h <| hk_head := (hv_slot data, hv_block data) |>) else mret tt);;
  let '(new, head) := chain_head_update (hp_now i) data (hk_chain_head h) in
  modify (λ h, h <| hk_chain_head := head |>);;
  mret new.

Fixpoint poll_head_streams (polls : nat → HeadPoll) (streams : list nat) : Hk bool :=
  match streams with
  | [] => mret false
  | idx :: streams' =>
      match hp_event (polls idx) with
      | PollReady (Some data) =>
          new ← handle_head_event idx (polls idx) data;
          if new : bool then mret true else poll_head_streams polls streams'
      | _ => poll_head_streams polls streams'
      end
  end.

Definition poll_head (t : Turn) : Hk unit :=
  new_slot_from_sse ← poll_head_streams (tn_head t) (seq 0 beacon_clients);
  if new_slot_from_sse : bool then hk_on_new_slot (tn_sse_fetches t) else mret tt.

Fixpoint poll_prefs_streams (polls : nat → Poll (option SignedProposerPreferences))
    (streams : list nat) : Hk unit :=
  match streams with
  | [] => mret tt
  | idx :: streams' =>
      (match polls idx with
       | PollReady (Some data) =>
           modify (λ h, h <| hk_proposer_prefs ::=
                             prefs_process (ch_slot (hk_chain_head h)) data |>)
       | _ => mret tt
       end);;
      poll_prefs_streams polls streams'
  end.

Fixpoint poll_attributes_streams (polls : nat → Poll (option PayloadAttributesEvent))
    (streams : list nat) : Hk unit :=
  match streams with
  | [] => mret tt
  | idx :: streams' =>
      (match polls idx with
       | PollReady (Some data) =>
           h ← get;
           let '(head, known) := process_payload_attributes data (hk_chain_head h, hk_known h) in
           modify (λ h, h <| hk_chain_head := head |> <| hk_known := known |>)
       | _ => mret tt
       end);;
      poll_attributes_streams polls streams'
  end.

(** The duties arrived. *)
Definition handle_duties (t : Turn) (update : DutiesUpdate) : Hk unit :=
  h ← get;
  let root_changed :=
    bool_decide (is_Some (dt_dependent_root update)) &&
    bool_decide (is_Some (hk_last_dependent_root h)) &&
    negb (bool_decide (dt_dependent_root update = hk_last_dependent_root h)) in
  (if bool_decide (is_Some (dt_dependent_root update))
   then modify (λ h, h <| hk_last_dependent_root := dt_dependent_root update |>) else mret tt);;
  let duties := merge_partial_duties update (hk_duties h) (first_uncovered_slot h) in
  let '(cache, requested, db) :=
    process_duties duties (head_epoch h) (hk_local_cache h) (hk_requested h) in
  emit (HkDb <$> db);;
  modify (λ h, h <| hk_local_cache := cache |> <| hk_requested := requested |>);;
  modify (λ h, h <| hk_duties := duties |>);;
  modify (λ h, h <| hk_local_cache ::= update_proposer_schedule duties |>);;
  refresh_gloas_duty_feed;;
  on_head mark_duties_done;;
  (if root_changed then on_head mark_duties_changed else mret tt);;
  maybe_fetch_primev (tn_primev_sent t).

Definition poll_duties (t : Turn) : Hk unit :=
  fetch ← gets hk_duties_fetch;
  match fetch with
  | None => mret tt
  | Some f =>
      match duties_poll (tn_duties t) f with
      | None => panic
      | Some (res, f', requests) =>
          emit (HkRequest <$> requests);;
          match res with
          | PollPending => modify (λ h, h <| hk_duties_fetch := Some f' |>)
          | PollReady result =>
              modify (λ h, h <| hk_duties_fetch := None |>);;
              match result with
              | Some update =>
                  if bool_decide (dt_duties update = []) then mret tt else handle_duties t update
              | None =>
                  modify (λ h, h <| hk_duties_fetch_attempt ::= S |>);;
                  attempt ← gets hk_duties_fetch_attempt;
                  if (attempt <? beacon_clients)%nat then fetch_duties (tn_duties_retry t)
                  else mret tt
              end
          end
      end
  end.

Definition poll_primev_builders (t : Turn) : Hk unit :=
  h ← get;
  if hk_primev_builders_fetch h then
    match tn_primev_builders t with
    | PollPending => mret tt
    | PollReady builders =>
        modify (λ h, h <| hk_primev_builders_fetch := false |>);;
        if bool_decide (builders = []) then mret tt
        else
          let configs := build_primev_builder_configs builders (hk_local_cache h) in
          modify (λ h, h <| hk_local_cache ::= update_builder_infos configs false |>);;
          emit [HkDb (DbStoreBuildersInfo configs)]
    end
  else mret tt.

(** An error, or a result that does not decode, opts nobody in. *)
Definition poll_primev_validators (t : Turn) : Hk unit :=
  fetch ← gets hk_primev_validators_fetch;
  match fetch, tn_primev_validators t with
  | Some duties, PollReady statuses =>
      modify (λ h, h <| hk_primev_validators_fetch := None |>);;
      let validators := match statuses with Some s => extract_opted_in s duties | None => [] end in
      if bool_decide (validators = []) then mret tt
      else modify (λ h, h <| hk_local_cache ::= update_primev_proposers validators |>)
  | _, _ => mret tt
  end.

(** The inclusion list arrived. *)
Definition handle_inclusion_list (t : Turn) (il : InclusionList) : Hk unit :=
  h ← get;
  let head := ch_slot (hk_chain_head h) in
  (match with_metadata (il_txs il) with
   | Some il_meta =>
       (match ch_block (hk_chain_head h), find (λ d, du_slot d =? head) (hk_duties h) with
        | Some parent_hash, Some duty =>
            modify (λ h, h <| hk_local_cache ::= update_current_inclusion_list il_meta
                               (mkSlotCoordinate head (du_pubkey duty) parent_hash) |>);;
            emit [HkDb (DbSaveInclusionList il_meta head parent_hash (du_pubkey duty))]
        | _, _ => mret tt
        end);;
       modify (λ h, h <| hk_pending_il := Some il_meta |>)
   | None => mret tt
   end);;
  on_head mark_il_done;;
  match try_share_inclusion_list network_enabled (tn_network_full t) head il (tn_result_tx t) with
  | Some event =>
      emit [HkShare event];;
      modify (λ h, h <| hk_il_consensus_rx := Some (tn_result_tx t) |>)
  | None => modify (λ h, h <| hk_il_consensus_rx := None |>)
  end.

Definition poll_inclusion_list (t : Turn) : Hk unit :=
  fetch ← gets hk_il_fetch;
  match fetch with
  | None => mret tt
  | Some f =>
      let '(res, f', requests) := il_poll (tn_il t) f in
      emit (HkRequest <$> requests);;
      match res with
      | PollPending => modify (λ h, h <| hk_il_fetch := Some f' |>)
      | PollReady il =>
          modify (λ h, h <| hk_il_fetch := None |>);;
          match il with
          | Some il => handle_inclusion_list t il
          | None => on_head mark_il_done
          end
      end
  end.

Definition poll_known_validators (t : Turn) : Hk unit :=
  h ← get;
  (if hk_known_validators_fetch h then
     match tn_validators t with
     | PollPending => mret tt
     | PollReady result =>
         modify (λ h, h <| hk_known_validators_fetch := false |>);;
         match result with
         | Some validators => emit [HkDb (DbSetKnownValidators validators)]
         | None => mret tt
         end
     end
   else mret tt);;
  h ← get;
  match hk_known_validators_next_refresh h with
  | Some next =>
      if negb (hk_known_validators_fetch h) && (next <=? tn_instant t AtValidators) then
        clients ← clients_by_last_response;
        match clients with
        | c :: _ =>
            if tn_validators_send t then
              emit [HkRequest (GetValidators c)];;
              modify (λ h, h <| hk_known_validators_fetch := true |>
                             <| hk_known_validators_next_refresh :=
                                  Some (tn_instant t AtValidators +
                                        KNOWN_VALIDATORS_REFRESH_INTERVAL) |>)
            else mret tt
        | [] => mret tt
        end
      else mret tt
  | None => mret tt
  end.

(** One pending sync request: whether it stays pending, and the best node so far. *)
Definition poll_sync_request (t : Turn) (best : option (nat * u64)) (req : nat * Z)
    : bool * option (nat * u64) :=
  match tn_sync t req.1 with
  | PollPending => (tn_instant t AtSyncPoll - req.2 <? SYNC_STATUS_REQUEST_TIMEOUT, best)
  | PollReady (Some slot) =>
      (false, if from_option (λ b, b.2 <? slot) true best then Some (req.1, slot) else best)
  | PollReady None => (false, best)
  end.

Fixpoint poll_sync_requests (t : Turn) (best : option (nat * u64)) (pending : list (nat * Z))
    : list (nat * Z) * option (nat * u64) :=
  match pending with
  | [] => ([], best)
  | req :: pending' =>
      let '(keep, best) := poll_sync_request t best req in
      let '(rest, best) := poll_sync_requests t best pending' in
      (if keep then req :: rest else rest, best)
  end.

Definition poll_sync_answers (t : Turn) : Hk unit :=
  h ← get;
  if bool_decide (hk_sync_check_pending h = []) then mret tt
  else
    let '(pending, best) := poll_sync_requests t (hk_sync_best h) (hk_sync_check_pending h) in
    modify (λ h, h <| hk_sync_check_pending := pending |> <| hk_sync_best := best |>);;
    if bool_decide (pending = []) then
      modify (λ h, h <| hk_sync_best := None |>);;
      match best with
      | Some (best_idx, _) => modify (λ h, h <| hk_best_index := best_idx |>)
      | None => mret tt
      end
    else mret tt.

Definition start_sync_check (t : Turn) : Hk unit :=
  h ← get;
  if bool_decide (hk_sync_check_pending h = []) &&
     (hk_sync_check_next h <=? tn_instant t AtSyncStart) then
    let sent := List.filter (tn_sync_send t) (seq 0 beacon_clients) in
    emit (HkRequest ∘ GetSyncing <$> sent);;
    modify (λ h, h <| hk_sync_best := None |>
                   <| hk_sync_check_pending := (λ c, (c, tn_instant t AtSyncStart)) <$> sent |>
                   <| hk_sync_check_next := tn_instant t AtSyncStart + SYNC_STATUS_CHECK_INTERVAL |>)
  else mret tt.

Definition seen_block_new (view : GloasBlockView) (block_root : B256) : SeenBlock :=
  mkSeenBlock block_root (gv_parent_root view) (gv_bid_builder_index view) (gv_bid_block_hash view).

(** The head blocks still being fetched, and the events sent for those that
    arrived; a failed or malformed answer is [None]. *)
Fixpoint poll_blocks (t : Turn) (n : nat) (fetches : list B256) : list B256 * list Event :=
  match fetches with
  | [] => ([], [])
  | block_root :: fetches' =>
      let '(rest, events) := poll_blocks t (S n) fetches' in
      match tn_blocks t n with
      | PollPending => (block_root :: rest, events)
      | PollReady (Some view) =>
          (rest, if tn_auctioneer_full t n then events
                 else EGloasBlock (gv_slot view) (seen_block_new view block_root) :: events)
      | PollReady None => (rest, events)
      end
  end.

Definition poll_head_blocks (t : Turn) : Hk unit :=
  fetches ← gets hk_head_block_fetches;
  let '(fetches, events) := poll_blocks t 0 fetches in
  emit (HkEvent <$> events);;
  modify (λ h, h <| hk_head_block_fetches := fetches |>).

Definition send_attestation_deadline (t : Turn) : Hk unit :=
  h ← get;
  let slot := now_slot (tn_deadline_now t) in
  if (hk_deadline_slot h <? slot) && bool_decide (hk_head_block_fetches h = []) &&
     bool_decide (fork_at_slot slot = Gloas) &&
     (gloas_attestation_due slot <=? now_utc (tn_deadline_now t))
  then
    modify (λ h, h <| hk_deadline_slot := slot |>);;
    if tn_deadline_full t then mret tt
    else emit [HkEvent (EAttestationDeadline slot (hk_head h).2)]
  else mret tt.

Definition poll_builder_index (t : Turn) : Hk unit :=
  h ← get;
  (if hk_builder_index_fetch h then
     match tn_builder t with
     | PollPending => mret tt
     | PollReady result =>
         modify (λ h, h <| hk_builder_index_fetch := false |>);;
         match result with
         | Some (Some builder) =>
             modify (λ h, h <| hk_builder_status := Some (bs_status builder) |>
                            <| hk_builder_index :=
                                 if bool_decide (bs_status builder = BuilderActive)
                                 then Some (bs_index builder) else None |>)
         | Some None =>
             modify (λ h, h <| hk_builder_status := None |> <| hk_builder_index := None |>
                            <| hk_builder_index_next := tn_instant t AtBuilderAnswer +
                                 BUILDER_INDEX_MISSING_RETRY_INTERVAL |>)
         | None => mret tt
         end
     end
   else mret tt);;
  h ← get;
  if negb (hk_builder_index_fetch h) &&
     negb (bool_decide (hk_builder_status h = Some BuilderActive)) &&
     (hk_builder_index_next h <=? tn_instant t AtBuilderStart) &&
     bool_decide (fork_at_slot (ch_slot (hk_chain_head h)) = Gloas) then
    clients ← clients_by_last_response;
    match clients with
    | c :: _ =>
        if tn_builder_send t then
          emit [HkRequest (PostBuilders c)];;
          modify (λ h, h <| hk_builder_index_fetch := true |>
                         <| hk_builder_index_next :=
                              tn_instant t AtBuilderStart + BUILDER_INDEX_RETRY_INTERVAL |>)
        else mret tt
    | [] => mret tt
    end
  else mret tt.

Definition poll_consensus (t : Turn) : Hk unit :=
  rx ← gets hk_il_consensus_rx;
  match rx with
  | None => mret tt
  | Some _ =>
      match tn_consensus t with
      | RecvValue (Some il) =>
          (match with_metadata (il_txs il) with
           | Some il_meta => modify (λ h, h <| hk_pending_il := Some il_meta |>)
           | None => mret tt
           end);;
          modify (λ h, h <| hk_il_consensus_rx := None |>)
      | RecvValue None | RecvClosed => modify (λ h, h <| hk_il_consensus_rx := None |>)
      | RecvEmpty => mret tt
      end
  end.

(** The registration for the slot: the feed's, or under Gloas one made of the
    duty and the gossiped preferences. *)
Definition next_duty (h : Housekeeper) (new_duties : list BuilderGetValidatorsResponseEntry)
    (bid_slot : u64) : option BuilderGetValidatorsResponseEntry * PreferencesStore :=
  let prefs := hk_proposer_prefs h in
  match find (λ d, de_slot d =? bid_slot) new_duties with
  | Some duty => (Some duty, prefs)
  | None =>
      if bool_decide (fork_at_slot bid_slot = Gloas) then
        match find (λ d, du_slot d =? bid_slot) (hk_duties h) with
        | Some duty =>
            let '(p, prefs) := for_duty duty prefs in
            ((λ p, synthesize_registration duty p configured_preferences) <$> p, prefs)
        | None => (None, prefs)
        end
      else (None, prefs)
  end.

Definition next_payload_attributes (h : Housekeeper) (bid_slot : u64)
    : list PayloadAttributesUpdate :=
  (List.filter (λ e, e.1.2 =? bid_slot) (hash_iter (hk_known h))).*2.

Definition send_slot_event (il : option InclusionListWithMetadata) : Hk unit :=
  h ← get;
  let slot := ch_slot (hk_chain_head h) in
  let bid_slot := succ_slot slot in
  let new_duties :=
    trust_primev (hk_local_cache h) <$> lc_proposer_duties (hk_local_cache h) in
  let '(duty, prefs) := next_duty h new_duties bid_slot in
  let attributes := next_payload_attributes h bid_slot in
  modify (λ h, h <| hk_proposer_prefs := prefs |>);;
  modify (λ h, h <| hk_slot_info ::= λ i, foldl handle_new_payload_attributes
    (handle_new_slot (mkSlotDuties slot duty (Some new_duties)) i) attributes |>);;
  emit [HkSlotUpdate (mkSlotUpdate bid_slot duty attributes il)];;
  on_head chain_head_sent.

Definition maybe_send_slot_event (t : Turn) : Hk unit :=
  h ← get;
  if is_ready (tn_ready_now t) (hk_chain_head h) then
    modify (λ h, h <| hk_pending_il := None |>);;
    send_slot_event (hk_pending_il h)
  else mret tt.

Definition loop_body (t : Turn) : Hk unit :=
  check_clock t;;
  poll_head t;;
  poll_prefs_streams (tn_prefs t) (seq 0 beacon_clients);;
  poll_attributes_streams (tn_attributes t) (seq 0 beacon_clients);;
  poll_duties t;;
  poll_primev_builders t;;
  poll_primev_validators t;;
  poll_inclusion_list t;;
  poll_known_validators t;;
  poll_sync_answers t;;
  start_sync_check t;;
  poll_head_blocks t;;
  send_attestation_deadline t;;
  poll_builder_index t;;
  poll_consensus t;;
  maybe_send_slot_event t.

(** [HousekeeperTile::new]. *)
Definition housekeeper_new (now : Now) (cache : LocalCache) : Housekeeper := {|
  hk_chain_head := chain_head_new now;
  hk_proposer_prefs := ∅;
  hk_local_cache := cache;
  hk_slot_info := current_slot_info_new;
  hk_known := ∅;
  hk_duties := [];
  hk_requested := requested_default;
  hk_last_dependent_root := None;
  hk_duties_fetch_attempt := 0;
  hk_duties_fetch := None;
  hk_primev_builders_fetch := false;
  hk_primev_validators_fetch := None;
  hk_il_fetch := None;
  hk_pending_il := None;
  hk_il_consensus_rx := None;
  hk_known_validators_fetch := false;
  hk_known_validators_next_refresh :=
    if is_registration_instance then Some (now_instant now) else None;
  hk_sync_check_pending := [];
  hk_sync_check_next := now_instant now;
  hk_sync_best := None;
  hk_best_index := 0;
  hk_builder_index := None;
  hk_builder_index_fetch := false;
  hk_builder_index_next := now_instant now;
  hk_builder_status := None;
  hk_head_block_fetches := [];
  hk_head := (0, 0);
  hk_deadline_slot := 0
|}.
End housekeeper.
