(* ===== verification/MergingTile.v ===== *)
(** * The relay's block merging tile

    [crates/relay/src/block_merging]: the connection to the merging builder,
    the slot, the submissions it forwards, and the merged blocks it takes back.
    Counters and metrics are left out, and so is the memo of transaction hashes,
    which only caches [keccak256]. *)

From S2P Require Import Prelude Types Submission Rlp MergeTrie MergeOrders MergeWire Hydration LocalCache Payload Simulators Housekeeper.

(** ** Blobs *)

Record BlobWithMetadata := mkBlobWithMetadata { bm_commitment : Z; bm_proofs : list Z; bm_blob : Z }.

(** [TxEnvelope::decode] with the blob hashes of the transaction, none for one
    that carries no blobs; [calculate_versioned_hash]; and the lengths of the
    three lists of the execution requests with their limits, and that of the
    withdrawals. *)
Class MergeCodecs := {
  tx_blob_hashes : Bytes → option (list B256);
  calculate_versioned_hash : Z → B256;
  request_lengths : Bytes → Z * Z * Z;
  max_requests : Z * Z * Z;
  max_withdrawals_per_payload : Z
}.

(** A decoded submission with its merging data. *)
Record DecodedSubmission := mkDecodedSubmission {
  dc_data : SubmissionData;
  dc_merging_data : option BlockMergingDataV2
}.

(** ** State *)

Record Conn := mkConn {
  cn_active : bool;
  cn_max_orders_per_slot : u32;
  cn_max_frame_bytes : u32;
  cn_orders_sent : gset B256;
  cn_builder_ahead : bool;
  cn_sent_txs : gset B256
}.
#[export] Instance eta_Conn : Eta Conn := λ r,
  mkConn (cn_active r) (cn_max_orders_per_slot r) (cn_max_frame_bytes r) (cn_orders_sent r)
    (cn_builder_ahead r) (cn_sent_txs r).

Definition conn_default : Conn := mkConn false 0 0 ∅ false ∅.
Definition reset_slot (c : Conn) : Conn :=
  c <| cn_orders_sent := ∅ |> <| cn_sent_txs := ∅ |> <| cn_builder_ahead := false |>.
Definition conn_reset (c : Conn) : Conn := reset_slot (c <| cn_active := false |>).

(** The times of a forwarded block are those of its read and of its forward. *)
Record MergeSlot := mkMergeSlot {
  ms_bid_slot : u64;
  ms_slot_start : option SlotStartV1;
  ms_fee_recipient : option Address;
  ms_apply_blacklist : bool;
  ms_attrs : gmap B256 B256;
  ms_appendable : gset B256;
  ms_forwarded_ns : gmap B256 (u64 * u64);
  ms_merged_seen : gset B256;
  ms_replay_log : list nat;
  ms_order_txs : list OrderTxs;
  ms_tx_builders : gmap B256 (list Pubkey)
}.
#[export] Instance eta_MergeSlot : Eta MergeSlot := λ r,
  mkMergeSlot (ms_bid_slot r) (ms_slot_start r) (ms_fee_recipient r) (ms_apply_blacklist r) (ms_attrs r)
    (ms_appendable r) (ms_forwarded_ns r) (ms_merged_seen r) (ms_replay_log r) (ms_order_txs r)
    (ms_tx_builders r).

Definition merge_slot_new (bid_slot : u64) : MergeSlot :=
  mkMergeSlot bid_slot None None false ∅ ∅ ∅ ∅ [] [] ∅.

(** A response with the fields that only feed the stored record. *)
Record MergeAccepted := mkMergeAccepted {
  ma_response : BlockMergeResponse;
  ma_tx_builders : list (B256 * Pubkey);
  ma_base_read_ns : u64;
  ma_accept_ns : u64
}.

Abbreviation Token := Z (only parsing).

Record MergingTile := mkMergingTile {
  tl_token : option Token;
  tl_conn : Conn;
  tl_slot : MergeSlot;
  tl_hydration_cache : HydrationCache;
  tl_blob_sidecars : gmap B256 BlobWithMetadata;
  tl_ping_nonce : u64;
  tl_merged_blocks : list MergeAccepted;
  tl_to_disconnect : list Token;
  tl_to_register : list Token;
  tl_handshaken : list Token;
  tl_pongs : list (Token * u64);
  tl_rejects : list (Token * RejectV1);
  tl_response_ids : list nat
}.
#[export] Instance eta_MergingTile : Eta MergingTile := λ r,
  mkMergingTile (tl_token r) (tl_conn r) (tl_slot r) (tl_hydration_cache r) (tl_blob_sidecars r)
    (tl_ping_nonce r) (tl_merged_blocks r) (tl_to_disconnect r) (tl_to_register r) (tl_handshaken r)
    (tl_pongs r) (tl_rejects r) (tl_response_ids r).

Definition merging_tile_new : MergingTile :=
  mkMergingTile None conn_default (merge_slot_new 0) hydration_cache_new ∅ 0 [] [] [] [] [] [] [].

(** Messages the relay sends; a send to a peer that is gone is dropped. *)
Inductive RelayMsg :=
| MsgRegistration (m : MergerRegistrationV1)
| MsgRelayConfig (c : RelayConfigV1)
| MsgSlotStart (m : SlotStartV1)
| MsgMergeableBlock (m : MergeableBlockV1)
| MsgPing (nonce : u64)
| MsgPong (nonce : u64).

(** [TileWithheld] marks the early returns of [forward_decoded] with the block
    that is not sent; it is no effect of the code. *)
Inductive TileOutput :=
| TileSend (token : Token) (m : RelayMsg)
| TileWithheld (m : MergeableBlockV1)
| TileDisconnect (token : Token)
| TileMergedBlock (response_id : nat).

Inductive NetEvent :=
| NetAccepted
| NetConnected (token : Token)
| NetDisconnected (token : Token)
| NetMessage (token : Token) (payload : Bytes).

(** The configuration: relay id, registration key and relay config message. *)
Record TileConfig := mkTileConfig { tc_relay_id : Bytes; tc_api_key : Z; tc_relay_config : RelayConfigV1 }.

(** What a turn reads from outside: the switch, the clock, the blob limit and
    the decoded submissions, which the auctioneer clears. *)
Record TileEnv := mkTileEnv {
  te_enabled : bool;
  te_now : u64;
  te_max_blobs_per_block : Z;
  te_decoded : nat → option DecodedSubmission
}.

Section tile.
Context `{FX : FxHasher} `{ES : EthSpec} `{TH : TreeHash} `{HO : HashOrder} {KE : Keccak} {CO : MergeCodecs}
  {MC : MergingCodec}.
Abbreviation Tile := (Comp MergingTile TileOutput) (only parsing).

(** ** Merged blocks *)

Definition payload_from_v3 (v3 : ExecutionPayload) : option ExecutionPayload :=
  if max_transactions_per_payload <? len (ep_transactions v3) then None
  else if max_withdrawals_per_payload <? len (ep_withdrawals v3) then None
  else Some v3.

Definition requests_from_v4 (v4 : Bytes) : option Bytes :=
  let '(deposits, withdrawals, consolidations) := request_lengths v4 in
  let '(max_deposits, max_withdrawals, max_consolidations) := max_requests in
  if max_deposits <? deposits then None
  else if max_withdrawals <? withdrawals then None
  else if max_consolidations <? consolidations then None
  else Some v4.

(** [push_blob] fails on a full list of commitments. *)
Definition push_blob (b : BlobsBundle) (s : BlobWithMetadata) : option BlobsBundle :=
  if len (bb_commitments b) <? max_blob_commitments_per_block
  then Some (mkBlobsBundle (bb_commitments b ++ [bm_commitment s]) (bb_proofs b ++ bm_proofs s)
               (bb_blobs b ++ [bm_blob s]))
  else None.

Fixpoint push_blobs (sidecars : gmap B256 BlobWithMetadata) (hashes : list B256) (b : BlobsBundle)
    : option BlobsBundle :=
  match hashes with
  | [] => Some b
  | h :: hashes => s ← sidecars !! h; b ← push_blob b s; push_blobs sidecars hashes b
  end.

Fixpoint resolve_txs (sidecars : gmap B256 BlobWithMetadata) (txs : list Bytes) (b : BlobsBundle)
    : option BlobsBundle :=
  match txs with
  | [] => Some b
  | tx :: txs => hashes ← tx_blob_hashes tx; b ← push_blobs sidecars hashes b; resolve_txs sidecars txs b
  end.

Definition resolve_blobs_bundle (payload : ExecutionPayload) (sidecars : gmap B256 BlobWithMetadata)
    (max_blobs_per_block : Z) : option BlobsBundle :=
  b ← resolve_txs sidecars (ep_transactions payload) (mkBlobsBundle [] [] []);
  if is_ok (blobs_validate_ssz_lengths b max_blobs_per_block) then Some b else None.

(** [None] when a slice of the proofs is out of range, which panics. *)
Definition submission_blob_sidecars (bundle : BlobsBundle) : option (list (B256 * BlobWithMetadata)) :=
  items ← iter_blobs bundle;
  Some (List.map (λ '(blob, commitment, proofs),
          (calculate_versioned_hash commitment, mkBlobWithMetadata commitment proofs blob)) items).

Definition inclusion_result (i : BuilderInclusion) : BuilderInclusionResult :=
  mkBuilderInclusionResult (bn_contribution i) (bn_revenue i) (bn_txs i).

Definition appended_tx_hashes (inclusions : gmap Address BuilderInclusionResult) : gset B256 :=
  list_to_set (hash_values inclusions ≫= in_txs).

Definition merged_block_to_response (m : MergedBlockV1) (sidecars : gmap B256 BlobWithMetadata)
    (max_blobs_per_block : Z) : option BlockMergeResponse :=
  payload ← payload_from_v3 (mv1_execution_payload m);
  bundle ← resolve_blobs_bundle payload sidecars max_blobs_per_block;
  let inclusions :=
    foldl (λ acc i, <[bn_origin_coinbase i := inclusion_result i]> acc) ∅ (mv1_builder_inclusions m) in
  let appended := Z.of_nat (size (appended_tx_hashes inclusions)) in
  if len (ep_transactions payload) <? appended + 2 then None
  else
    requests ← requests_from_v4 (mv1_execution_requests m);
    Some {|
      mr_base_block_hash := mv1_base_block_hash m;
      mr_execution_payload := payload;
      mr_execution_requests := requests;
      mr_blobs_bundle := bundle;
      mr_proposer_value := mv1_proposer_value m;
      mr_base_builder_revenue := mv1_base_builder_revenue m;
      mr_relay_revenue := mv1_relay_revenue m;
      mr_builder_inclusions := inclusions;
      mr_base_payment_tx_index := len (ep_transactions payload) - (appended + 2);
      mr_trace := mkMergedBlockTrace (tv_base_block_recv_ns (mv1_trace m)) (tv_sim_start_ns (mv1_trace m))
                    (tv_sim_end_ns (mv1_trace m)) (tv_finalize_ns (mv1_trace m)) None None None |}.

(** The appended transactions in the order of the merged block. *)
Definition appended_txs (r : BlockMergeResponse) : list B256 :=
  List.filter (λ h, bool_decide (h ∈ appended_tx_hashes (mr_builder_inclusions r)))
    (keccak256 <$> ep_transactions (mr_execution_payload r)).

(** The builders that submitted each transaction merged or reported unmerged. *)
Definition response_tx_builders (builders : gmap B256 (list Pubkey)) (r : BlockMergeResponse)
    (unmerged : list B256) : list (B256 * Pubkey) :=
  ((hash_values (mr_builder_inclusions r) ≫= in_txs) ++ unmerged) ≫=
  λ h, pair h <$> default [] (builders !! h).

Definition handle_merged_block (env : TileEnv) (m : MergedBlockV1) : Tile (option MergeAccepted) :=
  if negb (te_enabled env) then mret None
  else
    t ← get;
    let slot := tl_slot t in
    let base := mv1_base_block_hash m in
    if negb (mv1_slot m =? ms_bid_slot slot) || negb (bool_decide (base ∈ ms_appendable slot))
    then mret None
    else
      match merged_block_to_response m (tl_blob_sidecars t) (te_max_blobs_per_block env) with
      | None => mret None
      | Some response =>
          if negb (bool_decide (find_unbundled_txs (appended_txs response) (ms_order_txs slot) = []))
          then mret None
          else
            let base_read_ns :=
              match ms_forwarded_ns slot !! base with
              | Some (read_ns, _) => if bool_decide (base ∈ ms_merged_seen slot) then 0 else read_ns
              | None => 0
              end in
            modify (λ t : MergingTile, t <| tl_slot ::= λ s, s <| ms_merged_seen ::= union {[base]} |> |>) ;;
            mret (Some (mkMergeAccepted response
              (response_tx_builders (ms_tx_builders slot) response (mv1_unmerged_txs m))
              base_read_ns (te_now env)))
      end.

(** ** Forwarding *)

Definition feed_cache (s : Submission) : Tile unit :=
  match s with
  | Dehydrated d => modify (λ t : MergingTile, t <| tl_hydration_cache ::= λ h, feed h d |>)
  | Full _ => mret tt
  end.

(** The submission to forward: a Gloas one is not merged, a dehydrated one is
    hydrated, which also feeds the cache. *)
Definition forwarded_submission (env : TileEnv) (s : Submission) : Tile (option SignedBidSubmissionFulu) :=
  match s with
  | Full (SGloas _) => mret None
  | Full (SFulu signed) => mret (Some signed)
  | Dehydrated d =>
      t ← get;
      match hydrate (tl_hydration_cache t) d (te_max_blobs_per_block env) with
      | None => panic
      | Some (r, h) =>
          modify (λ t : MergingTile, t <| tl_hydration_cache := h |>) ;;
          mret (match r with Ok data => Some (hd_submission data) | Err _ => None end)
      end
  end.

(** One transaction of a forwarded block: its bytes the first time on the
    connection, its hash afterwards. *)
Definition dehydrate_tx (acc : gset B256 * list Bytes) (tx : Bytes) : gset B256 * list Bytes :=
  let h := keccak256 tx in
  if bool_decide (h ∈ acc.1) then (acc.1, acc.2 ++ [b256_bytes h]) else ({[h]} ∪ acc.1, acc.2 ++ [tx]).

Definition note_builder (pubkey : Pubkey) (builders : gmap B256 (list Pubkey)) (h : B256)
    : gmap B256 (list Pubkey) :=
  let l := default [] (builders !! h) in
  <[h := if bool_decide (pubkey ∈ l) then l else l ++ [pubkey]]> builders.

Definition mergeable_block (attrs : gmap B256 B256) (merging : BlockMergingDataV2)
    (refs : list MergeOrderRef) (signed : SignedBidSubmissionFulu) : MergeableBlockV1 :=
  let m := sf_message signed in {|
    fb_slot := bt_slot m;
    fb_builder_pubkey := bt_builder_pubkey m;
    fb_block_value := bt_value m;
    fb_builder_address := md_builder_address merging;
    fb_proposer_fee_recipient := bt_proposer_fee_recipient m;
    fb_parent_beacon_block_root := default 0 (attrs !! bt_parent_hash m);
    fb_allow_appending := md_allow_appending merging;
    fb_merge_orders := refs;
    fb_execution_payload := sf_execution_payload signed |}.

(** The frame of a block: the header and the encoded body. *)
Definition block_frame (m : MergeableBlockV1) : Bytes :=
  append_encoded (header_new IdMergeableBlockV1) ++ mergeable_to_ssz m.

Definition over_limits (c : Conn) (order_hashes : list B256) (frame : Bytes) : bool :=
  let new_orders := len (List.filter (λ h, negb (bool_decide (h ∈ cn_orders_sent c))) order_hashes) mod u32_modulus in
  (cn_max_orders_per_slot c <?
     Z.min (u32_modulus - 1) (Z.of_nat (size (cn_orders_sent c)) mod u32_modulus + new_orders)) ||
  (cn_max_frame_bytes c <? len frame).

(** The end of [forward_decoded]: the block goes out to an active connection
    within the limits the builder asked for. *)
Definition send_block (env : TileEnv) (read_ns : u64) (only : option Token) (msg : MergeableBlockV1)
    (block_hash : B256) (tx_hashes : list B256) : Tile unit :=
  t ← get;
  let order_hashes := (λ r, order_ref_hash r tx_hashes) <$> fb_merge_orders msg in
  match tl_token t with
  | None => emit [TileWithheld msg]
  | Some token =>
      if negb (cn_active (tl_conn t)) || match only with Some x => negb (x =? token) | None => false end
      then emit [TileWithheld msg]
      else if over_limits (tl_conn t) order_hashes (block_frame msg) then emit [TileWithheld msg]
      else
        modify (λ t : MergingTile,
          t <| tl_conn ::= λ c, c <| cn_orders_sent ::= union (list_to_set order_hashes) |> |>
            <| tl_slot ::= λ s,
                 s <| ms_order_txs ::= (λ l, l ++ ((λ r, order_txs_from_ref r tx_hashes) <$> fb_merge_orders msg)) |>
                   <| ms_forwarded_ns ::= (λ m,
                        if fb_allow_appending msg then
                          match m !! block_hash with
                          | Some _ => m
                          | None => <[block_hash := (read_ns, te_now env)]> m
                          end
                        else m) |> |>) ;;
        emit [TileSend token (MsgMergeableBlock msg)]
  end.

Definition forward_signed (env : TileEnv) (id : nat) (only : option Token) (read_ns : u64)
    (merging : BlockMergingDataV2) (signed : SignedBidSubmissionFulu) : Tile unit :=
  let txs := ep_transactions (sf_execution_payload signed) in
  match submission_blob_sidecars (sf_blobs_bundle signed), merge_refs merging (len txs) with
  | Some sidecars, Some refs =>
      modify (λ t : MergingTile,
        t <| tl_blob_sidecars ::= λ m, foldl (λ m '(h, s), <[h := s]> m) m sidecars |>) ;;
      t ← get;
      let block_hash := bt_block_hash (sf_message signed) in
      let msg := mergeable_block (ms_attrs (tl_slot t)) merging refs signed in
      let tx_hashes := keccak256 <$> txs in
      let '(sent, entries) := foldl dehydrate_tx (cn_sent_txs (tl_conn t), []) txs in
      let msg := msg <| fb_execution_payload ::= λ p, p <| ep_transactions := entries |> |> in
      modify (λ t : MergingTile,
        t <| tl_conn ::= λ c, c <| cn_sent_txs := sent |> |>
          <| tl_slot ::= λ s,
               s <| ms_tx_builders ::= (λ m, foldl (note_builder (fb_builder_pubkey msg)) m tx_hashes) |> |>) ;;
      match only with
      | Some _ => mret tt
      | None =>
          modify (λ t : MergingTile,
            t <| tl_slot ::= λ s,
                   s <| ms_appendable ::= (λ a, if fb_allow_appending msg then {[block_hash]} ∪ a else a) |>
                     <| ms_replay_log ::= (λ l, l ++ [id]) |> |>)
      end ;;
      send_block env read_ns only msg block_hash tx_hashes
  | _, _ => panic
  end.

Definition forward_decoded (env : TileEnv) (id : nat) (only : option Token) : Tile unit :=
  if negb (te_enabled env) then mret tt
  else
    match te_decoded env id with
    | None => mret tt
    | Some d =>
        let data := dc_data d in
        let read_ns := Z.max (tr_read_body_ns (su_trace data)) (tr_receive_ns (su_trace data)) in
        let feed_unless_replay :=
          match only with Some _ => mret tt | None => feed_cache (su_submission data) end in
        t ← get;
        match ms_slot_start (tl_slot t) with
        | None => feed_cache (su_submission data)
        | Some _ =>
            if negb (submission_slot (su_submission data) =? ms_bid_slot (tl_slot t)) then feed_unless_replay
            else if cn_builder_ahead (tl_conn t) then feed_unless_replay
            else
              match dc_merging_data d with
              | None => feed_cache (su_submission data)
              | Some merging =>
                  signed ← forwarded_submission env (su_submission data);
                  match signed with
                  | None => mret tt
                  | Some signed => forward_signed env id only read_ns merging signed
                  end
              end
        end
    end.

(** ** The connection *)

Definition send_registration (config : TileConfig) (token : Token) : Tile unit :=
  emit [TileSend token (MsgRegistration (mkMergerRegistrationV1 (tc_api_key config) (tc_relay_id config)
    MERGING_PROTOCOL_VERSION MERGING_PROTOCOL_VERSION false))].

Fixpoint for_each {A} (f : A → Tile unit) (l : list A) : Tile unit :=
  match l with [] => mret tt | x :: l => f x ;; for_each f l end.

Definition complete_handshake (config : TileConfig) (env : TileEnv) (token : Token) : Tile unit :=
  emit [TileSend token (MsgRelayConfig (tc_relay_config config))] ;;
  t ← get;
  match ms_slot_start (tl_slot t) with
  | None => mret tt
  | Some msg =>
      emit [TileSend token (MsgSlotStart msg)] ;;
      for_each (λ id, forward_decoded env id (Some token)) (ms_replay_log (tl_slot t))
  end.

Definition disconnect_later (token : Token) : Tile unit :=
  modify (λ t : MergingTile, t <| tl_to_disconnect ::= (λ l, l ++ [token]) |>).

(** A message of the builder: reactions are buffered. *)
Definition on_message (env : TileEnv) (token : Token) (payload : Bytes) : Tile unit :=
  match header_decode payload with
  | Err (ExtensionMsgId _) => mret tt
  | Err _ => disconnect_later token
  | Ok header =>
      if is_zstd_compressed header then disconnect_later token
      else
        let body := frame_body payload in
        match fh_msg_id header with
        | IdMergerAckV1 =>
            match ack_from_ssz body with
            | None => disconnect_later token
            | Some ack =>
                if negb (ak_ok ack) then disconnect_later token
                else
                  modify (λ t : MergingTile,
                    t <| tl_conn ::= λ c, c <| cn_active := true |>
                                            <| cn_max_orders_per_slot := ak_max_orders_per_slot ack |>
                                            <| cn_max_frame_bytes := ak_max_frame_bytes ack |> |>
                      <| tl_handshaken ::= (λ l, l ++ [token]) |>)
            end
        | IdPongV1 => mret tt
        | IdPingV1 =>
            match ping_from_ssz body with
            | Some nonce => modify (λ t : MergingTile, t <| tl_pongs ::= (λ l, l ++ [(token, nonce)]) |>)
            | None => mret tt
            end
        | IdMergedBlockV1 =>
            match merged_from_ssz body with
            | None => mret tt
            | Some merged =>
                response ← handle_merged_block env merged;
                match response with
                | None => mret tt
                | Some r =>
                    modify (λ t : MergingTile,
                      t <| tl_merged_blocks ::= (λ l, l ++ [r]) |>
                        <| tl_response_ids ::= (λ l, l ++ [length (tl_merged_blocks t)]) |>)
                end
            end
        | IdRejectV1 =>
            match reject_from_ssz body with
            | Some r => modify (λ t : MergingTile, t <| tl_rejects ::= (λ l, l ++ [(token, r)]) |>)
            | None => mret tt
            end
        | _ => disconnect_later token
        end
  end.

Definition on_net_event (env : TileEnv) (ev : NetEvent) : Tile unit :=
  t ← get;
  let mine token := bool_decide (tl_token t = Some token) in
  match ev with
  | NetAccepted => mret tt
  | NetConnected token =>
      if mine token then
        modify (λ t : MergingTile, t <| tl_conn ::= conn_reset |> <| tl_to_register ::= (λ l, l ++ [token]) |>)
      else mret tt
  | NetDisconnected token =>
      if mine token then modify (λ t : MergingTile, t <| tl_conn ::= conn_reset |>) else mret tt
  | NetMessage token payload => if mine token then on_message env token payload else mret tt
  end.

Definition on_reject (token : Token) (reject : RejectV1) : Tile unit :=
  t ← get;
  if negb (bool_decide (tl_token t = Some token)) then mret tt
  else
    modify (λ t : MergingTile, t <| tl_conn ::= λ c,
      let c := if bool_decide (rj_code reject = Busy) then c <| cn_sent_txs := ∅ |> else c in
      if bool_decide (rj_code reject = StaleSlot) || (ms_bid_slot (tl_slot t) <? rj_slot reject)
      then c <| cn_builder_ahead := true |> else c |>).

(** [std::mem::take] of one of the buffers. *)
Definition take_buffer {A} (get_buf : MergingTile → list A) (clear_buf : MergingTile → MergingTile)
    (f : A → Tile unit) : Tile unit :=
  t ← get; modify clear_buf ;; for_each f (get_buf t).

Definition poll_sockets (config : TileConfig) (env : TileEnv) (events : list NetEvent) : Tile unit :=
  for_each (on_net_event env) events ;;
  take_buffer tl_to_disconnect (λ t, t <| tl_to_disconnect := [] |>) (λ token,
    emit [TileDisconnect token] ;;
    modify (λ t : MergingTile,
      if bool_decide (tl_token t = Some token) then t <| tl_conn ::= conn_reset |> else t)) ;;
  take_buffer tl_to_register (λ t, t <| tl_to_register := [] |>) (send_registration config) ;;
  take_buffer tl_handshaken (λ t, t <| tl_handshaken := [] |>) (complete_handshake config env) ;;
  take_buffer tl_pongs (λ t, t <| tl_pongs := [] |>) (λ '(token, nonce), emit [TileSend token (MsgPong nonce)]) ;;
  take_buffer tl_rejects (λ t, t <| tl_rejects := [] |>) (λ '(token, r), on_reject token r).

(** ** Slots *)

Definition maybe_start_slot : Tile unit :=
  t ← get;
  let s := tl_slot t in
  match ms_slot_start s, ms_fee_recipient s, hash_iter (ms_attrs s) with
  | None, Some fee_recipient, (parent_hash, root) :: _ =>
      let msg := mkSlotStartV1 (ms_bid_slot s) parent_hash fee_recipient root (ms_apply_blacklist s) in
      match tl_token t with
      | Some token =>
          if cn_active (tl_conn t) then emit [TileSend token (MsgSlotStart msg)] else mret tt
      | None => mret tt
      end ;;
      modify (λ t : MergingTile, t <| tl_slot ::= λ s, s <| ms_slot_start := Some msg |> |>)
  | _, _, _ => mret tt
  end.

Definition on_slot_msg (ev : SlotUpdate) : Tile unit :=
  t ← get;
  if su_bid_slot ev <? ms_bid_slot (tl_slot t) then mret tt
  else
    (if ms_bid_slot (tl_slot t) <? su_bid_slot ev then
       modify (λ t : MergingTile,
         t <| tl_slot := merge_slot_new (su_bid_slot ev) |> <| tl_conn ::= reset_slot |>
           <| tl_hydration_cache ::= clear |> <| tl_blob_sidecars := ∅ |> <| tl_merged_blocks := [] |>)
     else mret tt) ;;
    modify (λ t : MergingTile, t <| tl_slot ::= λ s,
      let s := match su_registration_data ev with
               | Some reg => s <| ms_fee_recipient := Some (rg_fee_recipient (svr_message (ri_registration (de_entry reg)))) |>
                               <| ms_apply_blacklist := is_regional (vp_filtering (ri_preferences (de_entry reg))) |>
               | None => s
               end in
      s <| ms_attrs ::= λ m, foldl (λ m a, <[pu_parent_hash a := parent_root a]> m) m (su_payload_attributes ev) |> |>) ;;
    maybe_start_slot.

(** The nonce wraps. *)
Definition send_pings : Tile unit :=
  modify (λ t : MergingTile, t <| tl_ping_nonce ::= λ n, (n + 1) mod u64_modulus |>) ;;
  t ← get;
  match tl_token t with
  | Some token => if cn_active (tl_conn t) then emit [TileSend token (MsgPing (tl_ping_nonce t))] else mret tt
  | None => mret tt
  end.

(** One turn of the tile: the network events, whether the ping timer fired, and
    the slot updates and decoded submissions that wait. *)
Record TileTurn := mkTileTurn {
  tt_env : TileEnv;
  tt_events : list NetEvent;
  tt_ping : bool;
  tt_slots : list SlotUpdate;
  tt_decoded : list nat
}.

Definition tile_loop (config : TileConfig) (turn : TileTurn) : Tile unit :=
  poll_sockets config (tt_env turn) (tt_events turn) ;;
  take_buffer tl_response_ids (λ t, t <| tl_response_ids := [] |>) (λ id, emit [TileMergedBlock id]) ;;
  (if tt_ping turn then send_pings else mret tt) ;;
  for_each on_slot_msg (tt_slots turn) ;;
  for_each (λ id, forward_decoded (tt_env turn) id None) (tt_decoded turn).

(** [try_init] dials the builder. *)
Definition tile_init (token : Token) : MergingTile := merging_tile_new <| tl_token := Some token |>.

Fixpoint tile_run (config : TileConfig) (turns : list TileTurn) : Tile unit :=
  match turns with [] => mret tt | turn :: turns => tile_loop config turn ;; tile_run config turns end.
End tile.
