(* ===== verification/MergingRuns.v ===== *)
(** * Histories of the block merging tile

    What the relay has sent the builder, read off its output, and the
    invariants that tie it to the state of the tile. *)

From S2P Require Import Prelude Types Submission Rlp MergeTrie MergeOrders MergeWire Hydration LocalCache Payload Simulators Housekeeper MergingTile.

#[export] Instance SlotStartV1_eq_dec : EqDecision SlotStartV1.
Proof. solve_decision. Defined.

(** ** What has been sent

    On the connection since its registration: whether the relay's configuration
    was sent, the slot start, the transactions sent whole since it, and those of
    the blocks withheld, with their slot. *)
Record Sent := mkSent {
  sn_config : bool;
  sn_start : option SlotStartV1;
  sn_known : gset B256;
  sn_withheld : gset (u64 * B256)
}.
#[export] Instance eta_Sent : Eta Sent := λ r, mkSent (sn_config r) (sn_start r) (sn_known r) (sn_withheld r).

Definition sent_none : Sent := mkSent false None ∅ ∅.

Section sent.
Context {KE : Keccak}.

Definition block_entries (m : MergeableBlockV1) : list Bytes := ep_transactions (fb_execution_payload m).

Definition whole_hashes (txs : list Bytes) : list B256 :=
  keccak256 <$> filter (λ tx, is_tx_hash_ref tx = false) txs.

Definition note_output (s : Sent) (out : TileOutput) : Sent :=
  match out with
  | TileSend _ (MsgRegistration _) => sent_none
  | TileSend _ (MsgSlotStart m) =>
      if decide (sn_start s = Some m) then s else s <| sn_start := Some m |> <| sn_known := ∅ |>
  | TileSend _ (MsgRelayConfig _) => s <| sn_config := true |>
  | TileSend _ (MsgMergeableBlock m) =>
      s <| sn_known ::= union (list_to_set (whole_hashes (block_entries m))) |>
  | TileWithheld m =>
      s <| sn_withheld ::= union (list_to_set (pair (fb_slot m) <$> whole_hashes (block_entries m))) |>
  | _ => s
  end.

(** Every reference is to a transaction known before, or sent whole earlier in
    the block. *)
Fixpoint refs_known (known : B256 → Prop) (txs : list Bytes) : Prop :=
  match txs with
  | [] => True
  | tx :: txs =>
      if is_tx_hash_ref tx then known (be_fold tx) ∧ refs_known known txs
      else refs_known (λ h, known h ∨ h = keccak256 tx) txs
  end.

(** A block goes out after the start of its slot, its orders are within it, and
    what it refers to has been sent whole since, or was in a block of the slot
    that was withheld. *)
Definition block_ok (s : Sent) (m : MergeableBlockV1) : Prop :=
  (∃ start, sn_start s = Some start ∧ ss_slot start = fb_slot m) ∧
  Forall (λ r, ref_typed r ∧ ref_validate r (len (block_entries m)) = true) (fb_merge_orders m) ∧
  refs_known (λ h, h ∈ sn_known s ∨ (fb_slot m, h) ∈ sn_withheld s) (block_entries m).

(** A slot starts after the configuration, once, and after the slots before. *)
Definition start_ok (s : Sent) (m : SlotStartV1) : Prop :=
  sn_config s = true ∧ ∀ m', sn_start s = Some m' → m' = m ∨ ss_slot m' < ss_slot m.

Fixpoint stream_ok (s : Sent) (outs : list TileOutput) : Prop :=
  match outs with
  | [] => True
  | out :: outs =>
      match out with
      | TileSend _ (MsgMergeableBlock m) => block_ok s m
      | TileSend _ (MsgSlotStart m) => start_ok s m
      | _ => True
      end ∧
      stream_ok (note_output s out) outs
  end.

Lemma stream_ok_app s l k : stream_ok s (l ++ k) ↔ stream_ok s l ∧ stream_ok (foldl note_output s l) k.
Proof. revert s. induction l as [|x l IH]; intros s; cbn; [tauto|]. rewrite IH. tauto. Qed.

Lemma refs_known_mono (P Q : B256 → Prop) txs : (∀ h, P h → Q h) → refs_known P txs → refs_known Q txs.
Proof.
  revert P Q. induction txs as [|tx txs IH]; intros P Q HPQ; [done|]. cbn.
  destruct (is_tx_hash_ref tx); [intros [??]; split; eauto|]. apply IH. naive_solver.
Qed.

(** ** The references of a block *)

Lemma be_fold_snoc l x : is_byte x → be_fold (l ++ [x]) = be_fold l * 256 + x.
Proof. intros Hx. unfold be_fold. rewrite foldl_app. cbn. rewrite lor_low by (unfold is_byte in Hx; lia). lia. Qed.

Lemma be_bytes_be_fold l : Forall is_byte l → be_bytes (length l) (be_fold l) = l.
Proof.
  induction l as [|x l IH] using rev_ind; intros Hl; [done|].
  apply Forall_app in Hl as [Hl Hx]. rewrite Forall_singleton in Hx. rewrite length_app, Nat.add_comm. cbn [Nat.add length be_bytes].
  rewrite (be_fold_snoc l x Hx). unfold is_byte in Hx.
  rewrite Z.div_add_l, Z.div_small, Z.add_0_r, (Z.add_comm _ x), Z.mod_add, Z.mod_small by lia. by rewrite IH.
Qed.

Lemma keccak256_bytes b : b256_bytes (keccak256 b) = keccak b ∧ len (keccak b) = 32.
Proof.
  destruct (keccak_bytes b) as [Hb Hl]. split; [|done]. unfold b256_bytes, keccak256.
  assert (length (keccak b) = 32%nat) as Hn by (unfold len in Hl; lia). rewrite <- Hn.
  by apply be_bytes_be_fold.
Qed.

Lemma hash_entry b : is_tx_hash_ref (b256_bytes (keccak256 b)) = true ∧ be_fold (b256_bytes (keccak256 b)) = keccak256 b.
Proof.
  destruct (keccak256_bytes b) as [-> Hl]. split; [|done]. unfold is_tx_hash_ref. rewrite Hl. done.
Qed.

Lemma dehydrate_spec txs : ∀ sent acc,
  Forall (λ tx, is_tx_hash_ref tx = false) txs →
  let '(sent', entries) := foldl dehydrate_tx (sent, acc) txs in
  ∃ new, entries = acc ++ new ∧ sent' = list_to_set (whole_hashes new) ∪ sent ∧
    length new = length txs ∧ ∀ known : B256 → Prop, (∀ h, h ∈ sent → known h) → refs_known known new.
Proof.
  induction txs as [|tx txs IH]; intros sent acc Htx; cbn [foldl].
  { exists []. rewrite app_nil_r. split_and!; [done|set_solver|done|done]. }
  inversion Htx as [|? ? Hr Hrest]; subst. unfold dehydrate_tx at 2. cbn [fst snd].
  destruct (hash_entry tx) as [Hh1 Hh2]. case_bool_decide as Hin.
  - specialize (IH sent (acc ++ [b256_bytes (keccak256 tx)]) Hrest). destruct (foldl _ _ _) as [sent' entries].
    destruct IH as (new & -> & -> & Hl & Hk). exists (b256_bytes (keccak256 tx) :: new).
    split_and!; [by rewrite <- app_assoc| |by cbn; rewrite Hl|].
    + unfold whole_hashes. rewrite filter_cons_False by (by rewrite Hh1). done.
    + intros known Hkn. cbn [refs_known]. rewrite Hh1, Hh2. split; [by apply Hkn|by apply Hk].
  - specialize (IH ({[keccak256 tx]} ∪ sent) (acc ++ [tx]) Hrest). destruct (foldl _ _ _) as [sent' entries].
    destruct IH as (new & -> & -> & Hl & Hk). exists (tx :: new).
    split_and!; [by rewrite <- app_assoc| |by cbn; rewrite Hl|].
    + unfold whole_hashes. rewrite filter_cons_True by done. cbn. set_solver.
    + intros known Hkn. cbn [refs_known]. rewrite Hr. apply Hk. intros h. rewrite elem_of_union, elem_of_singleton.
      naive_solver.
Qed.
End sent.

(** ** Inputs *)
Section runs.
Context `{FX : FxHasher} `{ES : EthSpec} `{TH : TreeHash} `{HO : HashOrder} {KE : Keccak} {CO : MergeCodecs}
  {MC : MergingCodec} (config : TileConfig) (token : Token) (offered : DecodedSubmission → Prop).
Abbreviation Tile := (Comp MergingTile TileOutput) (only parsing).

(** What the decoder guarantees of a submission: a full one has a bundle of
    valid lengths and no transaction as short as a hash, and the indices of
    orders are unsigned. *)
Definition decoded_ok (d : DecodedSubmission) : Prop :=
  match su_submission (dc_data d) with
  | Full (SFulu s) =>
      (∃ max, blobs_validate_ssz_lengths (sf_blobs_bundle s) max = Ok tt) ∧
      Forall (λ tx, is_tx_hash_ref tx = false) (ep_transactions (sf_execution_payload s))
  | _ => True
  end ∧
  match dc_merging_data d with
  | Some merging => Forall (λ o, 0 ≤ ov_start o ∧ 0 ≤ ov_len o) (md_orders merging)
  | None => True
  end.

Definition env_ok (env : TileEnv) : Prop :=
  te_max_blobs_per_block env ≤ max_blob_commitments_per_block ∧
  ∀ id d, te_decoded env id = Some d → decoded_ok d ∧ offered d.

(** ** Invariant *)

(** A submission of the slot that other builders may append to. *)
Definition appendable_source (slot : u64) (hash : B256) : Prop :=
  ∃ d merging, offered d ∧ submission_slot (su_submission (dc_data d)) = slot ∧
    block_hash (su_submission (dc_data d)) = hash ∧
    dc_merging_data d = Some merging ∧ md_allow_appending merging = true.

(** Where the blobs and the bases of the slot come from. *)
Definition sources_ok (t : MergingTile) : Prop :=
  map_Forall (λ h x, calculate_versioned_hash (bm_commitment x) = h) (tl_blob_sidecars t) ∧
  ∀ h, h ∈ ms_appendable (tl_slot t) → appendable_source (ms_bid_slot (tl_slot t)) h.

(** Transactions the relay has marked as sent, while [pending] handshakes have
    not sent the slot start again. *)
Record conn_inv (pending : bool) (t : MergingTile) (s : Sent) : Prop := mk_conn_inv {
  ci_sent : ∀ h, h ∈ cn_sent_txs (tl_conn t) →
    sn_start s = ms_slot_start (tl_slot t) ∧ h ∈ sn_known s ∨
    (ms_bid_slot (tl_slot t), h) ∈ sn_withheld s;
  ci_fresh : ms_slot_start (tl_slot t) = None ∨ tl_to_register t ≠ [] → cn_sent_txs (tl_conn t) = ∅;
  ci_register : tl_to_register t ≠ [] → cn_active (tl_conn t) = true → tl_handshaken t ≠ [];
  ci_started : cn_active (tl_conn t) = true → pending = false → tl_handshaken t = [] →
    ∀ m, ms_slot_start (tl_slot t) = Some m → sn_start s = Some m;
  ci_config : cn_active (tl_conn t) = true → pending = false → tl_handshaken t = [] → sn_config s = true;
  ci_slot : ∀ m, ms_slot_start (tl_slot t) = Some m → ss_slot m = ms_bid_slot (tl_slot t);
  ci_order : ∀ m, sn_start s = Some m → ms_slot_start (tl_slot t) = Some m ∨ ss_slot m < ms_bid_slot (tl_slot t);
  ci_token : tl_token t = Some token ∧ Forall (λ x, x = token) (tl_handshaken t);
  ci_hydration : hydration_ok (tl_hydration_cache t);
  ci_sources : sources_ok t
}.

(** A computation keeps the invariant and its output is in order. *)
Definition holds_over {A} (J K : MergingTile → Sent → Prop) (m : Tile A) : Prop :=
  ∀ t s, J t s → wp m (λ _ t' o, stream_ok s o ∧ K t' (foldl note_output s o)) t.

Lemma over_ret {A} (a : A) J : holds_over J J (mret a).
Proof. intros t s HJ. wp_step. done. Qed.

Lemma over_bind {A B} J K L (m : Tile A) (k : A → Tile B) :
  holds_over J K m → (∀ a, holds_over K L (k a)) → holds_over J L (m ≫= k).
Proof.
  intros Hm Hk t s HJ. wp_step. eapply wp_mono; [by apply Hm|]. intros a t1 o1 [Ho1 HK].
  eapply wp_mono; [by apply Hk|]. intros b t2 o2 [Ho2 HL]. rewrite stream_ok_app, foldl_app. done.
Qed.

Lemma over_get {A} J K (k : MergingTile → Tile A) :
  (∀ t, holds_over (λ t' s, t' = t ∧ J t' s) K (k t)) → holds_over J K (t ← get; k t).
Proof. intros Hk t s HJ. wp_step. wp_step. by apply Hk. Qed.

Lemma over_modify J K f : (∀ t s, J t s → K (f t) s) → holds_over J K (modify f).
Proof. intros Hf t s HJ. wp_step. split; [done|]. by apply Hf. Qed.

Lemma over_weaken {A} (J J' K K' : MergingTile → Sent → Prop) (m : Tile A) :
  holds_over J' K' m → (∀ t s, J t s → J' t s) → (∀ t s, K' t s → K t s) → holds_over J K m.
Proof.
  intros Hm HJ HK t s H%HJ. eapply wp_mono; [by apply Hm|]. intros a t' o [? ?]. split; [done|by apply HK].
Qed.

Lemma over_each {A} J (f : A → Tile unit) l :
  (∀ x, x ∈ l → holds_over J J (f x)) → holds_over J J (for_each f l).
Proof.
  induction l as [|x l IH]; intros Hf; cbn [for_each]; [apply over_ret|].
  eapply over_bind; [apply Hf; by left|]. intros _. apply IH. intros y Hy. apply Hf. by right.
Qed.

(** Output that says nothing of blocks. *)
Definition silent (out : TileOutput) : Prop :=
  match out with
  | TileSend _ (MsgPing _ | MsgPong _) | TileDisconnect _ | TileMergedBlock _ => True
  | _ => False
  end.

Lemma over_silent J out : silent out → holds_over J J (emit [out]).
Proof. intros Hs t s HJ. wp_step. by destruct out as [? []| | |]. Qed.

(** ** Forwarding *)

Lemma sidecars_total bundle max :
  blobs_validate_ssz_lengths bundle max = Ok tt → is_Some (submission_blob_sidecars bundle).
Proof.
  intros (items & Hi & _)%iter_blobs_total. unfold submission_blob_sidecars. rewrite Hi. by eexists.
Qed.

Lemma merge_refs_valid merging n :
  Forall (λ o, 0 ≤ ov_start o ∧ 0 ≤ ov_len o) (md_orders merging) →
  ∃ refs, merge_refs merging n = Some refs ∧ Forall (λ r, ref_typed r ∧ ref_validate r n = true) refs.
Proof.
  intros Ho. unfold merge_refs.
  match goal with |- context [mapM ?g ?l] => set (f := g); set (os := l) end.
  assert (∀ e, e ∈ os → ∃ res, f e = Some res ∧ ∀ r, res = Some r → ref_typed r ∧ ref_validate r n = true) as Hf.
  { intros [i o] Hin%elem_of_enumerate. destruct (proj1 (Forall_lookup _ _) Ho i o Hin) as [Hs Hl].
    destruct (order_to_ref_exact o (find (λ c, oc_order c =? Z.of_nat i) (md_tx_codes merging)) n Hs Hl) as (res & Hr & _ & Hv).
    exists res. split; [done|]. intros r ->. split; [by eapply order_to_ref_typed|]. by destruct (Hv r eq_refl) as (_ & _ & ?). }
  destruct (mapM_is_Some_2 f os) as [refs Hrefs].
  { apply Forall_forall. intros e He. destruct (Hf e He) as (res & Hr & _). by exists res. }
  rewrite Hrefs. eexists. split; [reflexivity|]. apply Forall_forall. intros r Hin.
  apply list_elem_of_omap in Hin as (res & Hin & Hid). cbn in Hid. subst res.
  apply mapM_Some_1 in Hrefs. apply list_elem_of_lookup in Hin as [k Hk].
  destruct (Forall2_lookup_r _ _ _ _ _ Hrefs Hk) as (e & He & Hfe). apply list_elem_of_lookup_2 in He.
  destruct (Hf e He) as (res & Hr & Hv). apply Hv. congruence.
Qed.

(** A turn's forwarding runs when the handshakes are done. *)
Definition settled (t : MergingTile) (s : Sent) : Prop :=
  conn_inv false t s ∧ tl_handshaken t = [] ∧ tl_to_register t = [].

Lemma over_hydration pending f :
  (∀ h, hydration_ok h → hydration_ok (f h)) →
  holds_over (conn_inv pending) (conn_inv pending) (modify (λ t : MergingTile, t <| tl_hydration_cache ::= f |>)).
Proof. intros Hf. apply over_modify. intros t s []. split; rec_simpl; auto. Qed.

(** A block is about to go out: its new transactions are already marked. *)
Record ready (msg : MergeableBlockV1) (t : MergingTile) (s : Sent) : Prop := mk_ready {
  rd_settled : tl_handshaken t = [] ∧ tl_to_register t = [] ∧ tl_token t = Some token ∧
    hydration_ok (tl_hydration_cache t) ∧ sources_ok t;
  rd_start : ∃ start, ms_slot_start (tl_slot t) = Some start ∧ ss_slot start = ms_bid_slot (tl_slot t) ∧
    (cn_active (tl_conn t) = true → sn_start s = Some start ∧ sn_config s = true);
  rd_order : ∀ m, sn_start s = Some m → ms_slot_start (tl_slot t) = Some m ∨ ss_slot m < ms_bid_slot (tl_slot t);
  rd_orders : Forall (λ r, ref_typed r ∧ ref_validate r (len (block_entries msg)) = true) (fb_merge_orders msg);
  rd_slot : fb_slot msg = ms_bid_slot (tl_slot t);
  rd_sent : ∀ h, h ∈ cn_sent_txs (tl_conn t) →
    sn_start s = ms_slot_start (tl_slot t) ∧ h ∈ sn_known s ∨
    (ms_bid_slot (tl_slot t), h) ∈ sn_withheld s ∨ h ∈ whole_hashes (block_entries msg);
  rd_refs : refs_known (λ h, sn_start s = ms_slot_start (tl_slot t) ∧ h ∈ sn_known s ∨
    (ms_bid_slot (tl_slot t), h) ∈ sn_withheld s) (block_entries msg)
}.

Lemma settled_intro msg t s s' :
  ready msg t s → sn_start s' = sn_start s → sn_config s' = sn_config s →
  (∀ h, h ∈ cn_sent_txs (tl_conn t) →
    sn_start s' = ms_slot_start (tl_slot t) ∧ h ∈ sn_known s' ∨ (ms_bid_slot (tl_slot t), h) ∈ sn_withheld s') →
  settled t s'.
Proof.
  intros [(Hh & Hr & Htok & Hhy & Hso) (start & Hst & Hsl & Hact) Hord _ _ _ _] Hs' Hc' Hsent. split; [|done]. split.
  - done.
  - rewrite Hst, Hr. naive_solver.
  - by rewrite Hr.
  - intros Ha _ _ m. rewrite Hst, Hs'. intros [= <-]. by apply Hact.
  - intros Ha _ _. rewrite Hc'. by apply Hact.
  - rewrite Hst. by intros m [= <-].
  - by rewrite Hs'.
  - rewrite Hh. by repeat constructor.
  - done.
  - done.
Qed.

Lemma over_withheld msg : holds_over (ready msg) settled (emit [TileWithheld msg]).
Proof.
  intros t s HR. wp_step. cbn. split; [done|]. eapply settled_intro; [done..|]. rec_simpl.
  intros h Hin. rewrite elem_of_union, elem_of_list_to_set, list_elem_of_fmap.
  destruct (rd_sent _ _ _ HR h Hin) as [?|[?|?]]; [by left|by right; right|right; left].
  exists h. by rewrite (rd_slot _ _ _ HR).
Qed.

Lemma over_send_block env read_ns only msg block_hash tx_hashes :
  holds_over (ready msg) settled (send_block env read_ns only msg block_hash tx_hashes).
Proof.
  intros t s HR. unfold send_block. wp_step. wp_step.
  pose proof HR as [(_ & _ & Htok & _ & _) (start & Hst & _ & Hact) _ Hvalid Hslot Hsent Hrefs].
  rewrite Htok. destruct (negb (cn_active (tl_conn t)) || _) eqn:Hgate; [by apply over_withheld|].
  destruct (over_limits _ _ _); [by apply over_withheld|].
  apply orb_false_iff in Hgate as [Ha%negb_false_iff _]. destruct (Hact Ha) as [Hst' _].
  wp_step. wp_step. wp_step. cbn. split.
  - split; [|done]. split_and!; [exists start; rewrite Hslot; by destruct HR as [_ (? & ? & ? & _)]; simplify_eq|done|].
    eapply refs_known_mono; [|exact Hrefs]. rewrite Hslot. naive_solver.
  - apply (settled_intro msg _ s); [by destruct HR; split|done..|]. rec_simpl.
    intros h Hin. rewrite elem_of_union, elem_of_list_to_set.
    destruct (Hsent h Hin) as [[? ?]|[?|?]]; [by left; split; [|right]|by right|left].
    split; [by rewrite Hst|by left].
Qed.

Definition signed_ok (bid_slot : u64) (merging : BlockMergingDataV2) (signed : SignedBidSubmissionFulu) : Prop :=
  bt_slot (sf_message signed) = bid_slot ∧
  (md_allow_appending merging = true → appendable_source bid_slot (bt_block_hash (sf_message signed))) ∧
  (∃ max, blobs_validate_ssz_lengths (sf_blobs_bundle signed) max = Ok tt) ∧
  Forall (λ tx, is_tx_hash_ref tx = false) (ep_transactions (sf_execution_payload signed)).

Lemma sidecars_hash bundle sidecars :
  submission_blob_sidecars bundle = Some sidecars →
  Forall (λ e, calculate_versioned_hash (bm_commitment e.2) = e.1) sidecars.
Proof.
  unfold submission_blob_sidecars. intros (items & _ & [= <-])%bind_Some.
  apply Forall_forall. intros e. rewrite list_elem_of_In, in_map_iff. by intros ([[blob c] proofs] & <- & _).
Qed.

Lemma sources_forward t t' sidecars merging signed :
  sources_ok t → submission_blob_sidecars (sf_blobs_bundle signed) = Some sidecars →
  (md_allow_appending merging = true → appendable_source (ms_bid_slot (tl_slot t)) (bt_block_hash (sf_message signed))) →
  tl_blob_sidecars t' = foldl (λ m '(h, s), <[h := s]> m) (tl_blob_sidecars t) sidecars →
  ms_bid_slot (tl_slot t') = ms_bid_slot (tl_slot t) →
  (∀ h, h ∈ ms_appendable (tl_slot t') →
    h ∈ ms_appendable (tl_slot t) ∨ md_allow_appending merging = true ∧ h = bt_block_hash (sf_message signed)) →
  sources_ok t'.
Proof.
  intros [Hb Ha] Hside%sidecars_hash Happ Es Eb Ea. split.
  - rewrite Es. clear Es. revert Hb. generalize (tl_blob_sidecars t). induction Hside as [|[h x] l Hx _ IH]; intros m Hm; [done|].
    cbn. apply IH. by apply map_Forall_insert_2.
  - rewrite Eb. intros h [?|[? ->]]%Ea; [by apply Ha|by apply Happ].
Qed.

Lemma over_forward_signed env id only read_ns merging signed start :
  Forall (λ o, 0 ≤ ov_start o ∧ 0 ≤ ov_len o) (md_orders merging) →
  holds_over (λ t s, settled t s ∧ ms_slot_start (tl_slot t) = Some start ∧ signed_ok (ms_bid_slot (tl_slot t)) merging signed)
    settled (forward_signed env id only read_ns merging signed).
Proof.
  intros Hmd t s ((HI & Hhs & Hreg) & Hst & Hslot & Happ & [max Hb] & Htxs). unfold forward_signed.
  destruct (sidecars_total _ _ Hb) as [sidecars Hside]. rewrite Hside.
  destruct (merge_refs_valid merging (len (ep_transactions (sf_execution_payload signed))) Hmd) as (refs & -> & Hvalid).
  wp_step. wp_step. wp_step. wp_step.
  pose proof (dehydrate_spec (ep_transactions (sf_execution_payload signed)) (cn_sent_txs (tl_conn t)) [] Htxs) as Hd.
  rec_simpl. destruct (foldl dehydrate_tx _ _) as [sent entries].
  destruct Hd as (new & -> & -> & Hlen & Hrefs). cbn [app].
  match goal with |- context [send_block _ _ _ ?m _ _] => set (msg := m) end. wp_step. wp_step. wp_step.
  eapply (wp_mono _ (λ _ t' o, ready msg t' s ∧ o = [])).
  { destruct HI as [Hsent Hfresh _ Hstarted Hcfg Hsl Hord [Htok _] Hhy Hso].
    destruct only; wp_step; (split; [|done]); split; rec_simpl; try done; rewrite ?Hst in *.
    all: try (split_and!; [done..|]; apply (sources_forward t _ sidecars merging signed); try done; rec_simpl;
      intros h; destruct (md_allow_appending merging); set_solver).
    all: try (exists start; split_and!; [done|by apply Hsl|intros Ha; split; [by apply Hstarted|by apply Hcfg]]).
    all: try (unfold len; cbn; by rewrite Hlen).
    all: try (intros h; rewrite elem_of_union, elem_of_list_to_set; intros [?|Hin]; [by right; right|];
      destruct (Hsent h Hin); [by left|by right; left]).
    all: apply Hrefs; intros h Hin; by apply Hsent. }
  intros _ t' o [HR ->]. cbn [app foldl]. by apply over_send_block.
Qed.

Lemma over_feed_cache sub : holds_over settled settled (feed_cache sub).
Proof.
  destruct sub as [|d]; [apply over_ret|]. apply over_modify. intros t s [[] []].
  split; [|done]. split; rec_simpl; try done. by apply feed_ok.
Qed.

Lemma over_forward_decoded env id only :
  env_ok env → holds_over settled settled (forward_decoded env id only).
Proof.
  intros [Hmax Hdec]. unfold forward_decoded. destruct (te_enabled env); [|apply over_ret]. cbn [negb].
  destruct (te_decoded env id) as [d|] eqn:Hd; [|apply over_ret]. destruct (Hdec id d Hd) as [[Hsub Hmd] Hoff].
  assert (holds_over settled settled (match only with Some _ => mret tt | None => feed_cache (su_submission (dc_data d)) end))
    as Hfeed by (destruct only; [apply over_ret|apply over_feed_cache]).
  intros t s HS. wp_step. wp_step. destruct (ms_slot_start (tl_slot t)) as [start|] eqn:Hst; [|by apply over_feed_cache].
  destruct (Z.eqb_spec (submission_slot (su_submission (dc_data d))) (ms_bid_slot (tl_slot t))) as [Hslot|];
    cbn [negb]; [|by apply Hfeed].
  destruct (cn_builder_ahead _); [by apply Hfeed|].
  destruct (dc_merging_data d) as [merging|] eqn:Hmerge; [|by apply over_feed_cache].
  assert (md_allow_appending merging = true →
    appendable_source (ms_bid_slot (tl_slot t)) (block_hash (su_submission (dc_data d)))) as Happ.
  { intros Hap. by exists d, merging. }
  wp_step. unfold forwarded_submission. destruct (su_submission (dc_data d)) as [[signed|g]|dh].
  - wp_step. destruct Hsub as [Hb Htx]. by apply (over_forward_signed _ _ _ _ _ _ start).
  - wp_step. wp_step. done.
  - wp_step. wp_step. destruct (hydrate_total (tl_hydration_cache t) dh _ Hmax) as [[r h'] Hh]. rewrite Hh.
    pose proof HS as [HI Hbuf]. pose proof (ci_hydration _ _ _ HI) as Hok.
    assert (settled (t <| tl_hydration_cache := h' |>) s) as HS'.
    { split; [|done]. destruct HI. split; rec_simpl; try done. by eapply hydrate_ok. }
    wp_step. wp_step. wp_step. destruct r as [data|e]; [|wp_step; done].
    destruct (hydrated_facts _ _ _ _ _ Hok Hh) as (Hm & Hlong & Hb).
    apply (over_forward_signed _ _ _ _ _ _ start); [done|]. split_and!; [done..|]. split_and!.
    + rewrite Hm. done.
    + rewrite Hm. exact Happ.
    + eauto.
    + eapply Forall_impl; [exact Hlong|]. intros tx Hl. unfold is_tx_hash_ref, TX_HASH_REF_LEN, TX_KEY_SIZE in *. lia.
Qed.

(** ** The connection *)

Lemma conn_inv_config p t s : conn_inv p t s → conn_inv p t (s <| sn_config := true |>).
Proof. intros []. by split. Qed.

(** The handshakes of a turn are handled one after the other. *)
Definition shaking (t : MergingTile) (s : Sent) : Prop :=
  (∃ p, conn_inv p t s) ∧ tl_handshaken t = [] ∧ tl_to_register t = [].

Lemma over_relay_config c :
  holds_over shaking (λ t s, shaking t s ∧ sn_config s = true) (emit [TileSend token (MsgRelayConfig c)]).
Proof.
  intros t s ([p HI] & Hb). wp_step. cbn. split; [done|]. split; [|done]. split; [|done]. exists p.
  by apply conn_inv_config.
Qed.

Lemma over_slot_start m :
  holds_over (λ t s, (shaking t s ∧ sn_config s = true) ∧ ms_slot_start (tl_slot t) = Some m)
    settled (emit [TileSend token (MsgSlotStart m)]).
Proof.
  intros t s ((([p HI] & Hh & Hr) & Hcfg) & Hst). wp_step.
  destruct HI as [Hsent Hfresh Hreg _ _ Hsl Hord Htok Hhy Hso]. rewrite Hst in *. cbn. split.
  { split; [|done]. split; [done|]. intros m' Hm'. rewrite (Hsl m eq_refl).
    destruct (Hord m' Hm') as [[= <-]|?]; [by left|by right]. }
  split; [|done]. destruct (decide (sn_start s = Some m)) as [He|Hne]; split; rewrite ?Hst; rec_simpl; try done.
  - by intros _ _ _ x [= <-].
  - intros h Hin. right. by destruct (Hsent h Hin) as [[? ?]|?].
  - intros x [= <-]. by left.
Qed.

Lemma over_complete_handshake env x :
  env_ok env → x = token → holds_over shaking settled (complete_handshake config env x).
Proof.
  intros Henv ->. unfold complete_handshake. eapply over_bind; [apply over_relay_config|]. intros _.
  intros t s HS. wp_step. wp_step. destruct (ms_slot_start (tl_slot t)) as [m|] eqn:Hst.
  - eapply over_bind; [apply over_slot_start| |done]. intros _. apply over_each. intros id _.
    by apply over_forward_decoded.
  - wp_step. split; [done|]. destruct HS as (([p HI] & Hb) & Hcfg). split; [|done]. destruct HI. split; try done.
    by rewrite Hst.
Qed.

Lemma over_handle_merged_block env m p : holds_over (conn_inv p) (conn_inv p) (handle_merged_block env m).
Proof.
  intros t s HI. unfold handle_merged_block. destruct (te_enabled env); [|by wp_step]. cbn [negb]. wp_step. wp_step.
  destruct (_ || _); [by wp_step|]. destruct (merged_block_to_response _ _ _) as [r|]; [|by wp_step].
  destruct (negb _); [by wp_step|]. wp_step. wp_step. wp_step. split; [done|]. by destruct HI; split.
Qed.

Lemma over_disconnect_later x p : holds_over (conn_inv p) (conn_inv p) (disconnect_later x).
Proof. apply over_modify. intros t s []. by split. Qed.

Lemma over_on_message env payload :
  holds_over (conn_inv false) (conn_inv false) (on_message env token payload).
Proof.
  unfold on_message. destruct (header_decode payload) as [h|[]];
    [|apply over_disconnect_later|apply over_disconnect_later|apply over_ret].
  destruct (is_zstd_compressed h); [apply over_disconnect_later|].
  destruct (fh_msg_id h); try apply over_disconnect_later; try apply over_ret.
  - destruct (ack_from_ssz _) as [ack|]; [|apply over_disconnect_later].
    destruct (ak_ok ack); cbn [negb]; [|apply over_disconnect_later]. apply over_modify.
    intros t s [Hsent Hfresh Hreg Hst Hcfg Hsl Hord [Htok Hh] Hhy Hso]. split; rec_simpl; try done.
    + intros _ _. by destruct (tl_handshaken t).
    + intros _ _ Hn. by destruct (tl_handshaken t).
    + intros _ _ Hn. by destruct (tl_handshaken t).
    + split; [done|]. apply Forall_app. split; [done|]. by apply Forall_singleton.
  - destruct (ping_from_ssz _); [|apply over_ret]. apply over_modify. intros t s []. by split.
  - destruct (merged_from_ssz _) as [m|]; [|apply over_ret].
    eapply over_bind; [apply over_handle_merged_block|]. intros [r|]; [|apply over_ret].
    apply over_modify. intros t s []. by split.
  - destruct (reject_from_ssz _); [|apply over_ret]. apply over_modify. intros t s []. by split.
Qed.

(** Resetting the connection forgets what was sent. *)
Lemma conn_inv_reset p t s :
  conn_inv p t s → conn_inv p (t <| tl_conn ::= conn_reset |>) s.
Proof. intros []. split; rec_simpl; try done. Qed.

Lemma over_on_net_event env ev : holds_over (conn_inv false) (conn_inv false) (on_net_event env ev).
Proof.
  intros t s HI. unfold on_net_event. wp_step. wp_step. destruct (ci_token _ _ _ HI) as [Htok Hh]. rewrite Htok.
  destruct ev as [|x|x|x payload]; [by wp_step|case_bool_decide as Hx; [injection Hx as <-|by wp_step]..].
  - wp_step. split; [done|]. pose proof (conn_inv_reset false t s HI) as [].
    split; rec_simpl; try done. 
  - wp_step. split; [done|]. by apply conn_inv_reset.
  - by apply over_on_message.
Qed.

Lemma over_disconnects :
  holds_over (conn_inv false) (conn_inv false)
    (take_buffer tl_to_disconnect (λ t, t <| tl_to_disconnect := [] |>) (λ token,
      emit [TileDisconnect token] ;;
      modify (λ t : MergingTile,
        if bool_decide (tl_token t = Some token) then t <| tl_conn ::= conn_reset |> else t))).
Proof.
  apply over_get. intros t. eapply (over_bind _ (conn_inv false)).
  { apply over_modify. intros t' s [-> []]. by split. }
  intros _. apply over_each. intros x _. eapply over_bind; [by apply over_silent|]. intros _.
  apply over_modify. intros t' s HI. case_bool_decide; [by apply conn_inv_reset|done].
Qed.

(** Registering is sent on a fresh connection. *)
Lemma over_registers :
  holds_over (conn_inv false) (λ t s, conn_inv false t s ∧ tl_to_register t = [])
    (take_buffer tl_to_register (λ t, t <| tl_to_register := [] |>) (send_registration config)).
Proof.
  intros t s HI. unfold take_buffer. wp_step. wp_step. wp_step. wp_step.
  destruct (tl_to_register t) as [|x l] eqn:Hreg.
  { cbn [for_each]. wp_step. split; [done|]. split; [|done]. destruct HI as [H1 H2 H3 H4 H5 H6 H7 H8 H9 H10].
    rewrite Hreg in *. by split. }
  assert (∀ s', s' = s ∨ s' = sent_none → conn_inv false (t <| tl_to_register := [] |>) s') as Hinv.
  { intros s' Hs'. destruct HI as [_ H2 H3 _ _ H6 H7 H8 H9 H10]. rewrite Hreg in *.
    assert (cn_sent_txs (tl_conn t) = ∅) as He by (apply H2; by right).
    split; rec_simpl; rewrite ?He; try done.
    - intros Ha _ Hh. by destruct (H3 ltac:(done) Ha).
    - intros Ha _ Hh. by destruct (H3 ltac:(done) Ha).
    - destruct Hs' as [->| ->]; done. }
  eapply wp_mono; [apply (over_each (λ t' s', t' = t <| tl_to_register := [] |> ∧ (s' = s ∨ s' = sent_none))) with (s := s); [|by split; [|left]]|].
  { intros y _ t' s' [-> Hs']. unfold send_registration. wp_step. cbn. split; [done|]. split; [done|by right]. }
  intros _ t' o [Ho [-> Hs']]. split; [done|]. split; [by apply Hinv|done].
Qed.

Lemma over_handshakes env :
  env_ok env →
  holds_over (λ t s, conn_inv false t s ∧ tl_to_register t = []) settled
    (take_buffer tl_handshaken (λ t, t <| tl_handshaken := [] |>) (complete_handshake config env)).
Proof.
  intros Henv t s [HI Hreg]. unfold take_buffer. wp_step. wp_step. wp_step. wp_step.
  destruct (ci_token _ _ _ HI) as [Htok Hh]. destruct (tl_handshaken t) as [|x l] eqn:Hl.
  { cbn [for_each]. wp_step. split; [done|]. split; [|done]. destruct HI as [H1 H2 H3 H4 H5 H6 H7 H8 H9 H10].
    rewrite Hl in *. by split. }
  cbn [for_each]. inversion Hh as [|? ? Hx Hrest]; subst x.
  eapply (over_bind _ settled settled); [by apply over_complete_handshake| |].
  - intros _. apply over_each. intros y Hy. eapply over_weaken; [apply over_complete_handshake; [done|]|..|done].
    + by apply (proj1 (Forall_forall _ _) Hrest).
    + intros t' s' (? & ? & ?). split; [by exists false|done].
  - split; [|done]. exists true. destruct HI as [H1 H2 H3 H4 H5 H6 H7 H8 H9 H10]. rewrite Hreg in *.
    split; rec_simpl; rewrite ?Hreg; try done.
Qed.

Lemma over_pongs :
  holds_over settled settled
    (take_buffer tl_pongs (λ t, t <| tl_pongs := [] |>) (λ '(token, nonce), emit [TileSend token (MsgPong nonce)])).
Proof.
  apply over_get. intros t. eapply (over_bind _ settled).
  { apply over_modify. intros t' s [-> [[] ?]]. split; [|done]. by split. }
  intros _. apply over_each. intros [x n] _. by apply over_silent.
Qed.

Lemma over_rejects :
  holds_over settled settled
    (take_buffer tl_rejects (λ t, t <| tl_rejects := [] |>) (λ '(token, r), on_reject token r)).
Proof.
  apply over_get. intros t. eapply (over_bind _ settled).
  { apply over_modify. intros t' s [-> [[] ?]]. split; [|done]. by split. }
  intros _. apply over_each. intros [x r] _ t' s' HS. unfold on_reject. wp_step. wp_step.
  destruct (negb _); [by wp_step|]. wp_step. split; [done|]. destruct HS as [[H1 H2 H3 H4 H5 H6 H7 H8 H9 H10] Hb].
  split; [|done]. repeat case_bool_decide; cbn [orb]; try destruct (_ <? _); split; rec_simpl; done.
Qed.

Lemma over_poll_sockets env events :
  env_ok env → holds_over settled settled (poll_sockets config env events).
Proof.
  intros Henv. unfold poll_sockets. eapply (over_bind _ (conn_inv false)).
  { eapply over_weaken; [apply over_each; intros ev _; apply over_on_net_event|by intros t s []|done]. }
  intros _. eapply over_bind; [apply over_disconnects|]. intros _. eapply over_bind; [apply over_registers|].
  intros _. eapply over_bind; [by apply over_handshakes|]. intros _. eapply over_bind; [apply over_pongs|].
  intros _. apply over_rejects.
Qed.

(** ** Slots and turns *)

Lemma over_maybe_start_slot : holds_over settled settled maybe_start_slot.
Proof.
  intros t s HS. unfold maybe_start_slot. wp_step. wp_step.
  destruct (ms_slot_start (tl_slot t)) eqn:Hst; [by wp_step|].
  destruct (ms_fee_recipient (tl_slot t)) as [fee|]; [|by wp_step].
  destruct (hash_iter _) as [|[parent root] l]; [by wp_step|].
  destruct HS as [[H1 H2 H3 H4 H5 H6 H7 [Htok H8] H9 H10] [Hh Hr]]. rewrite Htok. set (m := mkSlotStartV1 _ _ _ _ _).
  assert (cn_sent_txs (tl_conn t) = ∅) as He by (apply H2; by left).
  destruct (cn_active (tl_conn t)) eqn:Ha; wp_step; wp_step; wp_step; cbn -[note_output].
  - assert (∀ m', sn_start s = Some m' → ss_slot m' < ms_bid_slot (tl_slot t)) as Hlt.
    { intros m' Hm'. by destruct (H7 m' Hm') as [?|?]; [congruence|]. }
    split; [split; [split; [by apply H5|]|done]; intros m' Hm'; right; by apply Hlt|].
    split; [|done]. unfold note_output. destruct (decide (sn_start s = Some m)) as [E|_].
    { specialize (Hlt m E). cbn in Hlt. lia. }
    split; rec_simpl; rewrite ?He, ?Ha; try done.
    all: try by intros _ _ _ x [= <-].
    all: try by intros x [= <-].
    all: try by intros x [= <-]; left.
    all: by intros _ _ _; apply H5.
  - split; [done|]. split; [|done]. split; rec_simpl; rewrite ?He, ?Ha; try done; [by intros ? [= <-]|].
    intros m' Hm'. right. by destruct (H7 m' Hm') as [?|?]; [congruence|].
Qed.

(** Nothing has been sent of a new slot. *)
Lemma settled_new_slot bid_slot t s :
  settled t s → ms_bid_slot (tl_slot t) < bid_slot →
  settled (t <| tl_slot := merge_slot_new bid_slot |> <| tl_conn ::= reset_slot |>
    <| tl_hydration_cache ::= clear |> <| tl_blob_sidecars := ∅ |> <| tl_merged_blocks := [] |>) s.
Proof.
  intros [[H1 H2 H3 H4 H5 H6 H7 H8 H9 H10] Hb] Hlt. destruct t. cbn in *. split; [|done].
  split; cbn; [done|done|done|done|done|done| |done|by apply clear_ok|done].
  intros m Hm. right. destruct (H7 m Hm) as [?%H6|?]; lia.
Qed.

(** An update only adds to what the slot knows of its proposer and parents. *)
Lemma settled_slot_info f t s :
  settled t s →
  ms_bid_slot (f (tl_slot t)) = ms_bid_slot (tl_slot t) → ms_slot_start (f (tl_slot t)) = ms_slot_start (tl_slot t) →
  ms_appendable (f (tl_slot t)) = ms_appendable (tl_slot t) →
  settled (t <| tl_slot ::= f |>) s.
Proof.
  intros [[H1 H2 H3 H4 H5 H6 H7 H8 H9 [H10 H11]] Hb] E1 E2 E3. split; [|done].
  split; rec_simpl; rewrite ?E1, ?E2; try done. split; rec_simpl; [done|]. by rewrite E1, E3.
Qed.

Lemma over_on_slot_msg ev : holds_over settled settled (on_slot_msg ev).
Proof.
  intros t s HS. unfold on_slot_msg. wp_step. wp_step. destruct (su_bid_slot ev <? _); [by wp_step|].
  eapply (over_bind (λ t' s', t' = t ∧ settled t' s') settled settled); [| |by split].
  { destruct (Z.ltb_spec (ms_bid_slot (tl_slot t)) (su_bid_slot ev)) as [Hlt|]; [|intros t' s' [_ ?]; by wp_step].
    apply over_modify. intros t' s' [-> ?]. by apply settled_new_slot. }
  intros _. eapply over_bind; [|intros _; apply over_maybe_start_slot].
  apply over_modify. intros t' s' ?. by apply settled_slot_info; [|destruct (su_registration_data ev)..].
Qed.

Lemma over_send_pings : holds_over settled settled send_pings.
Proof.
  unfold send_pings. eapply (over_bind _ settled).
  { apply over_modify. intros t' s' [[] Hb]. split; [|done]. by split. }
  intros _ t s HS. wp_step. wp_step. destruct (tl_token t); [|by wp_step].
  destruct (cn_active _); [|by wp_step]. by apply over_silent.
Qed.

Lemma over_tile_loop turn : env_ok (tt_env turn) → holds_over settled settled (tile_loop config turn).
Proof.
  intros Henv. unfold tile_loop. eapply over_bind; [by apply over_poll_sockets|]. intros _.
  eapply (over_bind _ settled).
  { apply over_get. intros t. eapply (over_bind _ settled).
    { apply over_modify. intros t' s [-> [[] ?]]. split; [|done]. by split. }
    intros _. apply over_each. intros id _. by apply over_silent. }
  intros _. eapply (over_bind _ settled); [destruct (tt_ping turn); [apply over_send_pings|apply over_ret]|].
  intros _. eapply over_bind; [apply over_each; intros ev _; apply over_on_slot_msg|].
  intros _. apply over_each. intros id _. by apply over_forward_decoded.
Qed.

Lemma over_tile_run turns :
  Forall (λ turn, env_ok (tt_env turn)) turns → holds_over settled settled (tile_run config turns).
Proof.
  induction turns as [|turn turns IH]; intros Henv; cbn [tile_run]; [apply over_ret|].
  inversion Henv; subst. eapply over_bind; [by apply over_tile_loop|]. intros _. by apply IH.
Qed.

Lemma settled_init : settled (tile_init token) sent_none.
Proof.
  split; [|done]. by split.
Qed.

Lemma over_run turns :
  Forall (λ turn, env_ok (tt_env turn)) turns →
  ∃ t outs, tile_run config turns (tile_init token) = Some (tt, t, outs) ∧ stream_ok sent_none outs ∧
    settled t (foldl note_output sent_none outs).
Proof.
  intros Hturns. pose proof (over_tile_run turns Hturns _ _ settled_init) as H. unfold wp in H.
  destruct (tile_run config turns (tile_init token)) as [[[[] t] outs]|]; [|done]. by exists t, outs.
Qed.

(** ** Merged blocks *)

Lemma push_blobs_spec sidecars hashes : ∀ b b',
  map_Forall (λ h x, calculate_versioned_hash (bm_commitment x) = h) sidecars →
  push_blobs sidecars hashes b = Some b' →
  calculate_versioned_hash <$> bb_commitments b' = (calculate_versioned_hash <$> bb_commitments b) ++ hashes.
Proof.
  induction hashes as [|h hashes IH]; intros b b' Hs; cbn.
  { intros [= <-]. by rewrite app_nil_r. }
  intros (x & Hx & H)%bind_Some. apply bind_Some in H as (b1 & Hb1 & H). rewrite (IH b1 b' Hs H).
  unfold push_blob in Hb1. destruct (_ <? _); [|done]. injection Hb1 as <-. cbn.
  rewrite fmap_app. cbn. by rewrite (Hs h x Hx), <- app_assoc.
Qed.

Lemma resolve_txs_spec sidecars txs : ∀ b b',
  map_Forall (λ h x, calculate_versioned_hash (bm_commitment x) = h) sidecars →
  resolve_txs sidecars txs b = Some b' →
  ∃ hashes, mapM tx_blob_hashes txs = Some hashes ∧
    calculate_versioned_hash <$> bb_commitments b' = (calculate_versioned_hash <$> bb_commitments b) ++ concat hashes.
Proof.
  induction txs as [|tx txs IH]; intros b b' Hs; cbn.
  { intros [= <-]. exists []. by rewrite app_nil_r. }
  intros (hs & Hh & H)%bind_Some. apply bind_Some in H as (b1 & Hb1 & H).
  destruct (IH b1 b' Hs H) as (hashes & Hm & Hc). exists (hs :: hashes). rewrite Hh, Hm. split; [done|].
  rewrite Hc, (push_blobs_spec _ _ _ _ Hs Hb1). cbn. by rewrite <- app_assoc.
Qed.

(** What the response to a merged block is made of. *)
Definition response_ok (m : MergedBlockV1) (max_blobs_per_block : Z) (r : BlockMergeResponse) : Prop :=
  mr_base_block_hash r = mv1_base_block_hash m ∧ mr_execution_payload r = mv1_execution_payload m ∧
  mr_proposer_value r = mv1_proposer_value m ∧
  (∃ hashes, mapM tx_blob_hashes (ep_transactions (mr_execution_payload r)) = Some hashes ∧
     calculate_versioned_hash <$> bb_commitments (mr_blobs_bundle r) = concat hashes) ∧
  blobs_validate_ssz_lengths (mr_blobs_bundle r) max_blobs_per_block = Ok tt ∧
  0 ≤ mr_base_payment_tx_index r ∧
  mr_base_payment_tx_index r + Z.of_nat (size (appended_tx_hashes (mr_builder_inclusions r))) + 2 =
    len (ep_transactions (mr_execution_payload r)).

Lemma merged_response_spec m sidecars max r :
  map_Forall (λ h x, calculate_versioned_hash (bm_commitment x) = h) sidecars →
  merged_block_to_response m sidecars max = Some r → response_ok m max r.
Proof.
  intros Hs. unfold merged_block_to_response, payload_from_v3, resolve_blobs_bundle.
  destruct (_ <? _); [done|]. destruct (_ <? _); [done|]. cbn [mbind option_bind].
  intros (b & Hb & H)%bind_Some. apply bind_Some in Hb as (b0 & Hb0 & Hb).
  destruct (blobs_validate_ssz_lengths b0 max) as [[]|] eqn:Hval; cbn in Hb; [injection Hb as <-|done].
  destruct (Z.ltb_spec (len (ep_transactions (mv1_execution_payload m)))
    (Z.of_nat (size (appended_tx_hashes (foldl (λ acc i, <[bn_origin_coinbase i := inclusion_result i]> acc) ∅
       (mv1_builder_inclusions m)))) + 2)); [done|].
  apply bind_Some in H as (req & _ & [= <-]). destruct (resolve_txs_spec _ _ _ _ Hs Hb0) as (hashes & Hm & Hc).
  split_and!; cbn; [done..|by exists hashes|done|lia|lia].
Qed.
End runs.

(** ** Theorems *)
Section theorems.
Context `{FX : FxHasher} `{ES : EthSpec} `{TH : TreeHash} `{HO : HashOrder} {KE : Keccak} {CO : MergeCodecs}
  {MC : MergingCodec} (config : TileConfig) (token : Token).

Definition turn_ok (turn : TileTurn) : Prop :=
  te_max_blobs_per_block (tt_env turn) ≤ max_blob_commitments_per_block ∧
  ∀ id d, te_decoded (tt_env turn) id = Some d → decoded_ok d.

(** The submissions the turns offer. *)
Definition offered_in (turns : list TileTurn) (d : DecodedSubmission) : Prop :=
  ∃ turn id, turn ∈ turns ∧ te_decoded (tt_env turn) id = Some d.

Lemma turns_ok turns :
  Forall turn_ok turns → Forall (λ turn, env_ok (offered_in turns) (tt_env turn)) turns.
Proof.
  rewrite !Forall_forall. intros Hok turn Hin. destruct (Hok turn Hin) as [Hmax Hd]. split; [done|].
  intros id d Hdec. split; [by apply (Hd id)|]. by exists turn, id.
Qed.

(** C13: The tile never panics, and it refers to a transaction by its hash only
    when the builder can know it: every block it sends goes out after the start
    of its slot, its orders are within it, and each hash in it is that of a
    transaction sent whole on the connection since, or earlier in the block, or
    that of a block of the slot the tile marked as sent but withheld. *)
Theorem references_sent_before turns :
  Forall turn_ok turns →
  ∃ t outs, tile_run config turns (tile_init token) = Some (tt, t, outs) ∧
    ∀ pre x m post, outs = pre ++ TileSend x (MsgMergeableBlock m) :: post →
      let s := foldl note_output sent_none pre in
      (∃ start, sn_start s = Some start ∧ ss_slot start = fb_slot m) ∧
      Forall (λ r, ref_typed r ∧ ref_validate r (len (block_entries m)) = true) (fb_merge_orders m) ∧
      refs_known (λ h, h ∈ sn_known s ∨ (fb_slot m, h) ∈ sn_withheld s) (block_entries m).
Proof.
  intros Hturns. destruct (over_run config token _ turns (turns_ok turns Hturns)) as (t & outs & Hrun & Hok & _).
  exists t, outs. split; [done|]. intros pre x m post ->. apply stream_ok_app in Hok as [_ [Hb _]]. exact Hb.
Qed.

(** C14: A merged block is taken only while merging is enabled, for the slot of
    the tile, on a base that a submission offered for the slot allows to append
    to, and with everything it needs: the commitments of its bundle are those its
    transactions name, in order and as many as allowed, the payment of the base
    is where the response says, and, when no transaction was appended twice,
    every appended transaction of an order the builder was sent is part of one
    such order that was kept whole. *)
Theorem accepted_blocks_checked turns env m :
  Forall turn_ok turns →
  ∃ t outs r t', tile_run config turns (tile_init token) = Some (tt, t, outs) ∧
    handle_merged_block env m t = Some (r, t', []) ∧
    ∀ a, r = Some a →
      te_enabled env = true ∧ mv1_slot m = ms_bid_slot (tl_slot t) ∧
      appendable_source (offered_in turns) (mv1_slot m) (mv1_base_block_hash m) ∧
      response_ok m (te_max_blobs_per_block env) (ma_response a) ∧
      let final := appended_txs (ma_response a) in
      NoDup final → ∀ h o, h ∈ final → o ∈ ms_order_txs (tl_slot t) → h ∈ ox_hashes o →
        ∃ o', o' ∈ ms_order_txs (tl_slot t) ∧ h ∈ ox_hashes o' ∧ honoured o' final.
Proof.
  intros Hturns. destruct (over_run config token _ turns (turns_ok turns Hturns)) as (t & outs & Hrun & _ & HS).
  destruct HS as [HI _]. destruct (ci_sources _ _ _ _ _ HI) as [Hside Happ].
  assert (∃ r t', handle_merged_block env m t = Some (r, t', []) ∧ ∀ a, r = Some a →
    te_enabled env = true ∧ mv1_slot m = ms_bid_slot (tl_slot t) ∧ mv1_base_block_hash m ∈ ms_appendable (tl_slot t) ∧
    merged_block_to_response m (tl_blob_sidecars t) (te_max_blobs_per_block env) = Some (ma_response a) ∧
    find_unbundled_txs (appended_txs (ma_response a)) (ms_order_txs (tl_slot t)) = []) as (r & t' & Hrt & Ha).
  { unfold handle_merged_block, mret, comp_ret, mbind, comp_bind, get. destruct (te_enabled env); [|by eexists _, _].
    cbn [negb]. destruct (Z.eqb_spec (mv1_slot m) (ms_bid_slot (tl_slot t))); cbn [negb orb]; [|by eexists _, _].
    case_bool_decide; cbn [negb]; [|by eexists _, _].
    destruct (merged_block_to_response _ _ _) as [resp|]; [|by eexists _, _].
    case_bool_decide; cbn [negb]; [|by eexists _, _]. eexists _, _. split; [done|]. intros a [= <-]. done. }
  exists t, outs, r, t'. split_and!; [done..|]. intros a Har. destruct (Ha a Har) as (H1 & H2 & H3 & H4 & H5).
  split_and!; [done..|rewrite H2; by apply Happ|by eapply merged_response_spec|].
  intros final Hnd h o Hh Ho Hox. destruct (find_unbundled_exact final (ms_order_txs (tl_slot t)) Hnd) as [_ Hex].
  destruct (decide (Exists (λ o', h ∈ ox_hashes o' ∧ is_satisfied o' (positions_of final) = true) (ms_order_txs (tl_slot t))))
    as [(o' & Ho' & Hin & Hsat)%Exists_exists|Hno].
  - exists o'. split_and!; [done..|]. by apply is_satisfied_spec.
  - assert (h ∈ find_unbundled_txs final (ms_order_txs (tl_slot t))) as Hbad.
    { apply Hex. split_and!; [done|by exists o|]. intros o' Ho' Hin Hsat. apply Hno, Exists_exists. exists o'.
      split_and!; [done..|]. by apply is_satisfied_spec. }
    unfold final in Hbad. rewrite H5 in Hbad. by apply elem_of_nil in Hbad.
Qed.
End theorems.

(** ** Examples *)

Definition ex_merge_codecs : MergeCodecs := {|
  tx_blob_hashes := λ _, Some [];
  calculate_versioned_hash := λ c, c;
  request_lengths := λ _, (0, 0, 0);
  max_requests := (1, 1, 1);
  max_withdrawals_per_payload := 16
|}.

(** A builder whose every ack allows ten orders and large frames. *)
Definition ex_merging_codec : MergingCodec := {|
  registration_from_ssz := λ _, None;
  ack_from_ssz := λ _, Some (mkMergerAckV1 MERGING_PROTOCOL_VERSION true 10 100000);
  ping_from_ssz := λ _, None;
  relay_config_from_ssz := λ _, None;
  slot_start_from_ssz := λ _, None;
  slot_end_from_ssz := λ _, None;
  mergeable_from_ssz := λ _, None;
  merged_from_ssz := λ _, None;
  reject_from_ssz := λ _, None;
  mergeable_to_ssz := λ m, concat (block_entries m)
|}.

Definition ex_tile_config : TileConfig := mkTileConfig [] 0 (mkRelayConfigV1 1 2 0 5000 4000 0 []).

(** A full submission of builder 7 that may be appended to, with one order per
    transaction. *)
Definition ex_decoded (hash : B256) (txs : list Bytes) : DecodedSubmission :=
  let trace := mkBidTrace 5 100 hash 7 3 4 30 20 10 in
  let payload := (ex_payload txs []) <| ep_block_hash := hash |> <| ep_parent_hash := 100 |> in
  mkDecodedSubmission
    (mkSubmissionData 1 (ref_http 1)
       (Full (SFulu (mkSignedBidSubmissionFulu trace payload (mkBlobsBundle [] [] []) [] 0)))
       None (mkSubmissionVersion 1 None) None (mkSubmissionTrace 1 2 3) Fulu false)
    (Some (allow_all 8 (length txs))).

Definition ex_tile_env : TileEnv :=
  mkTileEnv true 50 6 (λ id, [ex_decoded 11 [ex_tx 1]; ex_decoded 12 [ex_tx 1; ex_tx 2]] !! id).

Definition ex_slot_update : SlotUpdate :=
  mkSlotUpdate 5
    (Some (mkDutyEntry 5 1 (mkValidatorRegistrationInfo
       (mkSignedValidatorRegistration (mkValidatorRegistrationData 9 30 1 3) 0)
       (mkValidatorPreferences Global None false None false false None))))
    [mkPayloadAttributesUpdate 5 100 0 (mkPayloadAttributes 0 0 [] (Some 70))] None.

Definition ex_ack : NetEvent := NetMessage 1 (append_encoded (header_new IdMergerAckV1)).

Local Abbreviation ex_tile_run turns :=
  (tile_run (FX := ex_hash) (ES := mainnet) (TH := ex_roots) (HO := list_order) (CO := ex_merge_codecs)
    (MC := ex_merging_codec) ex_tile_config turns (tile_init 1)) (only parsing).

(** The entries of the blocks sent. *)
Definition sent_entries (outs : list TileOutput) : list (list Bytes) :=
  omap (λ out, match out with TileSend _ (MsgMergeableBlock m) => Some (block_entries m) | _ => None end) outs.

Definition ex_good_turns : list TileTurn :=
  [mkTileTurn ex_tile_env [NetConnected 1; ex_ack] false [ex_slot_update] [0%nat; 1%nat]].

Lemma ex_turn_ok events slots ids :
  turn_ok (ES := mainnet) (mkTileTurn ex_tile_env events false slots ids).
Proof.
  split; [done|]. intros [|[|id]] d; [intros [= <-]..|done].
  all: split; [split; [exists 6; by vm_compute|apply (bool_decide_unpack _); by vm_compute]|].
  all: apply (bool_decide_unpack _); by vm_compute.
Qed.

(** The fifth output is a block, and the last. *)
Definition fifth_block (test : MergeableBlockV1 → bool) (outs : list TileOutput) : bool :=
  match outs with [_; _; _; _; TileSend _ (MsgMergeableBlock m)] => test m | _ => false end.

Lemma fifth_block_inv test outs :
  fifth_block test outs = true →
  ∃ o1 o2 o3 o4 x m, outs = [o1; o2; o3; o4] ++ [TileSend x (MsgMergeableBlock m)] ∧ test m = true.
Proof.
  destruct outs as [|o1 [|o2 [|o3 [|o4 [|[x [| | |m| |]| | |] [|]]]]]]; try discriminate.
  intros Ht. by exists o1, o2, o3, o4, x, m.
Qed.

Lemma ex_good_run :
  (λ r, fifth_block (λ m, bool_decide (block_entries m = [b256_bytes (keccak256 (ex_tx 1)); ex_tx 2])) r.2)
    <$> ex_tile_run ex_good_turns = Some true.
Proof. vm_compute. reflexivity. Qed.

Lemma references_sent_before_witness :
  ∃ t pre x m, ex_tile_run ex_good_turns = Some (tt, t, pre ++ [TileSend x (MsgMergeableBlock m)]) ∧
    block_entries m = [b256_bytes (keccak256 (ex_tx 1)); ex_tx 2] ∧
    let s := foldl note_output sent_none pre in
    refs_known (λ h, h ∈ sn_known s ∨ (fb_slot m, h) ∈ sn_withheld s) (block_entries m).
Proof.
  destruct (references_sent_before (FX := ex_hash) (ES := mainnet) (TH := ex_roots) (HO := list_order)
    (CO := ex_merge_codecs) (MC := ex_merging_codec) ex_tile_config 1 ex_good_turns)
    as (t & outs & Hrun & Href); [apply Forall_singleton, ex_turn_ok|].
  pose proof ex_good_run as Hc. rewrite Hrun in Hc |- *. cbn [fmap option_fmap option_map snd] in Hc.
  apply (inj Some), fifth_block_inv in Hc as (o1 & o2 & o3 & o4 & x & m & -> & Hm%bool_decide_eq_true).
  exists t, [o1; o2; o3; o4], x, m. split; [reflexivity|]. split; [exact Hm|].
  apply (Href [o1; o2; o3; o4] x m []). reflexivity.
Defined.

(** A submission that is decoded between the connection and the builder's
    acknowledgement is marked as sent, though nothing is sent; the replay after
    the acknowledgement then sends its block with a hash in place of the
    transaction, which the builder was never sent. *)
Theorem replay_sends_unknown_reference :
  (λ r, (sent_entries r.2, sn_known (foldl note_output sent_none r.2))) <$>
    ex_tile_run [mkTileTurn ex_tile_env [NetConnected 1] false [ex_slot_update] [0%nat];
                 mkTileTurn ex_tile_env [ex_ack] false [] []] =
  Some ([[b256_bytes (keccak256 (ex_tx 1))]], ∅).
Proof. vm_compute. reflexivity. Qed.

(** Two submissions that share a block merge into one response. *)
Definition ex_merged_block (base : B256) : MergedBlockV1 :=
  mkMergedBlockV1 5 0 base 7 (ex_payload [ex_tx 1; ex_tx 2; ex_tx 3] []) [] 40 1 1
    [mkBuilderInclusion 7 8 5 4 [keccak256 (ex_tx 2)]] [] (mkMergeTraceV1 1 2 3 4).

Lemma ex_accepted_index :
  (ex_tile_run ex_good_turns ≫= λ run,
    handle_merged_block (ES := mainnet) (HO := list_order) (CO := ex_merge_codecs) ex_tile_env (ex_merged_block 11) run.1.2 ≫= λ res,
    res.1.1 ≫= λ a, Some (mr_base_payment_tx_index (ma_response a))) = Some 0.
Proof. vm_compute. reflexivity. Qed.

Lemma accepted_blocks_checked_witness :
  ∃ t outs a t', ex_tile_run ex_good_turns = Some (tt, t, outs) ∧
    handle_merged_block (ES := mainnet) (HO := list_order) (CO := ex_merge_codecs) ex_tile_env (ex_merged_block 11) t =
      Some (Some a, t', []) ∧
    response_ok (HO := list_order) (CO := ex_merge_codecs) (ES := mainnet) (ex_merged_block 11) 6 (ma_response a) ∧
    mr_base_payment_tx_index (ma_response a) = 0.
Proof.
  destruct (accepted_blocks_checked (FX := ex_hash) (ES := mainnet) (TH := ex_roots) (HO := list_order)
    (CO := ex_merge_codecs) (MC := ex_merging_codec) ex_tile_config 1 ex_good_turns ex_tile_env (ex_merged_block 11))
    as (t & outs & r & t' & Hrun & Hh & Ha); [apply Forall_singleton, ex_turn_ok|].
  pose proof ex_accepted_index as Hc. rewrite Hrun in Hc. cbn [mbind option_bind fst snd] in Hc. rewrite Hh in Hc.
  cbn [mbind option_bind fst snd] in Hc. destruct r as [a|]; [|discriminate Hc]. apply (inj Some) in Hc.
  destruct (Ha a eq_refl) as (_ & _ & _ & Hr & _). exists t, outs, a, t'. split_and!; [exact Hrun|exact Hh|exact Hr|exact Hc].
Defined.
