(* ===== verification/MergeLink.v ===== *)
(** * The relay and the merging builder

    The messages of the relay's merging tile, delivered in order to the merge
    engine of the builder: the events of [crates/builder/src/server/mod.rs] for
    the frames [crates/relay/src/block_merging/tile.rs] sends. *)

From S2P Require Import Prelude Types Submission Rlp MergeTrie MergeOrders MergeWire Hydration LocalCache Payload Housekeeper MergingTile MergingRuns MergePool MergeEngine.

(** ** Delivery

    An output of the relay, when and under which blacklist the builder sees it,
    and the turns of work it does next. *)
Record Delivery := mkDelivery {
  dv_out : TileOutput;
  dv_recv_ns : u64;
  dv_blacklist : gset Address;
  dv_work : list Work
}.

(** A registration opens a generation, and what follows it is of that. *)
Definition deliver (g : u64) (d : Delivery) : u64 * list EngineOp :=
  match dv_out d with
  | TileSend _ (MsgRegistration _) => (g + 1, [OpEvent (g + 1) EvConnectionReset])
  | TileSend _ (MsgRelayConfig c) => (g, [OpEvent g (EvRelayConfig (Some c))])
  | TileSend _ (MsgSlotStart m) => (g, [OpEvent g (EvSlotStart (Some m) (dv_blacklist d))])
  | TileSend _ (MsgMergeableBlock m) => (g, [OpEvent g (EvMergeableBlock (Some m) (dv_recv_ns d))])
  | _ => (g, [])
  end.

Fixpoint link_ops (g : u64) (ds : list Delivery) : list EngineOp :=
  match ds with
  | [] => []
  | d :: ds => let '(g, ops) := deliver g d in ops ++ (OpWork <$> dv_work d) ++ link_ops g ds
  end.

(** ** A block that fits the pool *)
Section fits.
Context {KE : Keccak} {CT : CanonicalTx}.

(** Every entry sent whole can be decoded. *)
Definition decodable (txs : list Bytes) : Prop :=
  Forall (λ b, is_tx_hash_ref b = false → plain b) txs.

Lemma resolvable_intro txs : ∀ held : B256 → Prop,
  decodable txs → refs_known held txs → resolvable held txs.
Proof.
  induction txs as [|tx txs IH]; intros held Hd Hr pre b post E; [by destruct pre|].
  inversion Hd as [|? ? Htx Hrest]; subst. cbn [refs_known] in Hr. destruct pre as [|x pre]; cbn in E.
  - injection E as -> ->. destruct (is_tx_hash_ref b); [|by apply Htx]. left. by destruct Hr.
  - injection E as -> ->. destruct (is_tx_hash_ref x) eqn:Ex.
    + destruct Hr as [_ Hr]. specialize (IH held Hrest Hr pre b post eq_refl).
      destruct (is_tx_hash_ref b); [|done]. destruct IH as [?|(y & ? & ?)]; [by left|right].
      exists y. split; [by right|done].
    + specialize (IH _ Hrest Hr pre b post eq_refl). destruct (is_tx_hash_ref b); [|done].
      destruct IH as [[?|Hx]|(y & ? & ?)]; [by left| |]; right.
      * exists x. split_and!; [by left|by apply Htx|done].
      * exists y. split; [by right|done].
Qed.

Lemma decodable_small txs : decodable txs → existsb (λ b, MAX_TX_BYTES <? len b) txs = false.
Proof.
  induction 1 as [|b txs Hb _ IH]; [done|]. cbn [existsb]. rewrite IH, orb_false_r. apply Z.ltb_ge.
  destruct (is_tx_hash_ref b) eqn:E; [|by destruct (Hb eq_refl)].
  unfold is_tx_hash_ref in E. apply Z.eqb_eq in E. rewrite E. done.
Qed.

Context (max_blocks max_orders : Z).

(** What a block that the pool does not turn away at once leaves: its
    transactions are held, whatever becomes of its orders, and it is refused
    only for its parent or for its orders. *)
Definition taken (m : MergeableBlockV1) (p p' : Pool) (r : Result Added Reject) : Prop :=
  (∀ h, holds p h ∨ h ∈ whole_hashes (block_txs m) → holds p' h) ∧
  (∀ h, h ∈ pl_block_hashes p' → h = block_hash_of m ∨ h ∈ pl_block_hashes p) ∧
  match r with
  | Ok a => ∀ j, ad_orders_dropped a = Some j → re_code j = LimitExceeded
  | Err j => re_code j = HeadMismatch ∨ re_code j = LimitExceeded
  end.

Lemma holds_txs p h : table_ok p → holds p h ↔ h ∈ px_hash <$> pl_txs p.
Proof.
  intros Ht. unfold holds. rewrite list_elem_of_fmap. split.
  - intros [i (tx & Hi & Hh)%(table_by_hash _ Ht)]. exists tx. split; [done|by eapply list_elem_of_lookup_2].
  - intros (tx & Hh & [i Hi]%list_elem_of_lookup). exists i. apply (table_by_hash _ Ht). by exists tx.
Qed.

Lemma add_block_dropped m recv p a p' j :
  add_block m recv max_orders p = Some (a, p') → ad_orders_dropped a = Some j → re_code j = LimitExceeded.
Proof.
  unfold add_block. destruct (submitter_index m p) as [i p1]. intros ([full p2] & _ & H)%bind_Some.
  destruct (fb_allow_appending m); injection H as <- _; cbn; destruct full; by intros [= <-].
Qed.

Lemma pool_add_fits log m recv p parent :
  pool_inv max_blocks max_orders log p → 0 ≤ max_orders →
  Forall (λ r, ref_typed r ∧ ref_validate r (len (block_txs m)) = true) (fb_merge_orders m) →
  block_hash_of m ∉ pl_block_hashes p → Z.of_nat (size (pl_block_hashes p)) < Z.min max_blocks u16_max →
  len (block_txs m) ≤ MAX_BLOCK_TXS → decodable (block_txs m) → refs_known (holds p) (block_txs m) →
  ∃ r p', pool_add (Some m) recv (fb_slot m) parent max_blocks max_orders p = Some (r, p') ∧ taken m p p' r.
Proof.
  intros HI Hmax Hrefs Hnew Hroom Hlen Hdec Hres%resolvable_intro; [|done].
  unfold pool_add. rewrite Z.eqb_refl. cbn [negb]. rewrite bool_decide_false by done.
  destruct (Z.leb_spec (Z.min max_blocks u16_max) (Z.of_nat (size (pl_block_hashes p)))); [lia|].
  change (ep_transactions (fb_execution_payload m)) with (block_txs m).
  destruct (Z.ltb_spec MAX_BLOCK_TXS (len (block_txs m))); [lia|].
  set (p0 := p <| pl_submission_txs := [] |>).
  pose proof (insert_loop_spec (block_txs m) None false p0 ltac:(by destruct (pi_table _ _ _ _ HI); split)) as Hl.
  destruct (foldl _ _ _) as [[failed over] p1].
  destruct Hl as (Ht1 & Ho1 & Hp1 & -> & _ & (added & Ha & _ & Hpts) & Hheld & Hok).
  rewrite (decodable_small _ Hdec) in *. cbn [orb] in *. specialize (Hok eq_refl Hres). subst failed.
  specialize (Hpts eq_refl eq_refl). cbn in Ha. rewrite <- Ha in Hpts.
  assert (pool_inv max_blocks max_orders log p1) as HI1 by (eapply pool_inv_table; done).
  assert (pl_block_hashes p1 = pl_block_hashes p) as Eh.
  { unfold order_part in Ho1. by injection Ho1 as _ _ _ _ _ -> _ _ _. }
  assert (∀ h, holds p h ∨ h ∈ whole_hashes (block_txs m) → holds p1 h) as Hh1.
  { intros h Hh. apply Hheld. destruct Hh as [?|Hh]; [by left|right].
    apply list_elem_of_fmap in Hh as (b & -> & [Hb Hin]%list_elem_of_filter). exists b. split_and!; [done| |done].
    by apply (proj1 (Forall_forall _ _) Hdec b). }
  assert (∀ j, re_code j = HeadMismatch ∨ re_code j = LimitExceeded → taken m p p1 (Err j)) as Hrej.
  { intros j Hj. split_and!; [done|rewrite Eh; by right|done]. }
  destruct (negb _); [eexists _, _; split; [done|]; apply Hrej; by left|].
  destruct (MAX_ORDERS_PER_BLOCK <? _); [eexists _, _; split; [done|]; apply Hrej; by right|].
  assert (len (pl_submission_txs p1) = len (block_txs m)) as El by (unfold len; by rewrite (Forall2_length _ _ _ Hpts)).
  rewrite El. destruct (existsb _ _) eqn:Ev.
  { apply existsb_elem in Ev as (r & Hr & Hv). rewrite Forall_forall in Hrefs. by rewrite (proj2 (Hrefs r Hr)) in Hv. }
  destruct (add_block_spec max_blocks max_orders log m p1 recv HI1 Hmax) as (res & p' & Hrun & HI' & Htx & _).
  { by rewrite Eh. }
  { rewrite (pi_hashes _ _ _ _ HI), (size_list_to_set _ (pi_nodup _ _ _ _ HI)), length_fmap in Hroom. unfold len. lia. }
  { done. }
  { by rewrite El. }
  rewrite Hrun. cbn [mbind option_bind]. eexists _, _. split; [reflexivity|]. split_and!.
  - intros h Hh%Hh1. rewrite holds_txs in Hh |- * by done || apply HI'. by rewrite Htx.
  - intros h. rewrite (pi_hashes _ _ _ _ HI'), (pi_hashes _ _ _ _ HI), !elem_of_list_to_set, fmap_app, elem_of_app.
    cbn. rewrite list_elem_of_singleton. tauto.
  - intros j. by eapply add_block_dropped.
Qed.
End fits.

(** ** What the engine keeps *)
Section link.
Context {KE : Keccak} {CT : CanonicalTx} (config : EngineConfig).
Abbreviation Engine := (Comp MergeEngine EngineOutput) (only parsing).

(** Working leaves the slot and the pool as they are, and rejects nothing. *)
Definition same_slot (e e' : MergeEngine) : Prop :=
  en_generation e' = en_generation e ∧ en_slot e' = en_slot e ∧ en_pool e' = en_pool e ∧
  en_relay e' = en_relay e ∧ en_next_relay e' = en_next_relay e.

Definition works {A} (m : Engine A) : Prop :=
  ∀ e a e' o, m e = Some (a, e', o) → same_slot e e' ∧ ∀ g r, OutReject g r ∉ o.

Lemma works_ret {A} (a : A) : works (mret a).
Proof. intros e a' e' o [= <- <- <-]. split; [done|]. intros g r. apply not_elem_of_nil. Qed.

Lemma works_bind {A B} (m : Engine A) (k : A → Engine B) : works m → (∀ a, works (k a)) → works (m ≫= k).
Proof.
  intros Hm Hk e b e' o. unfold mbind, comp_bind. destruct (m e) as [[[a e1] o1]|] eqn:E1; [|done].
  destruct (k a e1) as [[[b2 e2] o2]|] eqn:E2; [|done]. intros [= <- <- <-].
  destruct (Hm _ _ _ _ E1) as [(A1 & A2 & A3 & A4 & A5) O1]. destruct (Hk _ _ _ _ _ E2) as [(B1 & B2 & B3 & B4 & B5) O2].
  split; [split_and!; congruence|]. intros g r [?%O1|?%O2]%elem_of_app; done.
Qed.

Lemma works_get {A} (k : MergeEngine → Engine A) : (∀ e, works (k e)) → works (e ← get; k e).
Proof. intros Hk. apply works_bind; [|done]. intros e a e' o [= <- <- <-]. split; [done|]. intros g r. apply not_elem_of_nil. Qed.

Lemma works_modify f : (∀ e, same_slot e (f e)) → works (modify f).
Proof. intros Hf e a e' o [= <- <- <-]. split; [done|]. intros g r. apply not_elem_of_nil. Qed.

Lemma works_panic {A} : works (panic : Engine A).
Proof. by intros e a e' o. Qed.

Lemma works_on_merger i f : works (on_merger i f).
Proof. by apply works_modify. Qed.

Lemma works_drop_base i top : works (drop_base i top).
Proof. apply works_get. intros e. case_match; [by apply works_modify|apply works_panic]. Qed.

Lemma works_extend i warming w : works (extend_and_emit i warming w).
Proof.
  apply works_get. intros e. case_match; [|apply works_panic]. case_match; [apply works_ret|].
  apply works_bind; [apply works_on_merger|]. intros _. apply works_bind; [|intros _; apply works_ret].
  case_match; [apply works_on_merger|]. case_match; [|apply works_ret|apply works_on_merger].
  unfold emit_merged. apply works_get. intros e1. repeat case_match; try apply works_panic.
  intros e2 a e' o [= <- <- <-]. split; [done|]. intros g r. by rewrite list_elem_of_singleton.
Qed.

Lemma works_do_work w : works (do_work config w).
Proof.
  unfold do_work. apply works_get. intros e. case_match; [|apply works_ret]. case_match; [|apply works_ret].
  case_match; [|apply works_panic]. case_match; [|apply works_ret]. case_match. case_match.
  { apply works_bind; [apply works_drop_base|]. intros _. apply works_ret. }
  apply works_bind; [by apply works_modify|]. intros _. case_match; [|apply works_panic]. case_match.
  case_match; [apply works_extend|]. case_match.
  - apply works_bind; [apply works_on_merger|]. intros _. apply works_extend.
  - apply works_bind; [apply works_drop_base|]. intros _. apply works_ret.
  - apply works_bind; [apply works_on_merger|]. intros _. apply works_bind; [apply works_drop_base|]. intros _. apply works_ret.
Qed.

Lemma works_store_base base : works (store_base config base).
Proof.
  unfold store_base. apply works_get. intros e. case_match.
  - case_match; [by apply works_modify|apply works_panic].
  - case_match; [|apply works_ret]. apply works_bind; [by apply works_modify|]. intros _.
    case_match; [by apply works_modify|apply works_panic].
Qed.

Lemma wp_works {A} (m : Engine A) (Q : A → MergeEngine → list EngineOutput → Prop) e :
  works m → wp m Q e → wp m (λ a e' o, Q a e' o ∧ same_slot e e' ∧ ∀ g r, OutReject g r ∉ o) e.
Proof.
  intros Hw. unfold wp. destruct (m e) as [[[a e'] o]|] eqn:E; [|done]. intros HQ. split; [done|]. by apply Hw in E.
Qed.

(** ** The engine against what the relay has sent

    [bs] are the blocks sent since the slot start. *)
Abbreviation inv := (engine_inv config (λ _, True)).

Record linked (s : Sent) (bs : list MergeableBlockV1) (g : u64) (e : MergeEngine) : Prop := mk_linked {
  ln_engine : inv e;
  ln_generation : en_generation e = g;
  ln_slot : en_slot e = sn_start s;
  ln_relay : sn_config s = true → is_Some (en_relay e) ∨ is_Some (en_next_relay e);
  ln_withheld : sn_withheld s = ∅;
  ln_known : ∀ h, h ∈ sn_known s → holds (en_pool e) h;
  ln_blocks : ∀ h, h ∈ pl_block_hashes (en_pool e) → h ∈ block_hash_of <$> bs
}.

(** Rejects that say nothing of the transactions of a block. *)
Definition mild (o : list EngineOutput) : Prop :=
  ∀ g r, OutReject g r ∈ o → rj_code r = HeadMismatch ∨ rj_code r = LimitExceeded.

Lemma mild_nil : mild [].
Proof. by intros g r ?%elem_of_nil. Qed.
Lemma mild_app o o' : mild o → mild o' → mild (o ++ o').
Proof. intros H H' g r [?|?]%elem_of_app; eauto. Qed.
Lemma mild_one g r : rj_code r = HeadMismatch ∨ rj_code r = LimitExceeded → mild [OutReject g r].
Proof. intros Hr g' r' [= -> ->]%list_elem_of_singleton. done. Qed.

Lemma no_hashes e h : inv e → en_slot e = None → h ∉ pl_block_hashes (en_pool e).
Proof. intros [Hs _ _] Hn. rewrite Hn in Hs. destruct Hs as [-> _]. cbn. set_solver. Qed.

Lemma linked_work w s bs g e :
  linked s bs g e → wp (do_work config w) (λ _ e' o, linked s bs g e' ∧ mild o) e.
Proof.
  intros [H1 H2 H3 H4 H5 H6 H7]. eapply wp_mono; [apply wp_works; [apply works_do_work|by apply do_work_spec]|].
  intros r e' o ((HI & _) & (E1 & E2 & E3 & E4 & E5) & Ho). split; [|intros g' r' Hin; by apply Ho in Hin].
  split; rewrite ?E1, ?E2, ?E3, ?E4, ?E5; done.
Qed.

(** A generation that is current changes nothing by itself. *)
Lemma current_event ev Q e :
  wp (match ev with
      | EvConnectionReset | EvRelayConfig None | EvSlotStart None _ => mret tt
      | EvRelayConfig (Some c) => modify (λ e : MergeEngine, e <| en_next_relay := Some c |>)
      | EvSlotStart (Some msg) blacklist => start_slot msg blacklist
      | EvSlotEnd slot =>
          e ← get;
          if match en_slot e with Some s => ss_slot s =? slot | None => false end then end_slot else mret tt
      | EvMergeableBlock body recv_ns => on_block config body recv_ns
      end) Q e →
  wp (apply_event config (en_generation e) ev) Q e.
Proof.
  intros H. unfold apply_event. wp_step. wp_step. rewrite Z.ltb_irrefl. wp_step. wp_step. cbn [app].
  destruct ev as [|[c|]|[msg|] bl|slot|body recv]; try done. wp_step. wp_step. rewrite Z.eqb_refl. done.
Qed.

Lemma linked_registration s bs g e :
  linked s bs g e → wp (apply_event config (g + 1) EvConnectionReset) (λ _ e' o, linked sent_none [] (g + 1) e' ∧ mild o) e.
Proof.
  intros [H1 H2 H3 H4 H5 H6 H7]. unfold apply_event. wp_step. wp_step. rewrite H2.
  destruct (Z.ltb_spec g (g + 1)); [|lia]. wp_step. wp_step. wp_step.
  eapply wp_mono; [apply (end_slot_spec config (λ _, True) (λ _, True)); by destruct H1; split|].
  intros _ e' o (HI & Hn & -> & Hg & _). wp_step. rec_simpl. split; [|apply mild_nil].
  split; try done. intros h Hh. by apply no_hashes in Hh.
Qed.

Lemma linked_config c s bs g e :
  linked s bs g e →
  wp (apply_event config g (EvRelayConfig (Some c))) (λ _ e' o, linked (s <| sn_config := true |>) bs g e' ∧ mild o) e.
Proof.
  intros [H1 <- H3 H4 H5 H6 H7]. apply current_event. wp_step. split; [|apply mild_nil].
  split; rec_simpl; try done; [by destruct H1; split|]. intros _. right. by eexists.
Qed.

Definition blocks_after (s : Sent) (bs : list MergeableBlockV1) (out : TileOutput) : list MergeableBlockV1 :=
  match out with
  | TileSend _ (MsgRegistration _) => []
  | TileSend _ (MsgSlotStart m) => if decide (sn_start s = Some m) then bs else []
  | TileSend _ (MsgMergeableBlock m) => bs ++ [m]
  | _ => bs
  end.

Lemma linked_start x m bl s bs g e :
  linked s bs g e → start_ok s m →
  wp (apply_event config g (EvSlotStart (Some m) bl)) (λ _ e' o,
    linked (note_output s (TileSend x (MsgSlotStart m))) (blocks_after s bs (TileSend x (MsgSlotStart m))) g e' ∧ mild o) e.
Proof.
  intros [H1 <- H3 H4 H5 H6 H7] [Hcfg Hord]. apply current_event. cbn [note_output blocks_after].
  unfold start_slot. wp_step. wp_step. rewrite H3. destruct (decide (sn_start s = Some m)) as [E|Hne].
  { rewrite E, !Z.eqb_refl, orb_true_r. wp_step. split; [|apply mild_nil]. by split. }
  assert (match sn_start s with
          | Some slot => (ss_slot m <? ss_slot slot) || ((ss_slot m =? ss_slot slot) && (ss_parent_hash m =? ss_parent_hash slot))
          | None => false end = false) as ->.
  { destruct (sn_start s) as [m'|]; [|done]. destruct (Hord m' eq_refl) as [->|Hlt]; [done|].
    destruct (Z.ltb_spec (ss_slot m) (ss_slot m')), (Z.eqb_spec (ss_slot m) (ss_slot m')); lia || done. }
  wp_step. eapply wp_mono; [by apply (end_slot_spec config (λ _, True) (λ _, True))|].
  intros _ e1 o1 (HI & Hn & -> & Hg & Hr & Hnr). wp_step. wp_step. wp_step. wp_step.
  set (e2 := match en_next_relay e1 with Some _ => _ | None => _ end).
  assert (is_Some (en_relay e2) ∧ en_pool e2 = en_pool e1 ∧ en_generation e2 = en_generation e1 ∧
    en_builders e2 = en_builders e1 ∧ en_spare e2 = en_spare e1) as ([r Hr2] & E2 & E3 & E4 & E5).
  { unfold e2. destruct (en_next_relay e1); rec_simpl; [by split_and!|]. split_and!; try done.
    rewrite Hr. destruct (H4 Hcfg) as [?|Hx]; [done|]. rewrite <- Hnr in Hx. by destruct Hx. }
  rewrite Hr2. wp_step. split; [|apply mild_nil].
  pose proof HI as [Hs Hb Hsp]. rewrite Hn in Hs. destruct Hs as (HP & Hbs & _).
  split; rec_simpl; try done.
  - split; rec_simpl; rewrite ?E2, ?E4, ?E5; try done. split; [by rec_simpl; rewrite Hr2|]. exists []. rec_simpl.
    rewrite ?E2, ?E4, HP, Hbs. split_and!; [apply pool_inv_empty|constructor..].
  - by rewrite E3.
  - intros _. left. by rewrite Hr2.
  - rewrite E2. intros h Hh. by apply no_hashes in Hh.
Qed.

(** A block the pool does not turn away before it has read its transactions:
    its hash is new, the pool has room for it, and it is not too long. *)
Definition block_fits (bs : list MergeableBlockV1) (m : MergeableBlockV1) : Prop :=
  block_hash_of m ∉ block_hash_of <$> bs ∧ len bs < Z.min (ec_max_blocks_per_slot config) u16_max ∧
  len (block_txs m) ≤ MAX_BLOCK_TXS ∧ decodable (block_txs m).

Lemma linked_room s bs g e :
  linked s bs g e → Z.of_nat (size (pl_block_hashes (en_pool e))) ≤ len bs.
Proof.
  intros HL. unfold len. apply Nat2Z.inj_le. rewrite <- (length_fmap block_hash_of bs).
  etransitivity; [apply (subseteq_size _ (list_to_set (block_hash_of <$> bs)))|].
  - intros h Hh. apply elem_of_list_to_set. by apply (ln_blocks _ _ _ _ HL).
  - induction (block_hash_of <$> bs) as [|h l IH]; [done|]. cbn.
    rewrite size_union_alt, size_singleton. apply le_n_S. etransitivity; [|exact IH].
    apply (subseteq_size (C := gset B256)). set_solver.
Qed.

Lemma linked_block x m recv s bs g e :
  0 ≤ ec_max_orders_per_slot config → linked s bs g e → block_ok s m → block_fits bs m →
  wp (apply_event config g (EvMergeableBlock (Some m) recv)) (λ _ e' o,
    linked (note_output s (TileSend x (MsgMergeableBlock m))) (bs ++ [m]) g e' ∧ mild o) e.
Proof.
  intros Hmax HL ((start & Hst & Hsl) & Hrefs & Hknown) (Hnew & Hroom & Hlen & Hdec).
  pose proof (linked_room s bs g e HL) as Hsize. destruct HL as [H1 <- H3 H4 H5 H6 H7]. apply current_event.
  rewrite Hst in H3. pose proof H1 as [Hs _ _]. rewrite H3 in Hs. destruct Hs as (Hrel & log & HP & _).
  destruct (pool_add_fits (ec_max_blocks_per_slot config) (ec_max_orders_per_slot config) log m recv (en_pool e)
    (ss_parent_hash start) HP Hmax Hrefs) as (r & p' & Hadd & Hh & Hb & Hr); [naive_solver|lia|done|done| |].
  { eapply refs_known_mono; [|exact Hknown]. intros h [?|Hw]; [by apply H6|]. rewrite H5 in Hw. by apply elem_of_empty in Hw. }
  assert (wp (on_block config (Some m) recv) (λ _ e' o, en_generation e' = en_generation e ∧ en_slot e' = en_slot e ∧
    en_pool e' = p' ∧ en_relay e' = en_relay e ∧ en_next_relay e' = en_next_relay e ∧ inv e' ∧ mild o) e) as Hon.
  { pose proof (on_block_spec config (λ _, True) (Some m) recv e Hmax H1) as Hspec.
    unfold wp in *. destruct (on_block config (Some m) recv e) as [[[[] e'] o]|] eqn:E.
    2:{ apply Hspec; [|done]. eapply Forall_impl; [exact Hrefs|]. by intros ? []. }
    destruct Hspec as (HI' & _ & _); [eapply Forall_impl; [exact Hrefs|]; by intros ? []|done|].
    unfold on_block in E. unfold mbind, comp_bind, get in E. rewrite H3, Hsl, Hadd in E. unfold modify in E.
    destruct r as [a|j].
    - assert (same_slot (e <| en_pool := p' |>) e' ∧ mild o) as [(E1 & E2 & E3 & E4 & E5) Ho].
      { destruct (ad_orders_dropped a) as [j|] eqn:Ej.
        - unfold publish_reject, mbind, comp_bind, get, emit in E. destruct (ad_base a) as [base|].
          + destruct (store_base config base _) as [[[[] e2] o2]|] eqn:Es; [|done]. injection E as <- <-.
            apply works_store_base in Es as [Hsame Ho]. split; [done|]. cbn [app].
            apply (mild_app [_] o2); [apply mild_one; right; by apply (Hr j)|]. intros g r Hin. by apply Ho in Hin.
          + injection E as <- <-. split; [done|]. apply mild_one. right. by apply (Hr j).
        - unfold mret, comp_ret in E. destruct (ad_base a) as [base|].
          + destruct (store_base config base _) as [[[[] e2] o2]|] eqn:Es; [|done]. injection E as <- <-.
            apply works_store_base in Es as [Hsame Ho]. split; [done|]. intros g r Hin. by apply Ho in Hin.
          + injection E as <- <-. split; [done|apply mild_nil]. }
      by split_and!.
    - unfold publish_reject, mbind, comp_bind, get, emit in E. injection E as <- <-.
      split_and!; [done..|]. by apply mild_one. }
  eapply wp_mono; [exact Hon|]. intros _ e' o (E1 & E2 & E3 & E4 & E5 & HI' & Ho). split; [|done].
  cbn [note_output]. split; rec_simpl; rewrite ?E1, ?E2, ?E3, ?E4, ?E5, ?H3; try done.
  - intros h. rewrite elem_of_union, elem_of_list_to_set. intros [?|?%H6]; apply Hh; auto.
  - intros h [->|?%H7]%Hb; rewrite fmap_app, elem_of_app; [right; by left|by left].
Qed.

(** ** Runs *)

Lemma engine_run_app ops ops' (Q : MergeEngine → list EngineOutput → Prop) : ∀ e,
  wp (engine_run config ops) (λ _ e1 o1, wp (engine_run config ops') (λ _ e2 o2, Q e2 (o1 ++ o2)) e1) e →
  wp (engine_run config (ops ++ ops')) (λ _ e' o, Q e' o) e.
Proof.
  revert Q. induction ops as [|op ops IH]; intros Q e; cbn [engine_run app].
  { intros H. unfold wp, mret, comp_ret in *. by cbn in H. }
  intros H. unfold wp, mbind, comp_bind in *. destruct (engine_op config op e) as [[[b e1] o1]|]; [|done].
  specialize (IH (λ e' o, Q e' (o1 ++ o)) e1). unfold mret, comp_ret in *.
  destruct (engine_run config ops e1) as [[[bs e2] o2]|]; [|done].
  cbn in H. rewrite app_nil_r in H.
  destruct (engine_run config ops' e2) as [[[bs' e3] o3]|]; [|done]. specialize (IH ltac:(by rewrite app_assoc)).
  destruct (engine_run config (ops ++ ops') e1) as [[[bs4 e4] o4]|]; [|done]. by rewrite app_nil_r.
Qed.

Lemma linked_works ws s bs g : ∀ e,
  linked s bs g e → wp (engine_run config (OpWork <$> ws)) (λ _ e' o, linked s bs g e' ∧ mild o) e.
Proof.
  induction ws as [|w ws IH]; intros e HL; cbn [engine_run fmap list_fmap].
  { wp_step. split; [done|apply mild_nil]. }
  wp_step. cbn [engine_op]. eapply wp_mono; [by apply linked_work|]. intros r e1 o1 [HL1 Ho1]. wp_step.
  eapply wp_mono; [by apply IH|]. intros rs e2 o2 [HL2 Ho2]. wp_step. rewrite app_nil_r. split; [done|by apply mild_app].
Qed.

(** Blocks the pool takes, and none withheld with a transaction that would only
    be referred to later. *)
Fixpoint deliverable (s : Sent) (bs : list MergeableBlockV1) (outs : list TileOutput) : Prop :=
  match outs with
  | [] => True
  | out :: outs =>
      match out with
      | TileSend _ (MsgMergeableBlock m) => block_fits bs m
      | TileWithheld m => whole_hashes (block_entries m) = []
      | _ => True
      end ∧ deliverable (note_output s out) (blocks_after s bs out) outs
  end.

#[export] Instance block_fits_dec bs m : Decision (block_fits bs m).
Proof. unfold block_fits, decodable, plain. apply _. Defined.

#[export] Instance deliverable_dec s bs outs : Decision (deliverable s bs outs).
Proof.
  revert s bs. induction outs as [|out outs IH]; intros s bs; cbn; [apply _|].
  apply and_dec; [|apply IH]. destruct out as [? []| | |]; apply _.
Defined.

Lemma linked_deliver d s bs g e :
  0 ≤ ec_max_orders_per_slot config → linked s bs g e →
  stream_ok s [dv_out d] → deliverable s bs [dv_out d] →
  wp (engine_run config (deliver g d).2)
    (λ _ e' o, linked (note_output s (dv_out d)) (blocks_after s bs (dv_out d)) (deliver g d).1 e' ∧ mild o) e.
Proof.
  intros Hmax HL [Hs _] [Hd _]. unfold deliver.
  assert (∀ s' bs' g' ev, wp (apply_event config g' ev) (λ _ e' o, linked s' bs' g' e' ∧ mild o) e →
    wp (engine_run config [OpEvent g' ev]) (λ _ e' o, linked s' bs' g' e' ∧ mild o) e) as Hone.
  { intros s' bs' g' ev H. cbn [engine_run engine_op]. wp_step. wp_step. eapply wp_mono; [exact H|].
    intros [] e1 o Ho. wp_steps. rewrite ?app_nil_r. exact Ho. }
  destruct (dv_out d) as [x [reg|c|m|m|n|n]|m|x|id]; cbn [fst snd]; try (apply Hone).
  - by eapply linked_registration.
  - by apply linked_config.
  - by apply linked_start.
  - by apply linked_block.
  - cbn [engine_run]. wp_step. split; [done|apply mild_nil].
  - cbn [engine_run]. wp_step. split; [done|apply mild_nil].
  - cbn [engine_run]. wp_step. split; [|apply mild_nil]. destruct HL as [? ? ? ? H5 ? ?]. split; try done. cbn. by rewrite Hd, H5.
  - cbn [engine_run]. wp_step. split; [done|apply mild_nil].
  - cbn [engine_run]. wp_step. split; [done|apply mild_nil].
Qed.

Lemma linked_run ds : ∀ s bs g e,
  0 ≤ ec_max_orders_per_slot config → linked s bs g e →
  stream_ok s (dv_out <$> ds) → deliverable s bs (dv_out <$> ds) →
  wp (engine_run config (link_ops g ds))
    (λ _ e' o, (∃ bs' g', linked (foldl note_output s (dv_out <$> ds)) bs' g' e') ∧ mild o) e.
Proof.
  induction ds as [|d ds IH]; intros s bs g e Hmax HL Hs Hd; cbn [link_ops engine_run fmap list_fmap foldl].
  { wp_step. split; [by exists bs, g|apply mild_nil]. }
  destruct Hs as [Hs1 Hs2], Hd as [Hd1 Hd2].
  pose proof (linked_deliver d s bs g e Hmax HL (conj Hs1 I) (conj Hd1 I)) as H1.
  destruct (deliver g d) as [g' ops]. cbn [fst snd] in H1.
  apply (engine_run_app ops _ (λ e' o, (∃ bs' g', linked _ bs' g' e') ∧ mild o)).
  eapply wp_mono; [exact H1|]. intros _ e1 o1 [HL1 Ho1].
  apply (engine_run_app _ _ (λ e' o, (∃ bs' g', linked _ bs' g' e') ∧ mild (o1 ++ o))).
  eapply wp_mono; [by apply linked_works|]. intros _ e2 o2 [HL2 Ho2].
  eapply wp_mono; [by eapply IH|]. intros _ e3 o3 [HL3 Ho3]. split; [done|]. by repeat apply mild_app.
Qed.

Lemma linked_new : linked sent_none [] 0 engine_new.
Proof.
  split; cbn; try done.
  split; cbn; [done|split; [apply NoDup_nil_2|unfold len; cbn; lia]|constructor].
Qed.
End link.

(** ** The relay feeding the builder *)
Section theorems.
Context `{FX : FxHasher} `{ES : EthSpec} `{TH : TreeHash} `{HO : HashOrder} {KE : Keccak} {CO : MergeCodecs}
  {MC : MergingCodec} {CT : CanonicalTx} (tile_config : TileConfig) (config : EngineConfig) (token : Token).

(** C7: Whatever the relay's merging tile sends, delivered in order to the
    builder's engine with any work in between, the engine resolves: as long as
    every block's hash is new in the slot, the blocks are within the engine's
    limits and their transactions decode, and the tile withholds no block with
    transactions it has not sent, the engine works on the slot the relay
    started, holds every transaction the relay has sent whole, and rejects a
    block only for its parent or for a limit on its orders, never for a
    reference it cannot resolve or an order it finds invalid. *)
Theorem forwarded_blocks_resolve turns t ds :
  Forall turn_ok turns → tile_run tile_config turns (tile_init token) = Some (tt, t, dv_out <$> ds) →
  0 ≤ ec_max_orders_per_slot config → deliverable config sent_none [] (dv_out <$> ds) →
  let s := foldl note_output sent_none (dv_out <$> ds) in
  ∃ bs e outs, engine_run config (link_ops 0 ds) engine_new = Some (bs, e, outs) ∧
    en_slot e = sn_start s ∧ (∀ h, h ∈ sn_known s → holds (en_pool e) h) ∧
    ∀ g r, OutReject g r ∈ outs → rj_code r = HeadMismatch ∨ rj_code r = LimitExceeded.
Proof.
  intros Hturns Hrun Hmax Hd s.
  destruct (over_run tile_config token _ turns (turns_ok turns Hturns)) as (t' & outs & Hrun' & Hs & _).
  rewrite Hrun in Hrun'. injection Hrun' as <- <-.
  pose proof (linked_run config ds sent_none [] 0 engine_new Hmax (linked_new config) Hs Hd) as H. unfold wp in H.
  destruct (engine_run config (link_ops 0 ds) engine_new) as [[[bs e] outs]|]; [|done].
  destruct H as [(bs' & g' & []) Ho]. by exists bs, e, outs.
Qed.
End theorems.

(** ** Examples *)

(** The outputs are delivered at once, each with a turn of work after it. *)
Definition ex_deliveries (outs : list TileOutput) : list Delivery := (λ o, mkDelivery o 1 ∅ [ex_work]) <$> outs.

Lemma ex_deliveries_out outs : dv_out <$> ex_deliveries outs = outs.
Proof. unfold ex_deliveries. induction outs as [|o outs IH]; [done|]. cbn. by f_equal. Qed.

Local Abbreviation ex_relay_run turns :=
  (tile_run (FX := ex_hash) (ES := mainnet) (TH := ex_roots) (HO := list_order) (CO := ex_merge_codecs)
    (MC := ex_merging_codec) ex_tile_config turns (tile_init 1)) (only parsing).

Lemma ex_good_deliverable :
  (λ r, bool_decide (deliverable (CT := ex_canonical) ex_engine_config sent_none [] r.2) &&
        bool_decide (sn_known (foldl note_output sent_none r.2) = {[keccak256 (ex_tx 1); keccak256 (ex_tx 2)]}))
    <$> ex_relay_run ex_good_turns = Some true.
Proof. vm_compute. reflexivity. Qed.

Lemma forwarded_blocks_resolve_witness :
  ∃ t outs bs e o, ex_relay_run ex_good_turns = Some (tt, t, outs) ∧
    engine_run (CT := ex_canonical) ex_engine_config (link_ops 0 (ex_deliveries outs)) engine_new = Some (bs, e, o) ∧
    holds (en_pool e) (keccak256 (ex_tx 1)) ∧ holds (en_pool e) (keccak256 (ex_tx 2)) ∧
    ∀ g r, OutReject g r ∈ o → rj_code r = HeadMismatch ∨ rj_code r = LimitExceeded.
Proof.
  destruct (ex_relay_run ex_good_turns) as [[[[] t] outs]|] eqn:Hrun.
  2:{ pose proof ex_good_deliverable as Hc. rewrite Hrun in Hc. discriminate Hc. }
  pose proof ex_good_deliverable as Hc. rewrite Hrun in Hc. cbn [fmap option_fmap option_map snd] in Hc.
  apply (inj Some) in Hc. apply andb_true_iff in Hc as [Hd%bool_decide_eq_true Hk%bool_decide_eq_true].
  destruct (forwarded_blocks_resolve (FX := ex_hash) (ES := mainnet) (TH := ex_roots) (HO := list_order)
    (CO := ex_merge_codecs) (MC := ex_merging_codec) (CT := ex_canonical) ex_tile_config ex_engine_config 1
    ex_good_turns t (ex_deliveries outs)) as (bs & e & o & Hrun' & _ & Hh & Ho).
  - apply Forall_singleton, ex_turn_ok.
  - rewrite ex_deliveries_out. exact Hrun.
  - cbn. lia.
  - rewrite ex_deliveries_out. exact Hd.
  - rewrite ex_deliveries_out, Hk in Hh. exists t, outs, bs, e, o.
    split; [reflexivity|]. split; [exact Hrun'|]. split; [apply Hh, elem_of_union_l, elem_of_singleton_2; reflexivity|].
    split; [apply Hh, elem_of_union_r, elem_of_singleton_2; reflexivity|exact Ho].
Defined.

Definition rejects_of (outs : list EngineOutput) : list (RejectCode * RejectSubject) :=
  omap (λ o, match o with OutReject _ r => Some (rj_code r, rj_subject r) | _ => None end) outs.

(** The rejects the builder answers a run of the relay with. *)
Definition ex_rejects (turns : list TileTurn) : option (list (RejectCode * RejectSubject)) :=
  run ← ex_relay_run turns;
  res ← engine_run (CT := ex_canonical) ex_engine_config (link_ops 0 (ex_deliveries run.2)) engine_new;
  Some (rejects_of res.2).

(** A block whose hash is that of an earlier one. *)
Definition ex_clash_env : TileEnv :=
  mkTileEnv true 50 6 (λ id, [ex_decoded 11 [ex_tx 1]; ex_decoded 11 [ex_tx 2]; ex_decoded 12 [ex_tx 2]] !! id).

(** A block is refused for a transaction the builder was sent whole: a
    submission that claims the hash of an earlier block is answered before its
    transactions are read, the relay takes them for known, and the next block
    with one of them, sent as a hash, is rejected as an invalid order. The same
    holds of a block replayed after the acknowledgement when its submission was
    decoded before it. *)
Theorem lost_transactions_reject_blocks :
  ex_rejects [mkTileTurn ex_clash_env [NetConnected 1; ex_ack] false [ex_slot_update] [0; 1; 2]%nat] =
    Some [(InvalidOrder, SubjectBlockHash 12)] ∧
  ex_rejects [mkTileTurn ex_tile_env [NetConnected 1] false [ex_slot_update] [0%nat];
              mkTileTurn ex_tile_env [ex_ack] false [] []] = Some [(InvalidOrder, SubjectBlockHash 11)] ∧
  ex_rejects ex_good_turns = Some [].
Proof. split_and!; vm_compute; reflexivity. Qed.
