(* ===== verification/HousekeeperRuns.v ===== *)
(** * What the housekeeper tells the auctioneer

    Invariants of the housekeeper over any sequence of turns and of changes by
    other threads: it does not panic, announces slots in order and completely,
    sends each attestation deadline once, and publishes only registrations that
    the proposer or its signed preferences back. *)

From S2P Require Import Prelude Types Submission SlotStores InclusionLists LocalCache Network Payload PeerConnection Context Auctioneer Duties Housekeeper.

(** ** Outputs *)

Definition updates (o : list HkOutput) : list SlotUpdate :=
  omap (λ e, match e with HkSlotUpdate u => Some u | _ => None end) o.
Definition deadlines (o : list HkOutput) : list u64 :=
  omap (λ e, match e with HkEvent (EAttestationDeadline s _) => Some s | _ => None end) o.

Lemma updates_app o1 o2 : updates (o1 ++ o2) = updates o1 ++ updates o2.
Proof. apply omap_app. Qed.
Lemma deadlines_app o1 o2 : deadlines (o1 ++ o2) = deadlines o1 ++ deadlines o2.
Proof. apply omap_app. Qed.

(** An output that is neither a slot update nor a deadline. *)
Definition quiet (e : HkOutput) : bool :=
  match e with
  | HkSlotUpdate _ | HkEvent (EAttestationDeadline _ _) => false
  | _ => true
  end.
Lemma updates_quiet o : Forall (λ e, quiet e = true) o → updates o = [].
Proof. induction 1 as [|e o He _ IH]; [done|]. destruct e; try done. Qed.
Lemma deadlines_quiet o : Forall (λ e, quiet e = true) o → deadlines o = [].
Proof. induction 1 as [|e o He _ IH]; [done|]. destruct e as [| | |[]|]; try done. Qed.
Lemma quiet_requests l : Forall (λ e, quiet e = true) (HkRequest <$> l).
Proof. apply Forall_fmap. by apply Forall_true. Qed.
Lemma quiet_db l : Forall (λ e, quiet e = true) (HkDb <$> l).
Proof. apply Forall_fmap. by apply Forall_true. Qed.

(** ** Slot updates *)

(** The updates sent so far, seen from the chain head: none for a slot that is
    pending; for one that was sent the last update is for it, and has all its
    attributes unless a new update is due. *)
Definition attributes_exact (known : KnownAttributes) (slot : u64) (u : SlotUpdate) : Prop :=
  ∀ a, a ∈ su_payload_attributes u ↔ ∃ f, known !! (f, slot) = Some a.

Definition announced (c : ChainHead) (known : KnownAttributes) (us : list SlotUpdate) : Prop :=
  StronglySorted (λ u v, su_bid_slot u ≤ su_bid_slot v) us ∧
  match ch_state c with
  | HeadPending => Forall (λ u, su_bid_slot u ≤ ch_slot c) us
  | HeadSent =>
      Forall (λ u, su_bid_slot u ≤ succ_slot (ch_slot c)) us ∧
      ∃ u, last us = Some u ∧ su_bid_slot u = succ_slot (ch_slot c) ∧
        (ch_sent_was_complete c = true → attributes_exact known (succ_slot (ch_slot c)) u)
  end.

Definition known_ok (known : KnownAttributes) : Prop :=
  map_Forall (λ k u, pu_slot u = k.2 ∧ attributes_fork u = k.1) known.

Lemma announced_rearm c known known' us :
  announced c known us → announced (c <| ch_sent_was_complete := false |>) known' us.
Proof. unfold announced. cbn. destruct (ch_state c); naive_solver. Qed.

Lemma announced_next c c' known us :
  announced c known us → ch_slot c < ch_slot c' → ch_state c' = HeadPending → announced c' known us.
Proof.
  intros [Hs Hc] Hlt Hp. unfold announced. rewrite Hp. split; [done|].
  destruct (ch_state c).
  - eapply Forall_impl; [done|]. intros u Hu. simpl in *. lia.
  - destruct Hc as [Hall _]. eapply Forall_impl; [done|]. intros u Hu. unfold succ_slot in *. simpl in *. lia.
Qed.

Lemma announced_block c b known us :
  announced c known us → announced (c <| ch_block := b |>) known us.
Proof. done. Qed.

Lemma announced_sent c known us u :
  announced c known us → ch_slot c ≤ u64_max → su_bid_slot u = succ_slot (ch_slot c) →
  attributes_exact known (succ_slot (ch_slot c)) u → announced (chain_head_sent c) known (us ++ [u]).
Proof.
  intros [Hs Hc] Hmax Hu Ha.
  assert (Forall (λ v, su_bid_slot v ≤ succ_slot (ch_slot c)) us) as Hall.
  { destruct (ch_state c); [|apply Hc]. eapply Forall_impl; [done|]. intros v Hv.
    unfold succ_slot. simpl in *. lia. }
  unfold announced. cbn. split_and!.
  - apply StronglySorted_app_2; [|done|repeat constructor]. intros v w Hv [->|[]%not_elem_of_nil]%elem_of_cons.
    rewrite Hu. rewrite Forall_forall in Hall. auto.
  - apply Forall_app. split; [done|]. constructor; [lia|done].
  - exists u. by rewrite last_snoc.
Qed.

Section attributes.
Context `{TH : TreeHash}.

Lemma known_ok_filter known (P : (ForkKey * u64) * PayloadAttributesUpdate → Prop)
    `{!∀ x, Decision (P x)} : known_ok known → known_ok (filter P known).
Proof. intros Hk k u [Hu _]%map_lookup_filter_Some. by apply Hk. Qed.

(** Attributes of the slot to bid on are new to the last update, and ask for
    another one; attributes of a later slot, and dropping those of past slots,
    change nothing for it. *)
Lemma process_payload_attributes_ok event c known us c' known' :
  process_payload_attributes event (c, known) = (c', known') →
  announced c known us → known_ok known → ch_slot c ≤ u64_max →
  announced c' known' us ∧ known_ok known' ∧ ch_slot c' = ch_slot c.
Proof.
  unfold process_payload_attributes. intros E Ha Hk Hmax.
  destruct (Z.leb_spec (pe_proposal_slot event) (ch_slot c)); [by simplify_eq|].
  case_bool_decide as Hnew; [by simplify_eq|].
  set (fil := filter _ known) in E. assert (known_ok fil) as Hf by by apply known_ok_filter.
  assert (known_ok (<[(event_fork event, pe_proposal_slot event) := event_update event]> fil)) as Hki.
  { by apply map_Forall_insert_2. }
  cbn [pu_slot event_update] in E.
  destruct (Z.eqb_spec (pe_proposal_slot event) (succ_slot (ch_slot c))) as [|Hne];
    injection E as <- <-; split_and!; try done.
  - by eapply (announced_rearm (c <| ch_payload_attributes_done := true |>)).
  - destruct Ha as [Hs Hc]. split; [done|]. destruct (ch_state c); [done|].
    destruct Hc as (Hall & u & Hl & Hu & Hex). split; [done|]. exists u. split_and!; [done..|].
    intros Hcomp a. rewrite (Hex Hcomp a). split; intros [f Hfa]; exists f.
    + rewrite lookup_insert_ne by congruence. apply map_lookup_filter_Some. split; [done|].
      apply Hk in Hfa as [Hslot _]. simpl in *. unfold succ_slot in *. lia.
    + rewrite lookup_insert_ne in Hfa by congruence. by apply map_lookup_filter_Some in Hfa as [? _].
Qed.
End attributes.

(** Collecting values into a map by a key. *)
Lemma foldl_insert_elem `{Countable K} {V} (key : V → K) (l : list V) (m : gmap K V) k v :
  foldl (λ m v, <[key v := v]> m) m l !! k = Some v → m !! k = Some v ∨ v ∈ l ∧ key v = k.
Proof.
  revert m. induction l as [|x l IH]; intros m; simpl; [by left|].
  intros [Hm|[He Hs]]%IH; [|by right; split; [right|]].
  destruct (decide (key x = k)) as [<-|Hne].
  - rewrite lookup_insert_eq in Hm. simplify_eq. right. split; [left|done].
  - rewrite lookup_insert_ne in Hm by done. by left.
Qed.

(** ** Where registrations come from

    [key_of] is the validator registry: an index names one key for good. [R]
    are the registrations the relay accepted. A duty entry is backed by one of
    them, by preferences its proposer signed for the slot, or in local
    development by nothing. *)
Section backing.
Context `{HO : HashOrder} `{RE : RelayEnv} `{BP : BlsPoints, PR : !BlsPairing, FR : PreferencesRoot}.
Variable key_of : u64 → Pubkey.
Variable R : ValidatorRegistrationInfo → Prop.

Definition entry_key (e : BuilderGetValidatorsResponseEntry) : Pubkey := ri_pubkey (de_entry e).

Definition preferred (e : BuilderGetValidatorsResponseEntry) (signed : SignedProposerPreferences)
    : Prop :=
  let p := sp_message signed in
  preferences_verify signed (key_of (de_validator_index e)) = true ∧
  pf_proposal_slot p = de_slot e ∧ pf_validator_index p = de_validator_index e ∧
  rg_fee_recipient (svr_message (ri_registration (de_entry e))) = pf_fee_recipient p ∧
  rg_gas_limit (svr_message (ri_registration (de_entry e))) = pf_target_gas_limit p.

Definition backed (e : BuilderGetValidatorsResponseEntry) : Prop :=
  entry_key e = key_of (de_validator_index e) ∧
  ((∃ info, R info ∧ ri_registration info = ri_registration (de_entry e)) ∨
   is_local_dev = true ∨ ∃ signed, preferred e signed).

Definition duty_ok (d : ProposerDuty) : Prop := du_pubkey d = key_of (du_validator_index d).

Definition prefs_ok (store : PreferencesStore) : Prop :=
  map_Forall (λ slot g,
    pf_proposal_slot (sp_message (go_signed g)) = slot ∧
    (go_verified g = Some true →
     preferences_verify (go_signed g) (key_of (pf_validator_index (sp_message (go_signed g)))) = true))
    store.

Definition registrations_ok (c : LocalCache) : Prop :=
  map_Forall (λ _ e, R (re_registration_info e)) (lc_validator_registrations c).

Lemma for_duty_ok duty store prefs store' :
  for_duty duty store = (prefs, store') → duty_ok duty → prefs_ok store →
  prefs_ok store' ∧ ∀ p defaults, prefs = Some p → backed (synthesize_registration duty p defaults).
Proof.
  unfold for_duty, duty_ok. intros E Hd Hs.
  destruct (store !! du_slot duty) as [g|] eqn:Eg; [|by simplify_eq].
  destruct (Hs _ _ Eg) as [Hslot Hver].
  destruct (Z.eqb_spec (pf_validator_index (sp_message (go_signed g))) (du_validator_index duty))
    as [Hi|]; simpl in E; [|by simplify_eq].
  destruct (Z.eqb_spec (pf_proposal_slot (sp_message (go_signed g))) (du_slot duty)) as [Hp|];
    simpl in E; [|by simplify_eq].
  assert (match go_verified g with Some v => v | None => preferences_verify (go_signed g) (du_pubkey duty) end = true →
    preferences_verify (go_signed g) (key_of (du_validator_index duty)) = true) as Hv.
  { destruct (go_verified g) as [[]|]; rewrite ?Hi in Hver; rewrite ?Hd; by auto. }
  injection E as <- <-. split.
  - apply map_Forall_insert_2; [|done]. simpl. split; [done|]. rewrite Hi. intros [= Hv']. auto.
  - intros p defaults Hsome. destruct (match go_verified g with Some v => _ | None => _ end) eqn:Ev; [|done].
    injection Hsome as <-. split; [done|]. right; right. exists (go_signed g).
    split_and!; simpl; auto.
Qed.

Lemma synthesize_ok duties from defaults store entries store' :
  synthesize_duty_feed duties from defaults store = (entries, store') →
  Forall duty_ok duties → prefs_ok store → prefs_ok store' ∧ Forall backed entries.
Proof.
  intros E Hd. revert store entries store' E.
  induction Hd as [|d duties Hd Hds IH]; intros store entries store' E Hs; simpl in E.
  { simplify_eq. by split. }
  destruct (from <=? du_slot d); [|by eapply IH].
  destruct (for_duty d store) as [prefs s1] eqn:Ef.
  destruct (synthesize_duty_feed duties from defaults s1) as [es s2] eqn:Er.
  destruct (for_duty_ok _ _ _ _ Ef Hd Hs) as [Hs1 Hp].
  destruct (IH _ _ _ Er Hs1) as [Hs2 Hes]. injection E as <- <-. split; [done|].
  destruct prefs; [|done]. constructor; [by apply Hp|done].
Qed.

Lemma merge_duty_feed_backed existing synthesized :
  Forall backed existing → Forall backed synthesized → Forall backed (merge_duty_feed existing synthesized).
Proof.
  intros He Hs. unfold merge_duty_feed. rewrite sort_by_key_perm. set (refreshed := foldl _ _ _).
  assert (∀ slot e, refreshed !! slot = Some e → backed e) as Hr.
  { intros slot e [Hm|[Hin _]]%foldl_insert_elem; [by rewrite lookup_empty in Hm|].
    rewrite Forall_forall in Hs. auto. }
  apply Forall_app. split.
  - apply Forall_fmap. eapply Forall_impl; [done|]. intros e Hb. simpl.
    destruct (refreshed !! de_slot e) as [fresh|] eqn:Ef; [|done]. destruct (negb _); [by eapply Hr|done].
  - apply Forall_forall. intros e. rewrite elem_of_bool_filter.
    intros [[slot Hk]%elem_of_hash_values _]. by eapply Hr.
Qed.

Lemma by_public_key_elem l k e :
  by_public_key l !! k = Some e → e ∈ l ∧ ri_pubkey (re_registration_info e) = k.
Proof.
  intros [Hm|?]%foldl_insert_elem; [|done]. by rewrite lookup_empty in Hm.
Qed.

Lemma process_duties_ok duties epoch cache requested cache' requested' db :
  process_duties duties epoch cache requested = (cache', requested', db) →
  Forall duty_ok duties → registrations_ok cache →
  Forall backed (lc_proposer_duties cache') ∧
  lc_validator_registrations cache' = lc_validator_registrations cache.
Proof.
  unfold process_duties. intros E Hd Hreg.
  destruct (take_new _ _ _) as [missing req]. injection E as <- <- <-. split; [|done].
  change (lc_proposer_duties _) with
    (build_formatted_duties duties (by_public_key (get_validator_registrations_for_pub_keys cache (du_pubkey <$> duties)))).
  unfold build_formatted_duties. apply Forall_forall. intros e.
  rewrite list_elem_of_omap. intros (d & Hin & He). rewrite Forall_forall in Hd. apply Hd in Hin.
  set (regs := by_public_key _) in He. unfold duty_ok in Hin.
  destruct (regs !! du_pubkey d) as [reg|] eqn:Er; simpl in He.
  - injection He as <-. apply by_public_key_elem in Er as [Hr Hk]. split; [by transitivity (du_pubkey d)|]. left.
    exists (re_registration_info reg). split; [|done].
    unfold get_validator_registrations_for_pub_keys in Hr.
    apply list_elem_of_omap in Hr as (k & _ & Hl). by eapply Hreg.
  - destruct is_local_dev eqn:El; [|done]. simpl in He. injection He as <-. split; [done|]. by right; left.
Qed.

Lemma trust_primev_ok cache e : backed e → backed (trust_primev cache e).
Proof. unfold trust_primev. intros H. by destruct (is_primev_proposer _ _). Qed.
Lemma trust_primev_slot cache e : de_slot (trust_primev cache e) = de_slot e.
Proof. unfold trust_primev. by destruct (is_primev_proposer _ _). Qed.
End backing.

(** ** The invariant *)

Section runs.
Context `{HO : HashOrder} `{ES : EthSpec} `{TD : TxDecoder} `{TH : TreeHash} `{RE : RelayEnv}
  `{BP : BlsPoints, PR : !BlsPairing, FR : PreferencesRoot} `{CI : ChainInfo}
  `{HC : HousekeeperConfig}.
Variable key_of : u64 → Pubkey.
Variable R : ValidatorRegistrationInfo → Prop.
Implicit Types (h : Housekeeper) (us : list SlotUpdate) (ds : list u64).

(** The nodes in use exist. *)
Definition indexes_ok h : Prop :=
  (hk_best_index h ≤ beacon_clients)%nat ∧
  Forall (λ r, (r.1 < beacon_clients)%nat) (hk_sync_check_pending h) ∧
  from_option (λ b, (b.1 < beacon_clients)%nat) True (hk_sync_best h).

Definition fetch_ok (f : option DutiesFetchState) : Prop :=
  match f with
  | Some FetchDone => False
  | Some (FetchNext current _) => Forall (duty_ok key_of) current
  | _ => True
  end.

Definition deadlines_ok (slot : u64) ds : Prop :=
  0 ≤ slot ∧ StronglySorted Z.lt ds ∧ Forall (λ s, s ≤ slot) ds.

Definition update_backed (u : SlotUpdate) : Prop :=
  ∀ e, su_registration_data u = Some e → de_slot e = su_bid_slot u ∧ backed key_of R e.

Definition sources_ok h us : Prop :=
  Forall (duty_ok key_of) (hk_duties h) ∧ fetch_ok (hk_duties_fetch h) ∧
  prefs_ok key_of (hk_proposer_prefs h) ∧
  Forall (backed key_of R) (lc_proposer_duties (hk_local_cache h)) ∧
  registrations_ok R (hk_local_cache h) ∧ Forall update_backed us.

Definition Inv h us ds : Prop :=
  indexes_ok h ∧ known_ok (hk_known h) ∧ ch_slot (hk_chain_head h) ≤ u64_max ∧
  announced (hk_chain_head h) (hk_known h) us ∧ deadlines_ok (hk_deadline_slot h) ds ∧
  sources_ok h us.

Lemma Inv_quiet h us ds o :
  Inv h us ds → Forall (λ e, quiet e = true) o → Inv h (us ++ updates o) (ds ++ deadlines o).
Proof. intros H Hq. by rewrite updates_quiet, deadlines_quiet, !app_nil_r. Qed.

(** A computation keeps the invariant and does not panic. *)
Definition sound {A} (m : Comp Housekeeper HkOutput A) : Prop :=
  ∀ h us ds, Inv h us ds → wp m (λ _ h' o, Inv h' (us ++ updates o) (ds ++ deadlines o)) h.

Lemma sound_bind {A B} (m : Comp Housekeeper HkOutput A) (k : A → Comp Housekeeper HkOutput B) :
  sound m → (∀ a, sound (k a)) → sound (m ≫= k).
Proof.
  intros Hm Hk h us ds H. apply wp_bind. eapply wp_mono; [exact (Hm _ _ _ H)|].
  intros a h1 o1 H1. cbn beta. eapply wp_mono; [exact (Hk a _ _ _ H1)|]. intros b h2 o2 H2. cbn beta.
  by rewrite updates_app, deadlines_app, !app_assoc.
Qed.
Lemma sound_ret {A} (a : A) : sound (mret a).
Proof. intros h us ds H. apply wp_ret. by apply Inv_quiet. Qed.
Lemma sound_modify f : (∀ h us ds, Inv h us ds → Inv (f h) us ds) → sound (modify f).
Proof. intros Hf h us ds H. apply wp_modify, Inv_quiet; [auto|done]. Qed.
Lemma sound_emit o : Forall (λ e, quiet e = true) o → sound (emit o).
Proof. intros Hq h us ds H. by apply wp_emit, Inv_quiet. Qed.
Lemma sound_gets {A B} (f : Housekeeper → A) (k : A → Comp Housekeeper HkOutput B) :
  (∀ h us ds, Inv h us ds → wp (k (f h)) (λ _ h' o, Inv h' (us ++ updates o) (ds ++ deadlines o)) h) →
  sound (gets f ≫= k).
Proof. intros Hk h us ds H. apply wp_bind, wp_gets. eapply wp_mono; [exact (Hk _ _ _ H)|]. done. Qed.
Lemma sound_get {B} (k : Housekeeper → Comp Housekeeper HkOutput B) :
  (∀ h us ds, Inv h us ds → wp (k h) (λ _ h' o, Inv h' (us ++ updates o) (ds ++ deadlines o)) h) →
  sound (get ≫= k).
Proof. intros Hk h us ds H. apply wp_bind, wp_get. eapply wp_mono; [exact (Hk _ _ _ H)|]. done. Qed.

(** Running the steps before a sound tail. *)
Lemma after_modify {B} f (k : Comp Housekeeper HkOutput B) h us ds :
  wp k (λ _ h' o, Inv h' (us ++ updates o) (ds ++ deadlines o)) (f h) →
  wp (modify f;; k) (λ _ h' o, Inv h' (us ++ updates o) (ds ++ deadlines o)) h.
Proof. intros H. by apply wp_bind, wp_modify. Qed.
Lemma after_ret {B} (k : Comp Housekeeper HkOutput B) h us ds :
  wp k (λ _ h' o, Inv h' (us ++ updates o) (ds ++ deadlines o)) h →
  wp (mret tt;; k) (λ _ h' o, Inv h' (us ++ updates o) (ds ++ deadlines o)) h.
Proof. intros H. by apply wp_bind, wp_ret. Qed.
Lemma after_emit {B} o (k : Comp Housekeeper HkOutput B) h us ds :
  Forall (λ e, quiet e = true) o →
  wp k (λ _ h' o, Inv h' (us ++ updates o) (ds ++ deadlines o)) h →
  wp (emit o;; k) (λ _ h' o, Inv h' (us ++ updates o) (ds ++ deadlines o)) h.
Proof.
  intros Hq H. apply wp_bind, wp_emit. eapply wp_mono; [done|]. intros b h' o' H'. cbn beta.
  by rewrite updates_app, deadlines_app, updates_quiet, deadlines_quiet.
Qed.

(** Changes of fields the invariant does not read hold by conversion. *)
Ltac frame :=
  apply sound_modify; intros ? ? ? Hinv;
  first [exact Hinv | by destruct Hinv as (? & ? & ? & ? & ? & (? & ? & ? & ? & ? & ?)); split_and!].
Ltac solve_quiet := repeat first [apply Forall_nil_2 | apply Forall_cons_2; [done|]
  | apply Forall_app_2 | apply quiet_requests | apply quiet_db].

Lemma sound_on_head f :
  (∀ c, ch_slot (f c) = ch_slot c) →
  (∀ c known us, announced c known us → announced (f c) known us) → sound (on_head f).
Proof.
  intros Hslot Ha. apply sound_modify. intros h us ds (Hi & Hk & Hm & Hn & Hd & Hs).
  split_and!; try done; [by cbn; rewrite Hslot|by apply Ha].
Qed.
Lemma sound_mark_duties_done : sound (on_head mark_duties_done).
Proof. by apply sound_on_head. Qed.
Lemma sound_mark_il_done : sound (on_head mark_il_done).
Proof. by apply sound_on_head. Qed.
Lemma sound_mark_duties_changed : sound (on_head mark_duties_changed).
Proof. apply sound_on_head; [done|]. intros c known us. apply announced_rearm. Qed.
Lemma sound_mark_payload_attrs_done : sound (on_head mark_payload_attrs_done).
Proof.
  apply sound_on_head; [done|]. intros c known us Ha.
  by apply (announced_rearm (c <| ch_payload_attributes_done := true |>) known).
Qed.

Lemma clients_ok h us ds :
  Inv h us ds → clients_by_last_response h =
    Some (seq (hk_best_index h) (beacon_clients - hk_best_index h) ++ seq 0 (hk_best_index h), h, []).
Proof.
  intros ([Hb _] & _). unfold clients_by_last_response, mbind, comp_bind, gets.
  by rewrite (proj2 (Nat.leb_le _ _) Hb).
Qed.
Lemma sound_clients : sound clients_by_last_response.
Proof. intros h us ds H. unfold wp. rewrite (clients_ok _ _ _ H). by apply Inv_quiet. Qed.

Lemma sound_read {A} (f : Housekeeper → A) : sound (gets f).
Proof. intros h us ds H. by apply wp_gets, Inv_quiet. Qed.
Lemma sound_state : sound get.
Proof. intros h us ds H. by apply wp_get, Inv_quiet. Qed.

Create HintDb hk discriminated.
#[local] Hint Resolve sound_mark_duties_done sound_mark_il_done sound_mark_duties_changed
  sound_mark_payload_attrs_done sound_clients sound_read sound_state : hk.
Ltac sound_step :=
  lazymatch goal with
  | |- sound (mret _) => apply sound_ret
  | |- sound (emit _) => apply sound_emit; by solve_quiet
  | |- sound (match ?x with _ => _ end) => destruct x
  | |- sound (mbind _ _) => apply sound_bind; [|intros ?]
  | |- sound (modify _) => frame
  | |- sound _ => solve [auto with hk]
  end.
Ltac sound_steps := repeat (sound_step; cbn beta).

Lemma sound_fetch_duties send : sound (fetch_duties send).
Proof.
  unfold fetch_duties. sound_steps.
Qed.
Lemma sound_maybe_fetch_primev sent : sound (maybe_fetch_primev sent).
Proof. unfold maybe_fetch_primev. sound_steps. Qed.
Lemma sound_maybe_fetch_il f : sound (maybe_fetch_il f).
Proof. unfold maybe_fetch_il. sound_steps. Qed.

Lemma sound_refresh_gloas_duty_feed : sound refresh_gloas_duty_feed.
Proof.
  unfold refresh_gloas_duty_feed. apply sound_get. intros h us ds H. cbn zeta.
  destruct (negb _); [by apply sound_ret|].
  destruct (synthesize_duty_feed _ _ _ _) as [entries prefs] eqn:Es.
  pose proof H as (Hi & Hk & Hm & Hn & Hd & (Hdu & Hf & Hp & Hfeed & Hreg & Hus)).
  destruct (synthesize_ok key_of R _ _ _ _ _ _ Es Hdu Hp) as [Hp' He].
  apply wp_bind, wp_modify. cbn beta. case_bool_decide.
  - apply wp_ret, Inv_quiet; [|by solve_quiet]. by split_and!.
  - apply wp_modify, Inv_quiet; [|by solve_quiet]. unfold Inv, sources_ok. split_and!; try done.
    by apply merge_duty_feed_backed.
Qed.

Lemma prefs_on_new_slot_ok slot store : prefs_ok key_of store → prefs_ok key_of (prefs_on_new_slot slot store).
Proof. intros Hs k g [Hg _]%map_lookup_filter_Some. by apply Hs. Qed.

#[local] Hint Resolve sound_fetch_duties sound_maybe_fetch_primev sound_maybe_fetch_il
  sound_refresh_gloas_duty_feed : hk.

Lemma sound_on_new_slot f : sound (hk_on_new_slot f).
Proof.
  unfold hk_on_new_slot. apply sound_bind; [auto with hk|intros slot]. cbn zeta.
  apply sound_bind; [frame|intros _]. apply sound_bind; [|intros _; sound_steps].
  apply sound_modify. intros h us ds (Hi & Hk & Hm & Hn & Hd & (Hdu & Hf & Hp & Hfeed & Hreg & Hus)).
  unfold Inv, sources_ok. split_and!; try done. by apply prefs_on_new_slot_ok.
Qed.
#[local] Hint Resolve sound_on_new_slot : hk.

(** The readings of the clock and the slots of head events are [u64]. *)
Definition head_poll_ok (i : HeadPoll) : Prop :=
  match hp_event i with PollReady (Some data) => hv_slot data ≤ u64_max | _ => True end.

Lemma Inv_head h us ds c :
  Inv h us ds → ch_slot c ≤ u64_max → announced c (hk_known h) us →
  Inv (h <| hk_chain_head := c |>) us ds.
Proof. intros (Hi & Hk & Hm & Hn & Hd & Hs) Hc Ha. by split_and!. Qed.

Lemma sound_check_clock t : now_slot (tn_now t) ≤ u64_max → sound (check_clock t).
Proof.
  intros Hmax. unfold check_clock. apply sound_get. intros h us ds H. unfold is_new_slot.
  destruct (Z.ltb_spec (ch_slot (hk_chain_head h)) (now_slot (tn_now t))) as [Hlt|].
  - pose proof H as (_ & _ & _ & Hn & _). apply wp_bind, wp_modify. cbn beta iota.
    apply (sound_on_new_slot _ _ us ds), Inv_head; [done..|]. by eapply announced_next.
  - apply wp_bind, wp_modify. cbn beta iota. apply wp_ret, Inv_quiet; [|done]. by destruct h.
Qed.

Lemma chain_head_update_ok now data c known us new c' :
  chain_head_update now data c = (new, c') → announced c known us → ch_slot c ≤ u64_max →
  hv_slot data ≤ u64_max → announced c' known us ∧ ch_slot c' ≤ u64_max.
Proof.
  unfold chain_head_update, already_seen. intros E Ha Hm Hd.
  destruct (Z.leb_spec (hv_slot data) (ch_slot c)).
  - injection E as _ <-. case_bool_decide; by split.
  - injection E as _ <-. split; [|done]. by eapply announced_next.
Qed.

Lemma sound_handle_head_event idx i data :
  hv_slot data ≤ u64_max → sound (handle_head_event idx i data).
Proof.
  intros Hd. unfold handle_head_event. apply sound_get. intros h us ds H.
  destruct (chain_head_update _ _ _) as [new c] eqn:Ec.
  pose proof H as (_ & _ & Hm & Hn & _).
  destruct (chain_head_update_ok _ _ _ _ _ _ _ Ec Hn Hm Hd) as [Ha Hc].
  pose proof (Inv_head _ _ _ _ H Hc Ha) as H'.
  wp_steps; (apply Inv_quiet; [exact H'|by solve_quiet]).
Qed.

Lemma sound_poll_head_streams polls streams :
  Forall (λ i, head_poll_ok (polls i)) streams → sound (poll_head_streams polls streams).
Proof.
  induction 1 as [|idx streams Hi Hs IH]; simpl; [apply sound_ret|]. unfold head_poll_ok in Hi.
  destruct (hp_event (polls idx)) as [|[data|]]; [done| |done].
  apply sound_bind; [by apply sound_handle_head_event|]. intros []; [apply sound_ret|done].
Qed.

Lemma sound_poll_head t :
  (∀ i, head_poll_ok (tn_head t i)) → sound (poll_head t).
Proof.
  intros Hok. unfold poll_head. apply sound_bind; [|intros []; sound_steps].
  apply sound_poll_head_streams. by apply Forall_true.
Qed.

Lemma sound_poll_prefs polls streams : sound (poll_prefs_streams polls streams).
Proof.
  induction streams as [|idx streams IH]; simpl; [apply sound_ret|]. apply sound_bind; [|done].
  destruct (polls idx) as [|[data|]]; [apply sound_ret| |apply sound_ret].
  apply sound_modify. intros h us ds (Hi & Hk & Hm & Hn & Hd & (Hdu & Hf & Hp & Hfeed & Hreg & Hus)).
  unfold Inv, sources_ok. split_and!; try done. cbn. unfold prefs_process.
  destruct (_ <=? _); [done|]. by apply map_Forall_insert_2.
Qed.

Lemma sound_poll_attributes polls streams : sound (poll_attributes_streams polls streams).
Proof.
  induction streams as [|idx streams IH]; cbn [poll_attributes_streams]; [apply sound_ret|]. apply sound_bind; [|done].
  destruct (polls idx) as [|[data|]]; [apply sound_ret| |apply sound_ret].
  apply sound_get. intros h us ds (Hi & Hk & Hm & Hn & Hd & Hs).
  destruct (process_payload_attributes data (hk_chain_head h, hk_known h)) as [c known] eqn:E.
  destruct (process_payload_attributes_ok _ _ _ _ _ _ E Hn Hk Hm) as (Ha & Hk' & Hslot).
  apply wp_modify, Inv_quiet; [|done]. unfold Inv. split_and!; try done. cbn. by rewrite Hslot.
Qed.

(** ** Duties *)

Lemma merge_partial_duties_ok update known first :
  Forall (duty_ok key_of) (dt_duties update) → Forall (duty_ok key_of) known →
  Forall (duty_ok key_of) (merge_partial_duties update known first).
Proof.
  intros Hu Hk. unfold merge_partial_duties. destruct (dt_has_next_epoch update); [done|].
  rewrite sort_by_key_perm. apply Forall_app. split; [done|].
  rewrite Forall_forall in Hk |- *. intros d. rewrite elem_of_bool_filter.
  naive_solver.
Qed.

Lemma sound_handle_duties t update :
  Forall (duty_ok key_of) (dt_duties update) → sound (handle_duties t update).
Proof.
  intros Hu. unfold handle_duties. apply sound_get. intros h us ds H. cbn zeta.
  set (duties := merge_partial_duties _ _ _). destruct (process_duties _ _ _ _) as [[cache req] db] eqn:Ep.
  pose proof H as (Hi & Hk & Hm & Hn & Hd & (Hdu & Hf & Hp & Hfeed & Hreg & Hus)).
  assert (Forall (duty_ok key_of) duties) as Hdu' by by apply merge_partial_duties_ok.
  destruct (process_duties_ok key_of R _ _ _ _ _ _ _ Ep Hdu' Hreg) as [Hb Hsame].
  assert (registrations_ok R cache) as Hreg' by (unfold registrations_ok; by rewrite Hsame).
  assert (Inv (h <| hk_local_cache := update_proposer_schedule duties cache |>
    <| hk_requested := req |> <| hk_duties := duties |>) us ds) as H'.
  { unfold Inv, sources_ok. by split_and!. }
  assert (sound (refresh_gloas_duty_feed;; on_head mark_duties_done;;
    (if bool_decide (is_Some (dt_dependent_root update)) &&
        bool_decide (is_Some (hk_last_dependent_root h)) &&
        negb (bool_decide (dt_dependent_root update = hk_last_dependent_root h))
     then on_head mark_duties_changed else mret tt);; maybe_fetch_primev (tn_primev_sent t))) as Htail
    by sound_steps.
  destruct (bool_decide (is_Some (dt_dependent_root update)));
    [apply after_modify|apply after_ret];
    (apply after_emit; [by solve_quiet|]; by apply after_modify, after_modify, after_modify, Htail).
Qed.

(** The beacon nodes' answers agree with the validator registry. *)
Definition duties_poll_ok (i : DutiesPoll) : Prop :=
  (∀ duties root, dp_current i = PollReady (Some (duties, root)) → Forall (duty_ok key_of) duties) ∧
  (∀ duties, dp_next i = PollReady (Some duties) → Forall (duty_ok key_of) duties).

Lemma poll_next_ok i current root :
  duties_poll_ok i → Forall (duty_ok key_of) current →
  match poll_next i current root with
  | (PollPending, f) => fetch_ok (Some f)
  | (PollReady (Some update), _) => Forall (duty_ok key_of) (dt_duties update)
  | (PollReady None, _) => True
  end.
Proof.
  intros [_ Hn] Hc. unfold poll_next. destruct (dp_next i) as [|[duties|]]; [done| |done].
  cbn. apply Forall_app. auto.
Qed.

Lemma duties_poll_sound i f :
  duties_poll_ok i → fetch_ok (Some f) →
  match duties_poll i f with
  | Some (PollPending, f', _) => fetch_ok (Some f')
  | Some (PollReady (Some update), _, _) => Forall (duty_ok key_of) (dt_duties update)
  | Some (PollReady None, _, _) => True
  | None => False
  end.
Proof.
  intros Hok Hf. destruct f as [next|current root|]; cbn in Hf |- *; [| |done].
  - destruct (dp_current i) as [|[[duties root]|]] eqn:Ec; [done| |done].
    assert (Forall (duty_ok key_of) duties) as Hds by exact (proj1 Hok _ _ Ec).
    destruct (dp_send i); [|done]. pose proof (poll_next_ok i duties root Hok Hds).
    by destruct (poll_next i duties root) as [[|[]] ?].
  - pose proof (poll_next_ok i current root Hok Hf). by destruct (poll_next i current root) as [[|[]] ?].
Qed.

Lemma sound_poll_duties t : duties_poll_ok (tn_duties t) → sound (poll_duties t).
Proof.
  intros Hok. unfold poll_duties. apply sound_gets. intros h us ds H.
  pose proof H as (_ & _ & _ & _ & _ & (_ & Hf & _)).
  destruct (hk_duties_fetch h) as [f|]; [|by apply sound_ret].
  pose proof (duties_poll_sound _ _ Hok Hf) as Hp.
  destruct (duties_poll _ _) as [[[res f'] requests]|]; [|done]. apply after_emit; [by solve_quiet|].
  destruct res as [|[update|]].
  - apply wp_modify, Inv_quiet; [|done].
    destruct H as (? & ? & ? & ? & ? & (? & ? & ? & ? & ? & ?)). unfold Inv, sources_ok. by split_and!.
  - assert (sound (modify (λ h, h <| hk_duties_fetch := None |>);;
      (if bool_decide (dt_duties update = []) then mret tt else handle_duties t update))) as Htail.
    { apply sound_bind; [frame|intros _]. case_bool_decide; [apply sound_ret|].
      by apply sound_handle_duties. }
    by apply Htail.
  - assert (sound (modify (λ h, h <| hk_duties_fetch := None |>);;
      modify (λ h, h <| hk_duties_fetch_attempt ::= S |>);;
      attempt ← gets hk_duties_fetch_attempt;
      if (attempt <? beacon_clients)%nat then fetch_duties (tn_duties_retry t) else mret tt)) as Htail
      by sound_steps.
    by apply Htail.
Qed.

(** ** The other answers *)

Lemma update_builder_infos_frame configs clear c :
  lc_proposer_duties (update_builder_infos configs clear c) = lc_proposer_duties c ∧
  lc_validator_registrations (update_builder_infos configs clear c) = lc_validator_registrations c.
Proof.
  unfold update_builder_infos. assert (∀ c, lc_proposer_duties (foldl remember_config c configs) = lc_proposer_duties c ∧
    lc_validator_registrations (foldl remember_config c configs) = lc_validator_registrations c) as H.
  { induction configs as [|b configs IH]; intros c'; simpl; [done|].
    destruct (IH (remember_config c' b)) as [-> ->]. unfold remember_config. by destruct (bf_api_key _). }
  destruct (H (if clear then c <| lc_api_keys := ∅ |> else c)) as [-> ->]. by destruct clear.
Qed.

Lemma Inv_cache h us ds c :
  Inv h us ds → lc_proposer_duties c = lc_proposer_duties (hk_local_cache h) → registrations_ok R c →
  Inv (h <| hk_local_cache := c |>) us ds.
Proof.
  intros (Hi & Hk & Hm & Hn & Hd & (Hdu & Hf & Hp & Hfeed & Hreg & Hus)) E Hr.
  unfold Inv, sources_ok. split_and!; try done. cbn. by rewrite E.
Qed.

Lemma sound_poll_primev_builders t : sound (poll_primev_builders t).
Proof.
  unfold poll_primev_builders. apply sound_bind; [auto with hk|intros h0].
  sound_steps. apply sound_modify. intros h us ds H.
  apply (Inv_cache h us ds (update_builder_infos _ false (hk_local_cache h)) H);
    [apply update_builder_infos_frame|]. unfold registrations_ok.
  rewrite (proj2 (update_builder_infos_frame _ _ _)). apply H.
Qed.

Lemma sound_poll_primev_validators t : sound (poll_primev_validators t).
Proof. unfold poll_primev_validators. sound_steps. Qed.

Lemma sound_handle_inclusion_list t il : sound (handle_inclusion_list t il).
Proof. unfold handle_inclusion_list. sound_steps. Qed.
#[local] Hint Resolve sound_handle_inclusion_list : hk.
Lemma sound_poll_inclusion_list t : sound (poll_inclusion_list t).
Proof. unfold poll_inclusion_list. sound_steps. Qed.
Lemma sound_poll_known_validators t : sound (poll_known_validators t).
Proof. unfold poll_known_validators. sound_steps. Qed.

(** ** Sync status *)

Lemma poll_sync_requests_ok t best pending :
  from_option (λ b, (b.1 < beacon_clients)%nat) True best →
  Forall (λ r, (r.1 < beacon_clients)%nat) pending →
  let '(rest, best') := poll_sync_requests t best pending in
  Forall (λ r, (r.1 < beacon_clients)%nat) rest ∧
  from_option (λ b, (b.1 < beacon_clients)%nat) True best'.
Proof.
  intros Hb Hp. revert best Hb. induction Hp as [|req pending Hr Hp IH]; intros best Hb; simpl; [done|].
  destruct (poll_sync_request t best req) as [keep best1] eqn:E1.
  assert (from_option (λ b, (b.1 < beacon_clients)%nat) True best1) as Hb1.
  { unfold poll_sync_request in E1. destruct (tn_sync t req.1) as [|[slot|]]; simplify_eq; [done| |done].
    by destruct (from_option _ _ best). }
  specialize (IH best1 Hb1). destruct (poll_sync_requests t best1 pending) as [rest best2].
  destruct IH. destruct keep; split; try done. by constructor.
Qed.

Lemma sound_poll_sync_answers t : sound (poll_sync_answers t).
Proof.
  unfold poll_sync_answers. apply sound_get. intros h us ds H. case_bool_decide; [by apply sound_ret|].
  pose proof H as ((Hbi & Hpend & Hbest) & Hk & Hm & Hn & Hd & Hs).
  pose proof (poll_sync_requests_ok t _ _ Hbest Hpend) as Hok.
  destruct (poll_sync_requests _ _ _) as [pending best]. destruct Hok as [Hp' Hb'].
  apply after_modify. case_bool_decide as Hnil.
  - apply after_modify. destruct best as [[idx slot]|].
    + apply wp_modify, Inv_quiet; [|done]. unfold Inv, indexes_ok. split_and!; try done.
      cbn in *. lia.
    + apply wp_ret, Inv_quiet; [|done]. by split_and!.
  - apply wp_ret, Inv_quiet; [|done]. by split_and!.
Qed.

Lemma sound_start_sync_check t : sound (start_sync_check t).
Proof.
  unfold start_sync_check. apply sound_get. intros h us ds H. destruct (_ && _); [|by apply sound_ret].
  apply after_emit; [rewrite list_fmap_compose; apply quiet_requests|].
  apply wp_modify, Inv_quiet; [|done]. destruct H as ((Hbi & _ & _) & H).
  split; [|exact H]. split_and!; [done| |done]. cbn. apply Forall_fmap, Forall_forall. intros c.
  rewrite elem_of_bool_filter, elem_of_seq. cbn. lia.
Qed.


(** ** Head blocks and deadlines *)

Lemma poll_blocks_quiet t n fetches :
  Forall (λ e, quiet e = true) (HkEvent <$> (poll_blocks t n fetches).2).
Proof.
  revert n. induction fetches as [|root fetches IH]; intros n; simpl; [done|].
  specialize (IH (S n)). destruct (poll_blocks t (S n) fetches) as [rest events].
  destruct (tn_blocks t n) as [|[view|]]; [done| |done]. destruct (tn_auctioneer_full t n); [done|].
  by constructor.
Qed.

Lemma sound_poll_head_blocks t : sound (poll_head_blocks t).
Proof.
  unfold poll_head_blocks. apply sound_bind; [auto with hk|intros fetches].
  pose proof (poll_blocks_quiet t 0 fetches) as Hq. destruct (poll_blocks t 0 fetches) as [rest events].
  apply sound_bind; [by apply sound_emit|intros _; frame].
Qed.

Lemma sound_send_attestation_deadline t : sound (send_attestation_deadline t).
Proof.
  unfold send_attestation_deadline. apply sound_get. intros h us ds H. cbn zeta.
  destruct (Z.ltb_spec (hk_deadline_slot h) (now_slot (tn_deadline_now t))) as [Hlt|]; cbn [andb];
    [|by apply sound_ret].
  destruct (_ && _); [|by apply sound_ret].
  pose proof H as (Hi & Hk & Hm & Hn & (Hp & Hsorted & Hall) & Hs). apply after_modify.
  assert (Forall (λ s, s ≤ now_slot (tn_deadline_now t)) ds).
  { eapply Forall_impl; [done|]. intros s Hs'. simpl in *. lia. }
  destruct (tn_deadline_full t).
  - apply wp_ret, Inv_quiet; [|done]. unfold Inv, deadlines_ok. split_and!; try done. cbn. lia.
  - apply wp_emit. cbn. rewrite app_nil_r. unfold Inv, deadlines_ok. split_and!; try done; cbn.
    + lia.
    + apply StronglySorted_app_2; [|done|repeat constructor].
      intros x y Hx [->|[]%not_elem_of_nil]%elem_of_cons. rewrite Forall_forall in Hall.
      apply Hall in Hx. lia.
    + apply Forall_app. split; [done|]. constructor; [lia|done].
Qed.

Lemma sound_poll_builder_index t : sound (poll_builder_index t).
Proof. unfold poll_builder_index. sound_steps. Qed.
Lemma sound_poll_consensus t : sound (poll_consensus t).
Proof. unfold poll_consensus. sound_steps. Qed.

(** ** Sending the slot update *)

Lemma next_duty_ok h us ds bid_slot duty prefs :
  Inv h us ds →
  next_duty h (trust_primev (hk_local_cache h) <$> lc_proposer_duties (hk_local_cache h)) bid_slot =
    (duty, prefs) →
  prefs_ok key_of prefs ∧ ∀ e, duty = Some e → de_slot e = bid_slot ∧ backed key_of R e.
Proof.
  intros (_ & _ & _ & _ & _ & (Hdu & _ & Hp & Hfeed & _)). unfold next_duty.
  destruct (find _ (_ <$> _)) as [e|] eqn:Ef.
  { apply find_some in Ef as [(e' & -> & Hin)%list_elem_of_fmap Hs].
    intros [= <- <-]. split; [done|]. intros e [= <-]. split; [by apply Z.eqb_eq|].
    apply trust_primev_ok. rewrite Forall_forall in Hfeed. auto. }
  clear Ef. case_bool_decide; [|by intros [= <- <-]].
  destruct (find _ (hk_duties h)) as [d|] eqn:Ed; [|by intros [= <- <-]].
  apply find_some in Ed as [Hin Hs]. destruct (for_duty d (hk_proposer_prefs h)) as [p prefs'] eqn:Ep.
  rewrite Forall_forall in Hdu. destruct (for_duty_ok key_of R _ _ _ _ Ep (Hdu _ Hin) Hp) as [Hp' Hb].
  intros [= <- <-]. split; [done|]. intros e. destruct p as [p|]; [|done]. intros [= <-].
  split; [by apply Z.eqb_eq|]. by apply Hb.
Qed.

Lemma next_attributes_exact h bid_slot duty il :
  attributes_exact (hk_known h) bid_slot
    (mkSlotUpdate bid_slot duty (next_payload_attributes h bid_slot) il).
Proof.
  intros a. cbn. unfold next_payload_attributes. rewrite list_elem_of_fmap. split.
  - intros ([[f s] a'] & -> & Hin). exists f.
    rewrite elem_of_bool_filter in Hin.
    destruct Hin as [Hin Hs]. apply elem_of_hash_iter in Hin. cbn in Hs. apply Z.eqb_eq in Hs. by subst.
  - intros [f Hf]. exists ((f, bid_slot), a). split; [done|].
    rewrite elem_of_bool_filter. rewrite elem_of_hash_iter.
    split; [done|]. cbn. by apply Z.eqb_refl.
Qed.

Lemma sound_send_slot_event il : sound (send_slot_event il).
Proof.
  unfold send_slot_event. apply sound_get. intros h us ds H. cbn zeta.
  destruct (next_duty _ _ _) as [duty prefs] eqn:Ed.
  destruct (next_duty_ok _ _ _ _ _ _ H Ed) as [Hp Hb].
  destruct H as (Hi & Hk & Hm & Hn & Hd & (Hdu & Hf & _ & Hfeed & Hreg & Hus)).
  apply after_modify, after_modify. apply wp_bind, wp_emit, wp_modify. cbn. rewrite app_nil_r.
  unfold Inv, sources_ok. split_and!; try done.
  - apply announced_sent; [done..|]. exact (next_attributes_exact h _ _ _).
  - apply Forall_app. split; [done|]. apply Forall_singleton. exact Hb.
Qed.

(** ** Turns *)

Definition turn_ok (t : Turn) : Prop :=
  now_slot (tn_now t) ≤ u64_max ∧ (∀ i, head_poll_ok (tn_head t i)) ∧ duties_poll_ok (tn_duties t).

Lemma sound_maybe_send t : sound (maybe_send_slot_event t).
Proof.
  unfold maybe_send_slot_event. apply sound_bind; [auto with hk|intros h].
  destruct (is_ready _ _); [|apply sound_ret]. apply sound_bind; [frame|intros _].
  apply sound_send_slot_event.
Qed.

#[local] Hint Resolve sound_check_clock sound_poll_head sound_poll_prefs sound_poll_attributes
  sound_poll_duties sound_poll_primev_builders sound_poll_primev_validators sound_poll_inclusion_list
  sound_poll_known_validators sound_poll_sync_answers sound_start_sync_check sound_poll_head_blocks
  sound_send_attestation_deadline sound_poll_builder_index sound_poll_consensus sound_maybe_send : hk.

Lemma sound_loop_body t : turn_ok t → sound (loop_body t).
Proof. intros (? & ? & ?). unfold loop_body. repeat (apply sound_bind; [auto with hk|intros _]). auto with hk. Qed.

(** Once a turn ends, no update is due. *)
Lemma chain_head_sent_not_ready now c : is_ready now (chain_head_sent c) = false.
Proof. unfold is_ready. cbn. change (all_done (chain_head_sent c)) with (all_done c). by destruct (all_done c). Qed.

Lemma loop_body_not_ready t h h' o :
  loop_body t h = Some (tt, h', o) → is_ready (tn_ready_now t) (hk_chain_head h') = false.
Proof.
  assert (∀ {A B} (m : Comp Housekeeper HkOutput A) (k : Comp Housekeeper HkOutput B) h b h' o,
    (m;; k) h = Some (b, h', o) → ∃ h1 o1, k h1 = Some (b, h', o1)) as Hlast.
  { intros A B m k h0 b h0' o0. unfold mbind, comp_bind. destruct (m h0) as [[[a h1] o1]|]; [|done].
    destruct (k h1) as [[[b1 h2] o2]|] eqn:E; [|done]. intros [= -> -> _]. eauto. }
  unfold loop_body. intros E. repeat (apply Hlast in E as (? & ? & E)).
  unfold maybe_send_slot_event, mbind, comp_bind, get in E.
  destruct (is_ready _ _) eqn:Er; [|by injection E as <- _].
  unfold modify, send_slot_event, mbind, comp_bind, get, emit in E.
  destruct (next_duty _ _ _) as [duty prefs]. unfold modify, on_head in E.
  injection E as <- _. apply chain_head_sent_not_ready.
Qed.

(** ** Any history

    Between turns other threads change the caches; only the housekeeper writes
    the duty feed. *)
Inductive HkOp := HkTurn (t : Turn) | HkOthers (cache : LocalCache).

Definition hk_op (op : HkOp) : Comp Housekeeper HkOutput unit :=
  match op with
  | HkTurn t => loop_body t
  | HkOthers cache =>
      modify (λ h, h <| hk_local_cache :=
        update_proposer_duties (lc_proposer_duties (hk_local_cache h)) cache |>)
  end.
Fixpoint hk_run (ops : list HkOp) : Comp Housekeeper HkOutput unit :=
  match ops with
  | [] => mret tt
  | op :: ops' => hk_op op;; hk_run ops'
  end.

Definition hk_op_ok (op : HkOp) : Prop :=
  match op with HkTurn t => turn_ok t | HkOthers cache => registrations_ok R cache end.

Lemma sound_op op : hk_op_ok op → sound (hk_op op).
Proof.
  destruct op as [t|cache]; simpl; [apply sound_loop_body|]. intros Hr. apply sound_modify.
  intros h us ds H. by apply Inv_cache.
Qed.
Lemma sound_run ops : Forall hk_op_ok ops → sound (hk_run ops).
Proof.
  induction 1 as [|op ops Hop _ IH]; cbn [hk_run]; [apply sound_ret|].
  apply sound_bind; [by apply sound_op|done].
Qed.

Lemma Inv_new now cache :
  now_slot now ≤ u64_max → registrations_ok R cache → lc_proposer_duties cache = [] →
  Inv (housekeeper_new now cache) [] [].
Proof.
  intros Hn Hr Hd. unfold Inv, sources_ok. cbn. rewrite Hd. split_and!; try done.
  - split_and!; cbn; [lia|constructor|done].
  - by split; constructor.
  - split_and!; [done|constructor..].
Qed.

Lemma run_inv now cache ops :
  now_slot now ≤ u64_max → registrations_ok R cache → lc_proposer_duties cache = [] →
  Forall hk_op_ok ops →
  ∃ h o, hk_run ops (housekeeper_new now cache) = Some (tt, h, o) ∧ Inv h (updates o) (deadlines o).
Proof.
  intros Hn Hr Hd Hops. pose proof (sound_run ops Hops _ _ _ (Inv_new now cache Hn Hr Hd)) as Hw.
  unfold wp in Hw. destruct (hk_run ops _) as [[[[] h] o]|]; [|done]. eauto.
Qed.

Lemma hk_run_snoc ops op h h' o :
  hk_run (ops ++ [op]) h = Some (tt, h', o) →
  ∃ h1 o1, hk_op op h1 = Some (tt, h', o1).
Proof.
  revert h h' o. induction ops as [|op' ops IH]; intros h h' o; cbn [app hk_run];
    unfold mbind, comp_bind.
  - destruct (hk_op op h) as [[[[] h1] o1]|] eqn:E; [|done]. intros [= <- _]. eauto.
  - destruct (hk_op op' h) as [[[[] h1] o1]|]; [|done].
    destruct (hk_run (ops ++ [op]) h1) as [[[[] h2] o2]|] eqn:E; [|done]. intros [= <- _]. eauto.
Qed.

(** C17: Over any history the housekeeper does not panic and announces slots in
    order. At the end of a turn the slot after the head has been announced once
    its deadline has passed, or its head block is known and duties, payload
    attributes and inclusion list are done; and when those are done, the last
    announcement carries exactly the attributes known for that slot. *)
Theorem slots_announced now cache ops t :
  now_slot now ≤ u64_max → registrations_ok R cache → lc_proposer_duties cache = [] →
  Forall hk_op_ok (ops ++ [HkTurn t]) →
  ∃ h o, hk_run (ops ++ [HkTurn t]) (housekeeper_new now cache) = Some (tt, h, o) ∧
    let head := hk_chain_head h in
    let bid_slot := succ_slot (ch_slot head) in
    StronglySorted (λ u v, su_bid_slot u ≤ su_bid_slot v) (updates o) ∧
    (ch_next_deadline head ≤ now_instant (tn_ready_now t) ∨
     is_Some (ch_block head) ∧ all_done head = true → ch_state head = HeadSent) ∧
    (ch_state head = HeadSent →
     ∃ u, last (updates o) = Some u ∧ su_bid_slot u = bid_slot ∧
       (all_done head = true → attributes_exact (hk_known h) bid_slot u)).
Proof.
  intros Hn Hr Hd Hops. destruct (run_inv now cache _ Hn Hr Hd Hops) as (h & o & E & HI).
  exists h, o. split; [done|]. destruct (hk_run_snoc _ _ _ _ _ E) as (h1 & o1 & Et).
  apply loop_body_not_ready in Et. destruct HI as (_ & _ & _ & [Hs Ha] & _).
  unfold is_ready in Et. cbn zeta. split_and!; [done| |].
  - destruct (ch_state (hk_chain_head h)); [|done].
    intros [Hdl|[Hb Had]]; apply orb_false_iff in Et as [E1 E2].
    + apply Z.leb_gt in E1. lia.
    + rewrite (bool_decide_eq_true_2 _ Hb), Had in E2. done.
  - intros Hst. rewrite Hst in Ha, Et. destruct Ha as (_ & u & Hl & Hu & Hex).
    exists u. split_and!; [done..|]. intros Had. apply Hex.
    rewrite Had in Et. by destruct (ch_sent_was_complete _).
Qed.

(** Attestation deadlines go to the auctioneer at most once per slot, in
    increasing slots, over any history. *)
Theorem deadlines_once now cache ops :
  now_slot now ≤ u64_max → registrations_ok R cache → lc_proposer_duties cache = [] →
  Forall hk_op_ok ops →
  ∃ h o, hk_run ops (housekeeper_new now cache) = Some (tt, h, o) ∧
    StronglySorted Z.lt (deadlines o) ∧ Forall (λ s, s ≤ hk_deadline_slot h) (deadlines o).
Proof.
  intros Hn Hr Hd Hops. destruct (run_inv now cache ops Hn Hr Hd Hops) as (h & o & E & HI).
  exists h, o. split; [done|]. destruct HI as (_ & _ & _ & _ & (_ & ? & ?) & _). done.
Qed.

(** C34: Every registration the housekeeper publishes for a slot is for that
    slot and for the key of the proposer's index, and is one the relay accepted
    or, where none is, made of preferences the proposer signed for the slot: the
    fee recipient and the gas limit are those it signed. Only local development
    publishes others. *)
Theorem published_registrations_backed now cache ops :
  now_slot now ≤ u64_max → registrations_ok R cache → lc_proposer_duties cache = [] →
  Forall hk_op_ok ops →
  ∃ h o, hk_run ops (housekeeper_new now cache) = Some (tt, h, o) ∧
    ∀ u e, HkSlotUpdate u ∈ o → su_registration_data u = Some e →
      de_slot e = su_bid_slot u ∧ backed key_of R e.
Proof.
  intros Hn Hr Hd Hops. destruct (run_inv now cache ops Hn Hr Hd Hops) as (h & o & E & HI).
  exists h, o. split; [done|]. destruct HI as (_ & _ & _ & _ & _ & (_ & _ & _ & _ & _ & Hus)).
  intros u e Hin. rewrite Forall_forall in Hus. apply Hus. apply list_elem_of_omap. by exists (HkSlotUpdate u).
Qed.
End runs.
