(* ===== verification/Validation.v ===== *)
(** * Which submissions are admitted

    [relay/src/auctioneer/validation.rs]: [validate_submission] accepts exactly
    the submissions that satisfy the conditions of [admissible], and marks the
    version of a submission as seen only when the submission belongs to the
    slot and is newer than the builder's last one. *)

From S2P Require Import Prelude Types Submission Hydration SlotStores SimError ApiError BidSorter.
From S2P Require Import Simulators LocalCache Payload BlockMerger Context.

Section validation.
Context `{HO : HashOrder} `{FX : FxHasher} `{ES : EthSpec} `{TH : TreeHash} `{BP : BlsPoints}
  `{BA : BidAdjustor} `{RE : RelayEnv}.
Implicit Types (c : AuctioneerContext) (s : SubmissionData) (d : SlotData).

(** No other bid is stored under the block hash. *)
Definition trace_agrees c (sub : Submission) : Prop :=
  let t := bid_trace sub in
  match sub with
  | Full (SGloas _) =>
      ∀ e, get_for_reveal (bt_block_hash t) (cx_gloas_payloads c) = Some e →
        gloas_has_bid_trace e t = true
  | _ => ∀ e, cx_payloads c !! bt_block_hash t = Some e → entry_has_bid_trace e t = true
  end.

(** The withdrawals root of the submission: its own, or the cached one its
    withdrawals key names. *)
Definition submission_withdrawals c s : option B256 :=
  match su_submission s with
  | Full _ => su_withdrawals_root s
  | Dehydrated dehydrated =>
      match su_withdrawals_root s with
      | Some root => Some root
      | None => cached_withdrawals_root (cx_hydration_cache c) dehydrated
      end
  end.

(** The submission belongs to the slot, can be hydrated and is the builder's
    newest. *)
Record current c (now : Clock) s d (attrs : PayloadAttributesUpdate) : Prop := {
  cur_slot : submission_slot (su_submission s) = cx_bid_slot c;
  cur_trace : trace_agrees c (su_submission s);
  cur_attributes : submission_attributes (su_submission s) d = Some attrs;
  cur_hydratable : ∀ dehydrated, su_submission s = Dehydrated dehydrated →
    can_hydrate (cx_hydration_cache c) dehydrated (ck_max_blobs_per_block now) = true
}.

Definition newest c s : Prop :=
  ∀ seen, lc_submission_versions (cx_cache c) !! builder_pubkey (su_submission s) =
      Some (cx_bid_slot c, seen) →
    version_lt seen (su_version s) = true.

(** A builder the proposer trusts, if it names any. *)
Definition trusted (info : BuilderInfo) d : Prop :=
  ∀ trusted_builders, vp_trusted_builders (sl_preferences d) = Some trusted_builders →
    trusted_builders ≠ [] →
    ∃ id, (bf_builder_id info = Some id ∨ id ∈ default [] (bf_builder_ids info)) ∧
      id ∈ trusted_builders.

(** The block is the one the proposer and the chain expect. *)
Record expected c s (info : BuilderInfo) d (attrs : PayloadAttributesUpdate) : Prop := {
  exp_fork : su_fork_name s = sl_current_fork d;
  exp_consistent : consistent (su_submission s);
  exp_timestamp : timestamp (su_submission s) = pa_timestamp (pu_payload_attributes attrs);
  exp_fee_recipient : is_local_dev = true ∨
    proposer_fee_recipient (su_submission s) = rg_fee_recipient (sl_registration d);
  exp_proposer : bt_proposer_pubkey (bid_trace (su_submission s)) = rg_pubkey (sl_registration d);
  exp_prev_randao : prev_randao (su_submission s) = pa_prev_randao (pu_payload_attributes attrs);
  exp_withdrawals : submission_withdrawals c s = Some (pu_withdrawals_root attrs);
  exp_trusted : trusted info d
}.

Definition admissible c now s info d attrs : Prop :=
  current c now s d attrs ∧ newest c s ∧ expected c s info d attrs.

(** ** The checks *)

Lemma trace_mismatch_false c sub : trace_mismatch c sub = false ↔ trace_agrees c sub.
Proof.
  unfold trace_mismatch, trace_agrees.
  assert (∀ {A} (o : option A) (f : A → bool),
    from_option (λ e, negb (f e)) false o = false ↔ ∀ e, o = Some e → f e = true) as Hf.
  { intros A [a|] f; cbn; [rewrite negb_false_iff|]; naive_solver. }
  destruct sub as [[sub|sub]|sub]; apply Hf.
Qed.

Lemma validate_against_slot_ok c now s d attrs root :
  validate_against_slot c now s d = Ok (attrs, root) ↔
  current c now s d attrs ∧ root = submission_withdrawals c s.
Proof.
  unfold validate_against_slot, submission_withdrawals.
  destruct (Z.eqb_spec (submission_slot (su_submission s)) (cx_bid_slot c)) as [Es|Es]; cbn [negb];
    [|by split; [|intros [[] _]]].
  destruct (trace_mismatch c (su_submission s)) eqn:Et.
  { split; [done|]. intros [[_ Ht _ _] _]. apply trace_mismatch_false in Ht. congruence. }
  apply trace_mismatch_false in Et.
  destruct (submission_attributes (su_submission s) d) as [attrs'|] eqn:Ea;
    [|by split; [|intros [[] _]; congruence]].
  destruct (su_submission s) as [full|dehydrated] eqn:Esub.
  - split; [intros [= <- <-]; split; [|done]; split; rewrite ?Esub; done|].
    intros [[_ _ Ha _] ->]. rewrite Esub in Ha. congruence.
  - destruct (can_hydrate _ _ _) eqn:Ec; cbn [negb].
    + split; [intros [= <- <-]; split; [|done]; split; rewrite ?Esub; try done; naive_solver|].
      intros [[_ _ Ha _] ->]. rewrite Esub in Ha. congruence.
    + split; [done|]. intros [[_ _ _ Hh] _]. specialize (Hh _ Esub). congruence.
Qed.

Lemma check_version_ok c s :
  check_submission_version (cx_cache c) (builder_pubkey (su_submission s)) (cx_bid_slot c)
    (su_version s) = Ok tt ↔ newest c s.
Proof.
  unfold check_submission_version, newest.
  destruct (lc_submission_versions _ !! _) as [[slot seen]|]; [|by split].
  destruct (Z.eqb_spec slot (cx_bid_slot c)) as [->|Hne]; cbn [andb];
    [|by split; [intros _ ? [= ? ?]|]].
  rewrite version_ge_lt. destruct (version_lt seen _) eqn:E; cbn [negb].
  - split; [|done]. by intros _ ? [= <-].
  - split; [done|]. intros Hn. specialize (Hn seen eq_refl). congruence.
Qed.

Lemma check_trusted_ok info d : check_if_trusted_builder info d = Ok tt ↔ trusted info d.
Proof.
  unfold check_if_trusted_builder, trusted.
  destruct (vp_trusted_builders _) as [l|]; [|by split].
  case_bool_decide as El; [by subst; split; [intros _ ? [= <-]|]|].
  destruct (existsb _ _) eqn:E.
  - split; [|done]. intros _ l' [= <-] _. apply existsb_elem in E as (id & Hin & Hid).
    apply bool_decide_eq_true in Hid. exists id. split; [|done].
    apply elem_of_app in Hin as [Hin|Hin]; [|by right]. left.
    destruct (bf_builder_id info); cbn in Hin; [|by apply elem_of_nil in Hin].
    apply list_elem_of_singleton in Hin. by subst.
  - split; [done|]. intros H. destruct (H l eq_refl El) as (id & Hor & Hid).
    apply not_true_iff_false in E. exfalso. apply E. apply existsb_elem. exists id.
    split; [|by apply bool_decide_eq_true]. apply elem_of_app.
    destruct Hor as [Hor|Hor]; [left|by right]. rewrite Hor. by apply list_elem_of_singleton.
Qed.

Lemma validate_data_ok c s info d attrs :
  (let? _ := validate_submission_data (su_submission s) (su_fork_name s)
               (submission_withdrawals c s) d attrs in
   let? _ := check_if_trusted_builder info d in Ok attrs) = Ok attrs ↔
  expected c s info d attrs.
Proof.
  rewrite result_bind_ok.
  assert (∀ r : Result unit BlockValidationError,
    result_bind r (λ _, Ok attrs) = Ok attrs ↔ r = Ok tt) as Hunit.
  { intros [[]|e]; cbn; split; congruence. }
  split.
  - intros ([] & Hd & Ht). apply Hunit, check_trusted_ok in Ht. revert Hd.
    unfold validate_submission_data, check_submission_fork.
    rewrite require_then_ok, bool_decide_eq_true. intros [Hf Hd].
    destruct (submission_validate (su_submission s)) as [[]|] eqn:Ev; [|done].
    apply submission_validate_ok in Ev. revert Hd. cbn [result_bind].
    rewrite !require_then_ok, require_ok, !Z.eqb_eq, orb_true_iff, Z.eqb_eq, bool_decide_eq_true.
    intros (? & ? & ? & ? & ?). split; auto. naive_solver.
  - intros [H1 H2 H3 H4 H5 H6 H7 H8]. exists tt. split; [|by apply Hunit, check_trusted_ok].
    unfold validate_submission_data, check_submission_fork.
    apply submission_validate_ok in H2. rewrite H2. cbn [result_bind].
    rewrite !require_then_ok, require_ok, !Z.eqb_eq, orb_true_iff, Z.eqb_eq, !bool_decide_eq_true.
    split_and!; auto. naive_solver.
Qed.

(** ** Validation *)

(** The context after validation: the version of a current submission that is
    the builder's newest is remembered. *)
Definition version_noted c s : AuctioneerContext :=
  c <| cx_cache ::= λ l, l <| lc_submission_versions ::=
        <[builder_pubkey (su_submission s) := (cx_bid_slot c, su_version s)]> |> |>.

Lemma validate_submission_wp now s info d c :
  wp (validate_submission now s info d) (λ r c' o,
    o = [] ∧ (∀ attrs, r = Ok attrs ↔ admissible c now s info d attrs) ∧
    ((∃ attrs, current c now s d attrs) ∧ newest c s ∧ c' = version_noted c s ∨
     ¬ ((∃ attrs, current c now s d attrs) ∧ newest c s) ∧ c' = c)) c.
Proof.
  unfold validate_submission. wp_step. wp_step. cbn.
  destruct (validate_against_slot c now s d) as [[attrs root]|e] eqn:Ev.
  - pose proof Ev as [Hcur ->]%validate_against_slot_ok.
    destruct (check_submission_version _ _ _ _) as [[]|e] eqn:Ek.
    + apply check_version_ok in Ek. wp_steps. split_and!; [done| |left; eauto].
      intros attrs'. split.
      * intros H. assert (attrs' = attrs) as ->.
        { apply result_bind_ok in H as ([] & _ & H). apply result_bind_ok in H as ([] & _ & H).
          congruence. }
        by apply validate_data_ok in H.
      * intros (Hcur' & _ & Hexp). pose proof (cur_attributes _ _ _ _ _ Hcur') as Ha.
        rewrite (cur_attributes _ _ _ _ _ Hcur) in Ha. injection Ha as <-.
        by apply validate_data_ok.
    + wp_step. assert (¬ newest c s) as Hn by (rewrite <- check_version_ok; congruence).
      split_and!; [done| |right; tauto]. intros attrs'. split; [done|]. intros (_ & ? & _). done.
  - wp_step. assert (∀ attrs, ¬ current c now s d attrs) as Hn.
    { intros attrs Hcur. assert (validate_against_slot c now s d =
        Ok (attrs, submission_withdrawals c s)) by (by apply validate_against_slot_ok).
      congruence. }
    split_and!; [done| |right; split; [|done]; by intros [[attrs ?] _]; eapply Hn].
    intros attrs. split; [done|]. intros (? & _ & _). by destruct (Hn attrs).
Qed.

(** ** Properties *)

(** C11: [validate_submission] accepts a submission, with the payload attributes
    of its parent, exactly when it is admissible: it is for the slot in
    progress, agrees with what is stored under its block hash, can be
    hydrated, is newer than the builder's last submission of the slot, has the
    fork, timestamp, randomness, proposer, fee recipient and withdrawals the
    slot demands and a trace that describes its payload, and comes from a
    builder the proposer trusts. It never panics, sends nothing, and changes
    only the builder's last version, when the submission is current and
    newest. *)
Theorem validation_exact now s info d c :
  ∃ r c', validate_submission now s info d c = Some (r, c', []) ∧
    (∀ attrs, r = Ok attrs ↔ admissible c now s info d attrs) ∧
    (c' = version_noted c s ∧ (∃ attrs, current c now s d attrs) ∧ newest c s ∨
     c' = c ∧ ¬ ((∃ attrs, current c now s d attrs) ∧ newest c s)).
Proof.
  pose proof (validate_submission_wp now s info d c) as H. unfold wp in H.
  destruct (validate_submission now s info d c) as [[[r c'] o]|]; [|done].
  destruct H as (-> & Hr & Hc). exists r, c'. split_and!; [done|done|]. tauto.
Qed.
End validation.
