(* ===== verification/Safety.v ===== *)
(** * The auctioneer's invariant

    What holds of the context between events, and what each handler of
    [Context.v] does to it: no handler panics, every request is answered once,
    every bid that can be served has its payload in the store. *)

From S2P Require Import Prelude Types Submission Hydration SlotStores SimError SimEntry ApiError.
From S2P Require Import BidSorter Simulators SimResults LocalCache Payload BlockMerger Context Validation.

(** ** Requests and their answers

    A request is known by what its answer is sent to. *)
Inductive Ticket :=
| TSubmission (r : SubmissionRef)
| THeader (tx : Sender)
| TBid (tx : Sender)
| TPayload (tx : Sender)
| TPreferences (tx : Sender).
#[export] Instance Ticket_eq_dec : EqDecision Ticket.
Proof. solve_decision. Defined.

Definition output_ticket (o : Output) : option Ticket :=
  match o with
  | OSubmissionResult _ r _ => Some (TSubmission r)
  | OHeader tx _ => Some (THeader tx)
  | OExecutionPayloadBid tx _ => Some (TBid tx)
  | OPayload tx _ => Some (TPayload tx)
  | OPreferences tx _ => Some (TPreferences tx)
  | _ => None
  end.

Definition one (b : bool) : Z := if b then 1 else 0.
Definition answers_one (t : Ticket) (o : Output) : Z := one (bool_decide (output_ticket o = Some t)).
(** The answers to [t] among the outputs. *)
Definition answers (t : Ticket) (os : list Output) : Z := sumZ (answers_one t <$> os).

(** The slots of the blocks handed out for publication. *)
Definition delivery (o : Output) : option u64 :=
  match o with
  | OPayload _ (Ok r) => Some (sk_slot (vp_signed_block (pl_to_publish r)))
  | _ => None
  end.
Definition deliveries : list Output → list u64 := omap delivery.

(** Outputs that neither answer a request nor hand out a block. *)
Definition silent (os : list Output) : Prop := Forall (λ o, output_ticket o = None) os.

Lemma answers_app t os os' : answers t (os ++ os') = answers t os + answers t os'.
Proof. unfold answers. by rewrite fmap_app, sumZ_app. Qed.

Lemma deliveries_app os os' : deliveries (os ++ os') = deliveries os ++ deliveries os'.
Proof. apply omap_app. Qed.

Lemma answers_nonneg t os : 0 ≤ answers t os.
Proof.
  apply sumZ_nonneg. intros x (o & -> & _)%list_elem_of_fmap. unfold answers_one, one.
  by case_bool_decide.
Qed.

Lemma answers_elem t o os : o ∈ os → output_ticket o = Some t → 0 < answers t os.
Proof.
  intros (l1 & l2 & ->)%list_elem_of_split Ho. rewrite answers_app.
  change (o :: l2) with ([o] ++ l2). rewrite answers_app.
  pose proof (answers_nonneg t l1). pose proof (answers_nonneg t l2).
  assert (answers t [o] = 1); [|lia]. unfold answers, answers_one. cbn.
  by rewrite bool_decide_true.
Qed.

Lemma silent_answers t os : silent os → answers t os = 0.
Proof.
  unfold answers. induction 1 as [|o os Ho Hos IH]; [done|]. cbn. rewrite IH.
  unfold answers_one. by rewrite Ho.
Qed.

Lemma silent_deliveries os : silent os → deliveries os = [].
Proof.
  unfold deliveries. induction 1 as [|o os Ho Hos IH]; [done|]. cbn. by destruct o; cbn in *.
Qed.

Lemma silent_fmap {A} (f : A → Output) l : (∀ a, output_ticket (f a) = None) → silent (f <$> l).
Proof. intros Hf. apply Forall_fmap, Forall_true. intros a. apply Hf. Qed.

(** ** The sorter's bids *)
Section sorter.
Context `{HO : HashOrder}.

Definition holds (s : BidSorter) (b : Bid) : Prop :=
  ∃ fork k, fs_bids (fork_state fork s) !! k = Some b.

Lemma sort_holds now b s :
  sorter_ok s → bid_slot b = bs_curr_bid_slot s →
  wp (sort now b) (λ _ s' _, sorter_ok s' ∧ bs_curr_bid_slot s' = bs_curr_bid_slot s ∧
    ∀ b', holds s' b' → holds s b' ∨ b' = b) s.
Proof.
  intros Hs Hslot. eapply wp_mono; [by apply sort_wp|]. intros r s' o H. unfold sorted in H.
  destruct (is_stale _ b).
  - destruct H as (_ & _ & ->). split_and!; [|done|].
    + apply (sorter_ok_insert s); [done|]. by apply fork_state_ok.
    + intros b' (fork & k & Hb). left. exists fork, k.
      change (fork_state fork _) with
        (fork_state fork (s <| bs_forks ::= <[bid_fork b := fork_state (bid_fork b) s]> |>)) in Hb.
      rewrite fork_state_insert in Hb. case_decide; [by subst|done].
  - destruct H as (st' & (Hok & Hb & _) & ->). split_and!; [|done|].
    + by apply (sorter_ok_insert s).
    + intros b' (fork & k & Hk).
      change (fork_state fork _) with
        (fork_state fork (s <| bs_forks ::= <[bid_fork b := st']> |>)) in Hk.
      rewrite fork_state_insert in Hk. case_decide as E; [|by left; exists fork, k].
      subst fork. rewrite Hb in Hk. apply lookup_insert_Some in Hk as [[_ <-]|[_ Hk]]; [by right|].
      left. by exists (bid_fork b), k.
Qed.

Lemma demote_holds now k s :
  sorter_ok s →
  wp (demote now k) (λ _ s' _, sorter_ok s' ∧ bs_curr_bid_slot s' = bs_curr_bid_slot s ∧
    ∀ b, holds s' b → holds s b) s.
Proof.
  intros Hs. unfold demote. wp_step. wp_step. cbn. wp_step; [by wp_step|].
  wp_step. wp_step. eapply wp_mono; [by apply process_demotion_wp|].
  intros _ s' o [(Hs' & Hslot & _ & _ & _ & Hf) _]. split_and!; [done|done|].
  intros b (fork & k' & Hb). exists fork, k'. destruct (Hf fork) as [E|E]; rewrite E in Hb; [done|].
  by apply lookup_delete_Some in Hb as [_ ?].
Qed.

Lemma process_slot_holds slot s :
  wp (process_slot slot) (λ _ s' _, sorter_ok s' ∧ bs_curr_bid_slot s' = slot ∧
    ∀ b, ¬ holds s' b) s.
Proof.
  eapply wp_mono; [apply (process_slot_wp _ _ auction_new)|].
  intros _ s' o ((Hs & Hslot & _) & Hf & _). split_and!; [done|done|].
  intros b (fork & k & Hb). unfold fork_state in Hb. rewrite Hf, lookup_empty in Hb. done.
Qed.

Lemma get_header_holds s fork h :
  sorter_ok s → get_header fork s = Some h → ∃ b, holds s b ∧ bid_block_hash b = h.
Proof.
  intros Hs Hh. unfold get_header in Hh.
  destruct (bs_forks s !! fork) as [st|] eqn:E; [|done]. cbn in Hh.
  destruct (fs_curr_bid st) as [b|] eqn:Eb; [|done]. injection Hh as <-.
  destruct (Hs fork st E) as [_ Htop]. rewrite Eb in Htop. destruct Htop as [Hb _].
  exists b. split; [|done]. exists fork, (bid_builder_pubkey b). unfold fork_state. by rewrite E.
Qed.
End sorter.

(** ** The invariant *)
Section safety.
Context `{HO : HashOrder} `{FX : FxHasher} `{ES : EthSpec} `{TH : TreeHash} `{BP : BlsPoints}
  `{BA : BidAdjustor} `{RE : RelayEnv}.

(** Requests whose sender waits: the answer to a request over HTTP that was
    dropped, or to one the relay made itself, is not sent. *)
Definition answerable (r : SubmissionRef) : Prop :=
  match ref_kind r with
  | RefHttp => future_open (ref_id r) = true
  | RefTcp => True
  | RefInternal => False
  end.
Definition open (t : Ticket) : Prop :=
  match t with TSubmission r => answerable r | _ => True end.

(** The answers still to come: results the simulators hold, and the payload
    request that waits for its payload. *)
Definition due (t : Ticket) (c : AuctioneerContext) : Z :=
  match t with
  | TSubmission r => owed r (cx_sims c)
  | TPayload tx =>
      from_option (λ p, one (bool_decide (pp_res_tx p = tx))) 0 (cx_pending_payload c)
  | _ => 0
  end.

(** The payload of block [h] is stored, or about to be if [H] says so. *)
Definition known (H : B256 → Prop) (c : AuctioneerContext) (h : B256) : Prop :=
  H h ∨ is_Some (cx_payloads c !! h) ∨ is_Some (get_payload h (cx_gloas_payloads c)).

(** A request of the slot has its payload stored. *)
Definition request_known (H : B256 → Prop) (c : AuctioneerContext) (q : ValidationRequest) : Prop :=
  let trace := signed_bid_trace (vr_submission q) in
  bt_slot trace ≤ cx_bid_slot c ∧
  (bt_slot trace = cx_bid_slot c → known H c (bt_block_hash trace)).

Record ctx_inv (H : B256 → Prop) (c : AuctioneerContext) : Prop := {
  inv_slot : bs_curr_bid_slot (cx_bid_sorter c) = cx_bid_slot c;
  inv_sorter : sorter_ok (cx_bid_sorter c);
  inv_bids : ∀ b, holds (cx_bid_sorter c) b → known H c (bid_block_hash b);
  inv_pool : pool_ok (cx_sims c);
  inv_requests : pool_all (request_known H c) (cx_sims c);
  inv_hydration : hydration_ok (cx_hydration_cache c);
  inv_small : hydration_small (cx_hydration_cache c);
  inv_keys : map_Forall (λ h e, entry_block_hash e = h) (cx_payloads c);
  inv_merged : map_Forall (λ _ b, is_Some (cx_payloads c !! entry_block_hash (bm_bid b)))
                 (bk_best_merged_blocks (cx_block_merger c))
}.

(** Between events nothing is left to be stored. *)
Definition ctx_ok : AuctioneerContext → Prop := ctx_inv (λ _, False).

(** A step within a slot: the invariant holds after it, the answers given and
    those still due are the ones due before and [d] new ones, and blocks are
    handed out for the slots [ds]. *)
Record hstep (H : B256 → Prop) (d : Ticket → Z) (ds : list u64) (c c' : AuctioneerContext)
    (o : list Output) : Prop := {
  st_inv : ctx_inv H c';
  st_slot : cx_bid_slot c' = cx_bid_slot c;
  st_pending : cx_pending_payload c' = cx_pending_payload c;
  st_clients : clients (cx_sims c') = clients (cx_sims c);
  st_grows : ∀ h, is_Some (cx_payloads c !! h) → is_Some (cx_payloads c' !! h);
  st_answers : ∀ t, open t → answers t o + due t c' = due t c + d t;
  st_deliveries : deliveries o = ds
}.

Definition none : Ticket → Z := λ _, 0.
Definition asks (t : Ticket) : Ticket → Z := λ t', one (bool_decide (t' = t)).
Definition owes (q : ValidationRequest) : Ticket → Z := λ t,
  match t with TSubmission r => req_owed r q | _ => 0 end.

Lemma request_known_blind H c : priority_blind (request_known H c).
Proof. by intros q p. Qed.

Lemma request_known_mono (H H' : B256 → Prop) c c' q :
  cx_bid_slot c' = cx_bid_slot c → (∀ h, known H c h → known H' c' h) →
  request_known H c q → request_known H' c' q.
Proof. intros Hs Hk [H1 H2]. split; rewrite Hs; auto. Qed.

(** The invariant survives changes that keep what is known. *)
Lemma ctx_inv_known (H H' : B256 → Prop) c :
  (∀ h, known H c h → known H' c h) → ctx_inv H c → ctx_inv H' c.
Proof.
  intros Hk []. split; auto. eapply pool_all_mono; [|done].
  intros q. by apply request_known_mono.
Qed.

Lemma ctx_ok_inv H c : ctx_ok c → ctx_inv H c.
Proof. apply ctx_inv_known. intros h [[]|?]. by right. Qed.

Lemma ctx_inv_stored h c :
  is_Some (cx_payloads c !! h) ∨ is_Some (get_payload h (cx_gloas_payloads c)) →
  ctx_inv (λ x, x = h) c → ctx_ok c.
Proof. intros Hh. apply ctx_inv_known. intros x [->|?]; by right. Qed.

Lemma hstep_refl H c : ctx_inv H c → hstep H none [] c c [].
Proof. intros Hc. split; try done. intros t _. unfold none. cbn. lia. Qed.

Lemma hstep_trans H H1 d d1 d2 ds1 ds2 c c1 c2 o1 o2 :
  (∀ t, open t → d t = d1 t + d2 t) →
  hstep H1 d1 ds1 c c1 o1 → hstep H d2 ds2 c1 c2 o2 → hstep H d (ds1 ++ ds2) c c2 (o1 ++ o2).
Proof.
  intros Hd [? ? ? ? ? Ha1 Hds1] [? ? ? ? ? Ha2 Hds2]. split; try congruence; auto.
  - intros t Ht. rewrite answers_app. specialize (Ha1 t Ht). specialize (Ha2 t Ht).
    rewrite (Hd t Ht). lia.
  - by rewrite deliveries_app, Hds1, Hds2.
Qed.

(** Sequencing. *)
Lemma wp_hstep {A B} H H1 d d1 d2 ds1 ds2 (m : Comp AuctioneerContext Output A)
    (k : A → Comp AuctioneerContext Output B) c :
  (∀ t, open t → d t = d1 t + d2 t) →
  wp m (λ a c1 o, hstep H1 d1 ds1 c c1 o ∧ wp (k a) (λ _, hstep H d2 ds2 c1) c1) c →
  wp (m ≫= k) (λ _, hstep H d (ds1 ++ ds2) c) c.
Proof.
  intros Hd Hm. apply wp_bind. eapply wp_mono; [exact Hm|]. intros a c1 o [H1' Hk].
  eapply wp_mono; [exact Hk|]. intros b c2 o' H2. by eapply hstep_trans.
Qed.

(** The new answers of a step, computed another way. *)
Lemma hstep_ext H d d' ds c c' o :
  (∀ t, open t → d t = d' t) → hstep H d ds c c' o → hstep H d' ds c c' o.
Proof. intros Hd []. split; try done. intros t Ht. rewrite <- Hd; auto. Qed.

(** ** Changes to one component *)

(** A change of fields the invariant does not mention. *)
Definition same_core (c c' : AuctioneerContext) : Prop :=
  cx_bid_slot c' = cx_bid_slot c ∧ cx_pending_payload c' = cx_pending_payload c ∧
  cx_bid_sorter c' = cx_bid_sorter c ∧ cx_sims c' = cx_sims c ∧
  cx_hydration_cache c' = cx_hydration_cache c ∧ cx_payloads c' = cx_payloads c ∧
  cx_gloas_payloads c' = cx_gloas_payloads c ∧
  bk_best_merged_blocks (cx_block_merger c') = bk_best_merged_blocks (cx_block_merger c).

Lemma same_core_known H c c' h : same_core c c' → known H c h ↔ known H c' h.
Proof. intros (_ & _ & _ & _ & _ & E1 & E2 & _). unfold known. by rewrite E1, E2. Qed.

Lemma same_core_inv H c c' : same_core c c' → ctx_inv H c → ctx_inv H c'.
Proof.
  intros Hc. pose proof (λ h, same_core_known H c c' h Hc) as Hk.
  destruct Hc as (E1 & _ & E2 & E3 & E4 & E5 & E6 & E7).
  intros []. split; rewrite ?E1, ?E2, ?E3, ?E4, ?E5, ?E7; try done.
  - intros b Hb. apply Hk. auto.
  - eapply pool_all_mono; [|done]. intros q. apply request_known_mono; [done|]. intros h. apply Hk.
Qed.

(** Such a change, with outputs that only answer requests. *)
Lemma hstep_same H d c c' o :
  ctx_inv H c → same_core c c' → (∀ t, open t → answers t o = d t) →
  hstep H d (deliveries o) c c' o.
Proof.
  intros Hc Hs Ha. pose proof (same_core_inv H c c' Hs Hc) as Hc'.
  destruct Hs as (E1 & E2 & _ & E3 & _ & E4 & _). split; try congruence.
  intros t Ht. rewrite (Ha t Ht). unfold due. rewrite E2, E3. lia.
Qed.

Lemma hstep_silent H c c' o :
  ctx_inv H c → same_core c c' → silent o → hstep H none [] c c' o.
Proof.
  intros Hc Hs Ho. rewrite <- (silent_deliveries o Ho). apply hstep_same; [done|done|].
  intros t _. by apply silent_answers.
Qed.

(** A change of the sorter alone. *)
Lemma hstep_sorter H c s o :
  ctx_inv H c → silent o → sorter_ok s → bs_curr_bid_slot s = cx_bid_slot c →
  (∀ b, holds s b → known H c (bid_block_hash b)) →
  hstep H none [] c (c <| cx_bid_sorter := s |>) o.
Proof.
  intros Hc Ho Hs Hslot Hb. destruct Hc. split; try done.
  - intros t _. rewrite (silent_answers _ _ Ho). unfold none. destruct t; cbn; lia.
  - by apply silent_deliveries.
Qed.

(** A change of the pool alone. *)
Lemma hstep_sims H c d s o :
  ctx_inv H c → silent o → pool_step d (cx_sims c) s → pool_all (request_known H c) s →
  hstep H (λ t, match t with TSubmission r => d r | _ => 0 end) [] c (c <| cx_sims := s |>) o.
Proof.
  intros Hc Ho (Hok & Howed & _ & Hcl) Hall. destruct Hc. split; try done.
  - intros t _. rewrite (silent_answers _ _ Ho). destruct t as [r|?|?|?|?]; cbn; rewrite ?Howed; lia.
  - by apply silent_deliveries.
Qed.

(** A payload stored under its block hash. *)
Lemma hstep_payload H c e o :
  ctx_inv H c → silent o →
  hstep H none [] c (c <| cx_payloads ::= <[entry_block_hash e := e]> |>) o.
Proof.
  intros Hc Ho.
  assert (∀ h, is_Some (cx_payloads c !! h) →
    is_Some ((<[entry_block_hash e := e]> (cx_payloads c)) !! h)) as Hg.
  { intros h Hh. rewrite lookup_insert_is_Some. destruct (decide (entry_block_hash e = h)); auto. }
  assert (∀ h, known H c h → known H (c <| cx_payloads ::= <[entry_block_hash e := e]> |>) h) as Hk.
  { intros h [?|[?|?]]; [by left|right; left; by apply Hg|by right; right]. }
  destruct Hc. split; try done.
  - split; try done.
    + intros b Hb. apply Hk. auto.
    + eapply pool_all_mono; [|done]. intros q. by apply request_known_mono.
    + by apply map_Forall_insert_2.
    + eapply map_Forall_impl; [done|]. intros a b. apply Hg.
  - intros t _. rewrite (silent_answers _ _ Ho). unfold none. destruct t; cbn; lia.
  - by apply silent_deliveries.
Qed.

(** ** Handlers *)

Lemma send_submission_result_step H id r res c :
  ctx_inv H c →
  wp (send_submission_result id r res) (λ _, hstep H (asks (TSubmission r)) [] c) c.
Proof.
  intros Hc. unfold send_submission_result, asks.
  assert (∀ t, open t → ¬ answerable r → one (bool_decide (t = TSubmission r)) = 0) as Hno.
  { intros t Ht Hr. case_bool_decide; [by subst|done]. }
  assert (∀ t, answers t [OSubmissionResult id r res] = one (bool_decide (t = TSubmission r))) as Ha.
  { intros t. unfold answers, answers_one. cbn. unfold one.
    repeat case_bool_decide; simplify_eq; done. }
  assert (hstep H (λ t', one (bool_decide (t' = TSubmission r))) [] c c
    [OSubmissionResult id r res]) as Hsent by (by apply (hstep_same H _ c c [OSubmissionResult id r res])).
  assert (¬ answerable r →
    hstep H (λ t', one (bool_decide (t' = TSubmission r))) [] c c []) as Hunsent.
  { intros Hr. eapply hstep_ext; [|by apply hstep_refl]. intros t Ht. by rewrite Hno. }
  unfold answerable in Hunsent. destruct (ref_kind r); [destruct (future_open (ref_id r))|..];
    wp_step; auto.
Qed.

Lemma sort_step H now b c :
  ctx_inv H c → bid_slot b = cx_bid_slot c → known H c (bid_block_hash b) →
  wp (on_sorter (sort now b)) (λ _, hstep H none [] c) c.
Proof.
  intros Hc Hslot Hb. unfold on_sorter. wp_step.
  eapply wp_mono; [apply sort_holds; [apply Hc|by rewrite (inv_slot _ _ Hc)]|].
  intros r s o (Hs & E & Hh). apply hstep_sorter; [done| |done| |].
  - by apply silent_fmap.
  - by rewrite E, (inv_slot _ _ Hc).
  - intros b' [?| ->]%Hh; [by apply (inv_bids _ _ Hc)|done].
Qed.

Lemma demote_step H now k c :
  ctx_inv H c → wp (on_sorter (demote now k)) (λ _, hstep H none [] c) c.
Proof.
  intros Hc. unfold on_sorter. wp_step. eapply wp_mono; [apply demote_holds, Hc|].
  intros r s o (Hs & E & Hh). apply hstep_sorter; [done| |done| |].
  - by apply silent_fmap.
  - by rewrite E, (inv_slot _ _ Hc).
  - intros b ?%Hh. by apply (inv_bids _ _ Hc).
Qed.

Lemma wp_none {A B} H H1 d ds (m : Comp AuctioneerContext Output A)
    (k : A → Comp AuctioneerContext Output B) c :
  wp m (λ a c1 o, hstep H1 none [] c c1 o ∧ wp (k a) (λ _, hstep H d ds c1) c1) c →
  wp (m ≫= k) (λ _, hstep H d ds c) c.
Proof. intros Hm. by apply (wp_hstep H H1 d none d [] ds). Qed.

(** A last part that answers nothing. *)
Lemma wp_then {A B} H H1 d ds (m : Comp AuctioneerContext Output A)
    (k : A → Comp AuctioneerContext Output B) c :
  wp m (λ a c1 o, hstep H1 d ds c c1 o ∧ wp (k a) (λ _, hstep H none [] c1) c1) c →
  wp (m ≫= k) (λ _, hstep H d ds c) c.
Proof.
  intros Hm. rewrite <- (app_nil_r ds). apply (wp_hstep H H1 d d none ds []); [|done].
  intros t _. unfold none. lia.
Qed.

Lemma send_to_sim_step H now q fast c :
  ctx_inv H c → request_known H c q → wp (send_to_sim now q fast) (λ _, hstep H (owes q) [] c) c.
Proof.
  intros Hc Hq. unfold send_to_sim, on_sims. apply (wp_then H H). wp_step.
  eapply wp_mono.
  { apply (wp_keeps (pool_all (request_known H c)) (λ _, True)); [apply dispatch_wp, Hc|
      apply dispatch_keeps; [apply request_known_blind|exact Hq]|apply Hc]. }
  intros started s o (Hstep & Hall & _).
  pose proof (hstep_sims H c _ s (OSimStarted <$> o) Hc (silent_fmap OSimStarted _ (λ _, eq_refl))
    Hstep Hall) as Hh.
  split; [eapply hstep_ext; [|exact Hh]; by intros []|].
  apply st_inv in Hh. wp_step; wp_step; [|by apply hstep_refl].
  apply hstep_silent; [done|done|by repeat constructor].
Qed.

Lemma store_data_step H now e opt id c :
  ctx_inv H c →
  wp (store_data now e opt id) (λ _ c' o, hstep H none [] c c' o ∧
    cx_payloads c' = <[entry_block_hash e := e]> (cx_payloads c) ∧
    cx_gloas_payloads c' = cx_gloas_payloads c) c.
Proof.
  intros Hc. unfold store_data, record_submission.
  assert (∀ o, silent o →
    hstep H none [] c (c <| cx_payloads ::= <[entry_block_hash e := e]> |>) o ∧
    cx_payloads (c <| cx_payloads ::= <[entry_block_hash e := e]> |>) =
      <[entry_block_hash e := e]> (cx_payloads c) ∧
    cx_gloas_payloads (c <| cx_payloads ::= <[entry_block_hash e := e]> |>) =
      cx_gloas_payloads c) as Hs.
  { intros o Ho. split_and!; [by apply hstep_payload|done|done]. }
  wp_step. destruct e as [s|g].
  - wp_step. destruct opt; wp_steps; apply Hs; by repeat constructor.
  - wp_steps. apply Hs. constructor.
Qed.

(** ** Submissions *)

(** What the bid adjustor promises of an adjusted block: a request of the slot
    for the block it returns, whose result nobody waits for. *)
Definition adjustor_lawful : Prop := ∀ a entry d dry_run adjusted request adjustable,
  try_apply_adjustments a entry d dry_run = Some (adjusted, request, adjustable) →
  bt_slot (signed_bid_trace (vr_submission request)) = sl_bid_slot d ∧
  bt_block_hash (signed_bid_trace (vr_submission request)) = entry_block_hash adjusted ∧
  (vr_is_optimistic request = true ∨ ref_kind (vr_submission_ref request) = RefInternal).

(** The chain's blob limit is within the consensus limit on commitments. *)
Definition clock_ok (now : Clock) : Prop :=
  ck_max_blobs_per_block now ≤ max_blob_commitments_per_block.

(** The decoder bounds the transactions of a submission. *)
Definition submission_small (s : Submission) : Prop :=
  match s with Full _ => True | Dehydrated d => dehydrated_small d end.

Lemma hydration_step H h c :
  ctx_inv H c → hydration_ok h → hydration_small h →
  hstep H none [] c (c <| cx_hydration_cache := h |>) [].
Proof.
  intros [] H1 H2. split; try done. intros t _. unfold none. destruct t; cbn; lia.
Qed.

Lemma hydrate_step H now sub c :
  ctx_inv H c → clock_ok now → submission_small sub → consistent sub →
  (∀ d, sub = Dehydrated d →
    can_hydrate (cx_hydration_cache c) d (ck_max_blobs_per_block now) = true) →
  wp (hydrate_submission now sub) (λ r c' o, hstep H none [] c c' o ∧
    ∃ full tx_root, r = Ok (full, tx_root) ∧ signed_bid_trace full = bid_trace sub ∧
      consistent (Full full)) c.
Proof.
  intros Hc Hnow Hsm Hcons Hcan. unfold hydrate_submission. destruct sub as [full|d].
  { wp_step. split; [by apply hstep_refl|]. eauto. }
  specialize (Hcan d eq_refl). cbn in Hsm.
  destruct (can_hydrate_success _ d _ (inv_hydration _ _ Hc) Hnow Hcan)
    as (data & h' & E & Hm & _ & _ & Hv & _).
  assert (consistent (Full (SFulu (hd_submission data)))) as Hfull.
  { apply submission_validate_ok. rewrite Hv. by apply submission_validate_ok. }
  pose proof (can_hydrate_lengths _ d _ data h' (inv_hydration _ _ Hc) (inv_small _ _ Hc) Hsm Hnow
    Hcan E) as Hlen.
  wp_step. wp_step. cbn. rewrite E. wp_step. wp_step. wp_step. rewrite Hlen. cbn. split.
  - apply hydration_step; [done|eapply hydrate_ok; [|exact E]; apply Hc|].
    by eapply hydrate_small; [|exact Hsm|exact E]; apply Hc.
  - eexists _, _. by split_and!.
Qed.

Hypothesis lawful : adjustor_lawful.

(** Storing an adjusted block and having it simulated. *)
Lemma adjusted_step H now d c a entry dry adjusted request adjustable fast :
  ctx_inv H c → sl_bid_slot d = cx_bid_slot c →
  try_apply_adjustments a entry d dry = Some (adjusted, request, adjustable) →
  wp (store_data now adjusted (vr_is_optimistic request) (vr_submission_id request);;
      send_to_sim now request fast)
    (λ _, hstep H none [] c) c.
Proof.
  intros Hc Hslot E. destruct (lawful _ _ _ _ _ _ _ E) as (Hs & Hh & Href).
  apply (wp_none H H). eapply wp_mono; [by apply store_data_step|].
  intros _ c1 o (Hst & Hp & _). split; [done|]. pose proof (st_inv _ _ _ _ _ _ Hst) as Hc1.
  eapply wp_mono; [apply (send_to_sim_step H); [done|]|].
  - unfold request_known. rewrite Hs, Hh, Hslot, (st_slot _ _ _ _ _ _ Hst). split; [lia|].
    intros _. right. left. rewrite Hp, lookup_insert_eq. eauto.
  - intros ? c2 o2 H2. eapply hstep_ext; [|exact H2]. intros [r|?|?|?|?] Ht; cbn; try done.
    unfold req_owed. destruct Href as [->|Href]; [done|]. case_match; [done|].
    case_bool_decide as Er; [|done]. subst. cbn in Ht. unfold answerable in Ht.
    by rewrite Href in Ht.
Qed.

Lemma dry_run_step H now entry d c :
  ctx_inv H c → sl_bid_slot d = cx_bid_slot c →
  wp (try_adjustments_dry_run now entry d) (λ _, hstep H none [] c) c.
Proof.
  intros Hc Hslot. unfold try_adjustments_dry_run. wp_step. wp_step. cbn.
  wp_step; [|by wp_step; apply hstep_refl].
  destruct (try_apply_adjustments _ _ _ _) as [[[adjusted request] adjustable]|] eqn:E;
    [|by wp_step; apply hstep_refl].
  apply (wp_none H H). wp_step. split; [by apply hstep_silent; [|done|constructor]|].
  eapply adjusted_step; [|done|exact E]. by apply (same_core_inv H c).
Qed.

Lemma sort_submission_step H now s info d attrs c :
  ctx_inv H c → bt_slot (bid_trace (su_submission s)) = cx_bid_slot c →
  H (bt_block_hash (bid_trace (su_submission s))) →
  wp (sort_submission now s info d attrs) (λ _, hstep H none [] c) c.
Proof.
  intros Hc Hslot HH. unfold sort_submission. wp_step. wp_step. cbn.
  wp_step; [|by wp_step; apply hstep_refl].
  apply (wp_none H H). eapply wp_mono; [apply (sort_step H); [done|done|by left]|].
  intros r c1 o H1. split; [done|]. wp_step. apply hstep_refl, H1.
Qed.

Lemma store_submission_step now s d attrs sub tx_root opt h c :
  ctx_inv (λ x, x = h) c → sl_bid_slot d = cx_bid_slot c →
  consistent (Full sub) → bt_block_hash (signed_bid_trace sub) = h →
  wp (store_submission now s d attrs sub tx_root opt) (λ _, hstep (λ _, False) none [] c) c.
Proof.
  intros Hc Hslot Hcons Hh. unfold store_submission. destruct sub as [sub|sub].
  - apply (wp_none _ (λ x, x = h)). eapply wp_mono; [by apply dry_run_step|].
    intros ? c1 o H1. split; [done|]. eapply wp_mono; [apply (store_data_step (λ x, x = h)), H1|].
    intros ? c2 o2 (H2 & Hp & _). destruct H2. split; try done.
    apply (ctx_inv_stored h); [|done]. left. rewrite Hp. cbn in Hcons, Hh.
    destruct Hcons as (_ & Hb & _). unfold entry_block_hash. cbn. rewrite <- Hb, Hh.
    rewrite lookup_insert_eq. eauto.
  - assert (∀ o, silent o → hstep (λ _, False) none [] c (c <| cx_gloas_payloads ::=
      insert_payload h (gloas_payload_new sub (rg_fee_recipient (sl_registration d))) |>) o) as Hs.
    { intros o Ho. destruct Hc. split; try done.
      - apply (ctx_inv_stored h).
        { right. unfold get_payload. cbn. rewrite lookup_insert_eq. eauto. }
        assert (∀ x, known (λ x, x = h) c x → known (λ x, x = h) (c <| cx_gloas_payloads ::=
          insert_payload h (gloas_payload_new sub (rg_fee_recipient (sl_registration d))) |>) x) as Hk.
        { intros x [->|[?|Hx]]; [by left|by right; left|]. unfold known, get_payload. cbn.
          rewrite lookup_insert_is_Some. destruct (decide (h = x)) as [<-|]; auto. }
        split; try done; [by auto|].
        eapply pool_all_mono; [|done]. intros q. by apply request_known_mono.
      - intros t _. rewrite (silent_answers _ _ Ho). unfold none. destruct t; cbn; lia.
      - by apply silent_deliveries. }
    cbn in Hh. rewrite Hh. unfold record_submission. wp_step. wp_step.
    destruct opt; wp_steps; apply Hs; by repeat constructor.
Qed.

Lemma sort_submission_frame now s info d attrs c :
  sorter_ok (cx_bid_sorter c) → bt_slot (bid_trace (su_submission s)) = bs_curr_bid_slot (cx_bid_sorter c) →
  wp (sort_submission now s info d attrs)
    (λ _ c' _, cx_hydration_cache c' = cx_hydration_cache c) c.
Proof.
  intros Hs Hslot. unfold sort_submission, on_sorter. wp_step. wp_step. cbn.
  wp_step; [|by wp_step]. wp_step. wp_step. eapply wp_mono; [by apply sort_wp|].
  intros ? ? ? _. by wp_step.
Qed.

Lemma process_submission_step now s info d attrs c :
  ctx_ok c → clock_ok now → submission_small (su_submission s) → sl_bid_slot d = cx_bid_slot c →
  submission_slot (su_submission s) = cx_bid_slot c → consistent (su_submission s) →
  (∀ dehydrated, su_submission s = Dehydrated dehydrated →
    can_hydrate (cx_hydration_cache c) dehydrated (ck_max_blobs_per_block now) = true) →
  wp (process_submission now s info d attrs)
    (λ _, hstep (λ _, False) (asks (TSubmission (su_submission_ref s))) [] c) c.
Proof.
  intros Hc Hnow Hsm Hd Hslot Hcons Hcan.
  set (h := bt_block_hash (bid_trace (su_submission s))). set (H := λ x, x = h).
  apply (ctx_ok_inv H) in Hc. unfold process_submission.

  apply (wp_none _ H). eapply wp_mono.
  { apply wp_conj; [apply (sort_submission_step H); [done|exact Hslot|done]|].
    apply sort_submission_frame; [apply Hc|]. by rewrite (inv_slot _ _ Hc). }
  intros [opt top] c1 o1 [H1 Hy]. split; [done|]. pose proof (st_inv _ _ _ _ _ _ H1) as Hc1.
  apply (wp_none _ H). eapply wp_mono.
  { apply (hydrate_step H); [done|done|done|done|]. rewrite Hy. exact Hcan. }
  intros r c2 o2 (H2 & full & tx_root & -> & Ht & Hf). split; [done|].
  pose proof (st_inv _ _ _ _ _ _ H2) as Hc2.
  assert (cx_bid_slot c2 = cx_bid_slot c) as Es.
  { by rewrite (st_slot _ _ _ _ _ _ H2), (st_slot _ _ _ _ _ _ H1). }
  assert (∀ c', ctx_inv H c' → cx_bid_slot c' = cx_bid_slot c →
    wp (send_to_sim now (validation_request s d attrs full tx_root opt top) false;;
        store_submission now s d attrs full tx_root opt)
      (λ _, hstep (λ _, False) (if opt then none else asks (TSubmission (su_submission_ref s))) []
              c') c') as Hrest.
  { intros c' Hc' Es'. apply (wp_then _ H). eapply wp_mono.
    - apply (send_to_sim_step H); [done|]. unfold request_known. cbn. rewrite Ht, Es'.
      unfold submission_slot in Hslot. rewrite Hslot. split; [lia|]. intros _. by left.
    - intros ? c3 o3 H3. split.
      + eapply hstep_ext; [|exact H3]. intros t _. unfold owes, req_owed, asks, none. cbn.
        destruct opt, t; cbn; unfold one; repeat case_bool_decide; congruence.
      + apply (store_submission_step _ _ _ _ _ _ _ h); [apply H3| |done|].
        * by rewrite Hd, (st_slot _ _ _ _ _ _ H3).
        * by rewrite Ht. }
  destruct opt; [|by apply (wp_none _ H); wp_step; split; [apply hstep_refl|apply Hrest]].
  apply (wp_then _ H). eapply wp_mono; [by apply send_submission_result_step|].
  intros ? c3 o3 H3. split; [done|]. apply Hrest; [apply H3|].
  by rewrite (st_slot _ _ _ _ _ _ H3).
Qed.

(** A submission is answered once, now or when it was simulated. *)
Lemma handle_submission_step now s d c :
  ctx_ok c → clock_ok now → submission_small (su_submission s) → sl_bid_slot d = cx_bid_slot c →
  wp (handle_submission now s d)
    (λ _, hstep (λ _, False) (asks (TSubmission (su_submission_ref s))) [] c) c.
Proof.
  intros Hc Hnow Hsm Hd. unfold handle_submission.
  apply (wp_none _ (λ _, False)). wp_step. split; [by apply hstep_refl|].
  set (info := builder_info _ _). apply (wp_none _ (λ _, False)).
  eapply wp_mono; [apply validate_submission_wp|].
  intros r c1 o (-> & Hr & Hc1).
  assert (same_core c c1) as Hsame by (by destruct Hc1 as [(_ & _ & ->)|[_ ->]]).
  assert (ctx_ok c1) as Hok1 by (by eapply same_core_inv).
  assert (cx_bid_slot c1 = cx_bid_slot c) as Es by apply Hsame.
  split; [apply hstep_silent; [done|done|constructor]|].
  destruct r as [attrs|e].
  - destruct (Hr attrs) as [Hadm _]. specialize (Hadm eq_refl).
    destruct Hadm as ([Hslot _ _ Hcan] & _ & [_ Hcons _ _ _ _ _ _]).
    assert (cx_hydration_cache c1 = cx_hydration_cache c) as Ehc by apply Hsame.
    apply process_submission_step; rewrite ?Es, ?Ehc; done.
  - apply (wp_none _ (λ _, False)). destruct (su_submission s) as [full|dh].
    + wp_step. split; [by apply hstep_refl|]. by apply send_submission_result_step.
    + wp_step. assert (hstep (λ _, False) none [] c1
        (c1 <| cx_hydration_cache ::= λ h, feed h dh |>) []) as Hf.
      { apply hydration_step; [done|apply Hydration.feed_ok, Hok1|apply feed_small; [apply Hok1|done]]. }
      split; [done|]. apply send_submission_result_step, Hf.
Qed.

(** ** Simulation results *)

Lemma handle_builder_demotion_step H now slot builder h value reason c :
  ctx_inv H c →
  wp (handle_builder_demotion now slot builder h value reason) (λ _, hstep H none [] c) c.
Proof.
  intros Hc. unfold handle_builder_demotion. wp_steps; apply hstep_silent; try done.
  - by destruct operator_connected; repeat constructor.
  - constructor.
Qed.

Definition needs_answer (i : SimulationResultInner) : bool :=
  negb (version_is_optimistic (si_optimistic_version i)).

(** What a result that was waited for owes. *)
Definition owes_result (i : SimulationResultInner) (sent : bool) : Ticket → Z :=
  if needs_answer i && negb sent then asks (TSubmission (si_submission_ref i)) else none.

Lemma handle_simulation_result_step H now i sent c :
  ctx_inv H c →
  wp (handle_simulation_result now (Some i) sent) (λ _, hstep H (owes_result i sent) [] c) c.
Proof.
  intros Hc. unfold handle_simulation_result. apply (wp_none _ H).
  eapply (wp_mono _ (λ _, hstep H none [] c)).
  - destruct (si_bid i) as [b|]; [|by wp_step; apply hstep_refl].
    wp_step. wp_step. cbn. destruct (si_result i); [by wp_step; apply hstep_refl|].
    wp_step; [|by wp_step; apply hstep_refl]. wp_step; [|by apply handle_builder_demotion_step].
    wp_steps; apply hstep_silent; try done; by repeat constructor.
  - intros ? c1 o H1. split; [done|]. unfold owes_result, needs_answer.
    rewrite andb_comm. wp_step; [apply send_submission_result_step, H1|].
    wp_step. apply hstep_refl, H1.
Qed.

Lemma sort_simulation_result_step now i c :
  ctx_ok c → result_from (request_known (λ _, False) c) i →
  (∀ b, si_bid i = Some b → bid_slot b = cx_bid_slot c) →
  wp (sort_simulation_result now (Some i)) (λ sent c' o,
    hstep (λ _, False) (owes_result i false) [] c c' o ∧ sent = needs_answer i) c.
Proof.
  intros Hc [Hok Hbid] Hslot. unfold sort_simulation_result. fold (needs_answer i).
  set (ok := λ _, False).
  assert (∀ c' res, ctx_inv ok c' →
    wp (if needs_answer i then send_submission_result (si_submission_id i) (si_submission_ref i) res
        else mret tt) (λ _, hstep ok (owes_result i false) [] c') c') as Hsend.
  { intros c' res Hc'. unfold owes_result. destruct (needs_answer i); cbn;
      [by apply send_submission_result_step|]. wp_step. by apply hstep_refl. }
  wp_step. eapply (wp_mono _ (λ _, hstep ok (owes_result i false) [] c)).
  2:{ intros ? c1 o H1. wp_step. by rewrite app_nil_r. }
  destruct (si_result i) as [t|err] eqn:Er.
  - destruct (Hok t eq_refl) as [b Eb]. rewrite Eb. destruct (Hbid b Eb) as (q & [_ Hq] & ->).
    apply (wp_none ok ok). eapply wp_mono.
    { apply sort_step; [done|by apply Hslot|]. apply Hq. by apply (Hslot _ Eb). }
    intros ? c1 o H1. split; [done|]. pose proof (st_inv _ _ _ _ _ _ H1) as Hc1.
    specialize (Hsend c1 (Ok tt) Hc1). destruct (needs_answer i) eqn:En; [|done].
    apply (wp_none ok ok). wp_step. split; [|done].
    by apply hstep_silent; [done|done|repeat constructor].
  - wp_step; [|by apply Hsend]. apply (wp_none ok ok).
    eapply (wp_mono _ (λ _, hstep ok none [] c)).
    + destruct (si_bid i); [by apply demote_step|]. wp_step. by apply hstep_refl.
    + intros ? c1 o H1. split; [done|]. apply Hsend, H1.
Qed.

Lemma on_merged_sim_result_step H inner c :
  ctx_inv H c → wp (on_merged_sim_result inner) (λ _, hstep H none [] c) c.
Proof.
  intros Hc. unfold on_merged_sim_result. wp_steps; apply hstep_silent; try done;
    by repeat constructor.
Qed.

(** ** Merged blocks *)

Lemma merge_into_best cfg now base r m l payload m' l' :
  merge_into cfg now base r m l = (payload, m', l') →
  match payload with
  | Some e => entry_block_hash e = ep_block_hash (mr_execution_payload r) ∧
      ∃ k b, bm_bid b = e ∧ bk_best_merged_blocks m' = <[k := b]> (bk_best_merged_blocks m)
  | None => bk_best_merged_blocks m' = bk_best_merged_blocks m
  end.
Proof.
  unfold merge_into, prepare_merged_payload_for_storage.
  destruct (receive_ns base); [|by intros [= <- <- <-]].
  destruct (mr_proposer_value r <=? _); intros [= <- <- <-]; [done|]. split; [done|].
  by eexists _, (mkBestMergedBlock _ _ _).
Qed.

Lemma handle_merge_response_step cfg now r c :
  ctx_ok c → wp (handle_merge_response cfg now r) (λ _, hstep (λ _, False) none [] c) c.
Proof.
  intros Hc. unfold handle_merge_response. wp_step. wp_step. cbn.
  destruct (cx_payloads c !! mr_base_block_hash r) as [base|]; [|by wp_step; apply hstep_refl].
  wp_step. wp_step. cbn.
  destruct (merge_into _ _ _ _ _ _) as [[payload m'] l'] eqn:E. apply merge_into_best in E.
  wp_step. wp_step. cbn. destruct payload as [e|].
  - wp_step. destruct E as [Eh (k & b & Eb & Em)]. rewrite <- Eh.
    pose proof (hstep_payload (λ _, False) c e [] Hc ltac:(constructor)) as [Hi Hs Hp Hcl Hg Ha Hd].
    split; try done. destruct Hi as [I1 I2 I3 I4 I5 I6 I7 I8 I9]. split; try done. cbn in *.
    rewrite Em. apply map_Forall_insert_2; [|done]. rewrite Eb, lookup_insert_eq. eauto.
  - wp_step. apply hstep_silent; [done| |constructor]. by split_and!.
Qed.

Lemma merged_header_best cfg now original mev m l e m' l' :
  merged_header cfg now original mev m l = (e, m', l') →
  bk_best_merged_blocks m' = bk_best_merged_blocks m ∧
  ∀ bid, e = Some bid → ∃ k b, bk_best_merged_blocks m !! k = Some b ∧ bid = bm_bid b.
Proof.
  unfold merged_header. destruct (bk_best_merged_blocks m !! _) as [b|] eqn:Eb.
  - repeat case_match; intros [= <- <- <-]; (split; [done|]); intros ? [= <-]; eauto.
  - by intros [= <- <- <-].
Qed.

Lemma send_to_sim_frame now q fast c a c' o :
  send_to_sim now q fast c = Some (a, c', o) → cx_payloads c' = cx_payloads c.
Proof.
  unfold send_to_sim, on_sims, zoom, mbind, comp_bind.
  destruct (dispatch _ _ _ _) as [[[started s] os]|]; [|done].
  destruct started; cbn; by intros [= <- <- <-].
Qed.

(** ** Headers and bids *)

Lemma adjusted_header_step now original d c :
  ctx_ok c → sl_bid_slot d = cx_bid_slot c →
  is_Some (cx_payloads c !! entry_block_hash original) →
  wp (adjusted_header now original d) (λ e c' o, hstep (λ _, False) none [] c c' o ∧
    is_Some (cx_payloads c' !! entry_block_hash e)) c.
Proof.
  intros Hc Hslot Ho. unfold adjusted_header. wp_step. wp_step. cbn.
  wp_step; [|by wp_step; split; [apply hstep_refl|]].
  destruct (try_apply_adjustments _ _ _ _) as [[[adjusted request] adjustable]|] eqn:E;
    [|by wp_step; split; [apply hstep_refl|]].
  pose proof (adjusted_step _ now d c _ _ _ _ _ _ true Hc Hslot E) as Hadj.
  unfold wp, mbind, comp_bind in Hadj |- *.
  destruct (store_data _ _ _ _ c) as [[[a1 c1] o1]|] eqn:E1; [|done].
  pose proof (wp_run _ _ _ _ _ _ (store_data_step _ now adjusted (vr_is_optimistic request)
    (vr_submission_id request) c Hc) E1) as (H1 & Hp & _).
  destruct (send_to_sim now request true c1) as [[[a2 c2] o2]|] eqn:E2; [|done].
  cbn. rewrite app_nil_r. split; [done|].
  assert (is_Some (cx_payloads c2 !! entry_block_hash adjusted)) as Ha.
  { pose proof (send_to_sim_frame now request true c1 _ _ _ E2) as ->.
    rewrite Hp, lookup_insert_eq. eauto. }
  destruct adjustable; [done|]. by apply (st_grows _ _ _ _ _ _ Hadj).
Qed.

Lemma context_get_header_step cfg now parent d mev c :
  ctx_ok c → sl_bid_slot d = cx_bid_slot c →
  wp (context_get_header cfg now parent d mev) (λ r c' o, hstep (λ _, False) none [] c c' o ∧
    ∀ e, r = Ok e → is_Some (cx_payloads c' !! entry_block_hash e)) c.
Proof.
  intros Hc Hslot. unfold context_get_header. wp_step. wp_step. cbn.
  wp_step; [|by wp_step; split; [apply hstep_refl|]].
  destruct (cx_payloads c !! _) as [original|] eqn:Eo; [|by wp_step; split; [apply hstep_refl|]].
  destruct (merged_header _ _ _ _ _ _) as [[merged m'] l'] eqn:Em.
  apply merged_header_best in Em as [Em Hbest]. wp_step. wp_step.
  set (c1 := c <| cx_block_merger := m' |> <| cx_cache := l' |>).
  assert (same_core c c1) as Hsame by (by split_and!).
  assert (ctx_ok c1) as Hc1 by (by eapply same_core_inv).
  assert (hstep (λ _, False) none [] c c1 []) as H1 by (apply hstep_silent; [done|done|constructor]).
  destruct merged as [bid|].
  - wp_step. split; [done|]. intros e [= <-]. destruct (Hbest bid eq_refl) as (k & b & Hb & ->).
    apply (inv_merged _ _ Hc _ _ Hb).
  - wp_step. eapply wp_mono; [apply (adjusted_header_step now original d c1); [done|done|]|].
    + rewrite (inv_keys _ _ Hc _ _ Eo). change (is_Some (cx_payloads c !! z)). eauto.
    + intros e c2 o [H2 He]. wp_step. split; [|by intros ? [= <-]].
      rewrite app_nil_r. change o with ([] ++ o). by eapply (hstep_trans _ _ _ none none [] []).
Qed.

(** An answer alone. *)
Lemma answer_step H o t c :
  ctx_inv H c → output_ticket o = Some t → wp (emit [o]) (λ _, hstep H (asks t) (deliveries [o]) c) c.
Proof.
  intros Hc Ho. wp_step. apply hstep_same; [done|done|]. intros t' _. unfold answers, answers_one, asks.
  cbn. rewrite Ho. unfold one. repeat case_bool_decide; simplify_eq; done.
Qed.

Lemma handle_get_header_step cfg now params d tx mev c :
  ctx_ok c → sl_bid_slot d = cx_bid_slot c → gh_slot params = cx_bid_slot c →
  wp (handle_get_header cfg now params d tx mev) (λ _ c' o,
    hstep (λ _, False) (asks (THeader tx)) [] c c' o ∧
    ∀ e, OHeader tx (Ok e) ∈ o → is_Some (cx_payloads c' !! entry_block_hash e)) c.
Proof.
  intros Hc Hd Hs. unfold handle_get_header. wp_step. wp_step. cbn. wp_step.
  apply wp_assert; [by apply Z.eqb_eq|]. wp_step. cbn.
  eapply wp_mono; [by apply context_get_header_step|]. intros r c1 o [H1 He]. wp_step. split.
  - pose proof (answer_step _ (OHeader tx r) (THeader tx) c1 (st_inv _ _ _ _ _ _ H1) eq_refl) as H2.
    by apply (hstep_trans _ (λ _, False) _ none (asks (THeader tx)) [] [] c c1 c1 o [OHeader tx r]).
  - intros e [Hin|Hin%list_elem_of_singleton]%elem_of_app; [|apply He; congruence].
    exfalso. pose proof (st_answers _ _ _ _ _ _ H1 (THeader tx) I) as Ha. cbn in Ha.
    assert (0 < answers (THeader tx) o); [|unfold none in *; lia].
    by eapply answers_elem.
Qed.

(** ** Payloads *)

(** A block is handed out for the slot in progress. *)
Lemma context_get_payload_slot now slot blinded local trace d response proposal trace' :
  context_get_payload now slot blinded local trace d = Ok (response, proposal, trace') →
  sk_slot (vp_signed_block proposal) = slot.
Proof.
  unfold context_get_payload, validate_proposal_coordinate. intros H.
  apply result_bind_ok in H as ([] & Hv & H). rewrite !require_then_ok, require_ok, !Z.eqb_eq in Hv.
  case_match; [done|]. apply result_bind_ok in H as ([r p] & Hu & [= <- <- <-]).
  destruct Hv as (_ & -> & ->). cbn. unfold unblind in Hu. destruct (bl_fork blinded); try done.
  apply result_bind_ok in Hu as (header & _ & Hu). repeat (case_match; [done|]).
  apply result_bind_ok in Hu as (payload & _ & [= <- <-]). done.
Qed.

Lemma handle_get_payload_step now local blinded trace tx d c :
  ctx_ok c →
  wp (handle_get_payload now local blinded trace tx d) (λ h c' o,
    c' = c ∧ hstep (λ _, False) (asks (TPayload tx)) (if h is Some _ then [cx_bid_slot c] else []) c c o) c.
Proof.
  intros Hc. unfold handle_get_payload. wp_step. wp_step. cbn.
  destruct (context_get_payload _ _ _ _ _ _) as [[[response proposal] trace']|e] eqn:E.
  - apply context_get_payload_slot in E. wp_step. wp_step. wp_step. split; [done|]. cbn.
    pose proof (answer_step _ (OPayload tx (Ok (mkGetPayloadResultData response proposal trace'
      (sl_current_fork d) (bid_data local)))) (TPayload tx) c Hc eq_refl) as H.
    unfold wp, emit in H. cbn in H. by rewrite E in H.
  - wp_step. wp_step. wp_step. split; [done|].
    exact (answer_step _ (OPayload tx (Err e)) (TPayload tx) c Hc eq_refl).
Qed.

Lemma handle_gossip_payload_step payload d c :
  ctx_ok c → wp (handle_gossip_payload payload d) (λ _, hstep (λ _, False) none [] c) c.
Proof.
  intros Hc. unfold handle_gossip_payload. wp_step. wp_step. cbn.
  wp_step; [by wp_step; apply hstep_refl|]. wp_step; [by wp_step; apply hstep_refl|].
  wp_step. set (e := new_gossip _ _).
  change (ep_block_hash (pab_execution_payload (bp_execution_payload payload)))
    with (entry_block_hash e).
  destruct (cx_payloads c !! entry_block_hash e) eqn:E.
  - apply hstep_silent; [done| |constructor]. split_and!; try done. cbn. by rewrite E.
  - pose proof (hstep_payload _ c e [] Hc ltac:(constructor)) as H.
    assert (c <| cx_payloads ::= λ m, match m !! entry_block_hash e with
        Some _ => m | None => <[entry_block_hash e := e]> m end |> =
      c <| cx_payloads ::= <[entry_block_hash e := e]> |>) as ->; [|done].
    destruct c. rec_simpl. by rewrite E.
Qed.

Lemma handle_gloas_block_step slot seen c :
  ctx_ok c → wp (handle_gloas_block slot seen) (λ _, hstep (λ _, False) none [] c) c.
Proof. intros Hc. unfold handle_gloas_block. wp_step. by apply hstep_silent; [| |constructor]. Qed.

Lemma handle_attestation_deadline_step slot root c :
  ctx_ok c → wp (handle_attestation_deadline slot root) (λ _, hstep (λ _, False) none [] c) c.
Proof.
  intros Hc. unfold handle_attestation_deadline. wp_step. wp_step. cbv beta.
  destruct (attestation_deadline _ _ _ _ _) as [reveal seen].
  wp_step. wp_step. destruct reveal; wp_step; apply hstep_silent; done || by repeat constructor.
Qed.

(** ** New slots *)

(** A pool whose requests are all of earlier slots. *)
Lemma new_slot_requests c slot :
  ctx_ok c → cx_bid_slot c < slot →
  pool_all (λ q, bt_slot (signed_bid_trace (vr_submission q)) < slot) (cx_sims c).
Proof.
  intros Hc Hlt. eapply pool_all_mono; [|apply Hc]. intros q [Hle _]. lia.
Qed.

Definition new_slot (slot : u64) (c c' : AuctioneerContext) (o : list Output) : Prop :=
  ctx_ok c' ∧ cx_bid_slot c' = slot ∧ cx_pending_payload c' = None ∧
  clients (cx_sims c') = clients (cx_sims c) ∧
  (∀ t, answers t o + due t c' = due t c) ∧ deliveries o = [].

(** The context a new slot starts with. *)
Lemma fresh_ok c slot :
  cx_bid_slot c = slot → bs_curr_bid_slot (cx_bid_sorter c) = slot → sorter_ok (cx_bid_sorter c) →
  (∀ b, ¬ holds (cx_bid_sorter c) b) → pool_ok (cx_sims c) →
  pool_all (λ q, bt_slot (signed_bid_trace (vr_submission q)) < slot) (cx_sims c) →
  hydration_ok (cx_hydration_cache c) → hydration_small (cx_hydration_cache c) →
  cx_payloads c = ∅ → bk_best_merged_blocks (cx_block_merger c) = ∅ → ctx_ok c.
Proof.
  intros H1 H2 H3 H4 H5 H6 H7 H8 H9 H10. split; try done; [congruence|by intros b ?%H4| | |].
  - eapply pool_all_mono; [|exact H6]. intros q Hq. cbn in Hq. unfold request_known. rewrite H1.
    split; [lia|]. intros ?. lia.
  - by rewrite H9.
  - by rewrite H10.
Qed.

Lemma on_new_slot_step slot c :
  ctx_ok c → cx_bid_slot c < slot → wp (on_new_slot slot) (λ _, new_slot slot c) c.
Proof.
  intros Hc Hlt. unfold on_new_slot, on_sorter, on_sims.
  wp_step. wp_step. wp_step. wp_step. cbn. wp_step. wp_step. wp_step.
  apply (wp_mono _ (λ _ c' o, c' = c <| cx_bid_slot := slot |> <| cx_pending_payload := None |> ∧
    deliveries o = [] ∧ ∀ t, answers t o = match t with TPayload _ => due t c | _ => 0 end)).
  { cbn. destruct (cx_pending_payload c) as [p|] eqn:Ep; wp_step; (split_and!; [done|done|]);
      intros [?|?|?|tx|?]; cbn; rewrite ?Ep; try done. unfold answers_one, one. cbn.
    repeat case_bool_decide; by simplify_eq. }
  intros _ c1 o1 (-> & Ho1 & Ha1). wp_step. wp_step. wp_step. wp_step. cbn.
  eapply wp_mono; [apply process_slot_holds|]. intros ? sorter o2 (Hs & Hslot & Hno).
  wp_step. wp_step. wp_step. wp_step. wp_step. wp_step. cbn.
  eapply wp_mono.
  { apply (wp_keeps (pool_all (λ q, bt_slot (signed_bid_trace (vr_submission q)) < slot))
      (λ _, True)); [apply on_new_slot_wp, Hc|apply on_new_slot_keeps; by intros q p|
      by apply new_slot_requests]. }
  intros drops sims o3 ((Hpool & Howed & _ & Hcl) & Hall & _).
  assert (∀ c' (o : list Output), cx_bid_slot c' = slot → cx_bid_sorter c' = sorter →
    cx_sims c' = sims → cx_hydration_cache c' = clear (cx_hydration_cache c) →
    cx_payloads c' = ∅ → bk_best_merged_blocks (cx_block_merger c') = ∅ →
    cx_pending_payload c' = None → silent o → new_slot slot c c' (o1 ++ o)) as Hfin.
  { intros c' o E1 E2 E3 E4 E5 E6 E7 Ho. split_and!; try done.
    - apply (fresh_ok c' slot); rewrite ?E2, ?E3, ?E4; try done; [apply clear_ok|apply clear_small].
    - by rewrite E3.
    - intros t. rewrite answers_app, (silent_answers _ _ Ho), Ha1.
      destruct t; cbn; rewrite ?E3, ?E7, ?Howed; cbn; lia.
    - by rewrite deliveries_app, Ho1, silent_deliveries. }
  wp_step.
  apply (wp_mono _ (λ _ c' o, c' = c <| cx_bid_slot := slot |> <| cx_pending_payload := None |>
      <| cx_completed_dry_run := false |> <| cx_bid_sorter := sorter |>
      <| cx_cache ::= λ l, l <| lc_submission_versions := ∅ |> |>
      <| cx_hydration_cache ::= clear |> <| cx_sims := sims |> ∧ silent o)).
  { destruct drops; wp_step; (split; [done|by repeat constructor]). }
  intros _ c2 o4 [-> Ho4]. wp_step. wp_step. wp_step.
  apply (wp_mono _ (λ _ c' o, ∃ l, c' = c <| cx_bid_slot := slot |> <| cx_pending_payload := None |>
      <| cx_completed_dry_run := false |> <| cx_bid_sorter := sorter |>
      <| cx_cache := l |> <| cx_hydration_cache ::= clear |> <| cx_sims := sims |> ∧ silent o)).
  { case_bool_decide; wp_steps; eexists; (split; [reflexivity|by repeat constructor]). }
  intros _ c3 o5 (l & -> & Ho5). wp_steps. cbn [app].
  assert (silent ((OTopBid <$> o2) ++ (OSimStarted <$> o3) ++ o4 ++ o5 ++
    [OClearInflightPayloads; OClearDecoded])) as Hsilent.
  { repeat apply Forall_app_2; try done; [by apply silent_fmap..|by repeat constructor]. }
  case_bool_decide as Ep; cbn [negb orb]; [|by apply Hfin].
  destruct (store_is_empty _); cbn [negb]; by apply Hfin.
Qed.
End safety.
