(* ===== verification/Delivery.v ===== *)
(** * Headers served and payloads delivered

    [get_header.rs] and [get_payload.rs] end to end: which header a proposer is
    given, when the payload of a signed block is delivered, and that the block
    made from a served header is one the relay unblinds. *)

From S2P Require Import Prelude Types Submission Hydration SlotStores SimError ApiError BidSorter.
From S2P Require Import Simulators LocalCache Payload BlockMerger Context.

Section delivery.
Context `{HO : HashOrder} `{FX : FxHasher} `{ES : EthSpec} `{TH : TreeHash} `{BP : BlsPoints}
  `{BA : BidAdjustor} `{RE : RelayEnv}.
Implicit Types (c : AuctioneerContext) (d : SlotData) (blinded : SignedBlindedBeaconBlock).

(** ** Unblinding *)

(** The signed block is the proposer's for the slot. *)
Record proposes (slot : u64) blinded d : Prop := {
  pro_index : bl_proposer_index blinded = de_validator_index (sl_registration_data d);
  pro_duty : de_slot (sl_registration_data d) = slot;
  pro_slot : bl_slot blinded = slot;
  pro_fork : bl_fork blinded = sl_current_fork d;
  pro_fulu : bl_fork blinded = Fulu
}.

(** It was made for this payload. *)
Record commits_to blinded (local : PayloadAndBlobs) : Prop := {
  com_header : bl_execution_payload_header blinded =
    to_header (pab_execution_payload local) None None;
  com_commitments : bl_blob_kzg_commitments blinded = bb_commitments (pab_blobs_bundle local);
  com_blobs : len (bb_blobs (pab_blobs_bundle local)) = len (bl_blob_kzg_commitments blinded)
}.

(** The payload fits the bounded lists of the consensus types. *)
Record fits (p : ExecutionPayload) : Prop := {
  fit_extra_data : len (ep_extra_data p) ≤ max_extra_data_bytes;
  fit_tx : Forall (λ tx, len tx ≤ max_bytes_per_transaction) (ep_transactions p);
  fit_txs : len (ep_transactions p) ≤ max_transactions_per_payload
}.

(** The proposer's block with the payload in place of its header. *)
Definition unblinded blinded (local : PayloadAndBlobs) : VersionedSignedProposal :=
  mkVersionedSignedProposal
    (mkSignedBeaconBlock (bl_slot blinded) (bl_proposer_index blinded) (bl_parent_root blinded)
       (bl_state_root blinded) (bl_body blinded) (pab_execution_payload local)
       (bl_blob_kzg_commitments blinded) (bl_signature blinded))
    (bb_proofs (pab_blobs_bundle local)) (bb_blobs (pab_blobs_bundle local)).

Lemma variable_list_ok n max : variable_list n max = Ok tt ↔ n ≤ max.
Proof. unfold variable_list. by rewrite require_ok, Z.leb_le. Qed.

Lemma convert_transactions_ok txs :
  convert_transactions txs = Ok tt ↔ Forall (λ tx, len tx ≤ max_bytes_per_transaction) txs.
Proof.
  induction txs as [|tx txs IH]; cbn; [by split; [constructor|]|]. unfold variable_list.
  by rewrite require_then_ok, Z.leb_le, Forall_cons, IH.
Qed.

Lemma to_lighthouse_header_ok (h h' : ExecutionPayloadHeader) :
  to_lighthouse_fulu_header h = Ok h' ↔ len (eh_extra_data h) ≤ max_extra_data_bytes ∧ h' = h.
Proof.
  unfold to_lighthouse_fulu_header, variable_list, require.
  destruct (Z.leb_spec (len (eh_extra_data h)) max_extra_data_bytes); cbn.
  - split; [by intros [= <-]|by intros [_ ->]].
  - split; [done|]. intros [? _]. lia.
Qed.

Lemma to_lighthouse_payload_ok (p p' : ExecutionPayload) :
  to_lighthouse_fulu_payload p = Ok p' ↔ fits p ∧ p' = p.
Proof.
  unfold to_lighthouse_fulu_payload.
  destruct (variable_list (len (ep_extra_data p)) _) as [[]|e] eqn:E1; cbn.
  2:{ split; [done|]. intros [[H _ _] _]. apply variable_list_ok in H. congruence. }
  destruct (convert_transactions (ep_transactions p)) as [[]|e] eqn:E2; cbn.
  2:{ split; [done|]. intros [[_ H _] _]. apply convert_transactions_ok in H. congruence. }
  destruct (variable_list (len (ep_transactions p)) _) as [[]|e] eqn:E3; cbn.
  2:{ split; [done|]. intros [[_ _ H] _]. apply variable_list_ok in H. congruence. }
  apply variable_list_ok in E1, E3. apply convert_transactions_ok in E2.
  split; [by intros [= <-]|by intros [_ ->]].
Qed.

Lemma result_map_err_ok {A E F} (f : E → F) (r : Result A E) a :
  result_map_err f r = Ok a ↔ r = Ok a.
Proof. destruct r; cbn; split; congruence. Qed.

Lemma unblind_ok blinded local d response proposal :
  unblind blinded local d = Ok (response, proposal) ↔
  bl_fork blinded = Fulu ∧ commits_to blinded local ∧ fits (pab_execution_payload local) ∧
  response = mkGetPayloadResponse (sl_current_fork d) local ∧ proposal = unblinded blinded local.
Proof.
  unfold unblind. split.
  - intros H. destruct (bl_fork blinded); try done.
    apply result_bind_ok in H as (header & Hh & H).
    apply result_map_err_ok, to_lighthouse_header_ok in Hh as [_ ->].
    case_bool_decide as Eh; cbn [negb] in H; [|done].
    case_bool_decide as Ec; cbn [negb] in H; [|done].
    destruct (Z.eqb_spec (len (bl_blob_kzg_commitments blinded))
      (len (bb_blobs (pab_blobs_bundle local)))) as [El|]; cbn [negb] in H; [|done].
    apply result_bind_ok in H as (payload & Hp & [= <- <-]).
    apply result_map_err_ok, to_lighthouse_payload_ok in Hp as [Hfit ->]. by split_and!.
  - intros (-> & [Hh Hc Hb] & Hfit & -> & ->).
    assert (to_lighthouse_fulu_header (to_header (pab_execution_payload local) None None) =
      Ok (bl_execution_payload_header blinded)) as ->.
    { apply to_lighthouse_header_ok. by split; [apply Hfit|]. }
    cbn [result_map_err result_bind]. rewrite (bool_decide_true _ eq_refl). cbn [negb].
    rewrite bool_decide_true by done. cbn [negb].
    rewrite <- Hb, Z.eqb_refl. cbn [negb].
    assert (to_lighthouse_fulu_payload (pab_execution_payload local) =
      Ok (pab_execution_payload local)) as -> by (by apply to_lighthouse_payload_ok).
    done.
Qed.

Lemma validate_coordinate_ok slot blinded d :
  validate_proposal_coordinate slot blinded d = Ok tt ↔
  bl_proposer_index blinded = de_validator_index (sl_registration_data d) ∧
  de_slot (sl_registration_data d) = slot ∧ bl_slot blinded = slot.
Proof.
  unfold validate_proposal_coordinate. rewrite !require_then_ok, require_ok, !Z.eqb_eq.
  intuition congruence.
Qed.

Lemma context_get_payload_ok now slot blinded local trace d response proposal trace' :
  context_get_payload now slot blinded local trace d = Ok (response, proposal, trace') ↔
  proposes slot blinded d ∧ commits_to blinded local ∧ fits (pab_execution_payload local) ∧
  response = mkGetPayloadResponse (sl_current_fork d) local ∧ proposal = unblinded blinded local ∧
  trace' = trace <| gt_proposer_index_validated := ck_ns now |>.
Proof.
  unfold context_get_payload. rewrite result_bind_ok. split.
  - intros ([] & (H1 & H2 & H3)%validate_coordinate_ok & H). case_bool_decide as Ef; cbn in H; [|done].
    apply result_bind_ok in H as ([r p] & (? & ? & ? & -> & ->)%unblind_ok & [= <- <- <-]).
    by split_and!.
  - intros ([H1 H2 H3 H4 H5] & Hc & Hfit & -> & -> & ->). exists tt.
    split; [by apply validate_coordinate_ok|]. rewrite bool_decide_true by done. cbn [negb].
    apply result_bind_ok. eexists (_, _). split; [by apply unblind_ok|done].
Qed.

(** The proposer's block for the slot, made for the stored payload. *)
Definition deliverable c blinded (local : PayloadEntry) d : Prop :=
  proposes (cx_bid_slot c) blinded d ∧ commits_to blinded (payload_and_blobs local) ∧
  fits (execution_payload local).

Lemma payload_of_entry (e : PayloadEntry) :
  pab_execution_payload (payload_and_blobs e) = execution_payload e.
Proof. by destruct e. Qed.

Lemma get_payload_delivers now local blinded trace tx d c :
  deliverable c blinded local d →
  handle_get_payload now local blinded trace tx d c =
    Some (Some (entry_block_hash local), c,
      [OPayload tx (Ok (mkGetPayloadResultData
         (mkGetPayloadResponse (sl_current_fork d) (payload_and_blobs local))
         (unblinded blinded (payload_and_blobs local))
         (trace <| gt_proposer_index_validated := ck_ns now |>) (sl_current_fork d)
         (bid_data local)))]).
Proof.
  intros (Hp & Hc & Hf).
  assert (context_get_payload now (cx_bid_slot c) blinded (payload_and_blobs local) trace d =
    Ok (mkGetPayloadResponse (sl_current_fork d) (payload_and_blobs local),
        unblinded blinded (payload_and_blobs local),
        trace <| gt_proposer_index_validated := ck_ns now |>)) as E.
  { apply context_get_payload_ok. rewrite payload_of_entry. by split_and!. }
  unfold handle_get_payload, mbind, comp_bind, gets. rewrite E. cbn.
  unfold entry_block_hash. by rewrite payload_of_entry.
Qed.

Lemma get_payload_refuses now local blinded trace tx d c :
  ¬ deliverable c blinded local d →
  ∃ e, handle_get_payload now local blinded trace tx d c = Some (None, c, [OPayload tx (Err e)]).
Proof.
  intros Hno. unfold handle_get_payload, mbind, comp_bind, gets.
  destruct (context_get_payload _ _ _ _ _ _) as [[[r p] t]|e] eqn:E; [|by exists e].
  apply context_get_payload_ok in E as (? & ? & Hf & _). rewrite payload_of_entry in Hf.
  by destruct Hno.
Qed.

(** ** Served headers *)

(** The roots kept with a submission are those of its payload. *)
Definition roots_match (e : PayloadEntry) : Prop :=
  match e with
  | PSubmission s =>
      let p := sf_execution_payload (sp_signed_bid_submission s) in
      sp_withdrawals_root s = withdrawals_root (ep_withdrawals p) ∧
      ∀ root, sp_tx_root s = Some root → root = transactions_root (ep_transactions p)
  | PGossip _ => True
  end.

Lemma roots_match_header (e : PayloadEntry) :
  roots_match e ↔ hb_header (into_builder_bid_slow e) = to_header (execution_payload e) None None.
Proof.
  destruct e as [s|g]; cbn; [|done]. unfold to_header. cbn. split.
  - intros [-> Ht]. f_equal. destruct (sp_tx_root s) as [root|]; cbn; [|done]. auto.
  - intros H. injection H as Ht Hw. split; [done|]. intros root E. by rewrite E in Ht.
Qed.

(** The block a proposer makes from the bid it was given. *)
Definition signs blinded (bid : BuilderBid) : Prop :=
  bl_execution_payload_header blinded = hb_header bid ∧
  bl_blob_kzg_commitments blinded = hb_blob_kzg_commitments bid.

Lemma bid_commitments (e : PayloadEntry) :
  hb_blob_kzg_commitments (into_builder_bid_slow e) =
    bb_commitments (pab_blobs_bundle (payload_and_blobs e)).
Proof. by destruct e. Qed.

(** ** The header served *)

(** The bid of the fork that pays most. *)
Definition top_of (fork : ForkKey) c (b : Bid) : Prop :=
  fs_bids (fork_state fork (cx_bid_sorter c)) !! bid_builder_pubkey b = Some b ∧
  ∀ k b', fs_bids (fork_state fork (cx_bid_sorter c)) !! k = Some b' → bid_value b' ≤ bid_value b.

Lemma get_header_top fork c h :
  sorter_ok (cx_bid_sorter c) → get_header fork (cx_bid_sorter c) = Some h →
  ∃ b, top_of fork c b ∧ bid_block_hash b = h.
Proof.
  intros Hs Hh. unfold get_header in Hh.
  destruct (bs_forks (cx_bid_sorter c) !! fork) as [st|] eqn:E; [|done]. cbn in Hh.
  destruct (fs_curr_bid st) as [b|] eqn:Eb; [|done]. injection Hh as <-.
  destruct (Hs fork st E) as [_ Htop]. rewrite Eb in Htop. exists b.
  split; [|done]. unfold top_of, fork_state. rewrite E. done.
Qed.

(** What may be served for the top bid [original]: it, a block the adjustor
    made of it, or a merged block. *)
Definition serves (cfg : BlockMergingConfig) c d (original e : PayloadEntry) : Prop :=
  e = original ∨
  (∃ request, try_apply_adjustments (cx_bid_adjustor c) original d false = Some (e, request, true)) ∨
  (∃ b, bk_best_merged_blocks (cx_block_merger c) !!
          ep_fee_recipient (execution_payload original) = Some b ∧
     may_replace cfg (merged_headers_enabled (cx_cache c)) original b ∧ e = bm_bid b).

Lemma adjusted_header_cases now original d c e c' o :
  adjusted_header now original d c = Some (e, c', o) →
  e = original ∨
  ∃ request, try_apply_adjustments (cx_bid_adjustor c) original d false = Some (e, request, true).
Proof.
  unfold adjusted_header, mbind, comp_bind, get. cbn. intros H.
  destruct (lc_adjustments_enabled _); [|left; cbn in H; congruence].
  destruct (try_apply_adjustments _ _ _ _) as [[[adjusted request] adjustable]|] eqn:E;
    [|left; cbn in H; congruence].
  destruct (store_data _ _ _ _ _) as [[[? c1] o1]|]; [|done]. cbn in H.
  destruct (send_to_sim _ _ _ _) as [[[? c2] o2]|]; [|done]. cbn in H.
  destruct adjustable; injection H as <- _ _; [|by left]. right. eauto.
Qed.

Lemma context_get_header_serves cfg now parent d mev c e c' o :
  map_Forall (λ _ b, 0 ≤ bm_max_merged_bid_age_ms b) (bk_best_merged_blocks (cx_block_merger c)) →
  sorter_ok (cx_bid_sorter c) →
  context_get_header cfg now parent d mev c = Some (Ok e, c', o) →
  ∃ fork b original, fork_for_parent_hash d parent = Some fork ∧ top_of fork c b ∧
    cx_payloads c !! bid_block_hash b = Some original ∧ serves cfg c d original e.
Proof.
  intros Hages Hs. unfold context_get_header, mbind at 1, comp_bind at 1, get. cbn.
  destruct (fork_for_parent_hash d parent) as [fork|]; [|done]. cbn.
  destruct (get_header fork (cx_bid_sorter c)) as [h|] eqn:Eh; [|done].
  destruct (get_header_top _ _ _ Hs Eh) as (b & Hb & <-).
  destruct (cx_payloads c !! bid_block_hash b) as [original|] eqn:Eo; [|done].
  destruct (merged_header _ _ _ _ _ _) as [[merged m'] l'] eqn:Em.
  pose proof (merged_header_spec cfg (ck_ns now) original mev (cx_block_merger c) (cx_cache c))
    as Hspec.
  intros H. exists fork, b, original. split_and!; [done..|].
  unfold mbind, comp_bind, modify in H. cbn in H. destruct merged as [bid|].
  - injection H as <- _ _. right. right. apply Hspec; [done|]. by rewrite Em.
  - set (c1 := c <| cx_block_merger := m' |> <| cx_cache := l' |>) in H.
    destruct (adjusted_header now original d c1) as [[[e' c2] o2]|] eqn:Ea; [|done]. cbn in H.
    injection H as <- _ _. apply adjusted_header_cases in Ea as [->|Ha]; [by left|].
    right. by left.
Qed.

(** ** Properties *)

(** C12: A payload request is answered with the payload exactly when the signed
    block is the proposer's for the slot in progress, on its fork, and commits
    to the stored payload: its header, its blob commitments and their number.
    The block handed out for publication is then the signed one with the
    stored payload in place of the header. Any other request gets an error,
    and in both cases there is one answer and nothing else changes. *)
Theorem payload_delivered_iff now local blinded trace tx d c :
  (deliverable c blinded local d →
   handle_get_payload now local blinded trace tx d c =
    Some (Some (entry_block_hash local), c,
      [OPayload tx (Ok (mkGetPayloadResultData
         (mkGetPayloadResponse (sl_current_fork d) (payload_and_blobs local))
         (unblinded blinded (payload_and_blobs local))
         (trace <| gt_proposer_index_validated := ck_ns now |>) (sl_current_fork d)
         (bid_data local)))])) ∧
  (¬ deliverable c blinded local d →
   ∃ e, handle_get_payload now local blinded trace tx d c =
     Some (None, c, [OPayload tx (Err e)])).
Proof. split; [apply get_payload_delivers|apply get_payload_refuses]. Qed.

(** C23: A served header and the block made from it. When the proposer of the
    slot signs a block with the header and the commitments of the bid it was
    given, the relay delivers the payload of that bid if and only if the
    withdrawals and transactions roots kept with the bid are those of its
    payload. *)
Theorem header_round_trip now e blinded trace tx d c :
  proposes (cx_bid_slot c) blinded d → fits (execution_payload e) →
  signs blinded (into_builder_bid_slow e) →
  len (bb_blobs (pab_blobs_bundle (payload_and_blobs e))) =
    len (bb_commitments (pab_blobs_bundle (payload_and_blobs e))) →
  (roots_match e ↔ ∃ r, handle_get_payload now e blinded trace tx d c =
     Some (Some (entry_block_hash e), c, [OPayload tx (Ok r)]) ∧
     sk_execution_payload (vp_signed_block (pl_to_publish r)) = execution_payload e).
Proof.
  intros Hp Hfit [Hh Hc] Hlen. rewrite bid_commitments in Hc.
  assert (deliverable c blinded e d ↔ roots_match e) as Hiff.
  { rewrite roots_match_header. unfold deliverable. split.
    - intros (_ & [Hh' _ _] & _). by rewrite <- Hh, Hh', payload_of_entry.
    - intros E. split_and!; [done| |done]. split; [|done|].
      + by rewrite Hh, E, payload_of_entry.
      + by rewrite Hc. }
  rewrite <- Hiff. split.
  - intros Hd. eexists. split; [by apply get_payload_delivers|]. cbn. apply payload_of_entry.
  - intros (r & E & _). destruct (decide (bl_execution_payload_header blinded =
      to_header (pab_execution_payload (payload_and_blobs e)) None None)) as [Heq|Hne].
    + split_and!; [done| |done]. split; [done|done|]. by rewrite Hc.
    + destruct (get_payload_refuses now e blinded trace tx d c) as [err E'].
      { by intros (_ & [? _ _] & _). }
      congruence.
Qed.

(** The header a proposer gets is for the parent it named, and is that of
    the bid that pays most on the fork, of the block the bid adjustor made of
    that bid, or of a merged block that pays more, builds on the same parent
    and is recent enough. *)
Theorem header_is_best cfg now parent d mev c e c' o :
  map_Forall (λ _ b, 0 ≤ bm_max_merged_bid_age_ms b) (bk_best_merged_blocks (cx_block_merger c)) →
  sorter_ok (cx_bid_sorter c) →
  context_get_header cfg now parent d mev c = Some (Ok e, c', o) →
  ∃ fork b original, fork_for_parent_hash d parent = Some fork ∧ fk_parent_hash fork = parent ∧
    top_of fork c b ∧ cx_payloads c !! bid_block_hash b = Some original ∧
    (e = original ∨
     (∃ request,
        try_apply_adjustments (cx_bid_adjustor c) original d false = Some (e, request, true)) ∨
     (entry_value original < entry_value e ∧ entry_parent_hash e = entry_parent_hash original)).
Proof.
  intros H1 H2 H3.
  destruct (context_get_header_serves _ _ _ _ _ _ _ _ _ H1 H2 H3)
    as (fork & b & original & Hf & Hb & Ho & Hs).
  pose proof (fork_for_parent_hash_some _ _ _ Hf) as [Hp _].
  exists fork, b, original. split_and!; [done..|].
  destruct Hs as [?|[?|(best & _ & (r & _ & Hv & _ & Hpar & _) & ->)]]; auto.
Qed.
End delivery.

(** ** Examples

    A slot with one proposer and one parent block, and a bid of builder 1. *)
Definition ex_env : RelayEnv := {|
  fork_at_slot := λ _, Fulu;
  is_local_dev := false;
  future_open := λ _, true;
  operator_connected := true;
  sim_error_text := λ _, String.EmptyString;
  builder_sign := λ _, 0
|}.
Definition ex_clock (ns : Z) : Clock := mkClock ns 0 ns (λ _, ns) 6 0.
Definition ex_duty : BuilderGetValidatorsResponseEntry :=
  mkDutyEntry 5 9 (mkValidatorRegistrationInfo
    (mkSignedValidatorRegistration (mkValidatorRegistrationData 4 30 1 3) 0)
    preferences_default_values).
Definition ex_attributes : PayloadAttributesUpdate :=
  mkPayloadAttributesUpdate 5 100 4 (mkPayloadAttributes 12345 77 [] (Some 200)).
Definition ex_slot : SlotData :=
  mkSlotData 5 ex_duty {[attributes_fork ex_attributes := ex_attributes]} Fulu None.

Definition ex_top : Bid := bid_new (mkSubmissionVersion 1 None) (ex_submission 1 1010 10) 200.
Definition ex_full : SignedBidSubmissionFulu :=
  mkSignedBidSubmissionFulu ex_trace (ex_payload [ex_tx 1] [ex_withdrawal])
    (mkBlobsBundle [7] (replicate 128 5) [70]) [] 0.
Definition ex_stored : PayloadEntry :=
  new_submission ex_full 4 (Some 1) None (mkSubmissionVersion 1 None) (mkSubmissionTrace 1 1 1)
    (Some 200).
Definition ex_sorter : BidSorter :=
  mkBidSorter 5 {[bid_fork ex_top := mkForkState {[1 := ex_top]} (Some ex_top) 1 1]} ∅
    telemetry_default.
Definition ex_context : AuctioneerContext (BP := ex_points) (BA := DefaultBidAdjustor) :=
  (context_new (BP := ex_points) (BA := DefaultBidAdjustor) (RE := ex_env) (simulators_new []) false
     false ex_sorter (local_cache_new (BP := ex_points)) tt)
  <| cx_bid_slot := 5 |> <| cx_payloads := {[1010 := ex_stored]} |>.

(** The block the proposer signs for a bid. *)
Definition ex_blinded (bid : BuilderBid) : SignedBlindedBeaconBlock :=
  mkSignedBlindedBeaconBlock Fulu 5 9 200 50 [] (hb_header bid) (hb_blob_kzg_commitments bid) 33.

Lemma header_round_trip_witness :
  ∃ r, handle_get_payload (ES := mainnet) (TH := ex_roots) (BP := ex_points)
      (BA := DefaultBidAdjustor) (ex_clock 9) ex_stored
      (ex_blinded (into_builder_bid_slow (TH := ex_roots) ex_stored)) (mkGetPayloadTrace 0 0) 1
      ex_slot ex_context =
    Some (Some 1010, ex_context, [OPayload 1 (Ok r)]) ∧
    sk_execution_payload (vp_signed_block (pl_to_publish r)) =
      ex_payload [ex_tx 1] [ex_withdrawal].
Proof.
  apply (header_round_trip (ES := mainnet) (TH := ex_roots) (BP := ex_points)
    (BA := DefaultBidAdjustor) (ex_clock 9) ex_stored
    (ex_blinded (into_builder_bid_slow (TH := ex_roots) ex_stored)) (mkGetPayloadTrace 0 0) 1
    ex_slot ex_context).
  - by split.
  - split; [by vm_compute|by repeat constructor|by vm_compute].
  - by split.
  - done.
  - split; [done|]. by intros root [= <-].
Defined.

Lemma header_is_best_witness :
  ∃ b, top_of (BP := ex_points) (BA := DefaultBidAdjustor) (mkForkKey 100 200) ex_context b ∧
    cx_payloads ex_context !! bid_block_hash b = Some ex_stored.
Proof.
  destruct (header_is_best (HO := list_order) (BP := ex_points) (BA := DefaultBidAdjustor)
    ex_merge_config (ex_clock 9) 100 ex_slot true ex_context ex_stored ex_context [])
    as (fork & b & original & Hf & _ & Hb & Ho & _).
  - apply map_Forall_empty.
  - apply map_Forall_singleton. split; cbn.
    + by intros k b [<- <-]%lookup_singleton_Some.
    + split; [done|]. by intros k b [_ <-]%lookup_singleton_Some.
  - by vm_compute.
  - assert (mkForkKey 100 200 = fork) as <- by (vm_compute in Hf; congruence).
    exists b. split; [done|]. rewrite Ho.
    change (cx_payloads ex_context) with ({[1010 := ex_stored]} : gmap B256 PayloadEntry) in Ho.
    by apply lookup_singleton_Some in Ho as [_ <-].
Defined.
