(* ===== verification/SlotFeed.v ===== *)
(** * From the housekeeper to the auctioneer

    What the slot updates of the housekeeper do to the state of the auctioneer,
    and the duty feed builders poll. *)

From S2P Require Import Prelude Types Submission SlotStores InclusionLists BidSorter Simulators LocalCache Network Payload PeerConnection BlockMerger Context Auctioneer Duties Housekeeper HousekeeperRuns Delivery.

(** ** Slot updates in the auctioneer *)

(** The attributes and the registration a state has for its slot. *)
Definition state_attributes (st : State) : gmap ForkKey PayloadAttributesUpdate :=
  match st with
  | SSlot _ _ attributes _ => attributes
  | SSorting d | SBroadcasting d _ => sl_payload_attributes_map d
  end.
Definition state_registration (st : State) : option BuilderGetValidatorsResponseEntry :=
  match st with
  | SSlot _ registration _ _ => registration
  | SSorting d | SBroadcasting d _ => Some (sl_registration_data d)
  end.
Definition delivering (st : State) (slot : u64) : Prop :=
  match st with SBroadcasting d _ => sl_bid_slot d = slot | _ => False end.

Lemma foldl_attributes_lookup (l : list PayloadAttributesUpdate)
    (m : gmap ForkKey PayloadAttributesUpdate) f :
  (is_Some (m !! f) ∨ ∃ a, a ∈ l ∧ attributes_fork a = f) →
  is_Some (foldl (λ m u, <[attributes_fork u := u]> m) m l !! f).
Proof.
  revert m. induction l as [|x l IH]; intros m H; simpl.
  { destruct H as [?|(a & []%not_elem_of_nil & _)]. done. }
  apply IH. destruct (decide (attributes_fork x = f)) as [<-|Hne].
  { left. rewrite lookup_insert_eq. eauto. }
  rewrite lookup_insert_ne by done. destruct H as [?|(a & [->|Ha]%elem_of_cons & Hf)]; [by left|done|].
  right. eauto.
Qed.

Section feed.
Context `{HO : HashOrder} `{FX : FxHasher} `{ES : EthSpec} `{TD : TxDecoder} `{TH : TreeHash}
  `{RE : RelayEnv} `{BP : BlsPoints, PR : !BlsPairing, FR : PreferencesRoot} `{BA : BidAdjustor}
  `{CI : ChainInfo} `{HC : HousekeeperConfig}.

Lemma process_slot_data_ok bid_slot m registration l il :
  let st := process_slot_data bid_slot m registration l il in
  state_bid_slot st = bid_slot ∧
  state_attributes st = foldl (λ m u, <[attributes_fork u := u]> m) m l ∧
  state_registration st = registration.
Proof.
  unfold process_slot_data. destruct registration; [|done]. by case_bool_decide.
Qed.

Lemma on_new_slot_total bid_slot c : wp (on_new_slot bid_slot) (λ _ _ _, True) c.
Proof.
  unfold on_new_slot, on_sorter, on_sims, process_slot, report, pool_on_new_slot. wp_steps.
  all: done.
Qed.

Lemma start_slot_ok bid_slot registration l il c :
  wp (start_slot bid_slot registration l il) (λ st _ _,
    state_bid_slot st = bid_slot ∧
    state_attributes st = foldl (λ m u, <[attributes_fork u := u]> m) ∅ l) c.
Proof.
  unfold start_slot. apply wp_bind. eapply wp_mono; [apply on_new_slot_total|]. intros _ c' o _.
  apply wp_ret. destruct (process_slot_data_ok bid_slot ∅ registration l il) as (? & ? & _). done.
Qed.

(** A slot update for the slot of a state, or a later one, leaves the state
    with every fork of the update. *)
Lemma on_slot_data_forks st u c :
  state_bid_slot st ≤ su_bid_slot u → ¬ delivering st (su_bid_slot u) →
  wp (on_slot_data st (su_bid_slot u) (su_registration_data u) (su_payload_attributes u) (su_il u))
    (λ st' _ _, state_bid_slot st' = su_bid_slot u ∧
      ∀ a, a ∈ su_payload_attributes u → is_Some (state_attributes st' !! attributes_fork a)) c.
Proof.
  intros Hle Hnd.
  assert (wp (start_slot (su_bid_slot u) (su_registration_data u) (su_payload_attributes u) (su_il u))
    (λ st' _ _, state_bid_slot st' = su_bid_slot u ∧
      ∀ a, a ∈ su_payload_attributes u → is_Some (state_attributes st' !! attributes_fork a)) c) as Hstart.
  { eapply wp_mono; [apply start_slot_ok|]. intros st' _ _ [? ->]. split; [done|].
    intros a Ha. apply foldl_attributes_lookup. eauto. }
  destruct st as [slot reg attrs il|d|d hash]; cbn in Hle, Hnd |- *.
  - destruct (Z.compare_spec (su_bid_slot u) slot) as [<-|?|?]; [|lia|done]. apply wp_ret.
    set (reg' := match reg with Some r => Some r | None => _ end). set (il' := match il with Some l => _ | None => _ end).
    destruct (process_slot_data_ok (su_bid_slot u) attrs reg' (su_payload_attributes u) il') as (-> & -> & _).
    split; [done|]. intros a Ha. apply foldl_attributes_lookup. eauto.
  - destruct (Z.compare_spec (su_bid_slot u) (sl_bid_slot d)) as [He|?|?]; [|lia|done].
    set (new := List.filter _ _).
    assert (∀ a, a ∈ su_payload_attributes u →
      is_Some (sl_payload_attributes_map d !! attributes_fork a) ∨ a ∈ new) as Hnew.
    { intros a Ha. destruct (decide (is_Some (sl_payload_attributes_map d !! attributes_fork a))) as [|Hn]; [by left|].
      right. unfold new. rewrite elem_of_bool_filter.
      split; [done|]. by rewrite bool_decide_eq_false_2. }
    destruct (bool_decide_reflect (length new = 0%nat)) as [Hz|]; cbn [negb].
    + apply nil_length_inv in Hz. rewrite Hz in Hnew.
      assert (∀ a, a ∈ su_payload_attributes u → is_Some (sl_payload_attributes_map d !! attributes_fork a)) as Hall.
      { intros a Ha. by destruct (Hnew a Ha) as [|[]%not_elem_of_nil]. }
      destruct (sl_il d), (su_il u); by apply wp_ret.
    + apply wp_ret. cbn. split; [done|]. intros a Ha. apply foldl_attributes_lookup.
      destruct (Hnew a Ha); eauto.
  - destruct (Z.compare_spec (su_bid_slot u) (sl_bid_slot d)) as [He|?|?]; [|lia|done]. by destruct Hnd.
Qed.

(** C18: The forks the housekeeper knows reach the auctioneer. After any
    history, once a slot was announced with everything done, feeding the last
    announcement to the auctioneer, in any state not past the slot and not
    delivering a block of it, leaves it in that slot with attributes for every
    fork the housekeeper knows, so that submissions on each of them are judged. *)
Theorem known_forks_reach_auctioneer key_of R now cache ops t :
  now_slot now ≤ u64_max → registrations_ok R cache → lc_proposer_duties cache = [] →
  Forall (hk_op_ok key_of R) (ops ++ [HkTurn t]) →
  ∃ h o, hk_run (ops ++ [HkTurn t]) (housekeeper_new now cache) = Some (tt, h, o) ∧
    (ch_state (hk_chain_head h) = HeadSent → all_done (hk_chain_head h) = true →
     ∃ u, last (updates o) = Some u ∧
     ∀ st c, state_bid_slot st ≤ su_bid_slot u → ¬ delivering st (su_bid_slot u) →
       ∃ st' c' o', on_slot_data st (su_bid_slot u) (su_registration_data u)
                      (su_payload_attributes u) (su_il u) c = Some (st', c', o') ∧
         state_bid_slot st' = succ_slot (ch_slot (hk_chain_head h)) ∧
         ∀ f a, hk_known h !! (f, succ_slot (ch_slot (hk_chain_head h))) = Some a →
           is_Some (state_attributes st' !! f)).
Proof.
  intros Hn Hr Hd Hops. destruct (run_inv key_of R now cache _ Hn Hr Hd Hops) as (h & o & E & HI).
  exists h, o. split; [done|]. intros Hst Hdone.
  destruct (hk_run_snoc _ _ _ _ _ E) as (h1 & o1 & Et%loop_body_not_ready).
  destruct HI as (_ & Hk & _ & [_ Ha] & _). unfold is_ready in Et. rewrite Hst in Ha, Et.
  destruct Ha as (_ & u & Hl & Hu & Hex). exists u. split; [done|]. intros st c Hle Hnd.
  pose proof (on_slot_data_forks st u c Hle Hnd) as Hw. unfold wp in Hw.
  destruct (on_slot_data _ _ _ _ _ c) as [[[st' c'] o']|]; [|done]. destruct Hw as [Hs Hforks].
  exists st', c', o'. split_and!; [done|by rewrite Hs|]. intros f a Hfa.
  destruct (Hk _ _ Hfa) as [_ Hf]. cbn in Hf. rewrite <- Hf. apply Hforks. rewrite Hdone in Et.
  apply Hex; [by destruct (ch_sent_was_complete _)|]. by exists f.
Qed.

(** The first registration the auctioneer has for a slot stays: no later
    slot update for that slot replaces it, whatever registration it carries. *)
Theorem registration_settled st u c r :
  state_registration st = Some r → state_bid_slot st = su_bid_slot u →
  ∃ st' c' o', on_slot_data st (su_bid_slot u) (su_registration_data u)
                 (su_payload_attributes u) (su_il u) c = Some (st', c', o') ∧
    state_bid_slot st' = su_bid_slot u ∧ state_registration st' = Some r.
Proof.
  intros Hr Hs. unfold on_slot_data. destruct st as [slot reg attrs il|d|d hash]; cbn in Hr, Hs; subst.
  - rewrite Z.compare_refl. eexists _, _, _. split; [reflexivity|].
    edestruct process_slot_data_ok as (? & _ & ?). split; eassumption.
  - rewrite Hs, Z.compare_refl. destruct (negb _); [by eexists _, _, _|].
    destruct (sl_il d), (su_il u); by eexists _, _, _.
  - rewrite Hs, Z.compare_refl. by eexists _, _, _.
Qed.
End feed.

(** ** The duty feed *)

(** The entry of the feed for a slot that the last synthesis made. *)
Definition refreshed_entries (synthesized : list BuilderGetValidatorsResponseEntry)
    : gmap u64 BuilderGetValidatorsResponseEntry :=
  foldl (λ m e, <[de_slot e := e]> m) ∅ synthesized.

(** Merging into the duty feed keeps every signed registration, replaces
    every other entry by the newest synthesized one for its slot, adds the
    synthesized entries of slots that had none, and nothing else; the feed is
    sorted by slot. *)
Theorem merge_duty_feed_exact `{HO : HashOrder} existing synthesized :
  let feed := merge_duty_feed existing synthesized in
  let fresh := refreshed_entries synthesized in
  StronglySorted (λ a b, de_slot a ≤ de_slot b) feed ∧
  ∀ e, e ∈ feed ↔
    e ∈ existing ∧ (is_registered e = true ∨ fresh !! de_slot e = None) ∨
    fresh !! de_slot e = Some e ∧
      ((∃ x, x ∈ existing ∧ de_slot x = de_slot e ∧ is_registered x = false) ∨
       ∀ x, x ∈ existing → de_slot x ≠ de_slot e).
Proof.
  cbn zeta. split; [apply sort_by_key_sorted|]. intros e. unfold merge_duty_feed. rewrite sort_by_key_perm.
  change (foldl _ _ synthesized) with (refreshed_entries synthesized). set (fresh := refreshed_entries synthesized).
  assert (∀ s x, fresh !! s = Some x → de_slot x = s) as Hslot.
  { intros s x [Hm|[_ ?]]%foldl_insert_elem; [by rewrite lookup_empty in Hm|done]. }
  set (f := λ entry, match fresh !! de_slot entry with Some _ => _ | None => _ end).
  assert (∀ x, de_slot (f x) = de_slot x) as Hf.
  { intros x. unfold f. destruct (fresh !! de_slot x) eqn:Ex; [|done]. destruct (negb _); eauto. }
  rewrite elem_of_app, list_elem_of_fmap, elem_of_bool_filter, elem_of_hash_values, negb_true_iff, bool_decide_eq_false, elem_of_list_to_set,
    list_elem_of_fmap. split.
  - intros [(x & -> & Hx)|[[s Hs] Hn]].
    + unfold f. destruct (fresh !! de_slot x) as [y|] eqn:Ey; [|by left; auto].
      destruct (is_registered x) eqn:Er; simpl; [by left; auto|]. pose proof (Hslot _ _ Ey) as Hy.
      right. rewrite Hy. split; [done|]. left. eauto.
    + right. pose proof (Hslot _ _ Hs) as <-. split; [done|]. right. intros x Hx Heq. apply Hn.
      exists (f x). split; [by rewrite Hf|]. apply list_elem_of_fmap. eauto.
  - intros [[Hin Hr]|[Hs [(x & Hx & Hsx & Hr)|Hn]]].
    + left. exists e. split; [|done]. unfold f. destruct (fresh !! de_slot e); [|done].
      destruct Hr as [->|]; done.
    + left. exists x. split; [|done]. unfold f. by rewrite Hsx, Hs, Hr.
    + right. split; [eauto|]. intros (y & Hy & (x & -> & Hx)%list_elem_of_fmap). apply (Hn x Hx).
      by rewrite Hy, Hf.
Qed.

(** ** Examples

    One beacon node; slots of 12 seconds from time 0, all under Gloas. *)
Definition gloas_env : RelayEnv := {|
  fork_at_slot := λ _, Gloas;
  is_local_dev := false;
  future_open := λ _, true;
  operator_connected := true;
  sim_error_text := λ _, String.EmptyString;
  builder_sign := λ _, 0
|}.
Definition ex_chain : ChainInfo := {|
  start_of := λ s, Some (s * 12 * SECOND);
  slots_per_epoch := 32;
  genesis_time_in_secs := 0;
  slot_duration := 12 * SECOND
|}.
Definition ex_housekeeping (il : bool) : HousekeeperConfig := {|
  beacon_clients := 1;
  primev_enabled := false;
  il_enabled := il;
  network_enabled := false;
  is_registration_instance := false;
  configured_preferences := preferences_default_values
|}.

(** A turn [ms] milliseconds after time 0 in which nothing arrives and
    requests can be sent. *)
Definition ex_now (ms : Z) : Now := mkNow (ms * 1000000) (ms * 1000000) (ms / 12000).
Definition ex_turn (ms : Z) : Turn := {|
  tn_now := ex_now ms;
  tn_instant := λ _, ms * 1000000;
  tn_clock_fetches := mkFetches true true (ms * 1000000) None;
  tn_head := λ _, mkHeadPoll PollPending (ex_now ms) true;
  tn_sse_fetches := mkFetches true true (ms * 1000000) None;
  tn_prefs := λ _, PollPending;
  tn_attributes := λ _, PollPending;
  tn_duties := mkDutiesPoll PollPending true PollPending;
  tn_duties_retry := true;
  tn_primev_sent := (false, false);
  tn_primev_builders := PollPending;
  tn_primev_validators := PollPending;
  tn_il := mkIlPoll (ms * 1000000) true (ms * 1000000) PollPending (ms * 1000000);
  tn_network_full := false;
  tn_result_tx := 0;
  tn_validators := PollPending;
  tn_validators_send := true;
  tn_sync := λ _, PollPending;
  tn_sync_send := λ _, true;
  tn_blocks := λ _, PollPending;
  tn_auctioneer_full := λ _, false;
  tn_deadline_now := ex_now ms;
  tn_deadline_full := false;
  tn_builder := PollPending;
  tn_builder_send := true;
  tn_consensus := RecvEmpty;
  tn_ready_now := ex_now ms
|}.
#[local] Instance eta_Turn : Eta Turn := λ r,
  mkTurn (tn_now r) (tn_instant r) (tn_clock_fetches r) (tn_head r) (tn_sse_fetches r) (tn_prefs r)
    (tn_attributes r) (tn_duties r) (tn_duties_retry r) (tn_primev_sent r) (tn_primev_builders r)
    (tn_primev_validators r) (tn_il r) (tn_network_full r) (tn_result_tx r) (tn_validators r)
    (tn_validators_send r) (tn_sync r) (tn_sync_send r) (tn_blocks r) (tn_auctioneer_full r)
    (tn_deadline_now r) (tn_deadline_full r) (tn_builder r) (tn_builder_send r) (tn_consensus r)
    (tn_ready_now r).

(** The proposer of slot 7 has index 9 and key 3; it gossips preferences, and
    in slot 6 the node gives its duty, attributes on block 600 and the head. *)
Definition ex_duties : DutiesPoll :=
  mkDutiesPoll (PollReady (Some ([mkProposerDuty 3 9 7], Some 1))) true (PollReady (Some [])).
Definition ex_head : nat → HeadPoll :=
  λ _, mkHeadPoll (PollReady (Some (mkHeadEventData 6 600))) (ex_now 72200) true.
Definition ex_attributes_event : PayloadAttributesEvent :=
  mkPayloadAttributesEvent 7 500 (mkPayloadAttributes 84 1 [] (Some 600)).
Definition ex_gossip : SignedProposerPreferences :=
  mkSignedProposerPreferences (mkProposerPreferences 1 7 9 77 30) 77.

Definition ex_first : Turn := ex_turn 72100.
Definition ex_second : Turn := (ex_turn 72200)
  <| tn_duties := ex_duties |> <| tn_head := ex_head |>
  <| tn_prefs := λ _, PollReady (Some ex_gossip) |>
  <| tn_attributes := λ _, PollReady (Some ex_attributes_event) |>.

Abbreviation ex_hk_run il ops :=
  (hk_run (HO := list_order) (ES := mainnet) (TD := ex_decoder) (TH := ex_roots) (RE := gloas_env)
     (BP := ex_points) (PR := ex_pairing) (FR := pf_fee_recipient) (CI := ex_chain)
     (HC := ex_housekeeping il) ops
     (housekeeper_new (BP := ex_points) (CI := ex_chain) (HC := ex_housekeeping il) (ex_now 61000)
        (local_cache_new (BP := ex_points)))).

Lemma ex_turns_ok :
  Forall (hk_op_ok (BP := ex_points) (λ _, 3) (λ _, False)) ([HkTurn ex_first] ++ [HkTurn ex_second]).
Proof.
  assert (∀ ms, ms / 12000 ≤ u64_max → turn_ok (λ _, 3) (ex_turn ms)) as Hok.
  { intros ms Hms. split_and!; [done|by intros i|]. by split. }
  constructor; [by apply Hok|]. constructor; [|constructor]. split_and!; [done|by intros i|].
  split; [|by intros duties [= <-]]. intros duties root [= <- <-]. by repeat constructor.
Qed.

(** The slot is announced with the attributes and a registration made of the
    proposer's preferences. *)
Lemma ex_announced :
  (λ r, (su_bid_slot <$> updates r.2, hk_chain_head r.1.2, su_payload_attributes <$> updates r.2,
         su_registration_data <$> updates r.2)) <$>
    ex_hk_run false [HkTurn ex_first; HkTurn ex_second] =
  Some ([7], mkChainHead 6 (Some 600) HeadSent 76100000000 true true true true,
        [[event_update (TH := ex_roots) ex_attributes_event]],
        [Some (synthesize_registration (mkProposerDuty 3 9 7) (sp_message ex_gossip)
                 preferences_default_values)]).
Proof. vm_compute. reflexivity. Qed.

Lemma slots_announced_witness :
  ∃ h o, ex_hk_run false ([HkTurn ex_first] ++ [HkTurn ex_second]) = Some (tt, h, o) ∧
    StronglySorted (λ u v, su_bid_slot u ≤ su_bid_slot v) (updates o).
Proof.
  destruct (slots_announced (HO := list_order) (ES := mainnet) (TD := ex_decoder) (TH := ex_roots)
    (RE := gloas_env) (BP := ex_points) (PR := ex_pairing) (FR := pf_fee_recipient) (CI := ex_chain)
    (HC := ex_housekeeping false) (λ _, 3) (λ _, False) (ex_now 61000) local_cache_new
    [HkTurn ex_first] ex_second) as (h & o & E & Hs & _);
    [done|by intros ?|done|apply ex_turns_ok|].
  exists h, o. split; [exact E|exact Hs].
Defined.

Lemma deadlines_once_witness :
  ∃ h o, ex_hk_run false ([HkTurn ex_first] ++ [HkTurn ex_second]) = Some (tt, h, o) ∧
    StronglySorted Z.lt (deadlines o).
Proof.
  destruct (deadlines_once (HO := list_order) (ES := mainnet) (TD := ex_decoder) (TH := ex_roots)
    (RE := gloas_env) (BP := ex_points) (PR := ex_pairing) (FR := pf_fee_recipient) (CI := ex_chain)
    (HC := ex_housekeeping false) (λ _, 3) (λ _, False) (ex_now 61000) local_cache_new
    ([HkTurn ex_first] ++ [HkTurn ex_second])) as (h & o & E & Hs & _);
    [done|by intros ?|done|apply ex_turns_ok|].
  exists h, o. split; [exact E|exact Hs].
Defined.

Lemma published_registrations_backed_witness :
  ∃ h o, ex_hk_run false ([HkTurn ex_first] ++ [HkTurn ex_second]) = Some (tt, h, o) ∧
    ∀ u e, HkSlotUpdate u ∈ o → su_registration_data u = Some e →
      de_slot e = su_bid_slot u ∧
      backed (RE := gloas_env) (BP := ex_points) (PR := ex_pairing) (FR := pf_fee_recipient)
        (λ _, 3) (λ _, False) e.
Proof.
  apply (published_registrations_backed (HO := list_order) (ES := mainnet) (TD := ex_decoder)
    (TH := ex_roots) (RE := gloas_env) (BP := ex_points) (PR := ex_pairing) (FR := pf_fee_recipient)
    (CI := ex_chain) (HC := ex_housekeeping false) (λ _, 3) (λ _, False) (ex_now 61000) local_cache_new
    ([HkTurn ex_first] ++ [HkTurn ex_second]));
    [done|by intros ?|done|apply ex_turns_ok].
Defined.

Lemma known_forks_reach_auctioneer_witness :
  ∃ h o u, ex_hk_run false ([HkTurn ex_first] ++ [HkTurn ex_second]) = Some (tt, h, o) ∧
    last (updates o) = Some u ∧
    ∃ st' c' o', on_slot_data (HO := list_order) (RE := gloas_env) (BP := ex_points)
      (BA := DefaultBidAdjustor) (SSlot 0 None ∅ None) (su_bid_slot u) (su_registration_data u)
      (su_payload_attributes u) (su_il u) ex_context = Some (st', c', o').
Proof.
  destruct (known_forks_reach_auctioneer (HO := list_order) (ES := mainnet) (TD := ex_decoder)
    (TH := ex_roots) (RE := gloas_env) (BP := ex_points) (PR := ex_pairing) (FR := pf_fee_recipient)
    (BA := DefaultBidAdjustor) (CI := ex_chain) (HC := ex_housekeeping false) (λ _, 3) (λ _, False)
    (ex_now 61000) local_cache_new [HkTurn ex_first] ex_second) as (h & o & E & H);
    [done|by intros ?|done|apply ex_turns_ok|].
  change (ex_hk_run false ([HkTurn ex_first] ++ [HkTurn ex_second]) = Some (tt, h, o)) in E.
  assert (match ex_hk_run false ([HkTurn ex_first] ++ [HkTurn ex_second]) with
    | Some (_, h, o) => ch_state (hk_chain_head h) = HeadSent ∧ all_done (hk_chain_head h) = true ∧
        su_bid_slot <$> last (updates o) = Some 7 | None => False end) as Hs
    by (vm_compute; repeat split).
  rewrite E in Hs. destruct Hs as (Hs & Hd & Hu). destruct (H Hs Hd) as (u & Hl & Hf).
  rewrite Hl in Hu. injection Hu as Hu. destruct (Hf (SSlot 0 None ∅ None) ex_context) as (st' & c' & o' & Ho & _).
  { rewrite Hu. vm_compute. discriminate. }
  { intros []. }
  exists h, o, u. split_and!; [exact E|exact Hl|]. exists st', c', o'. exact Ho.
Defined.

Lemma registration_settled_witness :
  ∃ st' c' o',
    on_slot_data (HO := list_order) (RE := ex_env) (BP := ex_points) (BA := DefaultBidAdjustor)
      (SSlot 5 (Some ex_duty) ∅ None) 5 None [ex_attributes] None ex_context = Some (st', c', o') ∧
    state_bid_slot st' = 5 ∧ state_registration st' = Some ex_duty.
Proof.
  apply (registration_settled (HO := list_order) (RE := ex_env) (BP := ex_points)
    (BA := DefaultBidAdjustor) (SSlot 5 (Some ex_duty) ∅ None)
    (mkSlotUpdate 5 None [ex_attributes] None) ex_context ex_duty); reflexivity.
Defined.

(** ** A correction that is never sent

    The inclusion-list request of slot 6 cannot be sent. The slot is announced
    at the deadline without payload attributes; when they arrive, nothing marks
    the inclusion list as done, and no update follows for the rest of the slot. *)
Definition ex_unsent : list (HkOp (BP := ex_points)) :=
  [HkTurn ((ex_turn 72100) <| tn_clock_fetches := mkFetches true false 72100000000 None |>);
   HkTurn (ex_second <| tn_attributes := λ _, PollPending |>);
   HkTurn (ex_turn 76200);
   HkTurn ((ex_turn 76300) <| tn_attributes := λ _, PollReady (Some ex_attributes_event) |>);
   HkTurn (ex_turn 80000); HkTurn (ex_turn 83900)].

(** A history in which the inclusion-list request cannot be sent, the slot
    is announced without attributes, and the attributes that arrive later in the
    slot are never announced. *)
Theorem late_attributes_unannounced :
  (λ r, (su_payload_attributes <$> updates r.2, size (hk_known r.1.2),
         ch_payload_attributes_done (hk_chain_head r.1.2), ch_inclusion_list_done (hk_chain_head r.1.2)))
    <$> ex_hk_run true ex_unsent = Some ([[]], 1%nat, true, false).
Proof. vm_compute. reflexivity. Qed.
