(* ===== verification/Demotion.v ===== *)
(** * Demotions

    [Context::handle_builder_demotion] of [relay/src/auctioneer/context.rs] and
    what it means for the admission of the builder's next submissions. *)

From Stdlib Require Import String.
From S2P Require Import Prelude Types Submission Hydration SlotStores SimError ApiError BidSorter.
From S2P Require Import Simulators LocalCache PoolState Payload BlockMerger Context Delivery.

Section demotion.
Context `{BP : BlsPoints} `{BA : BidAdjustor} `{RE : RelayEnv}.
Implicit Types (c : AuctioneerContext) (builder : Pubkey).

(** The flag of the builder's own record, which [demote_builder] tests. *)
Definition stored_flag c builder : bool :=
  from_option bf_is_optimistic false (lc_builder_info (cx_cache c) !! builder).

(** What a demotion that takes effect sends. *)
Definition demotion_outputs (now : Clock) c (slot : u64) builder (block_hash : B256)
    (bid_value_wei : U256) (reason : string) : list Output :=
  let id := default EmptyString
    (from_option bf_builder_id None (lc_builder_info (cx_cache c) !! builder)) in
  (if operator_connected
   then [OOperator (mkDemotion (ck_ms now) slot (into_bytes id) builder block_hash
           (Z.min bid_value_wei (2 ^ 128 - 1)) (into_bytes reason))]
   else []) ++
  [ODb (DbDemoteBuilder slot builder block_hash id bid_value_wei reason);
   ODemotionAlert builder id block_hash reason].

Lemma get_builder_info_id (l : LocalCache) builder :
  get_builder_info l builder ≫= bf_builder_id =
    from_option bf_builder_id None (lc_builder_info l !! builder).
Proof.
  unfold get_builder_info. destruct (lc_builder_info l !! builder) as [info|]; [|done]. cbn.
  destruct (applies _); cbn; [|done]. by repeat case_match.
Qed.

(** The context after it: the flag cleared. *)
Definition demoted c builder (info : BuilderInfo) : AuctioneerContext :=
  c <| cx_cache ::= λ l, l <| lc_builder_info ::=
        <[builder := info <| bf_is_optimistic := false |>]> |> |>.

Lemma demotion_on now slot builder h value reason c info :
  lc_builder_info (cx_cache c) !! builder = Some info → bf_is_optimistic info = true →
  handle_builder_demotion now slot builder h value reason c =
    Some (tt, demoted c builder info, demotion_outputs now c slot builder h value reason).
Proof.
  intros Hi Ho. unfold handle_builder_demotion, mbind, comp_bind, gets, modify, emit.
  assert (demote_builder builder (cx_cache c) = (true, (cx_cache c) <| lc_builder_info ::=
    <[builder := info <| bf_is_optimistic := false |>]> |>)) as Hd.
  { unfold demote_builder. by rewrite Hi, Ho. }
  rewrite Hd. cbn. rewrite get_builder_info_id. unfold demotion_outputs, demoted. rewrite Hi.
  rec_simpl. rewrite Hd. cbn. by rewrite lookup_insert_eq.
Qed.

Lemma demotion_off now slot builder h value reason c :
  stored_flag c builder = false →
  handle_builder_demotion now slot builder h value reason c = Some (tt, c, []).
Proof.
  unfold stored_flag, handle_builder_demotion, mbind, comp_bind, gets, demote_builder.
  destruct (lc_builder_info (cx_cache c) !! builder) as [info|]; cbn; [|done]. by intros ->.
Qed.

(** ** Properties *)

(** A demotion takes effect exactly when the builder's own record is
    optimistic: it clears that flag and nothing else, and reports the builder,
    the slot, the block and the bid value to the operators, the database and
    the alert channel. Any other demotion changes and sends nothing. *)
Theorem demotion_exact now slot builder h value reason c :
  (∀ info, lc_builder_info (cx_cache c) !! builder = Some info → bf_is_optimistic info = true →
   handle_builder_demotion now slot builder h value reason c =
     Some (tt, demoted c builder info, demotion_outputs now c slot builder h value reason)) ∧
  (stored_flag c builder = false →
   handle_builder_demotion now slot builder h value reason c = Some (tt, c, [])).
Proof. split; [intros info; apply demotion_on|apply demotion_off]. Qed.

(** Where the builder's own record decides its admission, a demotion ends
    it: a submission of the builder is not processed optimistically after it,
    whatever its value and the preferences of the slot. *)
Theorem demotion_ends_optimism now slot builder h value reason c c' o pessimistic v d :
  applies (lc_promotion_mode (cx_cache c)) = false →
  is_Some (lc_builder_info (cx_cache c) !! builder) →
  handle_builder_demotion now slot builder h value reason c = Some (tt, c', o) →
  should_process_optimistically pessimistic v (builder_info c' builder) d = false.
Proof.
  intros Hmode [info Hi] H.
  assert (∃ info', lc_promotion_mode (cx_cache c') = lc_promotion_mode (cx_cache c) ∧
    lc_builder_info (cx_cache c') !! builder = Some info' ∧ bf_is_optimistic info' = false)
    as (info' & Hm & Hi' & Ho').
  { destruct (bf_is_optimistic info) eqn:Ho.
    - rewrite (demotion_on _ _ _ _ _ _ _ info Hi Ho) in H. injection H as <- _.
      eexists. split_and!; [done|cbn; by rewrite lookup_insert_eq|done].
    - rewrite demotion_off in H by (unfold stored_flag; by rewrite Hi). injection H as <- _.
      by exists info. }
  assert (builder_info c' builder = info') as ->.
  { unfold builder_info, get_builder_info. by rewrite Hi', Hm, Hmode. }
  unfold should_process_optimistically. by rewrite Ho', andb_false_r.
Qed.
End demotion.

Definition ex_optimistic : BuilderInfo := builder_info_default <| bf_is_optimistic := true |>.

Lemma demotion_ends_optimism_witness :
  ∃ c' o, handle_builder_demotion (RE := ex_env) (ex_clock 9) 5 1 1010 10 EmptyString
      (ex_context <| cx_cache ::= λ l, l <| lc_builder_info := {[1 := ex_optimistic]} |> |>)
      = Some (tt, c', o) ∧
    should_process_optimistically false 0 (builder_info c' 1) ex_slot = false.
Proof.
  eexists _, _. split; [vm_compute; reflexivity|].
  eapply (demotion_ends_optimism (RE := ex_env) (ex_clock 9) 5 1 1010 10 EmptyString
    (ex_context <| cx_cache ::= λ l, l <| lc_builder_info := {[1 := ex_optimistic]} |> |>)).
  - reflexivity.
  - vm_compute. eauto.
  - vm_compute. reflexivity.
Defined.
