(* ===== verification/Runs.v ===== *)
(** * Runs of the auctioneer

    The state machine of [Auctioneer.v] over any history of events, results of
    simulations and changes made by other threads: it does not panic, answers
    every request once, hands out at most one block a slot, and can deliver
    every header it served. *)

From Stdlib Require Import Sorting.Sorted.
From S2P Require Import Prelude Types Submission Hydration SlotStores SimError SimEntry ApiError.
From S2P Require Import BidSorter Simulators SimResults LocalCache Payload BlockMerger Context.
From S2P Require Import Auctioneer Validation Safety Delivery.

(** ** Histories *)

(** One step of the system as the auctioneer sees it: an event taken from a
    channel, a result taken from the pool, a simulation or a sync poll that
    ends, and a change of what it shares with other threads. *)
Inductive AucOp `{BP : BlsPoints} :=
| AEvent (now : Clock) (e : Event)
| APoll (now : Clock) (clock : nat → Z)
| ATask (i : nat) (reply : SimReply)
| ASync (id : nat) (reported : option bool)
| ACache (cache : LocalCache)
| AFlags (failsafe_triggered block_merging_enabled : bool)
| AIndex (builder_index : option u64).

(** The request of an operation. *)
Definition event_ticket (e : Event) : option Ticket :=
  match e with
  | ESubmission s => Some (TSubmission (su_submission_ref s))
  | EGetHeader _ tx _ => Some (THeader tx)
  | EGetExecutionPayloadBid _ tx => Some (TBid tx)
  | ESubmitBuilderPreferences _ _ _ tx => Some (TPreferences tx)
  | EGetPayload _ _ _ tx => Some (TPayload tx)
  | _ => None
  end.
Definition asked_by `{BP : BlsPoints} (op : AucOp) : Ticket → Z :=
  match op with
  | AEvent _ e => from_option asks none (event_ticket e)
  | _ => none
  end.
(** How often a request is made in a history. *)
Definition asked `{BP : BlsPoints} (t : Ticket) (ops : list AucOp) : Z :=
  sumZ ((λ op, asked_by op t) <$> ops).

Definition broadcasting (st : State) : bool := if st is SBroadcasting _ _ then true else false.

Section runs.
Context `{HO : HashOrder} `{FX : FxHasher} `{ES : EthSpec} `{TH : TreeHash} `{BP : BlsPoints}
  `{BA : BidAdjustor} `{RE : RelayEnv}.
Variable merging_config : BlockMergingConfig.

Abbreviation Auc := (Comp AuctioneerContext Output) (only parsing).

Definition run_op (op : AucOp) (st : State) : Auc State :=
  match op with
  | AEvent now e => step merging_config now st e
  | APoll now clock => r ← poll_sims merging_config now clock st; mret r.1
  | ATask i reply => modify (λ c, c <| cx_sims ::= complete_task i reply |>);; mret st
  | ASync id reported => modify (λ c, c <| cx_sims ::= sync_poll id reported |>);; mret st
  | ACache cache => modify (λ c, c <| cx_cache := cache |>);; mret st
  | AFlags failsafe merging =>
      modify (λ c, c <| cx_failsafe_triggered := failsafe |>
                     <| cx_block_merging_enabled := merging |>);;
      mret st
  | AIndex builder_index => modify (λ c, c <| cx_builder_index := builder_index |>);; mret st
  end.

Fixpoint run (ops : list AucOp) (st : State) : Auc State :=
  match ops with
  | [] => mret st
  | op :: rest => st' ← run_op op st; run rest st'
  end.

(** What the rest of the relay guarantees: simulation results come from the
    pool, submissions were bounded by the decoder, the chain's blob limit is
    within the consensus limit, and sync polls are of the pool's simulators. *)
Definition op_ok (n : nat) (op : AucOp) : Prop :=
  match op with
  | AEvent now e =>
      clock_ok now ∧
      match e with
      | ESubmission s => submission_small (su_submission s)
      | ESimResult _ => False
      | _ => True
      end
  | APoll now _ => clock_ok now
  | ASync id _ => (id < n)%nat
  | _ => True
  end.

(** ** One step *)

Definition aligned (st : State) (c : AuctioneerContext) : Prop :=
  state_bid_slot st = cx_bid_slot c ∧ ctx_ok c.

(** Blocks are handed out when broadcasting starts. *)
Definition delivers (st st' : State) (c c' : AuctioneerContext) (ds : list u64) : Prop :=
  ds = [] ∧ (cx_bid_slot c' = cx_bid_slot c → broadcasting st = true → broadcasting st' = true) ∨
  ds = [cx_bid_slot c] ∧ cx_bid_slot c' = cx_bid_slot c ∧ broadcasting st = false ∧
    broadcasting st' = true.

Record ostep (d : Ticket → Z) (st st' : State) (c c' : AuctioneerContext) (o : list Output)
    : Prop := {
  os_aligned : aligned st' c';
  os_slot : cx_bid_slot c ≤ cx_bid_slot c';
  os_clients : clients (cx_sims c') = clients (cx_sims c);
  os_grows : cx_bid_slot c' = cx_bid_slot c →
    ∀ h, is_Some (cx_payloads c !! h) → is_Some (cx_payloads c' !! h);
  os_answers : ∀ t, open t → answers t o + due t c' = due t c + d t;
  os_delivers : delivers st st' c c' (deliveries o)
}.

(** A handler within the slot. *)
Lemma ostep_handler d ds st st' c c' o :
  hstep (λ _, False) d ds c c' o → state_bid_slot st' = cx_bid_slot c →
  delivers st st' c c' ds → ostep d st st' c c' o.
Proof.
  intros [Hi Hs Hp Hcl Hg Ha Hd] Hst Hdel. split; try done.
  - split; [congruence|done].
  - lia.
  - by rewrite Hd.
Qed.

Lemma hstep_then_silent H d ds c c' o o' :
  hstep H d ds c c' o → silent o' → hstep H d ds c c' (o ++ o').
Proof.
  intros Hh Ho. rewrite <- (app_nil_r ds). eapply (hstep_trans _ _ _ d none); [|exact Hh|].
  - intros t _. unfold none. lia.
  - by apply hstep_silent; [apply Hh| |].
Qed.

Lemma delivers_same st c c' : delivers st st c c' [].
Proof. by left. Qed.

Lemma ostep_same d st c c' o :
  aligned st c → hstep (λ _, False) d [] c c' o → ostep d st st c c' o.
Proof. intros [Hs _] H. eapply ostep_handler; [done|done|apply delivers_same]. Qed.

Lemma ostep_new_slot slot st st' c c' o :
  cx_bid_slot c < slot → new_slot slot c c' o → state_bid_slot st' = slot →
  ostep none st st' c c' o.
Proof.
  intros Hlt (Hok & Hs & _ & Hcl & Ha & Hd) Hst. split; try done; try lia.
  - split; [congruence|done].
  - intros t _. rewrite Ha. unfold none. lia.
  - rewrite Hd. left. split; [done|]. lia.
Qed.

(** A handler that leaves the state as it is. *)
Lemma wp_stay {A} d st (m : Auc A) c :
  aligned st c → wp m (λ _, hstep (λ _, False) d [] c) c →
  wp (m;; mret st) (λ st' c' o, ostep d st st' c c' o) c.
Proof.
  intros Hal Hm. wp_step. eapply wp_mono; [exact Hm|]. intros a c' o H. wp_step.
  rewrite app_nil_r. by apply ostep_same.
Qed.

(** A handler first, then a step. *)
Lemma ostep_seq d d1 d2 st st' c c1 c2 o1 o2 :
  (∀ t, open t → d t = d1 t + d2 t) →
  hstep (λ _, False) d1 [] c c1 o1 → ostep d2 st st' c1 c2 o2 → ostep d st st' c c2 (o1 ++ o2).
Proof.
  intros Hd [Hi Hs Hp Hcl Hg Ha Hdel] [Hal Hsl Hcl2 Hg2 Ha2 Hdel2]. split; try congruence.
  - rewrite <- Hs in *. auto.
  - intros t Ht. rewrite answers_app, (Hd t Ht). specialize (Ha t Ht). specialize (Ha2 t Ht). lia.
  - rewrite deliveries_app, Hdel. unfold delivers in *. by rewrite Hs in Hdel2.
Qed.

Lemma ostep_after d st st' c c1 c2 o1 o2 :
  hstep (λ _, False) d [] c c1 o1 → ostep none st st' c1 c2 o2 → ostep d st st' c c2 (o1 ++ o2).
Proof. apply ostep_seq. intros t _. unfold none. lia. Qed.

Lemma maybe_start_broadcasting_step now d c :
  aligned (SSorting d) c →
  wp (maybe_start_broadcasting now d) (λ st' c' o, ostep none (SSorting d) st' c c' o) c.
Proof.
  intros [Hs Hc]. cbn in Hs.
  assert (ostep none (SSorting d) (SSorting d) c c []) as Hstay.
  { by apply ostep_same; [split|apply hstep_refl]. }
  unfold maybe_start_broadcasting, maybe_try_unblind. wp_step. wp_step. wp_step. cbn.
  destruct (cx_pending_payload c) as [p|] eqn:Ep; [|by wp_steps].
  destruct (cx_payloads c !! _) as [local|]; [|by wp_steps].
  wp_step. wp_step. set (c1 := c <| cx_pending_payload := None |>).
  assert (ctx_ok c1) as Hc1 by (by destruct Hc; split).
  eapply wp_mono; [by apply handle_get_payload_step|].
  intros h c2 o [-> H]. wp_step. cbn. rewrite app_nil_r.
  assert (∀ t, open t → answers t o = asks (TPayload (pp_res_tx p)) t) as Ha.
  { intros t Ht. pose proof (st_answers _ _ _ _ _ _ H t Ht). lia. }
  split.
  - split; [|done]. by destruct h.
  - done.
  - done.
  - done.
  - intros t Ht. rewrite (Ha t Ht). unfold asks, none. destruct t; cbn; rewrite ?Ep; cbn;
      unfold one; repeat case_bool_decide; simplify_eq; lia.
  - rewrite (st_deliveries _ _ _ _ _ _ H). destruct h; [right|left]; done.
Qed.

Lemma on_slot_data_step st slot registration attributes il c :
  aligned st c →
  wp (on_slot_data st slot registration attributes il)
    (λ st' c' o, ostep none st st' c c' o) c.
Proof.
  intros Hal. pose proof Hal as [Hs Hc].
  assert (∀ st', state_bid_slot st' = state_bid_slot st → broadcasting st = false →
    ostep none st st' c c []) as Hupd.
  { intros st' E Hb. eapply ostep_handler; [by apply hstep_refl|congruence|]. left.
    split; [done|]. congruence. }
  assert (∀ slot reg m attrs il, state_bid_slot (process_slot_data slot m reg attrs il) = slot) as Hp.
  { intros ? [r|] m l ?; unfold process_slot_data; [|done]. by case_bool_decide. }
  assert (ostep none st st c c []) as Hstay by (by apply ostep_same, hstep_refl).
  assert (state_bid_slot st < slot → wp (start_slot slot registration attributes il)
    (λ st' c' o, ostep none st st' c c' o) c) as Hnew.
  { intros Hlt. unfold start_slot. wp_step. eapply wp_mono; [apply on_new_slot_step; [done|lia]|].
    intros ? c' o H. wp_step. rewrite app_nil_r. eapply ostep_new_slot; [|exact H|apply Hp]. lia. }
  unfold on_slot_data.
  destruct st as [curr reg m curr_il|d|d h]; cbn [state_bid_slot broadcasting] in *.
  - destruct (Z.compare_spec slot curr) as [E|E|E]; [|by wp_step|by apply Hnew].
    wp_step. apply Hupd; [by rewrite Hp|done].
  - destruct (Z.compare_spec slot (sl_bid_slot d)) as [E|E|E]; [|by wp_step|by apply Hnew].
    case_bool_decide; cbn [negb]; [|wp_step; by apply Hupd].
    destruct (sl_il d), il; wp_step; by apply Hupd.
  - destruct (Z.compare_spec slot (sl_bid_slot d)) as [E|E|E]; [by wp_step..|by apply Hnew].
Qed.

Hypothesis lawful : adjustor_lawful.

Lemma on_submission_step now st s c :
  aligned st c → clock_ok now → submission_small (su_submission s) →
  wp (on_submission now st s)
    (λ st' c' o, ostep (asks (TSubmission (su_submission_ref s))) st st' c c' o) c.
Proof.
  intros Hal Hnow Hsm. pose proof Hal as [Hs Hc]. unfold on_submission.
  destruct st as [slot reg m il|d|d h].
  - apply wp_stay; [done|]. by apply send_submission_result_step.
  - wp_step. eapply wp_mono; [by apply handle_submission_step|]. intros ? c1 o1 H1.
    eapply wp_mono; [apply maybe_start_broadcasting_step|].
    + split; [|apply H1]. by rewrite (st_slot _ _ _ _ _ _ H1).
    + intros st' c2 o2 H2. eapply ostep_after; [exact H1|exact H2].
  - apply wp_stay; [done|]. by apply send_submission_result_step.
Qed.

Lemma on_get_header_step now st params tx mev c :
  aligned st c →
  wp (on_get_header merging_config now st params tx mev)
    (λ st' c' o, ostep (asks (THeader tx)) st st' c c' o) c.
Proof.
  intros Hal. pose proof Hal as [Hs Hc]. unfold on_get_header. apply wp_stay; [done|].
  destruct st as [slot reg m il|d|d h]; [by apply (answer_step _ (OHeader _ _))| |
    by apply (answer_step _ (OHeader _ _))].
  cbn in Hs. destruct (Z.eqb_spec (sl_bid_slot d) (gh_slot params)) as [E|E]; cbn [negb];
    [|by apply (answer_step _ (OHeader _ _))].
  case_bool_decide; [by apply (answer_step _ (OHeader _ _))|].
  destruct (slot_proposer d =? gh_pubkey params); cbn [negb];
    [|by apply (answer_step _ (OHeader _ _))].
  eapply wp_mono; [apply handle_get_header_step; [done..|congruence]|]. by intros ? c' o [? _].
Qed.

Lemma on_get_execution_payload_bid_step st params tx c :
  aligned st c →
  wp (on_get_execution_payload_bid st params tx)
    (λ st' c' o, ostep (asks (TBid tx)) st st' c c' o) c.
Proof.
  intros Hal. pose proof Hal as [Hs Hc]. unfold on_get_execution_payload_bid.
  apply wp_stay; [done|].
  destruct st as [slot reg m il|d|d h]; [by apply (answer_step _ (OExecutionPayloadBid _ _))| |
    by apply (answer_step _ (OExecutionPayloadBid _ _))].
  destruct (sl_bid_slot d =? xp_slot params); cbn [negb];
    [|by apply (answer_step _ (OExecutionPayloadBid _ _))].
  unfold handle_get_execution_payload_bid. apply (wp_none _ (λ _, False)). wp_step.
  split; [by apply hstep_refl|]. by apply (answer_step _ (OExecutionPayloadBid _ _)).
Qed.

Lemma on_submit_builder_preferences_step st proposer slot payment tx c :
  aligned st c →
  wp (on_submit_builder_preferences st proposer slot payment tx)
    (λ st' c' o, ostep (asks (TPreferences tx)) st st' c c' o) c.
Proof.
  intros Hal. pose proof Hal as [Hs Hc]. unfold on_submit_builder_preferences.
  apply wp_stay; [done|]. wp_step; [by apply (answer_step _ (OPreferences _ _))|].
  apply (wp_none _ (λ _, False)). wp_step.
  assert (same_core c (c <| cx_builder_preferences ::= store_preference proposer slot payment |>))
    as Hsame by done.
  split; [by apply hstep_silent; [| |constructor]|].
  apply (answer_step _ (OPreferences _ _)); [by eapply same_core_inv|done].
Qed.

Lemma on_get_payload_step now st hash blinded trace tx c :
  aligned st c →
  wp (on_get_payload now st hash blinded trace tx)
    (λ st' c' o, ostep (asks (TPayload tx)) st st' c c' o) c.
Proof.
  intros Hal. pose proof Hal as [Hs Hc]. unfold on_get_payload.
  destruct st as [slot reg m il|d|d h];
    [by apply wp_stay; [|apply (answer_step _ (OPayload _ (Err _)))]| |
     by apply wp_stay; [|apply (answer_step _ (OPayload _ (Err _)))]].
  wp_step. wp_step. cbn [app]. destruct (cx_payloads c !! hash) as [local|].
  - wp_step. eapply wp_mono; [by apply handle_get_payload_step|]. intros h c' o [-> H]. wp_step.
    rewrite app_nil_r. eapply ostep_handler; [exact H|by destruct h|].
    destruct h; [right|left]; done.
  - destruct (cx_pending_payload c) as [p|] eqn:Ep.
    + by apply wp_stay; [|apply (answer_step _ (OPayload _ (Err _)))].
    + wp_step. wp_step. wp_step. split; try done.
      * split; [done|]. by destruct Hc.
      * intros t _. unfold asks. destruct t; cbn; rewrite ?Ep; cbn; unfold one;
          repeat case_bool_decide; simplify_eq; lia.
      * apply delivers_same.
Qed.

Lemma on_merge_result_step now st result c :
  aligned st c →
  wp (on_merge_result merging_config now st result) (λ st' c' o, ostep none st st' c c' o) c.
Proof.
  intros Hal. pose proof Hal as [Hs Hc]. unfold on_merge_result.
  assert (ostep none st st c c []) as Hstay by (by apply ostep_same, hstep_refl).
  destruct st as [slot reg m il|d|d h]; [by wp_step| |by wp_step].
  destruct result as [response|e]; [|by wp_step].
  wp_step. eapply wp_mono; [by apply handle_merge_response_step|]. intros ? c1 o1 H1.
  assert (aligned (SSorting d) c1) as Hal1.
  { split; [|apply H1]. by rewrite (st_slot _ _ _ _ _ _ H1). }
  eapply (wp_mono _ (λ st' c' o, ostep none (SSorting d) st' c1 c' o)).
  2:{ intros st' c2 o2 H2. eapply ostep_after; [exact H1|exact H2]. }
  destruct (merged_validation_request _ _ _) as [req|].
  - unfold on_sims. wp_step. wp_step.
    eapply wp_mono.
    { apply (wp_keeps (pool_all (request_known (λ _, False) c1)) (λ _, True));
        [apply dispatch_merged_wp, Hal1|apply dispatch_merged_keeps|apply Hal1]. }
    intros started s o (Hstep & Hall & _).
    pose proof (hstep_sims _ c1 _ s (OSimStarted <$> o) (proj2 Hal1)
      (silent_fmap OSimStarted _ (λ _, eq_refl)) Hstep Hall) as H2.
    assert (hstep (λ _, False) none [] c1 (c1 <| cx_sims := s |>) (OSimStarted <$> o)) as H3.
    { eapply hstep_ext; [|exact H2]. by intros []. }
    destruct started as [x|]; wp_steps; apply ostep_same; try done; cbn [app]; rewrite ?app_nil_r.
    + apply hstep_then_silent; [done|by repeat constructor].
    + done.
  - wp_step. by apply ostep_same, hstep_refl, H1.
Qed.

Lemma on_sim_result_step now st i c :
  aligned st c → result_from (request_known (λ _, False) c) i →
  wp (on_sim_result now st (Some i)) (λ st' c' o, ostep (owes_result i false) st st' c c' o) c.
Proof.
  intros Hal Hres. pose proof Hal as [Hs Hc]. unfold on_sim_result.
  assert (wp (handle_simulation_result now (Some i) false;; mret st)
    (λ st' c' o, ostep (owes_result i false) st st' c c' o) c) as Hunsorted.
  { apply wp_stay; [done|]. by apply handle_simulation_result_step. }
  destruct st as [slot reg m il|d|d h];
    [wp_step; wp_step; exact Hunsorted| |wp_step; wp_step; exact Hunsorted].
  destruct (from_option _ _ (si_bid i)) eqn:Ecur; [|wp_step; wp_step; exact Hunsorted].
  wp_step. eapply wp_mono.
  { apply sort_simulation_result_step; [done|done|]. intros b Hb. rewrite Hb in Ecur. cbn in Ecur, Hs.
    apply Z.eqb_eq in Ecur. congruence. }
  intros sent c1 o1 [H1 ->]. wp_step.
  eapply wp_mono; [apply (handle_simulation_result_step (λ _, False)), H1|].
  intros ? c2 o2 H2. wp_step. rewrite app_nil_r. apply ostep_same; [done|].
  apply (hstep_trans _ (λ _, False) _ (owes_result i false) (owes_result i (needs_answer i)) [] []
    _ c1); [|done|done].
  intros t _. unfold owes_result. destruct (needs_answer i); cbn; unfold none; lia.
Qed.

(** Every event but a simulation result, which the pool must have made. *)
Lemma step_ok now st e c :
  aligned st c → clock_ok now →
  match e with
  | ESubmission s => submission_small (su_submission s)
  | ESimResult _ => False
  | _ => True
  end →
  wp (step merging_config now st e)
    (λ st' c' o, ostep (from_option asks none (event_ticket e)) st st' c c' o) c.
Proof.
  intros Hal Hnow He. pose proof Hal as [Hs Hc]. destruct e; cbn [step event_ticket from_option].
  - by apply on_slot_data_step.
  - by apply on_submission_step.
  - by apply on_get_header_step.
  - by apply on_get_execution_payload_bid_step.
  - by apply on_submit_builder_preferences_step.
  - apply wp_stay; [done|]. by apply handle_gloas_block_step.
  - apply wp_stay; [done|]. by apply handle_attestation_deadline_step.
  - by apply on_get_payload_step.
  - destruct st as [slot reg m il|d|d h]; [wp_step; by apply ostep_same, hstep_refl| |
      wp_step; by apply ostep_same, hstep_refl].
    wp_step. eapply wp_mono; [by apply handle_gossip_payload_step|]. intros ? c1 o1 H1.
    eapply wp_mono; [apply maybe_start_broadcasting_step|].
    + split; [|apply H1]. by rewrite (st_slot _ _ _ _ _ _ H1).
    + intros st' c2 o2 H2. eapply ostep_after; [exact H1|exact H2].
  - done.
  - by apply on_merge_result_step.
  - apply wp_stay; [done|]. by apply handle_builder_demotion_step.
Qed.

(** A result of the pool answers what the pool owed. *)
Lemma poll_sims_step now clock st c :
  aligned st c →
  wp (poll_sims merging_config now clock st) (λ r c' o, ostep none st r.1 c c' o) c.
Proof.
  intros Hal. pose proof Hal as [Hs Hc]. unfold poll_sims, on_sims. wp_step. wp_step.
  eapply wp_mono.
  { apply (wp_keeps (pool_all (request_known (λ _, False) c))); [apply next_done_wp, Hc|
      apply next_done_keeps|apply Hc]. }
  intros d s o ([Htakes _] & Hall & Hd).
  pose proof (hstep_sims _ c _ s (OSimStarted <$> o) Hc
    (silent_fmap OSimStarted _ (λ _, eq_refl)) Htakes Hall) as H1.
  set (c1 := c <| cx_sims := s |>) in *.
  assert (aligned st c1) as Hal1 by (by split; [|apply H1]).
  assert (∀ d2 st' c2 o2, (∀ t, open t → d2 t = match t with
      TSubmission r => from_option (done_owed r) 0 d | _ => 0 end) →
    ostep d2 st st' c1 c2 o2 → ostep none st st' c c2 ((OSimStarted <$> o) ++ o2)) as Hfin.
  { intros d2 st' c2 o2 Hd2 H2. eapply ostep_seq; [|exact H1|exact H2].
    intros t Ht. rewrite (Hd2 t Ht). unfold none. destruct t; lia. }
  assert (ostep none st st c1 c1 []) as Hstay by (by apply ostep_same, hstep_refl, H1).
  destruct d as [[result]|]; [|wp_step; apply (Hfin none); [by intros []|done]].
  cbn in Hd. unfold done_from in Hd. cbn [sd_result] in *.
  destruct result as [id [i|]|id [inner|]]; cbn in Hd.
  - cbn [step]. wp_step. eapply wp_mono; [by apply on_sim_result_step|].
    intros st' c2 o2 H2. wp_step. rewrite app_nil_r. apply (Hfin (owes_result i false)); [|done].
    intros t _. cbn. unfold owes_result, needs_answer, done_owed, result_owed, asks, none, one. cbn.
    destruct (version_is_optimistic _), t; cbn; repeat case_bool_decide; congruence.
  - assert (∀ st, step merging_config now st (ESimResult None) c1 = Some (st, c1, [])) as E
      by (by intros []).
    wp_step. unfold wp. rewrite E. apply (Hfin none); [by intros []|done].
  - wp_step. eapply wp_mono; [apply on_merged_sim_result_step, H1|].
    intros ? c2 o2 H2. wp_step. rewrite app_nil_r. apply (Hfin none); [by intros []|].
    by apply ostep_same.
  - wp_step. apply (Hfin none); [by intros []|done].
Qed.

Lemma pool_op_step st c s :
  aligned st c → pool_step (λ _, 0) (cx_sims c) s → pool_all (request_known (λ _, False) c) s →
  ostep none st st c (c <| cx_sims := s |>) [].
Proof.
  intros Hal Hs Hall. apply ostep_same; [done|].
  eapply hstep_ext; [|apply hstep_sims; [apply Hal|constructor|exact Hs|exact Hall]]. by intros [].
Qed.

Lemma run_op_step op st c :
  aligned st c → op_ok (length (clients (cx_sims c))) op →
  wp (run_op op st) (λ st' c' o, ostep (asked_by op) st st' c c' o) c.
Proof.
  intros Hal Hop. pose proof Hal as [Hs Hc].
  destruct op as [now e|now clock|i reply|id reported|cache|failsafe merging|index]; cbn in Hop |- *.
  - destruct Hop as [? ?]. by apply step_ok.
  - wp_step. eapply wp_mono; [by apply poll_sims_step|]. intros r c' o H. wp_step.
    rewrite app_nil_r. exact H.
  - wp_steps. apply pool_op_step; [done|apply complete_task_step, Hc|apply complete_task_keeps, Hc].
  - wp_steps. apply pool_op_step; [done| |apply sync_poll_keeps, Hc].
    apply sync_poll_step; [apply Hc|]. unfold clients in Hop. by rewrite length_fmap in Hop.
  - wp_steps. apply ostep_same; [done|]. by apply hstep_silent; [| |constructor].
  - wp_steps. apply ostep_same; [done|]. by apply hstep_silent; [| |constructor].
  - wp_steps. apply ostep_same; [done|]. by apply hstep_silent; [| |constructor].
Qed.

(** ** Whole runs *)

(** The slots blocks are handed out for increase, from the one in progress. *)
Definition delivered_from (st : State) (c : AuctioneerContext) (ds : list u64) : Prop :=
  StronglySorted Z.lt ds ∧
  Forall (λ slot, cx_bid_slot c ≤ slot ∧ (broadcasting st = true → cx_bid_slot c < slot)) ds.

Record rstep (ops : list AucOp) (st st' : State) (c c' : AuctioneerContext) (o : list Output)
    : Prop := {
  rs_aligned : aligned st' c';
  rs_slot : cx_bid_slot c ≤ cx_bid_slot c';
  rs_clients : clients (cx_sims c') = clients (cx_sims c);
  rs_grows : cx_bid_slot c' = cx_bid_slot c →
    ∀ h, is_Some (cx_payloads c !! h) → is_Some (cx_payloads c' !! h);
  rs_answers : ∀ t, open t → answers t o + due t c' = due t c + asked t ops;
  rs_delivers : delivered_from st c (deliveries o)
}.

Lemma delivered_cons st st1 c c1 ds1 ds2 :
  cx_bid_slot c ≤ cx_bid_slot c1 → delivers st st1 c c1 ds1 → delivered_from st1 c1 ds2 →
  delivered_from st c (ds1 ++ ds2).
Proof.
  intros Hle Hd [Hsort Hall]. unfold delivered_from.
  destruct Hd as [[-> Hb]|(-> & Es & Hb & Hb1)].
  - split; [done|]. eapply Forall_impl; [exact Hall|]. intros slot [H1 H2]. split; [lia|].
    intros Hst. destruct (Z.eq_dec (cx_bid_slot c1) (cx_bid_slot c)) as [E|]; [|lia].
    rewrite <- E. auto.
  - cbn. rewrite Forall_cons. split; [|split].
    + constructor; [done|]. eapply Forall_impl; [exact Hall|]. intros slot [_ H2].
      rewrite <- Es. auto.
    + split; [lia|]. congruence.
    + eapply Forall_impl; [exact Hall|]. intros slot [_ H2]. specialize (H2 Hb1). lia.
Qed.

Lemma run_step ops st c :
  aligned st c → Forall (op_ok (length (clients (cx_sims c)))) ops →
  wp (run ops st) (λ st' c' o, rstep ops st st' c c' o) c.
Proof.
  revert st c. induction ops as [|op ops IH]; intros st c Hal Hops; cbn [run].
  { wp_step. split; try done.
    - intros t _. cbn. lia.
    - split; constructor. }
  apply Forall_cons in Hops as [Hop Hops]. wp_step. eapply wp_mono; [by apply run_op_step|].
  intros st1 c1 o1 [Hal1 Hs1 Hcl Hg1 Ha1 Hd1].
  eapply wp_mono; [apply (IH st1 c1); [done|by rewrite Hcl]|].
  intros st2 c2 o2 [Hal2 Hs2 Hcl2 Hg2 Ha2 Hd2]. split.
  - done.
  - lia.
  - congruence.
  - intros E h Hh. apply Hg2; [lia|]. apply Hg1; [lia|done].
  - intros t Ht. rewrite answers_app. specialize (Ha1 t Ht). specialize (Ha2 t Ht).
    unfold asked in *. cbn. lia.
  - rewrite deliveries_app. by eapply delivered_cons.
Qed.

(** Where the auctioneer starts. *)
Variable configs : list SimulatorClient.
Variables (block_merging_enabled failsafe_triggered : bool).
Variable cache : LocalCache.
Variable adjustor : Adjustor.

Definition start : AuctioneerContext :=
  context_new (simulators_new configs) block_merging_enabled failsafe_triggered BidSorter.new cache
    adjustor.

Lemma start_aligned : aligned state_default start.
Proof.
  split; [done|]. apply (fresh_ok start 0); try done.
  - intros b (fork & k & Hb). unfold fork_state in Hb. cbn in Hb.
    rewrite lookup_empty in Hb. cbn in Hb. by rewrite lookup_empty in Hb.
  - apply simulators_new_ok.
  - apply simulators_new_all.
Qed.

Lemma run_from_start ops :
  Forall (op_ok (length configs)) ops →
  wp (run ops state_default) (λ st c o, rstep ops state_default st start c o) start.
Proof.
  intros Hops. apply run_step; [apply start_aligned|].
  change (cx_sims start) with (simulators_new configs). by rewrite simulators_new_clients.
Qed.

Lemma start_due t : due t start = 0.
Proof. destruct t; cbn; [|done..]. apply simulators_new_owed. Qed.

Lemma sum_nonneg {A} (f : A → Z) l : (∀ a, 0 ≤ f a) → 0 ≤ sumZ (f <$> l).
Proof. intros Hf. apply sumZ_nonneg. by intros x (a & -> & _)%list_elem_of_fmap. Qed.

Lemma owed_nonneg r s : 0 ≤ owed r s.
Proof.
  assert (∀ q, 0 ≤ req_owed r q) as Hq.
  { intros q. unfold req_owed. case_match; [done|]. by case_bool_decide. }
  assert (∀ res, 0 ≤ result_owed r res) as Hres.
  { intros [? [i|]|? ?]; cbn; try done. case_match; [done|]. by case_bool_decide. }
  unfold owed, queue_owed, map_sum.
  assert (∀ b, 0 ≤ waiting_owed r b) as Hw by (intros b; by apply sum_nonneg).
  pose proof (sum_nonneg (req_owed r) (sm_requests s).*1.*1 Hq).
  pose proof (sum_nonneg (req_owed r) (sm_priority_requests s).*1.*1 Hq).
  pose proof (sum_nonneg (waiting_owed r) (map_to_list (sm_seen_blocks s)).*2 Hw).
  assert (0 ≤ sumZ (task_owed r <$> sm_in_flight s)) by (apply sum_nonneg; intros []; cbn; auto; lia).
  assert (0 ≤ sumZ (event_owed r <$> sm_rx s)) by (apply sum_nonneg; intros []; cbn; auto; lia).
  assert (0 ≤ sumZ (done_owed r <$> sm_answered s)) by (apply sum_nonneg; intros d; apply Hres).
  lia.
Qed.

Lemma due_nonneg t c : 0 ≤ due t c.
Proof.
  destruct t; cbn; [apply owed_nonneg|lia|lia| |lia].
  destruct (cx_pending_payload c); cbn; [|lia]. unfold one. by case_bool_decide.
Qed.

(** A served header has its payload in the store. *)
Lemma on_get_header_stored now st params tx mev c :
  aligned st c →
  wp (on_get_header merging_config now st params tx mev) (λ _ c' o,
    ∀ e, OHeader tx (Ok e) ∈ o → is_Some (cx_payloads c' !! entry_block_hash e)) c.
Proof.
  intros [Hs Hc]. unfold on_get_header.
  assert (∀ err, wp (emit [OHeader tx (Err err)];; mret st) (λ _ c' o,
    ∀ e, OHeader tx (Ok e) ∈ o → is_Some (cx_payloads c' !! entry_block_hash e)) c) as Herr.
  { intros err. wp_steps. intros e Hin%list_elem_of_singleton. done. }
  destruct st as [slot reg m il|d|d h]; [apply Herr| |apply Herr]. cbn in Hs.
  destruct (Z.eqb_spec (sl_bid_slot d) (gh_slot params)) as [E|E]; cbn [negb]; [|apply Herr].
  case_bool_decide; [apply Herr|].
  destruct (slot_proposer d =? gh_pubkey params); cbn [negb]; [|apply Herr].
  wp_step. eapply wp_mono; [apply handle_get_header_step; [done..|congruence]|].
  intros ? c' o [_ He]. wp_step. by rewrite app_nil_r.
Qed.

(** A payload request for a stored payload is answered at once. *)
Lemma on_get_payload_at_once now st h blinded trace tx c local :
  cx_payloads c !! h = Some local →
  ∃ st' r, on_get_payload now st h blinded trace tx c = Some (st', c, [OPayload tx r]).
Proof.
  intros Hh. destruct st as [slot reg m il|d|d h']; cbn; [by eexists _, _| |by eexists _, _].
  unfold mbind, comp_bind, get. rewrite Hh. unfold handle_get_payload, mbind, comp_bind, gets.
  destruct (context_get_payload _ _ _ _ _ _) as [[[r p] t]|err]; cbn; by eexists _, _.
Qed.

(** ** Properties *)

(** C1: Whatever events arrive, simulations return and other threads change,
    the auctioneer does not panic, and between events the slot of the state
    machine is that of the context and of the sorter, and every bid the sorter
    can serve has its payload in the store. *)
Theorem auctioneer_total ops :
  Forall (op_ok (length configs)) ops →
  ∃ st c o, run ops state_default start = Some (st, c, o) ∧
    state_bid_slot st = cx_bid_slot c ∧ bs_curr_bid_slot (cx_bid_sorter c) = cx_bid_slot c ∧
    ∀ b, holds (cx_bid_sorter c) b →
      is_Some (cx_payloads c !! bid_block_hash b) ∨
      is_Some (get_payload (bid_block_hash b) (cx_gloas_payloads c)).
Proof.
  intros Hops. pose proof (run_from_start ops Hops) as H. unfold wp in H.
  destruct (run ops state_default start) as [[[st c] o]|]; [|done].
  destruct H as [[Hs Hc] _ _ _ _ _]. exists st, c, o. split_and!; [done|done|apply Hc|].
  intros b Hb. by destruct (inv_bids _ _ Hc b Hb) as [[]|?].
Qed.

(** C2: Every request is answered once: over any history the answers sent to a
    waiting request and those still to come, from the simulators or with a
    payload that has not arrived, are as many as the times it was made. No
    answer goes to a request that was not made. *)
Theorem every_request_answered_once ops st c o t :
  Forall (op_ok (length configs)) ops → run ops state_default start = Some (st, c, o) → open t →
  answers t o + due t c = asked t ops ∧ 0 ≤ answers t o ∧ 0 ≤ due t c.
Proof.
  intros Hops E Ht. pose proof (wp_run _ _ _ _ _ _ (run_from_start ops Hops) E) as H.
  pose proof (rs_answers _ _ _ _ _ _ H t Ht) as Ha. rewrite start_due in Ha.
  split_and!; [lia|apply answers_nonneg|apply due_nonneg].
Qed.

(** C3: At most one block is handed out for publication in each slot, and
    never one of an earlier slot than the last. *)
Theorem one_delivery_per_slot ops st c o :
  Forall (op_ok (length configs)) ops → run ops state_default start = Some (st, c, o) →
  StronglySorted Z.lt (deliveries o).
Proof.
  intros Hops E. pose proof (wp_run _ _ _ _ _ _ (run_from_start ops Hops) E) as H.
  apply (rs_delivers _ _ _ _ _ _ H).
Qed.

(** C4: A header that was served can be asked for: in every later state of the
    same slot a payload with its block hash is stored, so that a payload
    request for it is answered at once and not left waiting. *)
Theorem served_header_stays_deliverable ops now params tx mev ops' st c o st1 c1 o1 st2 c2 o2 e :
  Forall (op_ok (length configs)) ops → clock_ok now → Forall (op_ok (length configs)) ops' →
  run ops state_default start = Some (st, c, o) →
  step merging_config now st (EGetHeader params tx mev) c = Some (st1, c1, o1) →
  OHeader tx (Ok e) ∈ o1 →
  run ops' st1 c1 = Some (st2, c2, o2) → cx_bid_slot c2 = cx_bid_slot c →
  (∃ local, cx_payloads c2 !! entry_block_hash e = Some local ∧
     entry_block_hash local = entry_block_hash e) ∧
  ∀ now' blinded trace tx', ∃ st3 r,
    step merging_config now' st2 (EGetPayload (entry_block_hash e) blinded trace tx') c2 =
      Some (st3, c2, [OPayload tx' r]).
Proof.
  intros Hops Hnow Hops' E E1 Hin E2 Hslot.
  pose proof (wp_run _ _ _ _ _ _ (run_from_start ops Hops) E) as [Hal _ Hcl _ _ _].
  change (cx_sims start) with (simulators_new configs) in Hcl.
  rewrite simulators_new_clients in Hcl.
  pose proof (wp_run _ _ _ _ _ _ (step_ok now st (EGetHeader params tx mev) c Hal Hnow I) E1)
    as [Hal1 Hs1 Hcl1 _ _ _].
  pose proof (wp_run _ _ _ _ _ _ (on_get_header_stored now st params tx mev c Hal) E1 e Hin) as He.
  assert (Forall (op_ok (length (clients (cx_sims c1)))) ops') as Hops1 by (by rewrite Hcl1, Hcl).
  pose proof (wp_run _ _ _ _ _ _ (run_step ops' st1 c1 Hal1 Hops1) E2) as [[_ Hc2] Hs2 _ Hg2 _ _].
  destruct (Hg2 ltac:(lia) _ He) as [local Hlocal]. split.
  - exists local. split; [done|]. apply (inv_keys _ _ Hc2 _ _ Hlocal).
  - intros now' blinded trace tx'. by apply on_get_payload_at_once with local.
Qed.
End runs.
