(* ===== verification/Scenarios.v ===== *)
(** * Scenarios

    Runs of the auctioneer evaluated on concrete inputs: instances of the
    properties of [Runs.v], and histories that show what the relay does in
    corner cases. *)

From Stdlib Require Import Sorting.Sorted String.
From S2P Require Import Prelude Types Submission Hydration SlotStores SimError SimEntry ApiError.
From S2P Require Import BidSorter Simulators SimResults LocalCache Payload BlockMerger Context.
From S2P Require Import PoolState Auctioneer Validation Safety Delivery Runs.
#[local] Open Scope string_scope.
#[local] Open Scope Z_scope.

(** ** A block submitted, simulated, served and delivered

    One simulator. Builder 1 submits a block, its simulation succeeds, and the
    proposer asks for the header and then for the payload. *)
Definition ex_sub1 : SubmissionData :=
  mkSubmissionData 1 (ref_http 1) (Full (SFulu ex_full)) None (mkSubmissionVersion 1 None) (Some 4)
    (mkSubmissionTrace 1 1 1) Fulu false.
Abbreviation ex_start :=
  (start (BP := ex_points) (BA := DefaultBidAdjustor) (RE := ex_env) [ex_client] false false
     (local_cache_new (BP := ex_points)) tt).
Abbreviation ex_run :=
  (run (HO := list_order) (FX := ex_hash) (ES := mainnet) (TH := ex_roots) (BP := ex_points)
     (BA := DefaultBidAdjustor) (RE := ex_env) ex_merge_config).

Definition ex_simulated : list (AucOp (BP := ex_points)) :=
  [ASync 0 (Some true); APoll (ex_clock 0) (λ _, 0);
   AEvent (ex_clock 1) (ESlotData 5 (Some ex_duty) [ex_attributes] None);
   AEvent (ex_clock 2) (ESubmission ex_sub1);
   ATask 0 (mkSimReply (Ok []) (Ok []) 5); APoll (ex_clock 3) (λ _, 3)].
Definition ex_header (tx : Sender) : AucOp (BP := ex_points) :=
  AEvent (ex_clock 4) (EGetHeader (mkGetHeaderParams 5 100 3) tx true).
Definition ex_get_payload (tx : Sender) (bid : BuilderBid) : AucOp (BP := ex_points) :=
  AEvent (ex_clock 5) (EGetPayload (eh_block_hash (hb_header bid)) (ex_blinded bid)
    (mkGetPayloadTrace 0 0) tx).
Definition ex_bid_served : BuilderBid :=
  into_builder_bid_slow (TH := ex_roots)
    (new_submission ex_full 4 None None (mkSubmissionVersion 1 None) (mkSubmissionTrace 1 1 1)
       (Some 200)).
Definition ex_ops : list (AucOp (BP := ex_points)) :=
  ex_simulated ++ [ex_header 7; ex_get_payload 8 ex_bid_served].

Lemma ex_lawful : adjustor_lawful (BA := DefaultBidAdjustor).
Proof. done. Qed.

Lemma ex_ops_ok : Forall (op_ok (ES := mainnet) (BP := ex_points) 1) ex_ops.
Proof. repeat constructor; vm_compute; discriminate || reflexivity. Qed.

Lemma ex_simulated_ok : Forall (op_ok (ES := mainnet) (BP := ex_points) 1) ex_simulated.
Proof. repeat constructor; vm_compute; discriminate || reflexivity. Qed.

Lemma auctioneer_total_witness :
  ∃ st c o, ex_run ex_ops state_default ex_start = Some (st, c, o) ∧
    state_bid_slot st = cx_bid_slot c.
Proof.
  destruct (auctioneer_total (HO := list_order) (FX := ex_hash) (ES := mainnet) (TH := ex_roots)
    (BP := ex_points) (BA := DefaultBidAdjustor) (RE := ex_env) ex_merge_config ex_lawful [ex_client]
    false false (local_cache_new (BP := ex_points)) tt ex_ops ex_ops_ok) as (st & c & o & E & Hs & _).
  exists st, c, o. split; [exact E|exact Hs].
Defined.

Definition outputs_of {A} (r : option (A * list Output)) : list Output := from_option snd [] r.

(** The submission and both requests were answered, the block delivered. *)
Lemma every_request_answered_once_witness :
  let o := outputs_of (ex_run ex_ops state_default ex_start) in
  answers (TSubmission (ref_http 1)) o = 1 ∧ answers (THeader 7) o = 1 ∧ answers (TPayload 8) o = 1.
Proof.
  destruct (ex_run ex_ops state_default ex_start) as [[[st c] o]|] eqn:E; [|by vm_compute in E].
  assert (∀ t, open (RE := ex_env) t → answers t o + due (BP := ex_points) t c = asked t ex_ops) as H.
  { intros t Ht. pose proof (every_request_answered_once (HO := list_order) (FX := ex_hash) (ES := mainnet)
      (TH := ex_roots) (BP := ex_points) (BA := DefaultBidAdjustor) (RE := ex_env) ex_merge_config
      ex_lawful [ex_client] false false (local_cache_new (BP := ex_points)) tt ex_ops st c o t
      ex_ops_ok E Ht) as [H _]. exact H. }
  assert (due (BP := ex_points) (BA := DefaultBidAdjustor) (TSubmission (ref_http 1)) c = 0 ∧
    due (BP := ex_points) (BA := DefaultBidAdjustor) (TPayload 8) c = 0) as [Hd1 Hd2].
  { vm_compute in E. injection E as <- <- <-. by vm_compute. }
  change (answers (TSubmission (ref_http 1)) o = 1 ∧ answers (THeader 7) o = 1 ∧
    answers (TPayload 8) o = 1).
  pose proof (H (TSubmission (ref_http 1)) eq_refl) as H1. rewrite Hd1 in H1.
  pose proof (H (THeader 7) I) as H2. pose proof (H (TPayload 8) I) as H3. rewrite Hd2 in H3.
  rewrite Z.add_0_r in H1, H2, H3. rewrite H1, H2, H3.
  split; [|split]; vm_compute; reflexivity.
Defined.

Lemma one_delivery_per_slot_witness :
  deliveries (outputs_of (ex_run ex_ops state_default ex_start)) = [5] ∧
  StronglySorted Z.lt (deliveries (outputs_of (ex_run ex_ops state_default ex_start))).
Proof.
  destruct (ex_run ex_ops state_default ex_start) as [[[st c] o]|] eqn:E; [|by vm_compute in E].
  split; [vm_compute in E; injection E as <- <- <-; by vm_compute|].
  exact (one_delivery_per_slot (HO := list_order) (FX := ex_hash) (ES := mainnet) (TH := ex_roots)
    (BP := ex_points) (BA := DefaultBidAdjustor) (RE := ex_env) ex_merge_config ex_lawful [ex_client]
    false false (local_cache_new (BP := ex_points)) tt ex_ops st c o ex_ops_ok E).
Defined.

(** The header is served, a second block of the builder arrives, and the first
    can still be asked for. *)
Definition ex_entry_served : PayloadEntry :=
  new_submission ex_full 4 None None (mkSubmissionVersion 1 None) (mkSubmissionTrace 1 1 1) (Some 200).
Definition ex_later : list (AucOp (BP := ex_points)) :=
  [AFlags true false; AEvent (ex_clock 5) (ESlotData 5 (Some ex_duty) [ex_attributes] None)].

Lemma ex_later_ok : Forall (op_ok (ES := mainnet) (BP := ex_points) 1) ex_later.
Proof. repeat constructor; vm_compute; discriminate || reflexivity. Qed.

Lemma served_header_stays_deliverable_witness :
  ∃ st c o st1 c1 o1 st2 c2 o2,
    ex_run ex_simulated state_default ex_start = Some (st, c, o) ∧
    step (HO := list_order) (FX := ex_hash) (ES := mainnet) (TH := ex_roots) (BP := ex_points)
      (BA := DefaultBidAdjustor) (RE := ex_env) ex_merge_config (ex_clock 4) st
      (EGetHeader (mkGetHeaderParams 5 100 3) 7 true) c = Some (st1, c1, o1) ∧
    ex_run ex_later st1 c1 = Some (st2, c2, o2) ∧
    ∃ local, cx_payloads c2 !! 1010 = Some local.
Proof.
  destruct (ex_run ex_simulated state_default ex_start) as [[[st c] o]|] eqn:E; [|by vm_compute in E].
  destruct (step (HO := list_order) (FX := ex_hash) (ES := mainnet) (TH := ex_roots)
    (BP := ex_points) (BA := DefaultBidAdjustor) (RE := ex_env) ex_merge_config (ex_clock 4) st
    (EGetHeader (mkGetHeaderParams 5 100 3) 7 true) c) as [[[st1 c1] o1]|] eqn:E1;
    [|exfalso; vm_compute in E; injection E as <- <- <-; by vm_compute in E1].
  destruct (ex_run ex_later st1 c1) as [[[st2 c2] o2]|] eqn:E2.
  - assert (OHeader 7 (Ok ex_entry_served) ∈ o1 ∧ cx_bid_slot c2 = cx_bid_slot c) as [Hin Hs].
    { clear -E E1 E2. vm_compute in E. injection E as <- <- <-. vm_compute in E1.
      injection E1 as <- <- <-. vm_compute in E2. injection E2 as <- <- <-.
      split; [|reflexivity]. apply list_elem_of_singleton. reflexivity. }
    destruct (served_header_stays_deliverable (HO := list_order) (FX := ex_hash) (ES := mainnet)
      (TH := ex_roots) (BP := ex_points) (BA := DefaultBidAdjustor) (RE := ex_env) ex_merge_config
      ex_lawful [ex_client] false false (local_cache_new (BP := ex_points)) tt ex_simulated
      (ex_clock 4) (mkGetHeaderParams 5 100 3) 7 true ex_later st c o st1 c1 o1 st2 c2 o2
      ex_entry_served ex_simulated_ok ltac:(vm_compute; discriminate) ex_later_ok E E1 Hin E2 Hs)
      as [(local & Hlocal & _) _].
    exists st, c, o, st1, c1, o1, st2, c2, o2. split_and!; [reflexivity|exact E1|exact E2|].
    exists local. exact Hlocal.
  - exfalso. clear -E E1 E2. vm_compute in E. injection E as <- <- <-. vm_compute in E1.
    injection E1 as <- <- <-. vm_compute in E2. discriminate.
Defined.

(** ** A transactions root nobody checks

    The builder of the served block submits it again, dehydrated, with a wrong
    transactions root. The simulation result of the block is known, so the
    resubmission is answered from it without the check of the root, and it
    replaces the stored payload. *)
Definition ex_wrong_root : DehydratedBidSubmissionFulu := ex_dehydrated1 <| dh_tx_root := Some 666 |>.
Definition ex_sub2 : SubmissionData :=
  mkSubmissionData 2 (ref_http 2) (Dehydrated (DFulu ex_wrong_root)) None
    (mkSubmissionVersion 2 None) (Some 4) (mkSubmissionTrace 2 2 2) Fulu false.
Definition ex_resubmitted : list (AucOp (BP := ex_points)) :=
  ex_simulated ++ [AEvent (ex_clock 4) (ESubmission ex_sub2); APoll (ex_clock 5) (λ _, 5);
                   ex_header 7].

Definition headers_of : list Output → list PayloadEntry := omap (λ o,
  match o with OHeader _ (Ok e) => Some e | _ => None end).
Definition results_of : list Output → list (Uuid * Result unit BuilderApiError) := omap (λ o,
  match o with OSubmissionResult id _ r => Some (id, r) | _ => None end).
Definition demotions_of : list Output → list Pubkey := omap (λ o,
  match o with ODb (DbDemoteBuilder _ builder _ _ _ _) => Some builder | _ => None end).
(** A history in which a builder resubmits a simulated block with a wrong
    transactions root: both submissions are accepted, the builder is not
    demoted, the header served carries the wrong root, and the block the
    proposer signs from it is refused with a header mismatch, so that the
    payload of a header the relay served is not delivered. *)
Theorem unchecked_tx_root_served :
  ∃ st c o e, ex_run ex_resubmitted state_default ex_start = Some (st, c, o) ∧
    results_of o = [(1, Ok tt); (2, Ok tt)] ∧ demotions_of o = [] ∧ headers_of o = [e] ∧
    ¬ roots_match (TH := ex_roots) e ∧
    step (HO := list_order) (FX := ex_hash) (ES := mainnet) (TH := ex_roots) (BP := ex_points)
      (BA := DefaultBidAdjustor) (RE := ex_env) ex_merge_config (ex_clock 6) st
      (EGetPayload (entry_block_hash e) (ex_blinded (into_builder_bid_slow (TH := ex_roots) e))
         (mkGetPayloadTrace 0 0) 8) c =
      Some (st, c, [OPayload 8 (Err ProposerApi.BlindedBlockAndPayloadHeaderMismatch)]).
Proof.
  eexists _, _, _, _. split; [vm_compute; reflexivity|].
  split; [vm_compute; reflexivity|]. split; [vm_compute; reflexivity|].
  split; [vm_compute; reflexivity|]. split; [|vm_compute; reflexivity].
  intros [_ H]. specialize (H _ eq_refl). vm_compute in H. discriminate.
Qed.

(** ** A builder its pool makes optimistic

    From [Follow] on admission follows the pool: builder 1 is a member of a
    promoted pool, and its own record was never promoted. It submits two blocks
    and the simulation of the first fails. *)
Definition ex_pool_cache : LocalCache (BP := ex_points) :=
  (local_cache_new (BP := ex_points))
    <| lc_builder_info := {[1 := builder_info_default]} |>
    <| lc_promotion_mode := Follow |>
    <| lc_pool_binding := {[1 := mkPoolBinding 0 false]} |>
    <| lc_pool_view := {[0 := mkPoolView [65] 100 true]} |>.
Definition ex_sub3 : SubmissionData :=
  mkSubmissionData 3 (ref_http 3)
    (Full (SFulu (mkSignedBidSubmissionFulu (ex_trace <| bt_block_hash := 1011 |>)
       ((ex_payload [ex_tx 1] [ex_withdrawal]) <| ep_block_hash := 1011 |>)
       (mkBlobsBundle [7] (replicate 128 5) [70]) [] 0))) None
    (mkSubmissionVersion 3 None) (Some 4) (mkSubmissionTrace 3 3 3) Fulu false.
Definition ex_invalid_block : BlockSimError := BlockValidationFailed "invalid gas used".
Definition ex_pool_ops : list (AucOp (BP := ex_points)) :=
  [ASync 0 (Some true); APoll (ex_clock 0) (λ _, 0);
   AEvent (ex_clock 1) (ESlotData 5 (Some ex_duty) [ex_attributes] None);
   AEvent (ex_clock 2) (ESubmission ex_sub1);
   ATask 0 (mkSimReply (Err ex_invalid_block) (Err ex_invalid_block) 5);
   APoll (ex_clock 3) (λ _, 3);
   AEvent (ex_clock 4) (ESubmission ex_sub3)].

Definition reports_of : list Output → list Demotion := omap (λ o,
  match o with OOperator d => Some d | _ => None end).
Definition sorted_hashes (c : AuctioneerContext (BP := ex_points) (BA := DefaultBidAdjustor))
    : option B256 := get_header (mkForkKey 100 200) (cx_bid_sorter c).

(** A history in which a builder that its pool makes optimistic has a block
    accepted before its simulation, the simulation fails on grounds that
    demote a builder, and the builder is neither demoted nor reported: its
    next block is accepted and served before its simulation again. *)
Theorem pool_builder_not_demoted :
  is_demotable ex_invalid_block = true ∧
  ∃ st c o, ex_run ex_pool_ops state_default
      (start (BP := ex_points) (BA := DefaultBidAdjustor) (RE := ex_env) [ex_client] false false
         ex_pool_cache tt) = Some (st, c, o) ∧
    results_of o = [(1, Ok tt); (3, Ok tt)] ∧ demotions_of o = [] ∧ reports_of o = [] ∧
    bf_is_optimistic (builder_info c 1) = true ∧ sorted_hashes c = Some 1011.
Proof.
  split; [vm_compute; reflexivity|]. eexists _, _, _. split; [vm_compute; reflexivity|].
  repeat split; vm_compute; reflexivity.
Qed.
